(* ===== verification/_CoqProject ===== *)
-Q . S2P
Prelude.v
Padme.v
Aead.v
Signatures.v
RingBuffer.v
RateLimiter.v
Ratchet.v
Messages.v
Grpc.v
PgTask.v
Credentials.v
ConnectionPackages.v
AuthDb.v
AuthTokens.v
AuthUsers.v
AuthNames.v
AuthGrpc.v
AuthDbCorrect.v
AuthTokensCorrect.v
AuthEffects.v
AuthOps.v
AuthCorrect.v
AuthCharges.v
AuthAllowance.v
AuthAuthority.v
AuthNamesCorrect.v
AuthTrust.v
AuthCodes.v
AuthStream.v
AuthExample.v
Qs.v
QsApi.v
QsGrpc.v
QsCorrect.v
PgListen.v
QsApiCorrect.v
QsAuth.v
QsExample.v
MemoryProvider.v
Mls.v
MlsExample.v
MlsCorrect.v
Apq.v
ApqExtension.v
ApqMls.v
ApqClient.v
ApqMlsCorrect.v
ApqClientCorrect.v
ApqExample.v
DsState.v
DsStateCorrect.v
DsOps.v
DsOpsCorrect.v
DsApqCorrect.v
DsApqLinked.v
DsExample.v
DsService.v
DsServiceCorrect.v
DsServiceExample.v
ClientBase.v
ClientQueue.v
ClientQueueCorrect.v
ClientDelivery.v
ClientDeliveryCorrect.v
ClientExample.v
ClientStream.v
OutboundTask.v
OutboundDb.v
OutboundWorker.v
ClientGroup.v
OutboundSend.v
OutboundSendCorrect.v
PendingOperation.v
PendingOperationCorrect.v
PendingCommit.v
PendingSettled.v
OutboundExample.v
OperationQueue.v
OperationQueueCorrect.v
OperationExample.v
