(* ===== verification/Prelude.v ===== *)
(** * Verification of the Air messenger (root file)

    Air is an end-to-end encrypted messenger on MLS.  A homeserver runs three
    services ([backend/src]): the authentication service ([auth_service]) registers
    users, signs their credentials, issues and redeems anonymous tokens and keeps
    usernames; the queue service ([qs]) keeps a queue of encrypted messages per
    client and hands out key packages; the delivery service ([ds]) keeps the encrypted
    public state of the groups, checks what clients do to them and fans their messages
    out to the queues.  The services share [common] (cryptography, credentials, codecs,
    messages), [protos] (the gRPC messages and their signatures), [mls-assist] (the
    server's view of an MLS group) and [apqmls] (pairs of a traditional and a
    post-quantum group), of which clients use the same code.  A client ([coreclient])
    keeps its state in SQLite: it drains its queue, and its outbound service sends what is
    queued for sending and repeats what failed.

    ** Method

    Rust functions are Rocq functions with the same name where it is free.  Fallible
    code returns [Result E A]; code with state is in the monad [M S E] (this file),
    whose state survives a failure, so that what a failing handler has already done
    stays visible.  Machine integers are [Z] with wrap-around where it can happen; bytes
    are lists of [Z].  Hash maps and tables are [gmap]s.  Crates outside of the
    repository (OpenMLS, AES-GCM, HKDF, signature schemes, privacypass, Argon2, prost,
    the CBOR and TLS codecs, the room policy) are classes of operations; what the code
    relies on is a separate class of laws of their documented behaviour.  The database,
    the clock, random numbers and the order of unordered scans are oracles that are read
    in order, so that a theorem covers every behaviour of them: every statement may fail,
    a failing transaction rolls back, messages already handed on stay.  The files
    named [..Example] have concrete instances of all classes, which meet the laws, and
    evaluate the theorems on small inputs.

    ** Files and what they model

    - This file: [Result], [M], integers, bytes, the tactics [inv_ok], [bindM],
      [stepM], [leafM] and the hint database [air].
    - Padme, Aead, Signatures, Ratchet: [common/src/padme.rs], [common/src/crypto],
      [common/src/codec], [protos/src/signed.rs].  Padding is a closure operator with
      small overhead; encryption and codecs round-trip; the bytes that are verified
      are the bytes that a payload was decoded from; the ratchets of the two sides stay
      synchronised.
    - RingBuffer: [applogic/src/util/file_ring_buffer.rs], a refinement of the last
      bytes written.
    - RateLimiter: [backend/src/rate_limiter], budget per window, for storages that
      update atomically.
    - Messages, Grpc, Credentials, ConnectionPackages: messages between services,
      statuses and versions, the chain of credentials, connection packages.
    - PgTask, PgListen: the task that listens to Postgres notifications, and its
      interleavings with enqueues, listeners that come and go and lost connections
      ([backend/src/pg_listen.rs]).  Steps are labelled with what they lose.
    - The authentication service.  AuthDb: tables, statements, transactions.
      AuthTokens, AuthUsers, AuthNames: tokens, invitation codes, users, keys, usernames
      with their queues.  AuthGrpc: all handlers and the protocol for connecting.
      AuthEffects and AuthOps: the abstract specification, a list of effects with their
      conditions, and the proof that every run of operations refines it.  AuthDbCorrect
      and AuthTokensCorrect are the proof library.  AuthCorrect: invariants of the
      tables; AuthCharges: no token pays twice, unless it is redeemed so soon
      after the creation of its key that its nonce is pruned first; AuthAllowance: tokens issued fit the
      allowance; AuthAuthority and AuthNamesCorrect: who can change what; AuthTrust:
      the stored credentials verify up to the service, at the precision of
      the columns; AuthCodes: invitation codes
      and profiles; AuthStream: a listener yields each offer once.
    - The queue service.  Qs: client records, queues, enqueueing, the listen stream
      as a state machine.  QsApi and QsGrpc: users, key packages, handlers.  QsCorrect:
      a listener yields exactly the history of its queue, enqueueing is atomic.
      QsApiCorrect: invariants, key packages are used once.  QsAuth: requests are
      served under the sender's key and change only its rows.
    - Groups.  MemoryProvider: the storage of [mls-assist], a refinement of a map.
      Mls and MlsCorrect: [Group], with loading, processing and acceptance of
      messages; memory, storage and group info agree over every run, and past states are
      handed to added clients only.  Apq: the pair of groups in mls-assist.
      ApqExtension, ApqMls, ApqClient: the crate [apqmls] on servers and clients;
      ApqMlsCorrect, ApqClientCorrect: the groups of a pair stay linked, also over
      commits on the T group alone, all parties install the same pre-shared key, a failed
      external commit is rolled back.
    - The delivery service.  DsState and DsStateCorrect: the group state and its
      encryption at rest, which round-trips.  DsOps: the operations on a state.
      DsOpsCorrect: profiles and members agree; who is served by an operation.
      DsApqCorrect and DsApqLinked: the legs of an APQ group agree, and every accepted pair
      of commits links them, whatever was done to one leg alone.  DsService and DsServiceCorrect: all handlers
      over the database, the reserved ids and the queue service; requests are
      authenticated first, failures are rolled back, what is answered was stored.
    - The client.  ClientBase: connections, transactions, savepoints, notifications and
      the memory next to the database ([coreclient/src/db]), with the frames by which the
      client's theorems are proved.  ClientQueue: the stored ratchet, processing of a message in its
      transaction and savepoint, the processor of streamed events and the draining of
      the queue ([coreclient/src/key_stores], [coreclient/src/clients],
      [applogic/src/messages.rs]).  ClientQueueCorrect: decryption by position, batches,
      what failures lose.  ClientDelivery and ClientDeliveryCorrect: server queue,
      connections and the client's sessions as one system.  In any run ([any_step]) a
      payload is handled at most once and in order; when the ratchet can be stored and no
      background batch stops early ([careful_step]), exactly once, and the client can
      always catch up.  ClientStream: the task that
      keeps a stream open.
    - The outbound service ([coreclient/src/outbound_service], [coreclient/src/job]).
      OutboundTask: the tokens, the task and the futures of its callers, and when these
      resolve.  OutboundDb: the tables.  OutboundWorker: the loops of workers.
      ClientGroup: [coreclient/src/groups] as far as it is used here, that is loading,
      messages, pending commits, leaving.  OutboundSend and OutboundSendCorrect: messages,
      reactions and receipts; no queued message is lost, and the workers return.
      PendingOperation and PendingOperationCorrect: chat operations that wait for the
      delivery service.  PendingCommit: a commit is merged only if it was accepted.
      PendingSettled: what each answer leaves behind.  OperationQueue and
      OperationQueueCorrect: the queue of other work, the fetching of profiles and the
      timed tasks.

    ** Bounds and fuel

    [RingBuffer.drain] takes fuel; as many rounds as bytes remain are enough, since
    every round consumes one.  [DsService.request_group_id] draws ids until one is
    free; more rounds than ids are reserved are enough when the draws differ.
    [AuthUsers.generate_loop] runs once: its INSERT fails on a conflict, so the loop of
    the code never repeats.  [QsCorrect.poll] needs at most three turns until a
    message that is stored is yielded.  [ClientQueue.catch_up] takes as many turns as
    the ratchet is behind, one number each.  [OutboundWorker.work_loop] takes a turn for every row that its worker
    can take, and one more: a row that was taken is locked under the id of the run; six more
    for the timed tasks that are scheduled first.  [PgTask.BROADCAST_CAPACITY] is the capacity
    of the code's channel.  Recursion is structural everywhere else.

    ** Not modelled

    Cryptographic strength: laws say that decryption inverts encryption and that a
    verified signature was made, not that an adversary fails.  The generated protobuf
    code and the gRPC transport (tonic); SQL text, which is modelled by what the
    statements do; metrics and logging; configuration and the
    start of the server ([server], [backend/src/settings.rs]); attachments in S3
    ([backend/src/ds/attachments.rs], presigned URLs of an external store) and push
    providers ([server/src], HTTP calls to Apple and Google); the network client
    ([apiclient]); the user interface ([app], [applogic], except for the ring buffer, the
    stream task and the background fetch) and the rest of the orchestration on the device
    ([coreclient]: the handlers of received messages and of timed tasks are parameters of
    the client's model; the staging of commits other than leaving, resyncs, attachments,
    contacts and profiles are left out); build tools, test harness and deployment.  Concurrent
    handlers are serialized at their transactions: interleavings are explicit where the
    code relies on more than a transaction (listeners, the notification task, reserved
    ids), and elsewhere not modelled. *)

From stdpp Require Export base numbers list option gmap sets strings.
From Stdlib Require Export ZArith Lia.

#[global] Open Scope Z_scope.
#[export] Set Default Goal Selector "!".

Declare Scope air_scope.
Delimit Scope air_scope with air.

(** ** Fallible code: [Result] *)

(** Rust's [Result<A, E>]; the error type comes first so that [Result E] is a
    monad. *)
Inductive Result (E A : Type) : Type :=
| Ok (a : A)
| Err (e : E).
Arguments Ok {E A} a.
Arguments Err {E A} e.

#[export] Instance Result_ret E : MRet (Result E) := fun A a => Ok a.
#[export] Instance Result_bind E : MBind (Result E) := fun A B f m =>
  match m with Ok a => f a | Err e => Err e end.
#[export] Instance Result_fmap E : FMap (Result E) := fun A B f m =>
  match m with Ok a => Ok (f a) | Err e => Err e end.
#[export] Instance Result_eq_dec E A `{EqDecision E, EqDecision A} :
  EqDecision (Result E A).
Proof. solve_decision. Defined.

Definition map_err {E F A} (f : E -> F) (m : Result E A) : Result F A :=
  match m with Ok a => Ok a | Err e => Err (f e) end.

(** [Option::ok_or]. *)
Definition ok_or {E A} (e : E) (o : option A) : Result E A :=
  match o with Some a => Ok a | None => Err e end.

(** [Result::ok]. *)
Definition ok {E A} (m : Result E A) : option A :=
  match m with Ok a => Some a | Err _ => None end.

Definition is_ok {E A} (m : Result E A) : bool :=
  match m with Ok _ => true | Err _ => false end.

(** An early return: [if !b { return Err(e) }]. *)
Definition ensure {E} (b : bool) (e : E) : Result E unit :=
  if b then Ok tt else Err e.

Lemma Result_bind_Ok {E A B} (m : Result E A) (f : A -> Result E B) b :
  m ≫= f = Ok b <-> exists a, m = Ok a /\ f a = Ok b.
Proof.
  destruct m as [a|e]; cbn; split; [eauto| |discriminate|].
  - intros (a' & [= <-] & H); exact H.
  - intros (a' & [=] & _).
Qed.

#[export] Instance Ok_inj {E A} : Inj (=) (=) (@Ok E A).
Proof. by intros a b [=]. Qed.

Lemma ensure_Ok {E} b (e : E) u : ensure b e = Ok u <-> b = true.
Proof. destruct b, u; cbn; split; congruence. Qed.

Lemma ok_or_Ok {E A} (e : E) (o : option A) a : ok_or e o = Ok a <-> o = Some a.
Proof. destruct o; cbn; split; congruence. Qed.

Lemma map_err_Ok {E F A} (f : E -> F) (m : Result E A) a :
  map_err f m = Ok a <-> m = Ok a.
Proof. destruct m; cbn; split; congruence. Qed.

(** Iterating a fallible body over a list ([for x in xs { .. ? }]), threading an
    accumulator. *)
Fixpoint foldM {E A B} (f : B -> A -> Result E B) (b : B) (l : list A) : Result E B :=
  match l with
  | [] => Ok b
  | a :: l => b' ← f b a; foldM f b' l
  end.

(** [iter.map(f).collect::<Result<Vec<_>, _>>()]. *)
Fixpoint mapM_r {E A B} (f : A -> Result E B) (l : list A) : Result E (list B) :=
  match l with
  | [] => Ok []
  | a :: l => b ← f a; bs ← mapM_r f l; Ok (b :: bs)
  end.

(** An accumulator invariant of a fallible loop. *)
Lemma foldM_ind {E A B} (P : B -> Prop) (f : B -> A -> Result E B) l b b' :
  P b -> (forall b a b', a ∈ l -> P b -> f b a = Ok b' -> P b') ->
  foldM f b l = Ok b' -> P b'.
Proof.
  revert b; induction l as [|a l IH]; cbn; intros b Hb Hf.
  - by intros [= <-].
  - intros (b1 & H1 & H2)%Result_bind_Ok.
    apply (IH b1); [eapply Hf; [left|exact Hb|exact H1]| |exact H2].
    intros; eapply Hf; [right; eassumption|eassumption|eassumption].
Qed.

Lemma foldM_app {E A B} (f : B -> A -> Result E B) l1 l2 b :
  foldM f b (l1 ++ l2) = foldM f b l1 ≫= fun b' => foldM f b' l2.
Proof.
  revert b; induction l1 as [|a l1 IH]; cbn; intros b; [done|].
  destruct (f b a) as [b1|e]; cbn; [apply IH|done].
Qed.

Lemma mapM_r_Ok {E A B} (f : A -> Result E B) l bs :
  mapM_r f l = Ok bs <-> Forall2 (fun a b => f a = Ok b) l bs.
Proof.
  revert bs; induction l as [|a l IH]; cbn; intros bs; split.
  - intros [= <-]; constructor.
  - intros H; inversion H; reflexivity.
  - intros (b & Hb & (bs' & Hbs & [= <-])%Result_bind_Ok)%Result_bind_Ok.
    constructor; [exact Hb|]. by apply IH.
  - intros H; inversion H as [|? b ? bs' Hb Hbs]; subst.
    rewrite Hb; cbn. apply IH in Hbs. by rewrite Hbs.
Qed.

Lemma mapM_r_Err {E A B} (f : A -> Result E B) l e :
  mapM_r f l = Err e -> exists a, a ∈ l /\ f a = Err e.
Proof.
  induction l as [|a l IH]; cbn; [discriminate|]. destruct (f a) as [b|e'] eqn:Ef; cbn.
  - destruct (mapM_r f l); cbn; [discriminate|]. intros [= ->].
    destruct (IH eq_refl) as (a' & ? & ?). exists a'. split; [by right|done].
  - intros [= ->]. exists a. split; [left|done].
Qed.

(** ** Stateful fallible code: [M S E] *)

(** A computation that reads and writes a state [S], and returns or fails.  The
    state after a failure is kept: what a failing handler already did to its
    environment stays visible. *)
Definition M (S E A : Type) : Type := S -> Result E A * S.

#[export] Instance M_ret S E : MRet (M S E) := fun A a s => (Ok a, s).
#[export] Instance M_bind S E : MBind (M S E) := fun A B f m s =>
  match m s with
  | (Ok a, s') => f a s'
  | (Err e, s') => (Err e, s')
  end.

Definition throw {S E A} (e : E) : M S E A := fun s => (Err e, s).
Definition get {S E} : M S E S := fun s => (Ok s, s).
Definition gets {S E A} (f : S -> A) : M S E A := fun s => (Ok (f s), s).
Definition modify {S E} (f : S -> S) : M S E unit := fun s => (Ok tt, f s).
Definition lift {S E A} (r : Result E A) : M S E A := fun s => (r, s).
Definition try_ {S E F A} (m : M S E A) : M S F (Result E A) := fun s =>
  let '(r, s') := m s in (Ok r, s').
Definition map_errM {S E F A} (f : E -> F) (m : M S E A) : M S F A := fun s =>
  let '(r, s') := m s in (map_err f r, s').

Fixpoint mapM_ {S E A} (f : A -> M S E unit) (l : list A) : M S E unit :=
  match l with
  | [] => mret tt
  | a :: l => _ ← f a; mapM_ f l
  end.

Lemma M_bind_Ok {S E A B} (m : M S E A) (f : A -> M S E B) s b s' :
  (m ≫= f) s = (Ok b, s') <->
  exists a s1, m s = (Ok a, s1) /\ f a s1 = (Ok b, s').
Proof.
  unfold mbind, M_bind. destruct (m s) as [[a|e] s1]; split.
  - eauto.
  - intros (? & ? & [= <- <-] & H); exact H.
  - discriminate.
  - intros (? & ? & [=] & _).
Qed.

Lemma M_bind_Err {S E A B} (m : M S E A) (f : A -> M S E B) s e s' :
  (m ≫= f) s = (Err e, s') <->
  m s = (Err e, s') \/ exists a s1, m s = (Ok a, s1) /\ f a s1 = (Err e, s').
Proof.
  unfold mbind, M_bind. destruct (m s) as [[a|e'] s1]; split.
  - right; eauto.
  - intros [[=]|(? & ? & [= <- <-] & H)]; exact H.
  - left; congruence.
  - intros [[= -> ->]|(? & ? & [=] & _)]; reflexivity.
Qed.

(** Both cases at once. *)
Lemma M_bind_inv {S E A B} (m : M S E A) (f : A -> M S E B) s r s' :
  (m ≫= f) s = (r, s') ->
  exists q s1, m s = (q, s1) /\
    match q with Ok a => f a s1 = (r, s') | Err e => r = Err e /\ s' = s1 end.
Proof.
  unfold mbind, M_bind. destruct (m s) as [[a|e] s1]; intros Hf; [by exists (Ok a), s1|].
  injection Hf as <- <-. by exists (Err e), s1.
Qed.
Lemma map_errM_inv {S E F A} (f : E -> F) (m : M S E A) s r s' :
  map_errM f m s = (r, s') -> exists q, m s = (q, s') /\ r = map_err f q.
Proof. unfold map_errM. destruct (m s) as [q s1]. intros [= <- <-]. eauto. Qed.
Lemma try_inv {S E F A} (m : M S E A) s (r : Result F (Result E A)) s' :
  try_ m s = (r, s') -> exists q, m s = (q, s') /\ r = Ok q.
Proof. unfold try_. destruct (m s) as [q s1]. intros [= <- <-]. eauto. Qed.

Lemma lift_Ok {S E A} (r : Result E A) (s : S) a s' :
  lift r s = (Ok a, s') <-> r = Ok a /\ s' = s.
Proof. unfold lift; split; [intros [= -> ->]; auto | intros [-> ->]; reflexivity]. Qed.

(** ** Machine integers and byte strings *)

(** Bytes are integers in [0, 256). *)
Abbreviation bytes := (list Z) (only parsing).

Definition byte_ok (b : Z) : Prop := 0 <= b < 256.

(** [as_bytes] of a string. *)
Definition bytes_of_string (s : string) : bytes :=
  map (fun a => Z.of_N (Ascii.N_of_ascii a)) (String.list_ascii_of_string s).

Definition U32 : Z := 2 ^ 32.
Definition U64 : Z := 2 ^ 64.

(** Wrap-around at 64 bits, unsigned and signed ([as i64]). *)
Definition wrap_u64 (z : Z) : Z := z mod U64.
Definition as_i64 (z : Z) : Z := (z + 2 ^ 63) mod U64 - 2 ^ 63.

(** At 16 bits: [as u16] and [as i16]. *)
Definition as_u16 (z : Z) : Z := z mod 2 ^ 16.
Definition as_i16 (z : Z) : Z := (z + 2 ^ 15) mod 2 ^ 16 - 2 ^ 15.

(** [saturating_sub] on unsigned integers. *)
Definition sat_sub (a b : Z) : Z := Z.max 0 (a - b).

Lemma wrap_u64_small z : 0 <= z < U64 -> wrap_u64 z = z.
Proof. apply Z.mod_small. Qed.

Lemma as_i64_small z : - 2 ^ 63 <= z < 2 ^ 63 -> as_i64 z = z.
Proof. intros H. unfold as_i64, U64. rewrite Z.mod_small; lia. Qed.

Lemma as_u16_small z : 0 <= z < 2 ^ 16 -> as_u16 z = z.
Proof. apply Z.mod_small. Qed.

(** A column of type SMALLINT holds a [u16] without loss. *)
Lemma as_u16_as_i16 z : as_u16 (as_i16 z) = as_u16 z.
Proof. unfold as_u16, as_i16. rewrite Zminus_mod_idemp_l. f_equal. lia. Qed.

(** [to_le_bytes] and [from_le_bytes] at a width of [n] bytes. *)
Fixpoint to_le_bytes (n : nat) (z : Z) : bytes :=
  match n with
  | O => []
  | S n => z mod 256 :: to_le_bytes n (z / 256)
  end.

Fixpoint from_le_bytes (l : bytes) : Z :=
  match l with
  | [] => 0
  | b :: l => b + 256 * from_le_bytes l
  end.

Lemma length_to_le_bytes n z : length (to_le_bytes n z) = n.
Proof. revert z; induction n as [|n IH]; intros z; cbn; [done|by rewrite IH]. Qed.

Lemma to_le_bytes_ok n z : Forall byte_ok (to_le_bytes n z).
Proof.
  revert z; induction n as [|n IH]; intros z; cbn; constructor; [|apply IH].
  apply Z.mod_pos_bound; lia.
Qed.

Lemma from_to_le_bytes n z :
  0 <= z < 256 ^ Z.of_nat n -> from_le_bytes (to_le_bytes n z) = z.
Proof.
  revert z; induction n as [|n IH]; intros z Hz; cbn [to_le_bytes from_le_bytes].
  - change (256 ^ Z.of_nat 0) with 1 in Hz. lia.
  - rewrite Nat2Z.inj_succ, Z.pow_succ_r in Hz by lia.
    rewrite IH; [pose proof (Z.div_mod z 256); lia|].
    split; [apply Z.div_pos; lia | apply Z.div_lt_upper_bound; lia].
Qed.

Lemma from_le_bytes_bound l :
  Forall byte_ok l -> 0 <= from_le_bytes l < 256 ^ Z.of_nat (length l).
Proof.
  induction 1 as [|b l Hb _ IH]; cbn [from_le_bytes length]; [change (256 ^ Z.of_nat 0) with 1; lia|].
  rewrite Nat2Z.inj_succ, Z.pow_succ_r by lia. unfold byte_ok in Hb. lia.
Qed.

Lemma to_from_le_bytes l :
  Forall byte_ok l -> to_le_bytes (length l) (from_le_bytes l) = l.
Proof.
  induction 1 as [|b l Hb _ IH]; cbn [from_le_bytes length to_le_bytes]; [done|].
  unfold byte_ok in Hb. f_equal.
  - rewrite Z.mul_comm, Z.mod_add, Z.mod_small; lia.
  - rewrite Z.mul_comm, Z.div_add, Z.div_small by lia. exact IH.
Qed.

(** ** Automation *)

Create HintDb air.
#[export] Hint Resolve to_le_bytes_ok : air.


(** Take a successful fallible computation apart into its steps. *)
Ltac inv_ok_step :=
  match goal with
  | H : Ok _ = Ok _ |- _ => apply (inj Ok) in H; subst
  | H : Ok _ = Err _ |- _ => discriminate H
  | H : Err _ = Ok _ |- _ => discriminate H
  | H : mret _ = Ok _ |- _ => unfold mret, Result_ret in H
  | H : _ ≫= _ = Ok _ |- _ =>
      let a := fresh "a" in let H1 := fresh "Hm" in
      apply Result_bind_Ok in H as (a & H1 & H); cbn beta in H
  | H : ensure _ _ = Ok _ |- _ => apply ensure_Ok in H
  | H : ok_or _ _ = Ok _ |- _ => apply ok_or_Ok in H
  | H : map_err _ _ = Ok _ |- _ => apply map_err_Ok in H
  | H : (_, _) = (_, _) |- _ => injection H as H; subst
  end.
Ltac inv_ok := repeat inv_ok_step.

(** Split on the first [match] or [if] of a hypothesis. *)
Ltac case_in H :=
  match type of H with
  | context [match ?x with _ => _ end] =>
      match x with
      | context [match _ with _ => _ end] => fail 1
      | _ => let E := fresh "E" in destruct x eqn:E
      end
  end.

(** Take a successful stateful computation apart: one bind at a time, and its
    leaves. *)
Tactic Notation "bindM" hyp(H) "as" simple_intropattern(p) ident(w) ident(Hm) :=
  apply M_bind_Ok in H as (p & w & Hm & H); cbn beta in H.

(** The same when the computation may fail. *)
Tactic Notation "stepM" hyp(H) "as" ident(q) ident(w) ident(Hm) :=
  apply M_bind_inv in H as (q & w & Hm & H); cbn beta in H.

Ltac eqM H := first [injection H as <- <- <- <- <- <- | injection H as <- <- <- <- <- |
  injection H as <- <- <- <- | injection H as <- <- <- | injection H as <- <- | injection H as <- ].
Ltac leafM H :=
  match type of H with
  | lift _ _ = (Ok _, _) =>
      apply lift_Ok in H as [H ->]
  | get _ = (Ok _, _) => eqM H
  | gets _ _ = (Ok _, _) => eqM H
  | mret _ _ = (Ok _, _) => eqM H
  | modify _ _ = (Ok _, _) => eqM H
  | throw _ _ = (Ok _, _) => discriminate H
  end.
