(* ===== verification/Padme.v ===== *)
(** * Padme length padding ([common/src/padme.rs])

    [padme_len] rounds a content length up to a bucket boundary.  It is modelled
    at the 64-bit width of [usize], with the wrap-around of the addition and the
    bitwise complement written out, and shown to be a closure operator with
    small overhead. *)

From S2P Require Import Prelude.

(** [usize::leading_zeros] at 64 bits. *)
Definition leading_zeros (x : Z) : Z := if x =? 0 then 64 else 63 - Z.log2 x.

(** [!x] at 64 bits. *)
Definition not_u64 (x : Z) : Z := Z.lxor x (Z.ones 64).

(** The number of low bits that the padded length has cleared. *)
Definition padme_z (len : Z) : Z :=
  let e := sat_sub 63 (leading_zeros len) in
  let s := sat_sub 63 (leading_zeros e) + 1 in
  sat_sub e s.

Definition padme_len (len : Z) : Z :=
  let mask := Z.shiftl 1 (padme_z len) - 1 in
  Z.land (wrap_u64 (len + mask)) (not_u64 mask).

Definition padme_padding_len (len : Z) : Z := sat_sub (padme_len len) len.

(** ** The arithmetic of the bit operations *)

(** Rounding up to a multiple of a power of two. *)
Definition round_up (z n : Z) : Z := 2 ^ z * ((n + 2 ^ z - 1) / 2 ^ z).

Lemma sat_log2 x : 0 <= x < U64 -> sat_sub 63 (leading_zeros x) = Z.log2 x.
Proof.
  intros Hx. unfold sat_sub, leading_zeros.
  destruct (Z.eqb_spec x 0) as [->|Hn]; [reflexivity|].
  pose proof (Z.log2_nonneg x). lia.
Qed.

Lemma log2_u64 x : 0 <= x < U64 -> 0 <= Z.log2 x <= 63.
Proof.
  intros Hx. split; [apply Z.log2_nonneg|].
  destruct (Z.eq_dec x 0) as [->|]; [cbn; lia|].
  apply Z.lt_succ_r, Z.log2_lt_pow2; unfold U64 in *; lia.
Qed.

Lemma padme_z_log2 n : 0 <= n < U64 ->
  padme_z n = sat_sub (Z.log2 n) (Z.log2 (Z.log2 n) + 1).
Proof.
  intros Hn. unfold padme_z. rewrite sat_log2 by done.
  pose proof (log2_u64 n Hn). rewrite sat_log2; [done|unfold U64; lia].
Qed.

Lemma padme_z_bound n : 0 <= n < U64 -> 0 <= padme_z n <= Z.log2 n.
Proof.
  intros Hn. rewrite padme_z_log2 by done. unfold sat_sub.
  pose proof (log2_u64 n Hn). pose proof (Z.log2_nonneg (Z.log2 n)). lia.
Qed.

(** The bucket size never exceeds the length. *)
Lemma padme_z_pow n : 0 < n < U64 -> 1 <= 2 ^ padme_z n <= n.
Proof.
  intros Hn. pose proof (padme_z_bound n ltac:(lia)) as Hz.
  pose proof (Z.pow_pos_nonneg 2 (padme_z n)).
  pose proof (Z.pow_le_mono_r 2 (padme_z n) (Z.log2 n)).
  pose proof (Z.log2_spec n). lia.
Qed.

Lemma land_not_mask x z : 0 <= x < U64 -> 0 <= z ->
  Z.land x (not_u64 (Z.ones z)) = 2 ^ z * (x / 2 ^ z).
Proof.
  intros Hx Hz.
  transitivity (Z.ldiff x (Z.ones z)).
  - apply Z.bits_inj'; intros i Hi.
    rewrite Z.land_spec, Z.ldiff_spec. unfold not_u64.
    rewrite Z.lxor_spec. destruct (Z.lt_ge_cases i 64) as [Hlt|Hge].
    + rewrite (Z.ones_spec_low 64) by lia. by rewrite xorb_true_r.
    + rewrite (Z.bits_above_log2 x); [reflexivity|lia|].
      pose proof (log2_u64 x Hx); lia.
  - rewrite Z.ldiff_ones_r, Z.shiftl_mul_pow2, Z.shiftr_div_pow2 by done. lia.
Qed.

Lemma padme_len_round n : 0 <= n -> n + 2 ^ padme_z n - 1 < U64 -> n < U64 ->
  padme_len n = round_up (padme_z n) n.
Proof.
  intros Hn Hm Hu. pose proof (padme_z_bound n ltac:(lia)) as Hz.
  pose proof (Z.pow_pos_nonneg 2 (padme_z n)).
  unfold padme_len, round_up. rewrite Z.shiftl_1_l.
  rewrite wrap_u64_small by lia.
  replace (2 ^ padme_z n - 1) with (Z.ones (padme_z n)) by (rewrite Z.ones_equiv; lia).
  rewrite land_not_mask by (rewrite ?Z.ones_equiv; lia).
  rewrite Z.ones_equiv. do 2 f_equal; lia.
Qed.

Lemma round_up_ge z n : 0 <= z -> n <= round_up z n < n + 2 ^ z.
Proof.
  intros Hz. unfold round_up. pose proof (Z.pow_pos_nonneg 2 z).
  pose proof (Z.div_mod (n + 2 ^ z - 1) (2 ^ z)).
  pose proof (Z.mod_pos_bound (n + 2 ^ z - 1) (2 ^ z)). lia.
Qed.

Lemma round_up_mono z a b : 0 <= z -> a <= b -> round_up z a <= round_up z b.
Proof.
  intros Hz Hab. unfold round_up. pose proof (Z.pow_pos_nonneg 2 z).
  apply Z.mul_le_mono_nonneg_l; [lia|]. apply Z.div_le_mono; lia.
Qed.

Lemma round_up_mult z k : 0 <= z -> round_up z (2 ^ z * k) = 2 ^ z * k.
Proof.
  intros Hz. unfold round_up. pose proof (Z.pow_pos_nonneg 2 z).
  f_equal. symmetry. apply Z.div_unique with (r := 2 ^ z - 1); lia.
Qed.

Lemma round_up_pow z k : 0 <= z <= k -> round_up z (2 ^ k) = 2 ^ k.
Proof.
  intros Hz. replace k with (z + (k - z)) by lia.
  rewrite Z.pow_add_r by lia. apply round_up_mult; lia.
Qed.

(** Below [2^63], the addition cannot overflow. *)
Lemma padme_len_eq n : 0 <= n <= 2 ^ 63 -> padme_len n = round_up (padme_z n) n.
Proof.
  intros Hn. destruct (Z.eq_dec n 0) as [->|Hz]; [reflexivity|].
  destruct (Z.eq_dec n (2 ^ 63)) as [->|Hn63]; [reflexivity|].
  pose proof (padme_z_pow n ltac:(unfold U64; lia)).
  apply padme_len_round; unfold U64; lia.
Qed.

(** A length is padded at most to the next power of two. *)
Lemma padme_len_pow_bound n : 0 < n < 2 ^ 63 ->
  2 ^ Z.log2 n <= n <= padme_len n /\ padme_len n <= 2 ^ (Z.log2 n + 1).
Proof.
  intros Hn. pose proof (padme_z_bound n ltac:(unfold U64; lia)) as Hz.
  rewrite padme_len_eq by lia.
  pose proof (Z.log2_spec n ltac:(lia)).
  pose proof (round_up_ge (padme_z n) n ltac:(lia)). split; [lia|].
  rewrite <- (round_up_pow (padme_z n) (Z.log2 n + 1)) by lia.
  apply round_up_mono; lia.
Qed.

Lemma padme_z_same_log n m : Z.log2 n = Z.log2 m -> 0 <= n < U64 -> 0 <= m < U64 ->
  padme_z n = padme_z m.
Proof. intros H Hn Hm. rewrite !padme_z_log2 by done. by rewrite H. Qed.

Lemma padme_len_ge n : 0 <= n < 2 ^ 63 -> n <= padme_len n.
Proof.
  intros Hn. rewrite padme_len_eq by lia. apply round_up_ge.
  apply padme_z_bound; unfold U64; lia.
Qed.

Lemma padme_len_mono a b : 0 <= a <= b -> b < 2 ^ 63 -> padme_len a <= padme_len b.
Proof.
  intros Hab Hb. destruct (Z.eq_dec a 0) as [->|Ha].
  { change (padme_len 0) with 0. pose proof (padme_len_ge b). lia. }
  destruct (Z.eq_dec (Z.log2 a) (Z.log2 b)) as [He|He].
  - rewrite !padme_len_eq, (padme_z_same_log a b) by (unfold U64; lia || done).
    apply round_up_mono; [|lia]. apply padme_z_bound; unfold U64; lia.
  - pose proof (Z.log2_le_mono a b ltac:(lia)).
    pose proof (padme_len_pow_bound a ltac:(lia)).
    pose proof (padme_len_pow_bound b ltac:(lia)).
    pose proof (Z.pow_le_mono_r 2 (Z.log2 a + 1) (Z.log2 b)). lia.
Qed.

Lemma padme_len_pow2 k : 0 <= k <= 63 -> padme_len (2 ^ k) = 2 ^ k.
Proof.
  intros Hk. pose proof (Z.pow_le_mono_r 2 k 63 ltac:(lia) ltac:(lia)).
  pose proof (Z.pow_pos_nonneg 2 k). rewrite padme_len_eq by lia.
  apply round_up_pow. pose proof (padme_z_bound (2 ^ k) ltac:(unfold U64; lia)).
  rewrite Z.log2_pow2 in *; lia.
Qed.

Lemma padme_len_idem n : 0 <= n < 2 ^ 63 -> padme_len (padme_len n) = padme_len n.
Proof.
  intros Hn. destruct (Z.eq_dec n 0) as [->|Hz]; [reflexivity|].
  pose proof (padme_len_pow_bound n ltac:(lia)) as [Hlo Hhi].
  pose proof (log2_u64 n ltac:(unfold U64; lia)).
  assert (Z.log2 n < 63) by (apply Z.log2_lt_pow2; lia).
  destruct (Z.eq_dec (padme_len n) (2 ^ (Z.log2 n + 1))) as [->|Hne].
  { apply padme_len_pow2; lia. }
  pose proof (Z.pow_le_mono_r 2 (Z.log2 n + 1) 63 ltac:(lia) ltac:(lia)).
  assert (Hlog : Z.log2 (padme_len n) = Z.log2 n).
  { apply Z.log2_unique; [lia|]. replace (Z.succ (Z.log2 n)) with (Z.log2 n + 1); lia. }
  rewrite (padme_len_eq (padme_len n)) by lia.
  rewrite (padme_z_same_log (padme_len n) n) by (unfold U64; lia || done).
  rewrite (padme_len_eq n) by lia. unfold round_up at 2 3.
  apply round_up_mult. apply padme_z_bound; unfold U64; lia.
Qed.

(** For lengths of 256 and more, the bucket is at most a sixteenth of the length. *)
Lemma padme_bucket_large n : 256 <= n < U64 -> 16 * 2 ^ padme_z n <= n.
Proof.
  intros Hn. assert (8 <= Z.log2 n) as He by (apply Z.log2_le_pow2; lia).
  pose proof (Z.log2_le_mono 8 (Z.log2 n) He) as Hs. change (Z.log2 8) with 3 in Hs.
  assert (Z.log2 (Z.log2 n) < Z.log2 n) as Hlt.
  { apply Z.log2_lt_lin; lia. }
  assert (padme_z n <= Z.log2 n - 4) as Hz.
  { rewrite padme_z_log2 by lia. unfold sat_sub. lia. }
  pose proof (Z.pow_le_mono_r 2 (padme_z n) (Z.log2 n - 4) ltac:(lia) Hz).
  pose proof (Z.log2_spec n ltac:(lia)) as [Hlo _].
  replace (Z.log2 n) with (4 + (Z.log2 n - 4)) in Hlo by lia.
  rewrite Z.pow_add_r in Hlo by lia. change (2 ^ 4) with 16 in Hlo. lia.
Qed.

Lemma padme_overhead_small :
  forallb (fun k => let n := Z.of_nat k in 100 * (padme_len n - n) <=? 12 * n) (seq 0 256) = true.
Proof. vm_compute. reflexivity. Qed.

(** [padme_len] pads and never truncates, does not leak order (it is
    monotone), and maps a whole bucket to its top element (it is idempotent), so
    that a padded length reveals the bucket and nothing else. *)
Theorem padme_len_closure (n m : Z) :
  0 <= n < 2 ^ 63 -> 0 <= m < 2 ^ 63 ->
  n <= padme_len n /\
  padme_len (padme_len n) = padme_len n /\
  (n <= padme_len m -> padme_len n <= padme_len m).
Proof.
  intros Hn Hm. split_and!; [by apply padme_len_ge|by apply padme_len_idem|].
  intros Hnm. pose proof (padme_len_pow_bound m) as Hpm.
  destruct (Z.eq_dec m 0) as [->|]; [change (padme_len 0) with 0 in *|].
  { replace n with 0 by lia. reflexivity. }
  destruct (Z.lt_ge_cases (padme_len m) (2 ^ 63)) as [Hlt|Hge].
  - rewrite <- (padme_len_idem m) by done. apply padme_len_mono; lia.
  - destruct (Z.eq_dec n 0) as [->|]; [change (padme_len 0) with 0; lia|].
    pose proof (padme_len_pow_bound n ltac:(lia)) as [_ Hpn].
    assert (Z.log2 n < 63) by (apply Z.log2_lt_pow2; lia).
    pose proof (Z.pow_le_mono_r 2 (Z.log2 n + 1) 63 ltac:(lia) ltac:(lia)). lia.
Qed.

Lemma padme_len_closure_witness : padme_len 129 = 144 /\ padme_len (padme_len 129) = 144.
Proof.
  split; [reflexivity|].
  rewrite (proj1 (proj2 (padme_len_closure 129 129 ltac:(lia) ltac:(lia)))). reflexivity.
Defined.

(** Padding costs at most 12 percent of the content length. *)
Theorem padme_overhead (n : Z) :
  0 <= n < 2 ^ 63 -> 100 * padme_padding_len n <= 12 * n.
Proof.
  intros Hn. pose proof (padme_len_ge n Hn).
  unfold padme_padding_len, sat_sub. rewrite Z.max_r by lia.
  destruct (Z.lt_ge_cases n 256) as [Hlt|Hge].
  - pose proof padme_overhead_small as Hall. rewrite forallb_forall in Hall.
    specialize (Hall (Z.to_nat n)). cbv zeta in Hall. rewrite Z2Nat.id in Hall by lia.
    apply Z.leb_le, Hall, in_seq. lia.
  - pose proof (padme_bucket_large n ltac:(unfold U64; lia)).
    rewrite padme_len_eq by lia.
    pose proof (round_up_ge (padme_z n) n).
    pose proof (padme_z_bound n ltac:(unfold U64; lia)). lia.
Qed.

Lemma padme_overhead_witness : 100 * padme_padding_len 129 <= 12 * 129.
Proof. apply (padme_overhead 129). lia. Defined.
