(* ===== verification/Aead.v ===== *)
(** * Authenticated encryption of values ([common/src/crypto/aead], [common/src/codec])

    The AEAD traits, the versioned persistence codec and the length-padded
    encryption built on them.  AES-256-GCM, CBOR and the TLS codec are external
    crates: each is a class of operations, and what the code relies on is a
    separate class of laws. *)

From S2P Require Import Prelude Padme.

(** ** The external crates *)

(** [aes_gcm]: key, nonce, associated data, message. *)
Class Aes256Gcm := {
  aes_encrypt : bytes -> bytes -> bytes -> bytes -> option bytes;
  aes_decrypt : bytes -> bytes -> bytes -> bytes -> option bytes
}.

(** GCM is deterministic for a given nonce, appends a 16-byte tag, and accepts
    exactly the ciphertexts that encryption produces. *)
Class Aes256GcmLaws `{Aes256Gcm} := {
  aes_length : forall k n a m c, aes_encrypt k n a m = Some c -> length c = (length m + 16)%nat;
  aes_correct : forall k n a m c, aes_encrypt k n a m = Some c <-> aes_decrypt k n a c = Some m
}.

(** [minicbor_serde] at a serializable type. *)
Class Cbor (T : Type) := {
  cbor_encode : T -> option bytes;
  cbor_decode : bytes -> option T
}.
Class CborLaws (T : Type) `{Cbor T} := {
  cbor_correct : forall x bs, cbor_encode x = Some bs -> cbor_decode bs = Some x
}.

(** [tls_codec]: [tls_serialize_detached] and [tls_deserialize_exact_bytes]. *)
Class TlsCodec (T : Type) := {
  tls_serialize_detached : T -> option bytes;
  tls_deserialize_exact_bytes : bytes -> option T
}.
Class TlsCodecLaws (T : Type) `{TlsCodec T} := {
  tls_correct : forall x bs,
    tls_serialize_detached x = Some bs -> tls_deserialize_exact_bytes bs = Some x
}.

(** ** Errors *)

Inductive RandomnessErr := InsufficientRandomness.

Inductive DecryptionErr :=
| DecryptionError
| DeserializationError
| AadSerializationError
| DecRatchetForwardError.

Inductive EncryptionErr :=
| RandomnessError
| EncryptionError
| SerializationError
| EncRatchetForwardError.

(** ** The AEAD key traits *)

(** [AeadCiphertext]. *)
Record AeadCiphertext := { ciphertext : bytes; nonce : bytes }.

#[export] Instance AeadCiphertext_eq_dec : EqDecision AeadCiphertext.
Proof. solve_decision. Defined.

(** [Payload] of the [aead] crate: a message and its associated data. *)
Record Payload := { msg : bytes; aad : bytes }.

(** A byte slice as a payload without associated data. *)
Definition payload_of_slice (m : bytes) : Payload := {| msg := m; aad := [] |}.

Section AeadKey.
Context `{Aes256Gcm}.

(** [AeadKey::encrypt]; the random nonce is the outcome of [Secret::random]. *)
Definition key_encrypt (key : bytes) (nonce_raw : Result RandomnessErr bytes)
    (plaintext : Payload) : Result EncryptionErr AeadCiphertext :=
  nonce ← map_err (fun e => match e with InsufficientRandomness => RandomnessError end) nonce_raw;
  ciphertext ← ok_or EncryptionError (aes_encrypt key nonce (aad plaintext) (msg plaintext));
  Ok {| ciphertext := ciphertext; nonce := nonce |}.

(** The private [decrypt] that both trait methods call. *)
Definition raw_decrypt (key nonce : bytes) (p : Payload) : Result DecryptionErr bytes :=
  ok_or DecryptionError (aes_decrypt key nonce (aad p) (msg p)).

(** [AeadKey::decrypt]. *)
Definition key_decrypt (key : bytes) (ct : AeadCiphertext) : Result DecryptionErr bytes :=
  raw_decrypt key (nonce ct) {| aad := []; msg := ciphertext ct |}.

(** [AeadKey::decrypt_with_aad]. *)
Definition key_decrypt_with_aad (key : bytes) (ct : AeadCiphertext) (a : bytes) :
    Result DecryptionErr bytes :=
  raw_decrypt key (nonce ct) {| aad := a; msg := ciphertext ct |}.

(** [AeadEncryptable::encrypt]. *)
Definition encrypt {T} `{TlsCodec T} (self : T) (key : bytes)
    (rnd : Result RandomnessErr bytes) : Result EncryptionErr AeadCiphertext :=
  plaintext ← ok_or SerializationError (tls_serialize_detached self);
  key_encrypt key rnd (payload_of_slice plaintext).

(** [AeadEncryptable::encrypt_with_aad]. *)
Definition encrypt_with_aad {T A} `{TlsCodec T, TlsCodec A} (self : T) (key : bytes)
    (a : A) (rnd : Result RandomnessErr bytes) : Result EncryptionErr AeadCiphertext :=
  plaintext ← ok_or SerializationError (tls_serialize_detached self);
  a ← ok_or SerializationError (tls_serialize_detached a);
  key_encrypt key rnd {| msg := plaintext; aad := a |}.

(** [AeadDecryptable::decrypt]. *)
Definition decrypt {T} `{TlsCodec T} (key : bytes) (ct : AeadCiphertext) : Result DecryptionErr T :=
  plaintext ← key_decrypt key ct;
  ok_or DeserializationError (tls_deserialize_exact_bytes plaintext).

(** [AeadDecryptable::decrypt_with_aad]. *)
Definition decrypt_with_aad {T A} `{TlsCodec T, TlsCodec A} (key : bytes)
    (ct : AeadCiphertext) (a : A) : Result DecryptionErr T :=
  a ← ok_or AadSerializationError (tls_serialize_detached a);
  plaintext ← key_decrypt_with_aad key ct a;
  ok_or DeserializationError (tls_deserialize_exact_bytes plaintext).

End AeadKey.

(** ** The versioned persistence codec *)

Inductive CodecError := EmptyInputSlice | UnknownCodecVersion | CodecFailure.

(** Outside of the test build, the codec has one version. *)
Inductive PersistenceCodec := V1.

(** [*self as u8]. *)
Definition codec_byte (c : PersistenceCodec) : Z := match c with V1 => 1 end.

(** [TryFrom<u8>]. *)
Definition codec_try_from (value : Z) : Result CodecError PersistenceCodec :=
  if value =? 1 then Ok V1 else Err UnknownCodecVersion.

(** [PersistenceCodec::serialize]. *)
Definition codec_serialize {T} `{Cbor T} (c : PersistenceCodec) (value : T) : option bytes :=
  match c with V1 => body ← cbor_encode value; Some (codec_byte c :: body) end.

(** [PersistenceCodec::to_vec]. *)
Definition to_vec {T} `{Cbor T} (value : T) : Result CodecError bytes :=
  ok_or CodecFailure (codec_serialize V1 value).

(** [PersistenceCodec::from_slice]. *)
Definition from_slice {T} `{Cbor T} (bs : bytes) : Result CodecError T :=
  match bs with
  | [] => Err EmptyInputSlice
  | version :: rest =>
      c ← codec_try_from version;
      match c with V1 => ok_or CodecFailure (cbor_decode rest) end
  end.

(** ** Length padding *)

Definition PAD_PREFIX_LEN : Z := 4.

(** [PaddedAeadEncryptable::PAD_FLOOR]. *)
Definition PAD_FLOOR : Z := 128.

Definition blen (l : bytes) : Z := Z.of_nat (length l).

(** [pad]: the subtraction is the wrapping one of a release build. *)
Definition pad (content : bytes) (floor : Z) : Result EncryptionErr bytes :=
  let total := Z.max floor (padme_len (PAD_PREFIX_LEN + blen content)) in
  let pad_len := wrap_u64 (wrap_u64 (total - PAD_PREFIX_LEN) - blen content) in
  _ ← ensure (pad_len <? U32) SerializationError;
  let padded := to_le_bytes 4 pad_len in
  let padded := resize (Z.to_nat (PAD_PREFIX_LEN + pad_len)) 0 padded in
  Ok (padded ++ content).

(** [slice.get(..n)] and [slice.get(n..)]. *)
Definition get_to (n : Z) (l : bytes) : option bytes :=
  if n <=? blen l then Some (take (Z.to_nat n) l) else None.
Definition get_from (n : Z) (l : bytes) : option bytes :=
  if n <=? blen l then Some (drop (Z.to_nat n) l) else None.

(** [usize::checked_add]. *)
Definition checked_add (a b : Z) : option Z :=
  if a + b <? U64 then Some (a + b) else None.

(** [unpad]. *)
Definition unpad (plaintext : bytes) : Result DecryptionErr bytes :=
  prefix ← ok_or DeserializationError (get_to PAD_PREFIX_LEN plaintext);
  let pad_len := from_le_bytes prefix in
  ok_or DeserializationError
    (start ← checked_add PAD_PREFIX_LEN pad_len; get_from start plaintext).

Section Padded.
Context `{Aes256Gcm}.

(** [pad_and_serialize]. *)
Definition pad_and_serialize {T} `{Cbor T} (content : T) (floor : Z) : Result EncryptionErr bytes :=
  content ← map_err (fun _ => SerializationError) (to_vec content);
  pad content floor.

(** [PaddedAeadEncryptable::encrypt_padded]. *)
Definition encrypt_padded {T} `{Cbor T} (self : T) (key : bytes)
    (rnd : Result RandomnessErr bytes) : Result EncryptionErr AeadCiphertext :=
  plaintext ← pad_and_serialize self PAD_FLOOR;
  key_encrypt key rnd (payload_of_slice plaintext).

(** [PaddedAeadEncryptable::encrypt_padded_with_aad]. *)
Definition encrypt_padded_with_aad {T A} `{Cbor T, Cbor A} (self : T) (key : bytes)
    (a : A) (rnd : Result RandomnessErr bytes) : Result EncryptionErr AeadCiphertext :=
  plaintext ← pad_and_serialize self PAD_FLOOR;
  a ← map_err (fun _ => SerializationError) (to_vec a);
  key_encrypt key rnd {| msg := plaintext; aad := a |}.

(** [PaddedAeadDecryptable::decrypt_padded]. *)
Definition decrypt_padded {T} `{Cbor T} (key : bytes) (ct : AeadCiphertext) :
    Result DecryptionErr T :=
  plaintext ← key_decrypt key ct;
  content ← unpad plaintext;
  map_err (fun _ => DeserializationError) (from_slice content).

(** [PaddedAeadDecryptable::decrypt_padded_with_aad]. *)
Definition decrypt_padded_with_aad {T A} `{Cbor T, Cbor A} (key : bytes)
    (ct : AeadCiphertext) (a : A) : Result DecryptionErr T :=
  a ← map_err (fun _ => AadSerializationError) (to_vec a);
  plaintext ← key_decrypt_with_aad key ct a;
  content ← unpad plaintext;
  map_err (fun _ => DeserializationError) (from_slice content).

End Padded.

(** ** Lemmas *)

Lemma from_slice_to_vec {T} `{CborLaws T} (x : T) bs : to_vec x = Ok bs -> from_slice bs = Ok x.
Proof.
  unfold to_vec, codec_serialize. intros Hx. inv_ok.
  destruct (cbor_encode x) as [body|] eqn:E; [|discriminate]. injection Hx as <-.
  cbn. by rewrite (cbor_correct _ _ E).
Qed.

(** The length a padded plaintext has. *)
Definition padded_len (len floor : Z) : Z := Z.max floor (padme_len (PAD_PREFIX_LEN + len)).

Lemma pad_len_nonneg len floor : 0 <= len -> PAD_PREFIX_LEN + len < 2 ^ 63 ->
  PAD_PREFIX_LEN + len <= padded_len len floor.
Proof.
  intros H0 H1. unfold padded_len, PAD_PREFIX_LEN in *.
  pose proof (padme_len_ge (4 + len)). lia.
Qed.

(** [pad] on every input of a size that a slice can have. *)
Lemma pad_eq content floor :
  PAD_PREFIX_LEN + blen content < 2 ^ 63 -> 0 <= floor <= 2 ^ 63 ->
  pad content floor =
    let n := padded_len (blen content) floor - PAD_PREFIX_LEN - blen content in
    if n <? U32 then Ok (to_le_bytes 4 n ++ replicate (Z.to_nat n) 0 ++ content)
    else Err SerializationError.
Proof.
  intros Hc Hf. pose proof (pad_len_nonneg (blen content) floor) as Hn.
  assert (0 <= blen content) by (unfold blen; lia).
  assert (padded_len (blen content) floor <= 2 ^ 63).
  { unfold padded_len, PAD_PREFIX_LEN in *.
    pose proof (padme_len_pow_bound (4 + blen content) ltac:(lia)) as [_ Hp].
    assert (Z.log2 (4 + blen content) < 63) by (apply Z.log2_lt_pow2; lia).
    pose proof (Z.pow_le_mono_r 2 (Z.log2 (4 + blen content) + 1) 63 ltac:(lia) ltac:(lia)). lia. }
  unfold pad. fold (padded_len (blen content) floor). cbv zeta.
  set (t := padded_len (blen content) floor) in *. unfold PAD_PREFIX_LEN in *.
  rewrite !wrap_u64_small by (rewrite ?wrap_u64_small; unfold U64; lia).
  destruct (Z.ltb_spec (t - 4 - blen content) U32); cbn [ensure mbind Result_bind]; [|done].
  rewrite resize_ge by (rewrite length_to_le_bytes; lia).
  rewrite length_to_le_bytes, <- app_assoc. do 4 f_equal. lia.
Qed.

Lemma get_to_app n l k : blen l = n -> get_to n (l ++ k) = Some l.
Proof.
  unfold get_to, blen. intros <-. rewrite length_app.
  destruct (Z.leb_spec (Z.of_nat (length l)) (Z.of_nat (length l + length k))); [|lia].
  by rewrite Nat2Z.id, take_app_length.
Qed.

Lemma get_from_app n l k : blen l = n -> get_from n (l ++ k) = Some k.
Proof.
  unfold get_from, blen. intros <-. rewrite length_app.
  destruct (Z.leb_spec (Z.of_nat (length l)) (Z.of_nat (length l + length k))); [|lia].
  by rewrite Nat2Z.id, drop_app_length.
Qed.

(** Any padding of the announced length is skipped, zero or not. *)
Lemma unpad_frame n padding content :
  0 <= n < U32 -> blen padding = n -> unpad (to_le_bytes 4 n ++ padding ++ content) = Ok content.
Proof.
  intros Hn Hp. unfold unpad. rewrite get_to_app by (unfold blen; by rewrite length_to_le_bytes).
  cbn [ok_or mbind Result_bind].
  rewrite from_to_le_bytes by exact Hn. unfold checked_add, PAD_PREFIX_LEN.
  destruct (Z.ltb_spec (4 + n) U64); [|unfold U64, U32 in *; lia].
  cbn [mbind option_bind]. rewrite app_assoc, get_from_app; [done|].
  unfold blen in *. rewrite length_app, length_to_le_bytes. lia.
Qed.

Lemma pad_unpad content floor p :
  PAD_PREFIX_LEN + blen content < 2 ^ 63 -> 0 <= floor <= 2 ^ 63 ->
  pad content floor = Ok p -> unpad p = Ok content /\ blen p = padded_len (blen content) floor.
Proof.
  intros Hc Hf. rewrite pad_eq by done. cbv zeta.
  pose proof (pad_len_nonneg (blen content) floor).
  assert (0 <= blen content) by (unfold blen; lia).
  set (n := padded_len (blen content) floor - _ - _) in *.
  destruct (Z.ltb_spec n U32); [|discriminate]. intros <-%(inj Ok). split.
  - apply unpad_frame; [lia|]. unfold blen. rewrite length_replicate. lia.
  - unfold blen in *. rewrite !length_app, length_to_le_bytes, length_replicate.
    unfold PAD_PREFIX_LEN in *. lia.
Qed.

Section Roundtrip.
Context `{Aes256GcmLaws}.

Lemma key_encrypt_Ok key rnd p ct : key_encrypt key rnd p = Ok ct ->
  exists n, rnd = Ok n /\ ct = {| ciphertext := ciphertext ct; nonce := n |} /\
    aes_encrypt key n (aad p) (msg p) = Some (ciphertext ct).
Proof.
  unfold key_encrypt. intros Hk. inv_ok. eauto.
Qed.

Lemma raw_decrypt_encrypt key rnd p ct : key_encrypt key rnd p = Ok ct ->
  raw_decrypt key (nonce ct) {| aad := aad p; msg := ciphertext ct |} = Ok (msg p).
Proof.
  intros (n & -> & -> & Henc)%key_encrypt_Ok. unfold raw_decrypt; cbn.
  apply aes_correct in Henc. cbn in Henc. by rewrite Henc.
Qed.

Lemma decrypt_encrypt {T} `{TlsCodecLaws T} (x : T) key rnd ct :
  encrypt x key rnd = Ok ct -> decrypt key ct = Ok x.
Proof.
  unfold encrypt, decrypt, key_decrypt. intros Hx. inv_ok.
  apply raw_decrypt_encrypt in Hx. cbn in Hx. rewrite Hx. cbn.
  by erewrite tls_correct.
Qed.

End Roundtrip.

(** ** A concrete instance, for evaluation *)

Module Toy.

(** A cipher that appends a zero tag and checks it. *)
#[export] Instance aes : Aes256Gcm := {|
  aes_encrypt := fun _ _ _ m => Some (m ++ replicate 16 0);
  aes_decrypt := fun _ _ _ c =>
    let n := (length c - 16)%nat in
    if decide (drop n c = replicate 16 0) then Some (take n c) else None
|}.

#[export] Instance aes_laws : Aes256GcmLaws.
Proof.
  split.
  - intros k n a m c [= <-]. rewrite length_app. reflexivity.
  - intros k n a m c. cbn [aes_encrypt aes_decrypt aes]. split.
    + intros [= <-]. rewrite length_app. change (length (replicate 16 0)) with 16%nat.
      rewrite Nat.add_sub, drop_app_length, take_app_length.
      by rewrite decide_True.
    + case_decide as Hd; [|discriminate]. intros [= <-].
      by rewrite <- Hd, take_drop.
Qed.

#[export] Instance cbor : Cbor bytes := {| cbor_encode := Some; cbor_decode := Some |}.
#[export] Instance cbor_laws : CborLaws bytes.
Proof. split. by intros x bs [= <-]. Qed.

#[export] Instance tls : TlsCodec bytes :=
  {| tls_serialize_detached := Some; tls_deserialize_exact_bytes := Some |}.
#[export] Instance tls_laws : TlsCodecLaws bytes.
Proof. split. by intros x bs [= <-]. Qed.

End Toy.

(** ** Properties *)

(** What [encrypt_padded_with_aad] produces, [decrypt_padded_with_aad] under
    the same key and associated data turns back into the original value: the
    padding, the codec version byte and the framing are all undone. *)
Theorem padded_aad_roundtrip `{Aes256GcmLaws} {T A} `{CborLaws T, Cbor A}
    (x : T) (a : A) key rnd ct :
  (forall bs, to_vec x = Ok bs -> PAD_PREFIX_LEN + blen bs < 2 ^ 63) ->
  encrypt_padded_with_aad x key a rnd = Ok ct ->
  decrypt_padded_with_aad key ct a = Ok x.
Proof.
  intros Hsize. unfold encrypt_padded_with_aad, decrypt_padded_with_aad, pad_and_serialize.
  intros He. inv_ok. rewrite Hm0. cbn [map_err mbind Result_bind].
  apply raw_decrypt_encrypt in He. cbn in He. unfold key_decrypt_with_aad. rewrite He.
  cbn [mbind Result_bind].
  apply pad_unpad in Hm as [-> _]; [|by eauto|by unfold PAD_FLOOR; lia].
  cbn. by rewrite (from_slice_to_vec _ _ Hm1).
Qed.

Section Evaluate_padded_aad_roundtrip.
Import Toy.

Lemma padded_aad_roundtrip_witness :
  exists ct, encrypt_padded_with_aad (T := bytes) [7; 8] [1] (A := bytes) [2] (Ok [3]) = Ok ct /\
    decrypt_padded_with_aad (A := bytes) [1] ct [2] = Ok [7; 8].
Proof.
  eexists; split; [vm_compute; reflexivity|].
  eapply (padded_aad_roundtrip (T := bytes) (A := bytes) [7; 8] [2] [1] (Ok [3])).
  - intros bs [= <-]. vm_compute. reflexivity.
  - vm_compute. reflexivity.
Defined.

End Evaluate_padded_aad_roundtrip.

(** The ciphertext length of a padded encryption is exactly the bucket size
    plus the tag: two values whose encodings fall into the same bucket are
    indistinguishable by length. *)
Theorem padded_length_hiding `{Aes256GcmLaws} {T} `{Cbor T} (x y : T) kx ky rx ry cx cy bx by' :
  to_vec x = Ok bx -> to_vec y = Ok by' ->
  PAD_PREFIX_LEN + blen bx < 2 ^ 63 -> PAD_PREFIX_LEN + blen by' < 2 ^ 63 ->
  encrypt_padded x kx rx = Ok cx -> encrypt_padded y ky ry = Ok cy ->
  blen (ciphertext cx) = Z.max PAD_FLOOR (padme_len (PAD_PREFIX_LEN + blen bx)) + 16 /\
  (padme_len (PAD_PREFIX_LEN + blen bx) = padme_len (PAD_PREFIX_LEN + blen by') ->
   length (ciphertext cx) = length (ciphertext cy)).
Proof.
  assert (Hlen : forall (z : T) k r c b, to_vec z = Ok b -> PAD_PREFIX_LEN + blen b < 2 ^ 63 ->
    encrypt_padded z k r = Ok c -> blen (ciphertext c) = padded_len (blen b) PAD_FLOOR + 16).
  { intros z k r c b Hz Hb. unfold encrypt_padded, pad_and_serialize. rewrite Hz.
    cbn [map_err mbind Result_bind]. intros Hc. inv_ok.
    apply pad_unpad in Hm as [_ <-]; [|done|unfold PAD_FLOOR; lia].
    apply key_encrypt_Ok in Hc as (n & _ & _ & Hc). apply aes_length in Hc.
    unfold blen, payload_of_slice in *. cbn [msg] in Hc. lia. }
  intros Hx Hy Sx Sy Ex Ey.
  pose proof (Hlen _ _ _ _ _ Hx Sx Ex) as Lx. pose proof (Hlen _ _ _ _ _ Hy Sy Ey) as Ly.
  split; [exact Lx|]. unfold padded_len, blen in *. intros Heq. rewrite Heq in Lx. lia.
Qed.

Section Evaluate_padded_length_hiding.
Import Toy.

Lemma padded_length_hiding_witness :
  exists cx cy, encrypt_padded (T := bytes) [7; 7; 7; 7] [1] (Ok []) = Ok cx /\
    encrypt_padded (T := bytes) [7; 8; 9; 9; 9] [1] (Ok []) = Ok cy /\
    length (ciphertext cx) = length (ciphertext cy).
Proof.
  eexists _, _. split_and!; [vm_compute; reflexivity..|].
  eapply (padded_length_hiding (T := bytes) [7; 7; 7; 7] [7; 8; 9; 9; 9] [1] [1] (Ok []) (Ok [])
            _ _ [1; 7; 7; 7; 7] [1; 7; 8; 9; 9; 9]); vm_compute; reflexivity.
Defined.

End Evaluate_padded_length_hiding.

(** [unpad] accepts exactly the framings [pad_len || padding || content] of
    the documented layout, whatever the padding bytes, and returns the content;
    every other byte string is a [DeserializationError]. *)
Theorem unpad_exact (p : bytes) : Forall byte_ok p ->
  (forall c, unpad p = Ok c <->
     exists n padding, 0 <= n < U32 /\ blen padding = n /\ p = to_le_bytes 4 n ++ padding ++ c) /\
  (forall e, unpad p = Err e -> e = DeserializationError).
Proof.
  intros Hp. split.
  - intros c; split; [|intros (n & padding & Hn & Hl & ->); by apply unpad_frame].
    unfold unpad, get_to, checked_add, get_from, PAD_PREFIX_LEN. intros Hu. inv_ok.
    destruct (Z.leb_spec 4 (blen p)) as [H4|]; [|discriminate]. injection Hm as <-.
    change (Z.to_nat 4) with 4%nat in *.
    assert (length (take 4 p) = 4%nat) as L4 by (rewrite length_take; unfold blen in H4; lia).
    assert (Forall byte_ok (take 4 p)) as B4 by (by apply Forall_take).
    pose proof (from_le_bytes_bound _ B4) as Hn. rewrite L4 in Hn.
    pose proof (to_from_le_bytes _ B4) as Hr. rewrite L4 in Hr.
    set (n := from_le_bytes (take 4 p)) in *. change (256 ^ Z.of_nat 4) with U32 in Hn.
    destruct (Z.ltb_spec (4 + n) U64); [|discriminate]. cbn [mbind option_bind] in Hu.
    destruct (Z.leb_spec (4 + n) (blen p)); [|discriminate]. injection Hu as <-.
    exists n, (take (Z.to_nat n) (drop 4 p)). split_and!; [lia..| |].
    + unfold blen in *. rewrite length_take, length_drop. lia.
    + rewrite Hr. replace (Z.to_nat (4 + n)) with (4 + Z.to_nat n)%nat by lia.
      by rewrite <- drop_drop, !take_drop.
  - unfold unpad. destruct (get_to PAD_PREFIX_LEN p); cbn; [|congruence].
    destruct (checked_add _ _); cbn; [|congruence]. destruct (get_from _ p); cbn; congruence.
Qed.

Lemma unpad_exact_witness : unpad [1; 0; 0; 0; 9; 5] = Ok [5].
Proof.
  apply (unpad_exact [1; 0; 0; 0; 9; 5]).
  - repeat constructor; lia.
  - exists 1, [9]. split_and!; [lia|unfold U32; lia|reflexivity|reflexivity].
Defined.
