(* ===== verification/Signatures.v ===== *)
(** * Signed requests ([protos/src/signed.rs], [common/src/crypto/signatures])

    Labelled signatures over serialized payloads, and the wrapper that captures
    the bytes of a request's payload while the request is decoded, so that the
    bytes that are verified are the bytes that the handler's payload was decoded
    from.  The protobuf wire format is the crate [prost] and the signature scheme
    that of OpenMLS: [Prost] and [SignatureScheme]. *)

From S2P Require Import Prelude Aead.

(** ** The wire format *)

Inductive WireType := Varint | SixtyFourBit | LengthDelimited | StartGroup | EndGroup | ThirtyTwoBit.
#[export] Instance WireType_eq_dec : EqDecision WireType.
Proof. solve_decision. Defined.

(** [prost::encoding]: each function returns what is left of the buffer. *)
Class Prost := {
  DecodeErr : Type;
  decode_key : bytes -> Result DecodeErr (Z * WireType * bytes);
  skip_field : WireType -> Z -> bytes -> Result DecodeErr bytes;
  decode_varint : bytes -> Result DecodeErr (Z * bytes)
}.
(** A key takes at least one byte; the value of a field is a prefix of the buffer;
    a length-delimited value is a varint with the length of the content, and the
    content. *)
Class ProstLaws `{Prost} : Prop := {
  decode_key_prefix : forall buf t w rest,
    decode_key buf = Ok (t, w, rest) -> exists k, k <> [] /\ buf = k ++ rest;
  skip_field_prefix : forall w t buf rest,
    skip_field w t buf = Ok rest -> exists v, buf = v ++ rest;
  skip_length_delimited : forall t buf rest,
    skip_field LengthDelimited t buf = Ok rest ->
    exists p v, buf = p ++ v ++ rest /\ decode_varint (p ++ v) = Ok (Z.of_nat (length v), v)
}.

(** A generated message: its default, and decoding into an existing value. *)
Class ProtoMessage `{Prost} (T : Type) := {
  proto_default : T;
  proto_merge : T -> bytes -> Result DecodeErr T;
  encode_to_vec : T -> bytes
}.

Inductive RequestDecodeErr `{Prost} := ProstError (e : DecodeErr) | DuplicatePayload | ScanOutOfFuel.

Section Wire.
Context `{Prost}.

(** [Bytes::slice]. *)
Definition slice (raw : bytes) (first last : nat) : bytes := take (last - first) (drop first raw).

(** The content of a field's span: without the length prefix, if it has one. *)
Definition field_content (w : WireType) (span : bytes) : Result DecodeErr bytes :=
  match w with
  | LengthDelimited =>
      r ← decode_varint span;
      Ok (drop (length span - Z.to_nat r.1) span)
  | _ => Ok span
  end.

(** The loop of [extract_field]. *)
Fixpoint extract_loop (fuel : nat) (raw cur : bytes) (tag : Z) (found : option bytes) :
    Result RequestDecodeErr (option bytes) :=
  match fuel with
  | O => Err ScanOutOfFuel
  | S fuel =>
      if decide (cur = []) then Ok found
      else
        k ← map_err ProstError (decode_key cur);
        let '(field_tag, wire_type, cur1) := k in
        let value_start := (length raw - length cur1)%nat in
        cur2 ← map_err ProstError (skip_field wire_type field_tag cur1);
        if decide (field_tag <> tag) then extract_loop fuel raw cur2 tag found
        else
          match found with
          | Some _ => Err DuplicatePayload
          | None =>
              let value_end := (length raw - length cur2)%nat in
              v ← map_err ProstError (field_content wire_type (slice raw value_start value_end));
              extract_loop fuel raw cur2 tag (Some v)
          end
  end.

(** [extract_field]. *)
Definition extract_field (raw : bytes) (tag : Z) : Result RequestDecodeErr (option bytes) :=
  extract_loop (S (length raw)) raw raw tag None.

(** ** Reference: the fields of a buffer *)

Record WireField := { wf_tag : Z; wf_type : WireType; wf_span : bytes }.

(** A buffer that consists of the given fields, one after the other. *)
Inductive has_fields : bytes -> list WireField -> Prop :=
| fields_nil : has_fields [] []
| fields_cons buf t w v rest fs :
    buf <> [] -> decode_key buf = Ok (t, w, v ++ rest) -> skip_field w t (v ++ rest) = Ok rest ->
    has_fields rest fs ->
    has_fields buf ({| wf_tag := t; wf_type := w; wf_span := v |} :: fs).

End Wire.

(** ** Signatures *)

(** The signature scheme, with the key pairs it generates. *)
Class SignatureScheme := {
  is_keypair : bytes -> bytes -> Prop;
  scheme_sign : bytes -> bytes -> option bytes;
  verify_signature : bytes -> bytes -> bytes -> bool
}.
Class SignatureSchemeLaws `{SignatureScheme} : Prop := {
  sign_correct : forall sk pk m s,
    is_keypair sk pk -> scheme_sign sk m = Some s -> verify_signature m pk s = true
}.

(** [SigningKey]: the verifying key comes along. *)
Record SigningKey := { signing_key : bytes; verifying_key : bytes }.

Inductive SignatureVerificationError := VerificationFailure | VerificationLibraryError.

(** [SignContent], and its construction with the label prefix. *)
Record SignContent := { sc_label : string; sc_content : bytes }.
Definition SIGN_LABEL_PREFIX : string := "Air Protocol".
Definition sign_content (label : string) (content : bytes) : SignContent :=
  {| sc_label := SIGN_LABEL_PREFIX +:+ label; sc_content := content |}.

Section Signable.
Context `{SignatureScheme, TlsCodec SignContent}.

(** [SigningKey::sign] and [VerifyingKeyBehaviour::verify]. *)
Definition key_sign (k : SigningKey) (payload : bytes) : option bytes :=
  scheme_sign (signing_key k) payload.
Definition key_verify (key payload signature : bytes) : Result SignatureVerificationError unit :=
  ensure (verify_signature payload key signature) VerificationFailure.

(** The signature that [Signable::sign] puts into its output. *)
Definition sign_payload (label : string) (payload : bytes) (k : SigningKey) : option bytes :=
  bs ← tls_serialize_detached (sign_content label payload);
  key_sign k bs.

(** What [Verifiable::verify] checks. *)
Definition verify_payload (label : string) (payload : option bytes) (signature key : bytes) :
    Result SignatureVerificationError unit :=
  payload ← ok_or VerificationLibraryError payload;
  bs ← ok_or VerificationLibraryError (tls_serialize_detached (sign_content label payload));
  key_verify key bs signature.

End Signable.

(** ** Signed requests *)

(** What [impl_signed_payload!] generates for a request type. *)
Class SignedPayload (R P : Type) := {
  sp_payload : R -> option P;
  sp_signature : R -> option bytes;
  sp_label : string;
  sp_from_payload : P -> bytes -> R
}.

Record SignedRequest (R : Type) := {
  request : R;
  payload_bytes : option bytes
}.
Arguments request {R}.
Arguments payload_bytes {R}.

Section Requests.
Context `{Prost} {R P : Type} `{!ProtoMessage R, !ProtoMessage P} {Hsp : SignedPayload R P} (TAG : Z).
Context `{SignatureScheme, TlsCodec SignContent}.

(** [SignedRequest::default] and [clear]. *)
Definition request_default : SignedRequest R := {| request := proto_default; payload_bytes := None |}.
Definition request_clear (_ : SignedRequest R) : SignedRequest R := request_default.

(** [SignedRequest::merge]. *)
Definition request_merge (s : SignedRequest R) (raw : bytes) :
    Result RequestDecodeErr (SignedRequest R) :=
  found ← extract_field raw TAG;
  captured ← match found, payload_bytes s with
             | Some _, Some _ => Err DuplicatePayload
             | Some b, None => Ok (Some b)
             | None, old => Ok old
             end;
  r ← map_err ProstError (proto_merge (request s) raw);
  Ok {| request := r; payload_bytes := captured |}.

(** [Message::decode], and decoding from several buffers. *)
Definition request_decode (raw : bytes) : Result RequestDecodeErr (SignedRequest R) :=
  request_merge request_default raw.

(** [Verifiable for SignedRequest] with [from_verifiable]. *)
Definition request_verify (s : SignedRequest R) (key : bytes) :
    Result SignatureVerificationError P :=
  _ ← verify_payload sp_label (payload_bytes s) (default [] (sp_signature (request s))) key;
  Ok (default proto_default (sp_payload (request s))).

(** [Signable::sign] of a payload. *)
Definition request_sign (p : P) (k : SigningKey) : option R :=
  s ← sign_payload sp_label (encode_to_vec p) k;
  Some (sp_from_payload p s).

End Requests.

(** ** Correctness of the scan *)

Section WireCorrect.
Context `{ProstLaws}.

Lemma slice_middle (a b c : bytes) : slice (a ++ b ++ c) (length a) (length a + length b) = b.
Proof.
  unfold slice. rewrite Nat.add_comm, Nat.add_sub, drop_app_length, take_app_length. done.
Qed.

(** One step of the scan at a suffix of the buffer. *)
Lemma extract_loop_step fuel raw pre cur tag found t w v rest :
  raw = pre ++ cur -> cur <> [] -> decode_key cur = Ok (t, w, v ++ rest) ->
  skip_field w t (v ++ rest) = Ok rest ->
  extract_loop (S fuel) raw cur tag found =
    if decide (t <> tag) then extract_loop fuel raw rest tag found
    else match found with
         | Some _ => Err DuplicatePayload
         | None => c ← map_err ProstError (field_content w v); extract_loop fuel raw rest tag (Some c)
         end.
Proof.
  intros Hraw Hcur Hk Hs. cbn [extract_loop]. rewrite decide_False by done. rewrite Hk.
  cbn [map_err mbind Result_bind]. rewrite Hs. cbn [map_err mbind Result_bind].
  case_decide; [done|]. destruct found; [done|].
  apply decode_key_prefix in Hk as (k & _ & ->).
  assert (Hv : slice raw (length raw - length (v ++ rest)) (length raw - length rest) = v).
  { rewrite Hraw, app_assoc. etransitivity; [|apply (slice_middle (pre ++ k) v rest)].
    f_equal; rewrite !length_app; lia. }
  by rewrite Hv.
Qed.

(** What the scan returns for the fields that carry the tag. *)
Definition selected (found : option bytes) (fs : list WireField) (o : option bytes) : Prop :=
  match found, fs with
  | _, [] => o = found
  | None, [f] => exists v, field_content (wf_type f) (wf_span f) = Ok v /\ o = Some v
  | _, _ => False
  end.

Lemma selected_cons f fs o :
  selected None (f :: fs) o <->
  exists v, field_content (wf_type f) (wf_span f) = Ok v /\ selected (Some v) fs o.
Proof.
  unfold selected. destruct fs; [done|]. split; [done|]. by intros (v & _ & ?).
Qed.

Lemma extract_loop_sound fuel raw pre cur tag found o :
  raw = pre ++ cur -> extract_loop fuel raw cur tag found = Ok o ->
  exists fs, has_fields cur fs /\ selected found (filter (fun f => wf_tag f = tag) fs) o.
Proof.
  revert pre cur found. induction fuel as [|fuel IH]; intros pre cur found Hraw He; [discriminate|].
  destruct (decide (cur = [])) as [->|Hne].
  { cbn in He. injection He as <-. exists []. split; [constructor|by destruct found]. }
  destruct (decode_key cur) as [[[t w] cur1]|] eqn:Hk;
    [|cbn [extract_loop] in He; by rewrite decide_False, Hk in He].
  destruct (skip_field w t cur1) as [rest|] eqn:Hs;
    [|cbn [extract_loop] in He; rewrite decide_False, Hk in He by done; cbn in He; by rewrite Hs in He].
  destruct (skip_field_prefix _ _ _ _ Hs) as [v ->].
  rewrite (extract_loop_step _ _ pre cur _ _ t w v rest) in He by done.
  assert (Hraw' : exists pre', raw = pre' ++ rest).
  { apply decode_key_prefix in Hk as (k & _ & ->). exists (pre ++ k ++ v).
    by rewrite Hraw, !app_assoc. }
  destruct Hraw' as [pre' Hraw'].
  case_decide as Ht.
  - destruct (IH pre' rest found Hraw' He) as (fs & Hfs & Hsel).
    exists ({| wf_tag := t; wf_type := w; wf_span := v |} :: fs). split; [by econstructor|].
    by rewrite filter_cons_False.
  - destruct found; [discriminate|]. apply Result_bind_Ok in He as (c & Hc & He).
    apply map_err_Ok in Hc. destruct (IH pre' rest (Some c) Hraw' He) as (fs & Hfs & Hsel).
    exists ({| wf_tag := t; wf_type := w; wf_span := v |} :: fs). split; [by econstructor|].
    rewrite filter_cons_True by done. apply selected_cons. eauto.
Qed.

Lemma extract_loop_complete fs cur tag o : has_fields cur fs -> forall fuel raw pre found,
  raw = pre ++ cur -> (length cur < fuel)%nat ->
  selected found (filter (fun f => wf_tag f = tag) fs) o -> extract_loop fuel raw cur tag found = Ok o.
Proof.
  induction 1 as [|cur t w v rest fs Hne Hk Hs Hfs IH]; intros [|fuel] raw pre found Hraw Hf Hsel; try lia.
  { destruct found; cbn in *; by rewrite Hsel. }
  rewrite (extract_loop_step _ _ pre cur _ _ t w v rest) by done.
  pose proof (decode_key_prefix _ _ _ _ Hk) as (k & Hk0 & Hcur).
  assert (Hraw' : raw = (pre ++ k ++ v) ++ rest) by by rewrite Hraw, Hcur, !app_assoc.
  assert (Hlen : (length rest < fuel)%nat).
  { rewrite Hcur, !length_app in Hf. destruct k; [done|]. cbn in Hf. lia. }
  rewrite filter_cons in Hsel. cbn [wf_tag] in Hsel. case_decide as Ht; case_decide as Ht'; try done.
  - destruct found as [x|]; [done|].
    apply selected_cons in Hsel as (c & Hc & Hsel). cbn in Hc. rewrite Hc. cbn [map_err mbind Result_bind].
    by apply (IH fuel raw (pre ++ k ++ v)).
  - by apply (IH fuel raw (pre ++ k ++ v)).
Qed.

Lemma extract_loop_terminates fuel raw cur tag found :
  (length cur < fuel)%nat -> extract_loop fuel raw cur tag found <> Err ScanOutOfFuel.
Proof.
  revert cur found. induction fuel as [|fuel IH]; intros cur found Hf; [lia|]. cbn [extract_loop].
  case_decide as Hc; [done|]. destruct (decode_key cur) as [[[t w] cur1]|] eqn:Hk; cbn; [|done].
  destruct (skip_field w t cur1) as [rest|] eqn:Hs; cbn; [|done].
  apply decode_key_prefix in Hk as (k & Hk & ->). apply skip_field_prefix in Hs as [v ->].
  assert (length rest < fuel)%nat.
  { destruct k; [done|]. rewrite !length_app in Hf. cbn in Hf. lia. }
  case_decide; [by apply IH|]. destruct found; [done|]. destruct (field_content _ _); cbn; [by apply IH|done].
Qed.

Lemma extract_field_Ok raw tag o :
  extract_field raw tag = Ok o ->
  exists fs, has_fields raw fs /\ selected None (filter (fun f => wf_tag f = tag) fs) o.
Proof. by apply (extract_loop_sound _ _ []). Qed.

(** The scan for the signed payload always ends, and succeeds exactly on buffers
    that consist of well-formed fields, with the content of the tagged field if
    there is one and nothing if there is none; a buffer with two such fields is
    rejected. *)
Theorem extract_field_exact raw tag :
  extract_field raw tag <> Err ScanOutOfFuel /\
  forall o, extract_field raw tag = Ok o <->
    exists fs, has_fields raw fs /\
      match filter (fun f => wf_tag f = tag) fs with
      | [] => o = None
      | [f] => exists v, field_content (wf_type f) (wf_span f) = Ok v /\ o = Some v
      | _ => False
      end.
Proof.
  split; [apply extract_loop_terminates; lia|]. intros o. split.
  - apply extract_field_Ok.
  - intros (fs & Hfs & Hsel). apply (extract_loop_complete fs raw tag o Hfs _ _ []); [done|lia|exact Hsel].
Qed.

End WireCorrect.

(** ** The verified payload *)

(** Decoding a request: the buffer consists of fields; the payload is an optional
    submessage, into which the content of each of its fields is merged. *)
Class RequestLaws `{Prost} (R P : Type) `{!ProtoMessage R, !ProtoMessage P, !SignedPayload R P}
    (TAG : Z) : Prop := {
  default_payload : sp_payload (proto_default : R) = None;
  merge_payload : forall (r : R) raw r', proto_merge r raw = Ok r' ->
    exists fs vs, has_fields raw fs /\
      Forall2 (fun f v => wf_type f = LengthDelimited /\
                          field_content (wf_type f) (wf_span f) = Ok v)
        (filter (fun f => wf_tag f = TAG) fs) vs /\
      foldM (fun o v => Some <$> proto_merge (default proto_default o) v) (sp_payload r) vs
        = Ok (sp_payload r')
}.

Section RequestsCorrect.
Context `{ProstLaws} {R P : Type} `{!ProtoMessage R, !ProtoMessage P} {Hsp : SignedPayload R P}.
Context (TAG : Z) `{!RequestLaws R P TAG}.
Context `{SignatureScheme, TlsCodec SignContent}.

(** The fields of a buffer are determined. *)
Lemma has_fields_det raw fs fs' : has_fields raw fs -> has_fields raw fs' -> fs = fs'.
Proof.
  intros Hf. revert fs'. induction Hf as [|raw t w v rest fs Hne Hk Hs Hf IH]; intros fs' Hf'.
  - inversion Hf'; subst; done.
  - inversion Hf' as [|raw' t' w' v' rest' fs1 Hne' Hk' Hs' Hf1]; subst; [done|].
    rewrite Hk in Hk'. injection Hk' as -> -> Hvr. rewrite <- Hvr, Hs in Hs'. injection Hs' as ->.
    apply app_inv_tail in Hvr as ->. f_equal. by apply IH.
Qed.

(** The payload of the request is what the captured bytes decode to. *)
Definition bound (s : SignedRequest R) : Prop :=
  match payload_bytes s with
  | None => sp_payload (request s) = None
  | Some b => exists p : P, proto_merge proto_default b = Ok p /\ sp_payload (request s) = Some p
  end.

Lemma merge_bound s raw s' :
  bound s -> request_merge TAG s raw = Ok s' -> bound s'.
Proof.
  intros Hb Hm. unfold request_merge in Hm.
  apply Result_bind_Ok in Hm as (found & He & (cap & Hc & (r & Hr & [= <-])%Result_bind_Ok)%Result_bind_Ok).
  apply map_err_Ok, merge_payload in Hr as (fs & vs & Hfs & Hvs & Hfold).
  apply extract_field_Ok in He as (fs' & Hfs' & Hsel). rewrite (has_fields_det _ _ _ Hfs' Hfs) in Hsel.
  unfold bound in *. cbn [payload_bytes request].
  destruct (filter (fun f => wf_tag f = TAG) fs) as [|f [|]]; [| |done].
  - inversion Hvs; subst. injection Hfold as <-. cbn in Hsel. rewrite Hsel in Hc.
    by destruct (payload_bytes s); injection Hc as <-.
  - inversion Hvs as [|? v ? ? [_ Hv] Hvs']; subst. inversion Hvs'; subst.
    destruct Hsel as (v' & Hv' & ->). rewrite Hv in Hv'. injection Hv' as <-.
    destruct (payload_bytes s); [discriminate|]. injection Hc as <-.
    rewrite Hb in Hfold. cbn in Hfold. destruct (proto_merge proto_default v) as [p|] eqn:Ep; [|discriminate].
    injection Hfold as <-. eauto.
Qed.

(** C24. However a signed request is assembled from received buffers, a payload that
    verification returns was decoded from exactly the bytes whose signature was
    checked under the given key, with the label of its request type. *)
Theorem verified_payload_bound bufs s key p :
  foldM (request_merge TAG) request_default bufs = Ok s -> request_verify s key = Ok p ->
  exists b bs, payload_bytes s = Some b /\ proto_merge proto_default b = Ok p /\
    sp_payload (request s) = Some p /\
    tls_serialize_detached (sign_content sp_label b) = Some bs /\
    verify_signature bs key (default [] (sp_signature (request s))) = true.
Proof.
  intros Hd Hv.
  assert (Hb : bound s).
  { refine (foldM_ind bound _ _ _ _ _ _ Hd); [apply default_payload|].
    intros s0 raw s1 _ Hs0 Hm. by eapply merge_bound. }
  unfold request_verify in Hv. apply Result_bind_Ok in Hv as (u & Hv & [= <-]).
  unfold verify_payload, key_verify in Hv.
  apply Result_bind_Ok in Hv as (b & Hbs%ok_or_Ok & (bs & Hser%ok_or_Ok & Hver%ensure_Ok)%Result_bind_Ok).
  unfold bound in Hb. rewrite Hbs in Hb. destruct Hb as (p & Hp & ->). eauto 10.
Qed.

(** An encoded signed request has one payload field, with the encoded payload, and
    is decoded as it was. *)
Class EncodeLaws : Prop := {
  from_payload_fields : forall (p : P) sig,
    sp_payload (sp_from_payload p sig) = Some p /\ sp_signature (sp_from_payload p sig) = Some sig;
  encode_fields : forall (p : P) sig, exists fs f,
    has_fields (encode_to_vec (sp_from_payload p sig)) fs /\
    filter (fun f => wf_tag f = TAG) fs = [f] /\
    field_content (wf_type f) (wf_span f) = Ok (encode_to_vec p);
  encode_decode : forall (p : P) sig,
    proto_merge proto_default (encode_to_vec (sp_from_payload p sig)) = Ok (sp_from_payload p sig)
}.

(** A request signed by a client, encoded, decoded by the server and verified
    under the client's key yields the payload that was signed. *)
Theorem sign_verify_roundtrip `{!EncodeLaws, !SignatureSchemeLaws} (p : P) k r :
  is_keypair (signing_key k) (verifying_key k) -> request_sign p k = Some r ->
  exists s, request_decode TAG (encode_to_vec r) = Ok s /\ request_verify s (verifying_key k) = Ok p.
Proof.
  intros Hk Hs. unfold request_sign, sign_payload, key_sign in Hs.
  apply bind_Some in Hs as (sig & Hs & [= <-]). apply bind_Some in Hs as (bs & Hbs & Hsig).
  destruct (from_payload_fields p sig) as [Hp Hsg]. destruct (encode_fields p sig) as (fs & f & Hfs & Hf & Hc).
  assert (He : extract_field (encode_to_vec (sp_from_payload p sig)) TAG = Ok (Some (encode_to_vec p))).
  { apply (extract_loop_complete fs _ TAG _ Hfs _ _ []); [done|lia|].
    rewrite Hf. cbn. eauto. }
  eexists. split.
  - unfold request_decode, request_merge. rewrite He. cbn. rewrite encode_decode. reflexivity.
  - unfold request_verify, verify_payload, key_verify. cbn. rewrite Hbs. cbn. rewrite Hsg. cbn.
    by rewrite (sign_correct _ _ _ _ Hk Hsig), Hp.
Qed.

End RequestsCorrect.

(** ** Evaluation *)

Module ToyWire.

(** One byte for tag and wire type, one for a length. *)
Definition toy_type (z : Z) : option WireType :=
  match z with 0 => Some Varint | 2 => Some LengthDelimited | _ => None end.
#[export] Instance toy_prost : Prost := {|
  DecodeErr := unit;
  decode_key := fun buf =>
    match buf with
    | x :: rest => match toy_type (x mod 8) with Some w => Ok (x / 8, w, rest) | None => Err tt end
    | [] => Err tt
    end;
  skip_field := fun w _ buf =>
    match w, buf with
    | LengthDelimited, n :: rest =>
        if decide (0 <= n <= Z.of_nat (length rest)) then Ok (drop (Z.to_nat n) rest) else Err tt
    | Varint, _ :: rest => Ok rest
    | _, _ => Err tt
    end;
  decode_varint := fun buf => match buf with n :: rest => Ok (n, rest) | [] => Err tt end
|}.

#[export] Instance toy_prost_laws : ProstLaws.
Proof.
  split.
  - intros [|x rest] t w rest'; [done|]. cbn. destruct (toy_type _); [|done].
    intros [= <- <- <-]. by exists [x].
  - intros [] t [|n rest] rest'; cbn; try done; [by intros [= <-]; exists [n]|].
    case_decide; [|done]. intros [= <-]. exists (n :: take (Z.to_nat n) rest). cbn. by rewrite take_drop.
  - intros t [|n rest] rest'; cbn; [done|]. case_decide as Hn; [|done]. intros [= <-].
    exists [n], (take (Z.to_nat n) rest). cbn. rewrite take_drop, length_take_le by lia.
    by rewrite Z2Nat.id by lia.
Qed.

(** The fields of a buffer. *)
Fixpoint toy_fields (fuel : nat) (buf : bytes) : Result (@DecodeErr toy_prost) (list WireField) :=
  match fuel with
  | O => Err tt
  | S fuel =>
      if decide (buf = []) then Ok []
      else
        k ← decode_key buf;
        let '(t, w, cur) := k in
        rest ← skip_field w t cur;
        fs ← toy_fields fuel rest;
        Ok ({| wf_tag := t; wf_type := w; wf_span := take (length cur - length rest) cur |} :: fs)
  end.
Lemma toy_fields_sound fuel buf fs : toy_fields fuel buf = Ok fs -> has_fields buf fs.
Proof.
  revert buf fs. induction fuel as [|fuel IH]; intros buf fs; [done|]. cbn [toy_fields].
  case_decide as Hb; [intros [= <-]; rewrite Hb; constructor|].
  intros ([[t w] cur] & Hk & (rest & Hs & (fs' & Hf & [= <-])%Result_bind_Ok)%Result_bind_Ok)%Result_bind_Ok.
  destruct (@skip_field_prefix toy_prost _ _ _ _ _ Hs) as [v ->].
  rewrite length_app, Nat.add_sub, take_app_length. econstructor; [done|done|done|]. by apply IH.
Qed.

(** A request with a payload (tag 1) and a signature (tag 2), both byte strings. *)
Record ToyRequest := { tr_payload : option bytes; tr_signature : option bytes }.
#[export] Instance toy_bytes : ProtoMessage bytes :=
  {| proto_default := []; proto_merge := fun _ v => Ok v; encode_to_vec := fun v => v |}.
Definition toy_set (r : ToyRequest) (f : WireField) : Result (@DecodeErr toy_prost) ToyRequest :=
  if decide (wf_tag f = 1) then
    if decide (wf_type f = LengthDelimited) then
      v ← field_content (wf_type f) (wf_span f); Ok {| tr_payload := Some v; tr_signature := tr_signature r |}
    else Err tt
  else if decide (wf_tag f = 2) then
    v ← field_content (wf_type f) (wf_span f); Ok {| tr_payload := tr_payload r; tr_signature := Some v |}
  else Ok r.
Definition toy_put (tag : Z) (o : option bytes) : bytes :=
  match o with Some v => tag * 8 + 2 :: Z.of_nat (length v) :: v | None => [] end.
#[export] Instance toy_request : ProtoMessage ToyRequest := {|
  proto_default := {| tr_payload := None; tr_signature := None |};
  proto_merge := fun r raw => fs ← toy_fields (S (length raw)) raw; foldM toy_set r fs;
  encode_to_vec := fun r => toy_put 1 (tr_payload r) ++ toy_put 2 (tr_signature r)
|}.
#[export] Instance toy_signed : SignedPayload ToyRequest bytes := {|
  sp_payload := tr_payload; sp_signature := tr_signature; sp_label := "Test";
  sp_from_payload := fun p s => {| tr_payload := Some p; tr_signature := Some s |}
|}.

Lemma toy_set_fold fs r r' : foldM toy_set r fs = Ok r' ->
  exists vs, Forall2 (fun f v => wf_type f = LengthDelimited /\
                                 field_content (wf_type f) (wf_span f) = Ok v)
      (filter (fun f => wf_tag f = 1) fs) vs /\
    foldM (fun o v => Some <$> proto_merge (default proto_default o) v) (tr_payload r) vs
      = Ok (tr_payload r').
Proof.
  revert r. induction fs as [|f fs IH]; intros r Hm.
  { injection Hm as <-. exists []. by split. }
  apply Result_bind_Ok in Hm as (r1 & Hs & (vs & Hvs & Hf)%IH). unfold toy_set in Hs.
  rewrite filter_cons. case_decide as Ht.
  - case_decide as Hw; [|done]. apply Result_bind_Ok in Hs as (v & Hv & [= <-]).
    exists (v :: vs). split; [by constructor|]. exact Hf.
  - exists vs. split; [done|]. rewrite <- Hf. case_decide.
    + apply Result_bind_Ok in Hs as (v & Hv & [= <-]). done.
    + by injection Hs as <-.
Qed.
#[export] Instance toy_request_laws : RequestLaws ToyRequest bytes 1.
Proof.
  split; [done|]. intros r raw r' Hm. apply Result_bind_Ok in Hm as (fs & Hf%toy_fields_sound & Hm).
  apply toy_set_fold in Hm as (vs & Hvs & Hfold). by exists fs, vs.
Qed.

Lemma toy_skip (v rest : bytes) :
  skip_field LengthDelimited 0 (Z.of_nat (length v) :: v ++ rest) = Ok rest.
Proof.
  cbn. rewrite length_app, decide_True by lia. by rewrite Nat2Z.id, drop_app_length.
Qed.
Lemma toy_encode_fields (p sig : bytes) :
  has_fields (encode_to_vec {| tr_payload := Some p; tr_signature := Some sig |})
    [{| wf_tag := 1; wf_type := LengthDelimited; wf_span := Z.of_nat (length p) :: p |};
     {| wf_tag := 2; wf_type := LengthDelimited; wf_span := Z.of_nat (length sig) :: sig |}].
Proof.
  apply (fields_cons _ 1 LengthDelimited (Z.of_nat (length p) :: p) (toy_put 2 (Some sig))); try done.
  { apply toy_skip. }
  apply (fields_cons _ 2 LengthDelimited (Z.of_nat (length sig) :: sig) []); [done| | |constructor].
  - cbn. by rewrite app_nil_r.
  - apply toy_skip.
Qed.
Lemma toy_content (v : bytes) : field_content LengthDelimited (Z.of_nat (length v) :: v) = Ok v.
Proof.
  unfold field_content. cbn. rewrite Nat2Z.id. by replace (S (length v) - length v)%nat with 1%nat by lia.
Qed.

Lemma toy_fields_complete fuel buf fs :
  has_fields buf fs -> (length buf < fuel)%nat -> toy_fields fuel buf = Ok fs.
Proof.
  intros Hf. revert fuel. induction Hf as [|buf t w v rest fs Hne Hk Hs Hf IH]; intros [|fuel] Hl; try lia.
  { done. }
  cbn [toy_fields]. rewrite decide_False by done. rewrite Hk. cbn [mbind Result_bind]. rewrite Hs.
  cbn [mbind Result_bind]. rewrite length_app, Nat.add_sub, take_app_length. rewrite IH; [done|].
  destruct (@decode_key_prefix toy_prost _ _ _ _ _ Hk) as (k & Hk0 & ->). destruct k; [done|].
  rewrite !length_app in Hl. cbn in Hl. lia.
Qed.
#[export] Instance toy_encode_laws : EncodeLaws (R := ToyRequest) (P := bytes) 1.
Proof.
  split; [done| |].
  - intros p sig. eexists _, _. split; [apply toy_encode_fields|]. split; [reflexivity|]. apply toy_content.
  - intros p sig. unfold proto_merge at 1, toy_request at 1.
    rewrite (toy_fields_complete _ _ _ (toy_encode_fields p sig)) by apply Nat.lt_succ_diag_r.
    cbn [mbind Result_bind foldM]. unfold toy_set. cbn [wf_tag wf_type wf_span].
    by rewrite !toy_content.
Qed.

(** A scheme whose signature is the message and the key. *)
#[export] Instance toy_scheme : SignatureScheme := {|
  is_keypair := eq;
  scheme_sign := fun sk m => Some (sk ++ m);
  verify_signature := fun m pk s => bool_decide (s = pk ++ m)
|}.
#[export] Instance toy_scheme_laws : SignatureSchemeLaws.
Proof. split. intros sk pk m s -> [= <-]. by apply bool_decide_eq_true. Qed.
#[export] Instance toy_content_tls : TlsCodec SignContent :=
  {| tls_serialize_detached := fun c => Some (sc_content c); tls_deserialize_exact_bytes := fun _ => None |}.

End ToyWire.

Section Evaluate_requests.
Import ToyWire.

Lemma extract_field_exact_witness :
  extract_field [10; 2; 5; 6; 16; 0] 1 = Ok (Some [5; 6]) /\
  exists fs, has_fields [10; 2; 5; 6; 16; 0] fs.
Proof.
  split; [vm_compute; reflexivity|].
  destruct (proj1 (proj2 (extract_field_exact [10; 2; 5; 6; 16; 0] 1) (Some [5; 6])))
    as (fs & Hfs & _); [vm_compute; reflexivity|].
  exists fs. exact Hfs.
Defined.

(** A payload in a first buffer, its signature in a second one. *)
Lemma verified_payload_bound_witness :
  exists s : SignedRequest ToyRequest,
    foldM (request_merge 1) request_default [[10; 2; 5; 6]; [18; 4; 7; 8; 5; 6]] = Ok s /\
    request_verify s [7; 8] = Ok [5; 6] /\ payload_bytes s = Some [5; 6].
Proof.
  eexists. split; [vm_compute; reflexivity|]. split; [vm_compute; reflexivity|].
  match goal with |- payload_bytes ?s = _ =>
    destruct (verified_payload_bound (R := ToyRequest) (P := bytes) 1
      [[10; 2; 5; 6]; [18; 4; 7; 8; 5; 6]] s [7; 8] [5; 6]) as (b & bs & Hb & Hp & _) end;
    [vm_compute; reflexivity|vm_compute; reflexivity|].
  rewrite Hb. injection Hp as ->. reflexivity.
Defined.

Lemma sign_verify_roundtrip_witness :
  exists (r : ToyRequest) s, request_sign [5; 6] {| signing_key := [7]; verifying_key := [7] |} = Some r /\
    request_decode 1 (encode_to_vec r) = Ok s /\ request_verify s [7] = Ok [5; 6].
Proof.
  destruct (sign_verify_roundtrip (R := ToyRequest) (P := bytes) 1 [5; 6]
    {| signing_key := [7]; verifying_key := [7] |}
    {| tr_payload := Some [5; 6]; tr_signature := Some [7; 5; 6] |}) as (s & Hd & Hv);
    [reflexivity|reflexivity|].
  eexists _, s. split; [reflexivity|]. split; [exact Hd|exact Hv].
Defined.

End Evaluate_requests.
