(* ===== verification/RingBuffer.v ===== *)
(** * The log ring buffer ([applogic/src/util/file_ring_buffer.rs])

    The memory-mapped file is a byte list with its 16-byte header; every
    operation reads and writes that list as the code does.  The buffer refines
    "the last [len] bytes that were written", and a reader that consumes it in
    chunks of any size yields exactly these bytes. *)

From S2P Require Import Prelude.

Open Scope nat_scope.

Definition HEADER_LEN : nat := 16.
Definition MAGIC : Z := 0x4149524C4F470002%Z.
Definition WRITTEN_OFFSET : nat := 8.

Record FileRingBuffer := { mmap : bytes }.

(** ** Slices *)

(** [&l[from..to]]. *)
Definition slice (from to : nat) (l : bytes) : bytes := take (to - from) (drop from l).

(** [l[off..off + src.len()].copy_from_slice(src)]. *)
Definition copy_at (off : nat) (src l : bytes) : bytes :=
  take off l ++ src ++ drop (off + length src) l.

(** ** Opening *)

Inductive io_error := IoError.

(** [open]: [file] is the content of the file after [OpenOptions::open], or the
    error of opening, resizing or mapping it. *)
Definition open (file : Result io_error bytes) (len : nat) : Result io_error FileRingBuffer :=
  file ← file;
  let mm := resize (HEADER_LEN + len) 0%Z file in
  if decide (from_le_bytes (take 8 (take HEADER_LEN mm)) = MAGIC)
  then Ok {| mmap := mm |}
  else
    let mm := replicate (length mm) 0%Z in
    let mm := copy_at 0 (to_le_bytes 8 MAGIC) mm in
    let mm := copy_at 8 (to_le_bytes 8 0) mm in
    Ok {| mmap := mm |}.

(** [anon]: an anonymous mapping is zero-filled. *)
Definition anon (len : nat) : FileRingBuffer := {| mmap := replicate (HEADER_LEN + len) 0%Z |}.

(** ** Accessors *)

Definition data (self : FileRingBuffer) : bytes := drop HEADER_LEN (mmap self).
Definition len (self : FileRingBuffer) : nat := length (data self).
Definition is_empty (self : FileRingBuffer) : bool := Nat.eqb (len self) 0.

Definition read_written (self : FileRingBuffer) : nat :=
  Z.to_nat (from_le_bytes (slice WRITTEN_OFFSET (WRITTEN_OFFSET + 8) (mmap self))).

Definition write_written (self : FileRingBuffer) (written : nat) : FileRingBuffer :=
  {| mmap := copy_at WRITTEN_OFFSET (to_le_bytes 8 (Z.of_nat written)) (mmap self) |}.

Definition read_tail (self : FileRingBuffer) : nat :=
  if Nat.eqb (len self) 0 then 0 else read_written self mod len self.

(** Replacing what [data_mut] points to. *)
Definition set_data (self : FileRingBuffer) (d : bytes) : FileRingBuffer :=
  {| mmap := take HEADER_LEN (mmap self) ++ d |}.

(** [clear]: zero everything after the magic number. *)
Definition clear (self : FileRingBuffer) : FileRingBuffer :=
  {| mmap := take WRITTEN_OFFSET (mmap self) ++
             replicate (length (mmap self) - WRITTEN_OFFSET) 0%Z |}.

(** ** Writing *)

Definition write_data (self : FileRingBuffer) (new_data : bytes) : FileRingBuffer :=
  if is_empty self then self
  else
    let new_data :=
      if len self <=? length new_data
      then drop (length new_data - len self) new_data else new_data in
    let tail := read_tail self in
    let left_len := length new_data `min` (len self - tail) in
    let right_len := length new_data - left_len in
    let left_data := take left_len new_data in
    let right_data := drop left_len new_data in
    let d := copy_at tail left_data (data self) in
    let d := copy_at 0 right_data d in
    let self := set_data self d in
    write_written self (read_written self + length new_data).

(** [io::Write::write]. *)
Definition write (self : FileRingBuffer) (d : bytes) : nat * FileRingBuffer :=
  (length d, write_data self d).

(** ** Reading *)

Record RingBufferReader := { buf_of : FileRingBuffer; pos : nat; remaining : nat }.

(** [buf].  Rust's [written % len] panics for a buffer of length 0 with a
    non-zero counter; the properties below are about buffers of positive length. *)
Definition buf (self : FileRingBuffer) : RingBufferReader :=
  let l := length (data self) in
  let written := read_written self in
  {| buf_of := self;
     pos := if l <? written then written mod l else 0;
     remaining := written `min` l |}.

Definition chunk (r : RingBufferReader) : bytes :=
  if Nat.eqb (remaining r) 0 then []
  else
    let d := data (buf_of r) in
    let e := (pos r + remaining r) `min` length d in
    slice (pos r) e d.

Definition advance (r : RingBufferReader) (cnt : nat) : RingBufferReader :=
  {| buf_of := buf_of r;
     pos := (pos r + cnt) mod length (data (buf_of r));
     remaining := remaining r - cnt |}.

(** Consuming a [Buf] with a destination of [size] bytes per call, as
    [bytes::buf::Reader] does: copy the front of the current chunk, advance. *)
Fixpoint drain (size fuel : nat) (r : RingBufferReader) : bytes :=
  match fuel with
  | 0 => []
  | S fuel =>
      if Nat.eqb (remaining r) 0 then []
      else
        let front := take size (chunk r) in
        front ++ drain size fuel (advance r (length front))
  end.

(** ** Lemmas on slices and on remainders *)

Lemma length_copy_at off src l :
  off + length src <= length l -> length (copy_at off src l) = length l.
Proof. intros H. unfold copy_at. rewrite !length_app, length_take, length_drop. lia. Qed.

Lemma lookup_copy_at off src l j : off + length src <= length l ->
  copy_at off src l !! j =
    if decide (off <= j < off + length src) then src !! (j - off) else l !! j.
Proof.
  intros H. unfold copy_at. rewrite !lookup_app, length_take.
  replace (off `min` length l) with off by lia. case_decide.
  - rewrite lookup_take_ge by lia.
    destruct (lookup_lt_is_Some_2 src (j - off) ltac:(lia)) as [x ->]. reflexivity.
  - destruct (Nat.lt_ge_cases j off).
    + rewrite lookup_take_lt by lia.
      destruct (lookup_lt_is_Some_2 l j ltac:(lia)) as [x ->]. reflexivity.
    + rewrite lookup_take_ge by lia. rewrite (lookup_ge_None_2 src) by lia.
      rewrite lookup_drop. f_equal. lia.
Qed.

Lemma slice_copy_at off src l :
  off + length src <= length l -> slice off (off + length src) (copy_at off src l) = src.
Proof.
  intros H. unfold slice, copy_at.
  rewrite drop_app_length' by (rewrite length_take; lia).
  rewrite take_app_length' by lia. done.
Qed.

Lemma mod_step L W q : 0 < L -> q <= L ->
  (W + q) mod L = if decide (W mod L + q < L) then W mod L + q else W mod L + q - L.
Proof.
  intros HL Hq. pose proof (Nat.mod_upper_bound W L ltac:(lia)).
  pose proof (Nat.div_mod W L ltac:(lia)). symmetry. case_decide.
  - apply Nat.mod_unique with (q := W / L); lia.
  - destruct (decide (W mod L + q - L < L)).
    + apply Nat.mod_unique with (q := W / L + 1); lia.
    + lia.
Qed.

(** ** Frame lemmas of the accessors *)

Definition wf (self : FileRingBuffer) : Prop := HEADER_LEN <= length (mmap self).

Lemma data_set_data self d : wf self -> data (set_data self d) = d.
Proof.
  intros H. unfold data, set_data; cbn [mmap]. rewrite drop_app_length'; [done|].
  rewrite length_take. unfold wf, HEADER_LEN in *. lia.
Qed.

Lemma read_written_set_data self d : wf self -> read_written (set_data self d) = read_written self.
Proof.
  intros H. unfold read_written, set_data, slice, WRITTEN_OFFSET, wf, HEADER_LEN in *; cbn [mmap].
  change (8 + 8 - 8) with 8. do 2 f_equal.
  rewrite drop_app_le by (rewrite length_take; lia).
  rewrite take_app_le by (rewrite length_drop, length_take; lia).
  by rewrite skipn_firstn_comm, take_take.
Qed.

Lemma wf_set_data self d : wf self -> wf (set_data self d).
Proof. unfold wf, set_data; cbn [mmap]. rewrite length_app, length_take. lia. Qed.

Lemma data_write_written self w : wf self -> data (write_written self w) = data self.
Proof.
  intros H. unfold data, write_written, copy_at, wf, WRITTEN_OFFSET, HEADER_LEN in *; cbn [mmap].
  rewrite length_to_le_bytes.
  rewrite drop_app_ge by (rewrite length_take; lia). rewrite length_take.
  rewrite drop_app_ge by (rewrite length_to_le_bytes; lia). rewrite length_to_le_bytes, drop_drop.
  f_equal. lia.
Qed.

Lemma read_written_write_written self w : wf self -> (Z.of_nat w < U64)%Z ->
  read_written (write_written self w) = w.
Proof.
  intros H Hw. unfold read_written, write_written; cbn [mmap].
  pose proof (slice_copy_at WRITTEN_OFFSET (to_le_bytes 8 (Z.of_nat w)) (mmap self)) as Hs.
  rewrite length_to_le_bytes in Hs. rewrite Hs by (unfold wf, HEADER_LEN, WRITTEN_OFFSET in *; lia).
  rewrite from_to_le_bytes by (change (256 ^ Z.of_nat 8)%Z with U64; lia). lia.
Qed.

Lemma wf_write_written self w : wf self -> wf (write_written self w).
Proof.
  intros H. unfold wf, write_written in *; cbn [mmap].
  rewrite length_copy_at; [done|]. rewrite length_to_le_bytes.
  unfold HEADER_LEN, WRITTEN_OFFSET in *. lia.
Qed.

(** ** The abstract contents *)

(** The valid window, oldest byte first. *)
Definition window (self : FileRingBuffer) : bytes :=
  let r := buf self in
  take (remaining r) (drop (pos r) (data self) ++ take (pos r) (data self)).

(** The last [n] elements. *)
Definition lastn {A} (n : nat) (l : list A) : list A := drop (length l - n) l.

Lemma length_lastn {A} n (l : list A) : length (lastn n l) = n `min` length l.
Proof. unfold lastn. rewrite length_drop. lia. Qed.

Lemma lastn_all {A} n (l : list A) : length l <= n -> lastn n l = l.
Proof. intros H. unfold lastn. by replace (length l - n) with 0 by lia. Qed.

Lemma lastn_app_lastn {A} n (k l : list A) : lastn n (lastn n k ++ l) = lastn n (k ++ l).
Proof.
  unfold lastn. rewrite !length_app, length_drop.
  destruct (decide (length k <= n)).
  - replace (length k - n) with 0 by lia. cbn [drop]. f_equal. lia.
  - destruct (decide (length l <= n)).
    + rewrite !drop_app_le by (rewrite ?length_drop; lia). rewrite drop_drop. f_equal. f_equal. lia.
    + rewrite !drop_app_ge by (rewrite ?length_drop; lia). rewrite length_drop. f_equal. lia.
Qed.

Lemma lastn_app_trunc {A} n (k l : list A) : lastn n (k ++ lastn n l) = lastn n (k ++ l).
Proof.
  unfold lastn. rewrite !length_app, length_drop.
  destruct (decide (length l <= n)).
  - by replace (length l - n) with 0 by lia; rewrite Nat.sub_0_r.
  - rewrite !drop_app_ge by lia. rewrite drop_drop. f_equal. lia.
Qed.

Lemma length_window self : length (window self) = read_written self `min` len self.
Proof.
  unfold window, buf, len; cbn [pos remaining].
  rewrite length_take, length_app, length_take, length_drop.
  set (L := length (data self)). set (W := read_written self).
  destruct (Nat.ltb_spec L W); [|lia].
  destruct (decide (L = 0)) as [->|]; [lia|].
  pose proof (Nat.mod_upper_bound W L ltac:(lia)). lia.
Qed.

Lemma lookup_window self i : i < read_written self `min` len self ->
  window self !! i =
    data self !! ((read_written self - read_written self `min` len self + i) mod len self).
Proof.
  unfold window, buf, len; cbn [pos remaining].
  set (L := length (data self)). set (W := read_written self). intros Hi.
  rewrite lookup_take_lt by lia. destruct (Nat.ltb_spec L W).
  - replace (W `min` L) with L by lia.
    assert (W mod L = (W - L) mod L) as Hm.
    { rewrite <- (Nat.Div0.mod_add (W - L) 1 L). f_equal. lia. }
    pose proof (Nat.mod_upper_bound W L ltac:(lia)).
    rewrite mod_step by lia. rewrite <- Hm. case_decide.
    + rewrite lookup_app_l by (rewrite length_drop; fold L; lia). by rewrite lookup_drop.
    + rewrite lookup_app_r by (rewrite length_drop; fold L; lia). rewrite length_drop. fold L.
      rewrite lookup_take_lt by lia. f_equal. lia.
  - rewrite drop_0. cbn [take]. rewrite app_nil_r. f_equal.
    rewrite Nat.mod_small; lia.
Qed.

(** ** A write, position by position *)

(** The ring after writing [d], no longer than the buffer, at position [t]. *)
Definition ring_write (D d : bytes) (t : nat) : bytes :=
  let left_len := length d `min` (length D - t) in
  copy_at 0 (drop left_len d) (copy_at t (take left_len d) D).

Lemma length_ring_write D d t : t < length D -> length d <= length D ->
  length (ring_write D d t) = length D.
Proof.
  intros Ht Hd. unfold ring_write.
  rewrite !length_copy_at; rewrite ?length_copy_at; rewrite ?length_drop, ?length_take; lia.
Qed.

Lemma lookup_ring_write D d t j : t < length D -> length d <= length D -> j < length D ->
  ring_write D d t !! j =
    if decide (t <= j < t + length d) then d !! (j - t)
    else if decide (j + length D < t + length d) then d !! (j + length D - t) else D !! j.
Proof.
  intros Ht Hd Hj. unfold ring_write.
  set (ll := length d `min` (length D - t)).
  assert (length (take ll d) = ll) as Hl by (rewrite length_take; lia).
  rewrite lookup_copy_at by (rewrite length_copy_at; rewrite ?length_drop, ?Hl; lia).
  rewrite lookup_copy_at by lia. rewrite length_drop, Hl, lookup_drop, Nat.sub_0_r.
  repeat case_decide; try lia; try reflexivity.
  - f_equal. lia.
  - by rewrite lookup_take_lt by lia.
Qed.

Lemma write_data_eq self new_data : wf self -> 0 < len self ->
  let d := lastn (len self) new_data in
  write_data self new_data =
    write_written (set_data self (ring_write (data self) d (read_tail self)))
      (read_written self + length d).
Proof.
  intros Hwf HL. cbv zeta. unfold write_data, is_empty.
  rewrite (proj2 (Nat.eqb_neq _ _)) by lia.
  assert ((if len self <=? length new_data then drop (length new_data - len self) new_data
           else new_data) = lastn (len self) new_data) as ->.
  { unfold lastn. destruct (Nat.leb_spec (len self) (length new_data)); [done|].
    by replace (length new_data - len self) with 0 by lia. }
  fold (len self). unfold ring_write. fold (len self).
  by rewrite read_written_set_data.
Qed.

Lemma write_data_state self new_data : wf self -> 0 < len self ->
  let d := lastn (len self) new_data in
  (Z.of_nat (read_written self + length d) < U64)%Z ->
  wf (write_data self new_data) /\
  data (write_data self new_data) = ring_write (data self) d (read_written self mod len self) /\
  read_written (write_data self new_data) = read_written self + length d.
Proof.
  intros Hwf HL d Hw. rewrite write_data_eq by done. fold d.
  pose proof (wf_set_data self (ring_write (data self) d (read_tail self)) Hwf) as Hs.
  split_and!; [by apply wf_write_written| |by apply read_written_write_written].
  rewrite data_write_written, data_set_data by done. f_equal.
  unfold read_tail. by rewrite (proj2 (Nat.eqb_neq _ _)) by lia.
Qed.

(** The window after a write, when the new bytes fit. *)
Lemma window_ring_write self self' d : 0 < len self -> length d <= len self ->
  data self' = ring_write (data self) d (read_written self mod len self) ->
  read_written self' = read_written self + length d ->
  window self' = lastn (len self) (window self ++ d).
Proof.
  intros HL Hd HD HW.
  pose proof (Nat.mod_upper_bound (read_written self) (len self) ltac:(lia)) as Ht.
  assert (len self' = len self) as HL' by (unfold len; rewrite HD; by apply length_ring_write).
  set (W := read_written self) in *. set (L := len self) in *. set (n := length d) in *.
  assert (length (window self ++ d) = W `min` L + n) as Hlen.
  { rewrite length_app, length_window. reflexivity. }
  apply list_eq; intros i. destruct (decide (i < (W + n) `min` L)) as [Hi|Hi].
  2:{ rewrite !lookup_ge_None_2; [done| |].
      - rewrite length_lastn, Hlen. lia.
      - rewrite length_window, HL', HW. lia. }
  rewrite lookup_window by (rewrite HL', HW; lia). rewrite HL', HW, HD.
  unfold lastn. rewrite lookup_drop, Hlen.
  destruct (decide (W + n - (W + n) `min` L + i < W)) as [Hold|Hnew].
  - rewrite lookup_app_l by (rewrite length_window; fold W L; lia).
    rewrite lookup_window by (fold W L; lia). fold W L.
    replace (W - W `min` L + (W `min` L + n - L + i)) with (W + n - (W + n) `min` L + i) by lia.
    set (k := W + n - (W + n) `min` L + i) in *.
    pose proof (mod_step L k (W - k) HL ltac:(lia)) as Hm.
    replace (k + (W - k)) with W in Hm by lia.
    pose proof (Nat.mod_upper_bound k L ltac:(lia)).
    rewrite lookup_ring_write by (unfold L, len in *; lia).
    change (length (data self)) with L. fold n. rewrite !decide_False; [done| |];
      case_decide; lia.
  - rewrite lookup_app_r by (rewrite length_window; fold W L; lia).
    rewrite length_window. fold W L.
    set (q := W + n - (W + n) `min` L + i - W).
    replace (W + n - (W + n) `min` L + i) with (W + q) by lia.
    replace (W `min` L + n - L + i - W `min` L) with q by lia.
    pose proof (mod_step L W q HL ltac:(lia)) as Hm.
    pose proof (Nat.mod_upper_bound (W + q) L ltac:(lia)).
    rewrite lookup_ring_write by (unfold L, len in *; lia).
    change (length (data self)) with L. fold n. rewrite Hm.
    repeat case_decide; try lia; f_equal; lia.
Qed.

(** ** Sequences of writes *)

Definition total (ws : list bytes) : Z := Z.of_nat (length (concat ws)).

(** What a write leaves in place. *)
Lemma write_data_step self d : wf self -> (Z.of_nat (read_written self + length d) < U64)%Z ->
  let self' := write_data self d in
  wf self' /\ len self' = len self /\ take 8 (mmap self') = take 8 (mmap self) /\
  read_written self' <= read_written self + length d /\
  window self' = lastn (len self) (window self ++ d).
Proof.
  intros Hwf Hw self'. destruct (decide (len self = 0)) as [H0|Hn].
  - assert (self' = self) as ->.
    { unfold self', write_data, is_empty. by rewrite (proj2 (Nat.eqb_eq _ _)). }
    split_and!; try lia; try done.
    rewrite (nil_length_inv (window self)) by (rewrite length_window; lia).
    rewrite (nil_length_inv (lastn _ _)); [done|]. rewrite length_lastn. lia.
  - assert (length (lastn (len self) d) <= length d) by (rewrite length_lastn; lia).
    pose proof (write_data_state self d Hwf ltac:(lia) ltac:(lia)) as (Hwf' & HD & HW).
    fold self' in Hwf', HD, HW. split_and!; [done| | |lia|].
    + unfold len. rewrite HD. apply length_ring_write.
      * exact (Nat.mod_upper_bound _ _ Hn).
      * rewrite length_lastn. unfold len. lia.
    + unfold self'. rewrite write_data_eq by (done || lia).
      unfold wf, write_written, set_data, copy_at, WRITTEN_OFFSET, HEADER_LEN in *; cbn [mmap].
      rewrite take_app_le by (rewrite length_take, length_app, length_take; lia).
      rewrite take_take, take_app_le by (rewrite length_take; lia).
      by rewrite take_take.
    + rewrite <- lastn_app_trunc. apply window_ring_write; [lia| |done|done].
      rewrite length_lastn. lia.
Qed.

Lemma writes_state self ws : wf self -> (Z.of_nat (read_written self) + total ws < U64)%Z ->
  let self' := foldl write_data self ws in
  wf self' /\ len self' = len self /\ take 8 (mmap self') = take 8 (mmap self) /\
  window self' = lastn (len self) (window self ++ concat ws).
Proof.
  unfold total. revert self; induction ws as [|d ws IH]; cbn [foldl concat]; intros self Hwf Hw.
  - split_and!; try done. rewrite app_nil_r, lastn_all; [done|]. rewrite length_window. lia.
  - rewrite length_app in Hw.
    pose proof (write_data_step self d Hwf ltac:(lia)) as (Hwf1 & HL1 & HM1 & HW1 & Hwin).
    destruct (IH (write_data self d) Hwf1 ltac:(lia)) as (Hwf2 & HL2 & HM2 & Hwin2).
    split_and!; [done|congruence|congruence|].
    by rewrite Hwin2, Hwin, HL1, lastn_app_lastn, <- app_assoc.
Qed.

(** ** Fresh buffers *)

Lemma wf_anon l : wf (anon l) /\ len (anon l) = l /\ read_written (anon l) = 0.
Proof.
  unfold wf, len, data, read_written, slice, anon, HEADER_LEN, WRITTEN_OFFSET; cbn [mmap].
  split_and!.
  - rewrite length_replicate. lia.
  - rewrite length_drop, length_replicate. lia.
  - rewrite drop_replicate, take_replicate.
    replace ((8 + 8 - 8) `min` (16 + l - 8)) with 8 by lia. reflexivity.
Qed.

Lemma open_fresh f l : from_le_bytes (take 8 (resize (16 + l) 0%Z f)) <> MAGIC ->
  exists rb, open (Ok f) l = Ok rb /\ wf rb /\ len rb = l /\ read_written rb = 0 /\
    from_le_bytes (take 8 (mmap rb)) = MAGIC.
Proof.
  intros Hm. unfold open; cbn [mbind Result_bind]. rewrite take_take.
  change (8 `min` HEADER_LEN) with 8. unfold HEADER_LEN. rewrite decide_False by done.
  eexists; split; [reflexivity|]. rewrite length_resize.
  unfold copy_at. rewrite !length_to_le_bytes, drop_replicate, take_0, app_nil_l.
  replace (16 + l - (0 + 8)) with (8 + l) by lia.
  rewrite (take_app_length' (to_le_bytes 8 MAGIC)) by reflexivity.
  rewrite (drop_app_ge (to_le_bytes 8 MAGIC)) by (rewrite length_to_le_bytes; lia).
  rewrite length_to_le_bytes. change (8 + 8 - 8) with 8. rewrite drop_replicate.
  replace (8 + l - 8) with l by lia.
  unfold wf, len, data, read_written, slice, HEADER_LEN, WRITTEN_OFFSET; cbn [mmap].
  split_and!.
  - rewrite !length_app, !length_to_le_bytes. lia.
  - rewrite length_drop, !length_app, !length_to_le_bytes, length_replicate. lia.
  - reflexivity.
  - reflexivity.
Qed.

Lemma window_empty self : read_written self = 0 -> window self = [].
Proof. intros H. apply nil_length_inv. rewrite length_window. lia. Qed.

(** ** Reading in chunks *)

(** [n] bytes from position [p] of a ring that is read twice around. *)
Definition around (D : bytes) (p n : nat) : bytes := take n (drop p (D ++ D)).

Lemma around_split D p c n : around D p (c + n) = around D p c ++ around D (p + c) n.
Proof.
  unfold around. rewrite <- drop_drop. generalize (drop p (D ++ D)). intros l.
  revert l; induction c as [|c IH]; intros [|x l]; cbn; rewrite ?take_nil, ?drop_0; try done.
  by rewrite IH.
Qed.

Lemma window_around self : window self = around (data self) (pos (buf self)) (remaining (buf self)).
Proof.
  unfold window, around, buf; cbn [pos remaining].
  set (L := length (data self)). set (W := read_written self).
  set (p := if L <? W then W mod L else 0).
  destruct (decide (L = 0)) as [H0|HL0]; [by replace (W `min` L) with 0 by lia|].
  assert (p <= L) as Hp.
  { unfold p. pose proof (Nat.mod_upper_bound W L HL0). destruct (Nat.ltb_spec L W); lia. }
  assert (L <= W \/ p = 0) as [HL|H0].
  { unfold p. destruct (Nat.ltb_spec L W); [left; lia|auto]. }
  - replace (W `min` L) with L by lia.
    rewrite drop_app_le by done. rewrite !take_app, take_take, length_drop. fold L.
    do 2 f_equal. lia.
  - rewrite H0. cbn [take]. rewrite app_nil_r, !drop_0. symmetry. apply take_app_le. fold L; lia.
Qed.

Lemma drain_around size fuel r : 0 < size ->
  let D := data (buf_of r) in
  remaining r <= length D -> (remaining r = 0 \/ pos r < length D) -> remaining r <= fuel ->
  drain size fuel r = around D (pos r) (remaining r).
Proof.
  intros Hs. revert r; induction fuel as [|fuel IH]; intros r D HL Hp Hf.
  { by replace (remaining r) with 0 by lia. }
  cbn [drain]. destruct (Nat.eqb_spec (remaining r) 0) as [->|Hn]; [done|].
  destruct Hp as [|Hp]; [lia|].
  set (p := pos r) in *. set (n := remaining r) in *. set (L := length D) in *.
  assert (take size (chunk r) = take (size `min` (n `min` (L - p))) (drop p D)) as ->.
  { unfold chunk. rewrite (proj2 (Nat.eqb_neq _ _)) by done. fold D p n L. unfold slice.
    rewrite take_take. f_equal. lia. }
  set (c := size `min` (n `min` (L - p))).
  assert (length (take c (drop p D)) = c) as -> by (rewrite length_take, length_drop; fold L; lia).
  assert (take c (drop p D) = take c (drop p (D ++ D))) as ->.
  { rewrite drop_app_le by (fold L; lia). rewrite take_app_le; [done|].
    rewrite length_drop; fold L; lia. }
  rewrite IH; cbn [advance remaining pos buf_of]; fold D L n p; [|lia| |lia].
  - replace (around D p n) with (around D p (c + (n - c))) by (f_equal; lia).
    rewrite around_split. unfold around at 2. f_equal.
    destruct (decide (p + c = L)) as [->|]; [|by rewrite Nat.mod_small by lia].
    unfold around. rewrite Nat.Div0.mod_same, drop_0, drop_app_length' by done.
    by rewrite take_app_le by (fold L; lia).
  - right. apply Nat.mod_upper_bound. lia.
Qed.

(** ** Properties *)

(** C34. A freshly opened ring buffer of positive length, written any number of
    times, is read back by a consumer of any chunk size as exactly the last
    [len] bytes written: oldest first, none lost, none duplicated, no unwritten
    byte. *)
Theorem ring_buffer_refines_log (f : bytes) (l size : nat) (ws : list bytes) :
  from_le_bytes (take 8 (resize (16 + l) 0%Z f)) <> MAGIC ->
  0 < l -> 0 < size -> (total ws < U64)%Z ->
  exists rb, open (Ok f) l = Ok rb /\
    let rb' := foldl write_data rb ws in
    drain size (remaining (buf rb')) (buf rb') = lastn l (concat ws).
Proof.
  intros Hm Hl Hs Hw. destruct (open_fresh f l Hm) as (rb & Ho & Hwf & HL & HW & _).
  exists rb; split; [exact Ho|]. cbv zeta.
  destruct (writes_state rb ws Hwf ltac:(lia)) as (_ & HL' & _ & Hwin).
  rewrite HL in HL', Hwin. rewrite (window_empty rb HW), app_nil_l in Hwin.
  rewrite <- Hwin, window_around. unfold len in HL'.
  apply drain_around; [done|unfold buf; cbn [remaining buf_of]; lia| |done].
  right. unfold buf; cbn [pos buf_of]. destruct (Nat.ltb_spec (length (data (foldl write_data rb ws)))
    (read_written (foldl write_data rb ws))); [|lia].
  apply Nat.mod_upper_bound. lia.
Qed.

Lemma ring_buffer_refines_log_witness :
  exists rb, open (Ok []) 3 = Ok rb /\
    let rb' := foldl write_data rb [[1; 2]; [3; 4]]%Z in
    drain 2 (remaining (buf rb')) (buf rb') = [2; 3; 4]%Z.
Proof.
  destruct (ring_buffer_refines_log [] 3 2 [[1; 2]; [3; 4]]%Z) as (rb & Ho & Hd);
    [vm_compute; congruence|lia|lia|vm_compute; reflexivity|].
  exists rb; split; [exact Ho|exact Hd].
Defined.

(** A ring buffer survives a restart: reopening its file with the same length
    gives the same buffer, with the same readable contents, after any writes. *)
Theorem ring_buffer_reopen (rb : FileRingBuffer) (ws : list bytes) :
  wf rb -> from_le_bytes (take 8 (mmap rb)) = MAGIC ->
  (Z.of_nat (read_written rb) + total ws < U64)%Z ->
  let rb' := foldl write_data rb ws in
  open (Ok (mmap rb')) (len rb) = Ok rb' /\
  window rb' = lastn (len rb) (window rb ++ concat ws).
Proof.
  intros Hwf Hm Hw rb'. destruct (writes_state rb ws Hwf Hw) as (Hwf' & HL' & HM' & Hwin).
  fold rb' in Hwf', HL', HM', Hwin. split; [|exact Hwin].
  unfold open; cbn [mbind Result_bind].
  assert (length (mmap rb') = HEADER_LEN + len rb) as Hlen.
  { unfold wf, len, data in *. rewrite length_drop in HL'. rewrite <- HL'. lia. }
  rewrite <- Hlen, resize_all, take_take. change (8 `min` HEADER_LEN) with 8.
  rewrite HM', decide_True by done. by destruct rb'.
Qed.

Lemma ring_buffer_reopen_witness :
  open (Ok []) 2 = Ok {| mmap := to_le_bytes 8 MAGIC ++ replicate 10 0%Z |} /\
  let rb := {| mmap := to_le_bytes 8 MAGIC ++ replicate 10 0%Z |} in
  let rb' := foldl write_data rb [[5]; [6; 7]]%Z in
  open (Ok (mmap rb')) (len rb) = Ok rb' /\ window rb' = [6; 7]%Z.
Proof.
  split; [vm_compute; reflexivity|]. cbv zeta.
  destruct (ring_buffer_reopen {| mmap := to_le_bytes 8 MAGIC ++ replicate 10 0%Z |}
              [[5]; [6; 7]]%Z) as [Ho Hw];
    [vm_compute; lia|vm_compute; reflexivity|vm_compute; reflexivity|].
  split; [exact Ho|]. rewrite Hw. vm_compute. reflexivity.
Defined.

(** [clear] keeps the length and the magic number and leaves nothing to read. *)
Theorem ring_buffer_clear (rb : FileRingBuffer) : wf rb ->
  len (clear rb) = len rb /\ window (clear rb) = [] /\
  take 8 (mmap (clear rb)) = take 8 (mmap rb) /\
  Forall (eq 0%Z) (data (clear rb)).
Proof.
  unfold wf, HEADER_LEN. intros Hwf.
  assert (read_written (clear rb) = 0) as HW.
  { unfold read_written, clear, slice, WRITTEN_OFFSET; cbn [mmap].
    rewrite drop_app_length' by (rewrite length_take; lia). rewrite take_replicate.
    replace ((8 + 8 - 8) `min` (length (mmap rb) - 8)) with 8 by lia. reflexivity. }
  assert (data (clear rb) = replicate (len rb) 0%Z) as HD.
  { unfold data, clear, len, data, HEADER_LEN, WRITTEN_OFFSET; cbn [mmap].
    rewrite drop_app_ge by (rewrite length_take; lia).
    rewrite length_take, drop_replicate, length_drop. f_equal. lia. }
  split_and!; [|by apply window_empty| |].
  - unfold len at 1. by rewrite HD, length_replicate.
  - unfold clear, WRITTEN_OFFSET; cbn [mmap].
    rewrite take_app_le by (rewrite length_take; lia). by rewrite take_take.
  - rewrite HD. apply Forall_replicate. reflexivity.
Qed.

Lemma ring_buffer_clear_witness : window (clear (write_data (anon 3) [1; 2]%Z)) = [].
Proof.
  apply (ring_buffer_clear (write_data (anon 3) [1; 2]%Z)). vm_compute. lia.
Defined.

(** The window is not protected against a change of length: a wrapped buffer
    reopened with a larger length yields a zero byte that was never written and
    its bytes out of order. *)
Theorem ring_buffer_grow_leaks :
  exists rb rb', open (Ok []) 2 = Ok rb /\
    let rb1 := foldl write_data rb [[1]; [2]; [3]]%Z in
    window rb1 = [2; 3]%Z /\
    open (Ok (mmap rb1)) 4 = Ok rb' /\ window rb' = [3; 2; 0]%Z.
Proof.
  exists {| mmap := to_le_bytes 8 MAGIC ++ replicate 10 0%Z |},
    {| mmap := to_le_bytes 8 MAGIC ++ to_le_bytes 8 3 ++ [3; 2; 0; 0]%Z |}.
  cbv zeta. split_and!; vm_compute; reflexivity.
Qed.
