(* ===== verification/RateLimiter.v ===== *)
(** * The rate limiter ([backend/src/rate_limiter])

    The limiter is generic in its [StorageProvider]; the trait is a class, and
    what the limiter needs of a storage is a class of laws.  Against the laws the
    limiter grants exactly its budget per window; the Postgres provider does not
    satisfy them. *)

From S2P Require Import Prelude.

Record RlConfig := { max_requests : Z; time_window : Z }.

(** Times are nanoseconds; [remaining] is a [u64]. *)
Record Allowance := { remaining : Z; valid_until : Z }.

(** [sha2::Sha256] and [chrono]'s rounding to microseconds are external. *)
Class Sha256 := sha256 : bytes -> bytes.
Class Chrono := round_subsecs_6 : Z -> Z.

(** ** Keys *)

(** [u32::to_be_bytes]. *)
Definition u32_to_be_bytes (z : Z) : bytes := rev (to_le_bytes 4 z).

(** The bytes fed to the hasher: every part with its length in front. *)
Definition rl_key_input (service_name rpc_name : bytes) (custom : list bytes) : bytes :=
  concat (map (fun part => u32_to_be_bytes (Z.of_nat (length part)) ++ part)
              ([service_name; rpc_name] ++ custom)).

(** [RlKey::new]. *)
Definition RlKey_new `{Sha256} (service_name rpc_name : bytes) (custom : list bytes) : bytes :=
  sha256 (rl_key_input service_name rpc_name custom).

(** ** Storage *)

(** The [StorageProvider] trait; a lookup may change the provider's own state. *)
Class StorageProvider (St : Type) := {
  sp_get : St -> bytes -> option Allowance * St;
  sp_set : St -> bytes -> Allowance -> St
}.

(** What the limiter assumes of a storage: it behaves as a map. *)
Class StorageLaws (St : Type) `{StorageProvider St} := {
  sp_view : St -> bytes -> option Allowance;
  sp_get_view : forall st k, fst (sp_get st k) = sp_view st k;
  sp_get_frame : forall st k k', sp_view (snd (sp_get st k)) k' = sp_view st k';
  sp_set_same : forall st k a, sp_view (sp_set st k a) k = Some a;
  sp_set_other : forall st k k' a, k <> k' -> sp_view (sp_set st k a) k' = sp_view st k'
}.

(** ** Allowances *)

Section Limiter.
Context `{Chrono}.

(** [Allowance::new] at the clock reading [now]. *)
Definition Allowance_new (config : RlConfig) (now : Z) : Allowance :=
  {| remaining := max_requests config;
     valid_until := round_subsecs_6 now + time_window config |}.

(** [Allowance::reset]. *)
Definition reset (config : RlConfig) (now : Z) : Allowance :=
  {| remaining := max_requests config; valid_until := now + time_window config |}.

(** [Allowance::allowed]: the clock is read for the comparison and again for the
    reset. *)
Definition allowance_allowed (self : Allowance) (config : RlConfig) (now_check now_reset : Z) :
    bool * Allowance :=
  let self := if valid_until self <? now_check then reset config now_reset else self in
  if remaining self =? 0 then (false, self)
  else (true, {| remaining := remaining self - 1; valid_until := valid_until self |}).

(** The three clock readings of one request, in the order they are taken. *)
Record Readings := { at_new : Z; at_check : Z; at_reset : Z }.

(** [RateLimiter::allowed]. *)
Definition allowed {St} `{StorageProvider St} (config : RlConfig) (st : St) (key : bytes)
    (t : Readings) : bool * St :=
  let '(found, st) := sp_get st key in
  let allowance := match found with Some a => a | None => Allowance_new config (at_new t) end in
  let '(ok, allowance) := allowance_allowed allowance config (at_check t) (at_reset t) in
  if ok then (true, sp_set st key allowance) else (false, st).

(** A sequence of requests under one key. *)
Fixpoint requests {St} `{StorageProvider St} (config : RlConfig) (st : St) (key : bytes)
    (ts : list Readings) : list bool * St :=
  match ts with
  | [] => ([], st)
  | t :: ts =>
      let '(b, st) := allowed config st key t in
      let '(bs, st) := requests config st key ts in
      (b :: bs, st)
  end.

(** ** The Postgres provider *)

(** A row of [allowance_record]; [key_value] is its primary key. *)
Record AllowanceRecord := { row_remaining : Z; row_valid_until : Z }.

(** The table, and whether the [n]-th statement reaches the database. *)
Record RlPostgresStorage := {
  allowance_record : gmap bytes AllowanceRecord;
  up : nat -> bool;
  statements : nat
}.

Inductive StorageError := DatabaseError.

Definition tick (st : RlPostgresStorage) : RlPostgresStorage :=
  {| allowance_record := allowance_record st; up := up st; statements := S (statements st) |}.

(** [Allowance::load]. *)
Definition load (st : RlPostgresStorage) (key : bytes) :
    Result StorageError (option Allowance) * RlPostgresStorage :=
  if up st (statements st)
  then (Ok ((fun r => {| remaining := wrap_u64 (row_remaining r);
                         valid_until := row_valid_until r |}) <$> allowance_record st !! key),
        tick st)
  else (Err DatabaseError, tick st).

(** [Allowance::store]: a plain INSERT, which the primary key makes fail when the
    key is present. *)
Definition store (self : Allowance) (st : RlPostgresStorage) (key : bytes) :
    Result StorageError unit * RlPostgresStorage :=
  if up st (statements st) then
    match allowance_record st !! key with
    | Some _ => (Err DatabaseError, tick st)
    | None =>
        (Ok tt,
         {| allowance_record :=
              <[key := {| row_remaining := as_i64 (remaining self);
                          row_valid_until := round_subsecs_6 (valid_until self) |}]>
                (allowance_record st);
            up := up st; statements := S (statements st) |})
    end
  else (Err DatabaseError, tick st).

(** [StorageProvider::get] and [set]: errors of the database are swallowed. *)
Definition pg_get (st : RlPostgresStorage) (key : bytes) : option Allowance * RlPostgresStorage :=
  let '(r, st) := load st key in (match r with Ok o => o | Err _ => None end, st).
Definition pg_set (st : RlPostgresStorage) (key : bytes) (allowance : Allowance) :
    RlPostgresStorage :=
  snd (store allowance st key).

#[export] Instance RlPostgresStorage_provider : StorageProvider RlPostgresStorage :=
  {| sp_get := pg_get; sp_set := pg_set |}.

End Limiter.

(** ** Lemmas *)

Lemma u32_to_be_bytes_inj a b :
  0 <= a < U32 -> 0 <= b < U32 -> u32_to_be_bytes a = u32_to_be_bytes b -> a = b.
Proof.
  unfold u32_to_be_bytes. intros Ha Hb Hr.
  apply (f_equal (@rev Z)) in Hr. rewrite !rev_involutive in Hr.
  apply (f_equal from_le_bytes) in Hr. by rewrite !from_to_le_bytes in Hr by done.
Qed.

(** Length-prefixed parts can be told apart. *)
Lemma framed_inj (ps qs : list bytes) :
  Forall (fun p => Z.of_nat (length p) < U32) ps ->
  Forall (fun p => Z.of_nat (length p) < U32) qs ->
  concat (map (fun part => u32_to_be_bytes (Z.of_nat (length part)) ++ part) ps) =
  concat (map (fun part => u32_to_be_bytes (Z.of_nat (length part)) ++ part) qs) ->
  ps = qs.
Proof.
  assert (forall z, length (u32_to_be_bytes z) = 4%nat) as L4.
  { intros z. unfold u32_to_be_bytes. by rewrite length_rev, length_to_le_bytes. }
  intros Hps; revert qs; induction Hps as [|p ps Hp _ IH]; intros qs Hqs; cbn [map concat].
  - destruct Hqs as [|q qs]; [done|]. cbn [map concat]. intros He.
    apply (f_equal length) in He. rewrite !length_app, L4 in He. cbn [length] in He. lia.
  - destruct Hqs as [|q qs Hq Hqs]; cbn [map concat].
    + intros He. apply (f_equal length) in He. rewrite !length_app, L4 in He. cbn [length] in He. lia.
    + intros He. rewrite <- !app_assoc in He.
      apply app_inj_1 in He as [Hn He]; [|by rewrite !L4].
      apply u32_to_be_bytes_inj in Hn; [|lia..].
      apply app_inj_1 in He as [-> He]; [|lia]. f_equal. by apply IH.
Qed.

Section Budget.
Context `{Chrono} {St : Type} `{StorageLaws St}.

Implicit Types (config : RlConfig) (st : St) (t : Readings).

(** One request, through the storage's view. *)
Lemma allowed_view config st key t :
  let a := match sp_view st key with Some a => a | None => Allowance_new config (at_new t) end in
  let r := allowance_allowed a config (at_check t) (at_reset t) in
  fst (allowed config st key t) = fst r /\
  sp_view (snd (allowed config st key t)) key =
    (if fst r then Some (snd r) else sp_view st key) /\
  forall k, k <> key -> sp_view (snd (allowed config st key t)) k = sp_view st k.
Proof.
  cbv zeta. unfold allowed. pose proof (sp_get_view st key) as Hv.
  pose proof (sp_get_frame st key) as Hf. destruct (sp_get st key) as [found st'].
  cbn [fst snd] in Hv, Hf. subst found.
  destruct (allowance_allowed _ _ _ _) as [[] a]; cbn [fst snd]; split_and!; try done.
  - apply sp_set_same.
  - intros k Hk. rewrite sp_set_other by done. apply Hf.
Qed.

Lemma requests_frame config st key ts k : k <> key ->
  sp_view (snd (requests config st key ts)) k = sp_view st k.
Proof.
  intros Hk. revert st; induction ts as [|t ts IH]; intros st; cbn; [done|].
  destruct (allowed_view config st key t) as (_ & _ & Hf).
  destruct (allowed config st key t) as [b st']. specialize (IH st').
  destruct (requests config st' key ts) as [bs st'']. cbn in *. rewrite IH. by apply Hf.
Qed.

(** Within the window of a stored allowance. *)
Lemma requests_in_window config st key ts r v :
  sp_view st key = Some {| remaining := r; valid_until := v |} -> 0 <= r ->
  Forall (fun t => at_check t <= v) ts ->
  let n := Nat.min (length ts) (Z.to_nat r) in
  fst (requests config st key ts) = replicate n true ++ replicate (length ts - n) false.
Proof.
  cbv zeta. intros Hv Hr Hts. revert st r Hv Hr.
  induction Hts as [|t ts Ht _ IH]; intros st r Hv Hr; cbn [requests length]; [done|].
  destruct (allowed_view config st key t) as (Hb & Hs & _).
  rewrite Hv in Hb, Hs. unfold allowance_allowed in Hb, Hs. cbn [valid_until remaining] in Hb, Hs.
  rewrite (proj2 (Z.ltb_ge v (at_check t))) in Hb, Hs by lia. cbn [remaining valid_until] in Hb, Hs.
  destruct (allowed config st key t) as [b st']. cbn [fst snd] in Hb, Hs.
  destruct (Z.eqb_spec r 0) as [->|Hr0]; cbn [fst snd] in Hb, Hs; subst b.
  - specialize (IH st' 0 Hs ltac:(lia)). destruct (requests config st' key ts) as [bs st''].
    cbn [fst] in *. rewrite IH. replace (Nat.min (length ts) (Z.to_nat 0)) with 0%nat by lia.
    replace (Nat.min (S (length ts)) (Z.to_nat 0)) with 0%nat by lia.
    by rewrite !Nat.sub_0_r.
  - specialize (IH st' (r - 1) Hs ltac:(lia)). destruct (requests config st' key ts) as [bs st''].
    cbn [fst] in *. rewrite IH.
    replace (Nat.min (S (length ts)) (Z.to_nat r)) with (S (Nat.min (length ts) (Z.to_nat (r - 1)))) by lia.
    cbn [replicate app Nat.sub]. reflexivity.
Qed.

(** The end of the window that a first request at [t] opens: a new allowance is
    rounded, a reset one is not. *)
Definition window_end config (o : option Allowance) t : Z :=
  match o with
  | None => round_subsecs_6 (at_new t) + time_window config
  | Some _ => at_reset t + time_window config
  end.

(** Whether a request at [t] opens a window. *)
Definition opens_window config (o : option Allowance) t : Prop :=
  match o with
  | None => at_check t <= window_end config None t
  | Some a => valid_until a < at_check t
  end.

Lemma allowed_first config st key t :
  0 < max_requests config -> opens_window config (sp_view st key) t ->
  fst (allowed config st key t) = true /\
  sp_view (snd (allowed config st key t)) key =
    Some {| remaining := max_requests config - 1;
            valid_until := window_end config (sp_view st key) t |}.
Proof.
  intros Hmax Ho. destruct (allowed_view config st key t) as (-> & -> & _).
  assert ((max_requests config =? 0) = false) as Hn by (apply Z.eqb_neq; lia).
  unfold opens_window, window_end, allowance_allowed in *.
  destruct (sp_view st key) as [a|]; cbn [fst snd].
  - rewrite (proj2 (Z.ltb_lt _ _) Ho). cbn. by rewrite Hn.
  - cbn. rewrite (proj2 (Z.ltb_ge _ _) Ho). cbn. by rewrite Hn.
Qed.

End Budget.

(** ** A storage that satisfies the laws *)

(** A plain map, as the unit tests use it. *)
#[export] Instance map_storage : StorageProvider (gmap bytes Allowance) := {|
  sp_get := fun m k => (m !! k, m);
  sp_set := fun m k a => <[k := a]> m
|}.

#[export] Instance map_storage_laws : StorageLaws (gmap bytes Allowance).
Proof.
  refine {| sp_view := fun m k => m !! k |}; intros; cbn; try done.
  - by rewrite lookup_insert_eq.
  - by rewrite lookup_insert_ne.
Defined.

(** A clock of microsecond precision, for evaluation. *)
Module ToyClock.

#[export] Instance exact_round : Chrono := fun t => t.

End ToyClock.

(** ** Properties *)

(** Over any storage that behaves as a map, the limiter grants exactly its
    budget: starting without an allowance, or with an expired one, of the
    requests of one window the first [max_requests] are allowed and all later
    ones rejected, and no other key's allowance changes. *)
Theorem limiter_budget `{Chrono} {St} `{StorageLaws St} (config : RlConfig) (st : St) (key : bytes)
    (t : Readings) (ts : list Readings) :
  0 < max_requests config ->
  opens_window config (sp_view st key) t ->
  Forall (fun t' => at_check t' <= window_end config (sp_view st key) t) ts ->
  let n := Nat.min (length (t :: ts)) (Z.to_nat (max_requests config)) in
  fst (requests config st key (t :: ts)) =
    replicate n true ++ replicate (length (t :: ts) - n) false /\
  forall k, k <> key -> sp_view (snd (requests config st key (t :: ts))) k = sp_view st k.
Proof.
  cbv zeta. intros Hmax Hopen Hwin. split; [|intros k Hk; by apply requests_frame].
  destruct (allowed_first config st key t Hmax Hopen) as [Hb Hv].
  cbn [requests]. destruct (allowed config st key t) as [b st']. cbn [fst snd] in Hb, Hv. subst b.
  pose proof (requests_in_window config st' key ts _ _ Hv ltac:(lia) Hwin) as Hr.
  destruct (requests config st' key ts) as [bs st'']. cbn [fst] in *. rewrite Hr. cbn [length].
  replace (Nat.min (S (length ts)) (Z.to_nat (max_requests config)))
    with (S (Nat.min (length ts) (Z.to_nat (max_requests config - 1)))) by lia.
  reflexivity.
Qed.

Section Evaluate_limiter_budget.
Import ToyClock.

Lemma limiter_budget_witness :
  let c := {| max_requests := 2; time_window := 100 |} in
  let t n := {| at_new := n; at_check := n; at_reset := n |} in
  fst (requests c (∅ : gmap bytes Allowance) [1] [t 0; t 10; t 50; t 100]) =
    [true; true; false; false].
Proof.
  apply (limiter_budget {| max_requests := 2; time_window := 100 |} (∅ : gmap bytes Allowance) [1]
           {| at_new := 0; at_check := 0; at_reset := 0 |}).
  - cbn. lia.
  - vm_compute. congruence.
  - repeat constructor; vm_compute; congruence.
Defined.

End Evaluate_limiter_budget.

(** A stored allowance, if there is one, has budget left. *)
Definition row_alive (st : RlPostgresStorage) (key : bytes) : Prop :=
  forall row, allowance_record st !! key = Some row -> 0 < row_remaining row < 2 ^ 63.

(** [set] can only create the row. *)
Lemma pg_set_alive `{Chrono} st key a :
  row_alive st key -> (allowance_record st !! key = None -> 0 < remaining a < 2 ^ 63) ->
  row_alive (pg_set st key a) key.
Proof.
  unfold row_alive, pg_set, store. intros Hr Ha.
  destruct (up st (statements st)); [|exact Hr].
  destruct (allowance_record st !! key) eqn:E; cbn; [by rewrite E|].
  intros row. rewrite lookup_insert_eq. intros [= <-]. cbn.
  specialize (Ha eq_refl). rewrite as_i64_small; lia.
Qed.

(** An allowance that is new, or was stored with budget left, is granted. *)
Lemma alive_granted config a t1 t2 :
  0 < max_requests config -> remaining a <> 0 ->
  fst (allowance_allowed a config t1 t2) = true /\
  remaining (snd (allowance_allowed a config t1 t2)) =
    (if valid_until a <? t1 then max_requests config else remaining a) - 1.
Proof.
  intros Hmax Ha. unfold allowance_allowed.
  destruct (valid_until a <? t1); cbn; rewrite (proj2 (Z.eqb_neq _ _)) by lia; auto.
Qed.

Lemma pg_allowed_alive `{Chrono} config st key t :
  2 <= max_requests config < 2 ^ 63 -> row_alive st key ->
  fst (allowed config st key t) = true /\ row_alive (snd (allowed config st key t)) key.
Proof.
  intros Hmax Hrow. unfold allowed. cbn [sp_get sp_set RlPostgresStorage_provider].
  set (a0 := fun found => match found with
                          | Some a => a | None => Allowance_new config (at_new t) end).
  assert (Hget : exists found, pg_get st key = (found, tick st) /\ remaining (a0 found) <> 0 /\
    (allowance_record st !! key = None -> remaining (a0 found) = max_requests config)).
  { unfold pg_get, load. destruct (up st (statements st)); eexists; (split; [reflexivity|]).
    - destruct (allowance_record st !! key) as [row|] eqn:E; cbn; [|split; lia].
      specialize (Hrow row E). rewrite wrap_u64_small by (unfold U64; lia). split; [lia|done].
    - cbn. split; lia. }
  destruct Hget as (found & -> & Hne & Hnew). fold (a0 found).
  destruct (alive_granted config (a0 found) (at_check t) (at_reset t)) as [H1 H2]; [lia|done|].
  destruct (allowance_allowed _ _ _ _) as [b a']. cbn [fst snd] in *. subst b.
  split; [done|]. apply pg_set_alive; [exact Hrow|]. cbn [tick allowance_record].
  intros Hn. rewrite H2, Hnew by done. destruct (_ <? _); lia.
Qed.

(** The Postgres provider does not limit: with a budget of at least two, every
    request is allowed, however many there are and whatever the clock and the
    database do, because an allowance that was stored once is never updated. *)
Theorem pg_limiter_allows_everything `{Chrono} (config : RlConfig) (st : RlPostgresStorage)
    (key : bytes) (ts : list Readings) :
  2 <= max_requests config < 2 ^ 63 -> allowance_record st !! key = None ->
  fst (requests config st key ts) = replicate (length ts) true.
Proof.
  intros Hmax Hnone. assert (Hrow : row_alive st key) by (intros row; by rewrite Hnone).
  clear Hnone. revert st Hrow; induction ts as [|t ts IH]; intros st Hrow; [done|].
  cbn [requests length replicate]. pose proof (pg_allowed_alive config st key t Hmax Hrow) as [Hb Hr].
  destruct (allowed config st key t) as [b st']. cbn [fst snd] in *. subst b.
  specialize (IH st' Hr). destruct (requests config st' key ts) as [bs st'']. cbn [fst] in *.
  by rewrite IH.
Qed.

Section Evaluate_pg_limiter.
Import ToyClock.

Lemma pg_limiter_allows_everything_witness :
  let t := {| at_new := 0; at_check := 0; at_reset := 0 |} in
  fst (requests {| max_requests := 100; time_window := 3600000000000 |}
         {| allowance_record := ∅; up := fun _ => true; statements := 0 |} [1] (replicate 1000 t)) =
    replicate 1000 true.
Proof.
  cbv zeta.
  rewrite (pg_limiter_allows_everything {| max_requests := 100; time_window := 3600000000000 |}
           {| allowance_record := ∅; up := fun _ => true; statements := 0 |} [1]);
    [by rewrite length_replicate|cbn; lia|reflexivity].
Defined.

End Evaluate_pg_limiter.

(** Requests of different services, rpcs or custom parts never hash the same
    bytes: the key's preimage is injective for parts shorter than 4 GiB. *)
Theorem rl_key_input_injective (s s' r r' : bytes) (c c' : list bytes) :
  Forall (fun p => Z.of_nat (length p) < U32) ([s; r] ++ c) ->
  Forall (fun p => Z.of_nat (length p) < U32) ([s'; r'] ++ c') ->
  rl_key_input s r c = rl_key_input s' r' c' -> s = s' /\ r = r' /\ c = c'.
Proof.
  intros H1 H2 He. apply framed_inj in He; [|done..]. by injection He.
Qed.

Lemma rl_key_input_injective_witness :
  rl_key_input [1] [2; 3] [] <> rl_key_input [1; 2] [3] [].
Proof.
  intros He. apply (rl_key_input_injective [1] [1; 2] [2; 3] [3] [] []) in He as [He _];
    [discriminate He|repeat constructor; cbn; lia..].
Defined.
