(* ===== verification/Ratchet.v ===== *)
(** * Key derivation and the queue ratchet
      ([common/src/crypto/kdf], [common/src/crypto/ratchet])

    The ratchet that encrypts queue messages on the server and decrypts them on
    the client.  HKDF is an external crate and a class of operations. *)

From S2P Require Import Prelude Aead.

(** ** Key derivation *)

(** The [hkdf] crate: [from_prk] rejects keys that are too short, [expand] output
    lengths that are too long. *)
Class Hkdf := {
  hkdf_from_prk : bytes -> bool;
  hkdf_expand : bytes -> bytes -> nat -> option bytes
}.

Inductive LibraryErr := LibraryError.

(** [str::as_bytes]. *)
Definition as_bytes (s : string) : bytes :=
  map (fun a => Z.of_N (Ascii.N_of_ascii a)) (String.list_ascii_of_string s).

(** [KdfKey::derive], for a key type with the given [ADDITIONAL_LABEL]: the label
    is concatenated into [kdf_info], and [info] is what is expanded. *)
Definition kdf_key_derive `{Hkdf} (additional_label : string) (self : bytes) (info : bytes)
    (length : nat) : Result LibraryErr bytes :=
  _ ← ensure (hkdf_from_prk self) LibraryError;
  let kdf_info := as_bytes additional_label ++ info in
  ok_or LibraryError (hkdf_expand self info length).

(** [KdfDerivable::derive], for a key type with the given [LABEL]. *)
Definition kdf_derive `{Hkdf} {A} `{TlsCodec A} (additional_label label : string) (length : nat)
    (kdf_key : bytes) (additional_info : A) : Result LibraryErr bytes :=
  additional_info ← ok_or LibraryError (tls_serialize_detached additional_info);
  let info := additional_info ++ as_bytes label in
  kdf_key_derive additional_label kdf_key info length.

Definition KDF_KEY_SIZE : nat := 32.
Definition AEAD_KEY_SIZE : nat := 32.

Section Ratchet.
Context `{Hkdf} `{Aes256Gcm} `{TlsCodec bytes}.
Context {Payload : Type} `{TlsCodec Payload}.

(** [RatchetSecret::derive(&secret, &Vec::new())]. *)
Definition RatchetSecret_derive (secret : bytes) : Result LibraryErr bytes :=
  kdf_derive "RatchetSecret" "RatchetSecret derive" KDF_KEY_SIZE secret (nil : bytes).

(** [RatchetKey::derive(&secret, &Vec::new())]. *)
Definition RatchetKey_derive (secret : bytes) : Result LibraryErr bytes :=
  kdf_derive "RatchetSecret" "RatchetKey" AEAD_KEY_SIZE secret (nil : bytes).

(** ** The ratchet *)

Record QueueRatchet := {
  sequence_number : Z;
  secret : bytes;
  key : bytes
}.

(** [aircommon::messages::QueueMessage]. *)
Record QueueMessage := {
  qm_sequence_number : Z;
  qm_ciphertext : AeadCiphertext
}.

(** [TryFrom<RatchetSecret>]. *)
Definition ratchet_try_from (secret : bytes) : Result LibraryErr QueueRatchet :=
  key ← RatchetKey_derive secret;
  Ok {| sequence_number := 0; secret := secret; key := key |}.

(** [QueueRatchet::random]; the argument is the outcome of [RatchetSecret::random]. *)
Definition ratchet_random (rnd : Result RandomnessErr bytes) : Result RandomnessErr QueueRatchet :=
  secret ← rnd;
  map_err (fun _ => InsufficientRandomness) (ratchet_try_from secret).

(** [ratchet_forward]: nothing changes unless both derivations succeed. *)
Definition ratchet_forward : M QueueRatchet LibraryErr unit := fun self =>
  match (secret ← RatchetSecret_derive (secret self);
         key ← RatchetKey_derive secret;
         Ok {| sequence_number := wrap_u64 (sequence_number self + 1);
               secret := secret; key := key |}) with
  | Ok self' => (Ok tt, self')
  | Err e => (Err e, self)
  end.

(** [QueueRatchet::encrypt]. *)
Definition ratchet_encrypt (payload : Payload) (rnd : Result RandomnessErr bytes) :
    M QueueRatchet EncryptionErr QueueMessage :=
  self ← get;
  ct ← lift (encrypt payload (key self) rnd);
  let queue_message :=
    {| qm_sequence_number := sequence_number self; qm_ciphertext := ct |} in
  _ ← map_errM (fun _ => EncRatchetForwardError) ratchet_forward;
  mret queue_message.

(** [QueueRatchet::decrypt]. *)
Definition ratchet_decrypt (queue_message : QueueMessage) :
    M QueueRatchet DecryptionErr Payload :=
  self ← get;
  plaintext ← lift (decrypt (key self) (qm_ciphertext queue_message));
  _ ← map_errM (fun _ => DecRatchetForwardError) ratchet_forward;
  mret plaintext.

(** Encrypting and decrypting a sequence, stopping at the first failure. *)
Fixpoint encrypt_all (ps : list (Payload * Result RandomnessErr bytes)) :
    M QueueRatchet EncryptionErr (list QueueMessage) :=
  match ps with
  | [] => mret []
  | (p, rnd) :: ps => m ← ratchet_encrypt p rnd; ms ← encrypt_all ps; mret (m :: ms)
  end.

Fixpoint decrypt_all (ms : list QueueMessage) : M QueueRatchet DecryptionErr (list Payload) :=
  match ms with
  | [] => mret []
  | m :: ms => p ← ratchet_decrypt m; ps ← decrypt_all ms; mret (p :: ps)
  end.

(** [n] steps of the ratchet. *)
Fixpoint forward (n : nat) : M QueueRatchet LibraryErr unit :=
  match n with
  | O => mret tt
  | S n => _ ← ratchet_forward; forward n
  end.

End Ratchet.

(** ** Lemmas *)

Section RatchetLemmas.
Context `{Hkdf} `{Aes256GcmLaws} `{TlsCodec bytes}.
Context {Payload : Type} `{TlsCodecLaws Payload}.

Implicit Types (r : QueueRatchet) (m : QueueMessage) (p : Payload).

Lemma ratchet_forward_Err r e r' : ratchet_forward r = (Err e, r') -> r' = r.
Proof. unfold ratchet_forward. case_match; intros [=]; congruence. Qed.

Lemma ratchet_forward_seq r r' :
  ratchet_forward r = (Ok tt, r') -> sequence_number r' = wrap_u64 (sequence_number r + 1).
Proof.
  unfold ratchet_forward. destruct (RatchetSecret_derive (secret r)) as [s|]; [|discriminate].
  cbn. destruct (RatchetKey_derive s); [|discriminate]. cbn. intros [= <-]. reflexivity.
Qed.

Lemma ratchet_encrypt_Ok p rnd r m r' : ratchet_encrypt p rnd r = (Ok m, r') <->
  encrypt p (key r) rnd = Ok (qm_ciphertext m) /\
  qm_sequence_number m = sequence_number r /\ ratchet_forward r = (Ok tt, r').
Proof.
  unfold ratchet_encrypt. rewrite M_bind_Ok. unfold get. split.
  - intros (? & ? & [= <- <-] & Hb). apply M_bind_Ok in Hb as (ct & ? & [Hc ->]%lift_Ok & Hb).
    apply M_bind_Ok in Hb as ([] & r1 & Hf & [= <- <-]).
    unfold map_errM in Hf. destruct (ratchet_forward r) as [[[]|e] r2]; [|discriminate].
    injection Hf as ->. cbn. auto.
  - intros (Hc & Hs & Hf). eexists _, _; split; [reflexivity|].
    apply M_bind_Ok. eexists _, _; split; [by apply lift_Ok|].
    apply M_bind_Ok. exists tt, r'. split; [unfold map_errM; by rewrite Hf|].
    rewrite <- Hs. by destruct m.
Qed.

(** The receiving ratchet in the same state recovers the payload and ends in the
    same state. *)
Lemma ratchet_decrypt_encrypt p rnd r m r' :
  ratchet_encrypt p rnd r = (Ok m, r') -> ratchet_decrypt m r = (Ok p, r').
Proof.
  rewrite ratchet_encrypt_Ok. intros (He & _ & Hf). apply decrypt_encrypt in He.
  unfold ratchet_decrypt. apply M_bind_Ok. eexists _, _; split; [reflexivity|].
  apply M_bind_Ok. eexists _, _; split; [apply lift_Ok; eauto|].
  apply M_bind_Ok. exists tt, r'. split; [unfold map_errM; by rewrite Hf|reflexivity].
Qed.

Lemma ratchet_encrypt_Err p rnd r e r' : ratchet_encrypt p rnd r = (Err e, r') -> r' = r.
Proof.
  unfold ratchet_encrypt. intros [[=]|(? & ? & [= <- <-] & Hb)]%M_bind_Err.
  apply M_bind_Err in Hb as [[= _ ->]|(ct & ? & [_ ->]%lift_Ok & Hb)]; [done|].
  apply M_bind_Err in Hb as [Hf|(? & ? & _ & [=])].
  unfold map_errM in Hf. destruct (ratchet_forward r) as [[[]|] r2] eqn:E; [discriminate|].
  injection Hf as _ ->. by apply ratchet_forward_Err in E.
Qed.

Lemma ratchet_decrypt_Err m r e r' : ratchet_decrypt m r = (Err e, r') -> r' = r.
Proof.
  unfold ratchet_decrypt. intros [[=]|(? & ? & [= <- <-] & Hb)]%M_bind_Err.
  apply M_bind_Err in Hb as [[= _ ->]|(ct & ? & [_ ->]%lift_Ok & Hb)]; [done|].
  apply M_bind_Err in Hb as [Hf|(? & ? & _ & [=])].
  unfold map_errM in Hf. destruct (ratchet_forward r) as [[[]|] r2] eqn:E; [discriminate|].
  injection Hf as _ ->. by apply ratchet_forward_Err in E.
Qed.

Lemma encrypt_all_cons p rnd ps r ms r' : encrypt_all ((p, rnd) :: ps) r = (Ok ms, r') <->
  exists m ms' r1, ms = m :: ms' /\ ratchet_encrypt p rnd r = (Ok m, r1) /\
    encrypt_all ps r1 = (Ok ms', r').
Proof.
  cbn [encrypt_all]. rewrite M_bind_Ok. split.
  - intros (m & r1 & Hm & (ms' & r2 & Hs & [= <- <-])%M_bind_Ok). eauto 10.
  - intros (m & ms' & r1 & -> & Hm & Hs). exists m, r1. split; [done|].
    apply M_bind_Ok. eauto.
Qed.

Lemma decrypt_encrypt_all ps r ms r' :
  encrypt_all ps r = (Ok ms, r') -> decrypt_all ms r = (Ok (map fst ps), r').
Proof.
  revert r ms; induction ps as [|[p rnd] ps IH]; intros r ms.
  - by intros [= <- <-].
  - intros (m & ms' & r1 & -> & Hm & Hs)%encrypt_all_cons. cbn [decrypt_all map fst].
    apply M_bind_Ok. exists p, r1. split; [by eapply ratchet_decrypt_encrypt|].
    apply M_bind_Ok. exists (map fst ps), r'. split; [by apply IH|reflexivity].
Qed.

(** Dropping the first [n] messages and stepping the receiver [n] times. *)
Lemma encrypt_all_drop n ps r ms r' : (n <= length ps)%nat ->
  encrypt_all ps r = (Ok ms, r') ->
  exists rn, forward n r = (Ok tt, rn) /\ encrypt_all (drop n ps) rn = (Ok (drop n ms), r').
Proof.
  revert ps r ms; induction n as [|n IH]; intros ps r ms Hn He; [by exists r|].
  destruct ps as [|[p rnd] ps]; [cbn in Hn; lia|].
  apply encrypt_all_cons in He as (m & ms' & r1 & -> & Hm & Hs).
  apply ratchet_encrypt_Ok in Hm as (_ & _ & Hf).
  destruct (IH ps r1 ms' ltac:(cbn in Hn; lia) Hs) as (rn & Hrn & Hd).
  exists rn. split; [|exact Hd]. cbn [forward]. apply M_bind_Ok. eauto.
Qed.

Lemma encrypt_all_seq ps r ms r' : 0 <= sequence_number r ->
  sequence_number r + Z.of_nat (length ps) < U64 ->
  encrypt_all ps r = (Ok ms, r') ->
  map qm_sequence_number ms = map (fun i => sequence_number r + Z.of_nat i) (seq 0 (length ps)) /\
  sequence_number r' = sequence_number r + Z.of_nat (length ps).
Proof.
  revert r ms; induction ps as [|[p rnd] ps IH]; intros r ms Hge Hb.
  - intros [= <- <-]. cbn. split; [done|lia].
  - intros (m & ms' & r1 & -> & Hm & Hs)%encrypt_all_cons.
    apply ratchet_encrypt_Ok in Hm as (_ & Hq & Hf). apply ratchet_forward_seq in Hf.
    cbn [length] in *. rewrite wrap_u64_small in Hf by lia.
    destruct (IH r1 ms' ltac:(lia) ltac:(lia) Hs) as [Hmap Hend].
    split; [|lia]. cbn [map seq]. f_equal; [lia|]. rewrite Hmap, <- seq_shift, map_map.
    apply map_ext. intros i. lia.
Qed.

End RatchetLemmas.

(** ** Evaluation *)

Module ToyKdf.

(** A derivation that keeps the key material and appends the context. *)
#[export] Instance hkdf : Hkdf := {|
  hkdf_from_prk := fun _ => true;
  hkdf_expand := fun prk info n => Some (take n (info ++ prk))
|}.

End ToyKdf.

(** ** Properties *)

(** A receiver that starts from the sender's ratchet state decrypts every
    message the sender encrypted, in order, and ends in the sender's state; if
    the first [n] messages are lost, [n] calls of [ratchet_forward] let it
    decrypt the rest. *)
Theorem ratchet_synchronised `{Hkdf} `{Aes256GcmLaws} `{TlsCodec bytes} {Payload} `{TlsCodecLaws Payload}
    (ps : list (Payload * Result RandomnessErr bytes)) (r r' : QueueRatchet)
    (ms : list QueueMessage) (n : nat) :
  encrypt_all ps r = (Ok ms, r') -> (n <= length ps)%nat ->
  exists rn, forward n r = (Ok tt, rn) /\
    decrypt_all (drop n ms) rn = (Ok (drop n (map fst ps)), r').
Proof.
  intros He Hn. destruct (encrypt_all_drop n ps r ms r' Hn He) as (rn & Hf & Hd).
  exists rn. split; [exact Hf|]. rewrite (decrypt_encrypt_all _ _ _ _ Hd), skipn_map. reflexivity.
Qed.

Section Evaluate_ratchet.
Import Toy ToyKdf.

Lemma ratchet_synchronised_witness :
  exists ms r' rn,
    encrypt_all [([7], Ok [1]); ([8], Ok [2])] {| sequence_number := 0; secret := [1]; key := [2] |} =
      (Ok ms, r') /\
    forward 1 {| sequence_number := 0; secret := [1]; key := [2] |} = (Ok tt, rn) /\
    decrypt_all (Payload := bytes) (drop 1 ms) rn = (Ok [[8]], r').
Proof.
  eexists _, _.
  refine (let (rn, Hn) := ratchet_synchronised [([7], Ok [1]); ([8], Ok [2])]
            {| sequence_number := 0; secret := [1]; key := [2] |} _ _ 1 _ _ in
          ex_intro _ rn (conj _ Hn)); [vm_compute; reflexivity|cbn; lia|vm_compute; reflexivity].
Defined.

End Evaluate_ratchet.

(** The ratchet is failure-atomic: an encryption or a decryption that fails,
    for whatever reason, leaves the state untouched, so that a retry uses the
    same key and sequence number; messages that do get encrypted carry
    consecutive sequence numbers. *)
Theorem ratchet_failure_atomic `{Hkdf} `{Aes256GcmLaws} `{TlsCodec bytes} {Payload} `{TlsCodecLaws Payload}
    (r : QueueRatchet) :
  (forall (p : Payload) rnd e r', ratchet_encrypt p rnd r = (Err e, r') -> r' = r) /\
  (forall m e r', ratchet_decrypt (Payload := Payload) m r = (Err e, r') -> r' = r) /\
  (forall (ps : list (Payload * Result RandomnessErr bytes)) ms r',
     0 <= sequence_number r -> sequence_number r + Z.of_nat (length ps) < U64 ->
     encrypt_all ps r = (Ok ms, r') ->
     map qm_sequence_number ms =
       map (fun i => sequence_number r + Z.of_nat i) (seq 0 (length ps)) /\
     sequence_number r' = sequence_number r + Z.of_nat (length ps)).
Proof.
  split_and!.
  - intros p rnd e r'. apply ratchet_encrypt_Err.
  - intros m e r'. apply ratchet_decrypt_Err.
  - intros ps ms r'. apply encrypt_all_seq.
Qed.

Section Evaluate_ratchet_atomic.
Import Toy ToyKdf.

Lemma ratchet_failure_atomic_witness :
  let r := {| sequence_number := 5; secret := [1]; key := [2] |} in
  snd (ratchet_encrypt ([7] : bytes) (Err InsufficientRandomness) r) = r.
Proof.
  cbv zeta.
  apply (proj1 (ratchet_failure_atomic (Payload := bytes)
           {| sequence_number := 5; secret := [1]; key := [2] |})
         [7] (Err InsufficientRandomness) RandomnessError).
  vm_compute. reflexivity.
Defined.

End Evaluate_ratchet_atomic.
