(* ===== verification/Messages.v ===== *)
(** * Messages between the services
      ([common/src/messages/client_ds.rs], [backend/src/messages/intra_backend.rs])

    Identifiers and the messages that the delivery service hands to the queue
    service. *)

From S2P Require Import Prelude.

(** A [Uuid] is its 128-bit value, an [Fqdn] its text, a [TimeStamp] nanoseconds. *)
Abbreviation Uuid := Z (only parsing).
Abbreviation Fqdn := string (only parsing).
Abbreviation TimeStamp := Z (only parsing).
Abbreviation GroupId := (list Z) (only parsing).
Abbreviation GroupEpoch := Z (only parsing).
Abbreviation LeafNodeIndex := Z (only parsing).

(** [UserId]. *)
Record UserId := { user_uuid : Uuid; user_domain : Fqdn }.
#[export] Instance UserId_eq_dec : EqDecision UserId.
Proof. solve_decision. Defined.
#[export] Instance UserId_countable : Countable UserId.
Proof.
  refine (inj_countable' (fun u => (user_uuid u, user_domain u))
    (fun x => {| user_uuid := x.1; user_domain := x.2 |}) _). by intros [].
Defined.

(** [round_subsecs] to microseconds: to the nearest one, ties up. *)
Definition round_subsecs (t : TimeStamp) : TimeStamp :=
  let d := t mod 1000 in if 1000 - d <=? d then t + (1000 - d) else t - d.

(** [SealedClientReference] is an HPKE ciphertext. *)
Record QsReference := {
  client_homeserver_domain : Fqdn;
  sealed_reference : bytes
}.

#[export] Instance QsReference_eq_dec : EqDecision QsReference.
Proof. solve_decision. Defined.

Inductive QsQueueMessageType :=
| WelcomeBundleType
| ApqWelcomeBundleType
| MlsMessageType
| ApqMlsMessageType
| UserProfileKeyUpdateType
| TargetedMessageType
| DsResponseType.

#[export] Instance QsQueueMessageType_eq_dec : EqDecision QsQueueMessageType.
Proof. solve_decision. Defined.

Record QsQueueMessagePayload := {
  timestamp : TimeStamp;
  message_type : QsQueueMessageType;
  payload : bytes
}.

#[export] Instance QsQueueMessagePayload_eq_dec : EqDecision QsQueueMessagePayload.
Proof. solve_decision. Defined.

(** [QsQueueTargetedMessage]. *)
Inductive QsQueueTargetedMessage := TargetedApplicationMessage (m : bytes).

Record DsEventMessage := {
  ev_group_id : GroupId;
  ev_sender_index : LeafNodeIndex;
  ev_epoch : GroupEpoch;
  ev_timestamp : TimeStamp;
  ev_payload : bytes
}.

#[export] Instance DsEventMessage_eq_dec : EqDecision DsEventMessage.
Proof. solve_decision. Defined.

Inductive DsFanOutPayload :=
| FanOutQueueMessage (m : QsQueueMessagePayload)
| FanOutEventMessage (m : DsEventMessage).

#[export] Instance DsFanOutPayload_eq_dec : EqDecision DsFanOutPayload.
Proof. solve_decision. Defined.

(** [DsFanOutPayload::timestamp]. *)
Definition fan_out_timestamp (p : DsFanOutPayload) : TimeStamp :=
  match p with
  | FanOutQueueMessage m => timestamp m
  | FanOutEventMessage m => ev_timestamp m
  end.

(** [DsFanOutMessage]; its [TlsBool] fields are booleans. *)
Record DsFanOutMessage := {
  fo_payload : DsFanOutPayload;
  client_reference : QsReference;
  suppress_notifications : bool;
  broadcast_to_all_client_queues : bool
}.

#[export] Instance DsFanOutMessage_eq_dec : EqDecision DsFanOutMessage.
Proof. solve_decision. Defined.
