(* ===== verification/Grpc.v ===== *)
(** * gRPC requests and statuses ([protos/src/validation.rs], [backend/src/version.rs])

    What the handlers of the services share: status codes, protobuf fields,
    signed requests and the check of the client's version. *)

From S2P Require Import Prelude.

(** ** Status codes *)

Inductive Code :=
| InvalidArgument | Internal | NotFound | AlreadyExists | ResourceExhausted
| Unauthenticated | FailedPrecondition | Unavailable | DeadlineExceeded | Unknown.

(** The details that a status carries; its text is left out. *)
Inductive StatusDetail :=
| NoDetail
| WrongEpochDetail
| GenerationCollisionDetail (tags : list Z)
| VersionUnsupportedDetail
| TokenQuotaExceededDetail (retry_after_secs tokens_available : Z)
| UnknownTokenKeyIdDetail.

Record Status := { code : Code; detail : StatusDetail }.

Definition status (c : Code) : Status := {| code := c; detail := NoDetail |}.
(** ** Requests *)

(** A field of a protobuf message: absent, not convertible, or a value. *)
Inductive Field (A : Type) := FieldMissing | FieldInvalid | FieldValue (a : A).
Arguments FieldMissing {A}.
Arguments FieldInvalid {A}.
Arguments FieldValue {A} a.

(** [ok_or_missing_field] and the conversion of the field. *)
Definition required {A} (f : Field A) : Result Status A :=
  match f with FieldValue a => Ok a | _ => Err (status InvalidArgument) end.
(** An optional field: only a value that cannot be converted is an error. *)
Definition optional {A} (f : Field A) : Result Status (option A) :=
  match f with
  | FieldValue a => Ok (Some a)
  | FieldMissing => Ok None
  | FieldInvalid => Err (status InvalidArgument)
  end.

(** [SignedRequest]: a payload and a signature, either of which may be missing. *)
Record SignedRequest (P : Type) := {
  sr_payload : option P;
  sr_signature : option bytes
}.
Arguments sr_payload {P}.
Arguments sr_signature {P}.

(** Verification of a signed request under a verifying key, per payload type. *)
Class VerifiableRequest (P : Type) := signature_valid : P -> bytes -> bytes -> bool.

(** [semver]. *)
Class Semver := {
  VersionReq : Type;
  Version : Type;
  ProtoVersion : Type;
  version_matches : VersionReq -> Version -> bool;
  version_try_into : ProtoVersion -> option Version
}.
Record ClientMetadata `{Semver} := { metadata_version : option ProtoVersion }.

(** [verify_client_version]. *)
Definition verify_client_version `{Semver} (client_version_req : option VersionReq)
    (client_metadata : option ClientMetadata) : Result Status (option Version) :=
  let failed := {| code := FailedPrecondition; detail := VersionUnsupportedDetail |} in
  match client_version_req with
  | None => Ok (m ← client_metadata; v ← metadata_version m; version_try_into v)
  | Some req =>
      m ← ok_or failed client_metadata;
      v ← ok_or failed (metadata_version m);
      v ← ok_or failed (version_try_into v);
      if version_matches req v then Ok (Some v) else Err failed
  end.

(** [request.verify(key)]: a missing signature is an empty one. *)
Definition verify_request {P} `{VerifiableRequest P} (r : SignedRequest P) (key : bytes) :
    Result Status P :=
  match sr_payload r with
  | Some p =>
      if signature_valid p (default [] (sr_signature r)) key then Ok p
      else Err (status Unauthenticated)
  | None => Err (status Unauthenticated)
  end.

(** What ends a handler early: a status, or a panic of its task. *)
Inductive Failure := Failed (s : Status) | Panicked.

Definition fail_with {W A} (r : Result Status A) : M W Failure A := lift (map_err Failed r).
Definition with_status {W E A} (f : E -> Status) (m : M W E A) : M W Failure A :=
  map_errM (fun e => Failed (f e)) m.

(** ** Inversion *)

Lemma required_Ok {A} (f : Field A) a : required f = Ok a <-> f = FieldValue a.
Proof. destruct f; cbn; split; congruence. Qed.

Lemma verify_request_Ok {P} `{VerifiableRequest P} (r : SignedRequest P) key p :
  verify_request r key = Ok p <->
  sr_payload r = Some p /\ signature_valid p (default [] (sr_signature r)) key = true.
Proof.
  unfold verify_request. destruct (sr_payload r) as [p'|]; [|split; [discriminate|by intros [[=] _]]].
  destruct (signature_valid p' _ key) eqn:Es; split.
  - intros [= ->]. done.
  - by intros [[= ->] _].
  - discriminate.
  - intros [[= ->] Hs]. congruence.
Qed.

Lemma fail_with_Ok {W A} (r : Result Status A) (w : W) a w' : fail_with r w = (Ok a, w') -> r = Ok a.
Proof. unfold fail_with. intros Hr. leafM Hr. by apply map_err_Ok in Hr. Qed.
