(* ===== verification/PgTask.v ===== *)
(** * The Postgres listener task ([backend/src/pg_listen.rs])

    A task that holds one connection, listens on it to the channels of all queues
    that somebody listens to, and passes what it is notified of to a broadcast
    channel.  It is generic in what names a queue. *)

From S2P Require Import Prelude.

(** [str::strip_prefix]. *)
Fixpoint strip_prefix (prefix s : string) : option string :=
  match prefix, s with
  | EmptyString, _ => Some s
  | String a p, String b s => if decide (a = b) then strip_prefix p s else None
  | String _ _, EmptyString => None
  end.

(** The trait [PgChannelName], and what its users rely on. *)
Class PgChannelName (C : Type) := {
  pg_channel : C -> string;
  from_pg_channel : string -> option C
}.
Arguments pg_channel : simpl never.
Arguments from_pg_channel : simpl never.
Class PgChannelNameLaws (C : Type) `{PgChannelName C} : Prop := {
  from_pg_channel_pg_channel c : from_pg_channel (pg_channel c) = Some c
}.

Inductive Command (C : Type) := Listen (c : C) | Unlisten (c : C).
Arguments Listen {C} c.
Arguments Unlisten {C} c.

(** The capacity of the broadcast channel. *)
Definition BROADCAST_CAPACITY : nat := 1024.

(** The task's command channel, the channels its connection listens to, and the
    notifications that the connection has received; and the receiver of one
    subscriber. *)
Record PgTask (C : Type) := {
  commands : list (Command C);
  session : gset string;
  received : list string;
  inbox : list C
}.
Arguments commands {C}.
Arguments session {C}.
Arguments received {C}.
Arguments inbox {C}.

Section Task.
Context {C : Type} `{!PgChannelName C}.

(** [broadcast::Sender::send]: a slow receiver loses its oldest value. *)
Definition broadcast_send (c : C) (inbox : list C) : list C :=
  if (length inbox <? BROADCAST_CAPACITY)%nat then inbox ++ [c] else tail inbox ++ [c].

(** [handle_loop_event], for the next command or the next notification; [up] is
    whether the connection answers. *)
Definition handle_command (up : bool) (t : PgTask C) : option (PgTask C) :=
  match commands t with
  | [] => None
  | cmd :: rest =>
      Some {| commands := rest;
              session :=
                if up then
                  match cmd with
                  | Listen c => {[pg_channel c]} ∪ session t
                  | Unlisten c => session t ∖ {[pg_channel c]}
                  end
                else session t;
              received := received t; inbox := inbox t |}
  end.
Definition handle_notification (t : PgTask C) : option (PgTask C) :=
  match received t with
  | [] => None
  | channel :: rest =>
      Some {| commands := commands t; session := session t; received := rest;
              inbox := match from_pg_channel channel with
                       | Some c => broadcast_send c (inbox t)
                       | None => inbox t
                       end |}
  end.

(** A commit delivers the notifications of its transaction to a connection that
    listens to their channels. *)
Definition deliver_notifications (ids : list C) (t : PgTask C) : PgTask C :=
  {| commands := commands t; session := session t;
     received := received t ++ filter (fun ch => ch ∈ session t) (map pg_channel ids);
     inbox := inbox t |}.

(** [subscribe(..).next()]: the receiver skips other channels; [None] while there
    is nothing for [c]. *)
Fixpoint next_notification `{EqDecision C} (c : C) (inbox : list C) : option (list C) :=
  match inbox with
  | [] => None
  | x :: rest => if decide (x = c) then Some rest else next_notification c rest
  end.

End Task.

(** ** Channels *)

Lemma strip_prefix_app p s : strip_prefix p (p +:+ s)%string = Some s.
Proof.
  induction p as [|a p IH]; [done|]. simpl. by rewrite decide_True.
Qed.

#[export] Instance pg_channel_inj {C} `{PgChannelNameLaws C} : Inj (=) (=) (pg_channel (C := C)).
Proof.
  intros u v Huv. apply (f_equal from_pg_channel) in Huv. rewrite !from_pg_channel_pg_channel in Huv.
  by injection Huv.
Qed.
