(* ===== verification/Credentials.v ===== *)
(** * Credentials ([common/src/credentials], [common/src/time.rs])

    The credential chain of a homeserver: the self-standing credential of the
    authentication service, the intermediate credential that it signs, and the
    client credentials that the intermediate one signs.  Each level is a signed
    structure over its TLS serialization; SHA-256 fingerprints name the signer. *)

From S2P Require Import Prelude Aead Messages RateLimiter Signatures.

(** ** Time *)

Definition SECOND : Z := 10 ^ 9.
Definition MINUTE : Z := 60 * SECOND.
Definition DAY : Z := 24 * 60 * MINUTE.

Record ExpirationData := { not_before : TimeStamp; not_after : TimeStamp }.
#[export] Instance ExpirationData_eq_dec : EqDecision ExpirationData.
Proof. solve_decision. Defined.

(** [ExpirationData::new] and [validate] at the clock reading [now]. *)
Definition expiration_new (now : TimeStamp) (lifetime : Z) : ExpirationData :=
  let nb := round_subsecs now - 15 * MINUTE in
  {| not_before := nb; not_after := nb + lifetime |}.
Definition expiration_validate (now : TimeStamp) (e : ExpirationData) : bool :=
  let n := round_subsecs now in (not_before e <=? n) && (n <=? not_after e).

(** ** Structures *)

Inductive AirProtocolVersion := Alpha.
#[export] Instance AirProtocolVersion_eq_dec : EqDecision AirProtocolVersion.
Proof. solve_decision. Defined.

(** Signature schemes by their code; ED25519 is the default. *)
Definition DEFAULT_SIGNATURE_SCHEME : Z := 2055.

Record AsCredentialBody := {
  acb_version : AirProtocolVersion;
  acb_user_domain : Fqdn;
  acb_expiration_data : ExpirationData;
  acb_signature_scheme : Z;
  acb_verifying_key : bytes
}.
Record AsCredential := { ac_body : AsCredentialBody; ac_fingerprint : bytes }.
Record AsSigningKey := { ask_signing_key : SigningKey; ask_credential : AsCredential }.

Record AsIntermediateCredentialCsr := {
  aic_version : AirProtocolVersion;
  aic_user_domain : Fqdn;
  aic_signature_scheme : Z;
  aic_verifying_key : bytes
}.
Record AsIntermediateCredentialPayload := {
  aip_csr : AsIntermediateCredentialCsr;
  aip_expiration_data : ExpirationData;
  aip_signer_fingerprint : bytes
}.
Record AsIntermediateCredentialBody := {
  aib_credential : AsIntermediateCredentialPayload;
  aib_signature : bytes
}.
Record AsIntermediateCredential := {
  ai_body : AsIntermediateCredentialBody;
  ai_fingerprint : bytes
}.
Record AsIntermediateSigningKey := {
  aisk_signing_key : SigningKey;
  aisk_credential : AsIntermediateCredential
}.
(** [VerifiableAsIntermediateCredential]: as received, not yet verified. *)
Record VerifiableAsIntermediateCredential := {
  vai_credential : AsIntermediateCredentialPayload;
  vai_signature : bytes
}.

Record ClientCredentialCsr := {
  ccsr_version : AirProtocolVersion;
  ccsr_user_id : UserId;
  ccsr_signature_scheme : Z;
  ccsr_verifying_key : bytes
}.
Record ClientCredentialPayload := {
  ccp_csr : ClientCredentialCsr;
  ccp_expiration_data : ExpirationData;
  ccp_signer_fingerprint : bytes
}.
(** [ClientCredential], and [VerifiableClientCredential] with the same fields. *)
Record ClientCredential := {
  cc_payload : ClientCredentialPayload;
  cc_signature : bytes
}.

(** The columns of a stored client credential; its user is the key of the row. *)
Record FlatClientCredential := {
  fcc_version : bytes;
  fcc_signature_scheme : bytes;
  fcc_verifying_key : bytes;
  fcc_expiration_data : ExpirationData;
  fcc_signer_fingerprint : bytes;
  fcc_signature : bytes
}.

(** What is hashed for a fingerprint. *)
Record LabeledHashPayload (T : Type) := {
  lh_operation : string;
  lh_label : string;
  lh_payload : T
}.
Arguments lh_operation {T}.
Arguments lh_label {T}.
Arguments lh_payload {T}.

Inductive KeyGenerationError := KeyGenerationFailed.
Inductive SigningKeyCreationError := PublicKeyMismatch.

Definition DEFAULT_AS_CREDENTIAL_LIFETIME : Z := 5 * 365 * DAY.
Definition DEFAULT_AS_INTERMEDIATE_CREDENTIAL_LIFETIME : Z := 365 * DAY.
Definition DEFAULT_CLIENT_CREDENTIAL_LIFETIME : Z := 90 * DAY.
Definition AS_CREDENTIAL_LABEL : string := "Air AS Credential".
Definition AS_INTERMEDIATE_CREDENTIAL_LABEL : string := "AS Intermediate Credential".
Definition CLIENT_CREDENTIAL_LABEL : string := "Client Credential".

Section Credentials.
Context `{Sha256} `{SignatureScheme} `{!TlsCodec SignContent}.
Context `{!TlsCodec (LabeledHashPayload AsCredentialBody)}
  `{!TlsCodec (LabeledHashPayload AsIntermediateCredentialBody)}
  `{!TlsCodec AsIntermediateCredentialPayload} `{!TlsCodec ClientCredentialPayload}.
Context `{!Cbor AirProtocolVersion} `{!Cbor Z}.

(** [Hashable::hash]; a payload that cannot be serialized is excluded by a debug
    assertion. *)
Definition hash {T} `{!TlsCodec (LabeledHashPayload T)} (label : string) (x : T) : bytes :=
  sha256 (default [] (tls_serialize_detached
    {| lh_operation := "Air Hash"; lh_label := label; lh_payload := x |})).

(** ** The credential of the authentication service *)

(** [AsCredential::new], with the generated key and the clock reading. *)
Definition as_credential_new (generated : option SigningKey) (now : TimeStamp)
    (signature_scheme : Z) (user_domain : Fqdn) (expiration_data_option : option ExpirationData) :
    Result KeyGenerationError (AsCredential * AsSigningKey) :=
  let expiration_data :=
    default (expiration_new now DEFAULT_AS_CREDENTIAL_LIFETIME) expiration_data_option in
  key ← ok_or KeyGenerationFailed generated;
  let body := {| acb_version := Alpha; acb_user_domain := user_domain;
                 acb_expiration_data := expiration_data;
                 acb_signature_scheme := signature_scheme;
                 acb_verifying_key := verifying_key key |} in
  let credential := {| ac_body := body; ac_fingerprint := hash AS_CREDENTIAL_LABEL body |} in
  Ok (credential, {| ask_signing_key := key; ask_credential := credential |}).

(** ** Intermediate credentials *)

(** [AsIntermediateCredentialCsr::new]. *)
Definition as_intermediate_csr_new (generated : option SigningKey) (signature_scheme : Z)
    (user_domain : Fqdn) : Result KeyGenerationError (AsIntermediateCredentialCsr * SigningKey) :=
  prelim ← ok_or KeyGenerationFailed generated;
  Ok ({| aic_version := Alpha; aic_user_domain := user_domain;
         aic_signature_scheme := signature_scheme;
         aic_verifying_key := verifying_key prelim |}, prelim).

(** [AsIntermediateCredential::from_payload]. *)
Definition as_intermediate_from_payload (p : AsIntermediateCredentialPayload) (signature : bytes) :
    AsIntermediateCredential :=
  let body := {| aib_credential := p; aib_signature := signature |} in
  {| ai_body := body; ai_fingerprint := hash AS_INTERMEDIATE_CREDENTIAL_LABEL body |}.

(** [AsIntermediateCredentialCsr::sign]. *)
Definition as_intermediate_csr_sign (csr : AsIntermediateCredentialCsr) (key : AsSigningKey)
    (now : TimeStamp) (expiration_data_option : option ExpirationData) :
    option AsIntermediateCredential :=
  let expiration_data :=
    default (expiration_new now DEFAULT_AS_INTERMEDIATE_CREDENTIAL_LIFETIME) expiration_data_option in
  let p := {| aip_csr := csr; aip_expiration_data := expiration_data;
              aip_signer_fingerprint := ac_fingerprint (ask_credential key) |} in
  bs ← tls_serialize_detached p;
  signature ← sign_payload AS_INTERMEDIATE_CREDENTIAL_LABEL bs (ask_signing_key key);
  Some (as_intermediate_from_payload p signature).

Definition ai_verifying_key (c : AsIntermediateCredential) : bytes :=
  aic_verifying_key (aip_csr (aib_credential (ai_body c))).

(** [AsIntermediateSigningKey::from_prelim_key]. *)
Definition as_intermediate_from_prelim_key (prelim : SigningKey) (c : AsIntermediateCredential) :
    Result SigningKeyCreationError AsIntermediateSigningKey :=
  if decide (verifying_key prelim <> ai_verifying_key c) then Err PublicKeyMismatch
  else Ok {| aisk_signing_key := prelim; aisk_credential := c |}.

(** [Verifiable for VerifiableAsIntermediateCredential]. *)
Definition as_intermediate_verify (v : VerifiableAsIntermediateCredential) (key : bytes) :
    Result SignatureVerificationError AsIntermediateCredential :=
  _ ← verify_payload AS_INTERMEDIATE_CREDENTIAL_LABEL
        (tls_serialize_detached (vai_credential v)) (vai_signature v) key;
  Ok (as_intermediate_from_payload (vai_credential v) (vai_signature v)).

(** ** Client credentials *)

Definition cc_user_id (c : ClientCredential) : UserId := ccsr_user_id (ccp_csr (cc_payload c)).
Definition cc_verifying_key (c : ClientCredential) : bytes :=
  ccsr_verifying_key (ccp_csr (cc_payload c)).

(** [ClientCredentialPayload::new] and [validate]. *)
Definition client_payload_new (csr : ClientCredentialCsr) (now : TimeStamp)
    (expiration_data_option : option ExpirationData) (signer_fingerprint : bytes) :
    ClientCredentialPayload :=
  {| ccp_csr := csr;
     ccp_expiration_data :=
       default (expiration_new now DEFAULT_CLIENT_CREDENTIAL_LIFETIME) expiration_data_option;
     ccp_signer_fingerprint := signer_fingerprint |}.
Definition client_payload_validate (now : TimeStamp) (p : ClientCredentialPayload) : bool :=
  expiration_validate now (ccp_expiration_data p).

(** [Signable for ClientCredentialPayload]. *)
Definition client_payload_sign (p : ClientCredentialPayload) (key : AsIntermediateSigningKey) :
    option ClientCredential :=
  bs ← tls_serialize_detached p;
  signature ← sign_payload CLIENT_CREDENTIAL_LABEL bs (aisk_signing_key key);
  Some {| cc_payload := p; cc_signature := signature |}.

(** [Verifiable for VerifiableClientCredential]. *)
Definition client_credential_verify (v : ClientCredential) (key : bytes) :
    Result SignatureVerificationError ClientCredential :=
  _ ← verify_payload CLIENT_CREDENTIAL_LABEL (tls_serialize_detached (cc_payload v))
        (cc_signature v) key;
  Ok v.

(** [FlatClientCredential::new] and [into_client_credential]; [None] is a panic of
    [unwrap]. *)
Definition flat_new (c : ClientCredential) : option FlatClientCredential :=
  let csr := ccp_csr (cc_payload c) in
  version ← cbor_encode (ccsr_version csr);
  scheme ← cbor_encode (ccsr_signature_scheme csr);
  Some {| fcc_version := version; fcc_signature_scheme := scheme;
          fcc_verifying_key := ccsr_verifying_key csr;
          fcc_expiration_data := ccp_expiration_data (cc_payload c);
          fcc_signer_fingerprint := ccp_signer_fingerprint (cc_payload c);
          fcc_signature := cc_signature c |}.
Definition into_client_credential (f : FlatClientCredential) (user_id : UserId) :
    option ClientCredential :=
  version ← cbor_decode (fcc_version f);
  scheme ← cbor_decode (fcc_signature_scheme f);
  Some {| cc_payload :=
            {| ccp_csr := {| ccsr_version := version; ccsr_user_id := user_id;
                             ccsr_signature_scheme := scheme;
                             ccsr_verifying_key := fcc_verifying_key f |};
               ccp_expiration_data := fcc_expiration_data f;
               ccp_signer_fingerprint := fcc_signer_fingerprint f |};
          cc_signature := fcc_signature f |}.

(** ** Properties *)

(** What is signed with a label verifies with it. *)
Lemma sign_payload_verifies `{!SignatureSchemeLaws} label bs k s :
  is_keypair (signing_key k) (verifying_key k) -> sign_payload label bs k = Some s ->
  verify_payload label (Some bs) s (verifying_key k) = Ok tt.
Proof.
  intros Hk Hs. unfold sign_payload, key_sign in Hs. apply bind_Some in Hs as (c & Hc & Hs).
  unfold verify_payload, key_verify. cbn [ok_or mbind Result_bind]. rewrite Hc. cbn [ok_or mbind Result_bind].
  by rewrite (sign_correct _ _ _ _ Hk Hs).
Qed.

(** A signed client credential verifies under the key that signed it. *)
Lemma client_payload_sign_verifies `{!SignatureSchemeLaws} p key c :
  is_keypair (signing_key (aisk_signing_key key)) (verifying_key (aisk_signing_key key)) ->
  client_payload_sign p key = Some c ->
  cc_payload c = p /\
  client_credential_verify c (verifying_key (aisk_signing_key key)) = Ok c.
Proof.
  intros Hk Hs. unfold client_payload_sign in Hs.
  apply bind_Some in Hs as (bs & Hbs & (s & Hs & [= <-])%bind_Some).
  split; [done|]. unfold client_credential_verify. cbn [cc_payload cc_signature].
  by rewrite Hbs, (sign_payload_verifies _ _ _ _ Hk Hs).
Qed.

(** A signed intermediate credential, as a client receives it, verifies under the
    key of the credential that signed it and names that credential. *)
Lemma as_intermediate_sign_verifies `{!SignatureSchemeLaws} csr key now e c :
  is_keypair (signing_key (ask_signing_key key)) (verifying_key (ask_signing_key key)) ->
  as_intermediate_csr_sign csr key now e = Some c ->
  aip_csr (aib_credential (ai_body c)) = csr /\
  aip_signer_fingerprint (aib_credential (ai_body c)) = ac_fingerprint (ask_credential key) /\
  as_intermediate_verify {| vai_credential := aib_credential (ai_body c);
                            vai_signature := aib_signature (ai_body c) |}
    (verifying_key (ask_signing_key key)) = Ok c.
Proof.
  intros Hk Hs. unfold as_intermediate_csr_sign in Hs.
  apply bind_Some in Hs as (bs & Hbs & (s & Hs & [= <-])%bind_Some).
  split_and!; [done|done|]. unfold as_intermediate_verify. cbn [vai_credential vai_signature ai_body
    as_intermediate_from_payload aib_credential aib_signature].
  by rewrite Hbs, (sign_payload_verifies _ _ _ _ Hk Hs).
Qed.

(** A stored credential is read back as it was. *)
Lemma flat_roundtrip `{!CborLaws AirProtocolVersion, !CborLaws Z} c f :
  flat_new c = Some f -> into_client_credential f (cc_user_id c) = Some c.
Proof.
  intros Hf. unfold flat_new in Hf. apply bind_Some in Hf as (v & Hv & (s & Hs & [= <-])%bind_Some).
  unfold into_client_credential. cbn. rewrite (cbor_correct _ _ Hv). cbn.
  rewrite (cbor_correct _ _ Hs). by destruct c as [[[]]].
Qed.

End Credentials.

(** The codecs of credentials, together. *)
Class CredentialCodecs := {
  #[export] codec_sign_content :: TlsCodec SignContent;
  #[export] codec_as_credential_hash :: TlsCodec (LabeledHashPayload AsCredentialBody);
  #[export] codec_intermediate_hash :: TlsCodec (LabeledHashPayload AsIntermediateCredentialBody);
  #[export] codec_intermediate_payload :: TlsCodec AsIntermediateCredentialPayload;
  #[export] codec_client_payload :: TlsCodec ClientCredentialPayload;
  #[export] codec_version :: Cbor AirProtocolVersion;
  #[export] codec_scheme :: Cbor Z
}.
Class CredentialCodecLaws `{CredentialCodecs} : Prop := {
  #[export] codec_version_laws :: CborLaws AirProtocolVersion;
  #[export] codec_scheme_laws :: CborLaws Z
}.
