(* ===== verification/ConnectionPackages.v ===== *)
(** * Connection packages
      ([common/src/messages/connection_package.rs], [connection_package_v1.rs])

    What a user publishes under a username so that others can connect: an
    encryption key, signed under the username's key.  The second version carries
    a last-resort flag inside the signature. *)

From S2P Require Import Prelude Aead Messages Signatures Credentials.

(** A username hash has 32 bytes. *)
Abbreviation UsernameHash := (list Z) (only parsing).

Definition CONNECTION_PACKAGE_EXPIRATION : Z := 30 * DAY.
Definition CONNECTION_PACKAGE_LABEL : string := "ConnectionPackage".

Record ConnectionPackageV1Payload := {
  cp1_protocol_version : AirProtocolVersion;
  cp1_user_handle_hash : UsernameHash;
  cp1_encryption_key : bytes;
  cp1_lifetime : ExpirationData;
  cp1_verifying_key : bytes
}.
(** [ConnectionPackageV1], and [ConnectionPackageV1In] with the same fields. *)
Record ConnectionPackageV1 := { v1_payload : ConnectionPackageV1Payload; v1_signature : bytes }.

Record ConnectionPackagePayload := {
  cp_protocol_version : AirProtocolVersion;
  cp_user_handle_hash : UsernameHash;
  cp_encryption_key : bytes;
  cp_lifetime : ExpirationData;
  cp_verifying_key : bytes;
  cp_is_last_resort : bool
}.
(** [ConnectionPackage], and [ConnectionPackageIn] with the same fields. *)
Record ConnectionPackage := { v2_payload : ConnectionPackagePayload; v2_signature : bytes }.

#[export] Instance ConnectionPackageV1_eq_dec : EqDecision ConnectionPackageV1.
Proof.
  assert (EqDecision ConnectionPackageV1Payload) by solve_decision. solve_decision.
Defined.
#[export] Instance ConnectionPackage_eq_dec : EqDecision ConnectionPackage.
Proof.
  assert (EqDecision ConnectionPackagePayload) by solve_decision. solve_decision.
Defined.

(** [VersionedConnectionPackage], and the version that is not yet verified. *)
Inductive VersionedConnectionPackage :=
| CpV1 (cp : ConnectionPackageV1)
| CpV2 (cp : ConnectionPackage).
#[export] Instance VersionedConnectionPackage_eq_dec : EqDecision VersionedConnectionPackage.
Proof. solve_decision. Defined.

Definition is_last_resort (cp : VersionedConnectionPackage) : option bool :=
  match cp with
  | CpV1 _ => None
  | CpV2 cp => Some (cp_is_last_resort (v2_payload cp))
  end.

(** [From<ConnectionPackageV1> for ConnectionPackage] and back. *)
Definition v2_of_v1 (cp : ConnectionPackageV1) : ConnectionPackage :=
  let p := v1_payload cp in
  {| v2_payload := {| cp_protocol_version := cp1_protocol_version p;
                      cp_user_handle_hash := cp1_user_handle_hash p;
                      cp_encryption_key := cp1_encryption_key p;
                      cp_lifetime := cp1_lifetime p;
                      cp_verifying_key := cp1_verifying_key p;
                      cp_is_last_resort := false |};
     v2_signature := v1_signature cp |}.
Definition v1_of_v2 (cp : ConnectionPackage) : ConnectionPackageV1 :=
  let p := v2_payload cp in
  {| v1_payload := {| cp1_protocol_version := cp_protocol_version p;
                      cp1_user_handle_hash := cp_user_handle_hash p;
                      cp1_encryption_key := cp_encryption_key p;
                      cp1_lifetime := cp_lifetime p;
                      cp1_verifying_key := cp_verifying_key p |};
     v1_signature := v2_signature cp |}.
Definition into_current (cp : VersionedConnectionPackage) : ConnectionPackage :=
  match cp with CpV1 cp => v2_of_v1 cp | CpV2 cp => cp end.

Section ConnectionPackages.
Context `{SignatureScheme} `{!TlsCodec SignContent}.
Context `{!TlsCodec ConnectionPackageV1Payload} `{!TlsCodec ConnectionPackagePayload}.

(** [ConnectionPackageIn::verify] and [ConnectionPackageV1In::verify]: under the
    key in the payload itself. *)
Definition v1_verify (cp : ConnectionPackageV1) :
    Result SignatureVerificationError ConnectionPackageV1 :=
  _ ← verify_payload CONNECTION_PACKAGE_LABEL (tls_serialize_detached (v1_payload cp))
        (v1_signature cp) (cp1_verifying_key (v1_payload cp));
  Ok cp.
Definition v2_verify (cp : ConnectionPackage) :
    Result SignatureVerificationError ConnectionPackage :=
  _ ← verify_payload CONNECTION_PACKAGE_LABEL (tls_serialize_detached (v2_payload cp))
        (v2_signature cp) (cp_verifying_key (v2_payload cp));
  Ok cp.
Definition connection_package_verify (cp : VersionedConnectionPackage) :
    Result SignatureVerificationError VersionedConnectionPackage :=
  match cp with
  | CpV1 cp => verified ← v1_verify cp; Ok (CpV1 verified)
  | CpV2 cp => verified ← v2_verify cp; Ok (CpV2 verified)
  end.

(** [ConnectionPackage::new] and [ConnectionPackageV1::new], with the generated
    encryption key and the clock reading. *)
Definition connection_package_new (encryption_key : bytes) (now : TimeStamp) (h : UsernameHash)
    (k : SigningKey) (last_resort : bool) : option ConnectionPackage :=
  let p := {| cp_protocol_version := Alpha; cp_user_handle_hash := h;
              cp_encryption_key := encryption_key;
              cp_lifetime := expiration_new now CONNECTION_PACKAGE_EXPIRATION;
              cp_verifying_key := verifying_key k; cp_is_last_resort := last_resort |} in
  bs ← tls_serialize_detached p;
  s ← sign_payload CONNECTION_PACKAGE_LABEL bs k;
  Some {| v2_payload := p; v2_signature := s |}.
Definition connection_package_v1_new (encryption_key : bytes) (now : TimeStamp) (h : UsernameHash)
    (k : SigningKey) : option ConnectionPackageV1 :=
  let p := {| cp1_protocol_version := Alpha; cp1_user_handle_hash := h;
              cp1_encryption_key := encryption_key;
              cp1_lifetime := expiration_new now CONNECTION_PACKAGE_EXPIRATION;
              cp1_verifying_key := verifying_key k |} in
  bs ← tls_serialize_detached p;
  s ← sign_payload CONNECTION_PACKAGE_LABEL bs k;
  Some {| v1_payload := p; v1_signature := s |}.

(** ** Properties *)

(** Verification does not change a package. *)
Lemma connection_package_verify_Ok cp cp' : connection_package_verify cp = Ok cp' -> cp' = cp.
Proof.
  destruct cp as [cp|cp]; cbn [connection_package_verify]; unfold v1_verify, v2_verify;
    intros H'; by inv_ok.
Qed.

(** A package that a user creates is accepted. *)
Lemma connection_package_new_verifies `{!SignatureSchemeLaws} ek now h k b cp :
  is_keypair (signing_key k) (verifying_key k) ->
  connection_package_new ek now h k b = Some cp ->
  connection_package_verify (CpV2 cp) = Ok (CpV2 cp) /\ is_last_resort (CpV2 cp) = Some b.
Proof.
  intros Hk Hn. unfold connection_package_new in Hn.
  apply bind_Some in Hn as (bs & Hbs & (s & Hs & [= <-])%bind_Some). split; [|done].
  unfold connection_package_verify, v2_verify. cbn [v2_payload v2_signature cp_verifying_key].
  by rewrite Hbs, (sign_payload_verifies _ _ _ _ Hk Hs).
Qed.

End ConnectionPackages.
