(* ===== verification/AuthDb.v ===== *)
(** * The database of the authentication service
      ([backend/migrations], [backend/src/auth_service])

    The tables, and what a statement and a transaction do to them.  Whether a
    statement reaches the database, the clock, random numbers, generated keys and
    the order of unordered scans are oracles, read at the number of events so far.
    A failing statement aborts its transaction: later statements fail, and COMMIT
    answers by rolling back, without an error. *)

From S2P Require Import Prelude Aead Messages PgTask Signatures Credentials ConnectionPackages.

(** ** Tables *)

Inductive OperationType := OpUnspecified | AddUsername | GetInviteCode.
#[export] Instance OperationType_eq_dec : EqDecision OperationType.
Proof. solve_decision. Defined.
#[export] Instance OperationType_countable : Countable OperationType.
Proof.
  refine (inj_countable' (fun o => match o with OpUnspecified => 0 | AddUsername => 1 | GetInviteCode => 2 end)
    (fun n => match n with 1 => AddUsername | 2 => GetInviteCode | _ => OpUnspecified end) _). by intros [].
Defined.

(** [EncryptedUserProfile]: a ciphertext and the index of its key. *)
Record EncryptedUserProfile := { key_index : bytes; profile_ciphertext : AeadCiphertext }.

(** The tables of users: invitation codes, user records, client records and
    signing keys. *)
Record InvitationRow := { inv_redeemed : bool; inv_created_at : TimeStamp }.
Record UserRow := {
  row_encrypted_user_profile : EncryptedUserProfile;
  row_staged_user_profile : option EncryptedUserProfile
}.
Record ClientRow := {
  row_user_domain : Fqdn;
  row_activity_time : TimeStamp;
  row_credential : FlatClientCredential
}.
Inductive CredentialType := CredAs | CredIntermediate.
#[export] Instance CredentialType_eq_dec : EqDecision CredentialType.
Proof. solve_decision. Defined.
(** [StorableSigningKey] and [IntermediateSigningKey], the contents of the blob. *)
Inductive SigningKeyBlob :=
| AsKeyBlob (k : AsSigningKey)
| IntermediateKeyBlob (k : AsIntermediateSigningKey).
Record SigningKeyRow := {
  row_cred_type : CredentialType;
  row_credential_fingerprint : bytes;
  row_signing_key : SigningKeyBlob;
  row_currently_active : bool
}.
Record UsersDb := {
  invitation_code : gmap string InvitationRow;
  as_user_record : gmap UserId UserRow;
  as_client_record : gmap Uuid ClientRow;
  as_signing_key : list SigningKeyRow
}.

(** The tables of tokens: allowances, nonces, and the keys that tokens are issued
    under. *)
Record AllowanceRow := { row_remaining : Z; row_valid_until : TimeStamp }.
Inductive NonceStatus := NonceReserved | NonceCommitted.
#[export] Instance NonceStatus_eq_dec : EqDecision NonceStatus.
Proof. solve_decision. Defined.
Record NonceRow := { row_status : NonceStatus; row_nonce_created_at : TimeStamp }.
Record BatchedKeyRow := { row_voprf_server : bytes; row_key_created_at : TimeStamp }.
Record TokensDb := {
  as_token_allowance : gmap (UserId * OperationType) AllowanceRow;
  as_token_nonce : gmap (OperationType * bytes) NonceRow;
  as_batched_key : gmap (OperationType * Z) BatchedKeyRow
}.

(** The tables of usernames: records, queues and connection packages; and the
    channels notified. *)
Record HandleRow := { row_verifying_key : bytes; row_expiration_data : ExpirationData }.
Record ConnectionOfferMessage := {
  offer_ciphertext : option bytes;
  offer_connection_package_hash : option bytes
}.
Record UsernameQueueMessage := {
  message_id : option Uuid;
  message_payload : option ConnectionOfferMessage;
  message_created_at : option TimeStamp
}.
Record HandleQueueRow := {
  row_hash : UsernameHash;
  row_message : UsernameQueueMessage;
  row_fetched_by : option Uuid;
  row_created_at : TimeStamp
}.
Record ConnectionPackageRow := {
  cpr_hash : UsernameHash;
  cpr_package : VersionedConnectionPackage;
  cpr_is_last_resort : option bool
}.
Record ConnectionPackageTable := {
  cpt_next : Z;
  cpt_rows : gmap Z ConnectionPackageRow
}.
Record NamesDb := {
  as_user_handle : gmap UsernameHash HandleRow;
  as_user_handles_queue : gmap Uuid HandleQueueRow;
  handle_connection_package : ConnectionPackageTable;
  names_notified : list UsernameHash
}.

Record AsDb := { users_db : UsersDb; tokens_db : TokensDb; names_db : NamesDb }.

Definition set_users_db (u : UsersDb) (d : AsDb) : AsDb :=
  {| users_db := u; tokens_db := tokens_db d; names_db := names_db d |}.
Definition set_tokens_db (t : TokensDb) (d : AsDb) : AsDb :=
  {| users_db := users_db d; tokens_db := t; names_db := names_db d |}.
Definition set_names_db (n : NamesDb) (d : AsDb) : AsDb :=
  {| users_db := users_db d; tokens_db := tokens_db d; names_db := n |}.

Definition set_invitation_codes (c : gmap string InvitationRow) (d : AsDb) : AsDb :=
  let u := users_db d in
  set_users_db {| invitation_code := c; as_user_record := as_user_record u;
                  as_client_record := as_client_record u; as_signing_key := as_signing_key u |} d.
Definition set_user_records (r : gmap UserId UserRow) (d : AsDb) : AsDb :=
  let u := users_db d in
  set_users_db {| invitation_code := invitation_code u; as_user_record := r;
                  as_client_record := as_client_record u; as_signing_key := as_signing_key u |} d.
Definition set_client_records (r : gmap Uuid ClientRow) (d : AsDb) : AsDb :=
  let u := users_db d in
  set_users_db {| invitation_code := invitation_code u; as_user_record := as_user_record u;
                  as_client_record := r; as_signing_key := as_signing_key u |} d.
Definition set_signing_keys (k : list SigningKeyRow) (d : AsDb) : AsDb :=
  let u := users_db d in
  set_users_db {| invitation_code := invitation_code u; as_user_record := as_user_record u;
                  as_client_record := as_client_record u; as_signing_key := k |} d.

Definition set_allowances (a : gmap (UserId * OperationType) AllowanceRow) (d : AsDb) : AsDb :=
  let t := tokens_db d in
  set_tokens_db {| as_token_allowance := a; as_token_nonce := as_token_nonce t;
                   as_batched_key := as_batched_key t |} d.
Definition set_nonces (n : gmap (OperationType * bytes) NonceRow) (d : AsDb) : AsDb :=
  let t := tokens_db d in
  set_tokens_db {| as_token_allowance := as_token_allowance t; as_token_nonce := n;
                   as_batched_key := as_batched_key t |} d.
Definition set_batched_keys (k : gmap (OperationType * Z) BatchedKeyRow) (d : AsDb) : AsDb :=
  let t := tokens_db d in
  set_tokens_db {| as_token_allowance := as_token_allowance t; as_token_nonce := as_token_nonce t;
                   as_batched_key := k |} d.

Definition set_handles (h : gmap UsernameHash HandleRow) (d : AsDb) : AsDb :=
  let n := names_db d in
  set_names_db {| as_user_handle := h; as_user_handles_queue := as_user_handles_queue n;
                  handle_connection_package := handle_connection_package n;
                  names_notified := names_notified n |} d.
Definition set_handles_queue (q : gmap Uuid HandleQueueRow) (d : AsDb) : AsDb :=
  let n := names_db d in
  set_names_db {| as_user_handle := as_user_handle n; as_user_handles_queue := q;
                  handle_connection_package := handle_connection_package n;
                  names_notified := names_notified n |} d.
Definition set_connection_packages (t : ConnectionPackageTable) (d : AsDb) : AsDb :=
  let n := names_db d in
  set_names_db {| as_user_handle := as_user_handle n;
                  as_user_handles_queue := as_user_handles_queue n;
                  handle_connection_package := t; names_notified := names_notified n |} d.
Definition add_name_notified (h : UsernameHash) (d : AsDb) : AsDb :=
  let n := names_db d in
  set_names_db {| as_user_handle := as_user_handle n;
                  as_user_handles_queue := as_user_handles_queue n;
                  handle_connection_package := handle_connection_package n;
                  names_notified := names_notified n ++ [h] |} d.

(** ** The state of the service *)

(** A transaction: its start, whether a statement of it failed, and the tables that
    a rollback restores. *)
Inductive Txn := NoTxn | InTxn (started : TimeStamp) (aborted : bool) (saved : AsDb).

(** Cancellation tokens are numbered; a listener is the token of its stream. *)
Record AsWorld := {
  adb : AsDb;
  as_txn : Txn;
  as_events : nat;
  as_listeners : gmap UsernameHash nat;
  as_cancelled : gset nat;
  as_next_token : nat;
  as_commands : list (Command UsernameHash)
}.

Definition set_adb (d : AsDb) (w : AsWorld) : AsWorld :=
  {| adb := d; as_txn := as_txn w; as_events := as_events w; as_listeners := as_listeners w;
     as_cancelled := as_cancelled w; as_next_token := as_next_token w; as_commands := as_commands w |}.
Definition set_txn (t : Txn) (w : AsWorld) : AsWorld :=
  {| adb := adb w; as_txn := t; as_events := as_events w; as_listeners := as_listeners w;
     as_cancelled := as_cancelled w; as_next_token := as_next_token w; as_commands := as_commands w |}.
Definition tick (w : AsWorld) : AsWorld :=
  {| adb := adb w; as_txn := as_txn w; as_events := S (as_events w); as_listeners := as_listeners w;
     as_cancelled := as_cancelled w; as_next_token := as_next_token w; as_commands := as_commands w |}.

(** [sqlx::Error]; [OutOfFuel] does not occur. *)
Inductive SqlxError := DatabaseError | RowNotFound | OutOfFuel.

(** ** Oracles *)

Class Oracles := {
  db_ok : nat -> bool;
  now : nat -> TimeStamp;
  rng : nat -> nat;
  uuid_of : nat -> Uuid;
  generated_key : nat -> option SigningKey;
  scan : forall A, nat -> list A -> list A;
  timestamptz : TimeStamp -> TimeStamp
}.
Arguments scan {_ A} n l.
(** A scan returns all rows; generated keys are key pairs; the clock does not run
    backwards. *)
Class OracleLaws `{Oracles} `{SignatureScheme} : Prop := {
  scan_permutation A n (l : list A) : scan n l ≡ₚ l;
  generated_keypair n k : generated_key n = Some k -> is_keypair (signing_key k) (verifying_key k)
}.
Class ClockLaws `{Oracles} : Prop := {
  now_mono m n : (m <= n)%nat -> now m <= now n
}.
(** A column of type [timestamptz] holds whole microseconds; these it keeps. *)
Class TimestamptzLaws `{Oracles} : Prop := {
  timestamptz_exact t : t mod 1000 = 0 -> timestamptz t = t
}.

Section Database.
Context `{Oracles}.

(** The next event: a clock reading or a random draw. *)
Definition utc_now {E} : M AsWorld E TimeStamp := fun w => (Ok (now (as_events w)), tick w).
Definition draw {E} : M AsWorld E nat := fun w => (Ok (as_events w), tick w).

(** The transaction that a failed statement leaves. *)
Definition abort (t : Txn) : Txn :=
  match t with InTxn s _ saved => InTxn s true saved | NoTxn => NoTxn end.

(** A statement on the current connection, as a function of the tables at the
    transaction's time; [None] is a violated constraint or a syntax error.  The
    event number orders the rows of unordered results. *)
Definition sql {A} (f : nat -> TimeStamp -> AsDb -> option (A * AsDb)) : M AsWorld SqlxError A := fun w =>
  let n := as_events w in
  let run t :=
    match (if db_ok n then f n t (adb w) else None) with
    | Some (a, d) => (Ok a, set_adb d (tick w))
    | None => (Err DatabaseError, set_txn (abort (as_txn w)) (tick w))
    end in
  match as_txn w with
  | NoTxn => run (now n)
  | InTxn t false _ => run t
  | InTxn _ true _ => (Err DatabaseError, tick w)
  end.

(** A query, and a statement that always succeeds. *)
Definition query {A} (f : nat -> AsDb -> A) : M AsWorld SqlxError A :=
  sql (fun n _ d => Some (f n d, d)).
Definition exec {A} (f : TimeStamp -> AsDb -> A * AsDb) : M AsWorld SqlxError A :=
  sql (fun _ t d => Some (f t d)).

(** A statement on another connection while a transaction is open: it is seen by
    the transaction and not undone with it. *)
Definition pool_write (f : TimeStamp -> AsDb -> AsDb) : M AsWorld SqlxError unit := fun w =>
  let n := as_events w in
  if db_ok n then
    let w' := set_adb (f (now n) (adb w)) (tick w) in
    match as_txn w with
    | InTxn t b saved => (Ok tt, set_txn (InTxn t b (f (now n) saved)) w')
    | NoTxn => (Ok tt, w')
    end
  else (Err DatabaseError, tick w).

(** [pool.begin()]. *)
Definition begin : M AsWorld SqlxError unit := fun w =>
  let n := as_events w in
  if db_ok n then (Ok tt, set_txn (InTxn (now n) false (adb w)) (tick w))
  else (Err DatabaseError, tick w).

(** A dropped transaction is rolled back. *)
Definition rollback (w : AsWorld) : AsWorld :=
  match as_txn w with
  | InTxn _ _ saved => set_txn NoTxn (set_adb saved w)
  | NoTxn => w
  end.

(** [txn.commit()]. *)
Definition commit : M AsWorld SqlxError unit := fun w =>
  if db_ok (as_events w) then
    match as_txn w with
    | InTxn _ true _ => (Ok tt, rollback (tick w))
    | _ => (Ok tt, set_txn NoTxn (tick w))
    end
  else (Err DatabaseError, rollback (tick w)).

(** [pool.begin()], the body, [txn.commit()], with the conversion of the error. *)
Definition transaction {E A} (of_sqlx : SqlxError -> E) (body : M AsWorld E A) : M AsWorld E A := fun w =>
  match map_errM of_sqlx begin w with
  | (Err e, w1) => (Err e, w1)
  | (Ok _, w1) =>
      match body w1 with
      | (Err e, w2) => (Err e, rollback w2)
      | (Ok a, w2) =>
          match map_errM of_sqlx commit w2 with
          | (Ok _, w3) => (Ok a, w3)
          | (Err e, w3) => (Err e, w3)
          end
      end
  end.

(** A transaction inside a transaction: a savepoint.  Its errors end the outer
    one. *)
Definition savepoint {E A} (of_sqlx : SqlxError -> E) (body : M AsWorld E A) : M AsWorld E A :=
  _ ← map_errM of_sqlx (exec (fun _ d => (tt, d)));
  a ← body;
  _ ← map_errM of_sqlx (exec (fun _ d => (tt, d)));
  mret a.

End Database.
