(* ===== verification/AuthTokens.v ===== *)
(** * Privacy Pass tokens
      ([backend/src/auth_service/privacy_pass.rs], [client_api/privacy_pass.rs])

    Tokens are issued to authenticated users within an allowance per operation
    type and redeemed anonymously, each once.  The protocol is the crate
    [privacypass], which works on the stores of keys and nonces that it is given:
    [PrivacyPass].  Keys are rotated; expired keys and old nonces are removed. *)

From stdpp Require Import sorting.
From S2P Require Import Prelude Aead Messages Credentials ConnectionPackages AuthDb.

(** ** Operation types ([protos/src/auth_service/v1.rs]) *)

(** [OperationType::try_from(i32)]. *)
Definition operation_of_i32 (z : Z) : option OperationType :=
  match z with
  | 0 => Some OpUnspecified
  | 1 => Some AddUsername
  | 2 => Some GetInviteCode
  | _ => None
  end.

Definition max_tokens_allowance (o : OperationType) : Z :=
  match o with OpUnspecified => 0 | AddUsername => 10 | GetInviteCode => 1 end.

(** [chrono]'s calendar: a month later. *)
Class Calendar := plus_month : TimeStamp -> TimeStamp.
Class CalendarLaws `{Calendar} : Prop := plus_month_later t : t < plus_month t.

Definition valid_until_starting_at `{Calendar} (o : OperationType) (at_ : TimeStamp) : TimeStamp :=
  match o with
  | OpUnspecified => at_
  | AddUsername => plus_month at_
  | GetInviteCode => at_ + DAY
  end.

(** [OperationType::all]. *)
Definition operation_types : list OperationType :=
  filter (fun o => o <> OpUnspecified) [OpUnspecified; AddUsername; GetInviteCode].

(** ** The crate *)

Inductive PpRedeemError := KeyIdNotFound | PpRedeemFailed.
Inductive PpIssueError := PpIssueFailed.
Inductive CreateKeypairError := CreateKeypairFailed.

(** Tokens and requests with the fields that the protocol uses; a VOPRF server is
    its stored form.  The three operations of the server take the stores as
    arguments; generated key pairs come with their truncated key ids. *)
Class PrivacyPass := {
  AmortizedToken : Type;
  TokenRequest : Type;
  TokenResponse : Type;
  token_of_bytes : bytes -> option AmortizedToken;
  token_request_of_bytes : bytes -> option TokenRequest;
  token_response_to_bytes : TokenResponse -> option bytes;
  token_nonce : AmortizedToken -> bytes;
  token_key_id : AmortizedToken -> Z;
  token_valid : bytes -> AmortizedToken -> bool;
  request_key_id : TokenRequest -> Z;
  nr : TokenRequest -> Z;
  evaluate : bytes -> TokenRequest -> option TokenResponse;
  keypairs : nat -> list (Z * bytes);
  serialize_public_key : bytes -> bytes;
  pp_create_keypair : forall E, nat -> (Z -> bytes -> M AsWorld E bool) ->
    M AsWorld E (Result CreateKeypairError unit);
  pp_issue_token_response : forall E, (Z -> M AsWorld E (option bytes)) -> TokenRequest ->
    M AsWorld E (Result PpIssueError TokenResponse);
  pp_redeem_token : forall E, (Z -> M AsWorld E (option bytes)) ->
    (bytes -> M AsWorld E bool) -> (bytes -> M AsWorld E unit) -> (bytes -> M AsWorld E unit) ->
    AmortizedToken -> M AsWorld E (Result PpRedeemError unit)
}.
Arguments pp_create_keypair {_ E}.
Arguments pp_issue_token_response {_ E}.
Arguments pp_redeem_token {_ E}.

(** Insert the first key pair that the store accepts. *)
Fixpoint insert_first {E} (insert : Z -> bytes -> M AsWorld E bool) (l : list (Z * bytes)) :
    M AsWorld E (Result CreateKeypairError unit) :=
  match l with
  | [] => mret (Err CreateKeypairFailed)
  | (id, server) :: l =>
      b ← insert id server;
      if (b : bool) then mret (Ok tt) else insert_first insert l
  end.

(** Reserve the nonce, look up the key and verify, then commit or release the
    nonce. *)
Definition redeem_steps `{PrivacyPass} {E} (get : Z -> M AsWorld E (option bytes))
    (reserve : bytes -> M AsWorld E bool) (commit release : bytes -> M AsWorld E unit)
    (t : AmortizedToken) : M AsWorld E (Result PpRedeemError unit) :=
  b ← reserve (token_nonce t);
  if (b : bool) then
    found ← get (token_key_id t);
    match found with
    | None => _ ← release (token_nonce t); mret (Err KeyIdNotFound)
    | Some server =>
        if token_valid server t then _ ← commit (token_nonce t); mret (Ok tt)
        else _ ← release (token_nonce t); mret (Err PpRedeemFailed)
    end
  else mret (Err PpRedeemFailed).
(** Look up the key and evaluate. *)
Definition issue_steps `{PrivacyPass} {E} (get : Z -> M AsWorld E (option bytes)) (r : TokenRequest) :
    M AsWorld E (Result PpIssueError TokenResponse) :=
  found ← get (request_key_id r);
  mret (ok_or PpIssueFailed (server ← found; evaluate server r)).

(** What the server does with the stores; the number of tokens of a request is a
    [usize]. *)
Class PrivacyPassLaws `{PrivacyPass} : Prop := {
  redeem_token_steps E get reserve commit release t (w : AsWorld) :
    pp_redeem_token (E := E) get reserve commit release t w = redeem_steps get reserve commit release t w;
  issue_token_response_steps E get r (w : AsWorld) :
    pp_issue_token_response (E := E) get r w = issue_steps get r w;
  create_keypair_steps E n insert (w : AsWorld) :
    pp_create_keypair (E := E) n insert w = insert_first insert (keypairs n) w;
  nr_nonneg r : 0 <= nr r
}.

(** ** Allowances *)

Record TokenAllowance := {
  ta_operation_type : OperationType;
  ta_remaining : Z;
  ta_valid_until : TimeStamp
}.
Definition is_valid_at (a : TokenAllowance) (at_ : TimeStamp) : bool := at_ <? ta_valid_until a.

Inductive IssueTokensError :=
| BadRequest
| IssueStorageError
| TooManyTokensRequested (retry_after_secs tokens_available : Z)
| PrivacyPassError.
Inductive RedeemTokenError := UnknownKeyId | InvalidToken.
Inductive RotateKeysError := RotateStorage | RotateKeyGeneration.

(** Days after which a key is stale, and for which it remains valid after that. *)
Definition KEY_ROTATION_PERIOD_DAYS : Z := 90.
Definition KEY_OVERLAP_DAYS : Z := 7.

Record BatchedTokenKeyRecord := {
  btk_token_key_id : Z;
  btk_operation_type : OperationType;
  btk_public_key : bytes
}.

(** [ORDER BY created_at DESC]. *)
Definition newer (x y : (OperationType * Z) * BatchedKeyRow) : Prop :=
  row_key_created_at y.2 <= row_key_created_at x.2.
#[export] Instance newer_dec : RelDecision newer.
Proof. intros x y. unfold newer. apply _. Defined.

Section Tokens.
Context `{Oracles} `{PrivacyPass} `{Calendar}.

(** *** The key store *)

Definition key_insert {E} (op : OperationType) (id : Z) (server : bytes) : M AsWorld E bool :=
  r ← try_ (sql (fun _ t d =>
    let keys := as_batched_key (tokens_db d) in
    match keys !! (op, id) with
    | Some _ => None
    | None => Some (true, set_batched_keys
        (<[(op, id) := {| row_voprf_server := server; row_key_created_at := t |}]> keys) d)
    end));
  mret (match r with Ok b => b | Err _ => false end).

Definition key_get {E} (op : OperationType) (id : Z) : M AsWorld E (option bytes) :=
  r ← try_ (query (fun _ d => row_voprf_server <$> as_batched_key (tokens_db d) !! (op, id)));
  mret (match r with Ok server => server | Err _ => None end).

Definition key_remove {E} (op : OperationType) (id : Z) : M AsWorld E bool :=
  r ← try_ (exec (fun _ d =>
    let keys := as_batched_key (tokens_db d) in
    (bool_decide (is_Some (keys !! (op, id))), set_batched_keys (delete (op, id) keys) d)));
  mret (match r with Ok b => b | Err _ => false end).

(** *** The nonce store *)

Definition nonce_reserve {E} (op : OperationType) (nonce : bytes) : M AsWorld E bool :=
  r ← try_ (exec (fun t d =>
    let nonces := as_token_nonce (tokens_db d) in
    match nonces !! (op, nonce) with
    | Some _ => (false, d)
    | None => (true, set_nonces
        (<[(op, nonce) := {| row_status := NonceReserved; row_nonce_created_at := t |}]> nonces) d)
    end));
  mret (match r with Ok b => b | Err _ => false end).

(** A statement on the row of a nonce, if it is reserved. *)
Definition on_reserved (op : OperationType) (nonce : bytes)
    (f : NonceRow -> gmap (OperationType * bytes) NonceRow -> gmap (OperationType * bytes) NonceRow)
    (d : AsDb) : AsDb :=
  let nonces := as_token_nonce (tokens_db d) in
  match nonces !! (op, nonce) with
  | Some r => if decide (row_status r = NonceReserved) then set_nonces (f r nonces) d else d
  | None => d
  end.
Definition nonce_commit {E} (op : OperationType) (nonce : bytes) : M AsWorld E unit :=
  _ ← try_ (exec (fun _ d => (tt, on_reserved op nonce (fun r =>
        <[(op, nonce) := {| row_status := NonceCommitted;
                            row_nonce_created_at := row_nonce_created_at r |}]>) d)));
  mret tt.
Definition nonce_release {E} (op : OperationType) (nonce : bytes) : M AsWorld E unit :=
  _ ← try_ (exec (fun _ d => (tt, on_reserved op nonce (fun _ => delete (op, nonce)) d)));
  mret tt.

(** *** Allowances *)

(** [TokenAllowance::ensure_exists]: an INSERT with a foreign key to the user. *)
Definition allowance_ensure_exists (user_id : UserId) (op : OperationType) (at_ : TimeStamp) :
    M AsWorld SqlxError bool :=
  sql (fun _ _ d =>
    let allowances := as_token_allowance (tokens_db d) in
    match allowances !! (user_id, op), as_user_record (users_db d) !! user_id with
    | Some _, _ => Some (false, d)
    | None, None => None
    | None, Some _ => Some (true, set_allowances
        (<[(user_id, op) := {| row_remaining := as_i16 (max_tokens_allowance op);
                               row_valid_until := valid_until_starting_at op at_ |}]> allowances) d)
    end).

Definition allowance_update (a : TokenAllowance) (user_id : UserId) : M AsWorld SqlxError unit :=
  exec (fun _ d =>
    let allowances := as_token_allowance (tokens_db d) in
    match allowances !! (user_id, ta_operation_type a) with
    | Some _ => (tt, set_allowances (<[(user_id, ta_operation_type a) :=
                      {| row_remaining := as_i16 (ta_remaining a);
                         row_valid_until := ta_valid_until a |}]> allowances) d)
    | None => (tt, d)
    end).

Definition allowance_load_for_update (user_id : UserId) (op : OperationType) :
    M AsWorld SqlxError TokenAllowance :=
  found ← query (fun _ d => as_token_allowance (tokens_db d) !! (user_id, op));
  r ← lift (ok_or RowNotFound found);
  mret {| ta_operation_type := op; ta_remaining := as_u16 (row_remaining r);
          ta_valid_until := row_valid_until r |}.

(** ** Issuing *)

(** The allowance at [now], renewed if it is not valid any more. *)
Definition renewed (a : TokenAllowance) (op : OperationType) (now : TimeStamp) : TokenAllowance :=
  if is_valid_at a now then a
  else {| ta_operation_type := ta_operation_type a; ta_remaining := max_tokens_allowance op;
          ta_valid_until := valid_until_starting_at op now |}.

(** The check of a request against the allowance; it is not enforced for
    [AddUsername]. *)
Definition check_allowance (a : TokenAllowance) (op : OperationType) (requested : Z) (now : TimeStamp) :
    Result IssueTokensError unit :=
  match op with
  | AddUsername => Ok tt
  | _ =>
      if ta_remaining a <? requested then
        Err (if 0 <? ta_remaining a then TooManyTokensRequested 0 (ta_remaining a)
             else TooManyTokensRequested (Z.max (Z.quot (ta_valid_until a - now) SECOND) 0)
                    (max_tokens_allowance op))
      else Ok tt
  end.

Definition as_issue_tokens (user_id : UserId) (op : OperationType) (token_request : TokenRequest) :
    M AsWorld IssueTokensError TokenResponse :=
  _ ← lift (ensure (bool_decide (op <> OpUnspecified)) BadRequest);
  let tokens_requested := as_u16 (nr token_request) in
  _ ← lift (ensure (negb (tokens_requested =? 0)) BadRequest);
  now ← utc_now;
  let storage {A} : M AsWorld SqlxError A -> M AsWorld IssueTokensError A :=
    map_errM (fun _ => IssueStorageError) in
  _ ← storage (allowance_ensure_exists user_id op now);
  transaction (fun _ => IssueStorageError) (
    loaded ← storage (allowance_load_for_update user_id op);
    let token_allowance := renewed loaded op now in
    _ ← lift (check_allowance token_allowance op tokens_requested now);
    response ← pp_issue_token_response (key_get op) token_request;
    token_response ← lift (map_err (fun _ => PrivacyPassError) response);
    _ ← storage (allowance_update
          {| ta_operation_type := ta_operation_type token_allowance;
             ta_remaining := sat_sub (ta_remaining token_allowance) tokens_requested;
             ta_valid_until := ta_valid_until token_allowance |} user_id);
    mret token_response).

(** [as_issue_single_token]. *)
Definition as_issue_single_token (token_request : TokenRequest) (op : OperationType) :
    M AsWorld IssueTokensError TokenResponse :=
  _ ← lift (ensure (nr token_request =? 1) BadRequest);
  transaction (fun _ => IssueStorageError) (
    response ← pp_issue_token_response (key_get op) token_request;
    lift (map_err (fun _ => PrivacyPassError) response)).

(** ** Redeeming *)

Definition as_redeem_token (token : AmortizedToken) (op : OperationType) :
    M AsWorld RedeemTokenError unit :=
  r ← pp_redeem_token (key_get op) (nonce_reserve op) (nonce_commit op) (nonce_release op) token;
  lift (map_err (fun e => match e with
                          | KeyIdNotFound => UnknownKeyId
                          | PpRedeemFailed => InvalidToken
                          end) r).

(** ** Rotation *)

(** Is there a key of the operation type that is not stale at [t]? *)
Definition has_current_key (op : OperationType) (t : TimeStamp) (d : AsDb) : bool :=
  bool_decide (filter (fun x => x.1.1 = op /\
      t - KEY_ROTATION_PERIOD_DAYS * DAY < row_key_created_at x.2)
    (map_to_list (as_batched_key (tokens_db d))) <> []).
(** The DELETEs of keys and of nonces created before [cut]. *)
Definition prune_keys (op : OperationType) (cut : TimeStamp) (d : AsDb) : AsDb :=
  set_batched_keys (filter (fun x => ~ (x.1.1 = op /\ row_key_created_at x.2 < cut))
    (as_batched_key (tokens_db d))) d.
Definition prune_nonces (op : OperationType) (cut : TimeStamp) (d : AsDb) : AsDb :=
  set_nonces (filter (fun x => ~ (x.1.1 = op /\ row_nonce_created_at x.2 < cut))
    (as_token_nonce (tokens_db d))) d.
Definition MAX_AGE : Z := (KEY_ROTATION_PERIOD_DAYS + KEY_OVERLAP_DAYS) * DAY.

Definition rotate_keys_if_needed_for_operation_type (op : OperationType) :
    M AsWorld RotateKeysError bool :=
  needs_rotation ← map_errM (fun _ => RotateStorage)
    (sql (fun _ t d => Some (negb (has_current_key op t d), d)));
  rotated ←
    (if (needs_rotation : bool) then
       transaction (fun _ => RotateStorage) (
         n ← draw;
         r ← pp_create_keypair n (key_insert op);
         _ ← lift (map_err (fun _ => RotateKeyGeneration) r);
         mret true)
     else mret false);
  _ ← map_errM (fun _ => RotateStorage) (exec (fun t d => (tt, prune_keys op (t - MAX_AGE) d)));
  _ ← map_errM (fun _ => RotateStorage) (exec (fun t d => (tt, prune_nonces op (t - MAX_AGE) d)));
  mret rotated.

Fixpoint rotate_all (ops : list OperationType) : M AsWorld RotateKeysError (list OperationType) :=
  match ops with
  | [] => mret []
  | op :: ops =>
      rotated ← rotate_keys_if_needed_for_operation_type op;
      results ← rotate_all ops;
      mret (if (rotated : bool) then op :: results else results)
  end.
Definition rotate_keys_if_needed : M AsWorld RotateKeysError (list OperationType) :=
  rotate_all operation_types.

(** ** Public keys *)

Definition load_batched_token_keys : M AsWorld SqlxError (list BatchedTokenKeyRecord) :=
  query (fun n d =>
    map (fun x : (OperationType * Z) * BatchedKeyRow =>
           {| btk_token_key_id := x.1.2; btk_operation_type := x.1.1;
              btk_public_key := serialize_public_key (row_voprf_server x.2) |})
      (merge_sort newer (scan n (map_to_list (as_batched_key (tokens_db d)))))).

End Tokens.
