(* ===== verification/AuthUsers.v ===== *)
(** * Users of the authentication service
      ([backend/src/auth_service/invitation_code_record.rs], [user_record.rs],
      [client_record.rs], [credentials], [client_api/user.rs],
      [client_api/user_profile.rs], [client_api/anonymous.rs], [mod.rs])

    Invitation codes, user and client records, the service's signing keys, and
    registration, which uses up a code and signs the client's credential. *)

From stdpp Require Import sorting.
From S2P Require Import Prelude Aead Messages RateLimiter Signatures Credentials.
From S2P Require Import ConnectionPackages AuthDb AuthTokens.

(** ** Invitation codes *)

Record InvitationCodeRecord := { code : string; redeemed : bool }.
Record InvitationCodeStats := { stats_count : Z; stats_redeemed : Z }.

Definition ALPHABET : string := "0123456789ABCDEFGHJKMNPQRSTUVWXYZ".
Definition CODE_LEN : nat := 8.
Definition CODES_PER_DAY : Z := 1000.

Definition in_alphabet (c : Ascii.ascii) : bool :=
  existsb (fun a => bool_decide (c = a)) (String.list_ascii_of_string ALPHABET).
Definition validate_code (code : string) : bool :=
  bool_decide (String.length code = CODE_LEN) && forallb in_alphabet (String.list_ascii_of_string code).

(** Midnight, as [CURRENT_DATE]. *)
Definition start_of_day (t : TimeStamp) : TimeStamp := t - t mod DAY.

(** [ORDER BY code]. *)
Definition code_le (x y : string * InvitationRow) : Prop := String.leb x.1 y.1 = true.
#[export] Instance code_le_dec : RelDecision code_le.
Proof. intros x y. unfold code_le. apply _. Defined.

(** ** User records *)

Record UserRecord := {
  ur_user_id : UserId;
  encrypted_user_profile : EncryptedUserProfile;
  staged_user_profile : option EncryptedUserProfile
}.
Inductive UserProfileMergingError := MergingNoStagedUserProfile.

Definition user_record_new (user_id : UserId) (profile : EncryptedUserProfile) : UserRecord :=
  {| ur_user_id := user_id; encrypted_user_profile := profile; staged_user_profile := None |}.

Definition into_user_profile (self : UserRecord) (index : bytes) : option EncryptedUserProfile :=
  if decide (index = key_index (encrypted_user_profile self)) then Some (encrypted_user_profile self)
  else
    match staged_user_profile self with
    | Some staged => if decide (index = key_index staged) then Some staged else None
    | None => None
    end.
Definition stage_user_profile (self : UserRecord) (profile : EncryptedUserProfile) : UserRecord :=
  {| ur_user_id := ur_user_id self; encrypted_user_profile := encrypted_user_profile self;
     staged_user_profile := Some profile |}.
Definition merge_user_profile (self : UserRecord) : Result UserProfileMergingError UserRecord :=
  match staged_user_profile self with
  | None => Err MergingNoStagedUserProfile
  | Some staged => Ok {| ur_user_id := ur_user_id self; encrypted_user_profile := staged;
                         staged_user_profile := None |}
  end.

Definition row_of_user (u : UserRecord) : UserRow :=
  {| row_encrypted_user_profile := encrypted_user_profile u;
     row_staged_user_profile := staged_user_profile u |}.

(** ** Errors *)

(** What ends an operation early in the storage: an error, or a panic. *)
Inductive StorageError := StorageDatabase | StoragePanic.
Definition of_sqlx (_ : SqlxError) : StorageError := StorageDatabase.

Inductive RegisterUserError :=
| SigningKeyNotFound
| RegisterLibraryError
| RegisterStorageError
| UserAlreadyExists
| InvalidCsr (now not_before not_after : TimeStamp)
| RegisterPanicked.
Inductive DeleteUserError := DeleteUserStorageError.
Inductive AsCredentialsError := AsCredentialsStorageError.
Inductive GetUserProfileError := NoCiphertextFound | GetProfileUserNotFound | GetProfileStorageError.
Inductive StageUserProfileError := StageUserNotFound | StageStorageError.
Inductive MergeUserProfileError := MergeUserNotFound | MergeStorageError | NoStagedUserProfile.
Inductive CredentialGenerationError :=
| SigningError
| NoActiveCredential
| CredentialGenerationFailed
| StorageFailed.
Inductive ServiceCreationError := CreationDatabase | CreationInit.

Definition register_storage (e : StorageError) : RegisterUserError :=
  match e with StorageDatabase => RegisterStorageError | StoragePanic => RegisterPanicked end.

Record ClientRecord := { cr_activity_time : TimeStamp; cr_credential : ClientCredential }.

(** [RegisterUserParamsIn]. *)
Record RegisterUserParamsIn := {
  client_payload : ClientCredentialPayload;
  params_user_profile : EncryptedUserProfile
}.
Record AsCredentialsResponse := {
  as_credentials_list : list AsCredential;
  as_intermediate_credentials : list AsIntermediateCredential;
  revoked_credentials : list bytes;
  batched_token_keys : list BatchedTokenKeyRecord
}.

Section Users.
Context `{Oracles} `{PrivacyPass} `{Calendar}.
Context `{Sha256} `{SignatureScheme} `{CredentialCodecs}.

(** *** Invitation codes *)

(** [generate_code]: a draw per character. *)
Fixpoint generate_chars {E} (n : nat) : M AsWorld E string :=
  match n with
  | O => mret EmptyString
  | S n =>
      r ← draw;
      let c := default Ascii.zero (String.get (rng r mod String.length ALPHABET) ALPHABET) in
      s ← generate_chars n;
      mret (String c s)
  end.
Definition generate_code {E} : M AsWorld E string := generate_chars CODE_LEN.

Definition invitation_stats : M AsWorld SqlxError InvitationCodeStats :=
  count ← query (fun _ d => Z.of_nat (size (invitation_code (users_db d))));
  red ← query (fun _ d =>
          Z.of_nat (size (filter (fun x => inv_redeemed x.2 = true) (invitation_code (users_db d)))));
  mret {| stats_count := count; stats_redeemed := red |}.

Definition invitation_load_all (include_redeemed : bool) (limit : nat) :
    M AsWorld SqlxError (list InvitationCodeRecord) :=
  query (fun n d =>
    map (fun x => {| code := x.1; redeemed := inv_redeemed x.2 |})
      (take limit (merge_sort code_le
        (filter (fun x => include_redeemed = true \/ inv_redeemed x.2 = false)
          (map_to_list (invitation_code (users_db d))))))).

Definition invitation_load (c : string) : M AsWorld SqlxError (option InvitationCodeRecord) :=
  query (fun _ d =>
    (fun r => {| code := c; redeemed := inv_redeemed r |}) <$> invitation_code (users_db d) !! c).

(** [insert]: an INSERT with RETURNING, without a conflict clause. *)
Definition invitation_insert (c : string) (r : bool) : M AsWorld SqlxError (option string) :=
  sql (fun _ t d =>
    let codes := invitation_code (users_db d) in
    match codes !! c with
    | Some _ => None
    | None => Some (Some c, set_invitation_codes
        (<[c := {| inv_redeemed := r; inv_created_at := t |}]> codes) d)
    end).

(** [save]: an upsert of the flag. *)
Definition save_code (r : InvitationCodeRecord) (t : TimeStamp) (d : AsDb) : AsDb :=
  let codes := invitation_code (users_db d) in
  let created := match codes !! code r with Some old => inv_created_at old | None => t end in
  set_invitation_codes
    (<[code r := {| inv_redeemed := redeemed r; inv_created_at := created |}]> codes) d.
Definition invitation_save (r : InvitationCodeRecord) : M AsWorld SqlxError unit :=
  pool_write (save_code r).

(** [generate]: the loop, by fuel. *)
Fixpoint generate_loop (fuel : nat) : M AsWorld SqlxError string :=
  match fuel with
  | O => throw OutOfFuel
  | S fuel =>
      c ← generate_code;
      inserted ← invitation_insert c false;
      match inserted with
      | Some c => mret c
      | None => generate_loop fuel
      end
  end.
Definition invitation_generate : M AsWorld SqlxError string := generate_loop 1.

(** [lock_and_count_codes_issued_today], in a transaction. *)
Definition lock_and_count_codes_issued_today : M AsWorld SqlxError Z :=
  _ ← exec (fun _ d => (tt, d));
  sql (fun _ t d =>
    Some (Z.of_nat (size (filter (fun x => start_of_day t <= inv_created_at x.2 /\
                                           inv_created_at x.2 < start_of_day t + DAY)
            (invitation_code (users_db d)))), d)).

(** *** User records *)

Definition user_load (user_id : UserId) : M AsWorld SqlxError (option UserRecord) :=
  query (fun _ d =>
    (fun r => {| ur_user_id := user_id; encrypted_user_profile := row_encrypted_user_profile r;
                 staged_user_profile := row_staged_user_profile r |})
    <$> as_user_record (users_db d) !! user_id).

Definition user_update (u : UserRecord) : M AsWorld SqlxError unit :=
  exec (fun _ d =>
    let users := as_user_record (users_db d) in
    match users !! ur_user_id u with
    | Some _ => (tt, set_user_records (<[ur_user_id u := row_of_user u]> users) d)
    | None => (tt, d)
    end).

Definition user_store (u : UserRecord) : M AsWorld SqlxError unit :=
  sql (fun _ _ d =>
    let users := as_user_record (users_db d) in
    match users !! ur_user_id u with
    | Some _ => None
    | None => Some (tt, set_user_records (<[ur_user_id u := row_of_user u]> users) d)
    end).
Definition user_new_and_store (user_id : UserId) (profile : EncryptedUserProfile) :
    M AsWorld SqlxError UserRecord :=
  let user_record := user_record_new user_id profile in
  _ ← user_store user_record;
  mret user_record.

(** [delete]: the clients and the token allowances of the user go with it. *)
Definition client_of (user_id : UserId) (x : Uuid * ClientRow) : bool :=
  bool_decide (x.1 = user_uuid user_id /\ row_user_domain x.2 = user_domain user_id).
Definition delete_user_rows (user_id : UserId) (d : AsDb) : AsDb :=
  match as_user_record (users_db d) !! user_id with
  | None => d
  | Some _ =>
      set_allowances (filter (fun x => x.1.1 <> user_id) (as_token_allowance (tokens_db d)))
        (set_client_records (filter (fun x => client_of user_id x = false) (as_client_record (users_db d)))
          (set_user_records (delete user_id (as_user_record (users_db d))) d))
  end.
Definition user_delete (user_id : UserId) : M AsWorld SqlxError unit :=
  exec (fun _ d => (tt, delete_user_rows user_id d)).

(** *** Client records *)

(** The columns as the database holds them: the expiration of a credential comes from
    the client and is not rounded, unlike the times that the service takes. *)
Definition expiration_column (e : ExpirationData) : ExpirationData :=
  {| not_before := timestamptz (not_before e); not_after := timestamptz (not_after e) |}.
Definition credential_column (f : FlatClientCredential) : FlatClientCredential :=
  {| fcc_version := fcc_version f; fcc_signature_scheme := fcc_signature_scheme f;
     fcc_verifying_key := fcc_verifying_key f;
     fcc_expiration_data := expiration_column (fcc_expiration_data f);
     fcc_signer_fingerprint := fcc_signer_fingerprint f; fcc_signature := fcc_signature f |}.

(** [store]: an INSERT on the primary key [user_uuid], with a foreign key to the
    user. *)
Definition client_store (r : ClientRecord) : M AsWorld StorageError unit :=
  flat ← lift (ok_or StoragePanic (flat_new (cr_credential r)));
  let user_id := cc_user_id (cr_credential r) in
  map_errM of_sqlx (sql (fun _ _ d =>
    let clients := as_client_record (users_db d) in
    match clients !! user_uuid user_id, as_user_record (users_db d) !! user_id with
    | None, Some _ =>
        Some (tt, set_client_records
          (<[user_uuid user_id := {| row_user_domain := user_domain user_id;
                                     row_activity_time := cr_activity_time r;
                                     row_credential := credential_column flat |}]> clients) d)
    | _, _ => None
    end)).
Definition client_new_and_store (credential : ClientCredential) : M AsWorld StorageError ClientRecord :=
  t ← utc_now;
  let r := {| cr_activity_time := round_subsecs t; cr_credential := credential |} in
  _ ← client_store r;
  mret r.

Definition client_row (user_id : UserId) (d : AsDb) : option ClientRow :=
  r ← as_client_record (users_db d) !! user_uuid user_id;
  if decide (row_user_domain r = user_domain user_id) then Some r else None.
Definition client_load (user_id : UserId) : M AsWorld StorageError (option ClientRecord) :=
  found ← map_errM of_sqlx (query (fun _ d => client_row user_id d));
  match found with
  | None => mret None
  | Some r =>
      c ← lift (ok_or StoragePanic (into_client_credential (row_credential r) user_id));
      mret (Some {| cr_activity_time := row_activity_time r; cr_credential := c |})
  end.
(** [load_client_verifying_key]. *)
Definition load_client_verifying_key (user_id : UserId) : M AsWorld StorageError (option bytes) :=
  record ← client_load user_id;
  mret (cc_verifying_key ∘ cr_credential <$> record).

(** *** Signing keys *)

(** An INSERT of a key that is not active. *)
Definition signing_key_row (t : CredentialType) (fingerprint : bytes) (b : SigningKeyBlob) : SigningKeyRow :=
  {| row_cred_type := t; row_credential_fingerprint := fingerprint; row_signing_key := b;
     row_currently_active := false |}.
Definition store_signing_key (r : SigningKeyRow) : M AsWorld SqlxError unit :=
  exec (fun _ d => (tt, set_signing_keys (as_signing_key (users_db d) ++ [r]) d)).

Definition as_fingerprint (k : AsSigningKey) : bytes := ac_fingerprint (ask_credential k).
Definition intermediate_fingerprint (k : AsIntermediateSigningKey) : bytes :=
  ai_fingerprint (aisk_credential k).

Definition as_key_store (k : AsSigningKey) : M AsWorld SqlxError unit :=
  store_signing_key (signing_key_row CredAs (as_fingerprint k) (AsKeyBlob k)).
Definition intermediate_key_store (k : AsIntermediateSigningKey) : M AsWorld SqlxError unit :=
  store_signing_key (signing_key_row CredIntermediate (intermediate_fingerprint k) (IntermediateKeyBlob k)).

Definition set_active (b : bool) (r : SigningKeyRow) : SigningKeyRow :=
  {| row_cred_type := row_cred_type r; row_credential_fingerprint := row_credential_fingerprint r;
     row_signing_key := row_signing_key r; row_currently_active := b |}.
(** [StorableSigningKey::activate]: of all active keys, and the one to activate. *)
Definition activate_as (fingerprint : bytes) (r : SigningKeyRow) : SigningKeyRow :=
  if decide (row_currently_active r = true \/ row_credential_fingerprint r = fingerprint)
  then set_active (bool_decide (row_credential_fingerprint r = fingerprint)) r else r.
Definition as_key_activate (k : AsSigningKey) : M AsWorld SqlxError unit :=
  exec (fun _ d => (tt, set_signing_keys (activate_as (as_fingerprint k) <$> as_signing_key (users_db d)) d)).
(** [IntermediateSigningKey::activate]: of all intermediate keys. *)
Definition activate_intermediate (fingerprint : bytes) (r : SigningKeyRow) : SigningKeyRow :=
  if decide (row_cred_type r = CredIntermediate)
  then set_active (bool_decide (row_credential_fingerprint r = fingerprint)) r else r.
Definition intermediate_key_activate (k : AsIntermediateSigningKey) : M AsWorld SqlxError unit :=
  exec (fun _ d =>
    (tt, set_signing_keys (activate_intermediate (intermediate_fingerprint k) <$> as_signing_key (users_db d)) d)).

(** The blob of a row, decoded as a key of the expected kind. *)
Definition as_key_of (r : SigningKeyRow) : option AsSigningKey :=
  match row_signing_key r with AsKeyBlob k => Some k | IntermediateKeyBlob _ => None end.
Definition intermediate_key_of (r : SigningKeyRow) : option AsIntermediateSigningKey :=
  match row_signing_key r with IntermediateKeyBlob k => Some k | AsKeyBlob _ => None end.

(** The first active row of a type, decoded; and the keys of a type. *)
Definition load_active {K} (decode : SigningKeyRow -> option K) (t : CredentialType) :
    M AsWorld SqlxError (option K) :=
  found ← query (fun n d =>
    head (filter (fun r => row_currently_active r = true /\ row_cred_type r = t)
           (scan n (as_signing_key (users_db d)))));
  match found with
  | None => mret None
  | Some r => k ← lift (ok_or DatabaseError (decode r)); mret (Some k)
  end.
Definition load_keys {K} (decode : SigningKeyRow -> option K) (t : CredentialType) :
    M AsWorld SqlxError (list K) :=
  rows ← query (fun n d => filter (fun r => row_cred_type r = t) (scan n (as_signing_key (users_db d))));
  lift (mapM_r (fun r => ok_or DatabaseError (decode r)) rows).

Definition as_key_load : M AsWorld SqlxError (option AsSigningKey) := load_active as_key_of CredAs.
Definition intermediate_key_load : M AsWorld SqlxError (option AsIntermediateSigningKey) :=
  load_active intermediate_key_of CredIntermediate.
Definition credential_load_all : M AsWorld SqlxError (list AsCredential) :=
  keys ← load_keys as_key_of CredAs; mret (ask_credential <$> keys).
Definition intermediate_credential_load_all : M AsWorld SqlxError (list AsIntermediateCredential) :=
  keys ← load_keys intermediate_key_of CredIntermediate; mret (aisk_credential <$> keys).

(** [StorableSigningKey::generate_store_and_activate]. *)
Definition generate_store_and_activate (domain : Fqdn) (scheme : Z) :
    M AsWorld CredentialGenerationError AsSigningKey :=
  t ← utc_now;
  n ← draw;
  r ← lift (map_err (fun _ => CredentialGenerationFailed)
        (as_credential_new (generated_key n) t scheme domain None));
  let k := r.2 in
  savepoint (fun _ => StorageFailed) (
    _ ← map_errM (fun _ => StorageFailed) (as_key_store k);
    _ ← map_errM (fun _ => StorageFailed) (as_key_activate k);
    mret k).

(** [IntermediateSigningKey::generate]. *)
Definition generate_intermediate (domain : Fqdn) (scheme : Z) (k : AsSigningKey) :
    M AsWorld CredentialGenerationError AsIntermediateSigningKey :=
  n ← draw;
  r ← lift (map_err (fun _ => CredentialGenerationFailed)
        (as_intermediate_csr_new (generated_key n) scheme domain));
  t ← utc_now;
  c ← lift (ok_or SigningError (as_intermediate_csr_sign r.1 k t None));
  lift (map_err (fun _ => SigningError) (as_intermediate_from_prelim_key r.2 c)).

(** [IntermediateSigningKey::generate_sign_and_activate]. *)
Definition generate_sign_and_activate (domain : Fqdn) (scheme : Z) :
    M AsWorld CredentialGenerationError AsIntermediateSigningKey :=
  savepoint (fun _ => StorageFailed) (
    found ← map_errM (fun _ => StorageFailed) as_key_load;
    signing_key ← lift (ok_or NoActiveCredential found);
    k ← generate_intermediate domain scheme signing_key;
    _ ← map_errM (fun _ => StorageFailed) (intermediate_key_store k);
    _ ← map_errM (fun _ => StorageFailed) (intermediate_key_activate k);
    mret k).

(** ** Registration *)

Definition as_init_user_registration (invitation_only : bool) (params : RegisterUserParamsIn)
    (code_record : option InvitationCodeRecord) : M AsWorld RegisterUserError ClientCredential :=
  _ ← lift (ensure (negb invitation_only || bool_decide (is_Some code_record)) RegisterPanicked);
  let p := client_payload params in
  let storage {A} : M AsWorld SqlxError A -> M AsWorld RegisterUserError A :=
    map_errM (fun _ => RegisterStorageError) in
  existing ← storage (user_load (ccsr_user_id (ccp_csr p)));
  _ ← lift (ensure (bool_decide (existing = None)) UserAlreadyExists);
  t ← utc_now;
  _ ← (if client_payload_validate t p then mret tt
       else
         t' ← utc_now;
         throw (InvalidCsr (round_subsecs t') (not_before (ccp_expiration_data p))
                  (not_after (ccp_expiration_data p))));
  found ← storage intermediate_key_load;
  signing_key ← lift (ok_or SigningKeyNotFound found);
  client_credential ← lift (ok_or RegisterLibraryError (client_payload_sign p signing_key));
  transaction (fun _ => RegisterStorageError) (
    _ ← storage (user_new_and_store (cc_user_id client_credential) (params_user_profile params));
    _ ← map_errM register_storage (client_new_and_store client_credential);
    _ ← match code_record with
        | Some r => storage (invitation_save {| code := code r; redeemed := true |})
        | None => mret tt
        end;
    mret client_credential).

Definition as_delete_user (user_id : UserId) : M AsWorld DeleteUserError unit :=
  map_errM (fun _ => DeleteUserStorageError) (user_delete user_id).

(** ** Profiles *)

Definition as_get_user_profile (user_id : UserId) (index : bytes) :
    M AsWorld GetUserProfileError EncryptedUserProfile :=
  found ← map_errM (fun _ => GetProfileStorageError) (user_load user_id);
  user_record ← lift (ok_or GetProfileUserNotFound found);
  lift (ok_or NoCiphertextFound (into_user_profile user_record index)).

Definition as_stage_user_profile (user_id : UserId) (profile : EncryptedUserProfile) :
    M AsWorld StageUserProfileError unit :=
  found ← map_errM (fun _ => StageStorageError) (user_load user_id);
  user_record ← lift (ok_or StageUserNotFound found);
  map_errM (fun _ => StageStorageError) (user_update (stage_user_profile user_record profile)).

Definition as_merge_user_profile (user_id : UserId) : M AsWorld MergeUserProfileError unit :=
  found ← map_errM (fun _ => MergeStorageError) (user_load user_id);
  user_record ← lift (ok_or MergeUserNotFound found);
  merged ← lift (map_err (fun _ => NoStagedUserProfile) (merge_user_profile user_record));
  map_errM (fun _ => MergeStorageError) (user_update merged).

(** ** Credentials *)

Definition as_credentials : M AsWorld AsCredentialsError AsCredentialsResponse :=
  let storage {A} : M AsWorld SqlxError A -> M AsWorld AsCredentialsError A :=
    map_errM (fun _ => AsCredentialsStorageError) in
  cs ← storage credential_load_all;
  is_ ← storage intermediate_credential_load_all;
  ks ← storage load_batched_token_keys;
  mret {| as_credentials_list := cs; as_intermediate_credentials := is_;
          revoked_credentials := []; batched_token_keys := ks |}.

(** [AuthService::initialize]: signing keys if there is no active one, then the
    token keys.  Connecting the listener task comes first. *)
Definition as_initialize (domain : Fqdn) : M AsWorld ServiceCreationError unit :=
  _ ← map_errM (fun _ => CreationDatabase) (exec (fun _ d => (tt, d)));
  _ ← transaction (fun _ => CreationDatabase) (
        active ← map_errM (fun _ => CreationDatabase) as_key_load;
        match active with
        | Some _ => mret tt
        | None =>
            _ ← map_errM (fun _ => CreationInit)
                  (generate_store_and_activate domain DEFAULT_SIGNATURE_SCHEME);
            _ ← map_errM (fun _ => CreationInit)
                  (generate_sign_and_activate domain DEFAULT_SIGNATURE_SCHEME);
            mret tt
        end);
  _ ← map_errM (fun _ => CreationInit) rotate_keys_if_needed;
  mret tt.

(** ** Commands of the operator ([cli.rs]) *)

Definition invitation_codes_list (limit : nat) (include_redeemed : bool) :
    M AsWorld SqlxError (list (string * bool)) :=
  codes ← invitation_load_all include_redeemed limit;
  mret ((fun r => (code r, redeemed r)) <$> codes).

Fixpoint invitation_codes_generate (n : nat) : M AsWorld SqlxError (list string) :=
  match n with
  | O => mret []
  | S n => c ← invitation_generate; cs ← invitation_codes_generate n; mret (c :: cs)
  end.

End Users.
