(* ===== verification/AuthNames.v ===== *)
(** * Usernames ([backend/src/auth_service/usernames], [connection_package],
      [common/src/identifiers/username.rs])

    Username records with their expiration, the connection packages published
    under them, the queues of connection offers, and the protocol by which a user
    connects to a username. *)

From stdpp Require Import sorting.
From S2P Require Import Prelude Aead Messages Grpc PgTask RateLimiter Signatures Credentials.
From S2P Require Import ConnectionPackages AuthDb AuthTokens.

(** ** Usernames ([common/src/identifiers/username.rs]) *)

Definition MIN_USERNAME_LENGTH : nat := 5.
Definition MAX_USERNAME_LENGTH : nat := 63.
Definition USERNAME_CHARSET : string := "-0123456789abcdefghijklmnopqrstuvwxyz".
Definition USERNAME_VALIDITY_PERIOD : Z := 180 * DAY.

Inductive UsernameValidationError :=
| TooShort | TooLong | InvalidCharacter | ConsecutiveDashes | LeadingDigit.

Definition in_charset (charset : string) (c : Ascii.ascii) : bool :=
  existsb (fun a => bool_decide (c = a)) (String.list_ascii_of_string charset).
Definition DASH : Ascii.ascii := Ascii.ascii_of_nat 45.
Fixpoint has_consecutive_dashes (l : list Ascii.ascii) : bool :=
  match l with
  | a :: (b :: _) as rest =>
      (bool_decide (a = DASH) && bool_decide (b = DASH)) || has_consecutive_dashes rest
  | _ => false
  end.
Definition is_ascii_digit (c : Ascii.ascii) : bool :=
  let n := Ascii.nat_of_ascii c in (48 <=? n)%nat && (n <=? 57)%nat.

(** [Username::validate] and [Username::new]. *)
Definition username_new (plaintext : string) : Result UsernameValidationError string :=
  let cs := String.list_ascii_of_string plaintext in
  _ ← ensure (MIN_USERNAME_LENGTH <=? length cs)%nat TooShort;
  _ ← ensure (length cs <=? MAX_USERNAME_LENGTH)%nat TooLong;
  _ ← ensure (forallb (in_charset USERNAME_CHARSET) cs) InvalidCharacter;
  _ ← ensure (negb (has_consecutive_dashes cs)) ConsecutiveDashes;
  _ ← ensure (match cs with c :: _ => negb (is_ascii_digit c) | [] => true end) LeadingDigit;
  Ok plaintext.

(** [argon2]: the hash of a password with a salt, of 32 bytes. *)
Class Argon2 := hash_password_into : bytes -> bytes -> option bytes.

(** [Username::calculate_hash]. *)
Definition calculate_hash `{Argon2} (username : string) : option UsernameHash :=
  hash_password_into (bytes_of_string username) (bytes_of_string "user handle salt").

(** ** Channels *)

(** [base64]. *)
Class Base64 := {
  base64_encode : bytes -> string;
  base64_decode : string -> option bytes
}.
Class Base64Laws `{Base64} : Prop := {
  base64_decode_encode b : base64_decode (base64_encode b) = Some b
}.
(** [PgChannelName for UsernameHash]: a hash has 32 bytes. *)
#[export] Instance username_channel `{Base64} : PgChannelName UsernameHash := {|
  pg_channel := fun h => ("as_" +:+ base64_encode h)%string;
  from_pg_channel := fun channel =>
    s ← strip_prefix "as_" channel;
    b ← base64_decode s;
    if decide (length b = 32%nat) then Some b else None
|}.

(** ** Records and errors *)

Record UsernameRecord := {
  username_hash : UsernameHash;
  un_verifying_key : bytes;
  un_expiration_data : ExpirationData
}.
Definition row_of_username (r : UsernameRecord) : HandleRow :=
  {| row_verifying_key := un_verifying_key r; row_expiration_data := un_expiration_data r |}.

Inductive CheckUsernameExistsError := CheckStorageError.
Inductive CreateUsernameError :=
| CreateStorageError
| CreateHashError
| CreateUsernameValidation (e : UsernameValidationError)
| CreateHashMismatch
| CreateUsernameExists
| CreateTokenRedemption (e : RedeemTokenError).
Inductive DeleteUsernameError :=
| DeleteStorageError
| DeleteUsernameNotFound
| DeleteTokenIssuance (e : IssueTokensError).
Inductive RefreshUsernameError :=
| RefreshStorageError
| RefreshUsernameNotFound
| RefreshUsernameAlreadyExpired
| RefreshTokenRedemption (e : RedeemTokenError).
Inductive PublishConnectionPackageError := PublishStorageError | PublishInvalidKeyPackage.
Inductive UsernameQueueError := QueueStorage.

(** [ORDER BY is_last_resort ASC]: NULLs come last. *)
Definition last_resort_rank (o : option bool) : Z :=
  match o with Some false => 0 | Some true => 1 | None => 2 end.
Definition resort_le (x y : Z * ConnectionPackageRow) : Prop :=
  last_resort_rank (cpr_is_last_resort x.2) <= last_resort_rank (cpr_is_last_resort y.2).
#[export] Instance resort_le_dec : RelDecision resort_le.
Proof. intros x y. unfold resort_le. apply _. Defined.

(** [ORDER BY created_at ASC]. *)
Definition older (x y : Uuid * HandleQueueRow) : Prop := row_created_at x.2 <= row_created_at y.2.
#[export] Instance older_dec : RelDecision older.
Proof. intros x y. unfold older. apply _. Defined.

(** [sort_by_key(not_after)]. *)
Definition expires_le (x y : UsernameRecord) : Prop :=
  not_after (un_expiration_data x) <= not_after (un_expiration_data y).
#[export] Instance expires_le_dec : RelDecision expires_le.
Proof. intros x y. unfold expires_le. apply _. Defined.

(** Maximum number of messages that a stream fetches at once. *)
Definition NAME_BUFFER_SIZE : nat := 32.

(** The stream of a listener; the buffer is in reverse order. *)
Inductive NameFetchState := NameFetch | NameWait.
Record NameStream := {
  ns_id : Uuid;
  ns_hash : UsernameHash;
  ns_cancel : nat;
  ns_buffer : list UsernameQueueMessage;
  ns_state : NameFetchState
}.
Inductive NameTurn :=
| NameYield (m : option UsernameQueueMessage) (s : NameStream)
| NameAgain (s : NameStream)
| NameStop.

Section Names.
Context `{Oracles} `{PrivacyPass} `{Argon2}.
Context `{SignatureScheme} `{!TlsCodec SignContent}.
Context `{!TlsCodec ConnectionPackageV1Payload} `{!TlsCodec ConnectionPackagePayload}.

(** *** Username records ([persistence.rs]) *)

Definition username_load_all : M AsWorld SqlxError (list UsernameRecord) :=
  query (fun n d =>
    map (fun x => {| username_hash := x.1; un_verifying_key := row_verifying_key x.2;
                     un_expiration_data := row_expiration_data x.2 |})
      (scan n (map_to_list (as_user_handle (names_db d))))).

Definition load_expiration_data (h : UsernameHash) : M AsWorld SqlxError (option ExpirationData) :=
  query (fun _ d => row_expiration_data <$> as_user_handle (names_db d) !! h).
(** The same, with the row locked. *)
Definition load_expiration_data_for_update (h : UsernameHash) :
    M AsWorld SqlxError (option ExpirationData) := load_expiration_data h.
Definition username_check_exists (h : UsernameHash) : M AsWorld SqlxError bool :=
  e ← load_expiration_data h;
  mret (bool_decide (is_Some e)).
Definition load_verifying_key (h : UsernameHash) : M AsWorld SqlxError (option bytes) :=
  query (fun _ d => row_verifying_key <$> as_user_handle (names_db d) !! h).

(** [store]: nothing on a conflict. *)
Definition username_store (r : UsernameRecord) : M AsWorld SqlxError bool :=
  exec (fun _ d =>
    let handles := as_user_handle (names_db d) in
    match handles !! username_hash r with
    | Some _ => (false, d)
    | None => (true, set_handles (<[username_hash r := row_of_username r]> handles) d)
    end).
Definition username_update (r : UsernameRecord) : M AsWorld SqlxError unit :=
  exec (fun _ d =>
    let handles := as_user_handle (names_db d) in
    match handles !! username_hash r with
    | Some _ => (tt, set_handles (<[username_hash r := row_of_username r]> handles) d)
    | None => (tt, d)
    end).
Definition update_expiration_data (h : UsernameHash) (e : ExpirationData) : M AsWorld SqlxError unit :=
  exec (fun _ d =>
    let handles := as_user_handle (names_db d) in
    match handles !! h with
    | Some r => (tt, set_handles (<[h := {| row_verifying_key := row_verifying_key r;
                                           row_expiration_data := e |}]> handles) d)
    | None => (tt, d)
    end).

(** [delete]: queued messages and connection packages go with the username. *)
Definition delete_username_rows (h : UsernameHash) (d : AsDb) : AsDb :=
  let n := names_db d in
  let t := handle_connection_package n in
  set_connection_packages
    {| cpt_next := cpt_next t; cpt_rows := filter (fun x => cpr_hash x.2 <> h) (cpt_rows t) |}
    (set_handles_queue (filter (fun x => row_hash x.2 <> h) (as_user_handles_queue n))
      (set_handles (delete h (as_user_handle n)) d)).
Definition username_delete (h : UsernameHash) : M AsWorld SqlxError bool :=
  exec (fun _ d =>
    match as_user_handle (names_db d) !! h with
    | Some _ => (true, delete_username_rows h d)
    | None => (false, d)
    end).

(** *** Operations *)

Definition as_check_username_exists (h : UsernameHash) : M AsWorld CheckUsernameExistsError bool :=
  map_errM (fun _ => CheckStorageError) (username_check_exists h).

(** The token of a request, if it has one, is redeemed first. *)
Definition redeem_optional {E} (f : RedeemTokenError -> E) (token : option AmortizedToken) :
    M AsWorld E unit :=
  match token with
  | Some t => map_errM f (as_redeem_token t AddUsername)
  | None => mret tt
  end.

(** [as_create_username]; the hash is computed in a task that does not panic. *)
Definition as_create_username (key : bytes) (username_plaintext : string) (h : UsernameHash)
    (token : option AmortizedToken) : M AsWorld CreateUsernameError unit :=
  let storage {A} : M AsWorld SqlxError A -> M AsWorld CreateUsernameError A :=
    map_errM (fun _ => CreateStorageError) in
  transaction (fun _ => CreateStorageError) (
    _ ← redeem_optional CreateTokenRedemption token;
    username ← lift (map_err CreateUsernameValidation (username_new username_plaintext));
    local_hash ← lift (ok_or CreateHashError (calculate_hash username));
    _ ← lift (ensure (bool_decide (local_hash = h)) CreateHashMismatch);
    found ← storage (load_expiration_data_for_update h);
    exists_ ← match found with
              | Some e =>
                  t ← utc_now;
                  if expiration_validate t e then throw CreateUsernameExists else mret true
              | None => mret false
              end;
    t ← utc_now;
    let record := {| username_hash := h; un_verifying_key := key;
                     un_expiration_data := expiration_new t USERNAME_VALIDITY_PERIOD |} in
    if (exists_ : bool) then storage (username_update record)
    else
      stored ← storage (username_store record);
      lift (ensure stored CreateUsernameExists)).

(** [as_delete_username]: the token request is ignored. *)
Definition as_delete_username (h : UsernameHash) (token_request : option TokenRequest) :
    M AsWorld DeleteUsernameError (option TokenResponse) :=
  deleted ← map_errM (fun _ => DeleteStorageError) (username_delete h);
  _ ← lift (ensure deleted DeleteUsernameNotFound);
  mret None.

Definition as_refresh_username (h : UsernameHash) (token : option AmortizedToken) :
    M AsWorld RefreshUsernameError unit :=
  let storage {A} : M AsWorld SqlxError A -> M AsWorld RefreshUsernameError A :=
    map_errM (fun _ => RefreshStorageError) in
  transaction (fun _ => RefreshStorageError) (
    _ ← redeem_optional RefreshTokenRedemption token;
    found ← storage (load_expiration_data_for_update h);
    e ← lift (ok_or RefreshUsernameNotFound found);
    t ← utc_now;
    _ ← lift (ensure (expiration_validate t e) RefreshUsernameAlreadyExpired);
    t ← utc_now;
    storage (update_expiration_data h (expiration_new t USERNAME_VALIDITY_PERIOD))).

(** *** Connection packages *)

(** [store_multiple_for_username]: one INSERT with a row per package, which is not
    valid SQL without one; there is a foreign key to the username. *)
Fixpoint insert_connection_packages (h : UsernameHash) (cps : list VersionedConnectionPackage)
    (t : ConnectionPackageTable) : ConnectionPackageTable :=
  match cps with
  | [] => t
  | cp :: cps =>
      insert_connection_packages h cps
        {| cpt_next := cpt_next t + 1;
           cpt_rows := <[cpt_next t := {| cpr_hash := h; cpr_package := cp;
                                          cpr_is_last_resort := is_last_resort cp |}]> (cpt_rows t) |}
  end.
Definition store_multiple_for_username (cps : list VersionedConnectionPackage) (h : UsernameHash) :
    M AsWorld SqlxError unit :=
  sql (fun _ _ d =>
    match cps, as_user_handle (names_db d) !! h with
    | [], _ => None
    | _, None => None
    | _, Some _ => Some (tt, set_connection_packages
        (insert_connection_packages h cps (handle_connection_package (names_db d))) d)
    end).

Definition as_publish_connection_packages_for_handle (h : UsernameHash)
    (connection_packages : list VersionedConnectionPackage) :
    M AsWorld PublishConnectionPackageError unit :=
  verified ← lift (mapM_r (fun cp =>
      map_err (fun _ => PublishInvalidKeyPackage) (connection_package_verify cp)) connection_packages);
  map_errM (fun _ => PublishStorageError) (store_multiple_for_username verified h).

(** [load_for_username]: the next package of the username, which is deleted unless
    it is a last resort or the only one. *)
Definition packages_of (h : UsernameHash) (t : ConnectionPackageTable) :
    list (Z * ConnectionPackageRow) :=
  filter (fun x => cpr_hash x.2 = h) (map_to_list (cpt_rows t)).
Definition next_connection_package (n : nat) (h : UsernameHash) (t : ConnectionPackageTable) :
    option (Z * ConnectionPackageRow) :=
  head (merge_sort resort_le (scan n (packages_of h t))).
Definition take_connection_package (n : nat) (h : UsernameHash) (t : ConnectionPackageTable) :
    option VersionedConnectionPackage * ConnectionPackageTable :=
  match next_connection_package n h t with
  | None => (None, t)
  | Some (id, r) =>
      (Some (cpr_package r),
       if decide (cpr_is_last_resort r <> Some true /\ (1 < length (packages_of h t))%nat)
       then {| cpt_next := cpt_next t; cpt_rows := delete id (cpt_rows t) |} else t)
  end.
Definition load_for_username (h : UsernameHash) : M AsWorld SqlxError VersionedConnectionPackage :=
  found ← sql (fun n _ d =>
    let r := take_connection_package n h (handle_connection_package (names_db d)) in
    Some (r.1, set_connection_packages r.2 d));
  lift (ok_or RowNotFound found).

(** *** Queues ([queue.rs]) *)

Definition set_created_at (t : TimeStamp) (m : UsernameQueueMessage) : UsernameQueueMessage :=
  {| message_id := message_id m; message_payload := message_payload m;
     message_created_at := Some t |}.

(** The rows that [fetch_into] selects, and its UPDATE. *)
Definition messages_to_fetch (n : nat) (h : UsernameHash) (fetched_by : Uuid) (limit : nat)
    (q : gmap Uuid HandleQueueRow) : list (Uuid * HandleQueueRow) :=
  take limit (merge_sort older (scan n
    (filter (fun x => row_hash x.2 = h /\ row_fetched_by x.2 <> Some fetched_by) (map_to_list q)))).
Definition mark_fetched (fetched_by : Uuid) (q : gmap Uuid HandleQueueRow)
    (x : Uuid * HandleQueueRow) : gmap Uuid HandleQueueRow :=
  <[x.1 := {| row_hash := row_hash x.2; row_message := row_message x.2;
              row_fetched_by := Some fetched_by; row_created_at := row_created_at x.2 |}]> q.
(** The order of the returned rows is not that of the selection. *)
Definition name_fetch_into (h : UsernameHash) (fetched_by : Uuid) (limit : nat) :
    M AsWorld SqlxError (list UsernameQueueMessage) :=
  sql (fun n _ d =>
    let q := as_user_handles_queue (names_db d) in
    let rows := messages_to_fetch n h fetched_by limit q in
    Some (map (fun x => set_created_at (row_created_at x.2) (row_message x.2)) (scan (S n) rows),
          set_handles_queue (foldl (mark_fetched fetched_by) q rows) d)).

Definition name_queue_insert (h : UsernameHash) (id : Uuid) (m : UsernameQueueMessage) :
    M AsWorld SqlxError unit :=
  sql (fun _ t d =>
    let q := as_user_handles_queue (names_db d) in
    match q !! id, as_user_handle (names_db d) !! h with
    | None, Some _ =>
        Some (tt, set_handles_queue
          (<[id := {| row_hash := h; row_message := m; row_fetched_by := None;
                      row_created_at := t |}]> q) d)
    | _, _ => None
    end).
Definition name_queue_delete (id : Uuid) : M AsWorld SqlxError unit :=
  exec (fun _ d => (tt, set_handles_queue (delete id (as_user_handles_queue (names_db d))) d)).

(** [UsernameQueues::enqueue] and [ack]. *)
Definition name_enqueue (h : UsernameHash) (payload : ConnectionOfferMessage) :
    M AsWorld UsernameQueueError Uuid :=
  transaction (fun _ => QueueStorage) (
    n ← draw;
    let id := uuid_of n in
    let m := {| message_id := Some id; message_payload := Some payload; message_created_at := None |} in
    _ ← map_errM (fun _ => QueueStorage) (name_queue_insert h id m);
    _ ← map_errM (fun _ => QueueStorage) (exec (fun _ d => (tt, add_name_notified h d)));
    mret id).
Definition name_ack (id : Uuid) : M AsWorld UsernameQueueError unit :=
  map_errM (fun _ => QueueStorage) (name_queue_delete id).

(** [track_listener]: drop cancelled listeners, cancel the previous one. *)
Definition track_listener (h : UsernameHash) (w : AsWorld) : nat * AsWorld :=
  let gone := filter (fun x => x.2 ∈ as_cancelled w) (as_listeners w) in
  let live := filter (fun x => x.2 ∉ as_cancelled w) (as_listeners w) in
  let token := as_next_token w in
  (token,
   {| adb := adb w; as_txn := as_txn w; as_events := as_events w;
      as_listeners := <[h := token]> live;
      as_cancelled := match live !! h with Some prev => {[prev]} ∪ as_cancelled w | None => as_cancelled w end;
      as_next_token := S token;
      as_commands := as_commands w ++ map Unlisten (map_to_list gone).*1 ++
                     match live !! h with Some _ => [] | None => [Listen h] end |}).

(** [UsernameQueues::listen]. *)
Definition name_listen (h : UsernameHash) : M AsWorld UsernameQueueError NameStream := fun w =>
  let '(token, w1) := track_listener h w in
  (Ok {| ns_id := uuid_of (as_events w1); ns_hash := h; ns_cancel := token; ns_buffer := [];
         ns_state := NameFetch |}, tick w1).

Definition with_buffer (s : NameStream) (b : list UsernameQueueMessage) (st : NameFetchState) : NameStream :=
  {| ns_id := ns_id s; ns_hash := ns_hash s; ns_cancel := ns_cancel s; ns_buffer := b; ns_state := st |}.

(** A turn of the loop in [into_stream]; [wake] is whether a notification is there
    for a waiting stream. *)
Definition name_turn (wake : bool) (s : NameStream) (w : AsWorld) : NameTurn * AsWorld :=
  if decide (ns_cancel s ∈ as_cancelled w) then (NameStop, w)
  else
    match rev (ns_buffer s) with
    | m :: rest => (NameYield (Some m) (with_buffer s (rev rest) (ns_state s)), w)
    | [] =>
        match ns_state s with
        | NameFetch =>
            match name_fetch_into (ns_hash s) (ns_id s) NAME_BUFFER_SIZE w with
            | (Err _, w') => (NameStop, w')
            | (Ok [], w') => (NameYield None (with_buffer s [] NameWait), w')
            | (Ok rows, w') => (NameAgain (with_buffer s (rev rows) NameFetch), w')
            end
        | NameWait => (NameAgain (if wake then with_buffer s [] NameFetch else s), w)
        end
    end.

(** ** Connecting ([connect.rs]) *)

(** [load_username_expiration_data_impl]: an expired username is deleted. *)
Definition load_username_expiration_data (h : UsernameHash) :
    M AsWorld SqlxError (option ExpirationData) :=
  found ← load_expiration_data h;
  match found with
  | None => mret None
  | Some e =>
      t ← utc_now;
      if expiration_validate t e then mret (Some e)
      else _ ← username_delete h; mret None
  end.

(** *** Commands of the operator ([cli.rs]) *)

Definition usernames_list : M AsWorld SqlxError (list (UsernameHash * ExpirationData)) :=
  records ← username_load_all;
  mret ((fun r => (username_hash r, un_expiration_data r)) <$> merge_sort expires_le records).

Fixpoint refresh_records (before : TimeStamp) (records : list UsernameRecord) : M AsWorld SqlxError Z :=
  match records with
  | [] => mret 0
  | r :: records =>
      if not_after (un_expiration_data r) <? before then
        t ← utc_now;
        _ ← update_expiration_data (username_hash r) (expiration_new t USERNAME_VALIDITY_PERIOD);
        updated ← refresh_records before records;
        mret (updated + 1)
      else refresh_records before records
  end.
Definition username_refresh_expiring (before : TimeStamp) : M AsWorld SqlxError Z :=
  transaction (fun e => e) (records ← username_load_all; refresh_records before records).

End Names.
