(* ===== verification/AuthGrpc.v ===== *)
(** * The requests of the authentication service
      ([backend/src/auth_service/grpc.rs], [usernames/connect.rs],
      [backend/src/errors/auth_service.rs])

    Authentication of requests by users and by owners of usernames, the gRPC
    handlers, and the protocol for connecting to a username. *)

From S2P Require Import Prelude Aead Messages Grpc PgTask RateLimiter Credentials.
From S2P Require Import ConnectionPackages AuthDb AuthTokens AuthUsers AuthNames.

(** ** Requests ([auth_service.proto]) *)

Section Payloads.
Context `{Semver}.

Record CheckInvitationCodeRequest := {
  cic_client_metadata : option ClientMetadata;
  cic_invitation_code : option string
}.
Record RegisterUserRequest := {
  ru_client_metadata : option ClientMetadata;
  ru_client_credential_payload : Field ClientCredentialPayload;
  ru_encrypted_user_profile : Field EncryptedUserProfile;
  ru_invitation_code : option string
}.
Record DeleteUserPayload := {
  du_client_metadata : option ClientMetadata;
  du_user_id : Field UserId
}.
(** A connection package that cannot be converted is [None]. *)
Record PublishConnectionPackagesPayload := {
  pcp_client_metadata : option ClientMetadata;
  pcp_hash : Field UsernameHash;
  pcp_connection_packages : list (option VersionedConnectionPackage)
}.
Record StageUserProfilePayload := {
  sup_client_metadata : option ClientMetadata;
  sup_user_id : Field UserId;
  sup_encrypted_user_profile : Field EncryptedUserProfile
}.
Record MergeUserProfilePayload := {
  mup_client_metadata : option ClientMetadata;
  mup_user_id : Field UserId
}.
(** A key index of the wrong length is an invalid field. *)
Record GetUserProfileRequest := {
  gup_client_metadata : option ClientMetadata;
  gup_user_id : Field UserId;
  gup_key_index : Field bytes
}.
Record IssueTokensPayload := {
  itp_client_metadata : option ClientMetadata;
  itp_operation_type : Z;
  itp_user_id : Field UserId;
  itp_token_request : bytes
}.
Record ReportSpamPayload := {
  rsp_client_metadata : option ClientMetadata;
  rsp_reporter_id : Field UserId;
  rsp_spammer_id : Field UserId
}.
Record CheckUsernameExistsRequest := {
  cue_client_metadata : option ClientMetadata;
  cue_hash : Field UsernameHash
}.
Record CreateUsernamePayload := {
  cup_client_metadata : option ClientMetadata;
  cup_verifying_key : option bytes;
  cup_plaintext : string;
  cup_hash : Field UsernameHash;
  cup_token : option bytes
}.
Record DeleteUsernamePayload := {
  dnp_client_metadata : option ClientMetadata;
  dnp_hash : Field UsernameHash;
  dnp_token_request : option bytes
}.
Record RefreshUsernamePayload := {
  rnp_client_metadata : option ClientMetadata;
  rnp_hash : Field UsernameHash;
  rnp_token : option bytes
}.
Record InitListenUsernamePayload := {
  iln_client_metadata : option ClientMetadata;
  iln_hash : Field UsernameHash
}.
(** The oneof [step] of [ConnectUsernameRequest], and the responses. *)
Inductive ConnectUsernameRequest :=
| ConnectFetch (client_metadata : option ClientMetadata) (hash : Field UsernameHash)
| ConnectEnqueue (connection_offer : option ConnectionOfferMessage)
| ConnectNothing.
Inductive ConnectUsernameResponse :=
| FetchResponse (connection_package : VersionedConnectionPackage)
| EnqueueResponse.
(** The oneof of [ListenUsernameRequest]. *)
Inductive ListenUsernameRequest :=
| ListenNameInit (r : SignedRequest InitListenUsernamePayload)
| ListenNameAck (message_id : option Uuid)
| ListenNameNothing.

(** The traits [WithUserId] and [WithUsernameHash]. *)
Class WithUserId (P : Type) := user_id_proto : P -> Field UserId.
#[export] Instance DeleteUser_user_id : WithUserId DeleteUserPayload := du_user_id.
#[export] Instance StageUserProfile_user_id : WithUserId StageUserProfilePayload := sup_user_id.
#[export] Instance MergeUserProfile_user_id : WithUserId MergeUserProfilePayload := mup_user_id.
#[export] Instance IssueTokens_user_id : WithUserId IssueTokensPayload := itp_user_id.
#[export] Instance ReportSpam_user_id : WithUserId ReportSpamPayload := rsp_reporter_id.
Class WithUsernameHash (P : Type) := username_hash_proto : P -> Field UsernameHash.
#[export] Instance PublishConnectionPackages_hash : WithUsernameHash PublishConnectionPackagesPayload :=
  pcp_hash.
#[export] Instance DeleteUsername_hash : WithUsernameHash DeleteUsernamePayload := dnp_hash.
#[export] Instance RefreshUsername_hash : WithUsernameHash RefreshUsernamePayload := rnp_hash.
#[export] Instance InitListenUsername_hash : WithUsernameHash InitListenUsernamePayload := iln_hash.

(** The configuration of the service. *)
Record AsConfig := {
  client_version_req : option VersionReq;
  invitation_only : bool;
  unredeemable_code : option string
}.
End Payloads.

(** ** Errors *)

Definition status_of_register (e : RegisterUserError) : Failure :=
  match e with
  | SigningKeyNotFound => Failed (status NotFound)
  | RegisterLibraryError | RegisterStorageError => Failed (status Internal)
  | UserAlreadyExists => Failed (status AlreadyExists)
  | InvalidCsr _ _ _ => Failed (status InvalidArgument)
  | RegisterPanicked => Panicked
  end.
Definition status_of_publish_packages (e : PublishConnectionPackageError) : Status :=
  match e with
  | PublishStorageError => status Internal
  | PublishInvalidKeyPackage => status InvalidArgument
  end.
Definition status_of_issue (e : IssueTokensError) : Status :=
  match e with
  | BadRequest => status InvalidArgument
  | IssueStorageError | PrivacyPassError => status Internal
  | TooManyTokensRequested retry available =>
      {| Grpc.code := ResourceExhausted; detail := TokenQuotaExceededDetail retry available |}
  end.
Definition status_of_redeem (e : RedeemTokenError) : Status :=
  match e with
  | UnknownKeyId => {| Grpc.code := Unauthenticated; detail := UnknownTokenKeyIdDetail |}
  | InvalidToken => status Unauthenticated
  end.
Definition status_of_get_profile (e : GetUserProfileError) : Status :=
  match e with
  | NoCiphertextFound => status InvalidArgument
  | GetProfileUserNotFound => status NotFound
  | GetProfileStorageError => status Internal
  end.
Definition status_of_stage (e : StageUserProfileError) : Status :=
  match e with StageUserNotFound => status NotFound | StageStorageError => status Internal end.
Definition status_of_merge (e : MergeUserProfileError) : Status :=
  match e with
  | MergeUserNotFound | NoStagedUserProfile => status NotFound
  | MergeStorageError => status Internal
  end.
Definition status_of_create_username (e : CreateUsernameError) : Status :=
  match e with
  | CreateStorageError | CreateHashError => status Internal
  | CreateUsernameValidation _ | CreateHashMismatch => status InvalidArgument
  | CreateUsernameExists => status AlreadyExists
  | CreateTokenRedemption e => status_of_redeem e
  end.
Definition status_of_delete_username (e : DeleteUsernameError) : Status :=
  match e with
  | DeleteStorageError => status Internal
  | DeleteUsernameNotFound => status NotFound
  | DeleteTokenIssuance e => status_of_issue e
  end.
Definition status_of_refresh_username (e : RefreshUsernameError) : Status :=
  match e with
  | RefreshStorageError => status Internal
  | RefreshUsernameNotFound => status NotFound
  | RefreshUsernameAlreadyExpired => status FailedPrecondition
  | RefreshTokenRedemption e => status_of_redeem e
  end.

Inductive ConnectProtocolError :=
| ProtocolViolation
| ConnectDatabase
| ConnectUsernameNotFound
| ConnectInvalidHash
| ConnectMissingField
| ConnectEnqueueFailed
| ConnectUnsupportedVersion (s : Status).
Definition status_of_connect (e : ConnectProtocolError) : Status :=
  match e with
  | ProtocolViolation => status FailedPrecondition
  | ConnectDatabase | ConnectEnqueueFailed => status Internal
  | ConnectUsernameNotFound => status NotFound
  | ConnectMissingField | ConnectInvalidHash => status InvalidArgument
  | ConnectUnsupportedVersion s => s
  end.

Section Handlers.
Context `{Oracles} `{PrivacyPass} `{Calendar} `{Argon2} `{Semver}.
Context `{Sha256} `{Signatures.SignatureScheme} `{CredentialCodecs}.
Context `{!TlsCodec ConnectionPackageV1Payload} `{!TlsCodec ConnectionPackagePayload}.
Context (config : AsConfig).

Definition check_version {E} (of_status : Status -> E) (m : option ClientMetadata) :
    M AsWorld E (option Version) :=
  lift (map_err of_status (verify_client_version (client_version_req config) m)).

(** ** Authentication *)

Section Auth.
Context {P : Type} `{!VerifiableRequest P}.

(** [GrpcAs::load_client_verifying_key] and [load_username_verifying_key]. *)
Definition load_client_key (user_id : UserId) : M AsWorld Failure bytes :=
  found ← map_errM (fun e => match e with
                             | StorageDatabase => Failed (status Internal)
                             | StoragePanic => Panicked
                             end) (load_client_verifying_key user_id);
  lift (ok_or (Failed (status NotFound)) found).
Definition load_username_key (h : UsernameHash) : M AsWorld Failure bytes :=
  found ← map_errM (fun _ => Failed (status Internal)) (load_verifying_key h);
  lift (ok_or (Failed (status NotFound)) found).

Definition verify_user_auth `{!WithUserId P} (r : SignedRequest P) : M AsWorld Failure (UserId * P) :=
  user_id ← fail_with (p ← ok_or (status InvalidArgument) (sr_payload r); required (user_id_proto p));
  key ← load_client_key user_id;
  p ← fail_with (verify_request r key);
  mret (user_id, p).
Definition verify_username_auth `{!WithUsernameHash P} (r : SignedRequest P) :
    M AsWorld Failure (UsernameHash * P) :=
  h ← fail_with (p ← ok_or (status InvalidArgument) (sr_payload r); required (username_hash_proto p));
  key ← load_username_key h;
  p ← fail_with (verify_request r key);
  mret (h, p).

End Auth.

Section Requests.
Context `{!VerifiableRequest DeleteUserPayload} `{!VerifiableRequest PublishConnectionPackagesPayload}
  `{!VerifiableRequest StageUserProfilePayload} `{!VerifiableRequest MergeUserProfilePayload}
  `{!VerifiableRequest IssueTokensPayload} `{!VerifiableRequest ReportSpamPayload}
  `{!VerifiableRequest CreateUsernamePayload} `{!VerifiableRequest DeleteUsernamePayload}
  `{!VerifiableRequest RefreshUsernamePayload} `{!VerifiableRequest InitListenUsernamePayload}.

(** ** Invitation codes and registration *)

Definition is_unredeemable_code (c : string) : bool := bool_decide (unredeemable_code config = Some c).

(** A code that can be used: it exists and is not redeemed. *)
Definition load_unredeemed (c : string) : M AsWorld Failure (option InvitationCodeRecord) :=
  record ← map_errM (fun _ => Failed (status Internal)) (invitation_load c);
  mret (r ← record; if redeemed r then None else Some r).

Definition check_invitation_code (request : CheckInvitationCodeRequest) : M AsWorld Failure bool :=
  _ ← check_version Failed (cic_client_metadata request);
  c ← fail_with (ok_or (status InvalidArgument) (cic_invitation_code request));
  _ ← fail_with (ensure (validate_code c) (status InvalidArgument));
  if is_unredeemable_code c then mret true
  else
    record ← load_unredeemed c;
    mret (bool_decide (is_Some record)).

(** The loop of [get_invitation_codes]: a code per token that is redeemed. *)
Fixpoint issue_codes (tokens : list AmortizedToken) : M AsWorld Failure (list string) :=
  match tokens with
  | [] => mret []
  | t :: tokens =>
      r ← try_ (as_redeem_token t GetInviteCode);
      match r with
      | Err _ => issue_codes tokens
      | Ok _ =>
          c ← map_errM (fun _ => Failed (status Internal)) invitation_generate;
          cs ← issue_codes tokens;
          mret (c :: cs)
      end
  end.
Definition get_invitation_codes (request_tokens : list bytes) : M AsWorld Failure (list string) :=
  _ ← fail_with (ensure (length request_tokens <=? 10)%nat (status InvalidArgument));
  tokens ← fail_with (mapM_r (fun b => ok_or (status InvalidArgument) (token_of_bytes b)) request_tokens);
  transaction (fun _ => Failed (status Internal)) (
    codes_today ← map_errM (fun _ => Failed (status Internal)) lock_and_count_codes_issued_today;
    _ ← fail_with (ensure (codes_today + Z.of_nat (length tokens) <=? CODES_PER_DAY)
                     (status ResourceExhausted));
    issue_codes tokens).

(** The code with which a user registers. *)
Definition registration_code (invitation_code : option string) :
    M AsWorld Failure (option InvitationCodeRecord) :=
  if invitation_only config then
    c ← fail_with (ok_or (status InvalidArgument) invitation_code);
    _ ← fail_with (ensure (validate_code c) (status InvalidArgument));
    code_record ←
      (if is_unredeemable_code c then mret (Some {| code := c; redeemed := false |})
       else load_unredeemed c);
    r ← fail_with (ok_or (status InvalidArgument) code_record);
    mret (Some r)
  else mret None.
Definition register_user (request : RegisterUserRequest) : M AsWorld Failure ClientCredential :=
  _ ← check_version Failed (ru_client_metadata request);
  code_record ← registration_code (ru_invitation_code request);
  params ← fail_with (
    p ← required (ru_client_credential_payload request);
    profile ← required (ru_encrypted_user_profile request);
    Ok {| client_payload := p; params_user_profile := profile |});
  map_errM status_of_register
    (as_init_user_registration (invitation_only config) params code_record).

(** ** Users *)

Definition delete_user (request : SignedRequest DeleteUserPayload) : M AsWorld Failure unit :=
  x ← verify_user_auth request;
  let '(user_id, p) := x in
  _ ← check_version Failed (du_client_metadata p);
  payload_user_id ← fail_with (required (du_user_id p));
  _ ← fail_with (ensure (bool_decide (payload_user_id = user_id)) (status InvalidArgument));
  with_status (fun _ => status Internal) (as_delete_user user_id).

Definition as_credentials_handler (client_metadata : option ClientMetadata) :
    M AsWorld Failure AsCredentialsResponse :=
  _ ← check_version Failed client_metadata;
  with_status (fun _ => status Internal) as_credentials.

Definition stage_user_profile_handler (request : SignedRequest StageUserProfilePayload) :
    M AsWorld Failure unit :=
  x ← verify_user_auth request;
  let '(user_id, p) := x in
  _ ← check_version Failed (sup_client_metadata p);
  profile ← fail_with (required (sup_encrypted_user_profile p));
  with_status status_of_stage (as_stage_user_profile user_id profile).

Definition merge_user_profile_handler (request : SignedRequest MergeUserProfilePayload) :
    M AsWorld Failure unit :=
  x ← verify_user_auth request;
  let '(user_id, p) := x in
  _ ← check_version Failed (mup_client_metadata p);
  with_status status_of_merge (as_merge_user_profile user_id).

Definition get_user_profile (request : GetUserProfileRequest) : M AsWorld Failure EncryptedUserProfile :=
  _ ← check_version Failed (gup_client_metadata request);
  user_id ← fail_with (required (gup_user_id request));
  index ← fail_with (required (gup_key_index request));
  with_status status_of_get_profile (as_get_user_profile user_id index).

Definition issue_tokens (request : SignedRequest IssueTokensPayload) : M AsWorld Failure bytes :=
  x ← verify_user_auth request;
  let '(user_id, p) := x in
  _ ← check_version Failed (itp_client_metadata p);
  op ← fail_with (ok_or (status InvalidArgument) (operation_of_i32 (itp_operation_type p)));
  token_request ← fail_with (ok_or (status InvalidArgument) (token_request_of_bytes (itp_token_request p)));
  token_response ← with_status status_of_issue (as_issue_tokens user_id op token_request);
  fail_with (ok_or (status Internal) (token_response_to_bytes token_response)).

Definition report_spam (request : SignedRequest ReportSpamPayload) : M AsWorld Failure unit :=
  x ← verify_user_auth request;
  let '(_, p) := x in
  _ ← check_version Failed (rsp_client_metadata p);
  mret tt.

(** ** Usernames *)

Definition publish_connection_packages (request : SignedRequest PublishConnectionPackagesPayload) :
    M AsWorld Failure unit :=
  x ← verify_username_auth request;
  let '(h, p) := x in
  _ ← check_version Failed (pcp_client_metadata p);
  cps ← fail_with (mapM_r (ok_or (status InvalidArgument)) (pcp_connection_packages p));
  with_status status_of_publish_packages (as_publish_connection_packages_for_handle h cps).

Definition check_username_exists (request : CheckUsernameExistsRequest) : M AsWorld Failure bool :=
  _ ← check_version Failed (cue_client_metadata request);
  h ← fail_with (required (cue_hash request));
  with_status (fun _ => status Internal) (as_check_username_exists h).

(** An optional field with the given parser. *)
Definition parse_optional {A} (f : bytes -> option A) (o : option bytes) : Result Status (option A) :=
  match o with
  | None => Ok None
  | Some b => a ← ok_or (status InvalidArgument) (f b); Ok (Some a)
  end.

(** The request is verified under the key that it brings. *)
Definition create_username (request : SignedRequest CreateUsernamePayload) : M AsWorld Failure unit :=
  key ← fail_with (p ← ok_or (status InvalidArgument) (sr_payload request);
                   ok_or (status InvalidArgument) (cup_verifying_key p));
  p ← fail_with (verify_request request key);
  _ ← check_version Failed (cup_client_metadata p);
  h ← fail_with (required (cup_hash p));
  token ← fail_with (parse_optional token_of_bytes (cup_token p));
  with_status status_of_create_username (as_create_username key (cup_plaintext p) h token).

Definition delete_username (request : SignedRequest DeleteUsernamePayload) :
    M AsWorld Failure (option bytes) :=
  x ← verify_username_auth request;
  let '(h, p) := x in
  _ ← check_version Failed (dnp_client_metadata p);
  token_request ← fail_with (parse_optional token_request_of_bytes (dnp_token_request p));
  token_response ← with_status status_of_delete_username (as_delete_username h token_request);
  fail_with (match token_response with
             | None => Ok None
             | Some r => b ← ok_or (status Internal) (token_response_to_bytes r); Ok (Some b)
             end).

Definition refresh_username (request : SignedRequest RefreshUsernamePayload) : M AsWorld Failure unit :=
  x ← verify_username_auth request;
  let '(h, p) := x in
  _ ← check_version Failed (rnp_client_metadata p);
  token ← fail_with (parse_optional token_of_bytes (rnp_token p));
  with_status status_of_refresh_username (as_refresh_username h token).

(** [listen_username], up to the stream; [None] is the end of the requests. *)
Definition listen_username (first : option (Result Status ListenUsernameRequest)) :
    M AsWorld Failure NameStream :=
  match first with
  | None => throw (Failed (status FailedPrecondition))
  | Some (Err s) => throw (Failed s)
  | Some (Ok (ListenNameInit r)) =>
      p ← fail_with (ok_or (status InvalidArgument) (sr_payload r));
      _ ← check_version Failed (iln_client_metadata p);
      x ← verify_username_auth r;
      with_status (fun _ => status Internal) (name_listen x.1)
  | Some (Ok _) => throw (Failed (status FailedPrecondition))
  end.

(** [process_listen_username_request]: any further request. *)
Definition process_listen_username_request (request : Result Status ListenUsernameRequest) :
    M AsWorld Failure unit :=
  request ← fail_with request;
  match request with
  | ListenNameAck (Some id) => with_status (fun _ => status Internal) (name_ack id)
  | _ => throw (Failed (status FailedPrecondition))
  end.

(** ** Connecting to a username *)

(** Step 1: the connection package; [None] when the stream ended. *)
Definition connect_fetch (step : option (Result Status ConnectUsernameRequest)) :
    M AsWorld ConnectProtocolError (option (UsernameHash * VersionedConnectionPackage)) :=
  match step with
  | Some (Ok (ConnectFetch client_metadata hash)) =>
      _ ← check_version ConnectUnsupportedVersion client_metadata;
      h ← lift (match hash with
                | FieldValue h => Ok h
                | FieldMissing => Err ConnectMissingField
                | FieldInvalid => Err ConnectInvalidHash
                end);
      found ← map_errM (fun _ => ConnectDatabase) (load_username_expiration_data h);
      e ← lift (ok_or ConnectUsernameNotFound found);
      t ← utc_now;
      _ ← lift (ensure (expiration_validate t e) ConnectUsernameNotFound);
      cp ← map_errM (fun _ => ConnectDatabase) (load_for_username h);
      mret (Some (h, cp))
  | Some (Ok _) => throw ProtocolViolation
  | Some (Err _) | None => mret None
  end.
(** Step 2: the offer; [false] when the stream ended. *)
Definition connect_enqueue (h : UsernameHash) (step : option (Result Status ConnectUsernameRequest)) :
    M AsWorld ConnectProtocolError bool :=
  match step with
  | Some (Ok (ConnectEnqueue connection_offer)) =>
      offer ← lift (ok_or ConnectMissingField connection_offer);
      _ ← map_errM (fun _ => ConnectEnqueueFailed) (name_enqueue h offer);
      mret true
  | Some (Ok _) => throw ProtocolViolation
  | Some (Err _) | None => mret false
  end.
(** [run_protocol]: what is sent on the outgoing channel, whose receiver is there
    for the first [open] responses. *)
Definition run_protocol (incoming : list (Result Status ConnectUsernameRequest)) (open : nat)
    (w : AsWorld) : list (Result Status ConnectUsernameResponse) * AsWorld :=
  match connect_fetch (incoming !! 0%nat) w with
  | (Err e, w1) => (take open [Err (status_of_connect e)], w1)
  | (Ok None, w1) => ([], w1)
  | (Ok (Some (h, cp)), w1) =>
      match open with
      | O => ([], w1)
      | _ =>
          match connect_enqueue h (incoming !! 1%nat) w1 with
          | (Err e, w2) => (take open [Ok (FetchResponse cp); Err (status_of_connect e)], w2)
          | (Ok true, w2) => (take open [Ok (FetchResponse cp); Ok EnqueueResponse], w2)
          | (Ok false, w2) => ([Ok (FetchResponse cp)], w2)
          end
      end
  end.

End Requests.
End Handlers.
