(* ===== verification/AuthDbCorrect.v ===== *)
(** * Reasoning about statements and transactions

    What a computation of the authentication service can do to the tables: inside
    a transaction, where the tables to return to are kept aside, and at the top
    level, where no transaction is open. *)

From S2P Require Import Prelude Aead Messages Signatures Credentials ConnectionPackages AuthDb.

Set Warnings "-clear-no-such-hyp".

(** What would remain if the server stopped now. *)
Definition committed (w : AsWorld) : AsDb :=
  match as_txn w with InTxn _ _ saved => saved | NoTxn => adb w end.
Definition in_txn (w : AsWorld) : bool :=
  match as_txn w with InTxn _ _ _ => true | NoTxn => false end.

(** A computation relates the tables before it to the tables after it, both as it
    sees them and as they are committed, whether or not it fails. *)
Record keeps {E A} (R : AsDb -> AsDb -> Prop) (m : M AsWorld E A) : Prop := {
  keeps_adb w : R (adb w) (adb (m w).2);
  keeps_committed w : R (committed w) (committed (m w).2);
  keeps_in_txn w : in_txn (m w).2 = in_txn w;
  keeps_events w : (as_events w <= as_events (m w).2)%nat
}.
(** The same, with transactions of its own. *)
Definition tops {E A} (R : AsDb -> AsDb -> Prop) (m : M AsWorld E A) : Prop :=
  forall w, as_txn w = NoTxn ->
    as_txn (m w).2 = NoTxn /\ R (adb w) (adb (m w).2) /\ (as_events w <= as_events (m w).2)%nat.

Create HintDb keeps.

Lemma in_txn_NoTxn w : in_txn w = false <-> as_txn w = NoTxn.
Proof. unfold in_txn. destruct (as_txn w); split; congruence. Qed.

(** The cases of a statement. *)
Lemma sql_inv `{Oracles} {A} (f : nat -> TimeStamp -> AsDb -> option (A * AsDb)) w r w' :
  sql f w = (r, w') ->
  as_events w' = S (as_events w) /\ committed w' = (if in_txn w then committed w else adb w') /\
  in_txn w' = in_txn w /\
  match r with
  | Ok a => as_txn w' = as_txn w /\ db_ok (as_events w) = true /\
      exists t, f (as_events w) t (adb w) = Some (a, adb w') /\
        match as_txn w with InTxn s _ _ => t = s | NoTxn => t = now (as_events w) end
  | Err e => e = DatabaseError /\ adb w' = adb w
  end.
Proof.
  unfold sql. intros Hs.
  assert (forall t w', (match (if db_ok (as_events w) then f (as_events w) t (adb w) else None) with
    | Some (a, d) => (Ok a, set_adb d (tick w))
    | None => (Err DatabaseError, set_txn (abort (as_txn w)) (tick w))
    end) = (r, w') ->
    as_events w' = S (as_events w) /\ in_txn w' = in_txn w /\
    committed w' = (if in_txn w then committed w else adb w') /\
    match r with
    | Ok a => as_txn w' = as_txn w /\ db_ok (as_events w) = true /\
        f (as_events w) t (adb w) = Some (a, adb w')
    | Err e => e = DatabaseError /\ adb w' = adb w
    end) as Hrun.
  { intros t w0. unfold in_txn, committed. destruct (db_ok _).
    - destruct (f _ t _) as [[a d]|]; intros [= <- <-]; cbn; destruct (as_txn w); done.
    - intros [= <- <-]; cbn; destruct (as_txn w); done. }
  destruct (as_txn w) as [|t [|] saved] eqn:Et.
  - apply Hrun in Hs as (He & Hi & Hc & Hr). split_and!; [done|done|done|].
    destruct r; [|done]. destruct Hr as (? & ? & ?). eauto 6.
  - injection Hs as <- <-. unfold in_txn, committed. cbn. by rewrite Et.
  - apply Hrun in Hs as (He & Hi & Hc & Hr). split_and!; [done|done|done|].
    destruct r; [|done]. destruct Hr as (? & ? & ?). eauto 6.
Qed.

Lemma query_inv `{Oracles} {A} (f : nat -> AsDb -> A) w r w' :
  query f w = (r, w') ->
  adb w' = adb w /\ committed w' = committed w /\ in_txn w' = in_txn w /\
  match r with
  | Ok a => as_txn w' = as_txn w /\ a = f (as_events w) (adb w)
  | Err e => e = DatabaseError
  end.
Proof.
  intros Hq. unfold query in Hq. apply sql_inv in Hq as (_ & Hc & Hi & Hr).
  assert (adb w' = adb w) as Hd.
  { destruct r as [a|e]; [|by destruct Hr]. by destruct Hr as (_ & _ & t & [= _ <-] & _). }
  split_and!; [done| |done|].
  - rewrite Hc. unfold in_txn, committed in *. by destruct (as_txn w).
  - destruct r as [a|e]; [|by destruct Hr]. destruct Hr as (? & _ & t & [= <- _] & _). done.
Qed.

Section Keeps.
Context (R : AsDb -> AsDb -> Prop) `{!PreOrder R}.

Lemma keeps_unchanged {E A} (m : M AsWorld E A) :
  (forall w, adb (m w).2 = adb w /\ as_txn (m w).2 = as_txn w /\
     (as_events w <= as_events (m w).2)%nat) -> keeps R m.
Proof.
  intros Hm. split; intros w; destruct (Hm w) as (Hd & Ht & He).
  - by rewrite Hd.
  - unfold committed. by rewrite Ht, Hd.
  - unfold in_txn. by rewrite Ht.
  - done.
Qed.
Lemma keeps_ret {E A} (a : A) : keeps R (mret a : M AsWorld E A).
Proof. apply keeps_unchanged. intros w. cbn. auto. Qed.
Lemma keeps_throw {E A} (e : E) : keeps R (throw e : M AsWorld E A).
Proof. apply keeps_unchanged. intros w. cbn. auto. Qed.
Lemma keeps_lift {E A} (r : Result E A) : keeps R (lift r).
Proof. apply keeps_unchanged. intros w. cbn. auto. Qed.
Lemma keeps_now `{Oracles} {E} : keeps R (utc_now (E := E)).
Proof. apply keeps_unchanged. intros w. cbn. auto. Qed.
Lemma keeps_draw {E} : keeps R (draw (E := E)).
Proof. apply keeps_unchanged. intros w. cbn. auto. Qed.
Lemma keeps_bind_with {E A B} (m : M AsWorld E A) (f : A -> M AsWorld E B) :
  keeps R m -> (forall a w w', m w = (Ok a, w') -> keeps R (f a)) -> keeps R (m ≫= f).
Proof.
  intros [Ha Hc Hi He] Hf. split; intros w; unfold mbind, M_bind;
    specialize (Ha w); specialize (Hc w); specialize (Hi w); specialize (He w);
    destruct (m w) as [[a|e] w1] eqn:Em; cbn in *; try done.
  - etrans; [exact Ha|by eapply keeps_adb, Hf].
  - etrans; [exact Hc|by eapply keeps_committed, Hf].
  - rewrite <- Hi. by eapply keeps_in_txn, Hf.
  - etrans; [exact He|by eapply keeps_events, Hf].
Qed.
Lemma keeps_bind {E A B} (m : M AsWorld E A) (f : A -> M AsWorld E B) :
  keeps R m -> (forall a, keeps R (f a)) -> keeps R (m ≫= f).
Proof. intros Hm Hf. by apply keeps_bind_with. Qed.
Lemma keeps_ext {E A} (m m' : M AsWorld E A) : (forall w, m w = m' w) -> keeps R m' -> keeps R m.
Proof.
  intros Hm [Ha Hc Hi He]. split; intros w; rewrite Hm; auto.
Qed.
Lemma keeps_map_errM {E F A} (f : E -> F) (m : M AsWorld E A) : keeps R m -> keeps R (map_errM f m).
Proof.
  intros [Ha Hc Hi He]. split; intros w; unfold map_errM;
    specialize (Ha w); specialize (Hc w); specialize (Hi w); specialize (He w); by destruct (m w).
Qed.
Lemma keeps_try {E F A} (m : M AsWorld E A) : keeps R m -> keeps R (try_ (F := F) m).
Proof.
  intros [Ha Hc Hi He]. split; intros w; unfold try_;
    specialize (Ha w); specialize (Hc w); specialize (Hi w); specialize (He w); by destruct (m w).
Qed.
(** A statement that relates the tables relates them at the top level too. *)
Lemma keeps_sql `{Oracles} {A} (f : nat -> TimeStamp -> AsDb -> option (A * AsDb)) :
  (forall n t d a d', f n t d = Some (a, d') -> R d d') -> keeps R (sql f).
Proof.
  intros Hf. split; intros w; destruct (sql f w) as [r w'] eqn:Es;
    apply sql_inv in Es as (He & Hc & Hi & Hr); cbn.
  - destruct r as [a|e]; [|by destruct Hr as [_ ->]]. destruct Hr as (_ & _ & t & Hft & _). by eapply Hf.
  - rewrite Hc. destruct (in_txn w) eqn:Ei; [done|]. unfold committed.
    apply in_txn_NoTxn in Ei as ->.
    destruct r as [a|e]; [|by destruct Hr as [_ ->]]. destruct Hr as (_ & _ & t & Hft & _). by eapply Hf.
  - done.
  - lia.
Qed.
Lemma keeps_query `{Oracles} {A} (f : nat -> AsDb -> A) : keeps R (query f).
Proof. apply keeps_sql. intros n t d a d' [= _ <-]. reflexivity. Qed.
Lemma keeps_exec `{Oracles} {A} (f : TimeStamp -> AsDb -> A * AsDb) :
  (forall t d, R d (f t d).2) -> keeps R (exec f).
Proof. intros Hf. apply keeps_sql. intros n t d a d' [= Hfd]. specialize (Hf t d). by rewrite Hfd in Hf. Qed.
Lemma keeps_pool_write `{Oracles} (f : TimeStamp -> AsDb -> AsDb) :
  (forall t d, R d (f t d)) -> keeps R (pool_write f).
Proof.
  intros Hf. split; intros w; unfold pool_write; destruct (db_ok _); cbn; try done; try lia;
    unfold committed, in_txn; destruct (as_txn w) eqn:Et; cbn; rewrite ?Et; try done; try lia; apply Hf.
Qed.
Lemma keeps_savepoint `{Oracles} {E A} (g : SqlxError -> E) (m : M AsWorld E A) :
  keeps R m -> keeps R (savepoint g m).
Proof.
  intros Hm. unfold savepoint. apply keeps_bind; [apply keeps_map_errM, keeps_exec; reflexivity|intros _].
  apply keeps_bind; [done|intros a].
  apply keeps_bind; [apply keeps_map_errM, keeps_exec; reflexivity|intros _]. apply keeps_ret.
Qed.

(** *** The top level *)

Lemma tops_keeps {E A} (m : M AsWorld E A) : keeps R m -> tops R m.
Proof.
  intros [Ha Hc Hi He] w Hw. split; [|by split; [apply Ha|apply He]].
  apply in_txn_NoTxn. rewrite Hi. by apply in_txn_NoTxn.
Qed.
Lemma tops_bind_with {E A B} (m : M AsWorld E A) (f : A -> M AsWorld E B) :
  tops R m -> (forall a w w', m w = (Ok a, w') -> tops R (f a)) -> tops R (m ≫= f).
Proof.
  intros Hm Hf w Hw. unfold mbind, M_bind. destruct (Hm w Hw) as (Ht & Hr & He).
  destruct (m w) as [[a|e] w1] eqn:Em; cbn in *; [|done].
  destruct (Hf _ _ _ Em w1 Ht) as (Ht' & Hr' & He'). split_and!; [done|by etrans|lia].
Qed.
Lemma tops_bind {E A B} (m : M AsWorld E A) (f : A -> M AsWorld E B) :
  tops R m -> (forall a, tops R (f a)) -> tops R (m ≫= f).
Proof. intros Hm Hf. by apply tops_bind_with. Qed.
Lemma tops_map_errM {E F A} (f : E -> F) (m : M AsWorld E A) : tops R m -> tops R (map_errM f m).
Proof.
  intros Hm w Hw. unfold map_errM. specialize (Hm w Hw). by destruct (m w).
Qed.
Lemma tops_transaction `{Oracles} {E A} (g : SqlxError -> E) (body : M AsWorld E A) :
  keeps R body -> tops R (transaction g body).
Proof.
  intros [Ha Hc Hi He] w Hw. unfold transaction, map_errM, begin.
  destruct (db_ok (as_events w)); cbn; [|split_and!; [done|done|lia]].
  set (w1 := set_txn (InTxn (now (as_events w)) false (adb w)) (tick w)).
  specialize (Ha w1). specialize (Hc w1). specialize (Hi w1). specialize (He w1).
  destruct (body w1) as [[a|e] w2]; cbn in *; unfold rollback; unfold committed, in_txn in Hc, Hi;
    destruct (as_txn w2) as [|s b saved] eqn:E2; try done; [|split_and!; [done|done|cbn; lia]].
  unfold commit, rollback. rewrite E2. destruct (db_ok (as_events w2)); cbn; rewrite ?E2;
    [|split_and!; [done|done|cbn; lia]].
  destruct b; split_and!; done || (cbn; lia).
Qed.

End Keeps.

(** Walk through a computation: the structural lemmas, then the hint database,
    then case analysis on the data it branches on. *)
Ltac keeps_step :=
  match goal with
  | |- keeps _ (mret _) => apply keeps_ret; apply _
  | |- keeps _ (throw _) => apply keeps_throw; apply _
  | |- keeps _ (lift _) => apply keeps_lift; apply _
  | |- keeps _ utc_now => apply keeps_now; apply _
  | |- keeps _ draw => apply keeps_draw; apply _
  | |- keeps _ (query _) => apply keeps_query; apply _
  | |- keeps _ (map_errM _ _) => apply keeps_map_errM
  | |- keeps _ (try_ _) => apply keeps_try
  | |- keeps _ (savepoint _ _) => apply keeps_savepoint; [apply _|]
  | |- keeps _ (_ ≫= _) => apply keeps_bind; [apply _| |intros ?]
  | |- keeps _ (match ?x with _ => _ end) => destruct x
  | |- keeps _ _ => solve [auto with keeps]
  | |- tops _ (transaction _ _) => apply tops_transaction; [apply _|]
  | |- tops _ (map_errM _ _) => apply tops_map_errM
  | |- tops _ (mret _) => apply tops_keeps, keeps_ret; apply _
  | |- tops _ (throw _) => apply tops_keeps, keeps_throw; apply _
  | |- tops _ (lift _) => apply tops_keeps, keeps_lift; apply _
  | |- tops _ (query _) => apply tops_keeps, keeps_query; apply _
  | |- tops _ utc_now => apply tops_keeps, keeps_now; apply _
  | |- tops _ (_ ≫= _) => apply tops_bind; [apply _| |intros ?]
  | |- tops _ (match ?x with _ => _ end) => destruct x
  | |- tops _ _ => solve [auto with keeps]
  | |- tops _ _ => apply tops_keeps
  end.
Ltac keeps := repeat keeps_step.

(** ** Transactions *)

(** A computation that stays on its connection: inside a transaction it changes
    neither the transaction nor what a rollback restores. *)
Definition isolated {E A} (m : M AsWorld E A) : Prop :=
  forall w s b saved, as_txn w = InTxn s b saved ->
    exists b', as_txn (m w).2 = InTxn s b' saved.

Section Isolated.

Lemma isolated_same {E A} (m : M AsWorld E A) :
  (forall w, as_txn (m w).2 = as_txn w) -> isolated m.
Proof. intros Hm w s b saved Hw. rewrite Hm. eauto. Qed.
Lemma isolated_ret {E A} (a : A) : isolated (mret a : M AsWorld E A).
Proof. by apply isolated_same. Qed.
Lemma isolated_throw {E A} (e : E) : isolated (throw e : M AsWorld E A).
Proof. by apply isolated_same. Qed.
Lemma isolated_lift {E A} (r : Result E A) : isolated (lift r).
Proof. by apply isolated_same. Qed.
Lemma isolated_now `{Oracles} {E} : isolated (utc_now (E := E)).
Proof. by apply isolated_same. Qed.
Lemma isolated_draw {E} : isolated (draw (E := E)).
Proof. by apply isolated_same. Qed.
Lemma isolated_bind {E A B} (m : M AsWorld E A) (f : A -> M AsWorld E B) :
  isolated m -> (forall a, isolated (f a)) -> isolated (m ≫= f).
Proof.
  intros Hm Hf w s b saved Hw. unfold mbind, M_bind. destruct (Hm w s b saved Hw) as [b1 H1].
  destruct (m w) as [[a|e] w1]; cbn in *; [|by exists b1]. by eapply Hf.
Qed.
Lemma isolated_ext {E A} (m m' : M AsWorld E A) : (forall w, m w = m' w) -> isolated m' -> isolated m.
Proof. intros He Hm w s b saved Hw. rewrite He. by eapply Hm. Qed.
Lemma isolated_map_errM {E F A} (f : E -> F) (m : M AsWorld E A) : isolated m -> isolated (map_errM f m).
Proof. intros Hm w s b saved Hw. specialize (Hm w s b saved Hw). unfold map_errM. by destruct (m w). Qed.
Lemma isolated_try {E F A} (m : M AsWorld E A) : isolated m -> isolated (try_ (F := F) m).
Proof. intros Hm w s b saved Hw. specialize (Hm w s b saved Hw). unfold try_. by destruct (m w). Qed.
Lemma isolated_sql `{Oracles} {A} (f : nat -> TimeStamp -> AsDb -> option (A * AsDb)) : isolated (sql f).
Proof.
  intros w s b saved Hw. unfold sql. rewrite Hw. destruct b; [by exists true|].
  destruct (db_ok _); [|by exists true]. destruct (f _ _ _) as [[a d]|]; [|by exists true].
  exists false. by cbn.
Qed.

End Isolated.

(** For a computation on its own connection it is enough to look at the tables that
    it sees. *)
Lemma keeps_isolated {E A} (R : AsDb -> AsDb -> Prop) `{!Reflexive R} (m : M AsWorld E A) :
  keeps (fun _ _ => True) m -> isolated m -> (forall w, R (adb w) (adb (m w).2)) -> keeps R m.
Proof.
  intros [_ _ Hi He] Hs Hm. split; [done| |done|done]. intros w.
  specialize (Hi w). specialize (Hm w). unfold in_txn, committed in *.
  destruct (as_txn w) as [|s b saved] eqn:Ew.
  - by destruct (as_txn (m w).2).
  - destruct (Hs w s b saved Ew) as [b' ->]. reflexivity.
Qed.

Ltac isolated_step :=
  match goal with
  | |- isolated (mret _) => apply isolated_ret
  | |- isolated (throw _) => apply isolated_throw
  | |- isolated (lift _) => apply isolated_lift
  | |- isolated utc_now => apply isolated_now
  | |- isolated draw => apply isolated_draw
  | |- isolated (sql _) => apply isolated_sql
  | |- isolated (query _) => apply isolated_sql
  | |- isolated (exec _) => apply isolated_sql
  | |- isolated (map_errM _ _) => apply isolated_map_errM
  | |- isolated (try_ _) => apply isolated_try
  | |- isolated (_ ≫= _) => apply isolated_bind; [|intros ?]
  | |- isolated (match ?x with _ => _ end) => destruct x
  | |- isolated _ => solve [auto with keeps]
  end.
Ltac isolated := repeat isolated_step.

(** The state in which the body of a transaction starts. *)
Definition begun `{Oracles} (w : AsWorld) : AsWorld :=
  set_txn (InTxn (now (as_events w)) false (adb w)) (tick w).

Section Transactions.
Context `{Oracles}.

(** A transaction that succeeds has run its body from the given tables; if no
    statement of it failed, what the body did remains, and otherwise the saved
    tables do. *)
Lemma txn_Ok {E A} (g : SqlxError -> E) (body : M AsWorld E A) w a w' :
  transaction g body w = (Ok a, w') ->
  exists w2, body (begun w) = (Ok a, w2) /\ as_txn w' = NoTxn /\ (as_events w2 < as_events w')%nat /\
    match as_txn w2 with
    | InTxn _ true saved => adb w' = saved
    | _ => adb w' = adb w2
    end.
Proof.
  unfold transaction, map_errM, begin. destruct (db_ok (as_events w)) eqn:E1; cbn; [|done].
  fold (begun w). destruct (body (begun w)) as [[x|e] w2] eqn:Eb; [|done].
  unfold commit, rollback. destruct (db_ok (as_events w2)) eqn:E2; cbn; [|done].
  destruct (as_txn w2) as [|s [|] saved] eqn:Et; cbn; rewrite ?Et; intros [= <- <-];
    exists w2; cbn; rewrite ?Et; auto.
Qed.

(** One that fails leaves what a rollback restores. *)
Lemma txn_Err {E A} (g : SqlxError -> E) (body : M AsWorld E A) w e w' :
  (forall w, in_txn (body w).2 = in_txn w) -> as_txn w = NoTxn -> transaction g body w = (Err e, w') ->
  as_txn w' = NoTxn /\
  (adb w' = adb w \/ exists r w2, body (begun w) = (r, w2) /\ adb w' = committed w2).
Proof.
  intros Hi Hn. unfold transaction, map_errM, begin. destruct (db_ok (as_events w)) eqn:E1; cbn.
  2:{ intros [= <- <-]. auto. }
  fold (begun w). specialize (Hi (begun w)).
  destruct (body (begun w)) as [[x|e'] w2] eqn:Eb; cbn in Hi; unfold in_txn in Hi;
    destruct (as_txn w2) as [|s b saved] eqn:Et; try done.
  - unfold commit, rollback. destruct (db_ok (as_events w2)); cbn; rewrite ?Et; [by destruct b|].
    intros [= <- <-]. split; [done|]. right. exists (Ok x), w2. unfold committed. by rewrite Et.
  - intros [= <- <-]. unfold rollback. rewrite Et. split; [done|]. right. exists (Err e'), w2.
    unfold committed. by rewrite Et.
Qed.

(** On its own connection: what the body did remains or nothing does. *)
Lemma txn_isolated_Ok {E A} (g : SqlxError -> E) (body : M AsWorld E A) w a w' :
  isolated body -> transaction g body w = (Ok a, w') ->
  exists w2 b, body (begun w) = (Ok a, w2) /\ as_txn w2 = InTxn (now (as_events w)) b (adb w) /\
    as_txn w' = NoTxn /\ (as_events w2 < as_events w')%nat /\
    adb w' = if b then adb w else adb w2.
Proof.
  intros Hi Ht. apply txn_Ok in Ht as (w2 & Hb & Hn & He & Hd).
  destruct (Hi (begun w) (now (as_events w)) false (adb w) eq_refl) as [b Hw2].
  rewrite Hb in Hw2. cbn in Hw2. rewrite Hw2 in Hd. exists w2, b. by destruct b.
Qed.
Lemma txn_isolated_Err {E A} (g : SqlxError -> E) (body : M AsWorld E A) w e w' :
  isolated body -> as_txn w = NoTxn -> transaction g body w = (Err e, w') ->
  as_txn w' = NoTxn /\ adb w' = adb w.
Proof.
  intros Hi Hn. unfold transaction, map_errM, begin. destruct (db_ok (as_events w)) eqn:E1; cbn.
  2:{ by intros [= <- <-]. }
  fold (begun w). destruct (Hi (begun w) (now (as_events w)) false (adb w) eq_refl) as [b Hw2].
  destruct (body (begun w)) as [[x|e'] w2] eqn:Eb; cbn in Hw2.
  - unfold commit, rollback. cbn. rewrite Hw2. destruct (db_ok (as_events w2)); cbn.
    + by destruct b.
    + by intros [= <- <-].
  - intros [= <- <-]. unfold rollback. rewrite Hw2. done.
Qed.

(** After a statement that succeeded the transaction is not aborted. *)
Lemma sql_not_aborted {A} (f : nat -> TimeStamp -> AsDb -> option (A * AsDb)) w a w' s b saved :
  sql f w = (Ok a, w') -> as_txn w' = InTxn s b saved -> b = false.
Proof.
  unfold sql. destruct (as_txn w) as [|s0 [|] saved0] eqn:Et; [|done|].
  - destruct (db_ok _); [|done]. destruct (f _ _ _) as [[x d]|]; [|done].
    intros [= <- <-]. cbn. congruence.
  - destruct (db_ok _); [|done]. destruct (f _ _ _) as [[x d]|]; [|done].
    intros [= <- <-]. cbn. congruence.
Qed.

End Transactions.
