(* ===== verification/AuthTokensCorrect.v ===== *)
(** * Tokens are redeemed once

    The effect of redeeming, issuing and rotating on the tables; a token that was
    redeemed stays spent, through the rotation of keys and the removal of old
    nonces. *)

From stdpp Require Import sorting.
From S2P Require Import Prelude Aead Messages Credentials ConnectionPackages AuthDb AuthTokens.
From S2P Require Import AuthDbCorrect.

Set Warnings "-clear-no-such-hyp".

(** ** Statements whose errors are swallowed *)

Lemma try_map_inv `{Oracles} {E A B} (m : M AsWorld SqlxError A) (g : Result SqlxError A -> B) w
    (x : Result E B) w' :
  (r ← try_ m; mret (g r)) w = (x, w') -> exists r, m w = (r, w') /\ x = Ok (g r).
Proof.
  unfold mbind, M_bind, try_. destruct (m w) as [r w1]. intros [= <- <-]. eauto.
Qed.

Lemma set_nonces_same d : set_nonces (as_token_nonce (tokens_db d)) d = d.
Proof. by destruct d as [? [] ?]. Qed.
Lemma set_batched_keys_same d : set_batched_keys (as_batched_key (tokens_db d)) d = d.
Proof. by destruct d as [? [] ?]. Qed.

(** The time of a statement. *)
Definition stmt_time `{Oracles} (w : AsWorld) : TimeStamp :=
  match as_txn w with InTxn s _ _ => s | NoTxn => now (as_events w) end.

Section Redeem.
Context `{Oracles} `{PrivacyPassLaws}.

Definition nonces (d : AsDb) : gmap (OperationType * bytes) NonceRow := as_token_nonce (tokens_db d).
Definition keys (d : AsDb) : gmap (OperationType * Z) BatchedKeyRow := as_batched_key (tokens_db d).

(** The tables with a nonce. *)
Definition with_nonce (op : OperationType) (nonce : bytes) (r : NonceRow) (d : AsDb) : AsDb :=
  set_nonces (<[(op, nonce) := r]> (nonces d)) d.

Lemma with_nonce_delete op nonce r d : nonces d !! (op, nonce) = None ->
  set_nonces (delete (op, nonce) (nonces (with_nonce op nonce r d))) (with_nonce op nonce r d) = d.
Proof.
  intros Hn. destruct d as [u [a n k] nm]. unfold with_nonce, set_nonces, set_tokens_db, nonces in *.
  cbn in *. by rewrite delete_insert_id.
Qed.

Lemma reserve_inv {E} op nonce w (x : Result E bool) w' :
  nonce_reserve op nonce w = (x, w') ->
  x = Ok true /\ nonces (adb w) !! (op, nonce) = None /\
    adb w' = with_nonce op nonce {| row_status := NonceReserved; row_nonce_created_at := stmt_time w |} (adb w) \/
  x = Ok false /\ adb w' = adb w.
Proof.
  intros Hr. unfold nonce_reserve in Hr. apply try_map_inv in Hr as (r & Hs & ->).
  unfold exec in Hs. apply sql_inv in Hs as (_ & _ & _ & Hr). destruct r as [b|e].
  - destruct Hr as (_ & _ & t & Hf & Ht). unfold nonces. destruct (as_token_nonce _ !! _) as [row|] eqn:En.
    + injection Hf as <- <-. right. done.
    + injection Hf as <- <-. left. split_and!; [done|done|]. unfold with_nonce, stmt_time, nonces.
      destruct (as_txn w); by subst.
  - right. by destruct Hr as [_ ->].
Qed.

Lemma key_get_inv {E} op id w (x : Result E (option bytes)) w' :
  key_get op id w = (x, w') ->
  adb w' = adb w /\ exists o, x = Ok o /\
    (o = None \/ exists k, keys (adb w) !! (op, id) = Some k /\ o = Some (row_voprf_server k)).
Proof.
  intros Hr. unfold key_get in Hr. apply try_map_inv in Hr as (r & Hs & ->).
  apply query_inv in Hs as (Hd & _ & _ & Hr). split; [done|]. destruct r as [o|e]; [|eauto].
  destruct Hr as [_ ->]. eexists. split; [done|]. unfold keys. destruct (_ !! _); cbn; eauto.
Qed.

(** Committing keeps the row of the nonce. *)
Lemma commit_inv {E} op nonce c d w (x : Result E unit) w' :
  nonce_commit op nonce w = (x, w') ->
  adb w = with_nonce op nonce {| row_status := NonceReserved; row_nonce_created_at := c |} d ->
  x = Ok tt /\ exists st, adb w' = with_nonce op nonce {| row_status := st; row_nonce_created_at := c |} d.
Proof.
  intros Hr Hd. unfold nonce_commit in Hr. apply try_map_inv in Hr as (r & Hs & ->). split; [done|].
  unfold exec in Hs. apply sql_inv in Hs as (_ & _ & _ & Hr). destruct r as [u|e].
  - destruct Hr as (_ & _ & t & Hf & _). injection Hf as _ <-. exists NonceCommitted.
    rewrite Hd. destruct d as [us [a n k] nm].
    unfold with_nonce, on_reserved, set_nonces, set_tokens_db, nonces. cbn.
    rewrite lookup_insert_eq. cbn. rewrite decide_True by done. cbn. by rewrite insert_insert_eq.
  - destruct Hr as [_ ->]. rewrite Hd. eauto.
Qed.

(** Releasing takes the row away, unless the statement fails. *)
Lemma release_inv {E} op nonce c d w (x : Result E unit) w' :
  nonce_release op nonce w = (x, w') -> nonces d !! (op, nonce) = None ->
  adb w = with_nonce op nonce {| row_status := NonceReserved; row_nonce_created_at := c |} d ->
  x = Ok tt /\ (adb w' = d \/ adb w' = adb w).
Proof.
  intros Hr Hn Hd. unfold nonce_release in Hr. apply try_map_inv in Hr as (r & Hs & ->). split; [done|].
  unfold exec in Hs. apply sql_inv in Hs as (_ & _ & _ & Hr). destruct r as [u|e].
  - destruct Hr as (_ & _ & t & Hf & _). injection Hf as _ <-. left.
    rewrite Hd. rewrite <- (with_nonce_delete op nonce
      {| row_status := NonceReserved; row_nonce_created_at := c |} d Hn) at 2.
    destruct d as [us [a n k] nm].
    unfold with_nonce, on_reserved, set_nonces, set_tokens_db, nonces in *. cbn in *.
    rewrite lookup_insert_eq. cbn. by rewrite decide_True.
  - destruct Hr as [_ ->]. by right.
Qed.

Lemma release_then_inv {E A} (v : A) op nonce c d w (x : Result E A) w' :
  (_ ← nonce_release op nonce; mret v) w = (x, w') -> nonces d !! (op, nonce) = None ->
  adb w = with_nonce op nonce {| row_status := NonceReserved; row_nonce_created_at := c |} d ->
  x = Ok v /\ (adb w' = d \/ adb w' = adb w).
Proof.
  intros Hr Hn Hd. unfold mbind, M_bind in Hr. destruct (nonce_release op nonce w) as [z w1] eqn:E1.
  apply (release_inv _ _ c d) in E1 as [-> Hd']; [|done|done]. by injection Hr as <- <-.
Qed.

(** Redeeming a token adds the row of its nonce, at the time of its statement; if it
    succeeds there was no such row, and the token is valid under the key that is
    stored under its key id. *)
Lemma redeem_inv t op w r w' :
  as_redeem_token t op w = (r, w') ->
  ((adb w' = adb w /\ is_ok r = false) \/
   nonces (adb w) !! (op, token_nonce t) = None /\ exists st,
     adb w' = with_nonce op (token_nonce t)
                {| row_status := st; row_nonce_created_at := stmt_time w |} (adb w)) /\
  (r = Ok tt -> exists k, keys (adb w) !! (op, token_key_id t) = Some k /\
     token_valid (row_voprf_server k) t = true).
Proof.
  unfold as_redeem_token. intros Hr. unfold mbind at 1, M_bind at 1 in Hr.
  rewrite redeem_token_steps in Hr. unfold redeem_steps in Hr. unfold mbind at 1, M_bind at 1 in Hr.
  destruct (nonce_reserve op (token_nonce t) w) as [x w1] eqn:E1.
  apply reserve_inv in E1 as [(-> & Hn & Hd1)|[-> Hd1]].
  2:{ cbn in Hr. injection Hr as <- <-. split; [left|]; done. }
  cbv iota beta in Hr. unfold mbind at 1, M_bind at 1 in Hr.
  destruct (key_get op (token_key_id t) w1) as [y w2] eqn:E2.
  apply key_get_inv in E2 as (Hd2 & o & -> & Ho).
  destruct o as [server|]; [destruct (token_valid server t) eqn:Ev|].
  - unfold mbind, M_bind in Hr. destruct (nonce_commit op (token_nonce t) w2) as [z w4] eqn:E3.
    apply (commit_inv _ _ (stmt_time w) (adb w)) in E3 as (-> & st & Hd3); [|by rewrite Hd2, Hd1].
    cbn in Hr. injection Hr as <- <-. split; [right; eauto|]. intros _.
    destruct Ho as [|(k & Hk & [= ->])]; [done|]. exists k. split; [|done]. rewrite <- Hk, Hd1.
    by destruct (adb w) as [? [] ?].
  - match type of Hr with context [(?m w2)] => destruct (m w2) as [x w3] eqn:E3 end.
    apply (release_then_inv _ _ _ (stmt_time w) (adb w)) in E3 as [-> Hd3]; [|done|by rewrite Hd2, Hd1].
    cbn in Hr. injection Hr as <- <-. split; [|done].
    destruct Hd3 as [->| ->]; [by left|right]. rewrite Hd2, Hd1. eauto.
  - match type of Hr with context [(?m w2)] => destruct (m w2) as [x w3] eqn:E3 end.
    apply (release_then_inv _ _ _ (stmt_time w) (adb w)) in E3 as [-> Hd3]; [|done|by rewrite Hd2, Hd1].
    cbn in Hr. injection Hr as <- <-. split; [|done].
    destruct Hd3 as [->| ->]; [by left|right]. rewrite Hd2, Hd1. eauto.
Qed.

End Redeem.

#[export] Instance True_preorder : PreOrder (fun _ _ : AsDb => True).
Proof. by split. Qed.

Section Effects.
Context `{Oracles} `{PrivacyPassLaws} `{Calendar}.

(** *** Stores *)

Lemma keeps_any_sql {A} (f : nat -> TimeStamp -> AsDb -> option (A * AsDb)) :
  keeps (fun _ _ => True) (sql f).
Proof. by apply keeps_sql; [apply _|]. Qed.

#[local] Hint Resolve keeps_any_sql : keeps.
Lemma keeps_any_redeem t op : keeps (fun _ _ => True) (as_redeem_token t op).
Proof.
  unfold as_redeem_token. apply keeps_bind; [apply _| |intros ?; keeps].
  apply (keeps_ext _ _ (redeem_steps (key_get op) (nonce_reserve op) (nonce_commit op) (nonce_release op) t)); [intros w; apply redeem_token_steps|].
  unfold redeem_steps, nonce_reserve, nonce_commit, nonce_release, key_get, exec.
  keeps.
Qed.
Lemma isolated_redeem t op : isolated (as_redeem_token t op).
Proof.
  unfold as_redeem_token. apply isolated_bind; [|intros ?; isolated].
  apply (isolated_ext _ (redeem_steps (key_get op) (nonce_reserve op) (nonce_commit op) (nonce_release op) t)); [intros w; apply redeem_token_steps|].
  unfold redeem_steps, nonce_reserve, nonce_commit, nonce_release, key_get. isolated.
Qed.

(** Redeeming relates the tables if adding the row of a nonce does. *)
Lemma keeps_redeem (R : AsDb -> AsDb -> Prop) `{!PreOrder R} t op :
  (forall d r, nonces d !! (op, token_nonce t) = None -> R d (with_nonce op (token_nonce t) r d)) ->
  keeps R (as_redeem_token t op).
Proof.
  intros HR. apply keeps_isolated; [apply _|apply keeps_any_redeem|apply isolated_redeem|].
  intros w. destruct (as_redeem_token t op w) as [r w'] eqn:Er. cbn.
  apply redeem_inv in Er as [[[-> _]|(Hn & st & ->)] _]; [reflexivity|by apply HR].
Qed.

(** *** Spent tokens *)

(** Tokens of operations other than rotation: keys stay, nonces are added. *)
Definition token_mono (d d' : AsDb) : Prop := keys d' = keys d /\ nonces d ⊆ nonces d'.
#[export] Instance token_mono_preorder : PreOrder token_mono.
Proof.
  split; [done|]. intros a b c [K1 N1] [K2 N2]. split; [congruence|by etrans].
Qed.

(** A token is spent: each stored key under which it is valid was created at least
    [skew] before the nonce of the token was recorded.  A token that no stored key
    validates cannot be redeemed anyway. *)
Definition spent (skew : Z) (op : OperationType) (t : AmortizedToken) (d : AsDb) : Prop :=
  forall id k, keys d !! (op, id) = Some k -> token_valid (row_voprf_server k) t = true ->
    exists r, nonces d !! (op, token_nonce t) = Some r /\
      row_key_created_at k + skew <= row_nonce_created_at r.

Lemma spent_mono skew op t d d' : token_mono d d' -> spent skew op t d -> spent skew op t d'.
Proof.
  intros [Hk Hn] Hs id k Hid Hv. rewrite Hk in Hid. destruct (Hs id k Hid Hv) as (r & Hr & Hle).
  exists r. split; [|done]. by eapply lookup_weaken.
Qed.

(** A spent token is not redeemed again. *)
Lemma spent_not_redeemed skew op t w w' :
  spent skew op t (adb w) -> as_redeem_token t op w <> (Ok tt, w').
Proof.
  intros Hs Hr. apply redeem_inv in Hr as [[[_ [=]]|(Hn & _)] Hv].
  destruct (Hv eq_refl) as (k & Hk & Hval). destruct (Hs _ _ Hk Hval) as (r & Hr & _). congruence.
Qed.

(** A token that is redeemed, after its keys have been there for a while, is spent. *)
Lemma redeemed_spent skew op t w w' :
  (forall id k, keys (adb w) !! (op, id) = Some k -> token_valid (row_voprf_server k) t = true ->
     row_key_created_at k + skew <= stmt_time w) ->
  as_redeem_token t op w = (Ok tt, w') -> spent skew op t (adb w').
Proof.
  intros Hold Hr. apply redeem_inv in Hr as [[[_ [=]]|(Hn & st & Hd)] _].
  intros id k Hk Hv. rewrite Hd in Hk |- *. unfold with_nonce, nonces, keys in *. cbn in *.
  eexists. rewrite lookup_insert_eq. split; [done|]. cbn. by eapply Hold.
Qed.

Lemma token_mono_redeem t op : keeps token_mono (as_redeem_token t op).
Proof.
  apply keeps_redeem; [apply _|]. intros d r Hn. split; [done|].
  unfold with_nonce, nonces. cbn. by apply insert_subseteq.
Qed.

(** *** Rotation *)

(** Inserting a key: it is there with the time of the statement, or nothing
    changed. *)
Lemma key_insert_inv {E} op id server w (x : Result E bool) w' :
  key_insert op id server w = (x, w') ->
  x = Ok true /\ keys (adb w) !! (op, id) = None /\
    adb w' = set_batched_keys (<[(op, id) := {| row_voprf_server := server;
               row_key_created_at := stmt_time w |}]> (keys (adb w))) (adb w) \/
  x = Ok false /\ adb w' = adb w.
Proof.
  intros Hr. unfold key_insert in Hr. apply try_map_inv in Hr as (r & Hs & ->).
  apply sql_inv in Hs as (_ & _ & _ & Hr). destruct r as [b|e].
  - destruct Hr as (_ & _ & t & Hf & Ht). unfold keys. destruct (as_batched_key _ !! _) as [row|] eqn:En;
      [done|]. injection Hf as <- <-. left. split_and!; [done|done|].
    unfold stmt_time. destruct (as_txn w); by subst.
  - right. by destruct Hr as [_ ->].
Qed.

Lemma key_insert_true {E} op id server w w' s b saved :
  key_insert (E := E) op id server w = (Ok true, w') -> as_txn w' = InTxn s b saved -> b = false.
Proof.
  intros Hr. unfold key_insert in Hr. apply try_map_inv in Hr as (r & Hs & Hr).
  destruct r as [x|e]; [|discriminate]. by eapply sql_not_aborted.
Qed.

Lemma insert_first_inv {E} op l w (x : Result E (Result CreateKeypairError unit)) w' s b saved :
  as_txn w = InTxn s b saved ->
  insert_first (key_insert op) l w = (x, w') ->
  adb w' = adb w /\ x = Ok (Err CreateKeypairFailed) \/
  exists id server, (id, server) ∈ l /\ keys (adb w) !! (op, id) = None /\
    as_txn w' = InTxn s false saved /\
    adb w' = set_batched_keys (<[(op, id) := {| row_voprf_server := server;
               row_key_created_at := s |}]> (keys (adb w))) (adb w).
Proof.
  revert w b. induction l as [|[id server] l IH]; intros w b Hw Hr.
  { cbn in Hr. injection Hr as <- <-. by left. }
  cbn [insert_first] in Hr. unfold mbind, M_bind in Hr.
  assert (exists b', as_txn (key_insert (E := E) op id server w).2 = InTxn s b' saved) as [b' Hb'].
  { assert (isolated (key_insert (E := E) op id server)) as Hi by (unfold key_insert; isolated).
    by eapply Hi. }
  destruct (key_insert op id server w) as [y w1] eqn:E1. cbn in Hb'.
  pose proof E1 as E1'. apply key_insert_inv in E1 as [(-> & Hn & Hd)|[-> Hd]].
  - cbn in Hr. injection Hr as <- <-. right. exists id, server. split; [left|].
    split; [done|]. split; [|rewrite Hd; unfold stmt_time; by rewrite Hw].
    pose proof (key_insert_true _ _ _ _ _ _ _ _ E1' Hb') as ->. done.
  - destruct (IH w1 b' Hb' Hr) as [[Hq ->]|(id' & server' & Hin & Hn & Ht & Hq)].
    + left. by rewrite Hq, Hd.
    + right. exists id', server'. rewrite Hd in Hn, Hq. split; [by right|done].
Qed.

(** The tables with a new key. *)
Definition with_key (op : OperationType) (id : Z) (k : BatchedKeyRow) (d : AsDb) : AsDb :=
  set_batched_keys (<[(op, id) := k]> (keys d)) d.

(** The tables after the creation of a key pair between two events. *)
Definition key_added (op : OperationType) (lo hi : nat) (d d' : AsDb) : Prop :=
  exists n m id server, (lo <= n < hi)%nat /\ (lo <= m < hi)%nat /\ (id, server) ∈ keypairs n /\
    keys d !! (op, id) = None /\
    d' = with_key op id {| row_voprf_server := server; row_key_created_at := now m |} d.

Lemma create_keypair_isolated {E} op n : isolated (pp_create_keypair (E := E) n (key_insert op)).
Proof.
  apply (isolated_ext _ (insert_first (key_insert op) (keypairs n))); [intros w; apply create_keypair_steps|].
  induction (keypairs n) as [|[id server] l IH]; cbn [insert_first]; [isolated|].
  apply isolated_bind; [unfold key_insert; isolated|]. intros []; [isolated|done].
Qed.

(** A statement at the top level. *)
Lemma exec_top_inv {A} (f : TimeStamp -> AsDb -> A * AsDb) w r w' :
  as_txn w = NoTxn -> exec f w = (r, w') ->
  as_txn w' = NoTxn /\ as_events w' = S (as_events w) /\
  match r with
  | Ok a => (a, adb w') = f (now (as_events w)) (adb w)
  | Err _ => adb w' = adb w
  end.
Proof.
  intros Hw He. unfold exec in He. apply sql_inv in He as (Hev & _ & Hi & Hr).
  split; [apply in_txn_NoTxn; rewrite Hi; by apply in_txn_NoTxn|]. split; [done|].
  destruct r as [a|e]; [|by destruct Hr as [_ ->]]. rewrite Hw in Hr.
  destruct Hr as (_ & _ & t & [= Hf] & ->). by rewrite Hf.
Qed.

Lemma keeps_any_insert_first {E} op l :
  keeps (fun _ _ => True) (insert_first (E := E) (key_insert op) l).
Proof.
  induction l as [|[id server] l IH]; cbn [insert_first]; [keeps|].
  apply keeps_bind; [apply _| |intros []; [keeps|done]]. unfold key_insert. keeps.
Qed.

Lemma create_key_inv op w r w' : as_txn w = NoTxn ->
  transaction (fun _ => RotateStorage) (
    n ← draw;
    r ← pp_create_keypair n (key_insert op);
    _ ← lift (map_err (fun _ => RotateKeyGeneration) r);
    mret true) w = (r, w') ->
  as_txn w' = NoTxn /\ (as_events w <= as_events w')%nat /\
  match r with
  | Ok b => b = true /\ key_added op (as_events w) (as_events w') (adb w) (adb w')
  | Err _ => adb w' = adb w
  end.
Proof.
  intros Hw. set (body := n ← draw; _).
  assert (isolated body) as Hi.
  { unfold body. isolated_step; [isolated|]. isolated_step; [apply create_keypair_isolated|]. isolated. }
  assert (keeps (fun _ _ => True) body) as Hk.
  { unfold body. apply keeps_bind; [apply _|keeps|intros n].
    apply keeps_bind; [apply _| |intros ?; keeps].
    apply (keeps_ext _ _ (insert_first (key_insert op) (keypairs n))); [intros ?; apply create_keypair_steps|].
    apply keeps_any_insert_first. }
  intros Ht. pose proof (tops_transaction (fun _ _ => True) (fun _ => RotateStorage) body Hk w Hw) as Htop.
  rewrite Ht in Htop. cbn in Htop. destruct Htop as (Hn & _ & Hev). split_and!; [done|done|].
  destruct r as [x|e].
  2:{ by apply txn_isolated_Err in Ht as [_ ->]. }
  apply txn_isolated_Ok in Ht as (w2 & b & Hb & Hw2 & _ & Hlt & Hd); [|done]. unfold body in Hb.
  bindM Hb as n w3 H3. injection H3 as <- <-. bindM Hb as y w4 H4. rewrite create_keypair_steps in H4.
  bindM Hb as u w5 H5. leafM H5. cbn in Hb. injection Hb as <- <-. split; [done|].
  assert (as_events (begun w) < as_events w')%nat as Hev1.
  { assert (as_events (begun w) <= as_events w4)%nat; [|lia].
    pose proof (keeps_any_insert_first (E := RotateKeysError) op (keypairs (S (as_events w)))) as Hk2.
    pose proof (keeps_events _ _ Hk2 (tick (begun w))) as Hm2. rewrite H4 in Hm2. cbn in Hm2. cbn. lia. }
  eapply insert_first_inv in H4 as [[_ [= ->]]|(id & server & Hin & Hnone & Ht4 & Hq)]; [discriminate| |reflexivity].
  rewrite Hw2 in Ht4. injection Ht4 as ->. rewrite Hd.
  exists (as_events (begun w)), (as_events w), id, server. cbn in Hnone, Hq, Hev1 |- *.
  split_and!; [lia|lia|lia|lia|done|done|exact Hq].
Qed.

(** A rotation, from a state without a transaction: perhaps a new key, then the
    DELETE of expired keys at one time and that of expired nonces at a later one; a
    failing statement ends it. *)
Lemma rotate_inv op w r w' : as_txn w = NoTxn ->
  rotate_keys_if_needed_for_operation_type op w = (r, w') ->
  as_txn w' = NoTxn /\ (as_events w <= as_events w')%nat /\
  exists d1, (d1 = adb w \/ key_added op (as_events w) (as_events w') (adb w) d1) /\
    ((adb w' = d1 /\ is_ok r = false) \/
     exists n1, (as_events w <= n1 < as_events w')%nat /\
       ((adb w' = prune_keys op (now n1 - MAX_AGE) d1 /\ is_ok r = false) \/
        exists n2, (n1 < n2 < as_events w')%nat /\
          adb w' = prune_nonces op (now n2 - MAX_AGE) (prune_keys op (now n1 - MAX_AGE) d1) /\
          r = Ok (negb (has_current_key op (now (as_events w)) (adb w))) /\
          (has_current_key op (now (as_events w)) (adb w) = true -> d1 = adb w) /\
          (has_current_key op (now (as_events w)) (adb w) = false ->
             key_added op (as_events w) n1 (adb w) d1))).
Proof.
  intros Hw Hr. unfold rotate_keys_if_needed_for_operation_type in Hr.
  unfold mbind at 1, M_bind at 1, map_errM at 1 in Hr.
  destruct (sql (fun _ t d => Some (negb (has_current_key op t d), d)) w) as [q w1] eqn:E1.
  apply sql_inv in E1 as (He1 & _ & Hi1 & Hq). rewrite Hw in Hq.
  assert (as_txn w1 = NoTxn) as Hw1 by (apply in_txn_NoTxn; rewrite Hi1; by apply in_txn_NoTxn).
  destruct q as [b|e].
  2:{ destruct Hq as [_ Hd]. cbn in Hr. injection Hr as <- <-. split_and!; [done|lia|].
      exists (adb w). split; [by left|]. left. done. }
  destruct Hq as (_ & _ & t & Hf & ->). injection Hf as <- Hd1. cbn [map_err] in Hr.
  unfold mbind at 1, M_bind at 1 in Hr.
  generalize dependent (has_current_key op (now (as_events w)) (adb w)). intros cur Hr.
  match type of Hr with context [(?m w1)] => destruct (m w1) as [q w2] eqn:E2 end.
  assert (as_txn w2 = NoTxn /\ (as_events w1 <= as_events w2)%nat /\
    match q with
    | Ok x => x = negb cur /\ (cur = true -> adb w2 = adb w) /\
        (cur = false -> key_added op (as_events w) (as_events w2) (adb w) (adb w2))
    | Err _ => adb w2 = adb w
    end) as (Hw2 & He2 & Hq).
  { destruct cur; cbn [negb] in E2.
    - injection E2 as <- <-. split_and!; [done|done|done|done|done].
    - apply create_key_inv in E2 as (? & ? & Hq); [|done]. split_and!; [done|done|].
      destruct q as [x|e]; [|by rewrite Hq, Hd1]. destruct Hq as [-> Hk]. split_and!; [done|done|].
      intros _. destruct Hk as (n & m & id & server & ? & ? & Hk). exists n, m, id, server.
      rewrite <- Hd1 in Hk. split_and!; [lia|lia|lia|lia|apply Hk..]. }
  destruct q as [x|e].
  2:{ injection Hr as <- <-. split_and!; [done|lia|]. exists (adb w). split; [by left|]. by left. }
  destruct Hq as (-> & Hcur & Hnew).
  assert (adb w2 = adb w \/ key_added op (as_events w) (as_events w2) (adb w) (adb w2)) as Hd2
    by (destruct cur; auto).
  assert (forall n, (as_events w2 <= n)%nat ->
    adb w2 = adb w \/ key_added op (as_events w) n (adb w) (adb w2)) as Hd2'.
  { intros n Hn. destruct Hd2 as [->|(a & b & id & server & ? & ? & ? & ? & ?)]; [by left|right].
    exists a, b, id, server. split_and!; [lia|lia|lia|lia|done..]. }
  unfold mbind at 1, M_bind at 1, map_errM at 1 in Hr.
  destruct (exec (fun t d => (tt, prune_keys op (t - MAX_AGE) d)) w2) as [q w3] eqn:E3.
  apply exec_top_inv in E3 as (Hw3 & He3 & Hq); [|done]. destruct q as [u|e]; cbn [map_err] in Hr.
  2:{ injection Hr as <- <-. split_and!; [done|lia|]. exists (adb w2). split; [apply Hd2'; lia|]. by left. }
  injection Hq as -> Hd3. unfold mbind at 1, M_bind at 1, map_errM at 1 in Hr.
  destruct (exec (fun t d => (tt, prune_nonces op (t - MAX_AGE) d)) w3) as [q w4] eqn:E4.
  apply exec_top_inv in E4 as (Hw4 & He4 & Hq); [|done]. destruct q as [u|e]; cbn [map_err] in Hr.
  2:{ injection Hr as <- <-. split_and!; [done|lia|]. exists (adb w2). split; [apply Hd2'; lia|]. right.
      exists (as_events w2). split; [lia|]. left. split; [congruence|done]. }
  injection Hq as -> Hd4. injection Hr as <- <-. split_and!; [done|lia|].
  exists (adb w2). split; [apply Hd2'; lia|]. right. exists (as_events w2). split; [lia|]. right.
  exists (as_events w3). split_and!; [lia|lia|congruence|done|done|done].
Qed.

(** Without a stale key that validates it, a new key does not make a token
    redeemable again. *)
Lemma spent_key_added skew op op' t lo hi d d' :
  (forall n id server, (lo <= n)%nat -> (id, server) ∈ keypairs n -> token_valid server t = false) ->
  key_added op' lo hi d d' -> spent skew op t d -> spent skew op t d'.
Proof.
  intros Hfresh (n & m & id & server & Hn & _ & Hin & _ & ->) Hs id' k. unfold with_key, keys at 1. cbn.
  rewrite lookup_insert. case_decide as He; [|by apply Hs].
  intros [= <-]. cbn. by rewrite (Hfresh n id server) by (done || lia).
Qed.

Lemma spent_prune_keys skew op op' t cut d : spent skew op t d -> spent skew op t (prune_keys op' cut d).
Proof.
  intros Hs id k Hk. unfold prune_keys, keys in Hk. cbn in Hk.
  apply map_lookup_filter_Some in Hk as [Hk _]. exact (Hs id k Hk).
Qed.

(** Old nonces are removed only when the keys are gone that they protect against, if
    the two statements are not further apart than [skew]. *)
Lemma spent_prune_nonces skew op op' t c1 c2 d :
  c2 <= c1 + skew -> spent skew op t (prune_keys op' c1 d) ->
  spent skew op t (prune_nonces op' c2 (prune_keys op' c1 d)).
Proof.
  intros Hc Hs id k Hk Hv. change (keys (prune_nonces op' c2 (prune_keys op' c1 d)))
    with (keys (prune_keys op' c1 d)) in Hk.
  destruct (Hs id k Hk Hv) as (r & Hr & Hle). exists r. split; [|done].
  unfold prune_nonces, nonces. cbn. apply map_lookup_filter_Some. split; [exact Hr|]. cbn. intros [-> Hlt].
  unfold prune_keys, keys in Hk. cbn in Hk. apply map_lookup_filter_Some in Hk as [_ Hk]. cbn in Hk.
  apply Hk. split; [done|lia].
Qed.

Context `{!ClockLaws}.

Lemma rotate_spent skew op op' t w r w' :
  as_txn w = NoTxn -> rotate_keys_if_needed_for_operation_type op' w = (r, w') ->
  now (as_events w') - now (as_events w) <= skew ->
  (forall n id server, (as_events w <= n)%nat -> (id, server) ∈ keypairs n -> token_valid server t = false) ->
  spent skew op t (adb w) -> spent skew op t (adb w').
Proof.
  intros Hw Hr Hskew Hfresh Hs. apply rotate_inv in Hr as (_ & _ & d1 & Hd1 & Hcase); [|done].
  assert (spent skew op t d1) as Hs1.
  { destruct Hd1 as [->|Hk]; [done|]. by eapply spent_key_added. }
  destruct Hcase as [[-> _]|(n1 & Hn1 & [[-> _]|(n2 & Hn2 & -> & _)])]; [done|by apply spent_prune_keys|].
  apply spent_prune_nonces; [|by apply spent_prune_keys].
  pose proof (now_mono (as_events w) n1). pose proof (now_mono n2 (as_events w')). lia.
Qed.

Lemma keys_prune_keys op' cut d op id k :
  keys (prune_keys op' cut d) !! (op, id) = Some k <->
  keys d !! (op, id) = Some k /\ ~ (op = op' /\ row_key_created_at k < cut).
Proof. unfold prune_keys, keys. cbn. by rewrite map_lookup_filter_Some. Qed.

Lemma has_current_key_true op t d :
  has_current_key op t d = true <->
  exists id k, keys d !! (op, id) = Some k /\ t - KEY_ROTATION_PERIOD_DAYS * DAY < row_key_created_at k.
Proof.
  unfold has_current_key. rewrite bool_decide_eq_true. split.
  - match goal with |- ?l <> [] -> _ => destruct l as [|[[op' id] k] l'] eqn:El; [done|intros _] end.
    assert (((op', id), k) ∈ ((op', id), k) :: l') as Hin by left. rewrite <- El in Hin.
    apply list_elem_of_filter in Hin as [[Hop Hk] Hin%elem_of_map_to_list]. cbn in *. subst. eauto.
  - intros (id & k & Hk & Ht) Hnil.
    assert (((op, id), k) ∈ @nil ((OperationType * Z) * BatchedKeyRow)) as Hin;
      [|by apply not_elem_of_nil in Hin].
    rewrite <- Hnil. apply list_elem_of_filter. split; [done|]. by apply elem_of_map_to_list.
Qed.

(** A rotation that succeeds, and takes no longer than the overlap window,
    leaves a key that is not stale, keeps every key for the rotation period and the
    overlap window, removes all older ones, creates a key exactly when there was no
    current one, and leaves the other operation types alone. *)
Theorem rotation_exact op w b w' :
  as_txn w = NoTxn -> rotate_keys_if_needed_for_operation_type op w = (Ok b, w') ->
  let start := now (as_events w) in
  let stop := now (as_events w') in
  stop - start <= KEY_OVERLAP_DAYS * DAY ->
  has_current_key op start (adb w') = true /\ b = negb (has_current_key op start (adb w)) /\
  (forall id k, keys (adb w) !! (op, id) = Some k -> stop - MAX_AGE <= row_key_created_at k ->
     keys (adb w') !! (op, id) = Some k) /\
  (forall id k, keys (adb w') !! (op, id) = Some k -> start - MAX_AGE <= row_key_created_at k) /\
  (forall op' id, op' <> op -> keys (adb w') !! (op', id) = keys (adb w) !! (op', id)) /\
  users_db (adb w') = users_db (adb w) /\ names_db (adb w') = names_db (adb w).
Proof.
  intros Hw Hr start stop Hdur. apply rotate_inv in Hr as (_ & _ & d1 & Hd1 & Hcase); [|done].
  destruct Hcase as [[_ [=]]|(n1 & Hn1 & [[_ [=]]|(n2 & Hn2 & Hd & [= ->] & Hcur & Hnew)])].
  fold start in Hcur, Hnew |- *.
  assert (now n1 <= stop /\ start <= now n1) as [Hs1 Hs2] by (split; apply now_mono; lia).
  assert (forall id k, keys (adb w') !! (op, id) = Some k <->
    keys d1 !! (op, id) = Some k /\ now n1 - MAX_AGE <= row_key_created_at k) as Hk.
  { intros id k. rewrite Hd. change (keys (prune_nonces _ _ ?d)) with (keys d).
    rewrite keys_prune_keys.
    split; intros [? Hn]; (split; [done|]); [apply Z.nlt_ge; intros ?; by apply Hn|intros [_ ?]; lia]. }
  assert (forall op' id, op' <> op -> keys (adb w') !! (op', id) = keys d1 !! (op', id)) as Hother.
  { intros op' id Hne. rewrite Hd. apply option_eq. intros k.
    change (keys (prune_nonces _ _ ?d)) with (keys d). rewrite keys_prune_keys. naive_solver. }
  assert (forall op' id k, keys (adb w) !! (op', id) = Some k -> keys d1 !! (op', id) = Some k) as Hsub.
  { destruct Hd1 as [->|(n & m & id0 & server & _ & _ & _ & Hnone & ->)]; [done|].
    intros op' id k Hk'. unfold with_key, keys. cbn. rewrite lookup_insert. case_decide; [congruence|done]. }
  unfold MAX_AGE, KEY_ROTATION_PERIOD_DAYS, KEY_OVERLAP_DAYS in *.
  split_and!; [|done| | | |by destruct Hd1 as [->|(? & ? & ? & ? & _ & _ & _ & _ & ->)]; rewrite Hd|
               by destruct Hd1 as [->|(? & ? & ? & ? & _ & _ & _ & _ & ->)]; rewrite Hd].
  - apply has_current_key_true. unfold KEY_ROTATION_PERIOD_DAYS.
    destruct (has_current_key op start (adb w)) eqn:Ec.
    + apply has_current_key_true in Ec as (id & k & Hid & Hage). unfold KEY_ROTATION_PERIOD_DAYS in Hage.
      exists id, k. rewrite Hk. split; [|done]. split; [by apply Hsub|lia].
    + destruct (Hnew eq_refl) as (n & m & id & server & _ & Hm & _ & _ & ->).
      pose proof (now_mono (as_events w) m) as Hm1. pose proof (now_mono m n1) as Hm2.
      exists id, {| row_voprf_server := server; row_key_created_at := now m |}. rewrite Hk.
      unfold with_key, keys. cbn. rewrite lookup_insert_eq. unfold DAY, MINUTE, SECOND in *.
      split_and!; [done|lia|lia].
  - intros id k Hid Hage. apply Hk. split; [by apply Hsub|lia].
  - intros id k [_ Hage]%Hk. lia.
  - intros op' id Hne. rewrite (Hother op' id Hne).
    destruct Hd1 as [->|(n & m & id0 & server & _ & _ & _ & Hnone & ->)]; [done|].
    unfold with_key, keys. cbn. by rewrite lookup_insert_ne by congruence.
Qed.

End Effects.
#[export] Hint Resolve token_mono_redeem isolated_redeem : keeps.
