(* ===== verification/AuthEffects.v ===== *)
(** * What the operations of the authentication service can change

    The abstract specification of the service: a list of elementary effects on its
    tables, each with the condition under which it may happen.  An operation is a
    sequence of the effects that it is allowed, whatever fails on the way. *)

From stdpp Require Import sorting.
From S2P Require Import Prelude Aead Signatures Messages Grpc PgTask RateLimiter Credentials.
From S2P Require Import ConnectionPackages AuthDb AuthTokens AuthUsers AuthNames AuthGrpc.
From S2P Require Import AuthDbCorrect AuthTokensCorrect.

Set Warnings "-clear-no-such-hyp".

(** ** Effects *)

Inductive Label :=
| LCode
| LRedeem (c : string)
| LUserNew (u : UserId)
| LUserProfile (u : UserId)
| LUserDelete (u : UserId)
| LClientNew (u : UserId)
| LSigningKeys
| LAllowance (u : UserId) (op : OperationType)
| LNonce (op : OperationType)
| LKeys (op : OperationType)
| LNameNew (h : UsernameHash)
| LNameTake (h : UsernameHash)
| LNameRefresh (h : UsernameHash)
| LNameDelete (h : UsernameHash)
| LPackages (h : UsernameHash)
| LPackageTaken (h : UsernameHash)
| LOffer (h : UsernameHash)
| LFetch (h : UsernameHash)
| LAck (id : Uuid).

Section Effects.
Context `{Oracles} `{PrivacyPass} `{Calendar}.
Context `{SignatureScheme} `{!TlsCodec SignContent}.
Context `{!TlsCodec ConnectionPackageV1Payload} `{!TlsCodec ConnectionPackagePayload}.

Definition codes (d : AsDb) := invitation_code (users_db d).
Definition users (d : AsDb) := as_user_record (users_db d).
Definition clients (d : AsDb) := as_client_record (users_db d).
Definition allowances (d : AsDb) := as_token_allowance (tokens_db d).
Definition handles (d : AsDb) := as_user_handle (names_db d).
Definition offers (d : AsDb) := as_user_handles_queue (names_db d).
Definition packages (d : AsDb) := handle_connection_package (names_db d).

(** An allowance within the maximum of its operation type. *)
Definition allowance_ok (op : OperationType) (r : AllowanceRow) : Prop :=
  0 <= row_remaining r <= max_tokens_allowance op.

Inductive effect : Label -> AsDb -> AsDb -> Prop :=
| eff_code c t d : codes d !! c = None -> validate_code c = true ->
    effect LCode d
      (set_invitation_codes (<[c := {| inv_redeemed := false; inv_created_at := t |}]> (codes d)) d)
| eff_redeem c t d : validate_code c = true ->
    effect (LRedeem c) d (save_code {| code := c; redeemed := true |} t d)
| eff_user_new u r d : users d !! u = None ->
    effect (LUserNew u) d (set_user_records (<[u := r]> (users d)) d)
| eff_user_profile u r d : is_Some (users d !! u) ->
    effect (LUserProfile u) d (set_user_records (<[u := r]> (users d)) d)
| eff_user_delete u d : effect (LUserDelete u) d (delete_user_rows u d)
| eff_client_new u r d :
    clients d !! user_uuid u = None -> is_Some (users d !! u) -> row_user_domain r = user_domain u ->
    effect (LClientNew u) d (set_client_records (<[user_uuid u := r]> (clients d)) d)
| eff_signing_keys ks d : effect LSigningKeys d (set_signing_keys ks d)
| eff_allowance_new u op t d : allowances d !! (u, op) = None -> is_Some (users d !! u) ->
    effect (LAllowance u op) d (set_allowances
      (<[(u, op) := {| row_remaining := as_i16 (max_tokens_allowance op);
                       row_valid_until := t |}]> (allowances d)) d)
| eff_allowance u op r d : is_Some (allowances d !! (u, op)) ->
    (forall r', allowances d !! (u, op) = Some r' -> allowance_ok op r' -> allowance_ok op r) ->
    effect (LAllowance u op) d (set_allowances (<[(u, op) := r]> (allowances d)) d)
| eff_nonce op n r d : nonces d !! (op, n) = None -> effect (LNonce op) d (with_nonce op n r d)
| eff_key op id r d : keys d !! (op, id) = None ->
    effect (LKeys op) d (set_batched_keys (<[(op, id) := r]> (keys d)) d)
| eff_prune_keys op cut d : effect (LKeys op) d (prune_keys op cut d)
| eff_prune_nonces op cut d : effect (LKeys op) d (prune_nonces op cut d)
| eff_name_new h r d : handles d !! h = None ->
    effect (LNameNew h) d (set_handles (<[h := r]> (handles d)) d)
| eff_name_take h r d : is_Some (handles d !! h) ->
    effect (LNameTake h) d (set_handles (<[h := r]> (handles d)) d)
| eff_name_refresh h r e d : handles d !! h = Some r ->
    effect (LNameRefresh h) d (set_handles
      (<[h := {| row_verifying_key := row_verifying_key r; row_expiration_data := e |}]> (handles d)) d)
| eff_name_delete h d : effect (LNameDelete h) d (delete_username_rows h d)
| eff_packages h cps d : is_Some (handles d !! h) ->
    Forall (fun cp => connection_package_verify cp = Ok cp) cps ->
    effect (LPackages h) d (set_connection_packages (insert_connection_packages h cps (packages d)) d)
| eff_package_taken h n d :
    effect (LPackageTaken h) d (set_connection_packages (take_connection_package n h (packages d)).2 d)
| eff_offer h id m t d : offers d !! id = None -> is_Some (handles d !! h) -> message_id m = Some id ->
    effect (LOffer h) d (set_handles_queue
      (<[id := {| row_hash := h; row_message := m; row_fetched_by := None; row_created_at := t |}]>
         (offers d)) d)
| eff_notify h d : effect (LOffer h) d (add_name_notified h d)
| eff_fetch h n by_ limit d :
    effect (LFetch h) d (set_handles_queue
      (foldl (mark_fetched by_) (offers d) (messages_to_fetch n h by_ limit (offers d))) d)
| eff_ack id d : effect (LAck id) d (set_handles_queue (delete id (offers d)) d).

Definition reach (L : Label -> Prop) : AsDb -> AsDb -> Prop :=
  rtc (fun d d' => exists l, L l /\ effect l d d').
#[export] Instance reach_preorder L : PreOrder (reach L).
Proof. apply _. Qed.

Lemma reach_once L l d d' : L l -> effect l d d' -> reach L d d'.
Proof. intros Hl He. apply rtc_once. eauto. Qed.
Lemma reach_sub (L L' : Label -> Prop) d d' : (forall l, L l -> L' l) -> reach L d d' -> reach L' d d'.
Proof. intros Hs. apply rtc_subrel. intros x y (l & Hl & He). eauto. Qed.

(** An invariant of the effects is an invariant of what is reached by them. *)
Lemma reach_inv L (I : AsDb -> Prop) d d' :
  (forall l x y, L l -> effect l x y -> I x -> I y) -> reach L d d' -> I d -> I d'.
Proof. intros Hstep Hr. induction Hr as [|x y z (l & Hl & He) _ IH]; [done|]. intros Hx. apply IH. by eapply Hstep. Qed.
(** And a preorder that contains the effects contains what is reached. *)
Lemma reach_rel L (R : AsDb -> AsDb -> Prop) `{!PreOrder R} d d' :
  (forall l x y, L l -> effect l x y -> R x y) -> reach L d d' -> R d d'.
Proof. intros Hstep Hr. induction Hr as [|x y z (l & Hl & He) _ IH]; [done|]. etrans; [by eapply Hstep|done]. Qed.

End Effects.

(** A statement with at most one effect, which is among the labels. *)
Ltac one_effect Hl :=
  first [apply keeps_sql; [apply _|]; intros ?n ?t ?d ?a ?d'; cbv zeta; intros ?Hf
        |apply keeps_exec; [apply _|]; intros ?t ?d; cbv zeta];
  repeat case_match; simplify_eq; cbn [snd];
  first [reflexivity | eapply reach_once; [exact Hl|]; by econstructor].

Section Footprints.
Context `{Oracles} `{PrivacyPass} `{!PrivacyPassLaws} `{Calendar} `{Argon2}.
Context `{Sha256} `{SignatureScheme} `{CredentialCodecs}.
Context `{!TlsCodec ConnectionPackageV1Payload} `{!TlsCodec ConnectionPackagePayload}.
Context (L : Label -> Prop).

(** *** Invitation codes *)

Lemma in_alphabet_get n : (n < String.length ALPHABET)%nat ->
  in_alphabet (default Ascii.zero (String.get n ALPHABET)) = true.
Proof.
  intros Hn. assert (forallb (fun n => in_alphabet (default Ascii.zero (String.get n ALPHABET)))
    (seq 0 (String.length ALPHABET)) = true) as Hall by (vm_compute; reflexivity).
  rewrite forallb_forall in Hall. apply Hall, in_seq. lia.
Qed.
Lemma generate_chars_valid {E} n w c w' :
  generate_chars (E := E) n w = (Ok c, w') ->
  String.length c = n /\ forallb in_alphabet (String.list_ascii_of_string c) = true.
Proof.
  revert w c w'. induction n as [|n IH]; intros w c w' Hg; cbn [generate_chars] in Hg.
  - injection Hg as <- <-. done.
  - bindM Hg as r w1 Hr. bindM Hg as s w2 Hs. injection Hg as <- <-. apply IH in Hs as [Hl Hf].
    cbn [String.length String.list_ascii_of_string forallb]. rewrite Hl, Hf. split; [done|].
    apply andb_true_intro. split; [|done].
    apply (in_alphabet_get (rng r mod String.length ALPHABET)), Nat.mod_upper_bound. done.
Qed.
Lemma generate_code_valid {E} w c w' : generate_code (E := E) w = (Ok c, w') -> validate_code c = true.
Proof.
  intros [Hl Hf]%generate_chars_valid. unfold validate_code. rewrite Hl, Hf. by rewrite bool_decide_eq_true_2.
Qed.
Lemma keeps_generate_chars R `{!PreOrder R} {E} n : keeps R (generate_chars (E := E) n).
Proof. induction n as [|n IH]; cbn [generate_chars]; keeps. Qed.
Lemma keeps_generate : L LCode -> keeps (reach L) invitation_generate.
Proof.
  intros Hl. unfold invitation_generate. cbn [generate_loop].
  apply keeps_bind_with; [apply _|by apply keeps_generate_chars, _|]. intros c w w' Hc%generate_code_valid.
  apply keeps_bind; [apply _| |intros []; keeps]. one_effect Hl.
Qed.
Lemma keeps_save c : L (LRedeem c) -> validate_code c = true ->
  keeps (reach L) (invitation_save {| code := c; redeemed := true |}).
Proof. intros Hl Hv. apply keeps_pool_write; [apply _|]. intros t d.
  eapply reach_once; [exact Hl|]. by constructor. Qed.

(** *** Users and clients *)

Lemma keeps_user_row u : L (LUserProfile (ur_user_id u)) -> keeps (reach L) (user_update u).
Proof. intros Hl. one_effect Hl. Qed.
Lemma keeps_user_new u p : L (LUserNew u) -> keeps (reach L) (user_new_and_store u p).
Proof. intros Hl. unfold user_new_and_store. keeps_step; [one_effect Hl|keeps]. Qed.
Lemma keeps_user_delete u : L (LUserDelete u) -> keeps (reach L) (user_delete u).
Proof. intros Hl. one_effect Hl. Qed.
Lemma keeps_client_new c : L (LClientNew (cc_user_id c)) -> keeps (reach L) (client_new_and_store c).
Proof.
  intros Hl. unfold client_new_and_store, client_store. cbn [cr_credential].
  keeps_step; [keeps|]. keeps_step; [|keeps]. keeps_step; [keeps|]. keeps_step. one_effect Hl.
Qed.

(** *** Signing keys *)

Lemma keeps_signing_keys {A} (f : TimeStamp -> AsDb -> A) (g : AsDb -> list SigningKeyRow) :
  L LSigningKeys -> keeps (reach L) (exec (fun t d => (f t d, set_signing_keys (g d) d))).
Proof. intros Hl. one_effect Hl. Qed.

(** *** Tokens *)

Lemma keeps_allowance_new u op t : L (LAllowance u op) ->
  keeps (reach L) (allowance_ensure_exists u op t).
Proof. intros Hl. one_effect Hl. Qed.
Lemma keeps_redeem_effect t op : L (LNonce op) -> keeps (reach L) (as_redeem_token t op).
Proof.
  intros Hl. apply keeps_redeem; [apply _|]. intros d r Hn. eapply reach_once; [exact Hl|]. by constructor.
Qed.
Lemma keeps_issue R `{!PreOrder R} {E} op r :
  keeps R (pp_issue_token_response (E := E) (key_get op) r).
Proof.
  apply (keeps_ext _ _ (issue_steps (key_get op) r)); [intros w; apply issue_token_response_steps|].
  unfold issue_steps, key_get. keeps.
Qed.

(** *** Usernames *)

Lemma keeps_username_store r : L (LNameNew (username_hash r)) -> keeps (reach L) (username_store r).
Proof. intros Hl. one_effect Hl. Qed.
Lemma keeps_username_update r : L (LNameTake (username_hash r)) -> keeps (reach L) (username_update r).
Proof. intros Hl. one_effect Hl. Qed.
Lemma keeps_update_expiration h e : L (LNameRefresh h) -> keeps (reach L) (update_expiration_data h e).
Proof. intros Hl. one_effect Hl. Qed.
Lemma keeps_username_delete h : L (LNameDelete h) -> keeps (reach L) (username_delete h).
Proof. intros Hl. one_effect Hl. Qed.
Lemma keeps_load_for_username h : L (LPackageTaken h) -> keeps (reach L) (load_for_username h).
Proof. intros Hl. unfold load_for_username. keeps_step; [one_effect Hl|keeps]. Qed.
Lemma keeps_name_fetch h by_ limit : L (LFetch h) -> keeps (reach L) (name_fetch_into h by_ limit).
Proof. intros Hl. one_effect Hl. Qed.
Lemma keeps_name_ack id : L (LAck id) -> keeps (reach L) (name_ack id).
Proof. intros Hl. unfold name_ack. keeps_step. one_effect Hl. Qed.
Lemma tops_name_enqueue h p : L (LOffer h) -> tops (reach L) (name_enqueue h p).
Proof.
  intros Hl. unfold name_enqueue. keeps_step. keeps_step; [keeps|]. keeps_step; [keeps_step; one_effect Hl|].
  keeps_step; [keeps_step; one_effect Hl|keeps].
Qed.
Lemma tops_publish h cps : L (LPackages h) ->
  tops (reach L) (as_publish_connection_packages_for_handle h cps).
Proof.
  intros Hl. unfold as_publish_connection_packages_for_handle.
  apply tops_bind_with; [apply _|keeps|]. intros verified w w' Hv. leafM Hv.
  assert (Forall (fun cp => connection_package_verify cp = Ok cp) verified) as Hall.
  { clear -Hv. revert verified Hv. induction cps as [|cp cps IH]; intros verified Hv; cbn in Hv.
    - by inv_ok.
    - inv_ok. constructor; [|by apply IH].
      pose proof (connection_package_verify_Ok _ _ Hm) as ->. done. }
  keeps_step. apply tops_keeps. one_effect Hl.
Qed.

(** *** Operations *)

Lemma keeps_redeem_optional {E} (f : RedeemTokenError -> E) o :
  L (LNonce AddUsername) -> keeps (reach L) (redeem_optional f o).
Proof. intros Hl. destruct o; cbn [redeem_optional]; keeps. by apply keeps_redeem_effect. Qed.

Lemma tops_create key s h o :
  L (LNonce AddUsername) -> L (LNameNew h) -> L (LNameTake h) ->
  tops (reach L) (as_create_username key s h o).
Proof.
  intros H1' H2' H3'. unfold as_create_username.
  keeps_step. keeps_step; [by apply keeps_redeem_optional|]. keeps;
    unfold load_expiration_data_for_update, load_expiration_data; keeps.
  - by apply keeps_username_update.
  - by apply keeps_username_store.
Qed.
Lemma tops_refresh h o : L (LNonce AddUsername) -> L (LNameRefresh h) ->
  tops (reach L) (as_refresh_username h o).
Proof.
  intros H1' H2'. unfold as_refresh_username.
  keeps_step. keeps_step; [by apply keeps_redeem_optional|]. keeps;
    unfold load_expiration_data_for_update, load_expiration_data; keeps.
  by apply keeps_update_expiration.
Qed.

Lemma as_i16_allowance op x : 0 <= x <= max_tokens_allowance op -> as_i16 x = x.
Proof. intros Hx. unfold as_i16. destruct op; cbn in Hx; rewrite Z.mod_small; lia. Qed.

(** The row that an issuance writes is within bounds if the loaded one is. *)
Lemma allowance_step_ok op r a t n :
  allowance_ok op r -> ta_remaining a = as_u16 (row_remaining r) -> 0 <= n ->
  allowance_ok op {| row_remaining := as_i16 (sat_sub (ta_remaining (renewed a op t)) n);
                     row_valid_until := ta_valid_until (renewed a op t) |}.
Proof.
  intros [Hlo Hhi] Ha Hn. unfold allowance_ok. cbn [row_remaining].
  assert (0 <= ta_remaining (renewed a op t) <= max_tokens_allowance op) as Hr.
  { unfold renewed. destruct (is_valid_at a t); cbn; [|destruct op; cbn; lia].
    rewrite Ha. unfold as_u16. destruct op; cbn in *; rewrite Z.mod_small; lia. }
  rewrite (as_i16_allowance op); unfold sat_sub; lia.
Qed.

(** The transaction of [as_issue_tokens]. *)
Definition issue_body (u : UserId) (op : OperationType) (req : TokenRequest) (at_ : TimeStamp) :
    M AsWorld IssueTokensError TokenResponse :=
  loaded ← map_errM (fun _ => IssueStorageError) (allowance_load_for_update u op);
  let token_allowance := renewed loaded op at_ in
  _ ← lift (check_allowance token_allowance op (as_u16 (nr req)) at_);
  response ← pp_issue_token_response (key_get op) req;
  token_response ← lift (map_err (fun _ => PrivacyPassError) response);
  _ ← map_errM (fun _ => IssueStorageError) (allowance_update
        {| ta_operation_type := ta_operation_type token_allowance;
           ta_remaining := sat_sub (ta_remaining token_allowance) (as_u16 (nr req));
           ta_valid_until := ta_valid_until token_allowance |} u);
  mret token_response.

(** An allowance as it is loaded. *)
Definition allowance_of (op : OperationType) (r : AllowanceRow) : TokenAllowance :=
  {| ta_operation_type := op; ta_remaining := as_u16 (row_remaining r);
     ta_valid_until := row_valid_until r |}.
(** The row after [n] tokens were issued at [t]. *)
Definition charged_row (op : OperationType) (r : AllowanceRow) (n : Z) (t : TimeStamp) : AllowanceRow :=
  let a := renewed (allowance_of op r) op t in
  {| row_remaining := as_i16 (sat_sub (ta_remaining a) n); row_valid_until := ta_valid_until a |}.

Lemma renewed_type a op t : ta_operation_type (renewed a op t) = ta_operation_type a.
Proof. unfold renewed. by destruct (is_valid_at a t). Qed.

Lemma load_for_update_inv u op w r w' :
  allowance_load_for_update u op w = (r, w') -> adb w' = adb w /\
  match r with
  | Ok a => exists row, allowances (adb w) !! (u, op) = Some row /\ a = allowance_of op row
  | Err _ => True
  end.
Proof.
  unfold allowance_load_for_update, mbind, M_bind, lift. intros Hl.
  destruct (query _ w) as [q w1] eqn:E1. apply query_inv in E1 as (Hd1 & _ & _ & Hq).
  destruct q as [o|e]; [|by injection Hl as <- <-]. destruct Hq as [_ ->].
  fold (allowances (adb w)) in Hl. destruct (allowances (adb w) !! (u, op)) as [row|] eqn:Er;
    injection Hl as <- <-; eauto.
Qed.

Lemma issue_body_inv u op req t w r w' :
  issue_body u op req t w = (r, w') ->
  (adb w' = adb w /\ is_ok r = false) \/
  exists row, allowances (adb w) !! (u, op) = Some row /\
    check_allowance (renewed (allowance_of op row) op t) op (as_u16 (nr req)) t = Ok tt /\
    is_ok r = true /\ (forall s b saved, as_txn w' = InTxn s b saved -> b = false) /\
    adb w' = set_allowances (<[(u, op) := charged_row op row (as_u16 (nr req)) t]> (allowances (adb w))) (adb w).
Proof.
  intros Hb. unfold issue_body in Hb. unfold mbind at 1, M_bind at 1, map_errM at 1 in Hb.
  destruct (allowance_load_for_update u op w) as [q w1] eqn:E1. apply load_for_update_inv in E1 as (Hd1 & Hq).
  destruct q as [o|e]; [|injection Hb as <- <-; by left]. destruct Hq as (row & Er & ->).
  cbn [map_err] in Hb.
  unfold mbind at 1, M_bind at 1, lift at 1 in Hb.
  destruct (check_allowance _ op (as_u16 (nr req)) t) as [[]|e] eqn:Ec; [|injection Hb as <- <-; by left].
  unfold mbind at 1, M_bind at 1 in Hb. rewrite issue_token_response_steps in Hb.
  unfold issue_steps, mbind at 1, M_bind at 1 in Hb.
  destruct (key_get op (request_key_id req) w1) as [k w2] eqn:E2.
  apply key_get_inv in E2 as (Hd2 & ok & -> & _). cbn [mret M_ret] in Hb.
  unfold mbind at 1, M_bind at 1, lift at 1 in Hb.
  destruct (map_err _ (ok_or PpIssueFailed _)) as [resp|e]; [|injection Hb as <- <-; left; by rewrite Hd2].
  unfold mbind at 1, M_bind at 1, map_errM in Hb. unfold allowance_update in Hb.
  destruct (exec _ w2) as [x w3] eqn:E3. unfold exec in E3.
  pose proof E3 as E4. apply sql_inv in E3 as (_ & _ & _ & Hx). cbn [ta_operation_type] in Hx.
  rewrite renewed_type in Hx. cbn [ta_operation_type allowance_of] in Hx.
  destruct x as [[]|e]; cbn [map_err] in Hb; injection Hb as <- <-.
  - destruct Hx as (_ & _ & s & Hf & _). right. exists row. split_and!; [done|done|done| |].
    + intros s' b saved Hs. by eapply sql_not_aborted.
    + rewrite Hd2, Hd1 in Hf. fold (allowances (adb w)) in Hf. rewrite Er in Hf. by injection Hf as <-.
  - left. split; [|done]. destruct Hx as [_ ->]. by rewrite Hd2.
Qed.

Lemma isolated_issue u op req t : isolated (issue_body u op req t).
Proof.
  unfold issue_body, allowance_load_for_update, allowance_update. repeat isolated_step.
  apply (isolated_ext _ (issue_steps (key_get op) req)); [intros w; apply issue_token_response_steps|].
  unfold issue_steps, key_get. isolated.
Qed.

Lemma keeps_issue_body u op req t : L (LAllowance u op) -> keeps (reach L) (issue_body u op req t).
Proof.
  intros Hl. apply keeps_isolated; [apply _| |apply isolated_issue|].
  - unfold issue_body, allowance_load_for_update, allowance_update. keeps; [apply keeps_issue; apply _|].
    by apply keeps_exec; [apply _|].
  - intros w. destruct (issue_body u op req t w) as [r w'] eqn:E. cbn.
    apply issue_body_inv in E as [[-> _]|(row & Hr & _ & _ & _ & ->)]; [done|].
    eapply reach_once; [exact Hl|]. apply eff_allowance; [by rewrite Hr|].
    intros r' Hr' Hok. rewrite Hr in Hr'. injection Hr' as <-. eapply allowance_step_ok; [done|done|].
    unfold as_u16. apply Z.mod_pos_bound. lia.
Qed.

Lemma tops_issue u op req : L (LAllowance u op) -> tops (reach L) (as_issue_tokens u op req).
Proof.
  intros Hl. unfold as_issue_tokens. do 4 (keeps_step; [keeps; by apply keeps_allowance_new|]).
  keeps_step. by apply keeps_issue_body.
Qed.

Lemma tops_register (invitation_only : bool) params c :
  let u := ccsr_user_id (ccp_csr (client_payload params)) in
  L (LUserNew u) -> L (LClientNew u) ->
  (forall r, c = Some r -> L (LRedeem (code r)) /\ validate_code (code r) = true) ->
  tops (reach L) (as_init_user_registration invitation_only params c).
Proof.
  intros u Hu Hc Hr. unfold as_init_user_registration, user_load. cbv zeta. do 3 (keeps_step; [keeps|]). keeps_step; [keeps|].
  keeps_step; [keeps|]. keeps_step; [unfold intermediate_key_load, load_active; keeps|].
  keeps_step; [keeps|]. apply tops_bind_with; [apply _|keeps|]. intros cc w w' Hcc. leafM Hcc. inv_ok.
  assert (cc_user_id cc = u) as Hcu.
  { unfold client_payload_sign in Hcc. apply bind_Some in Hcc as (bs & _ & (s & _ & [= <-])%bind_Some). done. }
  keeps_step. keeps_step; [keeps; apply keeps_user_new; by rewrite Hcu|].
  keeps_step; [keeps; apply keeps_client_new; by rewrite Hcu|].
  keeps_step; [|keeps]. destruct c as [r|]; [|keeps]. keeps_step. destruct (Hr r eq_refl). by apply keeps_save.
Qed.

Lemma keeps_initialize_keys domain : L LSigningKeys ->
  keeps (reach L) (
    active ← map_errM (fun _ => CreationDatabase) as_key_load;
    match active with
    | Some _ => mret tt
    | None =>
        _ ← map_errM (fun _ => CreationInit)
              (generate_store_and_activate domain DEFAULT_SIGNATURE_SCHEME);
        _ ← map_errM (fun _ => CreationInit)
              (generate_sign_and_activate domain DEFAULT_SIGNATURE_SCHEME);
        mret tt
    end).
Proof.
  intros Hl. unfold as_key_load, generate_store_and_activate, generate_sign_and_activate,
    generate_intermediate, load_active, as_key_store, intermediate_key_store, store_signing_key,
    as_key_activate, intermediate_key_activate, as_key_load, load_active.
  keeps; by apply (keeps_signing_keys (fun _ _ => tt)).
Qed.

(** *** Rotation *)

Lemma tops_rotate op : L (LKeys op) -> tops (reach L) (rotate_keys_if_needed_for_operation_type op).
Proof.
  intros Hl w Hw. destruct (rotate_keys_if_needed_for_operation_type op w) as [r w'] eqn:E. cbn.
  apply rotate_inv in E as (Hn & He & d1 & Hd1 & Hcase); [|done]. split_and!; [done| |done].
  assert (reach L (adb w) d1) as Hd.
  { destruct Hd1 as [->|(n & m & id & server & _ & _ & _ & Hnone & ->)]; [done|].
    eapply reach_once; [exact Hl|]. by apply eff_key. }
  destruct Hcase as [[-> _]|(n1 & Hn1 & [[-> _]|(n2 & Hn2 & -> & _)])]; [done| |].
  - etrans; [done|]. eapply reach_once; [exact Hl|]. constructor.
  - etrans; [done|]. etrans; (eapply reach_once; [exact Hl|]; constructor).
Qed.
Lemma tops_rotate_all ops : (forall op, op ∈ ops -> L (LKeys op)) -> tops (reach L) (rotate_all ops).
Proof.
  induction ops as [|op ops IH]; intros Hl; cbn [rotate_all]; [keeps|].
  keeps_step; [apply tops_rotate, Hl; by left|]. keeps_step; [|keeps].
  apply IH. intros op' Hop. apply Hl. by right.
Qed.

Lemma tops_refresh_expiring before :
  (forall h, L (LNameRefresh h)) -> tops (reach L) (username_refresh_expiring before).
Proof.
  intros Hl. unfold username_refresh_expiring. keeps_step. keeps_step; [unfold username_load_all; keeps|].
  match goal with |- keeps _ (refresh_records _ ?l) => induction l as [|r l IH] end;
    cbn [refresh_records]; keeps; by apply keeps_update_expiration.
Qed.

Lemma keeps_issue_codes tokens : L (LNonce GetInviteCode) -> L LCode ->
  keeps (reach L) (issue_codes tokens).
Proof.
  intros H1' H2'. induction tokens as [|t tokens IH]; cbn [issue_codes]; [keeps|].
  keeps_step; [keeps; by apply keeps_redeem_effect|]. keeps_step; [|done].
  keeps_step; [keeps; by apply keeps_generate|]. keeps_step; [done|keeps].
Qed.

End Footprints.
