(* ===== verification/AuthOps.v ===== *)
(** * The authentication service refines its specification

    All operations of the service, requests, background work and the commands of the
    operator, with the effects that each is allowed; runs of operations. *)

From S2P Require Import Prelude Aead Signatures Messages Grpc PgTask RateLimiter Credentials.
From S2P Require Import ConnectionPackages AuthDb AuthTokens AuthUsers AuthNames AuthGrpc.
From S2P Require Import AuthDbCorrect AuthTokensCorrect AuthEffects.

Set Warnings "-clear-no-such-hyp".

(** ** Operations *)

Section Operations.
Context `{Oracles} `{PrivacyPass} `{Calendar} `{Argon2} `{Semver}.
Context `{Sha256} `{SignatureScheme} `{CredentialCodecs}.
Context `{!TlsCodec ConnectionPackageV1Payload} `{!TlsCodec ConnectionPackagePayload}.
Context `{!VerifiableRequest DeleteUserPayload} `{!VerifiableRequest PublishConnectionPackagesPayload}
  `{!VerifiableRequest StageUserProfilePayload} `{!VerifiableRequest MergeUserProfilePayload}
  `{!VerifiableRequest IssueTokensPayload} `{!VerifiableRequest ReportSpamPayload}
  `{!VerifiableRequest CreateUsernamePayload} `{!VerifiableRequest DeleteUsernamePayload}
  `{!VerifiableRequest RefreshUsernamePayload} `{!VerifiableRequest InitListenUsernamePayload}.
Context (config : AsConfig).

Inductive AsOp :=
| OpCheckCode (r : CheckInvitationCodeRequest)
| OpGetCodes (tokens : list bytes)
| OpRegister (r : RegisterUserRequest)
| OpDeleteUser (r : SignedRequest DeleteUserPayload)
| OpAsCredentials (m : option ClientMetadata)
| OpStageProfile (r : SignedRequest StageUserProfilePayload)
| OpMergeProfile (r : SignedRequest MergeUserProfilePayload)
| OpGetProfile (r : GetUserProfileRequest)
| OpIssueTokens (r : SignedRequest IssueTokensPayload)
| OpReportSpam (r : SignedRequest ReportSpamPayload)
| OpPublish (r : SignedRequest PublishConnectionPackagesPayload)
| OpCheckName (r : CheckUsernameExistsRequest)
| OpCreateName (r : SignedRequest CreateUsernamePayload)
| OpDeleteName (r : SignedRequest DeleteUsernamePayload)
| OpRefreshName (r : SignedRequest RefreshUsernamePayload)
| OpListen (first : option (Result Status ListenUsernameRequest))
| OpListenRequest (r : Result Status ListenUsernameRequest)
| OpStreamTurn (wake : bool) (s : NameStream)
| OpConnectFetch (step : option (Result Status ConnectUsernameRequest))
| OpConnectEnqueue (h : UsernameHash) (step : option (Result Status ConnectUsernameRequest))
| OpRotate
| OpInitialize (domain : Fqdn)
| OpGenerateCodes (n : nat)
| OpRefreshExpiring (before : TimeStamp).

(** Forget the answer. *)
Definition void {E A} (m : M AsWorld E A) : M AsWorld Failure unit :=
  _ ← map_errM (fun _ => Failed (status Internal)) m; mret tt.
Definition stream_turn_op (wake : bool) (s : NameStream) : M AsWorld Failure unit := fun w =>
  (Ok tt, (name_turn wake s w).2).

Definition as_run (o : AsOp) : M AsWorld Failure unit :=
  match o with
  | OpCheckCode r => void (check_invitation_code config r)
  | OpGetCodes tokens => void (get_invitation_codes tokens)
  | OpRegister r => void (register_user config r)
  | OpDeleteUser r => void (delete_user config r)
  | OpAsCredentials m => void (as_credentials_handler config m)
  | OpStageProfile r => void (stage_user_profile_handler config r)
  | OpMergeProfile r => void (merge_user_profile_handler config r)
  | OpGetProfile r => void (get_user_profile config r)
  | OpIssueTokens r => void (issue_tokens config r)
  | OpReportSpam r => void (report_spam config r)
  | OpPublish r => void (publish_connection_packages config r)
  | OpCheckName r => void (check_username_exists config r)
  | OpCreateName r => void (create_username config r)
  | OpDeleteName r => void (delete_username config r)
  | OpRefreshName r => void (refresh_username config r)
  | OpListen first => void (listen_username config first)
  | OpListenRequest r => void (process_listen_username_request r)
  | OpStreamTurn wake s => stream_turn_op wake s
  | OpConnectFetch step => void (connect_fetch config step)
  | OpConnectEnqueue h step => void (connect_enqueue h step)
  | OpRotate => void rotate_keys_if_needed
  | OpInitialize domain => void (as_initialize domain)
  | OpGenerateCodes n => void (invitation_codes_generate n)
  | OpRefreshExpiring before => void (username_refresh_expiring before)
  end.

(** ** What an operation may do *)

(** The user and the username that a signed request names. *)
Definition names_user {P} `{!WithUserId P} (r : SignedRequest P) (u : UserId) : Prop :=
  exists p, sr_payload r = Some p /\ user_id_proto p = FieldValue u.
Definition names_username {P} `{!WithUsernameHash P} (r : SignedRequest P) (h : UsernameHash) : Prop :=
  exists p, sr_payload r = Some p /\ username_hash_proto p = FieldValue h.

Definition allowed (o : AsOp) (l : Label) : Prop :=
  match o with
  | OpGetCodes _ => l = LNonce GetInviteCode \/ l = LCode
  | OpRegister r =>
      (exists p, ru_client_credential_payload r = FieldValue p /\
         (l = LUserNew (ccsr_user_id (ccp_csr p)) \/ l = LClientNew (ccsr_user_id (ccp_csr p)))) \/
      (exists c, ru_invitation_code r = Some c /\ invitation_only config = true /\ l = LRedeem c)
  | OpDeleteUser r => exists u, names_user r u /\ l = LUserDelete u
  | OpStageProfile r => exists u, names_user r u /\ l = LUserProfile u
  | OpMergeProfile r => exists u, names_user r u /\ l = LUserProfile u
  | OpIssueTokens r =>
      exists u p op, names_user r u /\ sr_payload r = Some p /\
        operation_of_i32 (itp_operation_type p) = Some op /\ l = LAllowance u op
  | OpPublish r => exists h, names_username r h /\ l = LPackages h
  | OpCreateName r =>
      l = LNonce AddUsername \/
      exists p h, sr_payload r = Some p /\ cup_hash p = FieldValue h /\ (l = LNameNew h \/ l = LNameTake h)
  | OpDeleteName r => exists h, names_username r h /\ l = LNameDelete h
  | OpRefreshName r => l = LNonce AddUsername \/ exists h, names_username r h /\ l = LNameRefresh h
  | OpListenRequest (Ok (ListenNameAck (Some id))) => l = LAck id
  | OpStreamTurn _ s => l = LFetch (ns_hash s)
  | OpConnectFetch (Some (Ok (ConnectFetch _ (FieldValue h)))) => l = LNameDelete h \/ l = LPackageTaken h
  | OpConnectEnqueue h _ => l = LOffer h
  | OpRotate => exists op, op <> OpUnspecified /\ l = LKeys op
  | OpInitialize _ => l = LSigningKeys \/ exists op, op <> OpUnspecified /\ l = LKeys op
  | OpGenerateCodes _ => l = LCode
  | OpRefreshExpiring _ => exists h, l = LNameRefresh h
  | _ => False
  end.

(** ** Authentication *)

Lemma user_auth_Ok {P} `{!VerifiableRequest P} `{!WithUserId P} (r : SignedRequest P) w u p w' :
  verify_user_auth r w = (Ok (u, p), w') -> sr_payload r = Some p /\ user_id_proto p = FieldValue u.
Proof.
  intros Hv. unfold verify_user_auth in Hv. bindM Hv as u' w1 Hu. apply fail_with_Ok in Hu.
  apply Result_bind_Ok in Hu as (p0 & Hp0 & Hu). apply ok_or_Ok in Hp0. apply required_Ok in Hu.
  bindM Hv as key w2 Hk. bindM Hv as p' w3 Hp. apply fail_with_Ok, verify_request_Ok in Hp as [Hp _].
  injection Hv as <- <- _. split; congruence.
Qed.
Lemma verify_username_Ok {P} `{!VerifiableRequest P} `{!WithUsernameHash P} (r : SignedRequest P) w h p w' :
  verify_username_auth r w = (Ok (h, p), w') ->
  sr_payload r = Some p /\ username_hash_proto p = FieldValue h.
Proof.
  intros Hv. unfold verify_username_auth in Hv. bindM Hv as u' w1 Hu. apply fail_with_Ok in Hu.
  apply Result_bind_Ok in Hu as (p0 & Hp0 & Hu). apply ok_or_Ok in Hp0. apply required_Ok in Hu.
  bindM Hv as key w2 Hk. bindM Hv as p' w3 Hp. apply fail_with_Ok, verify_request_Ok in Hp as [Hp _].
  injection Hv as <- <- _. split; congruence.
Qed.

Section Footprint.
Context (R : AsDb -> AsDb -> Prop) `{!PreOrder R}.

Lemma keeps_load_client_key u : keeps R (load_client_key u).
Proof. unfold load_client_key, load_client_verifying_key, client_load. keeps. Qed.
Lemma keeps_load_username_key h : keeps R (load_username_key h).
Proof. unfold load_username_key, load_verifying_key. keeps. Qed.

(** After authentication the request names the user, or the username. *)
Lemma tops_user_auth {P A} `{!VerifiableRequest P} `{!WithUserId P} (r : SignedRequest P)
    (f : UserId * P -> M AsWorld Failure A) :
  (forall u p, names_user r u -> sr_payload r = Some p -> tops R (f (u, p))) ->
  tops R (x ← verify_user_auth r; f x).
Proof.
  intros Hf. apply tops_bind_with; [apply _| |].
  - apply tops_keeps. unfold verify_user_auth, fail_with. keeps. apply keeps_load_client_key.
  - intros [u p] w w' [Hp Hu]%user_auth_Ok. apply Hf; [by exists p|done].
Qed.
Lemma tops_username_auth {P A} `{!VerifiableRequest P} `{!WithUsernameHash P} (r : SignedRequest P)
    (f : UsernameHash * P -> M AsWorld Failure A) :
  (forall h p, names_username r h -> sr_payload r = Some p -> tops R (f (h, p))) ->
  tops R (x ← verify_username_auth r; f x).
Proof.
  intros Hf. apply tops_bind_with; [apply _| |].
  - apply tops_keeps. unfold verify_username_auth, fail_with. keeps. apply keeps_load_username_key.
  - intros [u p] w w' [Hp Hu]%verify_username_Ok. apply Hf; [by exists p|done].
Qed.
Lemma tops_void {E A} (m : M AsWorld E A) : tops R m -> tops R (void m).
Proof. intros Hm. unfold void. keeps_step; [by apply tops_map_errM|keeps]. Qed.
Lemma tops_fail_with_bind {A B} (r : Result Status A) (f : A -> M AsWorld Failure B) :
  (forall a, r = Ok a -> tops R (f a)) -> tops R (a ← fail_with r; f a).
Proof.
  intros Hf. apply tops_bind_with; [apply _|unfold fail_with; keeps|].
  intros a w w' Ha%fail_with_Ok. by apply Hf.
Qed.
Lemma tops_version_bind {E A} (g : Status -> E) m (f : option Version -> M AsWorld E A) :
  (forall v, tops R (f v)) -> tops R (v ← check_version config g m; f v).
Proof. intros Hf. unfold check_version. keeps_step; [keeps|]. apply Hf. Qed.
Lemma tops_with_status {E A} (g : E -> Status) (m : M AsWorld E A) : tops R m -> tops R (with_status g m).
Proof. apply tops_map_errM. Qed.

End Footprint.

Context `{!PrivacyPassLaws}.

Ltac tops_head :=
  repeat first [apply tops_version_bind; [apply _|]; intros ?
               |apply tops_fail_with_bind; [apply _|]; intros ? ?
               |apply tops_with_status].

Lemma tops_get_codes tokens : tops (reach (allowed (OpGetCodes tokens))) (get_invitation_codes tokens).
Proof.
  unfold get_invitation_codes. tops_head. keeps_step.
  keeps_step; [unfold lock_and_count_codes_issued_today|].
  - keeps; [by apply keeps_exec; [apply _|]|].
    apply keeps_sql; [apply _|]. by intros n t d a' d' [= _ <-].
  - keeps_step; [unfold fail_with; keeps|]. by apply keeps_issue_codes; [left|right].
Qed.

Lemma registration_code_Ok c w o w' :
  registration_code config c w = (Ok o, w') ->
  forall r, o = Some r -> c = Some (code r) /\ invitation_only config = true /\ validate_code (code r) = true.
Proof.
  intros Hc r ->. unfold registration_code in Hc. destruct (invitation_only config); [|done].
  bindM Hc as s w1 Hs. apply fail_with_Ok, ok_or_Ok in Hs as ->.
  bindM Hc as u w2 Hu. apply fail_with_Ok, ensure_Ok in Hu.
  bindM Hc as rec w3 Hrec. bindM Hc as r' w4 Hr. apply fail_with_Ok, ok_or_Ok in Hr as ->.
  injection Hc as ->. assert (code r = s) as ->; [|done].
  destruct (is_unredeemable_code config s); [by injection Hrec as <-|].
  unfold load_unredeemed in Hrec. bindM Hrec as o w5 Ho. injection Hrec as Hrec _.
  apply bind_Some in Hrec as (r0 & -> & Hr0). destruct (redeemed r0); [done|]. injection Hr0 as ->.
  unfold map_errM in Ho. destruct (invitation_load s w2) as [q w6] eqn:E.
  apply query_inv in E as (_ & _ & _ & Hq). destruct q as [x|]; [|done]. injection Ho as -> _.
  destruct Hq as [_ Hq]. symmetry in Hq. apply fmap_Some in Hq as (row & _ & ->). done.
Qed.

Lemma tops_register_user r : tops (reach (allowed (OpRegister r))) (register_user config r).
Proof.
  unfold register_user. tops_head. apply tops_bind_with; [apply _| |].
  - unfold registration_code, load_unredeemed, invitation_load, fail_with. keeps.
  - intros o w w' Ho. pose proof (registration_code_Ok _ _ _ _ Ho) as Hc.
    apply tops_fail_with_bind; [apply _|]. intros params Hp. inv_ok. apply required_Ok in Hm, Hm0.
    keeps_step. apply tops_register; cbn.
    + left. eauto.
    + left. eauto.
    + intros rec ->. destruct (Hc rec eq_refl) as (Hcode & Hi & Hv). split; [right|done]. eauto.
Qed.

Lemma tops_delete_user r : tops (reach (allowed (OpDeleteUser r))) (delete_user config r).
Proof.
  unfold delete_user. apply tops_user_auth; [apply _|]. intros u p Hu Hp. tops_head.
  unfold as_delete_user. keeps_step. apply tops_keeps, keeps_user_delete. cbn. eauto.
Qed.

Definition record_of (u : UserId) (row : UserRow) : UserRecord :=
  {| ur_user_id := u; encrypted_user_profile := row_encrypted_user_profile row;
     staged_user_profile := row_staged_user_profile row |}.
Lemma user_load_Ok {E} (f : SqlxError -> E) u w o w' :
  map_errM f (user_load u) w = (Ok o, w') ->
  adb w' = adb w /\ as_txn w' = as_txn w /\ o = record_of u <$> users (adb w) !! u.
Proof.
  intros Ho. unfold map_errM, user_load in Ho. destruct (query _ w) as [q w2] eqn:E'.
  apply query_inv in E' as (Hd & _ & _ & Hq). destruct q; [|done]. injection Ho as -> ->.
  destruct Hq as [Ht ->]. done.
Qed.
Lemma tops_user_record {E A} (f : SqlxError -> E) e u (g : UserRecord -> M AsWorld E A) R `{!PreOrder R} :
  (forall rec, ur_user_id rec = u -> tops R (g rec)) ->
  tops R (found ← map_errM f (user_load u); rec ← lift (ok_or e found); g rec).
Proof.
  intros Hg. apply tops_bind_with; [apply _|unfold user_load; keeps|].
  intros o w w' (_ & _ & ->)%user_load_Ok. apply tops_bind_with; [apply _|keeps|].
  intros rec w1 w1' Hrec. leafM Hrec. inv_ok. apply Hg.
  apply fmap_Some in Hrec as (row & _ & ->). done.
Qed.

Lemma tops_stage r : tops (reach (allowed (OpStageProfile r))) (stage_user_profile_handler config r).
Proof.
  unfold stage_user_profile_handler. apply tops_user_auth; [apply _|]. intros u p Hu Hp. tops_head.
  apply tops_user_record; [apply _|]. intros rec Hrec.
  keeps_step. apply tops_keeps, keeps_user_row. cbn. exists u. split; [done|]. by rewrite Hrec.
Qed.
Lemma tops_merge r : tops (reach (allowed (OpMergeProfile r))) (merge_user_profile_handler config r).
Proof.
  unfold merge_user_profile_handler. apply tops_user_auth; [apply _|]. intros u p Hu Hp. tops_head.
  apply tops_user_record; [apply _|]. intros rec Hrec.
  apply tops_bind_with; [apply _|keeps|]. intros m w w' Hm. leafM Hm. inv_ok.
  keeps_step. apply tops_keeps, keeps_user_row. cbn. exists u. split; [done|]. f_equal.
  unfold merge_user_profile in Hm. destruct (staged_user_profile rec); by simplify_eq/=.
Qed.
Lemma tops_issue_tokens r : tops (reach (allowed (OpIssueTokens r))) (issue_tokens config r).
Proof.
  unfold issue_tokens. apply tops_user_auth; [apply _|]. intros u p Hu Hp. tops_head.
  keeps_step; [apply tops_with_status|unfold fail_with; keeps]. apply tops_issue. inv_ok. cbn. by exists u, p, a.
Qed.
Lemma tops_publish_packages r : tops (reach (allowed (OpPublish r))) (publish_connection_packages config r).
Proof.
  unfold publish_connection_packages. apply tops_username_auth; [apply _|]. intros h p Hh Hp. tops_head.
  apply tops_publish. cbn. eauto.
Qed.
Lemma tops_create_username r : tops (reach (allowed (OpCreateName r))) (create_username config r).
Proof.
  unfold create_username. apply tops_fail_with_bind; [apply _|]. intros key Hk.
  apply tops_fail_with_bind; [apply _|]. intros p [Hp _]%verify_request_Ok. tops_head.
  match goal with Hr : required (cup_hash p) = Ok ?h |- _ => apply required_Ok in Hr; rename h into h0 end.
  apply tops_create; cbn; [by left|right; eauto 6..].
Qed.
Lemma tops_delete_username r : tops (reach (allowed (OpDeleteName r))) (delete_username config r).
Proof.
  unfold delete_username. apply tops_username_auth; [apply _|]. intros h p Hh Hp. tops_head.
  keeps_step; [apply tops_with_status|unfold fail_with; keeps]. unfold as_delete_username. keeps.
  apply keeps_username_delete. cbn. eauto.
Qed.
Lemma tops_refresh_username r : tops (reach (allowed (OpRefreshName r))) (refresh_username config r).
Proof.
  unfold refresh_username. apply tops_username_auth; [apply _|]. intros h p Hh Hp. tops_head.
  apply tops_refresh; cbn; [by left|right; eauto].
Qed.
Lemma tops_listen first : tops (reach (allowed (OpListen first))) (listen_username config first).
Proof.
  unfold listen_username. destruct first as [[[r|o|]|e]|]; [|keeps|keeps|keeps|keeps]. tops_head. apply tops_username_auth; [apply _|]. intros h p Hh Hp.
  apply tops_with_status. intros w Hw. unfold name_listen. destruct (track_listener h w) as [n w1] eqn:E.
  injection E as _ <-. cbn. split_and!; [done|done|lia].
Qed.
Lemma tops_listen_request r :
  tops (reach (allowed (OpListenRequest r))) (process_listen_username_request r).
Proof.
  unfold process_listen_username_request. apply tops_fail_with_bind; [apply _|]. intros q ->.
  destruct q as [|[id|]|]; [keeps| |keeps|keeps]. apply tops_with_status, tops_keeps, keeps_name_ack. done.
Qed.
Lemma tops_stream_turn wake s : tops (reach (allowed (OpStreamTurn wake s))) (stream_turn_op wake s).
Proof.
  intros w Hw. unfold stream_turn_op, name_turn. cbn [snd].
  pose proof (tops_keeps _ _ (keeps_name_fetch (allowed (OpStreamTurn wake s)) (ns_hash s) (ns_id s)
    NAME_BUFFER_SIZE eq_refl) w Hw) as Hf.
  destruct (decide _); [by split_and!|]. destruct (rev (ns_buffer s)); [|by split_and!].
  destruct (ns_state s); [|by split_and!].
  destruct (name_fetch_into _ _ _ w) as [[[|m ms]|e] w1]; exact Hf.
Qed.
Lemma tops_connect_fetch step : tops (reach (allowed (OpConnectFetch step))) (connect_fetch config step).
Proof.
  unfold connect_fetch. destruct step as [[[m f|o|]|e]|]; [|keeps|keeps|keeps|keeps].
  tops_head. apply tops_bind_with; [apply _|keeps|]. intros h w w' Hh. leafM Hh.
  destruct f as [| |h']; [done|done|]. injection Hh as ->. keeps_step; [keeps_step; apply tops_keeps|].
  - unfold load_username_expiration_data, load_expiration_data. keeps. apply keeps_username_delete. by left.
  - keeps. apply keeps_load_for_username. by right.
Qed.
Lemma tops_connect_enqueue h step :
  tops (reach (allowed (OpConnectEnqueue h step))) (connect_enqueue h step).
Proof.
  unfold connect_enqueue. destruct step as [[[|o|]|e]|]; [keeps| |keeps|keeps|keeps].
  keeps_step; [keeps|]. keeps_step; [keeps_step; by apply tops_name_enqueue|keeps].
Qed.
Lemma operation_types_spec op : op ∈ operation_types -> op <> OpUnspecified.
Proof. by intros [Hop _]%list_elem_of_filter. Qed.
Lemma tops_initialize domain : tops (reach (allowed (OpInitialize domain))) (as_initialize domain).
Proof.
  unfold as_initialize. keeps_step; [keeps; by apply keeps_exec; [apply _|]|].
  keeps_step; [|keeps_step; [|keeps]].
  - keeps_step. apply keeps_initialize_keys. by left.
  - keeps_step. apply tops_rotate_all. intros op Hop%operation_types_spec. right. eauto.
Qed.
Lemma keeps_generate_codes L n : L LCode -> keeps (reach L) (invitation_codes_generate n).
Proof.
  intros Hl. induction n as [|n IH]; cbn [invitation_codes_generate]; [keeps|].
  keeps_step; [by apply keeps_generate|keeps].
Qed.

(** Each operation is a sequence of the effects that it is allowed, whatever the
    database, the clock and the peers do; no transaction stays open. *)
Lemma as_run_tops o : tops (reach (allowed o)) (as_run o).
Proof.
  destruct o; cbn [as_run]; try (apply tops_void; [apply _|]).
  - unfold check_invitation_code. tops_head. unfold load_unredeemed, invitation_load. keeps.
  - apply tops_get_codes.
  - apply tops_register_user.
  - apply tops_delete_user.
  - unfold as_credentials_handler. tops_head. unfold as_credentials, credential_load_all,
      intermediate_credential_load_all, load_keys, load_batched_token_keys. keeps.
  - apply tops_stage.
  - apply tops_merge.
  - unfold get_user_profile. tops_head. unfold as_get_user_profile, user_load. keeps.
  - apply tops_issue_tokens.
  - unfold report_spam. apply tops_user_auth; [apply _|]. intros u p Hu Hp. tops_head. keeps.
  - apply tops_publish_packages.
  - unfold check_username_exists. tops_head. unfold as_check_username_exists, username_check_exists,
      load_expiration_data. keeps.
  - apply tops_create_username.
  - apply tops_delete_username.
  - apply tops_refresh_username.
  - apply tops_listen.
  - apply tops_listen_request.
  - apply tops_stream_turn.
  - apply tops_connect_fetch.
  - apply tops_connect_enqueue.
  - apply tops_rotate_all. intros op Hop%operation_types_spec. cbn. eauto.
  - apply tops_initialize.
  - apply tops_keeps, keeps_generate_codes. done.
  - apply tops_refresh_expiring. cbn. eauto.
Qed.

End Operations.
