(* ===== verification/AuthCorrect.v ===== *)
(** * Invariants of the authentication service

    What holds of the tables after any operations, and what a request can change on
    whose authority. *)

From S2P Require Import Prelude Aead Signatures Messages Grpc PgTask RateLimiter Credentials.
From S2P Require Import ConnectionPackages AuthDb AuthTokens AuthUsers AuthNames AuthGrpc.
From S2P Require Import AuthDbCorrect AuthTokensCorrect AuthEffects AuthOps.

Set Warnings "-clear-no-such-hyp".

(** ** Well-formed tables *)

Section WellFormed.
Context `{Oracles} `{PrivacyPass} `{Calendar}.
Context `{SignatureScheme} `{!TlsCodec SignContent}.
Context `{!TlsCodec ConnectionPackageV1Payload} `{!TlsCodec ConnectionPackagePayload}.

Record package_ok (hs : gmap UsernameHash HandleRow) (next n : Z) (r : ConnectionPackageRow) : Prop := {
  package_numbered : n < next;
  package_owned : is_Some (hs !! cpr_hash r);
  package_verified : connection_package_verify (cpr_package r) = Ok (cpr_package r);
  package_resort : cpr_is_last_resort r = is_last_resort (cpr_package r)
}.
Record wf_as (d : AsDb) : Prop := {
  wf_codes c r : codes d !! c = Some r -> validate_code c = true;
  wf_clients id r : clients d !! id = Some r ->
    is_Some (users d !! {| user_uuid := id; user_domain := row_user_domain r |});
  wf_allowances u op r : allowances d !! (u, op) = Some r ->
    is_Some (users d !! u) /\ allowance_ok op r;
  wf_offers id r : offers d !! id = Some r ->
    is_Some (handles d !! row_hash r) /\ message_id (row_message r) = Some id;
  wf_packages n r : cpt_rows (packages d) !! n = Some r ->
    package_ok (handles d) (cpt_next (packages d)) n r
}.

Lemma is_Some_insert_any {K A} `{Countable K} (m : gmap K A) i j x : is_Some (m !! j) -> is_Some (<[i:=x]> m !! j).
Proof. intros Hm. rewrite lookup_insert. by case_decide. Qed.

Lemma insert_packages_mono h cps t : cpt_next t <= cpt_next (insert_connection_packages h cps t).
Proof. revert t. induction cps as [|cp cps IH]; intros t; cbn; [lia|]. etrans; [|apply IH]. cbn. lia. Qed.
Lemma insert_packages_lookup h cps t n r :
  cpt_rows (insert_connection_packages h cps t) !! n = Some r ->
  cpt_rows t !! n = Some r \/
  n < cpt_next (insert_connection_packages h cps t) /\
  exists cp, cp ∈ cps /\ r = {| cpr_hash := h; cpr_package := cp; cpr_is_last_resort := is_last_resort cp |}.
Proof.
  revert t. induction cps as [|cp cps IH]; intros t Hl; [by left|]. cbn [insert_connection_packages] in *.
  apply IH in Hl as [Hl|(Hn & cp' & Hin & ->)].
  - cbn [cpt_rows] in Hl. rewrite lookup_insert in Hl. case_decide; [|by left]. right. simplify_eq.
    split; [|exists cp; split; [by left|done]].
    eapply Z.lt_le_trans; [|apply insert_packages_mono]. cbn. lia.
  - right. split; [done|]. exists cp'. split; [by right|done].
Qed.

Lemma take_package_sub n h t :
  cpt_next (take_connection_package n h t).2 = cpt_next t /\
  cpt_rows (take_connection_package n h t).2 ⊆ cpt_rows t.
Proof.
  unfold take_connection_package. destruct (next_connection_package n h t) as [[id r]|]; [|done]. cbn.
  destruct (decide _); [|done]. split; [done|]. cbn. apply delete_subseteq.
Qed.

Lemma mark_fetched_lookup by_ rows q id r :
  foldl (mark_fetched by_) q rows !! id = Some r ->
  (forall x, x ∈ rows -> q !! x.1 = Some x.2) ->
  exists r0, q !! id = Some r0 /\ row_hash r = row_hash r0 /\ row_message r = row_message r0 /\
    row_created_at r = row_created_at r0.
Proof.
  intros Hl Hq.
  assert (forall q', (forall id r, q' !! id = Some r -> exists r0, q !! id = Some r0 /\
      row_hash r = row_hash r0 /\ row_message r = row_message r0 /\ row_created_at r = row_created_at r0) ->
    foldl (mark_fetched by_) q' rows !! id = Some r -> exists r0, q !! id = Some r0 /\
      row_hash r = row_hash r0 /\ row_message r = row_message r0 /\ row_created_at r = row_created_at r0) as Hgen.
  { clear Hl. induction rows as [|x rows IH]; intros q' Hq' Hl; [by apply Hq'|]. cbn in Hl.
    apply IH in Hl; [done|by intros y Hy; apply Hq; right|].
    intros id' r'. unfold mark_fetched. rewrite lookup_insert. case_decide; [|apply Hq'].
    intros [= <-]. subst id'. exists x.2. split; [|done]. apply Hq. by left. }
  apply (Hgen q); [|done]. eauto.
Qed.
Lemma messages_to_fetch_rows `{!OracleLaws} n h by_ limit q x :
  x ∈ messages_to_fetch n h by_ limit q ->
  q !! x.1 = Some x.2 /\ row_hash x.2 = h /\ row_fetched_by x.2 <> Some by_.
Proof.
  unfold messages_to_fetch. intros Hx. apply elem_of_take in Hx as (i & Hx & _).
  apply list_elem_of_lookup_2 in Hx. rewrite sorting.merge_sort_Permutation, scan_permutation in Hx.
  apply list_elem_of_filter in Hx as [Hf Hx]. destruct x as [id r]. by apply elem_of_map_to_list in Hx.
Qed.

(** A username that stays keeps what refers to it. *)
Lemma package_ok_handles hs hs' next n r :
  (is_Some (hs !! cpr_hash r) -> is_Some (hs' !! cpr_hash r)) ->
  package_ok hs next n r -> package_ok hs' next n r.
Proof. intros Hh [? ? ? ?]. split; auto. Qed.

Lemma wf_set_handles d h r :
  wf_as d -> wf_as (set_handles (<[h := r]> (handles d)) d).
Proof.
  intros [W1 W2 W3 W4 W5]. split; [exact W1|exact W2|exact W3| |].
  - intros id q Hq. destruct (W4 id q Hq) as [Hh Hm]. split; [|done]. by apply is_Some_insert_any.
  - intros n q Hq. apply (package_ok_handles (handles d)); [|by apply W5]. by apply is_Some_insert_any.
Qed.
Lemma wf_set_allowance d u op r :
  is_Some (users d !! u) -> allowance_ok op r -> wf_as d ->
  wf_as (set_allowances (<[(u, op) := r]> (allowances d)) d).
Proof.
  intros Hu Hr [W1 W2 W3 W4 W5]. split; [exact W1|exact W2| |exact W4|exact W5].
  intros u' op' r'. unfold allowances. cbn. rewrite lookup_insert. case_decide; [|apply W3].
  by intros; simplify_eq.
Qed.
Lemma wf_set_users d u r : wf_as d -> wf_as (set_user_records (<[u := r]> (users d)) d).
Proof.
  intros [W1 W2 W3 W4 W5]. split; [exact W1| | |exact W4|exact W5].
  - intros id c Hc. apply is_Some_insert_any. by apply W2.
  - intros u' op c Hc. destruct (W3 u' op c Hc). split; [|done]. by apply is_Some_insert_any.
Qed.
Lemma wf_set_codes d c r : validate_code c = true -> wf_as d ->
  wf_as (set_invitation_codes (<[c := r]> (codes d)) d).
Proof.
  intros Hc [W1 W2 W3 W4 W5]. split; [|exact W2|exact W3|exact W4|exact W5].
  intros c' r'. unfold codes. cbn [users_db set_invitation_codes set_users_db invitation_code].
  rewrite lookup_insert. case_decide; [by subst|apply W1].
Qed.
Lemma wf_offers_sub d q : wf_as d ->
  (forall id r, q !! id = Some r -> exists r0, offers d !! id = Some r0 /\
     row_hash r = row_hash r0 /\ row_message r = row_message r0) ->
  wf_as (set_handles_queue q d).
Proof.
  intros [W1 W2 W3 W4 W5] Hq. split; [exact W1|exact W2|exact W3| |exact W5].
  intros id r Hr. destruct (Hq id r Hr) as (r0 & H0' & -> & ->). by apply W4.
Qed.
Lemma wf_packages_sub d t : wf_as d -> cpt_next t = cpt_next (packages d) ->
  cpt_rows t ⊆ cpt_rows (packages d) -> wf_as (set_connection_packages t d).
Proof.
  intros [W1 W2 W3 W4 W5] Hn Hs. split; [exact W1|exact W2|exact W3|exact W4|].
  intros n r Hr. destruct (W5 n r) as [P1 P2 P3 P4]; [by eapply lookup_weaken|].
  split; [|exact P2|exact P3|exact P4]. unfold packages. cbn. by rewrite Hn.
Qed.

Lemma wf_user_delete d u : wf_as d -> wf_as (delete_user_rows u d).
Proof.
  intros Hd. unfold delete_user_rows. destruct (as_user_record _ !! u); [|done].
  destruct Hd as [W1 W2 W3 W4 W5]. split; [exact W1| | |exact W4|exact W5].
  - intros id c. unfold clients, users. cbn. rewrite map_lookup_filter_Some. intros [Hc Hof].
    unfold client_of in Hof. cbn in Hof. apply bool_decide_eq_false in Hof.
    rewrite lookup_delete. case_decide as He; [|by apply W2]. exfalso. apply Hof. by subst u.
  - intros u' op r. unfold allowances, users. cbn. rewrite map_lookup_filter_Some. intros [Hc Hne]. cbn in Hne.
    rewrite lookup_delete_ne by done. by apply W3.
Qed.
Lemma wf_name_delete d h : wf_as d -> wf_as (delete_username_rows h d).
Proof.
  intros [W1 W2 W3 W4 W5]. split; [exact W1|exact W2|exact W3| |].
  - intros id r. unfold offers, handles. cbn. rewrite map_lookup_filter_Some. intros [Hr Hne]. cbn in Hne.
    rewrite lookup_delete_ne by done. by apply W4.
  - intros n r. unfold packages. cbn. rewrite map_lookup_filter_Some. intros [Hr Hne]. cbn in Hne.
    destruct (W5 n r Hr) as [P1 P2 P3 P4]. split; [exact P1| |exact P3|exact P4].
    unfold handles. cbn. by rewrite lookup_delete_ne.
Qed.

Lemma effect_wf `{!OracleLaws} l d d' : effect l d d' -> wf_as d -> wf_as d'.
Proof.
  intros He Hd. destruct He as
    [c t d Hn Hv|c t d Hv|u r d Hn|u r d Hs|u d|u r d Hn Hs Hdom|ks d|u op t d Hn Hs|u op r d Hs Hok
    |op n r d Hn|op id r d Hn|op cut d|op cut d|h r d Hn|h r d Hs|h r e d Hs|h d|h cps d Hs Hall|h n d
    |h id m t d Hn Hs Hm|h d|h n by_ limit d|id d]; try (destruct Hd; split; assumption).
  - by apply wf_set_codes.
  - by apply wf_set_codes.
  - by apply wf_set_users.
  - by apply wf_set_users.
  - by apply wf_user_delete.
  - destruct Hd as [W1 W2 W3 W4 W5]. split; [exact W1| |exact W3|exact W4|exact W5].
    intros id c. unfold clients. cbn. rewrite lookup_insert. case_decide; [|apply W2].
    intros [= <-]. subst id. rewrite Hdom. by destruct u.
  - apply wf_set_allowance; [done| |done]. unfold allowance_ok. cbn [row_remaining].
    rewrite (as_i16_allowance op); destruct op; cbn; lia.
  - destruct Hs as [r0 Hr0]. destruct (wf_allowances _ Hd _ _ _ Hr0) as [Hu Hok0].
    apply wf_set_allowance; eauto.
  - by apply wf_set_handles.
  - by apply wf_set_handles.
  - by apply wf_set_handles.
  - by apply wf_name_delete.
  - destruct Hd as [W1 W2 W3 W4 W5]. split; [exact W1|exact W2|exact W3|exact W4|].
    intros n r Hr. apply insert_packages_lookup in Hr as [Hr|(Hn & cp & Hin & ->)].
    + destruct (W5 n r Hr) as [P1 P2 P3 P4]. split; [|exact P2|exact P3|exact P4].
      eapply Z.lt_le_trans; [exact P1|apply insert_packages_mono].
    + split; [exact Hn|done| |done]. rewrite Forall_forall in Hall. by apply Hall.
  - destruct (take_package_sub n h (packages d)). by apply wf_packages_sub.
  - destruct Hd as [W1 W2 W3 W4 W5]. split; [exact W1|exact W2|exact W3| |exact W5].
    intros id' r. unfold offers. cbn. rewrite lookup_insert. case_decide; [|apply W4]. by intros; simplify_eq.
  - apply wf_offers_sub; [done|]. intros id r Hr. apply mark_fetched_lookup in Hr as (r0 & ? & ? & ? & ?); [eauto|].
    intros x Hx. by eapply messages_to_fetch_rows.
  - apply wf_offers_sub; [done|]. intros id' r [_ Hr]%lookup_delete_Some. eauto.
Qed.

End WellFormed.

(** ** Runs *)

Section Runs.
Context `{Oracles} `{PrivacyPass} `{Calendar} `{Argon2} `{Semver}.
Context `{Sha256} `{SignatureScheme} `{CredentialCodecs}.
Context `{!TlsCodec ConnectionPackageV1Payload} `{!TlsCodec ConnectionPackagePayload}.
Context `{!VerifiableRequest DeleteUserPayload} `{!VerifiableRequest PublishConnectionPackagesPayload}
  `{!VerifiableRequest StageUserProfilePayload} `{!VerifiableRequest MergeUserProfilePayload}
  `{!VerifiableRequest IssueTokensPayload} `{!VerifiableRequest ReportSpamPayload}
  `{!VerifiableRequest CreateUsernamePayload} `{!VerifiableRequest DeleteUsernamePayload}
  `{!VerifiableRequest RefreshUsernamePayload} `{!VerifiableRequest InitListenUsernamePayload}.
Context `{!PrivacyPassLaws} `{!OracleLaws}.
Context (config : AsConfig).

Definition as_runs (os : list AsOp) (w : AsWorld) : AsWorld := foldl (fun w o => (as_run config o w).2) w os.

Lemma as_run_reach o w : as_txn w = NoTxn ->
  as_txn (as_run config o w).2 = NoTxn /\
  reach (allowed config o) (adb w) (adb (as_run config o w).2) /\
  (as_events w <= as_events (as_run config o w).2)%nat.
Proof. intros Hw. by apply (as_run_tops config o w). Qed.

Lemma as_runs_events os w : as_txn w = NoTxn -> (as_events w <= as_events (as_runs os w))%nat.
Proof.
  revert w. induction os as [|o os IH]; intros w Hw; [done|]. cbn.
  destruct (as_run_reach o w Hw) as (Hw' & _ & He). etrans; [exact He|]. by apply IH.
Qed.

(** C12. A run of operations refines the abstract service: whatever statements fail in
    it and whatever the clock, the random sources and the peers do, the database moves
    by a sequence of abstract effects, each of which one of the operations is allowed
    to have for the user or the username that it names, and no transaction stays
    open. *)
Theorem as_operations_refine os w : as_txn w = NoTxn ->
  as_txn (as_runs os w) = NoTxn /\
  reach (fun l => exists o, o ∈ os /\ allowed config o l) (adb w) (adb (as_runs os w)).
Proof.
  revert w. induction os as [|o os IH]; intros w Hw; [by split; [|constructor]|]. cbn.
  destruct (as_run_reach o w Hw) as (Hw' & Hr & _). destruct (IH _ Hw') as [Hn Hr'].
  split; [done|]. transitivity (adb (as_run config o w).2).
  - eapply reach_sub; [|exact Hr]. intros l Hl. exists o. split; [left|done].
  - eapply reach_sub; [|exact Hr']. intros l (o' & Ho & Hl). exists o'. split; [by right|done].
Qed.

Lemma runs_wf os w : as_txn w = NoTxn -> wf_as (adb w) ->
  as_txn (as_runs os w) = NoTxn /\ wf_as (adb (as_runs os w)).
Proof.
  revert w. induction os as [|o os IH]; intros w Hw Hd; [done|]. cbn.
  destruct (as_run_reach o w Hw) as (Hw' & Hr & _). apply IH; [done|].
  eapply reach_inv; [|exact Hr|exact Hd]. intros l x y _ He. by apply (effect_wf l x y He).
Qed.

(** After any operations, whatever statements fail in them: stored invitation
    codes are well-formed, clients and allowances belong to users, allowances are
    within the maximum of their operation type, queued connection offers and
    connection packages belong to usernames, offers are stored under their message
    id, and every stored package has a valid signature. *)
Theorem as_runs_wf os w : as_txn w = NoTxn -> wf_as (adb w) ->
  as_txn (as_runs os w) = NoTxn /\ wf_as (adb (as_runs os w)).
Proof. apply runs_wf. Qed.

End Runs.
