(* ===== verification/AuthCharges.v ===== *)
(** * Every token is charged once

    Over any run of operations, what the service gives for tokens, invitation codes
    and usernames, is paid for with distinct tokens: a redeemed token stays spent
    through everything else that the service does, the rotation of keys and the
    removal of old nonces included. *)

From S2P Require Import Prelude Aead Signatures Messages Grpc PgTask RateLimiter Credentials.
From S2P Require Import ConnectionPackages AuthDb AuthTokens AuthUsers AuthNames AuthGrpc.
From S2P Require Import AuthDbCorrect AuthTokensCorrect AuthEffects AuthOps AuthCorrect.

Set Warnings "-clear-no-such-hyp".

Section Charges.
Context `{Oracles} `{PrivacyPass} `{Calendar} `{Argon2} `{Semver}.
Context `{Sha256} `{SignatureScheme} `{CredentialCodecs}.
Context `{!TlsCodec ConnectionPackageV1Payload} `{!TlsCodec ConnectionPackagePayload}.
Context `{!VerifiableRequest DeleteUserPayload} `{!VerifiableRequest PublishConnectionPackagesPayload}
  `{!VerifiableRequest StageUserProfilePayload} `{!VerifiableRequest MergeUserProfilePayload}
  `{!VerifiableRequest IssueTokensPayload} `{!VerifiableRequest ReportSpamPayload}
  `{!VerifiableRequest CreateUsernamePayload} `{!VerifiableRequest DeleteUsernamePayload}
  `{!VerifiableRequest RefreshUsernamePayload} `{!VerifiableRequest InitListenUsernamePayload}.
Context `{!PrivacyPassLaws} `{!ClockLaws}.
Context (config : AsConfig) (skew : Z).

(** ** Tokens of a request, and what it was given for them *)

Definition token_field (o : option bytes) : list (OperationType * AmortizedToken) :=
  match b ← o; token_of_bytes b with Some t => [(AddUsername, t)] | None => [] end.
Definition tokens_of (o : AsOp) : list (OperationType * AmortizedToken) :=
  match o with
  | OpGetCodes bs => (fun t => (GetInviteCode, t)) <$> omap token_of_bytes bs
  | OpCreateName r => token_field (p ← sr_payload r; cup_token p)
  | OpRefreshName r => token_field (p ← sr_payload r; rnp_token p)
  | _ => []
  end.
(** New invitation codes, or a username operation that came with a token. *)
Definition services (o : AsOp) (w : AsWorld) : nat :=
  let x := as_run config o w in
  match o with
  | OpGetCodes _ => size (codes (adb x.2)) - size (codes (adb w))
  | OpCreateName _ | OpRefreshName _ => if is_ok x.1 then length (tokens_of o) else 0
  | _ => 0
  end.

Definition Spent (x : OperationType * AmortizedToken) (d : AsDb) : Prop := spent skew x.1 x.2 d.

(** The keys that validate a token are at least [skew] old at [t]. *)
Definition aged (x : OperationType * AmortizedToken) (t : TimeStamp) (d : AsDb) : Prop :=
  forall id k, keys d !! (x.1, id) = Some k -> token_valid (row_voprf_server k) x.2 = true ->
    row_key_created_at k + skew <= t.
(** No key generated from the [n]th event on validates a token. *)
Definition settled (x : OperationType * AmortizedToken) (n : nat) : Prop :=
  forall m id server, (n <= m)%nat -> (id, server) ∈ keypairs m -> token_valid server x.2 = false.

Lemma aged_mono x t t' d d' : t <= t' -> keys d' = keys d -> aged x t d -> aged x t' d'.
Proof. intros Ht Hk Ha id k. rewrite Hk. intros Hid Hv. specialize (Ha id k Hid Hv). lia. Qed.

(** ** Operations keep tokens spent *)

Lemma effect_token_mono l d d' : effect l d d' -> (forall op, l <> LKeys op) -> token_mono d d'.
Proof.
  intros He Hl. destruct He; try done; try (by destruct (Hl op)).
  - unfold delete_user_rows. by destruct (as_user_record (users_db d) !! u).
  - split; [reflexivity|]. unfold with_nonce, nonces. cbn. by apply insert_subseteq.
Qed.
Lemma tops_rotate_spent x ops w : as_txn w = NoTxn -> settled x (as_events w) ->
  now (as_events (rotate_all ops w).2) - now (as_events w) <= skew ->
  Spent x (adb w) -> Spent x (adb (rotate_all ops w).2).
Proof.
  revert w. induction ops as [|op ops IH]; intros w Hw Hx Ht Hs; [done|]. cbn [rotate_all] in *.
  unfold mbind, M_bind in *.
  destruct (rotate_keys_if_needed_for_operation_type op w) as [r w1] eqn:E1.
  pose proof (rotate_inv _ _ _ _ Hw E1) as (Hw1 & He1 & _).
  assert (now (as_events w1) - now (as_events w) <= skew ->  Spent x (adb w1)) as Hs1.
  { intros Hskew. by apply (rotate_spent skew x.1 op x.2 w r w1). }
  destruct r as [b|e]; [|by apply Hs1].
  assert (as_events w1 <= as_events (rotate_all ops w1).2)%nat as He2.
  { eapply (tops_rotate_all (fun _ => True)); done. }
  pose proof (now_mono (as_events w) (as_events w1) He1).
  assert (now (as_events w1) <= now (as_events (rotate_all ops w1).2)) as Hm by (by apply now_mono).
  specialize (IH w1 Hw1). destruct (rotate_all ops w1) as [[l|e] w2]; cbn [fst snd mret M_ret] in *;
    (apply IH; [intros m id server Hm'; apply Hx; lia|lia|apply Hs1; lia]).
Qed.

Lemma token_mono_reach o w : as_txn w = NoTxn ->
  (forall l op, allowed config o l -> l <> LKeys op) ->
  token_mono (adb w) (adb (as_run config o w).2).
Proof.
  intros Hw Hl. destruct (as_run_reach config o w Hw) as (_ & Hr & _).
  eapply reach_rel; [apply _| |exact Hr]. intros l x y Ha He. apply (effect_token_mono l); [done|].
  intros op. by apply Hl.
Qed.

Lemma tops_initialize_keys (f : SqlxError -> ServiceCreationError) domain :
  tops token_mono (transaction f (
    active ← map_errM (fun _ => CreationDatabase) as_key_load;
    match active with
    | Some _ => mret tt
    | None =>
        _ ← map_errM (fun _ => CreationInit)
              (generate_store_and_activate domain DEFAULT_SIGNATURE_SCHEME);
        _ ← map_errM (fun _ => CreationInit)
              (generate_sign_and_activate domain DEFAULT_SIGNATURE_SCHEME);
        mret tt
    end)).
Proof.
  apply tops_transaction; [apply _|].
  destruct (keeps_initialize_keys (fun l => l = LSigningKeys) domain eq_refl) as [K1 K2 K3 K4].
  split; [| |exact K3|exact K4]; intros w.
  - eapply reach_rel; [apply _| |apply K1]. intros l y z -> He. by eapply effect_token_mono.
  - eapply reach_rel; [apply _| |apply K2]. intros l y z -> He. by eapply effect_token_mono.
Qed.

Lemma initialize_spent x domain w : as_txn w = NoTxn -> settled x (as_events w) ->
  now (as_events (as_initialize domain w).2) - now (as_events w) <= skew ->
  Spent x (adb w) -> Spent x (adb (as_initialize domain w).2).
Proof.
  intros Hw Hx Ht Hs. destruct (as_initialize domain w) as [r w'] eqn:E. cbn [fst snd] in *.
  unfold as_initialize in E. unfold mbind at 1, M_bind at 1 in E.
  match type of E with context [map_errM ?f ?m w] =>
    assert (tops token_mono (map_errM f m)) as T1 by (keeps; by apply keeps_exec; [apply _|]);
    specialize (T1 w Hw); destruct (map_errM f m w) as [[a|e] w1] end; cbn [fst snd] in T1.
  2:{ injection E as _ <-. by eapply spent_mono; [apply T1|]. }
  destruct T1 as (Hw1 & Hm1 & He1). unfold mbind at 1, M_bind at 1 in E.
  match type of E with context [transaction ?f ?m w1] =>
    pose proof (tops_initialize_keys f domain w1 Hw1) as T2;
    destruct (transaction f m w1) as [[b|e] w2] end; cbn [fst snd] in T2.
  2:{ injection E as _ <-. eapply spent_mono; [|exact Hs]. etrans; [exact Hm1|apply T2]. }
  destruct T2 as (Hw2 & Hm2 & He2). unfold mbind, M_bind, map_errM, rotate_keys_if_needed in E.
  assert (Spent x (adb w2)) as Hs2 by (eapply spent_mono; [etrans; [exact Hm1|exact Hm2]|exact Hs]).
  assert (now (as_events w) <= now (as_events w2)) as Hmono by (apply now_mono; lia).
  pose proof (tops_rotate_spent x operation_types w2 Hw2) as Hrot.
  destruct (rotate_all operation_types w2) as [[l|e] w3]; cbn [fst snd map_err mret M_ret] in *;
    injection E as _ <-; (apply Hrot; [intros m id server Hm; apply Hx; lia|lia|done]).
Qed.

Lemma allowed_keys o op :
  allowed config o (LKeys op) -> o = OpRotate \/ exists domain, o = OpInitialize domain.
Proof. destruct o; cbn; intros Ha; repeat case_match; naive_solver. Qed.

(** The operations that prune keys and nonces. *)
Definition rotates (o : AsOp) : bool :=
  match o with OpRotate | OpInitialize _ => true | _ => false end.

Lemma op_keeps_spent x o w : as_txn w = NoTxn -> settled x (as_events w) ->
  (rotates o = true -> now (as_events (as_run config o w).2) - now (as_events w) <= skew) ->
  Spent x (adb w) -> Spent x (adb (as_run config o w).2).
Proof.
  intros Hw Hx Ht Hs.
  assert ({o = OpRotate \/ exists domain, o = OpInitialize domain} +
    {~ (o = OpRotate \/ exists domain, o = OpInitialize domain)}) as Hdec
    by (destruct o; (left; by eauto) || (right; by intros [|[]])).
  destruct Hdec as [[->|[domain ->]]|Hno]; try specialize (Ht eq_refl).
  - cbn [as_run] in *. unfold void, mbind, M_bind, map_errM, rotate_keys_if_needed in *.
    pose proof (tops_rotate_spent x operation_types w Hw Hx) as Hrot.
    destruct (rotate_all operation_types w) as [[l|e] w3]; cbn [fst snd map_err mret M_ret] in *; by apply Hrot.
  - cbn [as_run] in *. unfold void, mbind, M_bind, map_errM in *.
    pose proof (initialize_spent x domain w Hw Hx) as Hi.
    destruct (as_initialize domain w) as [[l|e] w3]; cbn [fst snd map_err mret M_ret] in *; by apply Hi.
  - eapply spent_mono; [apply token_mono_reach|done]; [done|]. intros l op Ha ->. by apply Hno, (allowed_keys o op).
Qed.

(** ** Invitation codes *)

Lemma invitation_generate_once : invitation_generate =
  (c ← generate_code;
   inserted ← invitation_insert c false;
   match inserted with Some c => mret c | None => throw OutOfFuel end).
Proof. reflexivity. Qed.
Lemma isolated_code {E} : isolated (generate_code (E := E)).
Proof. unfold generate_code. induction CODE_LEN as [|n IH]; cbn [generate_chars]; isolated. Qed.
Lemma generate_inv w r w' : invitation_generate w = (r, w') ->
  match r with
  | Ok c => codes (adb w) !! c = None /\ validate_code c = true /\ exists t,
      (forall s b saved, as_txn w = InTxn s b saved -> t = s) /\
      adb w' = set_invitation_codes (<[c := {| inv_redeemed := false; inv_created_at := t |}]> (codes (adb w)))
                 (adb w)
  | Err _ => adb w' = adb w
  end.
Proof.
  intros Hg. rewrite invitation_generate_once in Hg.
  stepM Hg as q w1 Hq. pose proof (keeps_adb _ _ (keeps_generate_chars eq (E := SqlxError) CODE_LEN) w) as K1.
  change (generate_chars CODE_LEN) with (generate_code (E := SqlxError)) in K1. rewrite Hq in K1. cbn [snd] in K1.
  destruct q as [c|e]; [|by destruct Hg as [-> ->]].
  stepM Hg as o w2 E. unfold invitation_insert in E. apply sql_inv in E as (_ & _ & _ & E). rewrite <- K1 in E.
  destruct o as [o|e]; [|destruct Hg as [-> ->]; by destruct E as [_ ->]].
  destruct E as (_ & _ & t & Hf & Ht). cbn zeta in Hf. fold (codes (adb w)) in Hf.
  destruct (codes (adb w) !! c) eqn:Ec; [done|]. injection Hf as <- Hd.
  injection Hg as <- <-. split_and!; [done|by eapply generate_code_valid|]. exists t. split; [|by rewrite <- Hd].
  intros s b saved Hs. destruct (isolated_code (E := SqlxError) w s b saved Hs) as [b' Hb']. rewrite Hq in Hb'. cbn in Hb'.
  by rewrite Hb' in Ht.
Qed.

Lemma token_mono_codes d c r : token_mono d (set_invitation_codes (<[c := r]> (codes d)) d).
Proof. done. Qed.
#[local] Hint Resolve token_mono_codes : core.

Lemma isolated_generate : isolated invitation_generate.
Proof.
  unfold invitation_generate. cbn [generate_loop]. isolated_step; [|unfold invitation_insert; isolated].
  apply isolated_code.
Qed.

(** Each code of a request is paid with another of its tokens. *)
Lemma issue_codes_charges tokens s b saved w cs w' :
  as_txn w = InTxn s b saved ->
  (forall t, t ∈ tokens -> aged (GetInviteCode, t) s (adb w)) ->
  issue_codes tokens w = (Ok cs, w') ->
  token_mono (adb w) (adb w') /\ size (codes (adb w')) = (size (codes (adb w)) + length cs)%nat /\
  exists c, c ⊆ tokens /\ length c = length cs /\ NoDup c /\
    forall t, t ∈ c -> ~ Spent (GetInviteCode, t) (adb w) /\ Spent (GetInviteCode, t) (adb w').
Proof.
  revert w b cs. induction tokens as [|t tokens IH]; intros w b cs Hw Hage Hi; cbn [issue_codes] in Hi.
  { injection Hi as <- <-. split_and!; [done|cbn; lia|]. exists []. split_and!; [done|done|constructor|].
    by intros t Ht%not_elem_of_nil. }
  stepM Hi as q w1 E1. apply try_inv in E1 as (r & E1 & ->).
  destruct (isolated_redeem t GetInviteCode w s b saved Hw) as [b1 Hw1]. rewrite E1 in Hw1. cbn in Hw1.
  pose proof (keeps_adb _ _ (token_mono_redeem t GetInviteCode) w) as Hm1. rewrite E1 in Hm1. cbn in Hm1.
  assert (codes (adb w1) = codes (adb w)) as Hc1.
  { apply redeem_inv in E1 as [[[-> _]|(_ & st & ->)] _]; done. }
  assert (forall t', t' ∈ tokens -> aged (GetInviteCode, t') s (adb w1)) as Hage1.
  { intros t' Ht'. eapply aged_mono; [|apply Hm1|apply Hage; by right]. lia. }
  destruct r as [[]|e].
  2:{ destruct (IH w1 b1 cs Hw1 Hage1 Hi) as (Hm & Hsz & c & Hsub & Hlen & Hnd & Hall).
      split_and!; [by etrans|congruence|]. exists c. split_and!; [set_solver|done|done|].
      intros t' Ht'. destruct (Hall t' Ht') as [Hn Hs]. split; [|done]. intros Hs'. apply Hn.
      by eapply spent_mono. }
  stepM Hi as x w2 E2. apply map_errM_inv in E2 as (q & E2 & ->).
  pose proof (isolated_generate w1 s b1 saved Hw1) as [b2 Hw2]. rewrite E2 in Hw2. cbn in Hw2.
  apply generate_inv in E2. destruct q as [c0|e]; [|by destruct Hi].
  destruct E2 as (Hc0 & _ & t0 & _ & Hd2). cbn [map_err] in Hi. bindM Hi as cs0 w3 Hi0. injection Hi as <- <-.
  assert (token_mono (adb w1) (adb w2)) as Hm2 by (rewrite Hd2; done).
  destruct (IH w2 b2 cs0 Hw2) as (Hm & Hsz & c & Hsub & Hlen & Hnd & Hall); [|done|].
  { intros t' Ht'. eapply aged_mono; [|apply Hm2|by apply Hage1]. lia. }
  assert (Spent (GetInviteCode, t) (adb w1)) as Hs1.
  { eapply redeemed_spent; [|exact E1]. unfold stmt_time. rewrite Hw. apply (Hage t). by left. }
  assert (Spent (GetInviteCode, t) (adb w2)) as Hs2 by (by eapply spent_mono).
  split_and!; [by etrans; [exact Hm1|etrans]| |].
  { rewrite Hsz, Hd2. unfold codes at 1. cbn [users_db set_invitation_codes set_users_db invitation_code].
    rewrite map_size_insert_None by done. rewrite Hc1. cbn. lia. }
  exists (t :: c). split_and!; [set_solver|cbn; lia| |].
  - constructor; [|done]. intros Hin. by apply (Hall t Hin).
  - intros t' [->|Hin]%elem_of_cons.
    + split; [intros Hs; by eapply spent_not_redeemed|by eapply spent_mono].
    + destruct (Hall t' Hin) as [Hn Hs]. split; [|done]. intros Hs'. apply Hn.
      eapply spent_mono; [exact Hm2|]. by eapply spent_mono.
Qed.

(** ** Charges of an operation *)

(** Tokens of the request, as many as services given, which were not spent before
    and are after. *)
Definition charge (o : AsOp) (w : AsWorld) (c : list (OperationType * AmortizedToken)) : Prop :=
  c ⊆ tokens_of o /\ length c = services o w /\ NoDup c /\
  forall x, x ∈ c -> ~ Spent x (adb w) /\ Spent x (adb (as_run config o w).2).

Lemma void_inv {E A} (m : M AsWorld E A) w r w' : void m w = (r, w') ->
  exists q, m w = (q, w') /\ is_ok r = is_ok q.
Proof.
  unfold void. intros Hv. stepM Hv as x w1 E1. apply map_errM_inv in E1 as (q & E1 & ->).
  destruct q as [a|e]; cbn in Hv.
  - injection Hv as <- <-. eauto.
  - destruct Hv as [-> ->]. eauto.
Qed.

Lemma mapM_r_omap {A B E} (f : A -> option B) (e : E) l bs :
  mapM_r (fun b => ok_or e (f b)) l = Ok bs -> omap f l = bs.
Proof.
  intros Hl%mapM_r_Ok. induction Hl as [|a b l bs Hab _ IH]; [done|]. cbn.
  apply ok_or_Ok in Hab. by rewrite Hab, IH.
Qed.

Lemma isolated_issue_codes tokens : isolated (issue_codes tokens).
Proof.
  induction tokens as [|t tokens IH]; cbn [issue_codes]; [isolated|].
  isolated_step; [isolated_step; apply isolated_redeem|]. isolated_step; [|done].
  isolated_step; [isolated_step; apply isolated_generate|]. isolated_step; [done|isolated].
Qed.

Lemma lock_and_count_inv w r w' : lock_and_count_codes_issued_today w = (r, w') -> adb w' = adb w.
Proof.
  intros Hl. unfold lock_and_count_codes_issued_today in Hl. stepM Hl as q w1 E1.
  unfold exec in E1. apply sql_inv in E1 as (_ & _ & _ & E1).
  destruct q as [[]|e]; [|destruct Hl as [_ ->]; apply E1].
  destruct E1 as (_ & _ & t & [= ->] & _). apply sql_inv in Hl as (_ & _ & _ & Hl).
  destruct r as [n|e]; [|apply Hl]. by destruct Hl as (_ & _ & t' & [= _ ->] & _).
Qed.
(** The transaction of [get_invitation_codes]. *)
Definition codes_body (tokens : list AmortizedToken) : M AsWorld Failure (list string) :=
  codes_today ← map_errM (fun _ => Failed (status Internal)) lock_and_count_codes_issued_today;
  _ ← fail_with (ensure (codes_today + Z.of_nat (length tokens) <=? CODES_PER_DAY)
                   (status ResourceExhausted));
  issue_codes tokens.
Lemma isolated_codes_body tokens : isolated (codes_body tokens).
Proof.
  unfold codes_body. isolated_step; [unfold lock_and_count_codes_issued_today; isolated|].
  isolated_step; [unfold fail_with; isolated|]. apply isolated_issue_codes.
Qed.
Lemma codes_body_Ok tokens w cs w' s b saved : codes_body tokens w = (Ok cs, w') ->
  as_txn w = InTxn s b saved ->
  exists n w1 b1, n + Z.of_nat (length tokens) <= CODES_PER_DAY /\
    lock_and_count_codes_issued_today w = (Ok n, w1) /\ adb w1 = adb w /\
    as_txn w1 = InTxn s b1 saved /\ issue_codes tokens w1 = (Ok cs, w').
Proof.
  intros Hb Hw. unfold codes_body in Hb. bindM Hb as n w1 E1. bindM Hb as u w2 E2. unfold fail_with in E2.
  leafM E2. inv_ok. apply map_errM_inv in E1 as (q & E1 & Hq). destruct q as [n'|]; [|done]. injection Hq as <-.
  assert (isolated lock_and_count_codes_issued_today) as Hi
    by (unfold lock_and_count_codes_issued_today; isolated).
  destruct (Hi w s b saved Hw) as [b1 Hb1]. rewrite E1 in Hb1.
  exists n, w1, b1. split_and!; [by apply Z.leb_le|done|by eapply lock_and_count_inv|done|done].
Qed.

(** A request that did not change the tables is not charged. *)
Lemma no_codes_charge bs w : adb (as_run config (OpGetCodes bs) w).2 = adb w ->
  exists c, charge (OpGetCodes bs) w c.
Proof.
  intros Hd. exists []. split_and!; [set_solver| |constructor|by intros x Hx%not_elem_of_nil].
  unfold services. rewrite Hd. cbn. lia.
Qed.

Lemma get_codes_inv bs w r w' : as_txn w = NoTxn -> get_invitation_codes bs w = (r, w') ->
  adb w' = adb w \/
  exists cs tokens w2, r = Ok cs /\ (length bs <= 10)%nat /\ omap token_of_bytes bs = tokens /\
    codes_body tokens (begun w) = (Ok cs, w2) /\ adb w' = adb w2.
Proof.
  intros Hw E. unfold get_invitation_codes in E.
  stepM E as x w1 E1. unfold fail_with, lift in E1. injection E1 as <- <-.
  destruct (map_err Failed (ensure _ _)) as [u|] eqn:El; [|destruct E as [-> ->]; by left]. inv_ok.
  stepM E as x w1 E1. unfold fail_with, lift in E1. injection E1 as <- <-.
  destruct (map_err Failed (mapM_r _ bs)) as [tokens|] eqn:Em; [|destruct E as [-> ->]; by left].
  apply map_err_Ok, mapM_r_omap in Em. fold (codes_body tokens) in E. destruct r as [cs|e].
  - apply txn_isolated_Ok in E as (w2 & b & Hb & _ & _ & _ & Hd); [|apply isolated_codes_body].
    destruct b; [by left|right]. exists cs, tokens, w2. split_and!; [done|by apply Nat.leb_le|done..].
  - apply txn_isolated_Err in E as [_ Hd]; [by left|apply isolated_codes_body|done].
Qed.

Lemma get_codes_charge bs w : as_txn w = NoTxn ->
  (forall x, x ∈ tokens_of (OpGetCodes bs) -> aged x (now (as_events w)) (adb w)) ->
  exists c, charge (OpGetCodes bs) w c.
Proof.
  intros Hw Hage. destruct (as_run config (OpGetCodes bs) w) as [r w'] eqn:E. pose proof E as E0.
  cbn [as_run] in E. apply void_inv in E as (q & E & _).
  apply get_codes_inv in E as [Hd|(cs & tokens & w2 & _ & _ & Htok & Hb & Hd)]; [| |done].
  { apply no_codes_charge. by rewrite E0. }
  eapply codes_body_Ok in Hb as (n & w1 & b1 & _ & _ & Hd1 & Hw1 & Hi); [|done].
  cbn [tokens_of] in Hage. rewrite Htok in Hage.
  destruct (issue_codes_charges tokens _ _ _ w1 cs w2 Hw1) as (_ & Hsz & c & Hsub & Hlen & Hnd & Hall);
    [|done|].
  { intros t Ht. rewrite Hd1. apply (Hage (GetInviteCode, t)). apply list_elem_of_fmap. eauto. }
  rewrite Hd1 in Hsz, Hall. exists ((fun t => (GetInviteCode, t)) <$> c).
  unfold charge, services. rewrite E0. cbn [fst snd tokens_of]. rewrite Htok, Hd. split_and!.
  - intros x (t & -> & Ht)%list_elem_of_fmap. apply list_elem_of_fmap. exists t. split; [done|by apply Hsub].
  - rewrite length_fmap, Hlen. change (adb (begun w)) with (adb w) in Hsz. lia.
  - apply NoDup_fmap_2; [|done]. by intros t t' [= ->].
  - intros x (t & -> & Ht)%list_elem_of_fmap. by apply Hall.
Qed.

(** ** Usernames *)

(** A transaction that redeems a token first, and goes on without touching tokens. *)
Lemma token_transaction {E A} (g : SqlxError -> E) f t (rest : M AsWorld E A) w a w' :
  isolated rest -> keeps token_mono rest ->
  (forall w1 a w2 s b saved, rest w1 = (Ok a, w2) -> as_txn w2 = InTxn s b saved -> b = false) ->
  aged (AddUsername, t) (now (as_events w)) (adb w) ->
  transaction g (_ ← redeem_optional f (Some t); rest) w = (Ok a, w') ->
  ~ Spent (AddUsername, t) (adb w) /\ Spent (AddUsername, t) (adb w').
Proof.
  intros Hi Hk Hna Hage Ht. apply txn_isolated_Ok in Ht as (w2 & b & Hb & Hw2 & _ & _ & Hd).
  2:{ isolated_step; [|done]. cbn [redeem_optional]. isolated_step. apply isolated_redeem. }
  bindM Hb as u w1 E1. cbn [redeem_optional] in E1. apply map_errM_inv in E1 as (q & E1 & Hq).
  destruct q as [[]|]; [|done]. rewrite (Hna _ _ _ _ _ _ Hb Hw2) in Hd. rewrite Hd. split.
  - intros Hs. by apply (spent_not_redeemed skew AddUsername t (begun w) w1).
  - eapply spent_mono; [|eapply redeemed_spent; [|exact E1]].
    + pose proof (keeps_adb _ _ Hk w1) as Hm. by rewrite Hb in Hm.
    + exact Hage.
Qed.

(** Statements on usernames leave tokens alone. *)
Lemma token_mono_username_update r : keeps token_mono (username_update r).
Proof. apply keeps_exec; [apply _|]. intros t d. cbv zeta. by case_match. Qed.
Lemma token_mono_username_store r : keeps token_mono (username_store r).
Proof. apply keeps_exec; [apply _|]. intros t d. cbv zeta. by case_match. Qed.
Lemma token_mono_update_expiration h e : keeps token_mono (update_expiration_data h e).
Proof. apply keeps_exec; [apply _|]. intros t d. cbv zeta. by case_match. Qed.
#[local] Hint Resolve token_mono_username_update token_mono_username_store
  token_mono_update_expiration : keeps.

(** What [as_create_username] and [as_refresh_username] do after the token. *)
Definition create_rest (key : bytes) (username_plaintext : string) (h : UsernameHash) :
    M AsWorld CreateUsernameError unit :=
  username ← lift (map_err CreateUsernameValidation (username_new username_plaintext));
  local_hash ← lift (ok_or CreateHashError (calculate_hash username));
  _ ← lift (ensure (bool_decide (local_hash = h)) CreateHashMismatch);
  found ← map_errM (fun _ => CreateStorageError) (load_expiration_data_for_update h);
  exists_ ← match found with
            | Some e =>
                t ← utc_now;
                if expiration_validate t e then throw CreateUsernameExists else mret true
            | None => mret false
            end;
  t ← utc_now;
  let record := {| username_hash := h; un_verifying_key := key;
                   un_expiration_data := expiration_new t USERNAME_VALIDITY_PERIOD |} in
  if (exists_ : bool) then map_errM (fun _ => CreateStorageError) (username_update record)
  else
    stored ← map_errM (fun _ => CreateStorageError) (username_store record);
    lift (ensure stored CreateUsernameExists).
Definition refresh_rest (h : UsernameHash) : M AsWorld RefreshUsernameError unit :=
  found ← map_errM (fun _ => RefreshStorageError) (load_expiration_data_for_update h);
  e ← lift (ok_or RefreshUsernameNotFound found);
  t ← utc_now;
  _ ← lift (ensure (expiration_validate t e) RefreshUsernameAlreadyExpired);
  t ← utc_now;
  map_errM (fun _ => RefreshStorageError)
    (update_expiration_data h (expiration_new t USERNAME_VALIDITY_PERIOD)).

Lemma create_rest_not_aborted key s h w a w' t b saved :
  create_rest key s h w = (Ok a, w') -> as_txn w' = InTxn t b saved -> b = false.
Proof.
  intros Hc Hw. unfold create_rest in Hc. do 5 (apply M_bind_Ok in Hc as (? & ? & ? & Hc)). bindM Hc as now' w1 Hn. cbn zeta in Hc.
  case_match.
  - apply map_errM_inv in Hc as (q & Hc & Hq). destruct q; [|done]. by eapply sql_not_aborted.
  - bindM Hc as st w2 Hs. leafM Hc. apply map_errM_inv in Hs as (q & Hs & Hq). destruct q; [|done].
    by eapply sql_not_aborted.
Qed.
Lemma refresh_rest_not_aborted h w a w' t b saved :
  refresh_rest h w = (Ok a, w') -> as_txn w' = InTxn t b saved -> b = false.
Proof.
  intros Hc Hw. unfold refresh_rest in Hc. do 5 (apply M_bind_Ok in Hc as (? & ? & ? & Hc)).
  apply map_errM_inv in Hc as (q & Hc & Hq). destruct q; [|done]. by eapply sql_not_aborted.
Qed.

Lemma create_charge key s h t w a w' : aged (AddUsername, t) (now (as_events w)) (adb w) ->
  as_create_username key s h (Some t) w = (Ok a, w') ->
  ~ Spent (AddUsername, t) (adb w) /\ Spent (AddUsername, t) (adb w').
Proof.
  intros Hage Hc. eapply (token_transaction _ _ t (create_rest key s h)); [| | |exact Hage|exact Hc].
  - unfold create_rest, load_expiration_data_for_update, load_expiration_data, username_update,
      username_store. isolated.
  - unfold create_rest, load_expiration_data_for_update, load_expiration_data. keeps.
  - intros *. apply create_rest_not_aborted.
Qed.
Lemma refresh_charge h t w a w' : aged (AddUsername, t) (now (as_events w)) (adb w) ->
  as_refresh_username h (Some t) w = (Ok a, w') ->
  ~ Spent (AddUsername, t) (adb w) /\ Spent (AddUsername, t) (adb w').
Proof.
  intros Hage Hc. eapply (token_transaction _ _ t (refresh_rest h)); [| | |exact Hage|exact Hc].
  - unfold refresh_rest, load_expiration_data_for_update, load_expiration_data, update_expiration_data. isolated.
  - unfold refresh_rest, load_expiration_data_for_update, load_expiration_data. keeps.
  - intros *. apply refresh_rest_not_aborted.
Qed.

Lemma check_version_Ok {E} (g : Status -> E) m w v w' : check_version config g m w = (Ok v, w') -> w' = w.
Proof. unfold check_version. intros Hv. leafM Hv. done. Qed.
Lemma fail_with_state {A} (r : Result Status A) (w : AsWorld) a w' :
  fail_with r w = (Ok a, w') -> r = Ok a /\ w' = w.
Proof. unfold fail_with. intros Hr. leafM Hr. by apply map_err_Ok in Hr. Qed.
Lemma parse_token_field o tok : parse_optional token_of_bytes o = Ok tok ->
  token_field o = match tok with Some t => [(AddUsername, t)] | None => [] end.
Proof.
  unfold parse_optional, token_field. destruct o as [b|]; cbn; [|by intros [= <-]]. intros Hp. inv_ok.
  by rewrite Hm.
Qed.

Lemma create_username_Ok r w a w' : create_username config r w = (Ok a, w') ->
  exists key p h tok, sr_payload r = Some p /\ cup_verifying_key p = Some key /\
    signature_valid p (default [] (sr_signature r)) key = true /\
    cup_hash p = FieldValue h /\ tokens_of (OpCreateName r) =
      match tok with Some t => [(AddUsername, t)] | None => [] end /\
    as_create_username key (cup_plaintext p) h tok w = (Ok a, w').
Proof.
  intros Hc. unfold create_username in Hc.
  bindM Hc as key w1 E1. apply fail_with_state in E1 as [E1 ->]. inv_ok.
  bindM Hc as p w2 E2. apply fail_with_state in E2 as [[Hp Hs]%verify_request_Ok ->].
  bindM Hc as v w3 E3. apply check_version_Ok in E3 as ->.
  bindM Hc as h w4 E4. apply fail_with_state in E4 as [Hh%required_Ok ->].
  bindM Hc as tok w5 E5. apply fail_with_state in E5 as [Ht%parse_token_field ->].
  apply map_errM_inv in Hc as (q & Hc & Hq). destruct q; [|done]. injection Hq as ->.
  rewrite Hm in Hp. injection Hp as ->. exists key, p, h, tok. cbn [tokens_of]. rewrite Hm.
  split_and!; done.
Qed.
Lemma refresh_username_Ok r w a w' : as_txn w = NoTxn -> refresh_username config r w = (Ok a, w') ->
  exists p h tok w1, sr_payload r = Some p /\ rnp_hash p = FieldValue h /\
    tokens_of (OpRefreshName r) = match tok with Some t => [(AddUsername, t)] | None => [] end /\
    adb w1 = adb w /\ as_txn w1 = NoTxn /\ (as_events w <= as_events w1)%nat /\
    as_refresh_username h tok w1 = (Ok a, w').
Proof.
  intros Hw Hc. unfold refresh_username in Hc.
  bindM Hc as [h p] w1 E1.
  assert (adb w1 = adb w /\ as_txn w1 = NoTxn /\ (as_events w <= as_events w1)%nat) as (Hd & Hw1 & He).
  { assert (keeps eq (verify_username_auth r)) as K.
    { unfold verify_username_auth, fail_with. keeps. by apply keeps_load_username_key, _. }
    destruct (tops_keeps _ _ K w Hw) as (T1 & T2 & T3). rewrite E1 in T1, T2, T3. done. }
  apply verify_username_Ok in E1 as [Hp Hh].
  bindM Hc as v w3 E3. apply check_version_Ok in E3 as ->.
  bindM Hc as tok w5 E5. apply fail_with_state in E5 as [Ht%parse_token_field ->].
  apply map_errM_inv in Hc as (q & Hc & Hq). destruct q; [|done]. injection Hq as ->.
  exists p, h, tok, w1. cbn [tokens_of]. rewrite Hp. split_and!; done.
Qed.

(** A successful operation with a token is charged for it. *)
Lemma one_charge o w tok : services o w = length (tokens_of o) ->
  tokens_of o = match tok with Some t => [(AddUsername, t)] | None => [] end ->
  (forall t, tok = Some t -> ~ Spent (AddUsername, t) (adb w) /\
     Spent (AddUsername, t) (adb (as_run config o w).2)) ->
  exists c, charge o w c.
Proof.
  intros Hs Ht Ha. exists (tokens_of o). unfold charge. rewrite Hs, Ht. split_and!; [done|done| |].
  - destruct tok; [apply NoDup_singleton|constructor].
  - destruct tok as [t|]; [|by intros x Hx%not_elem_of_nil].
    intros x ->%list_elem_of_singleton. by apply Ha.
Qed.
Lemma no_charge o w : services o w = 0%nat -> exists c, charge o w c.
Proof.
  intros Hs. exists []. unfold charge. rewrite Hs. split_and!; [set_solver|done|constructor|].
  by intros x Hx%not_elem_of_nil.
Qed.

Lemma op_charge o w : as_txn w = NoTxn ->
  (forall x, x ∈ tokens_of o -> aged x (now (as_events w)) (adb w)) ->
  exists c, charge o w c.
Proof.
  intros Hw Hage. destruct o; try by apply no_charge.
  - by apply get_codes_charge.
  - destruct (as_run config (OpCreateName r) w) as [q w'] eqn:E.
    destruct q as [[]|e]; [|apply no_charge; unfold services; by rewrite E].
    pose proof E as E0. apply void_inv in E as (q & E & Hq). destruct q as [a|]; [|done].
    apply create_username_Ok in E as (key & p & h & tok & _ & _ & _ & _ & Ht & E).
    apply (one_charge _ _ tok); [unfold services; by rewrite E0|done|]. intros t ->. rewrite E0.
    eapply create_charge; [|exact E]. apply Hage. rewrite Ht. by left.
  - destruct (as_run config (OpRefreshName r) w) as [q w'] eqn:E.
    destruct q as [[]|e]; [|apply no_charge; unfold services; by rewrite E].
    pose proof E as E0. apply void_inv in E as (q & E & Hq). destruct q as [a|]; [|done].
    apply refresh_username_Ok in E as (p & h & tok & w1 & _ & _ & Ht & Hd & _ & He & E); [|done].
    apply (one_charge _ _ tok); [unfold services; by rewrite E0|done|]. intros t ->. rewrite E0, <- Hd.
    eapply refresh_charge; [|exact E]. eapply aged_mono; [apply (now_mono _ _ He)|by rewrite Hd|].
    apply Hage. rewrite Ht. by left.
Qed.

(** ** Charges of a run *)

(** The rotations of keys last at most [skew] each; the keys that validate a token of
    a request are that old, and no key generated later validates it. *)
Fixpoint run_ok (os : list AsOp) (w : AsWorld) : Prop :=
  match os with
  | [] => True
  | o :: os =>
      let w' := (as_run config o w).2 in
      (rotates o = true -> now (as_events w') - now (as_events w) <= skew) /\
      (forall x, x ∈ tokens_of o -> aged x (now (as_events w)) (adb w) /\ settled x (as_events w)) /\
      run_ok os w'
  end.
Fixpoint run_services (os : list AsOp) (w : AsWorld) : list nat :=
  match os with [] => [] | o :: os => services o w :: run_services os (as_run config o w).2 end.

Lemma settled_mono x m n : (m <= n)%nat -> settled x m -> settled x n.
Proof. intros Hmn Hs k id server Hk. apply Hs. lia. Qed.

Lemma run_charges os w (S : list (OperationType * AmortizedToken)) :
  as_txn w = NoTxn -> run_ok os w ->
  (forall x, x ∈ S -> Spent x (adb w) /\ settled x (as_events w)) ->
  exists cs, Forall2 (fun o c => c ⊆ tokens_of o) os cs /\ length <$> cs = run_services os w /\
    NoDup (concat cs) /\ forall x, x ∈ S -> x ∉ concat cs.
Proof.
  revert w S. induction os as [|o os IH]; intros w S Hw Hok HS.
  { exists []. split_and!; [constructor|done|constructor|]. intros x _ Hx. by apply not_elem_of_nil in Hx. }
  destruct Hok as (Ht & Htok & Hok). destruct (as_run_reach config o w Hw) as (Hw' & _ & He).
  destruct (op_charge o w Hw) as (c & Hsub & Hlen & Hnd & Hc); [by intros x Hx; apply Htok|].
  destruct (IH (as_run config o w).2 (S ++ c) Hw' Hok) as (cs & H1' & H2' & H3' & H4').
  { intros x [Hx|Hx]%elem_of_app.
    - destruct (HS x Hx) as [Hs Hse]. split; [by apply op_keeps_spent|by eapply settled_mono].
    - destruct (Hc x Hx) as [_ Hs]. split; [done|]. eapply settled_mono; [exact He|]. by apply Htok, Hsub. }
  exists (c :: cs). split_and!; [by constructor|cbn; by rewrite Hlen, H2'| |]; cbn [concat].
  - apply NoDup_app. split_and!; [done| |done]. intros x Hx Hx'. apply (H4' x); [|done].
    apply elem_of_app. by right.
  - intros x Hx [Hx'|Hx']%elem_of_app.
    + by apply (Hc x Hx'), (HS x Hx).
    + apply (H4' x); [|done]. apply elem_of_app. by left.
Qed.

(** C5. Over any run of operations, requests with tokens in any order and any
    number of times, mixed with key rotations, each service that is given for a
    token, a new invitation code or a username created or refreshed with a token, is
    paid with another token of its request: tokens are charged at most once.  This
    is for runs in which no rotation of keys takes longer than some [skew], and in
    which every token that is presented is validated only by keys that are at that
    time older than [skew], and by none that is generated afterwards. *)
Theorem tokens_charged_once os w :
  as_txn w = NoTxn -> run_ok os w ->
  exists charges, Forall2 (fun o c => c ⊆ tokens_of o) os charges /\
    length <$> charges = run_services os w /\ NoDup (concat charges).
Proof.
  intros Hw Hok. destruct (run_charges os w [] Hw Hok) as (cs & ? & ? & ? & _); [|eauto].
  by intros x Hx%not_elem_of_nil.
Qed.

(** ** Tokens of young keys *)

Context (Hup : forall n, db_ok n = true).

Lemma redeem_fresh op t w k : as_txn w = NoTxn -> nonces (adb w) !! (op, token_nonce t) = None ->
  keys (adb w) !! (op, token_key_id t) = Some k -> token_valid (row_voprf_server k) t = true ->
  (as_redeem_token t op w).1 = Ok tt.
Proof.
  intros Hw Hn Hk Hv. unfold as_redeem_token. unfold mbind at 1, M_bind at 1.
  rewrite redeem_token_steps. unfold redeem_steps, nonce_reserve, key_get, nonce_commit, exec, query, try_, sql.
  unfold mbind, M_bind, nonces, keys in *. rewrite Hw, Hup. cbv zeta beta. rewrite Hn. cbn. rewrite Hw, Hup. cbn.
  rewrite Hk. cbn. rewrite Hv. cbn. by rewrite Hw, Hup.
Qed.

(** C37. The nonce of a token can be pruned while its key survives.  The expired keys
    are deleted first and the expired nonces a moment later, with the same maximal age:
    when a key is not yet expired at the first statement, and the nonce of a token that
    was redeemed shortly after the key was created is expired at the second, the token,
    which was refused before the rotation, is accepted again after it. *)
Theorem pruned_token_redeemed_again op t w k r :
  as_txn w = NoTxn -> has_current_key op (now (as_events w)) (adb w) = true ->
  keys (adb w) !! (op, token_key_id t) = Some k -> token_valid (row_voprf_server k) t = true ->
  nonces (adb w) !! (op, token_nonce t) = Some r ->
  now (S (as_events w)) - MAX_AGE <= row_key_created_at k ->
  row_nonce_created_at r < now (S (S (as_events w))) - MAX_AGE ->
  is_ok (as_redeem_token t op w).1 = false /\
  (as_redeem_token t op (rotate_keys_if_needed_for_operation_type op w).2).1 = Ok tt.
Proof.
  intros Hw Hcur Hk Hv Hr Hkey Hnonce. split.
  - destruct (as_redeem_token t op w) as [q w'] eqn:E. apply redeem_inv in E as [[[_ Hq]|[Hn _]] _]; [done|].
    congruence.
  - assert (exists w', rotate_keys_if_needed_for_operation_type op w = (Ok false, w') /\ as_txn w' = NoTxn /\
      adb w' = prune_nonces op (now (S (S (as_events w))) - MAX_AGE)
                 (prune_keys op (now (S (as_events w)) - MAX_AGE) (adb w))) as (w' & -> & Hw' & Hd).
    { unfold rotate_keys_if_needed_for_operation_type, exec, sql, map_errM, mbind, M_bind.
      rewrite Hw, Hup, Hcur. cbn. rewrite Hw, Hup. cbn. rewrite Hw, Hup. cbn. eexists. split; [reflexivity|]. done. }
    apply (redeem_fresh _ _ _ k); [done| | |done]; cbn [snd]; rewrite Hd.
    + unfold prune_nonces, nonces. cbn. apply map_lookup_filter_None. right. intros x Hx. cbn.
      unfold nonces in Hr. cbn in Hx. rewrite Hr in Hx. injection Hx as <-. intros Hno. by apply Hno.
    + change (keys (prune_nonces _ _ ?d)) with (keys d). apply keys_prune_keys. split; [done|]. lia.
Qed.

End Charges.
