(* ===== verification/AuthAllowance.v ===== *)
(** * Tokens are issued within the allowance

    What issuing tokens does to the allowance of a user, and what a user can be
    issued over a run of operations while an allowance is valid. *)

From S2P Require Import Prelude Aead Signatures Messages Grpc PgTask RateLimiter Credentials.
From S2P Require Import ConnectionPackages AuthDb AuthTokens AuthUsers AuthNames AuthGrpc.
From S2P Require Import AuthDbCorrect AuthTokensCorrect AuthEffects AuthOps AuthCorrect AuthCharges.

Set Warnings "-clear-no-such-hyp".

Section Issue.
Context `{Oracles} `{PrivacyPass} `{Calendar} `{!PrivacyPassLaws}.

(** The row that [ensure_exists] leaves. *)
Definition new_row (op : OperationType) (t : TimeStamp) : AllowanceRow :=
  {| row_remaining := as_i16 (max_tokens_allowance op); row_valid_until := valid_until_starting_at op t |}.
Definition row_at (u : UserId) (op : OperationType) (t : TimeStamp) (d : AsDb) : AllowanceRow :=
  default (new_row op t) (allowances d !! (u, op)).
Definition with_row (u : UserId) (op : OperationType) (r : AllowanceRow) (d : AsDb) : AsDb :=
  set_allowances (<[(u, op) := r]> (allowances d)) d.

Lemma with_row_twice u op r r' d : with_row u op r (with_row u op r' d) = with_row u op r d.
Proof.
  destruct d as [us [a n k] nm]. unfold with_row, set_allowances, set_tokens_db, allowances. cbn.
  by rewrite insert_insert_eq.
Qed.
Lemma with_row_same u op r d : allowances d !! (u, op) = Some r -> with_row u op r d = d.
Proof.
  destruct d as [us [a n k] nm]. unfold with_row, set_allowances, set_tokens_db, allowances. cbn.
  intros Hr. by rewrite insert_id.
Qed.

Lemma ensure_exists_inv u op t w r w' : as_txn w = NoTxn -> allowance_ensure_exists u op t w = (r, w') ->
  as_txn w' = NoTxn /\ (as_events w <= as_events w')%nat /\
  match r with
  | Ok _ => adb w' = with_row u op (row_at u op t (adb w)) (adb w)
  | Err _ => adb w' = adb w
  end.
Proof.
  intros Hw He. unfold allowance_ensure_exists in He. apply sql_inv in He as (Hev & _ & Hi & Hr).
  split_and!; [apply in_txn_NoTxn; rewrite Hi; by apply in_txn_NoTxn|lia|].
  destruct r as [b|e]; [|apply Hr]. destruct Hr as (_ & _ & s & Hf & _). cbv zeta in Hf.
  fold (allowances (adb w)) in Hf. unfold row_at. destruct (allowances (adb w) !! (u, op)) as [row|] eqn:Er.
  - injection Hf as _ <-. cbn. by rewrite with_row_same.
  - destruct (as_user_record _ !! u); [|done]. injection Hf as _ <-. done.
Qed.

(** Issuing either charges the row as it is at the time of the request, renewed if
    it is not valid any more, or charges nothing. *)
Lemma issue_inv u op req w r w' : as_txn w = NoTxn -> as_issue_tokens u op req w = (r, w') ->
  let t := now (as_events w) in
  let n := as_u16 (nr req) in
  let row := row_at u op t (adb w) in
  as_txn w' = NoTxn /\
  ((is_ok r = false /\ (adb w' = adb w \/ adb w' = with_row u op row (adb w))) \/
   is_ok r = true /\ op <> OpUnspecified /\ n <> 0 /\
     check_allowance (renewed (allowance_of op row) op t) op n t = Ok tt /\
     adb w' = with_row u op (charged_row op row n t) (adb w)).
Proof.
  intros Hw Hi t n row. unfold as_issue_tokens in Hi.
  stepM Hi as q0 w0 E0. unfold lift in E0. injection E0 as <- <-.
  destruct (ensure _ _) as [[]|] eqn:Eop; [|destruct Hi as [-> ->]; by eauto].
  stepM Hi as q1 w1 E1. unfold lift in E1. injection E1 as <- <-.
  destruct (ensure (negb _) _) as [[]|] eqn:En; [|destruct Hi as [-> ->]; by eauto]. inv_ok.
  stepM Hi as q2 w2 E2. injection E2 as <- <-. stepM Hi as q3 w3 E3.
  apply map_errM_inv in E3 as (q & E3 & ->). apply ensure_exists_inv in E3 as (Hw3 & He3 & Hq); [|done].
  destruct q as [b|e]; cbn [map_err] in Hi; [|destruct Hi as [-> ->]; by eauto].
  change (adb (tick w)) with (adb w) in Hq. fold t row in Hq. fold (issue_body u op req t) in Hi. destruct r as [resp|e].
  - apply txn_isolated_Ok in Hi as (w4 & b4 & Hb & Hw4 & Hn & _ & Hd); [|apply isolated_issue].
    split; [done|right]. apply issue_body_inv in Hb as [[_ [=]]|(row' & Hrow & Hc & _ & Hna & Hd')].
    rewrite (Hna _ _ _ Hw4) in Hd. change (adb (begun w3)) with (adb w3) in *. rewrite Hq in Hrow, Hd'.
    assert (row' = row) as ->.
    { unfold with_row, allowances in Hrow. cbn in Hrow. rewrite lookup_insert_eq in Hrow. congruence. }
    apply bool_decide_eq_true in Eop. apply negb_true_iff, Z.eqb_neq in En.
    split_and!; [done|done|done|done|]. rewrite Hd, Hd'.
    exact (with_row_twice u op (charged_row op row n t) row (adb w)).
  - apply txn_isolated_Err in Hi as [Hn Hd]; [|apply isolated_issue|done]. split; [done|left].
    split; [done|right]. congruence.
Qed.

Lemma renewed_row_ok op r t : allowance_ok op r ->
  0 <= ta_remaining (renewed (allowance_of op r) op t) <= max_tokens_allowance op.
Proof.
  intros [Hlo Hhi]. unfold renewed. destruct (is_valid_at _ t); cbn; [|destruct op; cbn; lia].
  unfold as_u16. destruct op; cbn in *; rewrite Z.mod_small; lia.
Qed.

(** A valid allowance goes down by the number of tokens issued. *)
Lemma charged_valid op row n t : allowance_ok op row -> t < row_valid_until row -> op <> AddUsername -> 0 <= n ->
  check_allowance (renewed (allowance_of op row) op t) op n t = Ok tt ->
  n <= row_remaining row /\
  charged_row op row n t = {| row_remaining := row_remaining row - n; row_valid_until := row_valid_until row |}.
Proof.
  intros Hok Ht Hop Hn Hc. destruct Hok as [Hlo Hhi].
  assert (as_u16 (row_remaining row) = row_remaining row) as Hu
    by (apply as_u16_small; destruct op; cbn in Hhi; lia).
  unfold charged_row. unfold renewed in *. unfold is_valid_at, allowance_of in *.
  cbn [ta_valid_until ta_remaining ta_operation_type] in *.
  rewrite (proj2 (Z.ltb_lt _ _) Ht) in *. cbn [ta_remaining ta_valid_until] in *.
  unfold check_allowance in Hc. cbn [ta_remaining] in Hc. rewrite Hu in *.
  assert (n <= row_remaining row) as Hle.
  { destruct op; try done; destruct (row_remaining row <? n) eqn:El; try done; by apply Z.ltb_ge. }
  split; [done|]. f_equal. unfold sat_sub. rewrite Z.max_r by lia. apply (as_i16_allowance op). lia.
Qed.

End Issue.

Section Budget.
Context `{Oracles} `{PrivacyPass} `{Calendar} `{Argon2} `{Semver}.
Context `{Sha256} `{SignatureScheme} `{CredentialCodecs}.
Context `{!TlsCodec ConnectionPackageV1Payload} `{!TlsCodec ConnectionPackagePayload}.
Context `{!VerifiableRequest DeleteUserPayload} `{!VerifiableRequest PublishConnectionPackagesPayload}
  `{!VerifiableRequest StageUserProfilePayload} `{!VerifiableRequest MergeUserProfilePayload}
  `{!VerifiableRequest IssueTokensPayload} `{!VerifiableRequest ReportSpamPayload}
  `{!VerifiableRequest CreateUsernamePayload} `{!VerifiableRequest DeleteUsernamePayload}
  `{!VerifiableRequest RefreshUsernamePayload} `{!VerifiableRequest InitListenUsernamePayload}.
Context `{!PrivacyPassLaws} `{!ClockLaws}.
Context (config : AsConfig).

(** The tokens for an operation type that a request of a user was issued. *)
Definition issued (u : UserId) (op : OperationType) (o : AsOp) (w : AsWorld) : Z :=
  match o with
  | OpIssueTokens r =>
      match sr_payload r with
      | Some p =>
          match itp_user_id p, operation_of_i32 (itp_operation_type p),
                token_request_of_bytes (itp_token_request p) with
          | FieldValue u', Some op', Some req =>
              if decide (u' = u /\ op' = op /\ is_ok (as_run config o w).1 = true) then nr req else 0
          | _, _, _ => 0
          end
      | None => 0
      end
  | _ => 0
  end.
Fixpoint run_issued (u : UserId) (op : OperationType) (os : list AsOp) (w : AsWorld) : Z :=
  match os with
  | [] => 0
  | o :: os => issued u op o w + run_issued u op os (as_run config o w).2
  end.

(** No request of the run asks for more tokens than the counter holds. *)
Definition small_request (o : AsOp) : Prop :=
  match o with
  | OpIssueTokens r => forall p req, sr_payload r = Some p ->
      token_request_of_bytes (itp_token_request p) = Some req -> nr req < 2 ^ 16
  | _ => True
  end.
Definition deletes_user (u : UserId) (o : AsOp) : Prop :=
  match o with OpDeleteUser r => names_user r u | _ => False end.

(** Effects on other allowances keep the row. *)
Lemma effect_keeps_allowance l d d' u op : effect l d d' ->
  l <> LUserDelete u -> l <> LAllowance u op ->
  is_Some (allowances d !! (u, op)) -> allowances d' !! (u, op) = allowances d !! (u, op).
Proof.
  intros He H1' H2' Hs. destruct He; try done.
  - unfold delete_user_rows. destruct (as_user_record _ !! u0) eqn:Eu; [|done].
    destruct Hs as [row Hrow]. rewrite Hrow. unfold allowances in *. cbn. apply map_lookup_filter_Some. split; [done|]. cbn. congruence.
  - unfold allowances. cbn. by rewrite lookup_insert_ne by congruence.
  - unfold allowances. cbn. by rewrite lookup_insert_ne by congruence.
Qed.
Lemma reach_keeps_allowance L d d' u op row : reach L d d' ->
  ~ L (LUserDelete u) -> ~ L (LAllowance u op) -> allowances d !! (u, op) = Some row ->
  allowances d' !! (u, op) = Some row.
Proof.
  intros Hr H1' H2' Hrow. eapply (reach_inv L (fun d => allowances d !! (u, op) = Some row)); [|exact Hr|done].
  intros l x y Hl He Hx. rewrite <- Hx. eapply effect_keeps_allowance; [exact He|..]; try congruence. by rewrite Hx.
Qed.

Lemma tops_eq_state {E A} (m : M AsWorld E A) w r w' : keeps eq m -> as_txn w = NoTxn -> m w = (r, w') ->
  adb w' = adb w /\ as_txn w' = NoTxn /\ (as_events w <= as_events w')%nat.
Proof.
  intros Hk Hw Hm. destruct (tops_keeps _ _ Hk w Hw) as (T1 & T2 & T3). by rewrite Hm in T1, T2, T3.
Qed.
Lemma keeps_eq_user_auth {P} `{!VerifiableRequest P} `{!WithUserId P} (r : SignedRequest P) :
  keeps eq (verify_user_auth r).
Proof. unfold verify_user_auth, fail_with. keeps. by apply keeps_load_client_key, _. Qed.

(** What the handler does once the request is accepted. *)
Lemma issue_tokens_inv r w q w' : as_txn w = NoTxn -> issue_tokens config r w = (q, w') ->
  (is_ok q = false /\ adb w' = adb w) \/
  exists u p op req w1 x, sr_payload r = Some p /\ itp_user_id p = FieldValue u /\
    operation_of_i32 (itp_operation_type p) = Some op /\
    token_request_of_bytes (itp_token_request p) = Some req /\
    adb w1 = adb w /\ as_txn w1 = NoTxn /\ (as_events w <= as_events w1)%nat /\
    as_issue_tokens u op req w1 = (x, w') /\ (is_ok q = true -> is_ok x = true).
Proof.
  intros Hw Hi. unfold issue_tokens in Hi. stepM Hi as x w1 E1.
  destruct (tops_eq_state _ _ _ _ (keeps_eq_user_auth r) Hw E1) as (Hd & Hw1 & He).
  destruct x as [[u p]|e]; [|destruct Hi as [-> ->]; by left].
  apply user_auth_Ok in E1 as [Hp Hu].
  stepM Hi as x w2 E2. unfold check_version, lift in E2. injection E2 as <- <-.
  destruct (map_err _ _) as [v|]; [|destruct Hi as [-> ->]; by left].
  stepM Hi as x w2 E2. unfold fail_with, lift in E2. injection E2 as <- <-.
  destruct (map_err _ _) as [op|] eqn:Eop; [|destruct Hi as [-> ->]; by left].
  stepM Hi as x w2 E2. unfold fail_with, lift in E2. injection E2 as <- <-.
  destruct (map_err _ (ok_or _ (token_request_of_bytes _))) as [req|] eqn:Ereq;
    [|destruct Hi as [-> ->]; by left]. inv_ok.
  stepM Hi as x w2 E2. apply map_errM_inv in E2 as (y & E2 & ->). right.
  exists u, p, op, req, w1, y. destruct y as [resp|e]; cbn [map_err] in Hi.
  - unfold fail_with, lift in Hi. injection Hi as <- <-. split_and!; done.
  - destruct Hi as [-> ->]. split_and!; done.
Qed.

(** What an operation that runs within the validity of a row leaves of it, for [n]
    tokens or more. *)
Definition spends (u : UserId) (op : OperationType) (row : AllowanceRow) (n : Z) (d : AsDb) : Prop :=
  exists row', allowances d !! (u, op) = Some row' /\ allowance_ok op row' /\
    row_valid_until row' = row_valid_until row /\ n + row_remaining row' <= row_remaining row.

Lemma spends_nothing u op row d : allowance_ok op row -> allowances d !! (u, op) = Some row ->
  spends u op row 0 d.
Proof. intros Hok Hr. exists row. split_and!; done || lia. Qed.
Lemma with_row_lookup u op u' op' r d :
  allowances (with_row u op r d) !! (u', op') = if decide ((u, op) = (u', op')) then Some r else allowances d !! (u', op').
Proof. unfold with_row, allowances. cbn. rewrite lookup_insert. by repeat case_decide; simplify_eq. Qed.

Lemma issue_op_budget u op r w row :
  as_txn w = NoTxn -> op <> AddUsername -> small_request (OpIssueTokens r) ->
  allowances (adb w) !! (u, op) = Some row -> allowance_ok op row ->
  now (as_events (as_run config (OpIssueTokens r) w).2) < row_valid_until row ->
  spends u op row (issued u op (OpIssueTokens r) w) (adb (as_run config (OpIssueTokens r) w).2).
Proof.
  intros Hw Hop Hsmall Hrow Hok Ht. unfold issued.
  destruct (as_run config (OpIssueTokens r) w) as [q w'] eqn:E. cbn [fst snd] in *.
  apply void_inv in E as (x & E & Hq). rewrite Hq. clear q Hq.
  apply issue_tokens_inv in E as [[Hx Hd]|(u1 & p & op1 & req & w1 & y & Hp & Hu & Hop1 & Hreq & Hd1 & Hw1 & He1 & E & Hxy)];
    [| |done].
  { rewrite Hd, Hx. repeat case_match; try (by apply spends_nothing). by destruct_and!. }
  rewrite Hp, Hu, Hop1, Hreq. assert (issue_end : (as_events w1 <= as_events w')%nat).
  { destruct (tops_issue (fun _ => True) u1 op1 req I w1 Hw1) as (_ & _ & Hle). by rewrite E in Hle. }
  apply issue_inv in E as (_ & [[Hy Hd]|(_ & _ & Hn & Hc & Hd)]); [| |done]; rewrite Hd1 in Hd.
  - rewrite decide_False by (intros (_ & _ & Hx); rewrite (Hxy Hx) in Hy; done). apply spends_nothing; [done|].
    destruct Hd as [->| ->]; [done|]. rewrite with_row_lookup. case_decide; [|done]. simplify_eq.
    unfold row_at. by rewrite Hrow.
  - rewrite Hd. destruct (decide ((u1, op1) = (u, op))) as [[= -> ->]|Hne].
    2:{ rewrite decide_False by naive_solver. apply spends_nothing; [done|].
        rewrite with_row_lookup. by rewrite decide_False. }
    assert (row_at u op (now (as_events w1)) (adb w1) = row) as Hat by (unfold row_at; by rewrite Hd1, Hrow).
    rewrite Hd1 in Hat. rewrite Hd1, Hat in Hc. rewrite Hat.
    assert (0 <= nr req < 2 ^ 16) as Hnr by (split; [apply nr_nonneg|by eapply Hsmall]).
    rewrite as_u16_small in Hc |- * by done.
    apply charged_valid in Hc as [Hle Hch]; [|done| |done|lia].
    2:{ eapply Z.le_lt_trans; [|exact Ht]. apply now_mono. lia. }
    exists (charged_row op row (nr req) (now (as_events w1))). rewrite with_row_lookup, decide_True by done.
    rewrite Hch. destruct Hok as [Hlo Hhi]. split_and!; [done|split; cbn; lia|done|]. cbn.
    case_decide; lia.
Qed.

(** One operation. *)
Lemma op_budget u op o w row :
  as_txn w = NoTxn -> op <> AddUsername -> small_request o -> ~ deletes_user u o ->
  allowances (adb w) !! (u, op) = Some row -> allowance_ok op row ->
  now (as_events (as_run config o w).2) < row_valid_until row ->
  spends u op row (issued u op o w) (adb (as_run config o w).2).
Proof.
  intros Hw Hop Hsmall Hdel Hrow Hok Ht. destruct (as_run_reach config o w Hw) as (_ & Hr & _).
  assert (~ allowed config o (LUserDelete u)) as Hnd.
  { intros Ha. apply Hdel. destruct o; cbn in Ha |- *; repeat case_match; naive_solver. }
  assert ((exists r, o = OpIssueTokens r) \/ issued u op o w = 0 /\ ~ allowed config o (LAllowance u op))
    as [[r ->]|[-> Ha]].
  { destruct o; cbn [issued allowed]; eauto; right; (split; [done|]); repeat case_match; naive_solver. }
  - by apply issue_op_budget.
  - apply spends_nothing; [done|]. by eapply reach_keeps_allowance.
Qed.

(** C26. For an operation type whose allowance is enforced, that is for every one but
    [AddUsername]: while an allowance of a user is valid, and the user is not deleted,
    the tokens that the user is issued for the operation type over any run of operations
    with requests of fewer than 2^16 tokens each, the range of the counter to which the
    service converts their number, fit into what was left of the allowance: for
    invitation codes, at most one a day. *)
Theorem allowance_budget u op os w row :
  as_txn w = NoTxn -> op <> AddUsername -> Forall small_request os -> Forall (fun o => ~ deletes_user u o) os ->
  allowances (adb w) !! (u, op) = Some row -> allowance_ok op row ->
  now (as_events (as_runs config os w)) < row_valid_until row ->
  spends u op row (run_issued u op os w) (adb (as_runs config os w)).
Proof.
  intros Hw Hop Hsmall Hdel. revert w row Hw. induction os as [|o os IH]; intros w row Hw Hrow Hok Ht.
  { by apply spends_nothing. }
  apply Forall_cons in Hsmall as [Hs1 Hsmall], Hdel as [Hd1 Hdel]. cbn [as_runs foldl run_issued] in *.
  fold (as_runs config os (as_run config o w).2) in *.
  destruct (as_run_reach config o w Hw) as (Hw' & _ & _).
  assert (as_events (as_run config o w).2 <= as_events (as_runs config os (as_run config o w).2))%nat as He
    by (by apply as_runs_events).
  destruct (op_budget u op o w row) as (row1 & Hr1 & Hok1 & Hv1 & Hle1); try done.
  { eapply Z.le_lt_trans; [|exact Ht]. by apply now_mono. }
  destruct (IH Hsmall Hdel _ row1 Hw' Hr1 Hok1) as (row2 & Hr2 & Hok2 & Hv2 & Hle2); [by rewrite Hv1|].
  exists row2. split_and!; [done|done|congruence|lia].
Qed.

End Budget.
