(* ===== verification/AuthAuthority.v ===== *)
(** * On whose authority the service changes data

    The data of a user changes only by requests signed with the key of the user's
    client; a username that has not expired changes only by requests signed with its
    key. *)

From S2P Require Import Prelude Aead Signatures Messages Grpc PgTask RateLimiter Credentials.
From S2P Require Import ConnectionPackages AuthDb AuthTokens AuthUsers AuthNames AuthGrpc.
From S2P Require Import AuthDbCorrect AuthTokensCorrect AuthEffects AuthOps AuthCorrect AuthCharges.
From S2P Require Import AuthAllowance.

Set Warnings "-clear-no-such-hyp".

Section Authority.
Context `{Oracles} `{PrivacyPass} `{Calendar} `{Argon2} `{Semver}.
Context `{Sha256} `{SignatureScheme} `{CredentialCodecs}.
Context `{!TlsCodec ConnectionPackageV1Payload} `{!TlsCodec ConnectionPackagePayload}.
Context `{!VerifiableRequest DeleteUserPayload} `{!VerifiableRequest PublishConnectionPackagesPayload}
  `{!VerifiableRequest StageUserProfilePayload} `{!VerifiableRequest MergeUserProfilePayload}
  `{!VerifiableRequest IssueTokensPayload} `{!VerifiableRequest ReportSpamPayload}
  `{!VerifiableRequest CreateUsernamePayload} `{!VerifiableRequest DeleteUsernamePayload}
  `{!VerifiableRequest RefreshUsernamePayload} `{!VerifiableRequest InitListenUsernamePayload}.
Context `{!PrivacyPassLaws}.
Context (config : AsConfig).

(** ** Users *)

(** The key of the credential that is stored for a user. *)
Definition client_key (u : UserId) (d : AsDb) : option bytes :=
  r ← client_row u d; c ← into_client_credential (row_credential r) u; Some (cc_verifying_key c).

(** A request of a user with a valid signature. *)
Definition signed_by_user {P} `{!VerifiableRequest P} `{!WithUserId P} (r : SignedRequest P) (u : UserId)
    (key : bytes) : Prop :=
  exists p, sr_payload r = Some p /\ user_id_proto p = FieldValue u /\
    signature_valid p (default [] (sr_signature r)) key = true.
Definition user_request (o : AsOp) (u : UserId) (key : bytes) : Prop :=
  match o with
  | OpDeleteUser r => signed_by_user r u key
  | OpStageProfile r => signed_by_user r u key
  | OpMergeProfile r => signed_by_user r u key
  | OpIssueTokens r => signed_by_user r u key
  | _ => False
  end.

(** The record of a user, the client and the allowances are as before. *)
Definition user_untouched (u : UserId) (d d' : AsDb) : Prop :=
  users d' !! u = users d !! u /\
  (forall r, client_row u d = Some r -> client_row u d' = Some r) /\
  forall op, allowances d' !! (u, op) = allowances d !! (u, op).

Lemma load_client_key_Ok u w key w' : load_client_key u w = (Ok key, w') -> client_key u (adb w) = Some key.
Proof.
  intros Hl. unfold load_client_key in Hl. bindM Hl as o w1 E1. leafM Hl. apply ok_or_Ok in Hl as ->.
  apply map_errM_inv in E1 as (q & E1 & Hq). destruct q as [o|]; [|done]. injection Hq as <-.
  unfold load_client_verifying_key in E1. bindM E1 as rec w2 E2. injection E1 as E1 _.
  unfold client_load in E2. bindM E2 as row w3 E3. apply map_errM_inv in E3 as (q & E3 & Hq).
  destruct q as [row'|]; [|done]. injection Hq as ->. apply query_inv in E3 as (_ & _ & _ & _ & Hrow).
  destruct row' as [row|]; [|injection E2 as <- <-; done]. bindM E2 as c w4 E4. leafM E4. inv_ok.
  injection E2 as <- <-. unfold client_key. rewrite <- Hrow. cbn. rewrite E4. cbn. by cbn in E1.
Qed.
Lemma verify_user_signed {P} `{!VerifiableRequest P} `{!WithUserId P} (r : SignedRequest P) w u p w' :
  verify_user_auth r w = (Ok (u, p), w') -> exists key, client_key u (adb w) = Some key /\ signed_by_user r u key.
Proof.
  intros Hv. pose proof (user_auth_Ok _ _ _ _ _ Hv) as [Hp Hu]. unfold verify_user_auth in Hv.
  bindM Hv as u' w1 E1. apply fail_with_state in E1 as [_ ->]. bindM Hv as key w2 E2. bindM Hv as p' w3 E3.
  apply fail_with_state in E3 as [E3 ->]. injection Hv as -> -> ->.
  apply load_client_key_Ok in E2. exists key. split; [done|]. apply verify_request_Ok in E3 as [_ E3]. by exists p.
Qed.

Lemma effect_untouched l d d' u : effect l d d' -> is_Some (users d !! u) ->
  l <> LUserProfile u -> l <> LUserDelete u -> (forall op, l <> LAllowance u op) -> user_untouched u d d'.
Proof.
  intros He Hs H1' H2' H3'. destruct He; try (by split_and!).
  - split_and!; [|done|done]. unfold users. cbn. rewrite lookup_insert_ne; [done|]. intros ->.
    destruct Hs. congruence.
  - split_and!; [|done|done]. unfold users. cbn. by rewrite lookup_insert_ne by congruence.
  - unfold delete_user_rows. destruct (as_user_record _ !! u0) eqn:Eu; [|by split_and!].
    assert (u0 <> u) as Hne by congruence. split_and!.
    + unfold users. cbn. by rewrite lookup_delete_ne.
    + intros r Hr. unfold client_row in *. cbn. apply bind_Some in Hr as (r0 & Hr0 & Hr).
      case_decide as Hdom; [|done]. injection Hr as ->.
      apply bind_Some. exists r. split; [|by rewrite decide_True]. apply map_lookup_filter_Some.
      split; [done|]. unfold client_of. apply bool_decide_eq_false. cbn. intros [Hid Hd]. apply Hne.
      destruct u, u0. cbn in *. congruence.
    + intros op. unfold allowances. cbn. destruct (as_token_allowance (tokens_db d) !! (u, op)) eqn:Ea.
      * apply map_lookup_filter_Some. split; [done|]. cbn. congruence.
      * apply map_lookup_filter_None. by left.
  - split_and!; [done| |done]. intros r' Hr'. unfold client_row in *. cbn.
    apply bind_Some in Hr' as (r0 & Hr0 & Hr'). fold (clients d) in Hr0.
    rewrite lookup_insert_ne; [by rewrite Hr0|]. congruence.
  - split_and!; [done|done|]. intros op'. unfold allowances. cbn. rewrite lookup_insert_ne; [done|]. intros [= -> ->].
    by eapply H3'.
  - split_and!; [done|done|]. intros op'. unfold allowances. cbn. rewrite lookup_insert_ne; [done|]. intros [= -> ->].
    by eapply H3'.
Qed.
#[export] Instance user_untouched_preorder u : PreOrder (user_untouched u).
Proof.
  split; [by intros d; split_and!|]. intros a b c (U1 & C1 & A1) (U2 & C2 & A2).
  split_and!; [congruence|auto|]. intros op. by rewrite A2.
Qed.
Lemma reach_untouched L d d' u : reach L d d' -> is_Some (users d !! u) ->
  ~ L (LUserProfile u) -> ~ L (LUserDelete u) -> (forall op, ~ L (LAllowance u op)) -> user_untouched u d d'.
Proof.
  intros Hr Hs H1' H2' H3'. induction Hr as [|x y z (l & Hl & He) _ IH]; [done|].
  assert (user_untouched u x y) as Hxy.
  { eapply effect_untouched; [exact He|done|congruence|congruence|]. intros op ->. by eapply H3'. }
  etrans; [exact Hxy|]. apply IH. by rewrite (proj1 Hxy).
Qed.

(** A handler that starts with the authentication of a user. *)
Lemma user_handler {P A} `{!VerifiableRequest P} `{!WithUserId P} (r : SignedRequest P)
    (f : UserId * P -> M AsWorld Failure A) o u w :
  as_run config o = void (x ← verify_user_auth r; f x) -> as_txn w = NoTxn -> is_Some (users (adb w) !! u) ->
  (forall u', ~ names_user r u' -> ~ allowed config o (LUserProfile u') /\ ~ allowed config o (LUserDelete u') /\
     forall op, ~ allowed config o (LAllowance u' op)) ->
  user_untouched u (adb w) (adb (as_run config o w).2) \/
  exists key, client_key u (adb w) = Some key /\ signed_by_user r u key.
Proof.
  intros Ho Hw Hs Hl. destruct (as_run_reach config o w Hw) as (_ & Hr & _).
  destruct (as_run config o w) as [q w'] eqn:E. cbn [snd] in *. rewrite Ho in E. apply void_inv in E as (x & E & _).
  stepM E as y w1 E1. destruct (tops_eq_state _ _ _ _ (keeps_eq_user_auth r) Hw E1) as (Hd & _ & _).
  destruct y as [[u' p]|e]; [|destruct E as [-> ->]; left; by rewrite Hd].
  destruct (decide (u' = u)) as [->|Hne]; [right; by eapply verify_user_signed|left].
  destruct (Hl u) as (L1 & L2 & L3).
  { intros (p' & Hp' & Hu'). apply user_auth_Ok in E1 as [Hp Hu]. congruence. }
  by eapply reach_untouched.
Qed.

(** C14. The record, the client and the allowances of a user stay as they are under
    every operation, except a request that names the user and is signed under the
    key of the stored client credential. *)
Theorem user_data_authentic o w u : as_txn w = NoTxn -> is_Some (users (adb w) !! u) ->
  user_untouched u (adb w) (adb (as_run config o w).2) \/
  exists key, client_key u (adb w) = Some key /\ user_request o u key.
Proof.
  intros Hw Hs. destruct (as_run_reach config o w Hw) as (_ & Hr & _).
  destruct o; try (left; eapply reach_untouched; [exact Hr|done|..]; cbn; intros; repeat case_match; naive_solver).
  - eapply (user_handler r); [reflexivity|done|done|]. cbn. naive_solver.
  - eapply (user_handler r); [reflexivity|done|done|]. cbn. naive_solver.
  - eapply (user_handler r); [reflexivity|done|done|]. cbn. naive_solver.
  - eapply (user_handler r); [reflexivity|done|done|]. cbn. naive_solver.
Qed.

End Authority.
