(* ===== verification/AuthNamesCorrect.v ===== *)
(** * Usernames

    What creating, refreshing and deleting usernames, publishing connection packages
    and connecting do to the tables, and who can change a username. *)

From S2P Require Import Prelude Aead Signatures Messages Grpc PgTask RateLimiter Credentials.
From S2P Require Import ConnectionPackages AuthDb AuthTokens AuthUsers AuthNames AuthGrpc.
From S2P Require Import AuthDbCorrect AuthTokensCorrect AuthEffects AuthOps AuthCorrect AuthCharges.
From S2P Require Import AuthAllowance AuthAuthority.

Set Warnings "-clear-no-such-hyp".

Section Names.
Context `{Oracles} `{PrivacyPass} `{!PrivacyPassLaws} `{Argon2}.

(** A statement outside of or inside a transaction. *)
Lemma exec_inv {A} (f : TimeStamp -> AsDb -> A * AsDb) w r w' : exec f w = (r, w') ->
  as_events w' = S (as_events w) /\
  match r with
  | Ok a => exists t, f t (adb w) = (a, adb w') /\ t = stmt_time w
  | Err _ => adb w' = adb w
  end.
Proof.
  intros He. unfold exec in He. apply sql_inv in He as (He & _ & _ & Hr). split; [done|].
  destruct r as [a|e]; [|apply Hr]. destruct Hr as (_ & _ & t & [= Hf] & Ht). exists t. split; [done|]. unfold stmt_time. by destruct (as_txn w).
Qed.

(** The tables after the token, if any, was redeemed. *)
Definition after_token (tok : option AmortizedToken) (d d' : AsDb) : Prop :=
  match tok with
  | None => d' = d
  | Some t => nonces d !! (AddUsername, token_nonce t) = None /\
      exists r, d' = with_nonce AddUsername (token_nonce t) r d
  end.
Lemma redeem_optional_Ok {E} (f : RedeemTokenError -> E) tok w a w' :
  redeem_optional f tok w = (Ok a, w') ->
  after_token tok (adb w) (adb w') /\ (as_events w <= as_events w')%nat.
Proof.
  intros Hr. split.
  - destruct tok as [t|]; cbn in Hr |- *; [|by injection Hr as _ <-].
    apply map_errM_inv in Hr as (q & Hr & Hq). destruct q as [[]|]; [|done].
    apply redeem_inv in Hr as [[[_ [=]]|(Hn & st & Hd)] _]. eauto.
  - assert (keeps (fun _ _ => True) (redeem_optional f tok)) as K.
    { destruct tok; cbn [redeem_optional]; keeps. apply keeps_any_redeem. }
    pose proof (keeps_events _ _ K w) as He. by rewrite Hr in He.
Qed.
Lemma after_token_handles tok d d' : after_token tok d d' -> names_db d' = names_db d /\ users_db d' = users_db d.
Proof. destruct tok as [t|]; cbn; [|by intros ->]. by intros (_ & r & ->). Qed.

Lemma load_expiration_inv {E} (g : SqlxError -> E) h w o w' :
  map_errM g (load_expiration_data h) w = (Ok o, w') ->
  adb w' = adb w /\ as_txn w' = as_txn w /\ (as_events w <= as_events w')%nat /\
  o = row_expiration_data <$> handles (adb w) !! h.
Proof.
  intros Hl. apply map_errM_inv in Hl as (q & Hl & Hq). destruct q as [x|]; [|done]. injection Hq as ->.
  assert (keeps (fun _ _ => True) (load_expiration_data h)) as K by (unfold load_expiration_data; keeps).
  pose proof (keeps_events _ _ K w) as He. rewrite Hl in He.
  unfold load_expiration_data in Hl. apply query_inv in Hl as (Hd & _ & _ & Ht & ->). done.
Qed.

(** ** Creation *)

Definition with_handle (h : UsernameHash) (r : HandleRow) (d : AsDb) : AsDb :=
  set_handles (<[h := r]> (handles d)) d.

(** Creating succeeds only for the hash of a valid username that does not exist or
    has expired; the request's key becomes the key of the username. *)
Lemma create_rest_Ok key s h w w' : create_rest key s h w = (Ok tt, w') ->
  username_new s = Ok s /\ calculate_hash s = Some h /\
  (handles (adb w) !! h = None \/
   exists r n, handles (adb w) !! h = Some r /\ (as_events w <= n < as_events w')%nat /\
     expiration_validate (now n) (row_expiration_data r) = false) /\
  exists n, (as_events w <= n < as_events w')%nat /\
    adb w' = with_handle h {| row_verifying_key := key;
                              row_expiration_data := expiration_new (now n) USERNAME_VALIDITY_PERIOD |} (adb w).
Proof.
  intros Hc. unfold create_rest in Hc.
  bindM Hc as s' w1 E1. leafM E1. apply map_err_Ok in E1.
  assert (username_new s = Ok s /\ s' = s) as [Hs ->].
  { split; [|]; revert E1; unfold username_new; intros E1; inv_ok; [|done].
    repeat match goal with Hx : _ = true |- _ => rewrite Hx; clear Hx end. done. }
  bindM Hc as lh w2 E2. leafM E2. apply ok_or_Ok in E2.
  bindM Hc as u3 w3 E3. leafM E3. apply ensure_Ok, bool_decide_eq_true in E3 as ->.
  bindM Hc as found w4 E4. apply load_expiration_inv in E4 as (Hd4 & _ & He4 & ->).
  bindM Hc as ex w5 E5. bindM Hc as t6 w6 E6. injection E6 as <- <-. cbv zeta in Hc.
  assert (adb w5 = adb w4 /\ (as_events w4 <= as_events w5)%nat /\
    (ex = false -> handles (adb w) !! h = None) /\
    (ex = true -> exists r n, handles (adb w) !! h = Some r /\ (as_events w4 <= n < as_events w5)%nat /\
       expiration_validate (now n) (row_expiration_data r) = false)) as (Hd5 & He5 & Hno & Hyes).
  { destruct (handles (adb w) !! h) as [r|]; cbn [fmap option_fmap option_map] in E5.
    - bindM E5 as t5 w7 E7. injection E7 as <- <-.
      destruct (expiration_validate _ _) eqn:Ev; [done|]. injection E5 as <- <-.
      split_and!; [done|cbn; lia|done|]. intros _. exists r, (as_events w4). split_and!; [done|lia|cbn; lia|done].
    - injection E5 as <- <-. split_and!; [done|done|done|done]. }
  assert (exists n, as_events w' = S n /\ (as_events w5 < n)%nat /\
    adb w' = with_handle h {| row_verifying_key := key;
      row_expiration_data := expiration_new (now (as_events w5)) USERNAME_VALIDITY_PERIOD |} (adb w)) as (n & Hn & Hlt & Hd).
  { rewrite <- Hd4, <- Hd5. destruct ex.
    - apply map_errM_inv in Hc as (q & Hc & Hq). destruct q; [|done].
      apply exec_inv in Hc as (He & t & Hf & _). eexists. split_and!; [exact He|cbn; lia|].
      cbv zeta in Hf. change (adb (tick w5)) with (adb w5) in Hf. rewrite Hd5, Hd4 in Hf |- *.
      fold (handles (adb w)) in Hf. cbn [username_hash] in Hf.
      destruct (Hyes eq_refl) as (r & _ & Hr & _). rewrite Hr in Hf. by injection Hf as _ <-.
    - bindM Hc as st w7 E7. leafM Hc. inv_ok. apply map_errM_inv in E7 as (q & E7 & Hq). destruct q; [|done].
      apply exec_inv in E7 as (He & t & Hf & _). eexists. split_and!; [exact He|cbn; lia|].
      cbv zeta in Hf. change (adb (tick w5)) with (adb w5) in Hf. rewrite Hd5, Hd4 in Hf |- *.
      fold (handles (adb w)) in Hf. cbn [username_hash] in Hf. rewrite (Hno eq_refl) in Hf. by injection Hf as _ <-. }
  split_and!; [done|done| |exists (as_events w5); split; [lia|done]].
  destruct ex; [right|left; by apply Hno]. destruct (Hyes eq_refl) as (r & m & Hr & Hm & Hv).
  exists r, m. split_and!; [done|lia|lia|done].
Qed.

(** [as_create_username]. *)
Lemma create_inv key s h tok w r w' : as_txn w = NoTxn -> as_create_username key s h tok w = (r, w') ->
  as_txn w' = NoTxn /\
  match r with
  | Err _ => adb w' = adb w
  | Ok _ =>
      username_new s = Ok s /\ calculate_hash s = Some h /\
      (handles (adb w) !! h = None \/
       exists row n, handles (adb w) !! h = Some row /\ (as_events w <= n < as_events w')%nat /\
         expiration_validate (now n) (row_expiration_data row) = false) /\
      exists d n, after_token tok (adb w) d /\ (as_events w <= n < as_events w')%nat /\
        adb w' = with_handle h {| row_verifying_key := key;
                   row_expiration_data := expiration_new (now n) USERNAME_VALIDITY_PERIOD |} d
  end.
Proof.
  intros Hw Hc. unfold as_create_username in Hc.
  assert (isolated (_ ← redeem_optional CreateTokenRedemption tok; create_rest key s h)) as Hi.
  { isolated_step; [destruct tok; cbn [redeem_optional]; isolated; apply isolated_redeem|].
    unfold create_rest, load_expiration_data_for_update, load_expiration_data, username_update,
      username_store. isolated. }
  destruct r as [[]|e]; [|by apply txn_isolated_Err in Hc].
  apply txn_isolated_Ok in Hc as (w2 & b & Hb & Hw2 & Hn & He & Hd); [|exact Hi]. split; [done|].
  bindM Hb as u1 w1 E1. apply redeem_optional_Ok in E1 as [Htok He1].
  pose proof (create_rest_not_aborted _ _ _ _ _ _ _ _ _ Hb Hw2) as ->. rewrite Hd.
  apply create_rest_Ok in Hb as (Hs & Hh & Hfree & n & Hrange & Hd2).
  destruct (after_token_handles _ _ _ Htok) as [Hnames _]. unfold handles in Hfree. rewrite Hnames in Hfree.
  change (as_events (begun w)) with (S (as_events w)) in He1. change (adb (begun w)) with (adb w) in *.
  split_and!; [done|done| |].
  - destruct Hfree as [Hf|(row & m & Hr & Hm & Hv)]; [by left|right]. exists row, m. split_and!; [done|lia|lia|done].
  - exists (adb w1), n. split_and!; [done|lia|lia|done].
Qed.

(** ** Refreshing *)

Lemma refresh_inv h tok w r w' : as_txn w = NoTxn -> as_refresh_username h tok w = (r, w') ->
  as_txn w' = NoTxn /\
  match r with
  | Err _ => adb w' = adb w
  | Ok _ =>
      exists row m d n, handles (adb w) !! h = Some row /\
        (as_events w <= m < as_events w')%nat /\ expiration_validate (now m) (row_expiration_data row) = true /\
        after_token tok (adb w) d /\ (as_events w <= n < as_events w')%nat /\
        adb w' = with_handle h {| row_verifying_key := row_verifying_key row;
                   row_expiration_data := expiration_new (now n) USERNAME_VALIDITY_PERIOD |} d
  end.
Proof.
  intros Hw Hc. unfold as_refresh_username in Hc.
  assert (isolated (_ ← redeem_optional RefreshTokenRedemption tok; refresh_rest h)) as Hi.
  { isolated_step; [destruct tok; cbn [redeem_optional]; isolated; apply isolated_redeem|].
    unfold refresh_rest, load_expiration_data_for_update, load_expiration_data, update_expiration_data. isolated. }
  destruct r as [[]|e]; [|by apply txn_isolated_Err in Hc].
  apply txn_isolated_Ok in Hc as (w2 & b & Hb & Hw2 & Hn & He & Hd); [|exact Hi]. split; [done|].
  bindM Hb as u1 w1 E1. apply redeem_optional_Ok in E1 as [Htok He1]. fold (refresh_rest h) in Hb.
  pose proof (refresh_rest_not_aborted _ _ _ _ _ _ _ Hb Hw2) as ->. rewrite Hd.
  destruct (after_token_handles _ _ _ Htok) as [Hnames _]. change (adb (begun w)) with (adb w) in *.
  change (as_events (begun w)) with (S (as_events w)) in He1. unfold refresh_rest in Hb.
  bindM Hb as found w3 E3. apply load_expiration_inv in E3 as (Hd3 & _ & He3 & ->).
  bindM Hb as e w4 E4. leafM E4. apply ok_or_Ok, fmap_Some in E4 as (row & Hrow & ->).
  bindM Hb as t w5 E5. injection E5 as <- <-. bindM Hb as u w6 E6. leafM E6. apply ensure_Ok in E6.
  bindM Hb as t w7 E7. injection E7 as <- <-. apply map_errM_inv in Hb as (q & Hb & Hq). destruct q; [|done].
  apply exec_inv in Hb as (He2 & t & Hf & _). cbv zeta in Hf. fold (handles (adb (tick (tick w3)))) in Hf.
  change (adb (tick (tick w3))) with (adb w3) in Hf. rewrite Hd3, Hrow in Hf. injection Hf as _ Hf. cbn in He2.
  exists row, (as_events w3), (adb w1), (S (as_events w3)).
  split_and!; [by unfold handles in *; rewrite <- Hnames|lia|lia|done|done|lia|lia|by rewrite <- Hf].
Qed.

(** ** Connection packages *)

Lemma load_for_username_inv h w r w' : load_for_username h w = (r, w') ->
  as_events w' = S (as_events w) /\
  match r with
  | Ok cp => exists k t, take_connection_package k h (packages (adb w)) = (Some cp, t) /\
      adb w' = set_connection_packages t (adb w)
  | Err _ => adb w' = adb w
  end.
Proof.
  intros Hl. unfold load_for_username in Hl. stepM Hl as q w1 E1. apply sql_inv in E1 as (He & _ & _ & Hq).
  destruct q as [o|e]; [|destruct Hl as [-> ->]; split; [done|apply Hq]].
  destruct Hq as (_ & _ & t & Hf & _). cbv zeta in Hf. fold (packages (adb w)) in Hf.
  destruct (take_connection_package _ h (packages (adb w))) as [o' tab] eqn:Et. injection Hf as -> Hd.
  unfold lift in Hl. injection Hl as <- <-. split; [done|]. destruct o as [cp|]; cbn; [eauto|].
  rewrite <- Hd. unfold take_connection_package in Et.
  destruct (next_connection_package _ _ _) as [[id row]|]; [done|]. injection Et as <-.
  by destruct (adb w) as [? ? []].
Qed.

#[export] Instance resort_le_total : Total resort_le.
Proof. intros x y. unfold resort_le. lia. Qed.
#[export] Instance resort_le_trans : Transitive resort_le.
Proof. intros x y z. unfold resort_le. lia. Qed.

(** The package that is handed out: one of the username with the lowest rank; it is
    deleted unless it is a last resort or the only one. *)
Lemma take_package_Some `{SignatureScheme} `{!OracleLaws} k h t cp t' :
  take_connection_package k h t = (Some cp, t') ->
  exists id row, cpt_rows t !! id = Some row /\ cpr_hash row = h /\ cp = cpr_package row /\
    (forall id' row', cpt_rows t !! id' = Some row' -> cpr_hash row' = h ->
       last_resort_rank (cpr_is_last_resort row) <= last_resort_rank (cpr_is_last_resort row')) /\
    cpt_next t' = cpt_next t /\
    cpt_rows t' = if decide (cpr_is_last_resort row <> Some true /\ (1 < length (packages_of h t))%nat)
                  then delete id (cpt_rows t) else cpt_rows t.
Proof.
  unfold take_connection_package. destruct (next_connection_package k h t) as [[id row]|] eqn:En; [|done].
  intros [= <- <-]. unfold next_connection_package in En.
  pose proof (sorting.Sorted_merge_sort resort_le (scan k (packages_of h t))) as Hs.
  assert (sorting.merge_sort resort_le (scan k (packages_of h t)) ≡ₚ packages_of h t) as Hp.
  { etrans; [apply sorting.merge_sort_Permutation|apply scan_permutation]. }
  destruct (sorting.merge_sort resort_le (scan k (packages_of h t))) as [|x l]; [done|]. injection En as ->.
  assert (forall y, y ∈ packages_of h t <-> cpt_rows t !! y.1 = Some y.2 /\ cpr_hash y.2 = h) as Hin.
  { intros [i r]. unfold packages_of. rewrite list_elem_of_filter, elem_of_map_to_list. cbn. naive_solver. }
  assert ((id, row) ∈ packages_of h t) as [Hrow Hh]%Hin by (rewrite <- Hp; by left).
  exists id, row. split_and!; [done|done|done| |by case_decide|by case_decide].
  intros id' row' Hr' Hh'. assert ((id', row') ∈ (id, row) :: l) as [[= -> ->]|Hl]%elem_of_cons
    by (rewrite Hp; by apply Hin). { lia. }
  apply sorting.Sorted_StronglySorted in Hs; [|apply _].
  apply sorting.StronglySorted_cons in Hs as [Hs _]. rewrite Forall_forall in Hs. by apply (Hs (id', row')).
Qed.

(** ** Connection offers *)

(** The tables after an offer was queued: a new row and a notification. *)
Definition with_offer (h : UsernameHash) (id : Uuid) (offer : ConnectionOfferMessage) (t : TimeStamp)
    (d : AsDb) : AsDb :=
  add_name_notified h (set_handles_queue (<[id := {|
    row_hash := h;
    row_message := {| message_id := Some id; message_payload := Some offer; message_created_at := None |};
    row_fetched_by := None; row_created_at := t |}]> (offers d)) d).

Lemma enqueue_inv h offer w r w' : as_txn w = NoTxn -> name_enqueue h offer w = (r, w') ->
  as_txn w' = NoTxn /\
  match r with
  | Ok id => offers (adb w) !! id = None /\ is_Some (handles (adb w) !! h) /\
      id = uuid_of (S (as_events w)) /\ (S (as_events w) < as_events w')%nat /\
      adb w' = with_offer h id offer (now (as_events w)) (adb w)
  | Err _ => adb w' = adb w
  end.
Proof.
  intros Hw He. unfold name_enqueue in He. destruct r as [id|e].
  2:{ eapply txn_isolated_Err in He; [done| |done]. unfold name_queue_insert. isolated. }
  apply txn_isolated_Ok in He as (w2 & b & Hb & Hw2 & Hn & Hev & Hd); [|unfold name_queue_insert; isolated].
  split; [done|]. bindM Hb as n w3 E3. injection E3 as <- <-. cbv zeta in Hb.
  bindM Hb as u w4 E4. apply map_errM_inv in E4 as (q & E4 & Hq). destruct q; [|done].
  bindM Hb as u' w5 E5. apply map_errM_inv in E5 as (q & E5 & Hq'). destruct q; [|done]. injection Hb as <- <-.
  rewrite (sql_not_aborted _ _ _ _ _ _ _ E5 Hw2) in Hd. rewrite Hd.
  apply exec_inv in E5 as (He5 & t' & [= _ <-] & _).
  unfold name_queue_insert in E4. apply sql_inv in E4 as (He4 & _ & _ & _ & _ & t & Hf & Ht).
  cbn in Ht. subst t. cbv zeta in Hf. change (adb (tick (begun w))) with (adb w) in Hf.
  fold (offers (adb w)) (handles (adb w)) in Hf. change (as_events (begun w)) with (S (as_events w)) in *.
  destruct (offers (adb w) !! _) eqn:Eo; [done|]. destruct (handles (adb w) !! h) eqn:Eh; [|done].
  injection Hf as _ Hf. cbn in He4. split_and!; [done|done|done|lia|]. unfold with_offer. by rewrite Hf.
Qed.

End Names.

Section Requests.
Context `{Oracles} `{PrivacyPass} `{Calendar} `{Argon2} `{Semver}.
Context `{Sha256} `{SignatureScheme} `{CredentialCodecs}.
Context `{!TlsCodec ConnectionPackageV1Payload} `{!TlsCodec ConnectionPackagePayload}.
Context `{!VerifiableRequest DeleteUserPayload} `{!VerifiableRequest PublishConnectionPackagesPayload}
  `{!VerifiableRequest StageUserProfilePayload} `{!VerifiableRequest MergeUserProfilePayload}
  `{!VerifiableRequest IssueTokensPayload} `{!VerifiableRequest ReportSpamPayload}
  `{!VerifiableRequest CreateUsernamePayload} `{!VerifiableRequest DeleteUsernamePayload}
  `{!VerifiableRequest RefreshUsernamePayload} `{!VerifiableRequest InitListenUsernamePayload}.
Context `{!PrivacyPassLaws}.
Context (config : AsConfig).

(** ** Connecting *)

(** The first step of the protocol: an expired username is deleted; of one that is
    valid the next package is taken. *)
Lemma connect_fetch_inv step w r w' : as_txn w = NoTxn -> connect_fetch config step w = (r, w') ->
  as_txn w' = NoTxn /\
  ((adb w' = adb w /\ forall x, r <> Ok (Some x)) \/
   exists m h row, step = Some (Ok (ConnectFetch m (FieldValue h))) /\ handles (adb w) !! h = Some row /\
     ((exists n, (as_events w <= n < as_events w')%nat /\
         expiration_validate (now n) (row_expiration_data row) = false /\ is_ok r = false /\
         adb w' = delete_username_rows h (adb w)) \/
      (exists n k cp t, (as_events w <= n < as_events w')%nat /\
         expiration_validate (now n) (row_expiration_data row) = true /\
         r = Ok (Some (h, cp)) /\ take_connection_package k h (packages (adb w)) = (Some cp, t) /\
         adb w' = set_connection_packages t (adb w)))).
Proof.
  intros Hw Hc. split.
  { destruct (tops_connect_fetch config step w Hw) as (Hn & _). by rewrite Hc in Hn. }
  unfold connect_fetch in Hc. destruct step as [[[m f|o|]|e]|]; try (injection Hc as <- <-; left; by split).
  stepM Hc as q0 w0 E0. unfold check_version, lift in E0. injection E0 as <- <-.
  destruct (map_err _ _) as [v|]; [|destruct Hc as [-> ->]; left; by split].
  stepM Hc as q1 w1 E1. unfold lift in E1. injection E1 as <- <-.
  destruct f as [| |h]; [destruct Hc as [-> ->]; left; by split..|].
  stepM Hc as q2 w2 E2. apply map_errM_inv in E2 as (x & E2 & ->).
  unfold load_username_expiration_data in E2. stepM E2 as y w3 E3.
  assert (adb w3 = adb w /\ (as_events w <= as_events w3)%nat /\ as_txn w3 = NoTxn /\
    match y with Ok o => o = row_expiration_data <$> handles (adb w) !! h | Err _ => True end)
    as (Hd3 & He3 & Hw3 & Hy).
  { assert (keeps eq (load_expiration_data h)) as K by (unfold load_expiration_data; keeps).
    destruct (tops_eq_state _ _ _ _ K Hw E3) as (T1 & T2 & T3). split_and!; [done|done|done|].
    destruct y; [|done]. unfold load_expiration_data in E3. by apply query_inv in E3 as (_ & _ & _ & _ & ->). }
  destruct y as [o|e]; [|destruct E2 as [-> ->]; destruct Hc as [-> ->]; by left].
  subst o. destruct (handles (adb w) !! h) as [row|] eqn:Erow; cbn [fmap option_fmap option_map] in E2.
  2:{ injection E2 as <- <-. cbn [map_err] in Hc. stepM Hc as z w4 E4. injection E4 as <- <-.
      destruct Hc as [-> ->]. left. by split. }
  stepM E2 as z w4 E4. injection E4 as <- <-. destruct (expiration_validate (now (as_events w3)) _) eqn:Ev.
  - injection E2 as <- <-. cbn [map_err] in Hc. stepM Hc as z w4 E4. injection E4 as <- <-.
    stepM Hc as z w4 E4. injection E4 as <- <-. stepM Hc as z w4 E4. unfold lift in E4. injection E4 as <- <-.
    destruct (ensure _ _) as [u|] eqn:En; [|destruct Hc as [-> ->]; left; by split].
    stepM Hc as z w4 E4. apply map_errM_inv in E4 as (x & E4 & ->).
    apply load_for_username_inv in E4 as [He4 Hx]. change (adb (tick (tick w3))) with (adb w3) in Hx.
    rewrite Hd3 in Hx. cbn in He4. destruct x as [cp|e]; cbn [map_err] in Hc.
    + injection Hc as <- <-. right. exists m, h, row. split_and!; [done|done|right].
      destruct Hx as (k & t & Hk & Hd). exists (as_events w3), k, cp, t. split_and!; [lia|lia|done..].
    + destruct Hc as [-> ->]. left. by split.
  - stepM E2 as z w4 E4. unfold username_delete in E4. apply exec_inv in E4 as [He4 Hz]. cbn in He4.
    assert (is_ok r = false /\ w' = w4) as [Hr ->].
    { destruct z; [injection E2 as <- <-|destruct E2 as [-> ->]; by destruct Hc as [-> ->]]. cbn [map_err] in Hc.
      stepM Hc as y w5 E5. injection E5 as <- <-. by destruct Hc as [-> ->]. }
    change (adb (tick w3)) with (adb w3) in Hz. rewrite Hd3 in Hz. destruct z as [b|e].
    + destruct Hz as (t & Hf & _). fold (handles (adb w)) in Hf. rewrite Erow in Hf. injection Hf as _ Hf.
      right. exists m, h, row. split_and!; [done|done|left]. exists (as_events w3). split_and!; [lia|lia|done..].
    + left. split; [done|]. by intros y ->.
Qed.

Lemma elem_of_take_sub {A} (x : A) n l : x ∈ take n l -> x ∈ l.
Proof. intros (i & Hi & _)%elem_of_take. by eapply list_elem_of_lookup_2. Qed.

(** The second step. *)
Lemma connect_enqueue_inv h step w r w' : as_txn w = NoTxn -> connect_enqueue h step w = (r, w') ->
  as_txn w' = NoTxn /\
  match r with
  | Ok true => exists offer id, step = Some (Ok (ConnectEnqueue (Some offer))) /\
      id = uuid_of (S (as_events w)) /\ (S (as_events w) < as_events w')%nat /\
      offers (adb w) !! id = None /\ is_Some (handles (adb w) !! h) /\
      adb w' = with_offer h id offer (now (as_events w)) (adb w)
  | _ => adb w' = adb w
  end.
Proof.
  intros Hw Hc. unfold connect_enqueue in Hc.
  destruct step as [[[|o|]|e]|]; try (injection Hc as <- <-; done).
  stepM Hc as q w1 E1. unfold lift in E1. injection E1 as <- <-.
  destruct o as [offer|]; cbn [ok_or] in Hc; [|by destruct Hc as [-> ->]].
  stepM Hc as q w1 E1. apply map_errM_inv in E1 as (x & E1 & ->). apply enqueue_inv in E1 as [Hw1 Hx]; [|done].
  destruct x as [id|e]; cbn [map_err] in Hc; [injection Hc as <- <-|by destruct Hc as [-> ->]].
  destruct Hx as (Ho & Hh & Hid & Hev & Hd). split; [done|]. exists offer, id. split_and!; done.
Qed.

(** The package that a connecting user gets from a table. *)
Definition handed_out (h : UsernameHash) (cp : VersionedConnectionPackage) (t t' : ConnectionPackageTable) : Prop :=
  exists id row, cpt_rows t !! id = Some row /\ cpr_hash row = h /\ cp = cpr_package row /\
    (forall id' row', cpt_rows t !! id' = Some row' -> cpr_hash row' = h ->
       last_resort_rank (cpr_is_last_resort row) <= last_resort_rank (cpr_is_last_resort row')) /\
    cpt_next t' = cpt_next t /\
    cpt_rows t' = if decide (cpr_is_last_resort row <> Some true /\ (1 < length (packages_of h t))%nat)
                  then delete id (cpt_rows t) else cpt_rows t.

(** A user who is told that the connection offer was queued has sent the two
    steps of the protocol for an existing username; was handed a package of the
    username, one that is not a last resort if there is one, which is used up unless
    it is a last resort or the only one; and the offer is in the queue of the
    username under a fresh id, with a notification.  Nothing else has changed. *)
Theorem connect_protocol_exact `{!OracleLaws} incoming open w resp w' :
  as_txn w = NoTxn -> run_protocol config incoming open w = (resp, w') -> Ok EnqueueResponse ∈ resp ->
  exists m h offer rest row cp t id at_,
    incoming = Ok (ConnectFetch m (FieldValue h)) :: Ok (ConnectEnqueue (Some offer)) :: rest /\
    resp = [Ok (FetchResponse cp); Ok EnqueueResponse] /\
    handles (adb w) !! h = Some row /\ handed_out h cp (packages (adb w)) t /\
    offers (adb w) !! id = None /\
    adb w' = with_offer h id offer at_ (set_connection_packages t (adb w)).
Proof.
  intros Hw Hr Hin. unfold run_protocol in Hr. destruct (connect_fetch config _ w) as [q w1] eqn:E1.
  apply connect_fetch_inv in E1 as [Hw1 Hq]; [|done].
  destruct q as [[[h cp]|]|e]; [|injection Hr as <- <-; by apply elem_of_nil in Hin|].
  2:{ injection Hr as <- <-. apply elem_of_take_sub, list_elem_of_singleton in Hin. done. }
  destruct Hq as [[_ Hno]|(m & h' & row & Hstep & Hrow & [(? & _ & _ & [=] & _)|(n & k & cp' & t & _ & _ & Hq & Ht & Hd1)])].
  { by destruct (Hno (h, cp)). }
  injection Hq as <- <-. destruct open as [|open]; [injection Hr as <- <-; by apply elem_of_nil in Hin|].
  destruct (connect_enqueue h _ w1) as [x w2] eqn:E2. apply connect_enqueue_inv in E2 as [Hw2 Hx]; [|done].
  destruct x as [[]|e]; [|injection Hr as <- <-; by apply list_elem_of_singleton in Hin|].
  2:{ injection Hr as <- <-. change (Ok EnqueueResponse ∈ Ok (FetchResponse cp) :: take open
        [Err (status_of_connect e) : Result Status ConnectUsernameResponse]) in Hin.
      apply elem_of_cons in Hin as [?|Hin]; [done|].
      by apply elem_of_take_sub, list_elem_of_singleton in Hin. }
  injection Hr as <- <-. destruct open as [|open]; [by apply list_elem_of_singleton in Hin|].
  destruct Hx as (offer & id & Hstep2 & _ & _ & Ho & _ & Hd2). rewrite Hd1 in Ho, Hd2.
  destruct incoming as [|i1 [|i2 rest]]; [done|done|]. injection Hstep as ->. injection Hstep2 as ->.
  exists m, h, offer, rest, row, cp, t, id, (now (as_events w1)).
  split_and!; [done|by destruct open|done|by eapply take_package_Some|done|done].
Qed.

(** ** Owners of usernames *)

Definition signed_by_name {P} `{!VerifiableRequest P} `{!WithUsernameHash P} (r : SignedRequest P)
    (h : UsernameHash) (key : bytes) : Prop :=
  exists p, sr_payload r = Some p /\ username_hash_proto p = FieldValue h /\
    signature_valid p (default [] (sr_signature r)) key = true.
Definition name_request (o : AsOp) (h : UsernameHash) (key : bytes) : Prop :=
  match o with
  | OpPublish r => signed_by_name r h key
  | OpDeleteName r => signed_by_name r h key
  | OpRefreshName r => signed_by_name r h key
  | _ => False
  end.

Lemma verify_username_signed {P} `{!VerifiableRequest P} `{!WithUsernameHash P} (r : SignedRequest P) w h p w' :
  verify_username_auth r w = (Ok (h, p), w') ->
  exists row, handles (adb w) !! h = Some row /\ signed_by_name r h (row_verifying_key row).
Proof.
  intros Hv. pose proof (verify_username_Ok _ _ _ _ _ Hv) as [Hp Hu]. unfold verify_username_auth in Hv.
  bindM Hv as u' w1 E1. apply fail_with_state in E1 as [_ ->]. bindM Hv as key w2 E2. bindM Hv as p' w3 E3.
  apply fail_with_state in E3 as [E3 ->]. injection Hv as -> -> ->. apply verify_request_Ok in E3 as [_ E3].
  unfold load_username_key in E2. bindM E2 as o w4 E4. leafM E2. apply ok_or_Ok in E2 as ->.
  apply map_errM_inv in E4 as (q & E4 & Hq). destruct q as [o|]; [|done]. injection Hq as <-.
  unfold load_verifying_key in E4. apply query_inv in E4 as (_ & _ & _ & _ & Hk).
  symmetry in Hk. apply fmap_Some in Hk as (row & Hrow & ->). exists row. split; [done|]. by exists p.
Qed.

(** The record of a username is as before, and it has no new packages. *)
Definition name_untouched (h : UsernameHash) (d d' : AsDb) : Prop :=
  handles d' !! h = handles d !! h /\
  forall n r, cpt_rows (packages d') !! n = Some r -> cpr_hash r = h -> cpt_rows (packages d) !! n = Some r.
#[export] Instance name_untouched_preorder h : PreOrder (name_untouched h).
Proof.
  split; [by intros d; split|]. intros a b c [H1' P1] [H2' P2]. split; [congruence|eauto].
Qed.

Lemma effect_name_untouched l d d' h : effect l d d' -> is_Some (handles d !! h) ->
  l <> LNameTake h -> l <> LNameRefresh h -> l <> LNameDelete h -> l <> LPackages h -> name_untouched h d d'.
Proof.
  intros He Hs L1 L2 L3 L4. destruct He; try done.
  - unfold delete_user_rows. by destruct (as_user_record (users_db d) !! u).
  - split; [|done]. unfold handles in *. cbn. rewrite lookup_insert_ne; [done|]. intros ->. destruct Hs. congruence.
  - split; [|done]. unfold handles. cbn. by rewrite lookup_insert_ne by congruence.
  - split; [|done]. unfold handles. cbn. by rewrite lookup_insert_ne by congruence.
  - split; [unfold handles; cbn; by rewrite lookup_delete_ne by congruence|].
    intros n r Hr Hh. unfold packages in Hr. cbn in Hr. by apply map_lookup_filter_Some in Hr as [Hr _].
  - split; [done|]. intros n r Hr Hh. apply insert_packages_lookup in Hr as [Hr|(_ & cp & _ & ->)]; [done|].
    cbn in Hh. congruence.
  - split; [done|]. intros n' r Hr Hh. destruct (take_package_sub n h0 (packages d)) as [_ Hsub].
    by eapply lookup_weaken.
Qed.
Lemma reach_name_untouched (L : Label -> Prop) d d' h : reach L d d' -> is_Some (handles d !! h) ->
  ~ L (LNameTake h) -> ~ L (LNameRefresh h) -> ~ L (LNameDelete h) -> ~ L (LPackages h) -> name_untouched h d d'.
Proof.
  intros Hr Hs L1 L2 L3 L4. induction Hr as [|x y z (l & Hl & He) _ IH]; [done|].
  assert (name_untouched h x y) as Hxy by (eapply effect_name_untouched; [exact He|done|congruence..]).
  etrans; [exact Hxy|]. apply IH. by rewrite (proj1 Hxy).
Qed.

(** A handler that starts with the authentication of a username. *)
Lemma name_handler {P A} `{!VerifiableRequest P} `{!WithUsernameHash P} (r : SignedRequest P)
    (f : UsernameHash * P -> M AsWorld Failure A) o h row w :
  as_run config o = void (x ← verify_username_auth r; f x) -> as_txn w = NoTxn ->
  handles (adb w) !! h = Some row ->
  (forall h', ~ names_username r h' -> ~ allowed config o (LNameTake h') /\ ~ allowed config o (LNameRefresh h') /\
     ~ allowed config o (LNameDelete h') /\ ~ allowed config o (LPackages h')) ->
  name_untouched h (adb w) (adb (as_run config o w).2) \/ signed_by_name r h (row_verifying_key row).
Proof.
  intros Ho Hw Hs Hl. destruct (as_run_reach config o w Hw) as (_ & Hr & _).
  destruct (as_run config o w) as [q w'] eqn:E. cbn [snd] in *. rewrite Ho in E. apply void_inv in E as (x & E & _).
  stepM E as y w1 E1.
  assert (keeps eq (verify_username_auth r)) as K.
  { unfold verify_username_auth, fail_with. keeps. by apply keeps_load_username_key, _. }
  destruct (tops_eq_state _ _ _ _ K Hw E1) as (Hd & _ & _).
  destruct y as [[h' p]|e]; [|destruct E as [-> ->]; left; by rewrite Hd].
  destruct (decide (h' = h)) as [->|Hne].
  { right. apply verify_username_signed in E1 as (row' & Hrow' & Hsig). congruence. }
  left. destruct (Hl h) as (L1 & L2 & L3 & L4).
  { intros (p' & Hp' & Hu'). apply verify_username_Ok in E1 as [Hp Hu]. congruence. }
  by eapply reach_name_untouched.
Qed.

Lemma create_username_Err r w e w' : as_txn w = NoTxn -> create_username config r w = (Err e, w') ->
  adb w' = adb w.
Proof.
  intros Hw Hc. unfold create_username in Hc.
  repeat match type of Hc with
    | (fail_with ?x ≫= _) _ = _ =>
        let q := fresh in let w1 := fresh in let E := fresh in
        stepM Hc as q w1 E; unfold fail_with, lift in E; injection E as <- <-;
        destruct (map_err Failed x) as [?|]; [|by destruct Hc as [_ ->]]
    | (check_version _ _ _ ≫= _) _ = _ =>
        let q := fresh in let w1 := fresh in let E := fresh in
        stepM Hc as q w1 E; unfold check_version, lift in E; injection E as <- <-;
        destruct (map_err Failed _) as [?|]; [|by destruct Hc as [_ ->]]
    end.
  apply map_errM_inv in Hc as (q & Hc & Hq). destruct q; [done|]. by apply create_inv in Hc as [_ Hd].
Qed.

Lemma create_name_safe r w h row : as_txn w = NoTxn -> handles (adb w) !! h = Some row ->
  (forall n, (as_events w <= n < as_events (as_run config (OpCreateName r) w).2)%nat ->
     expiration_validate (now n) (row_expiration_data row) = true) ->
  name_untouched h (adb w) (adb (as_run config (OpCreateName r) w).2).
Proof.
  intros Hw Hrow Hvalid. destruct (as_run config (OpCreateName r) w) as [q w'] eqn:E. cbn [snd] in *.
  apply void_inv in E as (x & E & _). destruct x as [[]|e]; [|by rewrite (create_username_Err _ _ _ _ Hw E)].
  apply create_username_Ok in E as (key & p & h0 & tok & _ & _ & _ & _ & _ & E).
  apply create_inv in E as (_ & _ & _ & Hfree & d & n & Htok & _ & ->); [|done].
  destruct (after_token_handles _ _ _ Htok) as [Hnames _].
  assert (h0 <> h) as Hne.
  { intros ->. destruct Hfree as [Hf|(row' & m & Hr' & Hm & Hv)]; [congruence|].
    rewrite Hrow in Hr'. injection Hr' as <-. by rewrite (Hvalid m Hm) in Hv. }
  unfold name_untouched, with_handle, handles, packages. cbn. rewrite Hnames, lookup_insert_ne by done. done.
Qed.
Lemma connect_fetch_safe step w h row : as_txn w = NoTxn -> handles (adb w) !! h = Some row ->
  (forall n, (as_events w <= n < as_events (as_run config (OpConnectFetch step) w).2)%nat ->
     expiration_validate (now n) (row_expiration_data row) = true) ->
  name_untouched h (adb w) (adb (as_run config (OpConnectFetch step) w).2).
Proof.
  intros Hw Hrow Hvalid. destruct (as_run config (OpConnectFetch step) w) as [q w'] eqn:E. cbn [snd] in *.
  apply void_inv in E as (x & E & _). apply connect_fetch_inv in E as (_ & [[-> _]|(m & h' & row' & _ & Hr' & Hc)]);
    [done| |done].
  destruct Hc as [(n & Hn & Hv & _ & ->)|(n & k & cp & t & _ & _ & _ & Ht & ->)].
  - assert (h' <> h) as Hne.
    { intros ->. rewrite Hrow in Hr'. injection Hr' as <-. by rewrite (Hvalid n Hn) in Hv. }
    eapply (effect_name_untouched (LNameDelete h')); [constructor|by rewrite Hrow|congruence..].
  - eapply (effect_name_untouched (LPackageTaken h')); [|by rewrite Hrow|congruence..].
    pose proof (eff_package_taken h' k (adb w)) as He. by rewrite Ht in He.
Qed.

(** C13. While a username has not expired, its record stays as it is and gets no new
    connection packages under every operation, except a request signed under the key
    of the username, and the operator's command that extends all usernames. *)
Theorem username_owner_safe o w h row : as_txn w = NoTxn -> handles (adb w) !! h = Some row ->
  (forall n, (as_events w <= n < as_events (as_run config o w).2)%nat ->
     expiration_validate (now n) (row_expiration_data row) = true) ->
  name_untouched h (adb w) (adb (as_run config o w).2) \/
  name_request o h (row_verifying_key row) \/ exists before, o = OpRefreshExpiring before.
Proof.
  intros Hw Hrow Hvalid. destruct (as_run_reach config o w Hw) as (_ & Hr & _).
  assert (is_Some (handles (adb w) !! h)) as Hs by (by rewrite Hrow).
  destruct o; try (left; eapply reach_name_untouched; [exact Hr|done|..]; cbn; intros; repeat case_match; naive_solver);
    try (right; right; by eauto).
  - assert (name_untouched h (adb w) (adb (as_run config (OpPublish r) w).2) \/ signed_by_name r h (row_verifying_key row))
      as [Hu|Hn]; [|by left|by right; left]. eapply (name_handler r); [reflexivity|done|done|]. cbn. naive_solver.
  - left. by eapply create_name_safe.
  - assert (name_untouched h (adb w) (adb (as_run config (OpDeleteName r) w).2) \/ signed_by_name r h (row_verifying_key row))
      as [Hu|Hn]; [|by left|by right; left]. eapply (name_handler r); [reflexivity|done|done|]. cbn. naive_solver.
  - assert (name_untouched h (adb w) (adb (as_run config (OpRefreshName r) w).2) \/ signed_by_name r h (row_verifying_key row))
      as [Hu|Hn]; [|by left|by right; left]. eapply (name_handler r); [reflexivity|done|done|]. cbn. naive_solver.
  - left. by eapply connect_fetch_safe.
Qed.

End Requests.
