(* ===== verification/AuthTrust.v ===== *)
(** * Registration and the chain of trust

    What registering a user does, and that the credentials that the service hands
    out verify up to a credential of the service, over any run of operations. *)

From S2P Require Import Prelude Aead Signatures Messages Grpc PgTask RateLimiter Credentials.
From S2P Require Import ConnectionPackages AuthDb AuthTokens AuthUsers AuthNames AuthGrpc.
From S2P Require Import AuthDbCorrect AuthTokensCorrect AuthEffects AuthOps AuthCorrect AuthCharges.
From S2P Require Import AuthAllowance AuthNamesCorrect.

Set Warnings "-clear-no-such-hyp".

Section Registration.
Context `{Oracles} `{PrivacyPass} `{!PrivacyPassLaws} `{Calendar} `{Argon2} `{Semver}.
Context `{Sha256} `{SignatureScheme} `{CredentialCodecs}.

Definition as_keys (d : AsDb) : list AsSigningKey := omap as_key_of (as_signing_key (users_db d)).
Definition intermediate_keys (d : AsDb) : list AsIntermediateSigningKey :=
  omap intermediate_key_of (as_signing_key (users_db d)).

(** The tables with a registered user; a code is used up in a statement of its
    own. *)
Definition with_client (u : UserId) (r : ClientRow) (d : AsDb) : AsDb :=
  set_client_records (<[user_uuid u := r]> (clients d)) d.
Definition with_user (u : UserId) (r : UserRow) (d : AsDb) : AsDb :=
  set_user_records (<[u := r]> (users d)) d.
Definition code_used (c : option InvitationCodeRecord) (t : TimeStamp) (d : AsDb) : AsDb :=
  match c with Some r => save_code {| code := code r; redeemed := true |} t d | None => d end.

Definition registration_body (profile : EncryptedUserProfile) (cc : ClientCredential)
    (code_record : option InvitationCodeRecord) : M AsWorld RegisterUserError ClientCredential :=
  _ ← map_errM (fun _ => RegisterStorageError) (user_new_and_store (cc_user_id cc) profile);
  _ ← map_errM register_storage (client_new_and_store cc);
  _ ← match code_record with
      | Some r => map_errM (fun _ => RegisterStorageError) (invitation_save {| code := code r; redeemed := true |})
      | None => mret tt
      end;
  mret cc.

Lemma user_new_inv u p w r w' : user_new_and_store u p w = (r, w') ->
  match r with
  | Ok _ => users (adb w) !! u = None /\ as_txn w' = as_txn w /\
      (forall s b saved, as_txn w' = InTxn s b saved -> b = false) /\
      adb w' = with_user u {| row_encrypted_user_profile := p; row_staged_user_profile := None |} (adb w)
  | Err _ => adb w' = adb w /\ committed w' = (if in_txn w then committed w else adb w')
  end /\ in_txn w' = in_txn w.
Proof.
  intros Hu. unfold user_new_and_store, user_store in Hu. stepM Hu as q w1 E1. pose proof E1 as E2.
  apply sql_inv in E1 as (_ & Hc & Hi & Hq). cbv zeta in Hq. cbn [ur_user_id user_record_new] in Hq.
  destruct q as [[]|e]; [injection Hu as <- <-|destruct Hu as [-> ->]; split; [split; [apply Hq|done]|done]].
  split; [|done]. destruct Hq as (Ht & _ & t & Hf & _). fold (users (adb w)) in Hf.
  destruct (users (adb w) !! u) eqn:Eu; [done|]. injection Hf as Hf. split_and!; [done|done| |by rewrite <- Hf].
  intros s b saved Hs. by eapply sql_not_aborted.
Qed.
Lemma client_new_inv cc w r w' : client_new_and_store cc w = (r, w') ->
  match r with
  | Ok _ => exists flat act, flat_new cc = Some flat /\ clients (adb w) !! user_uuid (cc_user_id cc) = None /\
      as_txn w' = as_txn w /\ (forall s b saved, as_txn w' = InTxn s b saved -> b = false) /\
      adb w' = with_client (cc_user_id cc) {| row_user_domain := user_domain (cc_user_id cc);
                 row_activity_time := act; row_credential := credential_column flat |} (adb w)
  | Err _ => committed w' = (if in_txn w then committed w else adb w')
  end /\ in_txn w' = in_txn w.
Proof.
  intros Hu. unfold client_new_and_store, client_store in Hu. stepM Hu as q0 w0 E0. injection E0 as <- <-.
  cbv zeta in Hu. stepM Hu as q w1 E1. stepM E1 as q1 w2 E2. unfold lift in E2. injection E2 as <- <-.
  cbn [cr_credential cr_activity_time] in E1.
  destruct (flat_new cc) as [flat|] eqn:Ef; cbn [ok_or] in E1.
  2:{ destruct E1 as [-> ->]. destruct Hu as [-> ->]. split; [|done]. unfold committed, in_txn. cbn. by destruct (as_txn w). }
  apply map_errM_inv in E1 as (x & E1 & ->). pose proof E1 as E2.
  apply sql_inv in E1 as (_ & Hc & Hi & Hq). change (adb (tick w)) with (adb w) in Hq.
  destruct x as [[]|e]; cbn [map_err] in Hu; [injection Hu as <- <-|destruct Hu as [-> ->]; by split].
  split; [|done]. destruct Hq as (Ht & _ & t & Hf & _). cbv zeta in Hf. fold (clients (adb w)) in Hf.
  destruct (clients (adb w) !! _) eqn:Ec; [done|]. destruct (as_user_record _ !! _); [|done]. injection Hf as Hf.
  exists flat, (round_subsecs (now (as_events w))). split_and!; [done|done|exact Ht| |by rewrite <- Hf].
  intros s b saved Hs. by eapply sql_not_aborted.
Qed.

Lemma save_inv rec w r w' : invitation_save rec w = (r, w') ->
  in_txn w' = in_txn w /\
  match r with
  | Ok _ => exists t, adb w' = save_code rec t (adb w) /\ committed w' = save_code rec t (committed w) /\
      (forall s b saved, as_txn w' = InTxn s b saved -> exists saved', as_txn w = InTxn s b saved')
  | Err _ => committed w' = committed w
  end.
Proof.
  unfold invitation_save, pool_write, in_txn, committed. intros Hs.
  destruct (db_ok _); [|injection Hs as <- <-; done].
  destruct (as_txn w) as [|s b saved] eqn:Ew; injection Hs as <- <-; cbn; rewrite ?Ew; (split; [done|]);
    eexists; (split_and!; [done|done|]); [intros s b saved Hx; congruence|].
  intros s' b' saved' [= <- <- _]. eauto.
Qed.

Lemma registration_in_txn profile cc c w :
  in_txn (registration_body profile cc c w).2 = in_txn w.
Proof.
  apply (keeps_in_txn (fun _ _ => True)). unfold registration_body, user_new_and_store, user_store,
    client_new_and_store, client_store. cbn [cr_credential].
  keeps; try apply keeps_any_sql. by apply keeps_pool_write; [apply _|].
Qed.

(** The transaction of a registration: the user, the client and the code; if it
    fails the code may be used up all the same. *)
Lemma registration_txn profile cc c w r w' : as_txn w = NoTxn ->
  transaction (fun _ => RegisterStorageError) (registration_body profile cc c) w = (r, w') ->
  as_txn w' = NoTxn /\
  match r with
  | Ok cc' => cc' = cc /\ users (adb w) !! cc_user_id cc = None /\
      clients (adb w) !! user_uuid (cc_user_id cc) = None /\
      exists flat act t, flat_new cc = Some flat /\
        adb w' = code_used c t (with_client (cc_user_id cc)
          {| row_user_domain := user_domain (cc_user_id cc); row_activity_time := act; row_credential := credential_column flat |}
          (with_user (cc_user_id cc) {| row_encrypted_user_profile := profile; row_staged_user_profile := None |}
             (adb w)))
  | Err _ => adb w' = adb w \/ exists t, adb w' = code_used c t (adb w)
  end.
Proof.
  intros Hw Ht. destruct r as [cc'|e].
  - apply txn_Ok in Ht as (w2 & Hb & Hn & _ & Hd). split; [done|]. unfold registration_body in Hb.
    bindM Hb as u1 w3 E1. apply map_errM_inv in E1 as (q1 & E1 & Hq1). destruct q1; [|done].
    apply user_new_inv in E1 as [(Hu & Ht1 & Hna1 & Hd1) _].
    bindM Hb as u2 w4 E2. apply map_errM_inv in E2 as (q2 & E2 & Hq2). destruct q2; [|done].
    apply client_new_inv in E2 as [(flat & act & Hf & Hc & Ht2 & Hna2 & Hd2) _].
    bindM Hb as u3 w5 E3. injection Hb as <- <-. rewrite Hd1 in Hc, Hd2. change (adb (begun w)) with (adb w) in *.
    split_and!; [done|exact Hu|exact Hc|].
    destruct c as [rec|]; cbn [code_used].
    + apply map_errM_inv in E3 as (q3 & E3 & Hq3). destruct q3; [|done].
      apply save_inv in E3 as (Hi & t & Hd3 & _ & Hs). exists flat, act, t. split; [done|].
      rewrite <- Hd2, <- Hd3. destruct (as_txn w5) as [|s b saved] eqn:E5; [done|].
      destruct (Hs s b saved eq_refl) as [saved' Hs']. by rewrite (Hna2 _ _ _ Hs') in Hd.
    + injection E3 as _ <-. exists flat, act, 0. split; [done|]. rewrite <- Hd2.
      destruct (as_txn w4) as [|s b saved] eqn:E5; [done|]. by rewrite (Hna2 _ _ _ eq_refl) in Hd.
  - apply txn_Err in Ht as [Hn Hd]; [|intros; apply registration_in_txn|done]. split; [done|].
    destruct Hd as [Hd|(q & w2 & Hb & Hd)]; [by left|]. unfold registration_body in Hb.
    stepM Hb as q1 w3 E1. apply map_errM_inv in E1 as (x1 & E1 & ->). apply user_new_inv in E1 as [H1' I1].
    destruct x1 as [rec|]; cbn [map_err] in Hb; [|destruct Hb as [-> ->]; left; rewrite Hd; apply H1'].
    destruct H1' as (_ & Ht1 & _ & _).
    stepM Hb as q2 w4 E2. apply map_errM_inv in E2 as (x2 & E2 & ->). apply client_new_inv in E2 as [H2' I2].
    assert (committed w3 = adb w) as C3 by (unfold committed; by rewrite Ht1).
    destruct x2 as [rec2|]; cbn [map_err] in Hb.
    2:{ destruct Hb as [-> ->]. left. rewrite Hd, H2', I1. exact C3. }
    destruct H2' as (flat & act & _ & _ & Ht2 & _ & _).
    assert (committed w4 = adb w) as C4 by (unfold committed; by rewrite Ht2, Ht1).
    stepM Hb as q3 w5 E3. destruct c as [rec'|].
    + apply map_errM_inv in E3 as (x3 & E3 & ->). apply save_inv in E3 as [_ H3'].
      destruct x3 as [[]|]; cbn [map_err] in Hb.
      * injection Hb as <- <-. destruct H3' as (t & _ & C5 & _). right. exists t. by rewrite Hd, C5, C4.
      * destruct Hb as [-> ->]. left. congruence.
    + injection E3 as <- <-. injection Hb as <- <-. left. congruence.
Qed.

Lemma load_active_inv `{!OracleLaws} {K E} (g : SqlxError -> E) (decode : SigningKeyRow -> option K) t w k w' :
  map_errM g (load_active decode t) w = (Ok (Some k), w') -> k ∈ omap decode (as_signing_key (users_db (adb w))).
Proof.
  intros Hl. apply map_errM_inv in Hl as (q & Hl & Hq). destruct q as [o|]; [|done]. injection Hq as <-.
  unfold load_active in Hl. bindM Hl as found w1 E1. apply query_inv in E1 as (_ & _ & _ & _ & Hf).
  destruct found as [row|]; [|done]. bindM Hl as k' w2 E2. leafM E2. apply ok_or_Ok in E2. injection Hl as <- _.
  symmetry in Hf. apply head_Some_elem_of, list_elem_of_filter in Hf as [_ Hrow]. rewrite scan_permutation in Hrow.
  apply list_elem_of_omap. eauto.
Qed.

(** What a successful registration has found, and what it has done. *)
Record registered (p : ClientCredentialPayload) (profile : EncryptedUserProfile)
    (c : option InvitationCodeRecord) (cc : ClientCredential) (d d' : AsDb) : Prop := {
  reg_user_new : users d !! ccsr_user_id (ccp_csr p) = None;
  reg_client_new : clients d !! user_uuid (ccsr_user_id (ccp_csr p)) = None;
  reg_valid : exists n, client_payload_validate (now n) p = true;
  reg_signed : exists k, k ∈ intermediate_keys d /\ client_payload_sign p k = Some cc;
  reg_stored : exists flat act t, flat_new cc = Some flat /\
    d' = code_used c t (with_client (cc_user_id cc)
      {| row_user_domain := user_domain (cc_user_id cc); row_activity_time := act; row_credential := credential_column flat |}
      (with_user (cc_user_id cc) {| row_encrypted_user_profile := profile; row_staged_user_profile := None |} d))
}.

Lemma client_payload_sign_payload p k cc : client_payload_sign p k = Some cc -> cc_payload cc = p.
Proof. intros (bs & _ & (s & _ & [= <-])%bind_Some)%bind_Some. done. Qed.

Lemma init_registration_inv `{!OracleLaws} io params c w r w' : as_txn w = NoTxn ->
  as_init_user_registration io params c w = (r, w') ->
  as_txn w' = NoTxn /\
  match r with
  | Ok cc => registered (client_payload params) (params_user_profile params) c cc (adb w) (adb w')
  | Err _ => adb w' = adb w \/ exists t, adb w' = code_used c t (adb w)
  end.
Proof.
  intros Hw Hr. unfold as_init_user_registration in Hr. cbv zeta in Hr.
  stepM Hr as q0 w0 E0. unfold lift in E0. injection E0 as <- <-.
  destruct (ensure _ _) as [u0|]; [|destruct Hr as [-> ->]; by auto].
  stepM Hr as q1 w1 E1.
  assert (adb w1 = adb w /\ as_txn w1 = NoTxn) as [Hd1 Hw1].
  { destruct (tops_eq_state (map_errM (fun _ : SqlxError => RegisterStorageError) (user_load (ccsr_user_id (ccp_csr (client_payload params))))) w q1 w1) as (? & ? & _); [unfold user_load; keeps|done|done|done]. }
  destruct q1 as [existing|]; [|destruct Hr as [-> ->]; by auto].
  stepM Hr as q2 w2 E2. unfold lift in E2. injection E2 as <- <-.
  destruct (ensure _ _) as [u2|] eqn:Eex; [|destruct Hr as [-> ->]; by auto].
  stepM Hr as q3 w3 E3. injection E3 as <- <-. stepM Hr as q4 w4 E4.
  assert (adb w4 = adb w /\ as_txn w4 = NoTxn /\
    (is_ok q4 = true -> client_payload_validate (now (as_events w1)) (client_payload params) = true)) as (Hd4 & Hw4 & Hval).
  { destruct (client_payload_validate _ _); [injection E4 as <- <-; by split_and!|].
    stepM E4 as x w5 E5. injection E5 as <- <-. injection E4 as <- <-. by split_and!. }
  destruct q4 as [u4|]; [|destruct Hr as [-> ->]; by auto].
  stepM Hr as q5 w5 E5.
  assert (adb w5 = adb w4 /\ as_txn w5 = NoTxn) as [Hd5 Hw5].
  { destruct (tops_eq_state (map_errM (fun _ : SqlxError => RegisterStorageError) intermediate_key_load) w4 q5 w5) as (? & ? & _); [unfold intermediate_key_load, load_active; keeps|done|done|done]. }
  destruct q5 as [[k|]|e]; [| |destruct Hr as [-> ->]; rewrite Hd5, Hd4; by auto].
  2:{ stepM Hr as q6 w6 E6. unfold lift in E6. injection E6 as <- <-. destruct Hr as [-> ->]. rewrite Hd5, Hd4. by auto. }
  apply load_active_inv in E5. rewrite Hd4 in E5.
  stepM Hr as q6 w6 E6. unfold lift in E6. injection E6 as <- <-. cbn [ok_or] in Hr.
  stepM Hr as q7 w7 E7. unfold lift in E7. injection E7 as <- <-.
  destruct (client_payload_sign _ k) as [cc|] eqn:Es; cbn [ok_or] in Hr;
    [|destruct Hr as [-> ->]; rewrite Hd5, Hd4; by auto].
  fold (registration_body (params_user_profile params) cc c) in Hr.
  apply registration_txn in Hr as [Hn Hr]; [|done]. split; [done|]. rewrite Hd5, Hd4 in Hr.
  destruct r as [cc'|e]; [|done]. destruct Hr as (-> & Hu & Hc & Hst).
  pose proof (client_payload_sign_payload _ _ _ Es) as Hp. unfold cc_user_id in Hu, Hc. rewrite Hp in Hu, Hc.
  split; [done|done|exists (as_events w1); by apply Hval|by exists k|exact Hst].
Qed.

End Registration.

Section Trust.
Context `{Oracles} `{PrivacyPass} `{Calendar} `{Argon2} `{Semver}.
Context `{Sha256} `{SignatureScheme} `{CredentialCodecs}.
Context `{!TlsCodec ConnectionPackageV1Payload} `{!TlsCodec ConnectionPackagePayload}.
Context `{!VerifiableRequest DeleteUserPayload} `{!VerifiableRequest PublishConnectionPackagesPayload}
  `{!VerifiableRequest StageUserProfilePayload} `{!VerifiableRequest MergeUserProfilePayload}
  `{!VerifiableRequest IssueTokensPayload} `{!VerifiableRequest ReportSpamPayload}
  `{!VerifiableRequest CreateUsernamePayload} `{!VerifiableRequest DeleteUsernamePayload}
  `{!VerifiableRequest RefreshUsernamePayload} `{!VerifiableRequest InitListenUsernamePayload}.
Context `{!PrivacyPassLaws} `{!OracleLaws}.
Context (config : AsConfig).

(** ** Registration *)

(** The code of a registration, if the service asks for one: the one that never runs
    out, or a stored one that is not redeemed. *)
Definition code_accepted (d : AsDb) (given : option string) (c : option InvitationCodeRecord) : Prop :=
  if invitation_only config then
    exists s, given = Some s /\ validate_code s = true /\ c = Some {| code := s; redeemed := false |} /\
      (unredeemable_code config = Some s \/
       exists row, codes d !! s = Some row /\ inv_redeemed row = false)
  else c = None.

Lemma registration_code_inv given w r w' : as_txn w = NoTxn -> registration_code config given w = (r, w') ->
  adb w' = adb w /\ as_txn w' = NoTxn /\
  match r with Ok c => code_accepted (adb w) given c | Err _ => True end.
Proof.
  intros Hw Hr.
  destruct (tops_eq_state (registration_code config given) w r w') as (Hd & Hn & _); [|done|done|].
  { unfold registration_code, load_unredeemed, invitation_load, fail_with. keeps. }
  split_and!; [done|done|]. destruct r as [c|]; [|done]. unfold registration_code, code_accepted in *.
  destruct (invitation_only config); [|by injection Hr as <-].
  bindM Hr as s w1 E1. apply fail_with_state in E1 as [E1%ok_or_Ok ->]. bindM Hr as u w2 E2.
  apply fail_with_state in E2 as [E2%ensure_Ok ->]. bindM Hr as rec w3 E3. bindM Hr as rec' w4 E4.
  apply fail_with_state in E4 as [E4%ok_or_Ok ->]. injection Hr as <- _. subst rec.
  exists s. destruct (is_unredeemable_code config s) eqn:Eu.
  - injection E3 as <- _. apply bool_decide_eq_true in Eu. split_and!; auto.
  - unfold load_unredeemed in E3. bindM E3 as o w5 E5. injection E3 as E3 _.
    apply bind_Some in E3 as (r0 & -> & E3). destruct (redeemed r0) eqn:Er0; [done|]. injection E3 as ->.
    apply map_errM_inv in E5 as (q & E5 & Hq). destruct q as [o|]; [|done]. injection Hq as <-.
    apply query_inv in E5 as (_ & _ & _ & _ & E5). symmetry in E5. apply fmap_Some in E5 as (row & Hrow & ->).
    cbn in Er0. rewrite <- Er0. split_and!; [done|done|done|]. right. exists row. by rewrite Er0.
Qed.

Lemma register_user_inv r w q w' : as_txn w = NoTxn -> register_user config r w = (q, w') ->
  match q with
  | Ok cc => exists p profile c, ru_client_credential_payload r = FieldValue p /\
      ru_encrypted_user_profile r = FieldValue profile /\
      code_accepted (adb w) (ru_invitation_code r) c /\ registered p profile c cc (adb w) (adb w')
  | Err _ => adb w' = adb w \/ exists c t, code_accepted (adb w) (ru_invitation_code r) c /\
      adb w' = code_used c t (adb w)
  end.
Proof.
  intros Hw Hr. unfold register_user in Hr. stepM Hr as q0 w0 E0. unfold check_version, lift in E0.
  injection E0 as <- <-. destruct (map_err _ _) as [v|]; [|destruct Hr as [-> ->]; by left].
  stepM Hr as q1 w1 E1. apply registration_code_inv in E1 as (Hd1 & Hw1 & Hc); [|done].
  destruct q1 as [c|]; [|destruct Hr as [-> ->]; by left].
  stepM Hr as q2 w2 E2. unfold fail_with, lift in E2. injection E2 as <- <-.
  destruct (map_err Failed _) as [params|] eqn:Ep; [|destruct Hr as [-> ->]; by left]. inv_ok.
  apply required_Ok in Hm, Hm0. apply map_errM_inv in Hr as (x & Hr & ->).
  apply init_registration_inv in Hr as [_ Hx]; [|done]. rewrite Hd1 in Hx. destruct x as [cc|e]; cbn [map_err].
  - eauto 8.
  - destruct Hx as [|[t ?]]; [by left|right]. eauto.
Qed.

(** C27. A registration that succeeds was made with a usable invitation code if the
    service asks for one and with a credential payload that is valid now, for a user
    and a client that did not exist; the returned credential is the payload signed
    with an intermediate key of the service; the tables get the user with the given
    profile, the client with the credential, whose expiration is stored at the precision
    of its columns, and the code is used up. *)
Theorem registration_exact r w cc w' : as_txn w = NoTxn -> register_user config r w = (Ok cc, w') ->
  exists p profile c, ru_client_credential_payload r = FieldValue p /\
    ru_encrypted_user_profile r = FieldValue profile /\
    code_accepted (adb w) (ru_invitation_code r) c /\ registered p profile c cc (adb w) (adb w').
Proof. intros Hw Hr. exact (register_user_inv r w _ w' Hw Hr). Qed.

(** ** The chain of trust *)

Definition as_key_ok (k : AsSigningKey) : Prop :=
  is_keypair (signing_key (ask_signing_key k)) (verifying_key (ask_signing_key k)) /\
  acb_verifying_key (ac_body (ask_credential k)) = verifying_key (ask_signing_key k).
(** An intermediate credential that verifies under a credential of the service. *)
Definition intermediate_ok (ks : list AsSigningKey) (k : AsIntermediateSigningKey) : Prop :=
  is_keypair (signing_key (aisk_signing_key k)) (verifying_key (aisk_signing_key k)) /\
  ai_verifying_key (aisk_credential k) = verifying_key (aisk_signing_key k) /\
  exists a, a ∈ ks /\
    aip_signer_fingerprint (aib_credential (ai_body (aisk_credential k))) = ac_fingerprint (ask_credential a) /\
    as_intermediate_verify {| vai_credential := aib_credential (ai_body (aisk_credential k));
                              vai_signature := aib_signature (ai_body (aisk_credential k)) |}
      (acb_verifying_key (ac_body (ask_credential a))) = Ok (aisk_credential k).
(** A credential as it is read back from its row. *)
Definition stored_credential (c : ClientCredential) : ClientCredential :=
  {| cc_payload := {| ccp_csr := ccp_csr (cc_payload c);
                      ccp_expiration_data := expiration_column (ccp_expiration_data (cc_payload c));
                      ccp_signer_fingerprint := ccp_signer_fingerprint (cc_payload c) |};
     cc_signature := cc_signature c |}.
Definition whole_microseconds (e : ExpirationData) : Prop :=
  not_before e mod 1000 = 0 /\ not_after e mod 1000 = 0.

(** A row that was made from a credential that verifies under an intermediate one.
    What is read back is that credential up to the precision of the columns; it is the
    credential itself, and verifies, when its expiration is in whole microseconds. *)
Definition client_ok (ks : list AsIntermediateSigningKey) (id : Uuid) (r : ClientRow) : Prop :=
  exists k c, k ∈ ks /\
    client_credential_verify c (ai_verifying_key (aisk_credential k)) = Ok c /\
    into_client_credential (row_credential r) {| user_uuid := id; user_domain := row_user_domain r |}
      = Some (stored_credential c) /\
    (whole_microseconds (ccp_expiration_data (cc_payload c)) -> stored_credential c = c).
Record trusted (d : AsDb) : Prop := {
  trusted_as k : k ∈ as_keys d -> as_key_ok k;
  trusted_intermediate k : k ∈ intermediate_keys d -> intermediate_ok (as_keys d) k;
  trusted_client id r : clients d !! id = Some r -> client_ok (intermediate_keys d) id r
}.

(** Only registrations and the signing keys matter. *)
Lemma effect_trusted l d d' : effect l d d' -> (forall u, l <> LClientNew u) -> l <> LSigningKeys ->
  trusted d -> trusted d'.
Proof.
  intros He H1' H2' [T1 T2 T3]. destruct He; try (by split); try (by destruct (H1' u)).
  unfold delete_user_rows. destruct (as_user_record _ !! u); [|done]. split; [done|done|].
  intros id r Hr. unfold clients in Hr. cbn in Hr. apply map_lookup_filter_Some in Hr as [Hr _]. by apply T3.
Qed.

Context `{!SignatureSchemeLaws} `{!CredentialCodecLaws} `{!TimestamptzLaws}.

Lemma stored_credential_exact c : whole_microseconds (ccp_expiration_data (cc_payload c)) ->
  stored_credential c = c.
Proof.
  intros [Hb Ha]. unfold stored_credential, expiration_column. rewrite !timestamptz_exact by done.
  by destruct c as [[? [] ?]].
Qed.

(** Expirations that the library makes are stored exactly. *)
Lemma expiration_new_whole t lifetime : lifetime mod 1000 = 0 ->
  whole_microseconds (expiration_new t lifetime).
Proof.
  intros Hl. assert (round_subsecs t mod 1000 = 0) as Hr.
  { unfold round_subsecs. destruct (Z.leb_spec (1000 - t mod 1000) (t mod 1000)); Z.div_mod_to_equations; lia. }
  unfold whole_microseconds, expiration_new. cbn [not_before not_after]. unfold MINUTE, SECOND.
  split; Z.div_mod_to_equations; lia.
Qed.

Lemma stored_roundtrip c f : flat_new c = Some f ->
  into_client_credential (credential_column f) (cc_user_id c) = Some (stored_credential c).
Proof.
  intros Hf. pose proof (flat_roundtrip _ _ Hf) as Hr. unfold into_client_credential in *.
  cbn [fcc_version fcc_signature_scheme fcc_verifying_key fcc_signer_fingerprint fcc_signature credential_column].
  destruct (cbor_decode (fcc_version f)) as [v|]; [|done]. cbn in *.
  destruct (cbor_decode (fcc_signature_scheme f)) as [n|]; [|done]. cbn in *. by injection Hr as <-.
Qed.

Lemma trusted_code_used c t d : trusted d -> trusted (code_used c t d).
Proof. intros [T1 T2 T3]. by destruct c; split. Qed.
Lemma trusted_registered p profile c cc d d' : trusted d -> registered p profile c cc d d' -> trusted d'.
Proof.
  intros [T1 T2 T3] [Hu Hc _ (k & Hk & Hs) (flat & act & t & Hf & ->)]. apply trusted_code_used.
  split; [done|done|]. intros id r. unfold with_client, clients. cbn. rewrite lookup_insert.
  case_decide as Hid; [|apply T3]. intros [= <-]. destruct (T2 k Hk) as (Hkp & Hv & _).
  exists k, cc. split; [done|]. cbn [row_credential row_user_domain].
  destruct (client_payload_sign_verifies _ _ _ Hkp Hs) as [Hp Hver]. split_and!.
  - by rewrite Hv.
  - subst id. apply stored_roundtrip in Hf. by destruct (cc_user_id cc).
  - apply stored_credential_exact.
Qed.

Definition keeps_trust (d d' : AsDb) : Prop := trusted d -> trusted d'.
#[local] Instance keeps_trust_preorder : PreOrder keeps_trust.
Proof. split; [by intros d Hd|]. intros a b c H1' H2' Ha. auto. Qed.

Lemma omap_same {A B} (f : A -> option B) (g : A -> A) (l : list A) : (forall a, f (g a) = f a) -> omap f (g <$> l) = omap f l.
Proof. intros Hg. induction l as [|a l IH]; [done|]. cbn. by rewrite Hg, IH. Qed.

Lemma trust_activate (g : SigningKeyRow -> SigningKeyRow) :
  (forall r, row_signing_key (g r) = row_signing_key r) ->
  keeps keeps_trust (exec (fun _ d => (tt, set_signing_keys (g <$> as_signing_key (users_db d)) d))).
Proof.
  intros Hg. apply keeps_exec; [apply _|]. intros t d [T1 T2 T3].
  assert (as_keys (set_signing_keys (g <$> as_signing_key (users_db d)) d) = as_keys d) as Ha.
  { apply omap_same. intros r. unfold as_key_of. by rewrite Hg. }
  assert (intermediate_keys (set_signing_keys (g <$> as_signing_key (users_db d)) d) = intermediate_keys d) as Hi.
  { apply omap_same. intros r. unfold intermediate_key_of. by rewrite Hg. }
  cbn [snd]. split; rewrite ?Ha, ?Hi; done.
Qed.
Lemma row_key_activate_as f r : row_signing_key (activate_as f r) = row_signing_key r.
Proof. unfold activate_as. by case_decide. Qed.
Lemma row_key_activate_intermediate f r : row_signing_key (activate_intermediate f r) = row_signing_key r.
Proof. unfold activate_intermediate. by case_decide. Qed.

Lemma as_keys_add d row : as_keys (set_signing_keys (as_signing_key (users_db d) ++ [row]) d) =
  as_keys d ++ omap as_key_of [row].
Proof. unfold as_keys. cbn [users_db set_signing_keys set_users_db as_signing_key]. by rewrite omap_app. Qed.
Lemma intermediate_keys_add d row : intermediate_keys (set_signing_keys (as_signing_key (users_db d) ++ [row]) d) =
  intermediate_keys d ++ omap intermediate_key_of [row].
Proof. unfold intermediate_keys. cbn [users_db set_signing_keys set_users_db as_signing_key]. by rewrite omap_app. Qed.

(** A stored key of the service, and a stored intermediate key. *)
Lemma trusted_add_as d k : trusted d -> as_key_ok k ->
  trusted (set_signing_keys (as_signing_key (users_db d) ++ [signing_key_row CredAs (as_fingerprint k) (AsKeyBlob k)]) d).
Proof.
  intros [T1 T2 T3] Hk.
  split; rewrite ?as_keys_add, ?intermediate_keys_add; cbn [omap list_omap as_key_of intermediate_key_of
    signing_key_row row_signing_key]; rewrite ?app_nil_r.
  - intros k' [Hin| ->%list_elem_of_singleton]%elem_of_app; [by apply T1|done].
  - intros k' Hin. destruct (T2 k' Hin) as (P1 & P2 & a & Ha' & P3). split_and!; [done|done|].
    exists a. split; [apply elem_of_app; by left|done].
  - exact T3.
Qed.
Lemma trusted_add_intermediate d k : trusted d -> intermediate_ok (as_keys d) k ->
  trusted (set_signing_keys (as_signing_key (users_db d) ++
    [signing_key_row CredIntermediate (intermediate_fingerprint k) (IntermediateKeyBlob k)]) d).
Proof.
  intros [T1 T2 T3] Hk.
  split; rewrite ?as_keys_add, ?intermediate_keys_add; cbn [omap list_omap as_key_of intermediate_key_of
    signing_key_row row_signing_key]; rewrite ?app_nil_r.
  - done.
  - intros k' [Hin| ->%list_elem_of_singleton]%elem_of_app; [by apply T2|done].
  - intros id r Hr. destruct (T3 id r Hr) as (k' & c & Hin & P). exists k', c. split; [apply elem_of_app; by left|done].
Qed.

Lemma as_credential_new_ok n t scheme domain c k :
  as_credential_new (generated_key n) t scheme domain None = Ok (c, k) -> as_key_ok k.
Proof.
  unfold as_credential_new. intros Hn. inv_ok. split; [|done]. by apply (generated_keypair n).
Qed.
Lemma trust_generate_as domain scheme : keeps keeps_trust (generate_store_and_activate domain scheme).
Proof.
  unfold generate_store_and_activate. keeps_step; [keeps|]. keeps_step; [keeps|].
  apply keeps_bind_with; [apply _|keeps|]. intros [c k] w w' Hk. leafM Hk. apply map_err_Ok, as_credential_new_ok in Hk.
  keeps_step. keeps_step; [keeps_step|keeps_step; [keeps_step|keeps]].
  - unfold as_key_store, store_signing_key. apply keeps_exec; [apply _|]. intros s d Hd. by apply trusted_add_as.
  - apply trust_activate, row_key_activate_as.
Qed.

(** An intermediate key signed with a key of the service. *)
Lemma generate_intermediate_ok domain scheme a w k w' ks : as_key_ok a -> a ∈ ks ->
  generate_intermediate domain scheme a w = (Ok k, w') -> intermediate_ok ks k /\ adb w' = adb w.
Proof.
  intros [Ha1 Ha2] Hin Hg. unfold generate_intermediate in Hg.
  bindM Hg as n w1 E1. injection E1 as <- <-. bindM Hg as [csr prelim] w2 E2. leafM E2.
  bindM Hg as t w3 E3. injection E3 as <- <-. bindM Hg as c w4 E4. leafM E4. leafM Hg. cbn [fst snd] in *. inv_ok.
  unfold as_intermediate_csr_new in E2. inv_ok. apply generated_keypair in Hm.
  destruct (as_intermediate_sign_verifies _ _ _ _ _ Ha1 E4) as (Hcsr & Hfp & Hver).
  unfold as_intermediate_from_prelim_key in Hg. case_decide as Hk; [done|]. inv_ok.
  split; [|done]. split_and!; [done| |]; cbn [aisk_credential aisk_signing_key].
  - done.
  - exists a. rewrite Ha2. split_and!; done.
Qed.
Lemma trust_generate_intermediate domain scheme : keeps keeps_trust (generate_sign_and_activate domain scheme).
Proof.
  unfold generate_sign_and_activate. keeps_step. apply keeps_isolated; [apply _| | |].
  - unfold as_key_load, load_active, generate_intermediate, intermediate_key_store, store_signing_key,
      intermediate_key_activate, exec. keeps; apply keeps_any_sql.
  - unfold as_key_load, load_active, generate_intermediate, intermediate_key_store, store_signing_key,
      intermediate_key_activate. isolated.
  - intros w. match goal with |- keeps_trust _ (adb (?m w).2) => destruct (m w) as [r w'] eqn:E end. cbn [snd].
    intros Hd. stepM E as q1 w1 E1.
    assert (adb w1 = adb w) as Hd1.
    { pose proof (keeps_adb eq (map_errM (fun _ : SqlxError => StorageFailed) as_key_load)) as K.
      specialize (K ltac:(unfold as_key_load, load_active; keeps) w). by rewrite E1 in K. }
    destruct q1 as [[a|]|]; [| |by destruct E as [_ ->]; rewrite Hd1].
    2:{ stepM E as q2 w2 E2. unfold lift in E2. injection E2 as <- <-. destruct E as [_ ->]. by rewrite Hd1. }
    apply load_active_inv in E1. stepM E as q2 w2 E2. unfold lift in E2. injection E2 as <- <-. cbn [ok_or] in E.
    stepM E as q3 w3 E3.
    assert (adb w3 = adb w1) as Hd3.
    { pose proof (keeps_adb eq (generate_intermediate domain scheme a)) as K.
      specialize (K ltac:(unfold generate_intermediate; keeps) w1). by rewrite E3 in K. }
    destruct q3 as [k|]; [|destruct E as [_ ->]; by rewrite Hd3, Hd1].
    eapply (generate_intermediate_ok _ _ _ _ _ _ (as_keys (adb w))) in E3 as [Hk _]; [|by apply Hd|done].
    stepM E as q4 w4 E4. apply map_errM_inv in E4 as (x & E4 & ->). apply exec_inv in E4 as [_ Hx].
    assert (trusted (adb w4)) as Hd4.
    { destruct x as [[]|]; [|by rewrite Hx, Hd3, Hd1]. destruct Hx as (t & Hf & _). injection Hf as <-.
      rewrite Hd3, Hd1. by apply trusted_add_intermediate. }
    destruct x as [u4|]; cbn [map_err] in E; [|by destruct E as [_ ->]].
    stepM E as q5 w5 E5.
    assert (trusted (adb w5)) as Hd5.
    { pose proof (keeps_adb _ _ (trust_activate _ (row_key_activate_intermediate (intermediate_fingerprint k))) w4) as K.
      apply map_errM_inv in E5 as (y & E5 & ->). unfold intermediate_key_activate in E5. rewrite E5 in K. by apply K. }
    destruct q5; [injection E as _ <-|destruct E as [_ ->]]; done.
Qed.

Lemma tops_trust_effects {E A} (L : Label -> Prop) (m : M AsWorld E A) :
  tops (reach L) m -> (forall u, ~ L (LClientNew u)) -> ~ L LSigningKeys -> tops keeps_trust m.
Proof.
  intros Hm H1' H2' w Hw. destruct (Hm w Hw) as (T1 & T2 & T3). split_and!; [done| |done].
  eapply reach_rel; [apply _| |exact T2]. intros l x y Hl He Hx.
  apply (effect_trusted l x y He); [|by intros ->|done]. intros u ->. by eapply H1'.
Qed.
Lemma trust_initialize domain : tops keeps_trust (as_initialize domain).
Proof.
  unfold as_initialize. keeps_step; [keeps; by apply keeps_exec; [apply _|]|].
  keeps_step; [|keeps_step; [|keeps]].
  - keeps_step. keeps_step; [unfold as_key_load, load_active; keeps|]. keeps.
    + apply trust_generate_as.
    + apply trust_generate_intermediate.
  - keeps_step. eapply (tops_trust_effects (fun l => exists op, l = LKeys op)); [|naive_solver|naive_solver].
    apply tops_rotate_all. eauto.
Qed.

Lemma op_trusted o w : as_txn w = NoTxn -> trusted (adb w) -> trusted (adb (as_run config o w).2).
Proof.
  intros Hw Hd. destruct (as_run_reach config o w Hw) as (_ & Hr & _).
  assert ((forall l, allowed config o l -> (forall u, l <> LClientNew u) /\ l <> LSigningKeys) \/
    (exists r, o = OpRegister r) \/ exists domain, o = OpInitialize domain) as [Hl|[[r ->]|[domain ->]]].
  { destruct o; eauto; left; intros l Ha; cbn in Ha; repeat case_match; naive_solver. }
  - eapply reach_inv; [|exact Hr|done]. intros l x y Ha He. destruct (Hl l Ha). by apply (effect_trusted l).
  - destruct (as_run config (OpRegister r) w) as [q w'] eqn:E. cbn [snd]. apply void_inv in E as (x & E & _).
    apply register_user_inv in E; [|done]. destruct x as [cc|e].
    + destruct E as (p & profile & c & _ & _ & _ & Hreg). by eapply trusted_registered.
    + destruct E as [->|(c & t & _ & ->)]; [done|by apply trusted_code_used].
  - destruct (as_run config (OpInitialize domain) w) as [q w'] eqn:E. cbn [snd]. apply void_inv in E as (x & E & _).
    destruct (trust_initialize domain w Hw) as (_ & T & _). rewrite E in T. by apply T.
Qed.

(** C7. After any operations, every stored client credential is one that verifies under
    the key of an intermediate credential of the service, up to the precision of the
    columns that hold its expiration: it is read back exactly when its expiration is in
    whole microseconds, as [ExpirationData::new] makes it.  And every intermediate
    credential verifies under the credential of the service that it names as its
    signer. *)
Theorem chain_of_trust os w : as_txn w = NoTxn -> trusted (adb w) -> trusted (adb (as_runs config os w)).
Proof.
  revert w. induction os as [|o os IH]; intros w Hw Hd; [done|]. cbn.
  destruct (as_run_reach config o w Hw) as (Hw' & _ & _). apply IH; [done|]. by apply op_trusted.
Qed.

End Trust.
