(* ===== verification/AuthCodes.v ===== *)
(** * Invitation codes and user profiles

    The invitation codes that are given for tokens, within the daily limit, and the
    two versions of a user's profile. *)

From S2P Require Import Prelude Aead Signatures Messages Grpc PgTask RateLimiter Credentials.
From S2P Require Import ConnectionPackages AuthDb AuthTokens AuthUsers AuthNames AuthGrpc.
From S2P Require Import AuthDbCorrect AuthTokensCorrect AuthEffects AuthOps AuthCorrect AuthCharges.
From S2P Require Import AuthAllowance AuthAuthority.

Set Warnings "-clear-no-such-hyp".

Section Codes.
Context `{Oracles} `{PrivacyPass} `{!PrivacyPassLaws} `{Calendar} `{Argon2} `{Semver}.
Context `{Sha256} `{SignatureScheme} `{CredentialCodecs}.

(** The codes that were created on the day of [t]. *)
Definition issued_on (t : TimeStamp) (d : AsDb) : Z :=
  Z.of_nat (size (filter (fun x => start_of_day t <= inv_created_at x.2 /\
                                   inv_created_at x.2 < start_of_day t + DAY) (codes d))).

(** New codes, created at [t]; the others are as before. *)
Record codes_added (t : TimeStamp) (cs : list string) (d d' : AsDb) : Prop := {
  added_distinct : NoDup cs;
  added_new c : c ∈ cs -> codes d !! c = None;
  added_stored c : c ∈ cs -> codes d' !! c = Some {| inv_redeemed := false; inv_created_at := t |};
  added_valid c : c ∈ cs -> validate_code c = true;
  added_other c : c ∉ cs -> codes d' !! c = codes d !! c;
  added_count : issued_on t d' = issued_on t d + Z.of_nat (length cs)
}.

Lemma start_of_day_range t : start_of_day t <= t /\ t < start_of_day t + DAY.
Proof. unfold start_of_day. pose proof (Z.mod_pos_bound t DAY ltac:(done)). lia. Qed.

Lemma codes_added_nil t d d' : codes d' = codes d -> codes_added t [] d d'.
Proof.
  intros Hd. split; [constructor|by intros c Hc%not_elem_of_nil..| |].
  - by rewrite Hd.
  - unfold issued_on. rewrite Hd. cbn. lia.
Qed.
Lemma codes_added_cons t c cs d d1 d2 d' :
  codes d1 = codes d -> codes d1 !! c = None -> validate_code c = true ->
  d2 = set_invitation_codes (<[c := {| inv_redeemed := false; inv_created_at := t |}]> (codes d1)) d1 ->
  codes_added t cs d2 d' -> codes_added t (c :: cs) d d'.
Proof.
  intros H1' Hn Hv -> [A1 A2 A3 A4 A5 A6].
  unfold issued_on in A6. change (codes (set_invitation_codes ?x d1)) with x in *. rewrite H1' in *.
  set (m := <[c := {| inv_redeemed := false; inv_created_at := t |}]> (codes d)) in *.
  assert (c ∉ cs) as Hc. { intros Hin. specialize (A2 c Hin). unfold m in A2. by rewrite lookup_insert_eq in A2. }
  split.
  - by constructor.
  - intros c' [->|Hin]%elem_of_cons; [done|]. specialize (A2 c' Hin). unfold m in A2.
    by apply lookup_insert_None in A2 as [A2 _].
  - intros c' [->|Hin]%elem_of_cons; [|by apply A3]. rewrite A5 by done. unfold m. by rewrite lookup_insert_eq.
  - intros c' [->|Hin]%elem_of_cons; [done|by apply A4].
  - intros c' [Hne Hnin]%not_elem_of_cons. rewrite A5 by done. unfold m. by rewrite lookup_insert_ne.
  - unfold issued_on. rewrite A6. unfold m.
    rewrite map_filter_insert_True by (cbn; apply start_of_day_range).
    rewrite map_size_insert_None by (apply map_lookup_filter_None; by left). cbn [length]. lia.
Qed.

Lemma issue_codes_added tokens s b saved w cs w' :
  as_txn w = InTxn s b saved -> issue_codes tokens w = (Ok cs, w') ->
  (length cs <= length tokens)%nat /\ codes_added s cs (adb w) (adb w').
Proof.
  revert w b cs. induction tokens as [|t tokens IH]; intros w b cs Hw Hi; cbn [issue_codes] in Hi.
  { injection Hi as <- <-. split; [done|by apply codes_added_nil]. }
  stepM Hi as q w1 E1. apply try_inv in E1 as (r & E1 & ->).
  destruct (isolated_redeem t GetInviteCode w s b saved Hw) as [b1 Hw1]. rewrite E1 in Hw1. cbn in Hw1.
  assert (codes (adb w1) = codes (adb w)) as Hc1.
  { apply redeem_inv in E1 as [[[-> _]|(_ & st & ->)] _]; done. }
  destruct r as [[]|e].
  2:{ destruct (IH w1 b1 cs Hw1 Hi) as [Hl [A1 A2 A3 A4 A5 A6]]. split; [cbn; lia|].
      unfold issued_on in A6. rewrite Hc1 in *. by split. }
  stepM Hi as x w2 E2. apply map_errM_inv in E2 as (q & E2 & ->).
  pose proof (isolated_generate w1 s b1 saved Hw1) as [b2 Hw2]. rewrite E2 in Hw2. cbn in Hw2.
  apply generate_inv in E2. destruct q as [c0|e]; [|by destruct Hi].
  destruct E2 as (Hc0 & Hv0 & t0 & Ht0 & Hd2). rewrite (Ht0 _ _ _ Hw1) in Hd2. cbn [map_err] in Hi.
  bindM Hi as cs0 w3 Hi0. injection Hi as <- <-. destruct (IH w2 b2 cs0 Hw2 Hi0) as [Hl Ha].
  split; [cbn; lia|]. by eapply codes_added_cons.
Qed.

Lemma length_omap_le {A B} (f : A -> option B) (l : list A) : (length (omap f l) <= length l)%nat.
Proof. induction l as [|a l IH]; cbn; [lia|]. destruct (f a); cbn; lia. Qed.

(** A request for invitation codes with at most ten tokens returns at most one
    code per token; they are well-formed, distinct and new, and the day's codes stay
    within the daily limit.  If it fails nothing changes; if a statement failed on
    the way whose error the service swallows, nothing is stored either. *)
Theorem invitation_codes_exact bs w r w' : as_txn w = NoTxn -> get_invitation_codes bs w = (r, w') ->
  adb w' = adb w \/
  exists cs, r = Ok cs /\ (length cs <= length bs <= 10)%nat /\
    codes_added (now (as_events w)) cs (adb w) (adb w') /\
    issued_on (now (as_events w)) (adb w') <= CODES_PER_DAY.
Proof.
  intros Hw Hg. apply get_codes_inv in Hg as [Hd|(cs & tokens & w2 & -> & Hl & Htok & Hb & Hd)]; [by left| |done].
  right. exists cs. eapply codes_body_Ok in Hb as (n & w1 & b1 & Hn & Hlock & Hd1 & Hw1 & Hi); [|done].
  destruct (issue_codes_added _ _ _ _ _ _ _ Hw1 Hi) as [Hlen Ha]. rewrite Hd1, <- Hd in Ha.
  change (adb (begun w)) with (adb w) in Ha.
  assert (length tokens <= length bs)%nat as Ht by (rewrite <- Htok; apply length_omap_le).
  split_and!; [done|lia|lia|done|]. rewrite (added_count _ _ _ _ Ha).
  assert (n = issued_on (now (as_events w)) (adb w)) as ->; [|lia].
  unfold lock_and_count_codes_issued_today in Hlock. bindM Hlock as u w3 E3.
  apply sql_inv in E3 as (_ & _ & _ & Ht3 & _ & t & [= _ Hd3] & _).
  apply sql_inv in Hlock as (_ & _ & _ & _ & _ & t' & [= Hn' _] & Ht').
  rewrite Ht3 in Ht'. cbn in Ht'. subst t'. rewrite <- Hn', <- Hd3. done.
Qed.

(** ** Profiles *)

(** The profile that the service has for a key index. *)
Definition served (u : UserId) (i : bytes) (d : AsDb) : option EncryptedUserProfile :=
  row ← users d !! u; into_user_profile (record_of u row) i.

Lemma user_update_inv rec w r w' : user_update rec w = (r, w') ->
  match r with
  | Ok _ => is_Some (users (adb w) !! ur_user_id rec) ->
      adb w' = set_user_records (<[ur_user_id rec := row_of_user rec]> (users (adb w))) (adb w)
  | Err _ => adb w' = adb w
  end.
Proof.
  intros Hu. unfold user_update, exec in Hu. apply sql_inv in Hu as (_ & _ & _ & Hr). destruct r as [[]|e]; [|apply Hr].
  intros [row Hrow]. destruct Hr as (_ & _ & t & Hf & _). cbv zeta in Hf. fold (users (adb w)) in Hf.
  rewrite Hrow in Hf. by injection Hf as <-.
Qed.

Lemma stage_Ok u p w w' : as_stage_user_profile u p w = (Ok tt, w') ->
  exists row, users (adb w) !! u = Some row /\
    adb w' = set_user_records (<[u := {| row_encrypted_user_profile := row_encrypted_user_profile row;
                                        row_staged_user_profile := Some p |}]> (users (adb w))) (adb w).
Proof.
  intros Hs. unfold as_stage_user_profile in Hs. bindM Hs as found w1 E1.
  apply user_load_Ok in E1 as (Hd & _ & ->). bindM Hs as rec w2 E2. leafM E2. apply ok_or_Ok, fmap_Some in E2 as (row & Hrow & ->).
  apply map_errM_inv in Hs as (q & Hs & Hq). destruct q; [|done]. apply user_update_inv in Hs. rewrite Hd in Hs.
  exists row. split; [done|]. apply Hs. by exists row.
Qed.
Lemma merge_Ok u w w' : as_merge_user_profile u w = (Ok tt, w') ->
  exists row p, users (adb w) !! u = Some row /\ row_staged_user_profile row = Some p /\
    adb w' = set_user_records (<[u := {| row_encrypted_user_profile := p;
                                        row_staged_user_profile := None |}]> (users (adb w))) (adb w).
Proof.
  intros Hs. unfold as_merge_user_profile in Hs. bindM Hs as found w1 E1.
  apply user_load_Ok in E1 as (Hd & _ & ->). bindM Hs as rec w2 E2. leafM E2. apply ok_or_Ok, fmap_Some in E2 as (row & Hrow & ->).
  bindM Hs as merged w3 E3. leafM E3. apply map_err_Ok in E3. unfold merge_user_profile in E3.
  destruct (row_staged_user_profile row) as [p|] eqn:Ep; cbn [record_of staged_user_profile] in E3; rewrite Ep in E3; [|done].
  inv_ok. apply map_errM_inv in Hs as (q & Hs & Hq). destruct q; [|done]. apply user_update_inv in Hs.
  rewrite Hd in Hs. exists row, p. split_and!; [done|done|]. apply Hs. by exists row.
Qed.

(** Requests for a profile get the current or the staged one, by the index of
    its key.  Between the staging of a new profile and its merge both are there, the
    current one first; after the merge only the new one is. *)
Theorem profile_rollover u p w w1 w2 :
  as_stage_user_profile u p w = (Ok tt, w1) -> as_merge_user_profile u w1 = (Ok tt, w2) ->
  exists row, users (adb w) !! u = Some row /\
    (forall i, served u i (adb w1) =
       if decide (i = key_index (row_encrypted_user_profile row)) then Some (row_encrypted_user_profile row)
       else if decide (i = key_index p) then Some p else None) /\
    (forall i, served u i (adb w2) = if decide (i = key_index p) then Some p else None) /\
    forall i w3 x w4, as_get_user_profile u i w3 = (Ok x, w4) -> served u i (adb w3) = Some x.
Proof.
  intros Hs Hm. apply stage_Ok in Hs as (row & Hrow & Hd1). apply merge_Ok in Hm as (row1 & p' & Hrow1 & Hp' & Hd2).
  assert (users (adb w1) !! u = Some {| row_encrypted_user_profile := row_encrypted_user_profile row;
                                        row_staged_user_profile := Some p |}) as Hu1.
  { rewrite Hd1. unfold users. cbn. by rewrite lookup_insert_eq. }
  rewrite Hu1 in Hrow1. injection Hrow1 as <-. cbn in Hp'. injection Hp' as <-.
  assert (users (adb w2) !! u = Some {| row_encrypted_user_profile := p; row_staged_user_profile := None |}) as Hu2.
  { rewrite Hd2. unfold users. cbn. by rewrite lookup_insert_eq. }
  exists row. split_and!; [done| | |].
  - intros i. unfold served. by rewrite Hu1.
  - intros i. unfold served. by rewrite Hu2.
  - intros i w3 x w4 Hg. unfold as_get_user_profile in Hg. bindM Hg as found w5 E5. apply user_load_Ok in E5 as (_ & _ & ->).
    bindM Hg as rec w6 E6. leafM E6. apply ok_or_Ok, fmap_Some in E6 as (row3 & Hrow3 & ->). leafM Hg. apply ok_or_Ok in Hg.
    unfold served. by rewrite Hrow3.
Qed.

End Codes.
