(* ===== verification/AuthStream.v ===== *)
(** * Streams of connection offers

    A listener on a username, run against everything else that the service does: it
    yields each queued offer once, and when it reports that the queue is empty it has
    yielded all of them. *)

From stdpp Require Import sorting.
From S2P Require Import Prelude Aead Signatures Messages Grpc PgTask RateLimiter Credentials.
From S2P Require Import ConnectionPackages AuthDb AuthTokens AuthUsers AuthNames AuthGrpc.
From S2P Require Import AuthDbCorrect AuthTokensCorrect AuthEffects AuthOps AuthCorrect AuthCharges.
From S2P Require Import AuthAllowance AuthNamesCorrect.

Set Warnings "-clear-no-such-hyp".

(** Random ids do not repeat. *)
Class UuidOracle `{Oracles} : Prop := uuid_of_inj m n : uuid_of m = uuid_of n -> m = n.

Section Streams.
Context `{Oracles} `{PrivacyPass} `{Calendar} `{Argon2} `{Semver}.
Context `{Sha256} `{SignatureScheme} `{CredentialCodecs}.
Context `{!TlsCodec ConnectionPackageV1Payload} `{!TlsCodec ConnectionPackagePayload}.
Context `{!VerifiableRequest DeleteUserPayload} `{!VerifiableRequest PublishConnectionPackagesPayload}
  `{!VerifiableRequest StageUserProfilePayload} `{!VerifiableRequest MergeUserProfilePayload}
  `{!VerifiableRequest IssueTokensPayload} `{!VerifiableRequest ReportSpamPayload}
  `{!VerifiableRequest CreateUsernamePayload} `{!VerifiableRequest DeleteUsernamePayload}
  `{!VerifiableRequest RefreshUsernamePayload} `{!VerifiableRequest InitListenUsernamePayload}.
Context `{!PrivacyPassLaws} `{!OracleLaws} `{!UuidOracle}.
Context (config : AsConfig).

(** A listener, what it has yielded, and the service. *)
Record StreamSys := {
  sys_world : AsWorld;
  sys_stream : NameStream;
  sys_yielded : list UsernameQueueMessage
}.

(** A turn of another stream is on another username or finds that it was cancelled:
    a stream on the same username that is not cancelled has replaced this one. *)
Definition not_replaced (x : StreamSys) (o : AsOp) : Prop :=
  forall wake s, o = OpStreamTurn wake s ->
    ns_hash s <> ns_hash (sys_stream x) \/ ns_cancel s ∈ as_cancelled (sys_world x).

(** A turn of the stream, or another operation. *)
Inductive stream_step : StreamSys -> StreamSys -> Prop :=
| step_yield wake x m s' w' :
    name_turn wake (sys_stream x) (sys_world x) = (NameYield (Some m) s', w') ->
    stream_step x {| sys_world := w'; sys_stream := s'; sys_yielded := sys_yielded x ++ [m] |}
| step_empty wake x s' w' :
    name_turn wake (sys_stream x) (sys_world x) = (NameYield None s', w') ->
    stream_step x {| sys_world := w'; sys_stream := s'; sys_yielded := sys_yielded x |}
| step_again wake x s' w' :
    name_turn wake (sys_stream x) (sys_world x) = (NameAgain s', w') ->
    stream_step x {| sys_world := w'; sys_stream := s'; sys_yielded := sys_yielded x |}
| step_other o x :
    not_replaced x o ->
    stream_step x {| sys_world := (as_run config o (sys_world x)).2; sys_stream := sys_stream x;
                     sys_yielded := sys_yielded x |}.

(** The ids of what was yielded and of what is in the buffer. *)
Definition given_ids (x : StreamSys) : list (option Uuid) :=
  message_id <$> sys_yielded x ++ rev (ns_buffer (sys_stream x)).

(** No id drawn from now on. *)
Definition old_id (n : nat) (id : Uuid) : Prop := forall m, (n <= m)%nat -> uuid_of m <> id.

Record stream_inv (x : StreamSys) : Prop := {
  si_txn : as_txn (sys_world x) = NoTxn;
  si_wf : wf_as (adb (sys_world x));
  si_nodup : NoDup (given_ids x);
  si_some i : i ∈ given_ids x -> exists id, i = Some id /\ old_id (as_events (sys_world x)) id;
  si_old id r : offers (adb (sys_world x)) !! id = Some r -> old_id (as_events (sys_world x)) id;
  si_marked id r : Some id ∈ given_ids x -> offers (adb (sys_world x)) !! id = Some r ->
    row_hash r = ns_hash (sys_stream x) /\ row_fetched_by r = Some (ns_id (sys_stream x));
  si_fetched id r : offers (adb (sys_world x)) !! id = Some r -> row_hash r = ns_hash (sys_stream x) ->
    row_fetched_by r = Some (ns_id (sys_stream x)) -> Some id ∈ given_ids x
}.

(** ** Other operations *)

(** The rows of a username only go away, and there are no new ids. *)
Definition offers_shrink (h : UsernameHash) (d d' : AsDb) : Prop :=
  forall id r, offers d' !! id = Some r -> exists r0, offers d !! id = Some r0 /\
    row_hash r = row_hash r0 /\ (row_hash r0 = h -> r0 = r).
#[export] Instance offers_shrink_preorder h : PreOrder (offers_shrink h).
Proof.
  split; [by intros d id r Hr; exists r|]. intros a b c H1' H2' id r Hr.
  destruct (H2' id r Hr) as (r1 & Hr1 & Hh1 & He1). destruct (H1' id r1 Hr1) as (r0 & Hr0 & Hh0 & He0).
  exists r0. split_and!; [done|congruence|]. intros Hh. pose proof (He0 Hh) as ->. by apply He1.
Qed.

Lemma mark_fetched_other by_ rows q id r :
  foldl (mark_fetched by_) q rows !! id = Some r -> (forall x, x ∈ rows -> x.1 <> id) -> q !! id = Some r.
Proof.
  revert q. induction rows as [|x rows IH]; intros q Hl Hne; [done|]. cbn in Hl.
  apply IH in Hl; [|by intros y Hy; apply Hne; right]. unfold mark_fetched in Hl.
  rewrite lookup_insert_ne in Hl; [done|]. apply Hne. by left.
Qed.

Lemma effect_offers_shrink l d d' h : effect l d d' -> (forall h', l <> LOffer h') -> l <> LFetch h ->
  offers_shrink h d d'.
Proof.
  intros He H1' H2'. destruct He; try (by intros id' r' Hr'; exists r'); try (by destruct (H1' h0)).
  - unfold delete_user_rows. destruct (as_user_record _ !! u); by intros id' r' Hr'; exists r'.
  - intros id r Hr. unfold offers in Hr. cbn in Hr. apply map_lookup_filter_Some in Hr as [Hr _]. by exists r.
  - intros id r Hr. unfold offers in Hr. cbn in Hr. fold (offers d) in Hr.
    pose proof (mark_fetched_lookup _ _ _ _ _ Hr) as (r0 & Hr0 & Hh & _ & _).
    { intros x Hx. by eapply messages_to_fetch_rows. }
    exists r0. split_and!; [done|done|]. intros Hh0. apply mark_fetched_other in Hr; [congruence|].
    intros x Hx Hid. apply messages_to_fetch_rows in Hx as (Hx & Hxh & _). subst id. congruence.
  - intros id' r Hr. unfold offers in Hr. cbn in Hr. apply lookup_delete_Some in Hr as [_ Hr]. by exists r.
Qed.

Lemma offers_shrink_inv x w' : as_txn w' = NoTxn -> wf_as (adb w') ->
  (as_events (sys_world x) <= as_events w')%nat ->
  offers_shrink (ns_hash (sys_stream x)) (adb (sys_world x)) (adb w') -> stream_inv x ->
  stream_inv {| sys_world := w'; sys_stream := sys_stream x; sys_yielded := sys_yielded x |}.
Proof.
  intros Hw Hwf He Hs [S1 S2 S3 S4 S5 S6 S7]. split; cbn [sys_world sys_stream]; try done.
  - intros i Hi. destruct (S4 i Hi) as (id & -> & Ho). exists id. split; [done|]. intros m Hm. apply Ho. lia.
  - intros id r Hr. destruct (Hs id r Hr) as (r0 & Hr0 & _). intros m Hm. apply (S5 id r0 Hr0). lia.
  - intros id r Hi Hr. destruct (Hs id r Hr) as (r0 & Hr0 & Hh & Heq). destruct (S6 id r0 Hi Hr0) as [Hh0 Hf0].
    by rewrite <- (Heq Hh0).
  - intros id r Hr Hh Hf. destruct (Hs id r Hr) as (r0 & Hr0 & Hh0 & Heq).
    assert (r0 = r) as -> by (apply Heq; congruence). by apply (S7 id r).
Qed.

(** A new offer has a new id. *)
Lemma offer_inv x w' h offer id t : as_txn w' = NoTxn -> wf_as (adb w') ->
  (S (as_events (sys_world x)) < as_events w')%nat -> id = uuid_of (S (as_events (sys_world x))) ->
  adb w' = with_offer h id offer t (adb (sys_world x)) -> stream_inv x ->
  stream_inv {| sys_world := w'; sys_stream := sys_stream x; sys_yielded := sys_yielded x |}.
Proof.
  intros Hw Hwf He Hid Hd [S1 S2 S3 S4 S5 S6 S7].
  assert (forall id' r, offers (adb w') !! id' = Some r ->
    id' = id /\ row_fetched_by r = None \/ id' <> id /\ offers (adb (sys_world x)) !! id' = Some r) as Hcase.
  { intros id' r. rewrite Hd. unfold with_offer, offers. cbn. rewrite lookup_insert. case_decide; [|auto].
    intros [= <-]. auto. }
  assert (forall id', old_id (as_events (sys_world x)) id' -> old_id (as_events w') id') as Hold.
  { intros id' Ho m Hm. apply Ho. lia. }
  split; cbn [sys_world sys_stream]; try done.
  - intros i Hi. destruct (S4 i Hi) as (id' & -> & Ho). eauto.
  - intros id' r Hr. destruct (Hcase id' r Hr) as [[-> _]|[_ Hr']]; [|by eauto].
    intros m Hm Heq. rewrite Hid in Heq. apply uuid_of_inj in Heq. lia.
  - intros id' r Hi Hr. destruct (Hcase id' r Hr) as [[-> _]|[_ Hr']]; [|by apply (S6 id' r)].
    exfalso. destruct (S4 _ Hi) as (id'' & [= <-] & Ho). apply (Ho (S (as_events (sys_world x)))); [lia|done].
  - intros id' r Hr Hh Hf. destruct (Hcase id' r Hr) as [[_ Hf']|[_ Hr']]; [congruence|by eapply S7].
Qed.

Lemma cancelled_turn wake s w : ns_cancel s ∈ as_cancelled w -> as_run config (OpStreamTurn wake s) w = (Ok tt, w).
Proof.
  intros Hc. cbn [as_run]. unfold void, mbind, M_bind, stream_turn_op, name_turn. cbn.
  by rewrite decide_True by done.
Qed.

Lemma other_inv o x : not_replaced x o -> stream_inv x ->
  stream_inv {| sys_world := (as_run config o (sys_world x)).2; sys_stream := sys_stream x;
                sys_yielded := sys_yielded x |}.
Proof.
  intros Ho Hx. pose proof (si_txn x Hx) as Hw.
  destruct (as_run_reach config o (sys_world x) Hw) as (Hw' & Hr & He).
  assert (wf_as (adb (as_run config o (sys_world x)).2)) as Hwf.
  { eapply reach_inv; [|exact Hr|by apply si_wf]. intros l y z _ Hl. by apply (effect_wf l y z Hl). }
  assert ((forall l, allowed config o l -> (forall h', l <> LOffer h') /\ l <> LFetch (ns_hash (sys_stream x))) \/
    (exists h step, o = OpConnectEnqueue h step) \/
    exists wake s, o = OpStreamTurn wake s /\ ns_cancel s ∈ as_cancelled (sys_world x)) as [Hl|[(h & step & ->)|(wake & s & -> & Hc)]].
  { destruct o; eauto; try (destruct (Ho _ _ eq_refl); [|by eauto 10]);
      left; intros l Ha; cbn in Ha; repeat case_match; naive_solver. }
  - apply offers_shrink_inv; try done. eapply reach_rel; [apply _| |exact Hr].
    intros l y z Ha Hl'. destruct (Hl l Ha). by apply (effect_offers_shrink l).
  - destruct (as_run config (OpConnectEnqueue h step) (sys_world x)) as [q w'] eqn:E. cbn [snd] in *.
    apply void_inv in E as (r & E & _).
    apply connect_enqueue_inv in E as [_ E]; [|done].
    assert (adb w' = adb (sys_world x) -> offers_shrink (ns_hash (sys_stream x)) (adb (sys_world x)) (adb w')) as Hsame
      by (intros ->; reflexivity).
    destruct r as [[]|e]; [|by apply offers_shrink_inv; auto..].
    destruct E as (offer & id & _ & Hid & Hev & _ & _ & Hd). by eapply offer_inv; [..|exact Hd|done]; auto.
  - rewrite (cancelled_turn wake s) by done. by destruct x.
Qed.


(** ** Turns of the stream *)

Lemma fetch_rows_nodup n h by_ limit q : NoDup (messages_to_fetch n h by_ limit q).*1.
Proof.
  unfold messages_to_fetch.
  assert (NoDup (merge_sort older (scan n (filter (fun x => row_hash x.2 = h /\ row_fetched_by x.2 <> Some by_)
    (map_to_list q)))).*1) as Hnd.
  { rewrite merge_sort_Permutation, scan_permutation.
    eapply sublist_NoDup; [apply (NoDup_fst_map_to_list q)|]. apply fmap_sublist, sublist_filter. }
  rewrite <- (take_drop limit (merge_sort older _)), fmap_app in Hnd. by apply NoDup_app in Hnd as [? _].
Qed.

(** The marked rows after a fetch. *)
Lemma mark_fetched_self by_ rows q x :
  x ∈ rows -> NoDup rows.*1 -> exists r, foldl (mark_fetched by_) q rows !! x.1 = Some r /\
    row_hash r = row_hash x.2 /\ row_message r = row_message x.2 /\ row_fetched_by r = Some by_.
Proof.
  revert q. induction rows as [|y rows IH]; intros q Hin Hnd; [by apply elem_of_nil in Hin|].
  apply NoDup_cons in Hnd as [Hy Hnd]. cbn. apply elem_of_cons in Hin as [->|Hin]; [|by apply IH].
  assert (forall q' r, q' !! y.1 = Some r -> foldl (mark_fetched by_) q' rows !! y.1 = Some r) as Hkeep.
  { clear -Hy. induction rows as [|z rows IH]; intros q' r Hr; [done|]. cbn. cbn in Hy. rewrite not_elem_of_cons in Hy.
    apply IH; [naive_solver|]. unfold mark_fetched. rewrite lookup_insert_ne; [done|]. naive_solver. }
  eexists. split; [apply Hkeep; unfold mark_fetched; apply lookup_insert_eq|done].
Qed.
Lemma mark_fetched_cases by_ rows q id r : NoDup rows.*1 ->
  foldl (mark_fetched by_) q rows !! id = Some r ->
  (exists x, x ∈ rows /\ x.1 = id /\ row_hash r = row_hash x.2 /\ row_fetched_by r = Some by_) \/
  (~ id ∈ rows.*1 /\ q !! id = Some r).
Proof.
  intros Hnd Hr. destruct (decide (id ∈ rows.*1)) as [(x & -> & Hx)%list_elem_of_fmap|Hn].
  - left. destruct (mark_fetched_self by_ rows q x Hx Hnd) as (r' & Hr' & Hh & _ & Hf). exists x.
    split_and!; [done|done|congruence|congruence].
  - right. split; [done|]. eapply mark_fetched_other; [exact Hr|]. intros x Hx <-. apply Hn, list_elem_of_fmap. eauto.
Qed.

Lemma offer_fetch_inv x w' rows n : stream_inv x -> ns_buffer (sys_stream x) = [] ->
  as_txn w' = NoTxn -> wf_as (adb w') -> (as_events (sys_world x) <= as_events w')%nat ->
  rows = messages_to_fetch n (ns_hash (sys_stream x)) (ns_id (sys_stream x)) NAME_BUFFER_SIZE
           (offers (adb (sys_world x))) ->
  adb w' = set_handles_queue (foldl (mark_fetched (ns_id (sys_stream x))) (offers (adb (sys_world x))) rows)
             (adb (sys_world x)) ->
  forall st msgs, Permutation msgs ((fun y => set_created_at (row_created_at y.2) (row_message y.2)) <$> rows) ->
  stream_inv {| sys_world := w'; sys_stream := with_buffer (sys_stream x) (rev msgs) st;
                sys_yielded := sys_yielded x |}.
Proof.
  intros Hx Hbuf Hw' Hwf He Hrows Hd st msgs Hmsgs. destruct Hx as [S1 S2 S3 S4 S5 S6 S7].
  assert (forall y, y ∈ rows -> offers (adb (sys_world x)) !! y.1 = Some y.2 /\
    row_hash y.2 = ns_hash (sys_stream x) /\ row_fetched_by y.2 <> Some (ns_id (sys_stream x))) as Hin.
  { intros y Hy. rewrite Hrows in Hy. by eapply messages_to_fetch_rows. }
  assert (NoDup rows.*1) as Hnd by (rewrite Hrows; apply fetch_rows_nodup).
  assert (given_ids x = message_id <$> sys_yielded x) as Hids.
  { unfold given_ids. rewrite Hbuf. by rewrite app_nil_r. }
  set (x' := {| sys_world := w'; sys_stream := with_buffer (sys_stream x) (rev msgs) st; sys_yielded := sys_yielded x |}).
  assert (Permutation (given_ids x') (given_ids x ++ (Some <$> rows.*1))) as Hids'.
  { unfold given_ids at 1, x'. cbn [sys_yielded sys_stream with_buffer ns_buffer]. rewrite rev_involutive, fmap_app, Hids.
    f_equiv. rewrite Hmsgs, <- !list_fmap_compose. apply reflexive_eq, list_fmap_ext. intros i y Hy.
    apply list_elem_of_lookup_2, Hin in Hy as (Hy & _). by destruct (wf_offers _ S2 _ _ Hy) as [_ Hm]. }
  assert (forall id, Some id ∈ given_ids x' <-> Some id ∈ given_ids x \/ id ∈ rows.*1) as Hmem.
  { intros id. rewrite Hids', elem_of_app, (list_elem_of_fmap Some). naive_solver. }
  assert (forall id r, offers (adb w') !! id = Some r ->
    (exists y, y ∈ rows /\ y.1 = id /\ row_hash r = row_hash y.2 /\ row_fetched_by r = Some (ns_id (sys_stream x))) \/
    (~ id ∈ rows.*1 /\ offers (adb (sys_world x)) !! id = Some r)) as Hcase.
  { intros id r Hr. rewrite Hd in Hr. by apply mark_fetched_cases. }
  assert (forall id, old_id (as_events (sys_world x)) id -> old_id (as_events w') id) as Hold
    by (intros id Ho m Hm; apply Ho; lia).
  assert (forall y, y ∈ rows -> old_id (as_events w') y.1) as Hrold.
  { intros y Hy. destruct (Hin y Hy) as (Hy' & _). by eapply Hold, S5. }
  assert (forall id, Some id ∈ given_ids x -> id ∉ rows.*1) as Hdisj.
  { intros id Hg (y & -> & Hy)%list_elem_of_fmap. destruct (Hin y Hy) as (Hy' & _ & Hf). by destruct (S6 _ _ Hg Hy'). }
  split; cbn [sys_world sys_stream with_buffer ns_hash ns_id x']; fold x'.
  - done.
  - done.
  - rewrite Hids'. apply NoDup_app. split_and!; [done| |by apply NoDup_fmap_2; [apply _|]].
    intros i Hi (id & -> & Hid)%list_elem_of_fmap. by apply (Hdisj id).
  - intros i Hi. rewrite Hids' in Hi. apply elem_of_app in Hi as [Hi|(id & -> & Hi)%list_elem_of_fmap].
    + destruct (S4 i Hi) as (id & -> & Ho). eauto.
    + apply list_elem_of_fmap in Hi as (y & -> & Hy). eauto.
  - intros id r Hr. destruct (Hcase id r Hr) as [(y & Hy & <- & _)|[_ Hr']]; eauto.
  - intros id r Hg Hr. destruct (Hcase id r Hr) as [(y & Hy & <- & -> & ->)|[Hn Hr']]; [by destruct (Hin y Hy) as (_ & -> & _)|].
    apply Hmem in Hg as [Hg|Hg]; [by apply (S6 id r)|done].
  - intros id r Hr Hh Hf. apply Hmem. destruct (Hcase id r Hr) as [(y & Hy & <- & _)|[Hn Hr']]; [right|by left; eapply S7].
    apply list_elem_of_fmap. eauto.
Qed.


(** A queue with nothing to fetch has only rows that the listener has fetched. *)
Lemma nothing_to_fetch n h by_ q id r : messages_to_fetch n h by_ NAME_BUFFER_SIZE q = [] ->
  q !! id = Some r -> row_hash r = h -> row_fetched_by r = Some by_.
Proof.
  unfold messages_to_fetch. intros Hnil Hr Hh. destruct (decide (row_fetched_by r = Some by_)) as [|Hf]; [done|exfalso].
  assert (merge_sort older (scan n (filter (fun x => row_hash x.2 = h /\ row_fetched_by x.2 <> Some by_)
    (map_to_list q))) = []) as Hs by (by destruct (merge_sort older _)).
  assert ((id, r) ∈ merge_sort older (scan n (filter (fun x => row_hash x.2 = h /\ row_fetched_by x.2 <> Some by_)
    (map_to_list q)))) as Hin.
  { rewrite merge_sort_Permutation, scan_permutation, list_elem_of_filter. split; [done|]. by apply elem_of_map_to_list. }
  rewrite Hs in Hin. by apply elem_of_nil in Hin.
Qed.

Lemma name_fetch_into_inv h by_ limit w r w' : as_txn w = NoTxn -> name_fetch_into h by_ limit w = (r, w') ->
  as_txn w' = NoTxn /\ (as_events w <= as_events w')%nat /\
  match r with
  | Ok ms => let rows := messages_to_fetch (as_events w) h by_ limit (offers (adb w)) in
      ms = map (fun y => set_created_at (row_created_at y.2) (row_message y.2)) (scan (S (as_events w)) rows) /\
      adb w' = set_handles_queue (foldl (mark_fetched by_) (offers (adb w)) rows) (adb w)
  | Err _ => adb w' = adb w
  end.
Proof.
  unfold name_fetch_into. intros Hw Hf. apply sql_inv in Hf as (He & _ & Hin & Hr).
  assert (as_txn w' = NoTxn) as Hw' by (unfold in_txn in Hin; rewrite Hw in Hin; by destruct (as_txn w')).
  split_and!; [done|lia|]. destruct r as [ms|e]; [|by destruct Hr].
  destruct Hr as (_ & _ & t & [= <- <-] & _). done.
Qed.

(** What a turn does. *)
Lemma turn_inv wake x t w' : stream_inv x -> name_turn wake (sys_stream x) (sys_world x) = (t, w') ->
  match t with
  | NameYield (Some m) s' => stream_inv {| sys_world := w'; sys_stream := s'; sys_yielded := sys_yielded x ++ [m] |}
  | NameYield None s' =>
      stream_inv {| sys_world := w'; sys_stream := s'; sys_yielded := sys_yielded x |} /\
      forall id r, offers (adb w') !! id = Some r -> row_hash r = ns_hash (sys_stream x) ->
        Some id ∈ message_id <$> sys_yielded x
  | NameAgain s' => stream_inv {| sys_world := w'; sys_stream := s'; sys_yielded := sys_yielded x |}
  | NameStop => True
  end.
Proof.
  intros Hx. unfold name_turn. destruct (decide _); [by intros [= <- <-]|].
  destruct (rev (ns_buffer (sys_stream x))) as [|m rest] eqn:Hb.
  - assert (ns_buffer (sys_stream x) = []) as Hnil by (rewrite <- (rev_involutive (ns_buffer _)), Hb; done).
    destruct (ns_state (sys_stream x)).
    + destruct (name_fetch_into _ _ _ _) as [r w1] eqn:Hf. pose proof (si_txn x Hx) as Hw.
      apply name_fetch_into_inv in Hf as (Hw1 & He & Hr); [|done]. destruct r as [ms|e]; [|by intros [= <- <-]].
      destruct Hr as [Hms Hd]. assert (wf_as (adb w1)) as Hwf.
      { rewrite Hd. eapply effect_wf; [apply (eff_fetch (ns_hash (sys_stream x)))|by apply si_wf]. }
      assert (forall st, stream_inv {| sys_world := w1; sys_stream := with_buffer (sys_stream x) (rev ms) st;
        sys_yielded := sys_yielded x |}) as Hinv.
      { intros st. eapply offer_fetch_inv; try done. rewrite Hms. apply fmap_Permutation, scan_permutation. }
      destruct ms as [|m ms]; intros [= <- <-]; [|apply Hinv]. specialize (Hinv NameWait). split; [done|].
      symmetry in Hms. apply map_eq_nil in Hms.
      intros id r Hr Hh. apply (si_fetched _ Hinv id r) in Hr; [|done|].
      * unfold given_ids in Hr. cbn in Hr. by rewrite app_nil_r in Hr.
      * cbn [sys_stream with_buffer ns_id]. pose proof (scan_permutation _ (S (as_events (sys_world x))) (messages_to_fetch
          (as_events (sys_world x)) (ns_hash (sys_stream x)) (ns_id (sys_stream x)) NAME_BUFFER_SIZE
          (offers (adb (sys_world x))))) as Hp.
        rewrite Hms in Hp. apply Permutation_nil in Hp. rewrite Hd, Hp in Hr. by eapply nothing_to_fetch.
    + intros [= <- <-]. destruct Hx as [S1 S2 S3 S4 S5 S6 S7].
      destruct wake; [|by split]. assert (given_ids {| sys_world := sys_world x; sys_stream :=
        with_buffer (sys_stream x) [] NameFetch; sys_yielded := sys_yielded x |} = given_ids x) as Hg
        by (unfold given_ids; by rewrite Hnil).
      split; cbn [sys_world sys_stream with_buffer ns_hash ns_id]; rewrite ?Hg; auto.
  - intros [= <- <-]. destruct Hx as [S1 S2 S3 S4 S5 S6 S7].
    assert (given_ids {| sys_world := sys_world x; sys_stream := with_buffer (sys_stream x) (rev rest) (ns_state (sys_stream x));
      sys_yielded := sys_yielded x ++ [m] |} = given_ids x) as Hg.
    { unfold given_ids. cbn. rewrite rev_involutive, Hb. by rewrite <- app_assoc. }
    split; cbn [sys_world sys_stream with_buffer ns_hash ns_id]; rewrite ?Hg; auto.
Qed.

Lemma stream_step_inv x x' : stream_step x x' -> stream_inv x -> stream_inv x' /\ ns_hash (sys_stream x') = ns_hash (sys_stream x).
Proof.
  intros Hs Hx. split.
  - destruct Hs as [wake x m s' w' Ht|wake x s' w' Ht|wake x s' w' Ht|o x Ho]; [| | |by apply other_inv];
      apply turn_inv in Ht; naive_solver.
  - destruct Hs as [wake x m s' w' Ht|wake x s' w' Ht|wake x s' w' Ht|o x Ho]; [| | |done]; revert Ht;
      unfold name_turn; repeat case_match; by intros; simplify_eq.
Qed.

(** The ids in the queue were drawn in the past. *)
Definition past_ids (w : AsWorld) : Prop := forall id r, offers (adb w) !! id = Some r ->
  old_id (as_events w) id /\ forall by_, row_fetched_by r = Some by_ -> old_id (as_events w) by_.

Lemma listen_inv h w s w1 : as_txn w = NoTxn -> wf_as (adb w) -> past_ids w -> name_listen h w = (Ok s, w1) ->
  stream_inv {| sys_world := w1; sys_stream := s; sys_yielded := [] |}.
Proof.
  intros Hw Hwf Hp. unfold name_listen. destruct (track_listener h w) as [n w2] eqn:E. injection E as _ <-.
  intros [= <- <-]. split; cbn; try done.
  - apply NoDup_nil_2.
  - intros i Hi. by apply elem_of_nil in Hi.
  - intros id r Hr. destruct (Hp id r Hr) as [Ho _]. intros m Hm. apply Ho. lia.
  - intros id r Hi. by apply elem_of_nil in Hi.
  - intros id r Hr _ Hf. destruct (Hp id r Hr) as [_ Ho]. by destruct (Ho _ Hf (as_events w)).
Qed.

(** C10. A listener on a username, from [listen] on and until it is replaced, with any
    other operations of the service between its turns: it never yields two messages with
    the same id, a message that it yielded and that is still queued belongs to its
    username, and when it reports that the queue is empty it has yielded every message
    of the username that is in the queue. *)
Theorem name_stream_exact h w s w1 x :
  as_txn w = NoTxn -> wf_as (adb w) -> past_ids w -> name_listen h w = (Ok s, w1) ->
  rtc stream_step {| sys_world := w1; sys_stream := s; sys_yielded := [] |} x ->
  NoDup (message_id <$> sys_yielded x) /\
  (forall id r, Some id ∈ message_id <$> sys_yielded x -> offers (adb (sys_world x)) !! id = Some r -> row_hash r = h) /\
  (forall wake s' w', name_turn wake (sys_stream x) (sys_world x) = (NameYield None s', w') ->
     forall id r, offers (adb w') !! id = Some r -> row_hash r = h -> Some id ∈ message_id <$> sys_yielded x).
Proof.
  intros Hw Hwf Hp Hl Hr. apply listen_inv in Hl as Hx; [|done..].
  assert (ns_hash s = h) as Hh.
  { revert Hl. unfold name_listen. destruct (track_listener h w). by intros [= <- <-]. }
  assert (stream_inv x /\ ns_hash (sys_stream x) = h) as [Hx' Hh'].
  { clear Hl. remember {| sys_world := w1; sys_stream := s; sys_yielded := [] |} as x0 eqn:E0.
    assert (ns_hash (sys_stream x0) = h) as Hh0 by (by subst x0). clear E0.
    induction Hr as [|x0 x1 x2 Hs Hr IH]; [done|]. apply stream_step_inv in Hs as [? Hs]; [|done].
    apply IH; congruence. }
  assert (forall i, i ∈ message_id <$> sys_yielded x -> i ∈ given_ids x) as Hsub.
  { intros i Hi. unfold given_ids. rewrite fmap_app. apply elem_of_app. by left. }
  split_and!.
  - pose proof (si_nodup x Hx') as Hn. unfold given_ids in Hn. rewrite fmap_app in Hn. by apply NoDup_app in Hn as [? _].
  - intros id r Hi Hr'. rewrite <- Hh'. by destruct (si_marked x Hx' id r (Hsub _ Hi) Hr').
  - intros wake s' w' Ht id r Ho Hrh. apply turn_inv in Ht as [_ Ht]; [|done]. apply (Ht id r Ho). congruence.
Qed.

End Streams.
