(* ===== verification/AuthExample.v ===== *)
(** * A concrete authentication service, for evaluation

    A service with toy cryptography and a clock that ticks a second per event: runs
    that show the properties at work. *)

From S2P Require Import Prelude Aead Signatures Messages Grpc PgTask RateLimiter Credentials.
From S2P Require Import ConnectionPackages AuthDb AuthTokens AuthUsers AuthNames AuthGrpc.
From S2P Require Import AuthDbCorrect AuthTokensCorrect AuthEffects AuthOps AuthCorrect AuthCharges.
From S2P Require Import AuthAllowance AuthAuthority AuthNamesCorrect AuthTrust AuthCodes AuthStream.

Module ToyAs.
Import Toy ToyWire.

(** ** Oracles *)

#[export] Instance oracles : Oracles := {|
  db_ok := fun _ => true;
  now := fun n => Z.of_nat n * SECOND;
  rng := fun n => n;
  uuid_of := fun n => Z.of_nat n;
  generated_key := fun n => Some {| signing_key := [Z.of_nat n]; verifying_key := [Z.of_nat n] |};
  scan := fun _ _ l => l;
  timestamptz := fun t => t - t mod 1000
|}.
#[export] Instance oracle_laws : OracleLaws.
Proof. split; [reflexivity|]. by intros n k [= <-]. Qed.
#[export] Instance timestamptz_laws : TimestamptzLaws.
Proof. split. intros t Ht. cbn. lia. Qed.
#[export] Instance clock_laws : ClockLaws.
Proof. split. intros m n Hmn. cbn. unfold SECOND. lia. Qed.
#[export] Instance uuid_oracle : UuidOracle.
Proof. intros m n Hmn. cbn in Hmn. lia. Qed.

(** Tokens: the key id, the nonce, and the server that issued it. *)
#[export] Instance privacy_pass : PrivacyPass := {|
  AmortizedToken := Z * Z * Z;
  TokenRequest := Z * Z;
  TokenResponse := bytes;
  token_of_bytes := fun bs => match bs with [id; nonce; server] => Some (id, nonce, server) | _ => None end;
  token_request_of_bytes := fun bs => match bs with [id; n] => Some (id, Z.max 0 n) | _ => None end;
  token_response_to_bytes := Some;
  token_nonce := fun t => [t.1.2];
  token_key_id := fun t => t.1.1;
  token_valid := fun server t => bool_decide (server = [t.2]);
  request_key_id := fst;
  nr := fun r => Z.max 0 r.2;
  evaluate := fun server r => Some (server ++ [r.2]);
  keypairs := fun n => [(Z.of_nat n mod 256, [Z.of_nat n])];
  serialize_public_key := fun server => server;
  pp_create_keypair := fun E n insert => insert_first insert [(Z.of_nat n mod 256, [Z.of_nat n])];
  pp_issue_token_response := fun E get r =>
    found ← get r.1; mret (ok_or PpIssueFailed (server ← found; Some (server ++ [r.2])));
  pp_redeem_token := fun E get reserve commit release t =>
    b ← reserve [t.1.2];
    if (b : bool) then
      found ← get t.1.1;
      match found with
      | None => _ ← release [t.1.2]; mret (Err KeyIdNotFound)
      | Some server =>
          if bool_decide (server = [t.2]) then _ ← commit [t.1.2]; mret (Ok tt)
          else _ ← release [t.1.2]; mret (Err PpRedeemFailed)
      end
    else mret (Err PpRedeemFailed)
|}.
#[export] Instance privacy_pass_laws : PrivacyPassLaws.
Proof. split; try reflexivity. intros r. cbn. lia. Qed.

#[export] Instance calendar : Calendar := fun t => t + 30 * DAY.
#[export] Instance argon2 : Argon2 := fun password salt => Some (password ++ salt).
#[export] Instance semver : Semver := {|
  VersionReq := unit; Version := unit; ProtoVersion := unit;
  version_matches := fun _ _ => true; version_try_into := fun _ => Some tt |}.
#[export] Instance sha256_id : Sha256 := fun bs => bs.
(** A signature is valid when it repeats the key. *)
#[export] Instance verifiable (P : Type) : VerifiableRequest P := fun _ sig key => bool_decide (sig = key).

(** Serializations keep what the runs look at: the signer's and the owner's keys. *)
#[export] Instance codecs : CredentialCodecs := {|
  codec_sign_content := toy_content_tls;
  codec_as_credential_hash :=
    {| tls_serialize_detached := fun x => Some (acb_verifying_key (lh_payload x));
       tls_deserialize_exact_bytes := fun _ => None |};
  codec_intermediate_hash :=
    {| tls_serialize_detached := fun x => Some (aib_signature (lh_payload x));
       tls_deserialize_exact_bytes := fun _ => None |};
  codec_intermediate_payload :=
    {| tls_serialize_detached := fun p => Some (aic_verifying_key (aip_csr p));
       tls_deserialize_exact_bytes := fun _ => None |};
  codec_client_payload :=
    {| tls_serialize_detached := fun p => Some (ccsr_verifying_key (ccp_csr p));
       tls_deserialize_exact_bytes := fun _ => None |};
  codec_version := {| cbor_encode := fun _ => Some [0]; cbor_decode := fun _ => Some Alpha |};
  codec_scheme := {| cbor_encode := fun z => Some [z];
                     cbor_decode := fun bs => match bs with [z] => Some z | _ => None end |}
|}.
#[export] Instance codec_laws : CredentialCodecLaws.
Proof. split; split; [by intros [] bs [= <-]|by intros z bs [= <-]]. Qed.
#[export] Instance tls_v1 : TlsCodec ConnectionPackageV1Payload :=
  {| tls_serialize_detached := fun p => Some (cp1_encryption_key p); tls_deserialize_exact_bytes := fun _ => None |}.
#[export] Instance tls_v2 : TlsCodec ConnectionPackagePayload :=
  {| tls_serialize_detached := fun p => Some (cp_encryption_key p); tls_deserialize_exact_bytes := fun _ => None |}.

(** ** Requests *)

Definition config : AsConfig :=
  {| client_version_req := None; invitation_only := true; unredeemable_code := None |}.

Definition alice : UserId := {| user_uuid := 1; user_domain := "a" |}.
Definition profile (i : Z) : EncryptedUserProfile :=
  {| key_index := [i]; profile_ciphertext := {| ciphertext := [i]; nonce := [] |} |}.

Definition signed {P} (key : bytes) (p : P) : SignedRequest P :=
  {| sr_payload := Some p; sr_signature := Some key |}.
Definition alice_payload : ClientCredentialPayload :=
  {| ccp_csr := {| ccsr_version := Alpha; ccsr_user_id := alice; ccsr_signature_scheme := DEFAULT_SIGNATURE_SCHEME;
                   ccsr_verifying_key := [77] |};
     ccp_expiration_data := {| not_before := 0; not_after := 365 * DAY |}; ccp_signer_fingerprint := [] |}.
Definition register (c : string) : RegisterUserRequest :=
  {| ru_client_metadata := None; ru_client_credential_payload := FieldValue alice_payload;
     ru_encrypted_user_profile := FieldValue (profile 0); ru_invitation_code := Some c |}.

(** The username of Alice, under the key [88]. *)
Definition name : string := "alice".
Definition name_hash : bytes := bytes_of_string name ++ bytes_of_string "user handle salt".
Definition create_name (token : option bytes) : SignedRequest CreateUsernamePayload :=
  signed [88] {| cup_client_metadata := None; cup_verifying_key := Some [88]; cup_plaintext := name;
                 cup_hash := FieldValue name_hash; cup_token := token |}.
Definition package (ek : Z) (last_resort : bool) : VersionedConnectionPackage :=
  CpV2 {| v2_payload := {| cp_protocol_version := Alpha; cp_user_handle_hash := name_hash; cp_encryption_key := [ek];
                           cp_lifetime := {| not_before := 0; not_after := DAY |}; cp_verifying_key := [88];
                           cp_is_last_resort := last_resort |};
          v2_signature := [88; ek] |}.
Definition publish (cps : list VersionedConnectionPackage) : SignedRequest PublishConnectionPackagesPayload :=
  signed [88] {| pcp_client_metadata := None; pcp_hash := FieldValue name_hash;
                 pcp_connection_packages := Some <$> cps |}.
Definition issue (op id n : Z) : SignedRequest IssueTokensPayload :=
  signed [77] {| itp_client_metadata := None; itp_operation_type := op; itp_user_id := FieldValue alice;
                 itp_token_request := [id; n] |}.
Definition offer (z : Z) : ConnectionOfferMessage :=
  {| offer_ciphertext := Some [z]; offer_connection_package_hash := None |}.
Definition connect_steps (z : Z) : list (Result Status ConnectUsernameRequest) :=
  [Ok (ConnectFetch None (FieldValue name_hash)); Ok (ConnectEnqueue (Some (offer z)))].

(** ** Worlds *)

Definition no_data : AsDb :=
  {| users_db := {| invitation_code := ∅; as_user_record := ∅; as_client_record := ∅; as_signing_key := [] |};
     tokens_db := {| as_token_allowance := ∅; as_token_nonce := ∅; as_batched_key := ∅ |};
     names_db := {| as_user_handle := ∅; as_user_handles_queue := ∅;
                    handle_connection_package := {| cpt_next := 0; cpt_rows := ∅ |}; names_notified := [] |} |}.
Definition world0 : AsWorld :=
  {| adb := no_data; as_txn := NoTxn; as_events := 0; as_listeners := ∅; as_cancelled := ∅; as_next_token := 0;
     as_commands := [] |}.

Abbreviation run := (as_runs config) (only parsing).

(** A new service, with an invitation code. *)
Definition fresh : AsWorld := run [OpInitialize "a"; OpGenerateCodes 1] world0.

(** Alice has registered, and has a username with two connection packages. *)
Definition setup : list AsOp :=
  [OpInitialize "a"; OpGenerateCodes 1; OpRegister (register "YZ012345");
   OpCreateName (create_name (Some [19; 1; 19])); OpPublish (publish [package 1 false; package 2 true])].
Definition ready : AsWorld := run setup world0.
(** And someone has sent a connection offer. *)
Definition queued : AsWorld :=
  run (setup ++ [OpConnectFetch (Some (Ok (ConnectFetch None (FieldValue name_hash))));
                 OpConnectEnqueue name_hash (Some (Ok (ConnectEnqueue (Some (offer 7)))))]) world0.
(** A later time. *)
Definition at_event (n : nat) (w : AsWorld) : AsWorld :=
  {| adb := adb w; as_txn := as_txn w; as_events := n; as_listeners := as_listeners w;
     as_cancelled := as_cancelled w; as_next_token := as_next_token w; as_commands := as_commands w |}.

Lemma wf_no_data : wf_as no_data.
Proof. split; by intros. Qed.
Lemma trusted_no_data : trusted no_data.
Proof. split; [by intros k Hk%elem_of_nil..|]. by intros. Qed.
Lemma pair_of {A B} (p : A * B) a : p.1 = a -> p = (a, p.2).
Proof. intros <-. by destruct p. Qed.

End ToyAs.

Section Evaluate_as.
Import Toy ToyWire ToyAs.

(** ** Runs *)

Lemma as_operations_refine_witness :
  is_Some (users (adb ready) !! alice) /\
  reach (fun l => exists o, o ∈ setup /\ allowed config o l) no_data (adb ready).
Proof.
  split; [eexists; vm_compute; reflexivity|].
  exact (proj2 (as_operations_refine config setup world0 eq_refl)).
Defined.

Lemma as_runs_wf_witness : wf_as (adb ready).
Proof. exact (proj2 (as_runs_wf config setup world0 eq_refl wf_no_data)). Defined.

Lemma chain_of_trust_witness : is_Some (clients (adb ready) !! 1) /\ trusted (adb ready).
Proof.
  split; [eexists; vm_compute; reflexivity|].
  exact (chain_of_trust config setup world0 eq_refl trusted_no_data).
Defined.

Definition alice_credential : ClientCredential := {| cc_payload := alice_payload; cc_signature := [11; 77] |}.
Lemma registration_exact_witness :
  exists p profile c, code_accepted config (adb fresh) (Some "YZ012345") c /\
    registered p profile c alice_credential (adb fresh) (adb (register_user config (register "YZ012345") fresh).2).
Proof.
  assert ((register_user config (register "YZ012345") fresh).1 = Ok alice_credential) as Hr
    by (vm_compute; reflexivity).
  destruct (registration_exact config (register "YZ012345") fresh alice_credential _
    ltac:(vm_compute; reflexivity) (pair_of _ _ Hr)) as (p & pr & c & _ & _ & Hc & Hx).
  exists p, pr, c. exact (conj Hc Hx).
Defined.

(** ** Tokens *)

(** The conditions of [tokens_charged_once], decided. *)
Definition skew : Z := 100 * SECOND.
Definition token_ok (w : AsWorld) (x : OperationType * AmortizedToken) : bool :=
  forallb (fun y => negb (bool_decide (y.1.1 = x.1)) || negb (token_valid (row_voprf_server y.2) x.2) ||
                    (row_key_created_at y.2 + skew <=? now (as_events w))) (map_to_list (keys (adb w))) &&
  (x.2.2 <? Z.of_nat (as_events w)).
Fixpoint run_okb (os : list AsOp) (w : AsWorld) : bool :=
  match os with
  | [] => true
  | o :: os =>
      let w' := (as_run config o w).2 in
      (negb (rotates o) || (now (as_events w') - now (as_events w) <=? skew)) && forallb (token_ok w) (tokens_of o) && run_okb os w'
  end.
Lemma token_ok_sound w x : token_ok w x = true ->
  aged skew x (now (as_events w)) (adb w) /\ settled x (as_events w).
Proof.
  unfold token_ok. intros [Hk Hs]%andb_true_iff. split.
  - intros id k Hid Hv. rewrite forallb_forall in Hk. specialize (Hk ((x.1, id), k)).
    cbn [fst snd] in Hk. rewrite bool_decide_true, Hv in Hk by done. apply Z.leb_le, Hk.
    apply list_elem_of_In, elem_of_map_to_list, Hid.
  - intros m id server Hm Hin. apply Z.ltb_lt in Hs. apply list_elem_of_singleton in Hin. injection Hin as -> ->.
    apply bool_decide_eq_false. cbn in *. intros [= Heq]. rewrite <- Heq in Hs. lia.
Qed.
Lemma run_okb_sound os w : run_okb os w = true -> run_ok config skew os w.
Proof.
  revert w. induction os as [|o os IH]; intros w; cbn [run_okb run_ok]; [done|].
  intros [[Ht Hf]%andb_true_iff Hr]%andb_true_iff. split_and!; [| |by apply IH].
  { intros Hrot. rewrite Hrot in Ht. by apply Z.leb_le. }
  intros x Hx. apply token_ok_sound. rewrite forallb_forall in Hf. by apply Hf, list_elem_of_In.
Qed.

(** A code for a token, no code for it a second time, and so on. *)
Definition spending : list AsOp :=
  [OpGetCodes [[26; 1; 26]]; OpGetCodes [[26; 1; 26]]; OpCreateName (create_name (Some [19; 1; 19]));
   OpRotate; OpGetCodes [[26; 1; 26]; [26; 2; 26]; [26; 2; 26]]].
Lemma tokens_charged_once_witness :
  run_services config spending (at_event 1000 fresh) = [1; 0; 1; 0; 1]%nat /\
  exists charges, Forall2 (fun o c => c ⊆ tokens_of o) spending charges /\
    length <$> charges = run_services config spending (at_event 1000 fresh) /\ NoDup (concat charges).
Proof.
  split; [vm_compute; reflexivity|].
  apply (tokens_charged_once config skew spending (at_event 1000 fresh)); [vm_compute; reflexivity|].
  apply run_okb_sound. vm_compute. reflexivity.
Defined.

(** A key that has just not expired, beside a new one, and a token of it that was
    redeemed half a second after its creation. *)
Definition old_key : BatchedKeyRow := {| row_voprf_server := [26]; row_key_created_at := now 1001 - MAX_AGE |}.
Definition early_nonce : NonceRow :=
  {| row_status := NonceCommitted; row_nonce_created_at := now 1001 - MAX_AGE + SECOND / 2 |}.
Definition expiring : AsWorld :=
  set_adb (set_nonces {[(GetInviteCode, [1]) := early_nonce]}
    (set_batched_keys {[(GetInviteCode, 26) := old_key;
                        (GetInviteCode, 27) := {| row_voprf_server := [27]; row_key_created_at := now 1000 |}]}
      (adb fresh))) (at_event 1000 fresh).
Lemma pruned_token_redeemed_again_witness :
  is_ok (as_redeem_token (26, 1, 26) GetInviteCode expiring).1 = false /\
  (as_redeem_token (26, 1, 26) GetInviteCode
    (rotate_keys_if_needed_for_operation_type GetInviteCode expiring).2).1 = Ok tt.
Proof.
  unshelve eapply (pruned_token_redeemed_again _ GetInviteCode _ expiring old_key early_nonce);
    vm_compute; (reflexivity || discriminate).
Defined.

Lemma rotation_exact_witness :
  has_current_key GetInviteCode (now 0) (adb (rotate_keys_if_needed_for_operation_type GetInviteCode world0).2) = true.
Proof.
  assert ((rotate_keys_if_needed_for_operation_type GetInviteCode world0).1 = Ok true) as Hr by (vm_compute; reflexivity).
  refine (proj1 (rotation_exact GetInviteCode world0 true _ eq_refl (pair_of _ _ Hr) _)).
  apply Z.leb_le. vm_compute. reflexivity.
Defined.

(** An allowance of one invitation code, from a request for two, and two requests for
    a token. *)
Definition granted : AsWorld := run [OpIssueTokens (issue 2 26 2)] ready.
Definition requests : list AsOp := [OpIssueTokens (issue 2 26 1); OpIssueTokens (issue 2 26 1)].
Definition granted_row : AllowanceRow := {| row_remaining := 1; row_valid_until := 61 * SECOND + DAY |}.
Lemma allowance_budget_witness :
  run_issued config alice GetInviteCode requests granted = 1 /\
  spends alice GetInviteCode granted_row (run_issued config alice GetInviteCode requests granted)
    (adb (run requests granted)).
Proof.
  split; [vm_compute; reflexivity|].
  apply (allowance_budget config alice GetInviteCode requests granted granted_row).
  - vm_compute. reflexivity.
  - done.
  - repeat constructor; intros p req [= <-] [= <-]; cbn; lia.
  - repeat constructor; intros [].
  - vm_compute. reflexivity.
  - split; cbn; lia.
  - apply Z.ltb_lt. vm_compute. reflexivity.
Defined.

Lemma invitation_codes_exact_witness :
  (get_invitation_codes [[26; 1; 26]] fresh).1 = Ok ["DEFGHJKM"] /\
  (adb (get_invitation_codes [[26; 1; 26]] fresh).2 = adb fresh \/
   exists cs, (get_invitation_codes [[26; 1; 26]] fresh).1 = Ok cs /\ (length cs <= 1 <= 10)%nat /\
     codes_added (now (as_events fresh)) cs (adb fresh) (adb (get_invitation_codes [[26; 1; 26]] fresh).2) /\
     issued_on (now (as_events fresh)) (adb (get_invitation_codes [[26; 1; 26]] fresh).2) <= CODES_PER_DAY).
Proof.
  split; [vm_compute; reflexivity|].
  apply (invitation_codes_exact [[26; 1; 26]] fresh _ _ ltac:(vm_compute; reflexivity) (surjective_pairing _)).
Defined.

(** ** Users and usernames *)

(** Someone else tries to replace the profile of Alice. *)
Definition forged : AsOp :=
  OpStageProfile (signed [66] {| sup_client_metadata := None; sup_user_id := FieldValue alice;
                                 sup_encrypted_user_profile := FieldValue (profile 9) |}).
Lemma user_data_authentic_witness :
  user_untouched alice (adb ready) (adb (as_run config forged ready).2) \/
  exists key, client_key alice (adb ready) = Some key /\ user_request forged alice key.
Proof.
  apply (user_data_authentic config forged ready alice); [vm_compute; reflexivity|].
  eexists. vm_compute. reflexivity.
Defined.

Lemma profile_rollover_witness :
  exists row, users (adb ready) !! alice = Some row /\ key_index (row_encrypted_user_profile row) = [0].
Proof.
  pose (w1 := (as_stage_user_profile alice (profile 1) ready).2).
  assert ((as_stage_user_profile alice (profile 1) ready).1 = Ok tt) as H1 by (vm_compute; reflexivity).
  assert ((as_merge_user_profile alice w1).1 = Ok tt) as H2 by (vm_compute; reflexivity).
  destruct (profile_rollover alice (profile 1) ready w1 _ (pair_of _ _ H1) (pair_of _ _ H2)) as (row & Hrow & _).
  exists row. split; [exact Hrow|]. vm_compute in Hrow. injection Hrow as <-. reflexivity.
Defined.

(** Someone else tries to take the username, with another key. *)
Definition takeover : AsOp :=
  OpCreateName (signed [99] {| cup_client_metadata := None; cup_verifying_key := Some [99]; cup_plaintext := name;
                               cup_hash := FieldValue name_hash; cup_token := None |}).
Definition alice_row : HandleRow :=
  {| row_verifying_key := [88]; row_expiration_data := {| not_before := -845 * SECOND; not_after := 15551155 * SECOND |} |}.
Lemma username_owner_safe_witness :
  name_untouched name_hash (adb ready) (adb (as_run config takeover ready).2) \/
  name_request takeover name_hash [88] \/ exists before, takeover = OpRefreshExpiring before.
Proof.
  apply (username_owner_safe config takeover ready name_hash alice_row).
  - vm_compute. reflexivity.
  - vm_compute. reflexivity.
  - intros n Hn. assert (n ∈ seq 60 40) as Hs.
    { apply elem_of_seq. revert Hn. vm_compute. intros []; split; assumption || lia. }
    assert (forallb (fun n => expiration_validate (now n) (row_expiration_data alice_row)) (seq 60 40) = true) as Hf
      by (vm_compute; reflexivity).
    rewrite forallb_forall in Hf. apply Hf, list_elem_of_In, Hs.
Defined.

Lemma connect_protocol_exact_witness :
  (run_protocol config (connect_steps 7) 2 ready).1 = [Ok (FetchResponse (package 1 false)); Ok EnqueueResponse] /\
  exists row, handles (adb ready) !! name_hash = Some row.
Proof.
  assert ((run_protocol config (connect_steps 7) 2 ready).1 =
    [Ok (FetchResponse (package 1 false)); Ok EnqueueResponse]) as Hr by (vm_compute; reflexivity).
  split; [exact Hr|].
  destruct (connect_protocol_exact config (connect_steps 7) 2 ready _ _ ltac:(vm_compute; reflexivity)
    (pair_of _ _ Hr)) as (m & h & o & rest & row & cp & t & id & at_ & [= _ <- _ _] & _ & Hrow & _).
  - right. left.
  - exists row. exact Hrow.
Defined.

(** ** A stream *)

(** The next turn of the stream; a stopped one stays. *)
Definition next (x : StreamSys) : StreamSys :=
  match name_turn true (sys_stream x) (sys_world x) with
  | (NameYield (Some m) s', w') => {| sys_world := w'; sys_stream := s'; sys_yielded := sys_yielded x ++ [m] |}
  | (NameYield None s', w') | (NameAgain s', w') =>
      {| sys_world := w'; sys_stream := s'; sys_yielded := sys_yielded x |}
  | (NameStop, _) => x
  end.
Lemma next_step x : rtc (stream_step config) x (next x).
Proof.
  unfold next. destruct (name_turn _ _ _) as [[[m|] s'|s'|] w'] eqn:E; [..|done]; apply rtc_once.
  - by eapply step_yield.
  - by eapply step_empty.
  - by eapply step_again.
Qed.
Lemma past_ids_check w :
  forallb (fun x => (x.1 <? Z.of_nat (as_events w)) && (default 0 (row_fetched_by x.2) <? Z.of_nat (as_events w)))
    (map_to_list (offers (adb w))) = true -> past_ids w.
Proof.
  intros Hf id r Hr. rewrite forallb_forall in Hf. specialize (Hf (id, r)).
  apply andb_true_iff in Hf as [H1%Z.ltb_lt H2%Z.ltb_lt]; [|by apply list_elem_of_In, elem_of_map_to_list].
  cbn in H1, H2. split; [intros m Hm Heq; cbn in Heq; lia|].
  intros by_ Hby. rewrite Hby in H2. cbn in H2. intros m Hm Heq. cbn in Heq. lia.
Qed.

(** A listener fetches the queued offer and yields it. *)
Definition listening : StreamSys :=
  let x := name_listen name_hash queued in
  {| sys_world := x.2; sys_stream := {| ns_id := 69; ns_hash := name_hash; ns_cancel := 0; ns_buffer := [];
                                        ns_state := NameFetch |}; sys_yielded := [] |}.
Lemma name_stream_exact_witness :
  message_id <$> sys_yielded (next (next listening)) = [Some 65] /\
  NoDup (message_id <$> sys_yielded (next (next listening))) /\
  exists s' w', name_turn true (sys_stream (next (next listening))) (sys_world (next (next listening))) =
    (NameYield None s', w').
Proof.
  split; [vm_compute; reflexivity|]. split.
  - refine (proj1 (name_stream_exact config name_hash queued (sys_stream listening) (sys_world listening)
      (next (next listening)) _ _ _ _ _)).
    + vm_compute. reflexivity.
    + exact (proj2 (runs_wf config _ world0 eq_refl wf_no_data)).
    + apply past_ids_check. vm_compute. reflexivity.
    + apply pair_of. vm_compute. reflexivity.
    + exact (transitivity (next_step listening) (next_step (next listening))).
  - eexists _, _. apply pair_of. vm_compute. reflexivity.
Defined.

(** ** Faults *)

(** The oracles with a statement that does not reach the database. *)
Definition failing (k : nat) : Oracles :=
  {| db_ok := fun n => negb (n =? k)%nat; now := now; rng := rng; uuid_of := uuid_of;
     generated_key := generated_key; scan := @scan oracles;
     timestamptz := timestamptz |}.

(** A request for invitation codes can be answered with a code that is not
    stored: when a statement of a later token's redemption fails, the error is
    swallowed, and the COMMIT of the aborted transaction rolls the code back without
    an error. *)
Theorem phantom_codes : exists (o : Oracles) w bs c,
  as_txn w = NoTxn /\ (get_invitation_codes bs w).1 = Ok [c] /\
  codes (adb (get_invitation_codes bs w).2) !! c = None.
Proof.
  exists (failing 55), fresh, [[26; 1; 26]; [26; 2; 26]], "DEFGHJKM". split_and!; vm_compute; reflexivity.
Qed.

(** A registration can fail and use up its invitation code: the code is marked on
    another connection than that of the transaction, before the commit. *)
Theorem code_burnt : exists (o : Oracles) w r c e,
  as_txn w = NoTxn /\ ru_invitation_code r = Some c /\ (register_user config r w).1 = Err e /\
  users (adb (register_user config r w).2) = users (adb w) /\
  inv_redeemed <$> codes (adb w) !! c = Some false /\
  inv_redeemed <$> codes (adb (register_user config r w).2) !! c = Some true.
Proof.
  exists (failing 49), fresh, (register "YZ012345"), "YZ012345". eexists. split_and!; vm_compute; reflexivity.
Qed.

(** The oracles with a clock that starts later. *)
Definition half_a_year_later : Oracles :=
  {| db_ok := db_ok; now := fun n => 200 * DAY + now n; rng := rng; uuid_of := uuid_of;
     generated_key := generated_key; scan := @scan oracles;
     timestamptz := timestamptz |}.

(** The new owner of an expired username inherits the connection packages of the
    previous one: after the username is registered again under another key, a user who
    connects to it is handed a package with the previous owner's key. *)
Theorem takeover_keeps_packages : exists (o : Oracles) w r h old_key new_key cp,
  as_txn w = NoTxn /\ row_verifying_key <$> handles (adb w) !! h = Some old_key /\
  (create_username config r w).1 = Ok tt /\
  let w1 := (create_username config r w).2 in
  row_verifying_key <$> handles (adb w1) !! h = Some new_key /\ new_key <> old_key /\
  (run_protocol config [Ok (ConnectFetch None (FieldValue h))] 1 w1).1 = [Ok (FetchResponse (CpV2 cp))] /\
  cp_verifying_key (v2_payload cp) = old_key.
Proof.
  exists half_a_year_later, ready, (signed [99] {| cup_client_metadata := None; cup_verifying_key := Some [99];
    cup_plaintext := name; cup_hash := FieldValue name_hash; cup_token := None |}), name_hash, [88], [99].
  eexists. split_and!; [vm_compute; reflexivity..|]. intros w1. split_and!; [vm_compute; reflexivity|done|vm_compute; reflexivity..].
Qed.

End Evaluate_as.
