(* ===== verification/Qs.v ===== *)
(** * The queue service ([backend/src/qs])

    Client records, the queues of encrypted messages, enqueueing of fan-out
    messages and the listen stream.  The database is a pair of tables; whether a
    statement reaches it, the random nonces and the push provider are oracles
    that are read in order.  A transaction that fails, or whose commit fails, is
    rolled back. *)

From stdpp Require Import sorting.
From S2P Require Import Prelude Aead Ratchet Messages.

(** ** Tables *)

(** The blob columns of a live row. *)
Record ClientBlobs := {
  owner_public_key : bytes;
  owner_signature_key : bytes;
  row_ratchet : QueueRatchet
}.

(** A row of [qs_client_record]; a tombstone has empty blobs. *)
Record ClientRow := {
  row_user_id : Uuid;
  row_push_token : option AeadCiphertext;
  row_blobs : option ClientBlobs;
  row_activity_time : TimeStamp;
  row_deleted_at : option TimeStamp
}.

(** The protobuf message that a row of [qs_queues] holds. *)
Record ProtoQueueMessage := {
  proto_sequence_number : Z;
  proto_ciphertext : option AeadCiphertext
}.

(** [From<messages::QueueMessage>] and [TryFrom<QueueMessage>]: the nonce of a
    ciphertext has twelve bytes. *)
Definition to_proto (m : QueueMessage) : ProtoQueueMessage :=
  {| proto_sequence_number := qm_sequence_number m; proto_ciphertext := Some (qm_ciphertext m) |}.
Definition from_proto (m : ProtoQueueMessage) : option QueueMessage :=
  let ct := match proto_ciphertext m with
            | Some ct => ct | None => {| ciphertext := []; nonce := [] |} end in
  if decide (length (nonce ct) = 12%nat)
  then Some {| qm_sequence_number := proto_sequence_number m; qm_ciphertext := ct |}
  else None.

(** A row of [qs_user_record]. *)
Record UserRow := { row_verifying_key : bytes; row_friendship_token : bytes }.

(** The tables [key_package] and [apq_key_package]: rows by identity, and the
    identity of the next row. *)
Record PackageRow := {
  pkg_client_id : Uuid;
  pkg_blob : bytes;
  pkg_is_last_resort : bool
}.
Record PackageTable := { pt_next : Z; pt_rows : gmap Z PackageRow }.
Inductive PackageKind := ClassicPackage | ApqPackage.

(** A row of [qs_decryption_key]. *)
Record ClientIdDecryptionKey := { encryption_key : bytes; decryption_key : bytes }.

(** What a transaction covers: the tables and the notifications it sends. *)
Record QsDb := {
  qs_client_record : gmap Uuid ClientRow;
  qs_queues : gmap (Uuid * Z) ProtoQueueMessage;
  notified : list Uuid;
  qs_user_record : gmap Uuid UserRow;
  key_package : PackageTable;
  apq_key_package : PackageTable;
  qs_decryption_key : list ClientIdDecryptionKey
}.

Definition set_client_record (c : gmap Uuid ClientRow) (d : QsDb) : QsDb :=
  {| qs_client_record := c; qs_queues := qs_queues d; notified := notified d;
     qs_user_record := qs_user_record d; key_package := key_package d;
     apq_key_package := apq_key_package d; qs_decryption_key := qs_decryption_key d |}.
Definition set_queue_rows (q : gmap (Uuid * Z) ProtoQueueMessage) (d : QsDb) : QsDb :=
  {| qs_client_record := qs_client_record d; qs_queues := q; notified := notified d;
     qs_user_record := qs_user_record d; key_package := key_package d;
     apq_key_package := apq_key_package d; qs_decryption_key := qs_decryption_key d |}.
Definition add_notified (id : Uuid) (d : QsDb) : QsDb :=
  {| qs_client_record := qs_client_record d; qs_queues := qs_queues d;
     notified := notified d ++ [id];
     qs_user_record := qs_user_record d; key_package := key_package d;
     apq_key_package := apq_key_package d; qs_decryption_key := qs_decryption_key d |}.
Definition set_users (u : gmap Uuid UserRow) (d : QsDb) : QsDb :=
  {| qs_client_record := qs_client_record d; qs_queues := qs_queues d; notified := notified d;
     qs_user_record := u; key_package := key_package d;
     apq_key_package := apq_key_package d; qs_decryption_key := qs_decryption_key d |}.
Definition table (k : PackageKind) (d : QsDb) : PackageTable :=
  match k with ClassicPackage => key_package d | ApqPackage => apq_key_package d end.
Definition set_table (k : PackageKind) (t : PackageTable) (d : QsDb) : QsDb :=
  {| qs_client_record := qs_client_record d; qs_queues := qs_queues d; notified := notified d;
     qs_user_record := qs_user_record d;
     key_package := match k with ClassicPackage => t | ApqPackage => key_package d end;
     apq_key_package := match k with ClassicPackage => apq_key_package d | ApqPackage => t end;
     qs_decryption_key := qs_decryption_key d |}.
Definition add_decryption_key (k : ClientIdDecryptionKey) (d : QsDb) : QsDb :=
  {| qs_client_record := qs_client_record d; qs_queues := qs_queues d; notified := notified d;
     qs_user_record := qs_user_record d; key_package := key_package d;
     apq_key_package := apq_key_package d; qs_decryption_key := qs_decryption_key d ++ [k] |}.

(** [ON DELETE CASCADE] from a client to its key packages in both tables. *)
Definition drop_packages (gone : Uuid -> bool) (t : PackageTable) : PackageTable :=
  {| pt_next := pt_next t;
     pt_rows := filter (fun x => gone (pkg_client_id x.2) = false) (pt_rows t) |}.
Definition cascade_packages (gone : Uuid -> bool) (d : QsDb) : QsDb :=
  set_table ApqPackage (drop_packages gone (apq_key_package d))
    (set_table ClassicPackage (drop_packages gone (key_package d)) d).

(** The queue event payload that goes to a listener directly. *)
Record QueueEventPayload := {
  qe_group_id : option GroupId;
  qe_sender : option LeafNodeIndex;
  qe_epoch : option GroupEpoch;
  qe_timestamp : option TimeStamp;
  qe_payload : bytes
}.

(** [ListenerContext]: its cancellation token and its payload channel, whose
    receiver may be gone. *)
Record ListenerContext := {
  cancelled : bool;
  receiver_open : bool;
  payloads : list QueueEventPayload
}.

Record QsWorld := {
  qdb : QsDb;
  listeners : gmap Uuid ListenerContext;
  listening : gset Uuid;
  pushed : list bytes;
  delivered : list (bytes * Fqdn);
  statements : nat;
  nonces : nat
}.

Inductive EnqueueError := EnqueueLibraryError | EnqueueStorage | ClientNotFound.

(** [QsClientRecord]. *)
Record QsClientRecord := {
  user_id : Uuid;
  client_id : Uuid;
  encrypted_push_token : option AeadCiphertext;
  queue_encryption_key : bytes;
  auth_key : bytes;
  ratchet_key : QueueRatchet;
  activity_time : TimeStamp
}.

Inductive PushNotificationError :=
| PushOther | InvalidToken | InvalidBearer | PushNetworkError | UnsupportedType
| JwtCreationError | OAuthError | InvalidConfiguration.

(** ** State updates *)

Definition set_db (d : QsDb) (w : QsWorld) : QsWorld :=
  {| qdb := d; listeners := listeners w; listening := listening w; pushed := pushed w; delivered := delivered w;
     statements := statements w; nonces := nonces w |}.
Definition set_listeners (l : gmap Uuid ListenerContext) (w : QsWorld) : QsWorld :=
  {| qdb := qdb w; listeners := l; listening := listening w; pushed := pushed w; delivered := delivered w;
     statements := statements w; nonces := nonces w |}.
Definition set_clients (c : gmap Uuid ClientRow) (w : QsWorld) : QsWorld :=
  set_db (set_client_record c (qdb w)) w.
Definition set_queues (q : gmap (Uuid * Z) ProtoQueueMessage) (w : QsWorld) : QsWorld :=
  set_db (set_queue_rows q (qdb w)) w.

(** [ClientConfig], the contents of a sealed reference. *)
Record ClientConfig := {
  cc_client_id : Uuid;
  cc_push_token_ear_key : option bytes
}.

(** [QsToQsMessage] with its only payload, a fan-out request. *)
Record QsToQsMessage := {
  qq_sender : Fqdn;
  qq_recipient : Fqdn;
  qq_payload : DsFanOutMessage
}.

Inductive QsEnqueueError :=
| UnsealError (e : DecryptionErr)
| QsEnqueueErr (e : EnqueueError)
| NetworkError
| QsStorageError
| QsLibraryError
| InvalidResponse.

Section Qs.

(** The oracles and the external operations. *)
Context (db_ok : nat -> bool) (nonce_of : nat -> Result RandomnessErr bytes).
Context (push : bytes -> Result PushNotificationError unit).
Context `{Hkdf} `{Aes256Gcm} `{TlsCodec bytes} `{TlsCodec QsQueueMessagePayload}.

(** A statement that is sent to the database. *)
Definition statement {E} (e : E) : M QsWorld E unit := fun w =>
  let w' := {| qdb := qdb w; listeners := listeners w; listening := listening w;
               pushed := pushed w; delivered := delivered w; statements := S (statements w); nonces := nonces w |} in
  if db_ok (statements w) then (Ok tt, w') else (Err e, w').

(** The next random nonce. *)
Definition next_nonce {E} : M QsWorld E (Result RandomnessErr bytes) := fun w =>
  (Ok (nonce_of (nonces w)),
   {| qdb := qdb w; listeners := listeners w; listening := listening w; pushed := pushed w; delivered := delivered w;
      statements := statements w; nonces := S (nonces w) |}).

(** [pool.begin()], the body, [txn.commit()]: a dropped transaction is rolled
    back. *)
Definition transaction {E A} (e : E) (body : M QsWorld E A) : M QsWorld E A := fun w =>
  match (_ ← statement e; body) w with
  | (Ok a, w1) =>
      match statement e w1 with
      | (Ok _, w2) => (Ok a, w2)
      | (Err e', w2) => (Err e', set_db (qdb w) w2)
      end
  | (Err e', w1) => (Err e', set_db (qdb w) w1)
  end.

(** [StorableClientIdDecryptionKey::load]: the first row. *)
Definition load_decryption_key {E} (e : E) : M QsWorld E (option ClientIdDecryptionKey) :=
  _ ← statement e;
  w ← get;
  mret (head (qs_decryption_key (qdb w))).

(** ** Client records *)

Definition row_of (r : QsClientRecord) : ClientRow :=
  {| row_user_id := user_id r;
     row_push_token := encrypted_push_token r;
     row_blobs := Some {| owner_public_key := queue_encryption_key r;
                          owner_signature_key := auth_key r; row_ratchet := ratchet_key r |};
     row_activity_time := activity_time r;
     row_deleted_at := None |}.

(** [store]: an INSERT on the primary key [client_id], with a foreign key to the
    user. *)
Definition client_store (self : QsClientRecord) : M QsWorld EnqueueError unit :=
  _ ← statement EnqueueStorage;
  w ← get;
  match qs_client_record (qdb w) !! client_id self, qs_user_record (qdb w) !! user_id self with
  | Some _, _ => throw EnqueueStorage
  | None, None => throw EnqueueStorage
  | None, Some _ => modify (set_clients (<[client_id self := row_of self]> (qs_client_record (qdb w))))
  end.

(** A live row, [deleted_at IS NULL]. *)
Definition is_live (r : ClientRow) : bool := bool_decide (row_deleted_at r = None).

(** [load_for_update]. *)
Definition load_for_update (id : Uuid) : M QsWorld EnqueueError (option QsClientRecord) :=
  _ ← statement EnqueueStorage;
  w ← get;
  match qs_client_record (qdb w) !! id with
  | Some r =>
      if is_live r then
        match row_blobs r with
        | Some b =>
            mret (Some {| user_id := row_user_id r; client_id := id;
                          encrypted_push_token := row_push_token r;
                          queue_encryption_key := owner_public_key b;
                          auth_key := owner_signature_key b;
                          ratchet_key := row_ratchet b;
                          activity_time := row_activity_time r |})
        | None => throw EnqueueStorage
        end
      else mret None
  | None => mret None
  end.

(** [load_verifying_key]. *)
Definition load_verifying_key (id : Uuid) : M QsWorld EnqueueError (option bytes) :=
  _ ← statement EnqueueStorage;
  w ← get;
  match qs_client_record (qdb w) !! id with
  | Some r =>
      if is_live r then
        match row_blobs r with
        | Some b => mret (Some (owner_signature_key b))
        | None => throw EnqueueStorage
        end
      else mret None
  | None => mret None
  end.

(** An UPDATE of the row of [id], if it is live. *)
Definition update_live (id : Uuid) (f : ClientRow -> ClientRow) : M QsWorld EnqueueError unit :=
  _ ← statement EnqueueStorage;
  modify (fun w =>
    match qs_client_record (qdb w) !! id with
    | Some r => if is_live r then set_clients (<[id := f r]> (qs_client_record (qdb w))) w else w
    | None => w
    end).

(** [update_activity_time]. *)
Definition update_activity_time (id : Uuid) (t : TimeStamp) : M QsWorld EnqueueError unit :=
  update_live id (fun r =>
    {| row_user_id := row_user_id r; row_push_token := row_push_token r;
       row_blobs := row_blobs r; row_activity_time := t; row_deleted_at := row_deleted_at r |}).

(** [soft_delete]: the row is deleted, with its key packages, and reinserted as a
    tombstone, at the database's time [now]. *)
Definition soft_delete (id : Uuid) (now : TimeStamp) : M QsWorld EnqueueError unit :=
  _ ← statement EnqueueStorage;
  modify (fun w =>
    match qs_client_record (qdb w) !! id with
    | Some r =>
        set_clients
          (<[id := {| row_user_id := row_user_id r; row_push_token := None; row_blobs := None;
                      row_activity_time := now; row_deleted_at := Some now |}]>
             (qs_client_record (qdb w)))
          (set_db (cascade_packages (fun c => bool_decide (c = id)) (qdb w)) w)
    | None => w
    end).

(** [load_client_ids]: the left join yields one row without a client when the
    anchor exists and no client of its user is live. *)
Definition load_client_ids (id : Uuid) : M QsWorld EnqueueError (option (list Uuid)) :=
  _ ← statement EnqueueStorage;
  w ← get;
  let rows : list (option Uuid) :=
    match qs_client_record (qdb w) !! id with
    | None => []
    | Some c =>
        let others := filter (fun x => row_user_id x.2 = row_user_id c /\ is_live x.2 = true)
                        (map_to_list (qs_client_record (qdb w))) in
        match others with
        | [] => [None]
        | _ => map (fun x => Some x.1) others
        end
    end in
  mret (match rows with [] => None | _ => Some (omap (fun o => o) rows) end).

(** [delete_push_token]: only if the stored token is still the one that was used. *)
Definition delete_push_token (self : QsClientRecord) : M QsWorld EnqueueError unit :=
  match encrypted_push_token self with
  | None => mret tt
  | Some t =>
      update_live (client_id self) (fun r =>
        if decide (row_push_token r = Some t)
        then {| row_user_id := row_user_id r; row_push_token := None;
                row_blobs := row_blobs r; row_activity_time := row_activity_time r;
                row_deleted_at := row_deleted_at r |}
        else r)
  end.

(** [update]. *)
Definition client_update (self : QsClientRecord) : M QsWorld EnqueueError unit :=
  update_live (client_id self) (fun r =>
    {| row_user_id := row_user_id r;
       row_push_token := encrypted_push_token self;
       row_blobs := Some {| owner_public_key := queue_encryption_key self;
                            owner_signature_key := auth_key self;
                            row_ratchet := ratchet_key self |};
       row_activity_time := activity_time self;
       row_deleted_at := row_deleted_at r |}).

(** [update_queue_ratchet]. *)
Definition update_queue_ratchet (self : QsClientRecord) : M QsWorld EnqueueError unit :=
  update_live (client_id self) (fun r =>
    {| row_user_id := row_user_id r; row_push_token := row_push_token r;
       row_blobs := (fun b => {| owner_public_key := owner_public_key b;
                                 owner_signature_key := owner_signature_key b;
                                 row_ratchet := ratchet_key self |}) <$> row_blobs r;
       row_activity_time := row_activity_time r; row_deleted_at := row_deleted_at r |}).

(** ** Queues *)

(** [Queue::enqueue]: an INSERT on the primary key (queue, sequence number). *)
Definition queue_enqueue (queue_id : Uuid) (message : ProtoQueueMessage) :
    M QsWorld EnqueueError unit :=
  _ ← statement EnqueueStorage;
  w ← get;
  let k := (queue_id, as_i64 (proto_sequence_number message)) in
  match qs_queues (qdb w) !! k with
  | Some _ => throw EnqueueStorage
  | None => modify (set_queues (<[k := message]> (qs_queues (qdb w))))
  end.

(** [SELECT pg_notify(..)]: delivered when the transaction commits. *)
Definition pg_notify (queue_id : Uuid) : M QsWorld EnqueueError unit :=
  _ ← statement EnqueueStorage;
  modify (fun w => set_db (add_notified queue_id (qdb w)) w).

(** [Queues::enqueue]. *)
Definition queues_enqueue (queue_id : Uuid) (message : ProtoQueueMessage) :
    M QsWorld EnqueueError bool :=
  _ ← queue_enqueue queue_id message;
  _ ← pg_notify queue_id;
  w ← get;
  mret (match listeners w !! queue_id with
        | Some context => negb (cancelled context)
        | None => false
        end).

(** The rows that [fetch_into] selects, and their order. *)
Definition seq_le (x y : (Uuid * Z) * ProtoQueueMessage) : Prop := x.1.2 <= y.1.2.
#[local] Instance seq_le_dec : RelDecision seq_le.
Proof. intros x y. unfold seq_le. apply _. Defined.

Definition select_from (d : QsDb) (queue_id : Uuid) (from : Z) : list ((Uuid * Z) * ProtoQueueMessage) :=
  filter (fun x => x.1.1 = queue_id /\ from <= x.1.2) (map_to_list (qs_queues d)).

(** [Queue::fetch_into]. *)
Definition fetch_into (queue_id : Uuid) (sequence_number : Z) (limit : nat) (d : QsDb) :
    list ProtoQueueMessage :=
  map snd (take limit (merge_sort seq_le (select_from d queue_id (as_i64 sequence_number)))).

(** [Queue::delete] and [Queues::ack]. *)
Definition queue_delete (queue_id : Uuid) (up_to_sequence_number : Z) : M QsWorld EnqueueError unit :=
  _ ← statement EnqueueStorage;
  modify (fun w =>
    set_queues (filter (fun x => ~ (x.1.1 = queue_id /\ x.1.2 < as_i64 up_to_sequence_number))
                  (qs_queues (qdb w))) w).
Definition ack (queue_id : Uuid) (up_to_sequence_number : Z) : M QsWorld EnqueueError unit :=
  queue_delete queue_id up_to_sequence_number.

(** [Queues::trigger_fetch]. *)
Definition trigger_fetch (queue_id : Uuid) : M QsWorld EnqueueError unit := pg_notify queue_id.

(** [Queues::send_payload]: [true] when a listener took the payload. *)
Definition send_payload (queue_id : Uuid) (p : QueueEventPayload) : M QsWorld EnqueueError bool :=
  w ← get;
  match listeners w !! queue_id with
  | None => mret false
  | Some context =>
      if receiver_open context then
        _ ← modify (set_listeners
              (<[queue_id := {| cancelled := cancelled context; receiver_open := true;
                                payloads := payloads context ++ [p] |}]> (listeners w)));
        mret true
      else throw EnqueueStorage
  end.

(** [Queues::track_listener]: cancelled listeners are dropped and their channels
    unlistened; a previous listener of the client is replaced (and cancelled). *)
Definition track_listener (id : Uuid) : M QsWorld EnqueueError unit :=
  modify (fun w =>
    let live := filter (fun x => cancelled x.2 = false) (listeners w) in
    let gone := dom (filter (fun x => cancelled x.2 = true) (listeners w)) in
    let context := {| cancelled := false; receiver_open := true; payloads := [] |} in
    {| qdb := qdb w;
       listeners := <[id := context]> live;
       listening := (listening w ∖ gone) ∪ {[id]};
       pushed := pushed w; delivered := delivered w; statements := statements w; nonces := nonces w |}).

(** ** Enqueueing a fan-out message *)

(** The statements of [QsClientRecord::do_enqueue] between begin and commit. *)
Definition do_enqueue_body (id : Uuid) (queue_message : QsQueueMessagePayload) :
    M QsWorld EnqueueError (QsClientRecord * bool) :=
  found ← load_for_update id;
  client_record ← lift (ok_or ClientNotFound found);
  rnd ← next_nonce;
  let '(r, ratchet) := ratchet_encrypt queue_message rnd (ratchet_key client_record) in
  queue_message ← lift (map_err (fun _ => EnqueueLibraryError) r);
  let client_record :=
    {| user_id := user_id client_record; client_id := client_id client_record;
       encrypted_push_token := encrypted_push_token client_record;
       queue_encryption_key := queue_encryption_key client_record;
       auth_key := auth_key client_record; ratchet_key := ratchet;
       activity_time := activity_time client_record |} in
  has_listener ← queues_enqueue id (to_proto queue_message);
  _ ← update_queue_ratchet client_record;
  mret (client_record, has_listener).

(** [QsClientRecord::do_enqueue]. *)
Definition do_enqueue (id : Uuid) (queue_message : QsQueueMessagePayload) :
    M QsWorld EnqueueError (QsClientRecord * bool) :=
  transaction EnqueueStorage (do_enqueue_body id queue_message).

(** [PushNotificationProvider::push]: the token is handed to the provider. *)
Definition push_token_to_provider (t : bytes) : M QsWorld EnqueueError (Result PushNotificationError unit) :=
  _ ← modify (fun w => {| qdb := qdb w; listeners := listeners w; listening := listening w;
                          pushed := pushed w ++ [t]; delivered := delivered w; statements := statements w;
                          nonces := nonces w |});
  mret (push t).

(** [QsClientRecord::enqueue]. *)
Definition enqueue (id : Uuid) (msg : DsFanOutPayload) (push_token_key_option : option bytes) :
    M QsWorld EnqueueError unit :=
  match msg with
  | FanOutQueueMessage queue_message =>
      x ← do_enqueue id queue_message;
      let '(client_record, has_listener) := (x : QsClientRecord * bool) in
      if has_listener then mret tt
      else
        match encrypted_push_token client_record, push_token_key_option with
        | Some encrypted, Some ear_key =>
            match decrypt (T := bytes) ear_key encrypted with
            | Err _ => mret tt
            | Ok push_token =>
                r ← push_token_to_provider push_token;
                match r with
                | Err InvalidToken => delete_push_token client_record
                | Err _ => mret tt
                | Ok _ => mret tt
                end
            end
        | _, _ => mret tt
        end
  | FanOutEventMessage ev =>
      _ ← send_payload id
            {| qe_group_id := Some (ev_group_id ev);
               qe_sender := Some (ev_sender_index ev);
               qe_epoch := Some (ev_epoch ev);
               qe_timestamp := Some (ev_timestamp ev);
               qe_payload := ev_payload ev |};
      mret tt
  end.

(** [Qs::enqueue_message]. *)
Section EnqueueMessage.
Context (domain : Fqdn).
Context (client_config_decrypt : bytes -> bytes -> Result DecryptionErr ClientConfig).
Context (deliver : bytes -> Fqdn -> bool) `{TlsCodec QsToQsMessage}.

(** One client of the fan-out; failures are logged. *)
Definition enqueue_logged (msg : DsFanOutPayload) (k : option bytes) (id : Uuid) :
    M QsWorld QsEnqueueError unit :=
  r ← try_ (enqueue id msg k);
  match r with
  | Ok _ => mret tt
  | Err ClientNotFound => mret tt
  | Err _ => mret tt
  end.

(** A message for another homeserver. *)
Definition deliver_federated (message : DsFanOutMessage) : M QsWorld QsEnqueueError unit :=
  let destination := client_homeserver_domain (client_reference message) in
  serialized ← lift (ok_or QsLibraryError (tls_serialize_detached
    {| qq_sender := domain; qq_recipient := destination; qq_payload := message |}));
  _ ← modify (fun w => {| qdb := qdb w; listeners := listeners w; listening := listening w;
                          pushed := pushed w; delivered := delivered w ++ [(serialized, destination)];
                          statements := statements w; nonces := nonces w |});
  if deliver serialized destination then mret tt else throw NetworkError.

Definition enqueue_message (message : DsFanOutMessage) : M QsWorld QsEnqueueError unit :=
  if decide (client_homeserver_domain (client_reference message) = domain) then
    found ← load_decryption_key QsStorageError;
    dk ← lift (ok_or QsLibraryError found);
    client_config ← lift (map_err UnsealError
      (client_config_decrypt (decryption_key dk) (sealed_reference (client_reference message))));
    let push_token_ear_key :=
      if suppress_notifications message then None else cc_push_token_ear_key client_config in
    client_ids ←
      (if broadcast_to_all_client_queues message then
         found ← map_errM (fun _ => QsStorageError) (load_client_ids (cc_client_id client_config));
         lift (ok_or (QsEnqueueErr ClientNotFound) found)
       else mret [cc_client_id client_config]);
    mapM_ (enqueue_logged (fo_payload message) push_token_ear_key) client_ids
  else deliver_federated message.

End EnqueueMessage.

(** ** The listen stream *)

Definition MAX_BUFFER_SIZE : nat := 32.

Inductive FetchState := Init | Fetch | Wait.

(** [QueueStreamContext]; the cancellation token is part of the environment. *)
Record QueueStreamContext := {
  sc_client_id : Uuid;
  sc_sequence_number : Z;
  sc_buffer : list ProtoQueueMessage;
  sc_state : FetchState
}.

(** [listen]: the initial context. *)
Definition stream_init (id : Uuid) (sequence_number_start : Z) : QueueStreamContext :=
  {| sc_client_id := id; sc_sequence_number := sequence_number_start;
     sc_buffer := []; sc_state := Init |}.

(** [fetch_next_messages]: [None] when the query fails. *)
Definition fetch_next_messages (c : QueueStreamContext) (up : bool) (d : QsDb) :
    option QueueStreamContext :=
  if up then
    let buffer := sc_buffer c ++ fetch_into (sc_client_id c) (sc_sequence_number c) MAX_BUFFER_SIZE d in
    Some {| sc_client_id := sc_client_id c;
            sc_sequence_number :=
              match last buffer with
              | Some m => wrap_u64 (proto_sequence_number m + 1)
              | None => sc_sequence_number c
              end;
            sc_buffer := buffer; sc_state := sc_state c |}
  else None.

Definition set_state (s : FetchState) (c : QueueStreamContext) : QueueStreamContext :=
  {| sc_client_id := sc_client_id c; sc_sequence_number := sc_sequence_number c;
     sc_buffer := sc_buffer c; sc_state := s |}.

(** What one turn of the loop does: yield an item (a message, or the sentinel of an
    empty queue), go around again, or end the stream. *)
Inductive Turn :=
| Yield (item : option ProtoQueueMessage) (c : QueueStreamContext)
| Again (c : QueueStreamContext)
| Stop.

(** One turn of the loop of [into_stream]: whether the token is cancelled, whether
    the query succeeds, and whether a wait ends by a notification are the
    environment's choices. *)
Definition stream_turn (c : QueueStreamContext) (d : QsDb) (cancel up notified : bool) : Turn :=
  match sc_buffer c with
  | message :: rest =>
      Yield (Some message)
        {| sc_client_id := sc_client_id c; sc_sequence_number := sc_sequence_number c;
           sc_buffer := rest; sc_state := sc_state c |}
  | [] =>
      if cancel && match sc_state c with Init => false | _ => true end then Stop
      else
        match sc_state c with
        | Init => Again (set_state Fetch c)
        | Fetch =>
            match fetch_next_messages c up d with
            | None => Stop
            | Some c =>
                match sc_buffer c with
                | [] => Yield None (set_state Wait c)
                | _ => Again c
                end
            end
        | Wait => if notified then Again (set_state Fetch c) else Stop
        end
  end.

End Qs.
