(* ===== verification/QsApi.v ===== *)
(** * The interface of the queue service
      ([backend/src/qs/user_record.rs], [key_package.rs], [client_api],
      [auth.rs], [grpc.rs])

    User records, key packages and the gRPC handlers, over the database of
    [Qs].  Random identifiers and times are oracles indexed by the number of
    statements sent so far; the order in which the database scans a table is an
    oracle as well. *)

From S2P Require Import Prelude Aead Ratchet Messages Grpc Qs.

#[export] Instance PackageRow_eq_dec : EqDecision PackageRow.
Proof. solve_decision. Defined.

#[export] Instance PackageKind_eq_dec : EqDecision PackageKind.
Proof. solve_decision. Defined.

(** ** Key packages *)

(** OpenMLS key packages: received ones ([KeyPackageIn]) and validated ones, in
    their TLS encoding and in the encoding of blob columns. *)
Class MlsKeyPackages := {
  MlsKeyPackage : Type;
  MlsKeyPackageIn : Type;
  kp_validate : MlsKeyPackageIn -> option MlsKeyPackage;
  kp_into_unchecked : MlsKeyPackageIn -> MlsKeyPackage;
  kp_last_resort : MlsKeyPackage -> bool;
  kp_serialize : MlsKeyPackage -> option bytes;
  kp_deserialize : bytes -> option (MlsKeyPackageIn * bytes);
  kp_blob_encode : MlsKeyPackage -> option bytes;
  kp_blob_decode : bytes -> option MlsKeyPackage
}.

(** A serialized key package is read back, whatever follows it. *)
Class MlsKeyPackagesLaws `{MlsKeyPackages} : Prop := {
  kp_deserialize_serialize k bs rest : kp_serialize k = Some bs ->
    exists i, kp_deserialize (bs ++ rest) = Some (i, rest) /\ kp_into_unchecked i = k;
  kp_blob_decode_encode k bs : kp_blob_encode k = Some bs -> kp_blob_decode bs = Some k
}.

(** [ApqKeyPackage] and [ApqKeyPackageIn]. *)
Record ApqKeyPackage `{MlsKeyPackages} := { t_key_package : MlsKeyPackage; pq_key_package : MlsKeyPackage }.
Record ApqKeyPackageIn `{MlsKeyPackages} :=
  { t_key_package_in : MlsKeyPackageIn; pq_key_package_in : MlsKeyPackageIn }.

(** [ApqKeyPackageIn::validate] and [unwrap_verified]. *)
Definition apq_validate `{MlsKeyPackages} (k : ApqKeyPackageIn) : option ApqKeyPackage :=
  t ← kp_validate (t_key_package_in k);
  pq ← kp_validate (pq_key_package_in k);
  Some {| t_key_package := t; pq_key_package := pq |}.
Definition unwrap_verified `{MlsKeyPackages} (k : ApqKeyPackageIn) : ApqKeyPackage :=
  {| t_key_package := kp_into_unchecked (t_key_package_in k);
     pq_key_package := kp_into_unchecked (pq_key_package_in k) |}.
Definition apq_last_resort `{MlsKeyPackages} (k : ApqKeyPackage) : bool :=
  kp_last_resort (t_key_package k) && kp_last_resort (pq_key_package k).

(** [tls_deserialize_exact_bytes]. *)
Definition kp_deserialize_exact `{MlsKeyPackages} (bs : bytes) : option MlsKeyPackageIn :=
  x ← kp_deserialize bs;
  match x.2 with [] => Some x.1 | _ => None end.

(** The trait [StorableKeyPackage]: the table, and the blob of a row. *)
Class StorableKeyPackage (K : Type) := {
  TABLE_NAME : PackageKind;
  encoded : K -> option bytes;
  decoded : bytes -> option K
}.
#[export] Instance storable_classic `{MlsKeyPackages} : StorableKeyPackage MlsKeyPackage := {|
  TABLE_NAME := ClassicPackage; encoded := kp_blob_encode; decoded := kp_blob_decode |}.
#[export] Instance storable_apq `{MlsKeyPackages} : StorableKeyPackage ApqKeyPackage := {|
  TABLE_NAME := ApqPackage;
  encoded := fun k =>
    t ← kp_serialize (t_key_package k);
    pq ← kp_serialize (pq_key_package k);
    Some (t ++ pq);
  decoded := fun bs =>
    x ← kp_deserialize bs;
    pq ← kp_deserialize_exact x.2;
    Some (unwrap_verified {| t_key_package_in := x.1; pq_key_package_in := pq |})
|}.

(** ** Errors *)

Inductive QsCreateClientRecordError := CreateClientLibraryError | CreateClientStorageError.
Inductive QsUpdateClientRecordError := UnknownClient | UpdateClientStorageError.
Inductive QsCreateUserError := CreateUserStorageError.
Inductive QsUpdateUserError := UnknownUser | UpdateUserStorageError.
Inductive QsDeleteUserError := DeleteUserStorageError.
Inductive QsPublishKeyPackagesError := PublishStorageError | InvalidKeyPackage.
Inductive QsKeyPackageError := KeyPackageStorageError.
Inductive QsEncryptionKeyError := EncryptionKeyLibraryError | EncryptionKeyStorageError.

Definition status_of_create_client (e : QsCreateClientRecordError) : Status :=
  match e with
  | CreateClientLibraryError | CreateClientStorageError => status Internal
  end.
Definition status_of_update_client (e : QsUpdateClientRecordError) : Status :=
  match e with
  | UnknownClient => status NotFound
  | UpdateClientStorageError => status Internal
  end.
Definition status_of_publish (e : QsPublishKeyPackagesError) : Status :=
  match e with
  | PublishStorageError => status Internal
  | InvalidKeyPackage => status InvalidArgument
  end.
Definition status_of_key_package (e : QsKeyPackageError) : Status :=
  match e with KeyPackageStorageError => status Internal end.
Definition status_of_encryption_key (e : QsEncryptionKeyError) : Status :=
  match e with
  | EncryptionKeyLibraryError | EncryptionKeyStorageError => status Internal
  end.

(** [UserRecord]. *)
Record UserRecord := {
  ur_user_id : Uuid;
  ur_verifying_key : bytes;
  ur_friendship_token : bytes
}.

Record UserMetrics := {
  total_users : nat;
  active_last_month_users : nat;
  active_last_week_users : nat;
  active_last_day_users : nat
}.

(** The SQL intervals; a month depends on the calendar. *)
Inductive Interval := OneMonth | OneWeek | OneDay.

(** ** Parameters of the requests *)

Record CreateClientRecordParams := {
  cc_sender : Uuid;
  cc_client_record_auth_key : bytes;
  cc_queue_encryption_key : bytes;
  cc_encrypted_push_token : option AeadCiphertext;
  cc_initial_ratchet_secret : bytes
}.
Record UpdateClientRecordParams := {
  uc_sender : Uuid;
  uc_client_record_auth_key : bytes;
  uc_queue_encryption_key : bytes;
  uc_encrypted_push_token : option AeadCiphertext
}.
Record CreateUserRecordParams := {
  cu_user_record_auth_key : bytes;
  cu_friendship_token : bytes;
  cu_client_record_auth_key : bytes;
  cu_queue_encryption_key : bytes;
  cu_encrypted_push_token : option AeadCiphertext;
  cu_initial_ratchet_secret : bytes
}.
Record UpdateUserRecordParams := {
  uu_sender : Uuid;
  uu_user_record_auth_key : bytes;
  uu_friendship_token : bytes
}.

Section Api.
Context (db_ok : nat -> bool) (uuid_of : nat -> Uuid) (now : nat -> TimeStamp).
Context (scan : nat -> list (Z * PackageRow) -> list (Z * PackageRow)).
Context (ago : Interval -> TimeStamp -> TimeStamp).
Context `{Hkdf} `{TlsCodec bytes} `{MlsKeyPackages}.

Abbreviation statement := (Qs.statement db_ok) (only parsing).
Abbreviation transaction := (Qs.transaction db_ok) (only parsing).

(** ** User records *)

(** Rows other than [id]'s that hold the token: the column is UNIQUE. *)
Definition token_taken (d : QsDb) (id : Uuid) (token : bytes) : bool :=
  negb (bool_decide (filter (fun x => x.1 <> id /\ row_friendship_token x.2 = token)
                       (map_to_list (qs_user_record d)) = [])).

Definition user_row_of (u : UserRecord) : UserRow :=
  {| row_verifying_key := ur_verifying_key u; row_friendship_token := ur_friendship_token u |}.

(** [UserRecord::store]. *)
Definition user_store {E} (e : E) (self : UserRecord) : M QsWorld E unit :=
  _ ← statement e;
  w ← get;
  match qs_user_record (qdb w) !! ur_user_id self with
  | Some _ => throw e
  | None =>
      if token_taken (qdb w) (ur_user_id self) (ur_friendship_token self) then throw e
      else modify (set_db (set_users (<[ur_user_id self := user_row_of self]>
                                       (qs_user_record (qdb w))) (qdb w)))
  end.

(** [UserRecord::new_and_store]. *)
Definition user_new_and_store {E} (e : E) (verifying_key friendship_token : bytes) :
    M QsWorld E UserRecord :=
  w ← get;
  let user_record := {| ur_user_id := uuid_of (statements w); ur_verifying_key := verifying_key;
                        ur_friendship_token := friendship_token |} in
  _ ← user_store e user_record;
  mret user_record.

(** [UserRecord::load] and [load_verifying_key]. *)
Definition user_load {E} (e : E) (id : Uuid) : M QsWorld E (option UserRecord) :=
  _ ← statement e;
  w ← get;
  mret ((fun r => {| ur_user_id := id; ur_verifying_key := row_verifying_key r;
                     ur_friendship_token := row_friendship_token r |})
          <$> qs_user_record (qdb w) !! id).
Definition user_load_verifying_key {E} (e : E) (id : Uuid) : M QsWorld E (option bytes) :=
  _ ← statement e;
  w ← get;
  mret (row_verifying_key <$> qs_user_record (qdb w) !! id).

(** [UserRecord::delete]: the clients of the user and their key packages go with
    it. *)
Definition owned_by (d : QsDb) (id c : Uuid) : bool :=
  bool_decide (row_user_id <$> qs_client_record d !! c = Some id /\
               is_Some (qs_user_record d !! id)).
Definition user_delete {E} (e : E) (id : Uuid) : M QsWorld E unit :=
  _ ← statement e;
  modify (fun w =>
    let d := qdb w in
    set_db (set_users (delete id (qs_user_record d))
             (set_client_record (filter (fun x => owned_by d id x.1 = false) (qs_client_record d))
               (cascade_packages (owned_by d id) d))) w).

(** [UserRecord::update]. *)
Definition user_update {E} (e : E) (self : UserRecord) : M QsWorld E unit :=
  _ ← statement e;
  w ← get;
  match qs_user_record (qdb w) !! ur_user_id self with
  | None => mret tt
  | Some _ =>
      if token_taken (qdb w) (ur_user_id self) (ur_friendship_token self) then throw e
      else modify (set_db (set_users (<[ur_user_id self := user_row_of self]>
                                       (qs_user_record (qdb w))) (qdb w)))
  end.

(** [UserRecord::metrics]: users by the latest activity of their clients. *)
Definition last_activity (d : QsDb) (user : Uuid) : option TimeStamp :=
  foldr (fun x acc => Some (match acc with Some t => Z.max x t | None => x end)) None
    (map (fun x => row_activity_time x.2)
       (filter (fun x => row_user_id x.2 = user) (map_to_list (qs_client_record d)))).
Definition active_since (d : QsDb) (t : TimeStamp) : nat :=
  length (filter (fun u => match last_activity d u with Some a => t <=? a | None => false end = true)
            (remove_dups (map (fun x => row_user_id x.2) (map_to_list (qs_client_record d))))).
Definition user_metrics {E} (e : E) : M QsWorld E UserMetrics :=
  _ ← statement e;
  w ← get;
  let t := now (statements w) in
  mret {| total_users := size (qs_user_record (qdb w));
          active_last_month_users := active_since (qdb w) (ago OneMonth t);
          active_last_week_users := active_since (qdb w) (ago OneWeek t);
          active_last_day_users := active_since (qdb w) (ago OneDay t) |}.

(** ** Stored key packages *)

Section Packages.
Context {K : Type} `{StorableKeyPackage K}.

(** The rows of one INSERT, which take consecutive identities. *)
Fixpoint insert_packages (c : Uuid) (is_last_resort : bool) (blobs : list bytes) (t : PackageTable) :
    PackageTable :=
  match blobs with
  | [] => t
  | b :: blobs =>
      insert_packages c is_last_resort blobs
        {| pt_next := pt_next t + 1;
           pt_rows := <[pt_next t := {| pkg_client_id := c; pkg_blob := b;
                                        pkg_is_last_resort := is_last_resort |}]> (pt_rows t) |}
  end.

(** [DELETE .. WHERE client_id = .. AND is_last_resort = ..]. *)
Definition clear_packages (c : Uuid) (is_last_resort : bool) (t : PackageTable) : PackageTable :=
  {| pt_next := pt_next t;
     pt_rows := filter (fun x => ~ (pkg_client_id x.2 = c /\
                                    pkg_is_last_resort x.2 = is_last_resort)) (pt_rows t) |}.

(** [replace_multiple_internal]. *)
Definition replace_multiple_internal {E} (e : E) (c : Uuid) (key_packages : list K)
    (is_last_resort : bool) : M QsWorld E unit :=
  match key_packages with
  | [] => mret tt
  | _ =>
      _ ← statement e;
      _ ← modify (fun w =>
            set_db (set_table TABLE_NAME
              (clear_packages c is_last_resort (table TABLE_NAME (qdb w))) (qdb w)) w);
      blobs ← lift (mapM_r (fun k => ok_or e (encoded k)) key_packages);
      _ ← statement e;
      w ← get;
      match qs_client_record (qdb w) !! c with
      | None => throw e
      | Some _ =>
          modify (set_db (set_table TABLE_NAME
            (insert_packages c is_last_resort blobs (table TABLE_NAME (qdb w))) (qdb w)))
      end
  end.
Definition replace_multiple {E} (e : E) (c : Uuid) (key_packages : list K) : M QsWorld E unit :=
  replace_multiple_internal e c key_packages false.
Definition replace_last_resort {E} (e : E) (c : Uuid) (self : K) : M QsWorld E unit :=
  replace_multiple_internal e c [self] true.

(** The query of [load_user_key_package].  The users with the token: a scalar
    subquery fails on more than one row. *)
Definition user_info (d : QsDb) (token : bytes) : list Uuid :=
  map fst (filter (fun x => row_friendship_token x.2 = token) (map_to_list (qs_user_record d))).
Definition is_client_of (d : QsDb) (users : list Uuid) (c : Uuid) : bool :=
  match row_user_id <$> qs_client_record d !! c with
  | Some u => bool_decide (u ∈ users)
  | None => false
  end.
(** [ROW_NUMBER() OVER (PARTITION BY client_id ORDER BY is_last_resort ASC)], ties in
    the order of the scan. *)
Definition ranked_packages (rows : list (Z * PackageRow)) (c : Uuid) : list (Z * PackageRow) :=
  filter (fun x => pkg_client_id x.2 = c /\ pkg_is_last_resort x.2 = false) rows ++
  filter (fun x => pkg_client_id x.2 = c /\ pkg_is_last_resort x.2 = true) rows.
Definition selected_key_packages (d : QsDb) (users : list Uuid) (rows : list (Z * PackageRow)) :
    list (Z * PackageRow) :=
  filter (fun x => is_client_of d users (pkg_client_id x.2) = true /\
                   head (ranked_packages rows (pkg_client_id x.2)) = Some x) rows.
Definition deleted_packages (selected : list (Z * PackageRow)) (t : PackageTable) : PackageTable :=
  {| pt_next := pt_next t;
     pt_rows := filter (fun x => x.1 ∉ map fst (filter (fun y => pkg_is_last_resort y.2 = false)
                                                selected)) (pt_rows t) |}.

(** [load_user_key_package]; the row is returned as well, for the statements about
    who got which row. *)
Definition load_user_key_package_row {E} (e : E) (friendship_token : bytes) :
    M QsWorld E (Z * PackageRow * K) :=
  transaction e
    (_ ← statement e;
     w ← get;
     let d := qdb w in
     let users := user_info d friendship_token in
     if (2 <=? length users)%nat then throw e else
     let rows := scan (statements w) (map_to_list (pt_rows (table TABLE_NAME d))) in
     let selected := selected_key_packages d users rows in
     _ ← modify (set_db (set_table TABLE_NAME
           (deleted_packages selected (table TABLE_NAME d)) d));
     row ← lift (ok_or e (head selected));
     key_package ← lift (ok_or e (decoded (pkg_blob row.2)));
     mret (row, key_package)).
Definition load_user_key_package {E} (e : E) (friendship_token : bytes) : M QsWorld E K :=
  x ← load_user_key_package_row e friendship_token;
  mret x.2.

End Packages.

(** ** The API of [Qs] *)

(** [qs_create_client_record]. *)
Definition qs_create_client_record (params : CreateClientRecordParams) :
    M QsWorld QsCreateClientRecordError Uuid :=
  ratchet_key ← lift (map_err (fun _ => CreateClientLibraryError)
    (ratchet_try_from (cc_initial_ratchet_secret params)));
  _ ← statement CreateClientStorageError;
  w ← get;
  let record := {| user_id := cc_sender params; client_id := uuid_of (statements w);
                   encrypted_push_token := cc_encrypted_push_token params;
                   queue_encryption_key := cc_queue_encryption_key params;
                   auth_key := cc_client_record_auth_key params; ratchet_key := ratchet_key;
                   activity_time := now (statements w) |} in
  _ ← map_errM (fun _ => CreateClientStorageError) (client_store db_ok record);
  mret (client_id record).

(** [qs_update_client_record]. *)
Definition qs_update_client_record (params : UpdateClientRecordParams) :
    M QsWorld QsUpdateClientRecordError unit :=
  transaction UpdateClientStorageError
    (found ← map_errM (fun _ => UpdateClientStorageError) (load_for_update db_ok (uc_sender params));
     client_record ← lift (ok_or UnknownClient found);
     map_errM (fun _ => UpdateClientStorageError) (client_update db_ok
       {| user_id := user_id client_record; client_id := client_id client_record;
          encrypted_push_token := uc_encrypted_push_token params;
          queue_encryption_key := uc_queue_encryption_key params;
          auth_key := uc_client_record_auth_key params;
          ratchet_key := ratchet_key client_record;
          activity_time := activity_time client_record |})).

(** [qs_delete_client_record]. *)
Definition qs_delete_client_record (sender : Uuid) : M QsWorld QsUpdateClientRecordError unit :=
  w ← get;
  map_errM (fun _ => UpdateClientStorageError) (soft_delete db_ok sender (now (statements w))).

(** [qs_create_user_record]: two writes that are not in one transaction. *)
Definition qs_create_user_record (params : CreateUserRecordParams) :
    M QsWorld QsCreateUserError (Uuid * Uuid) :=
  user_record ← user_new_and_store CreateUserStorageError (cu_user_record_auth_key params)
                  (cu_friendship_token params);
  qs_client_id ← map_errM (fun _ => CreateUserStorageError) (qs_create_client_record
    {| cc_sender := ur_user_id user_record;
       cc_client_record_auth_key := cu_client_record_auth_key params;
       cc_queue_encryption_key := cu_queue_encryption_key params;
       cc_encrypted_push_token := cu_encrypted_push_token params;
       cc_initial_ratchet_secret := cu_initial_ratchet_secret params |});
  mret (ur_user_id user_record, qs_client_id).

(** [qs_update_user_record]. *)
Definition qs_update_user_record (params : UpdateUserRecordParams) :
    M QsWorld QsUpdateUserError unit :=
  transaction UpdateUserStorageError
    (found ← user_load UpdateUserStorageError (uu_sender params);
     user_record ← lift (ok_or UnknownUser found);
     user_update UpdateUserStorageError
       {| ur_user_id := ur_user_id user_record;
          ur_verifying_key := uu_user_record_auth_key params;
          ur_friendship_token := uu_friendship_token params |}).

(** [qs_delete_user_record]. *)
Definition qs_delete_user_record (sender : Uuid) : M QsWorld QsDeleteUserError unit :=
  user_delete DeleteUserStorageError sender.

(** The loop of the two publish functions: the validated packages, and the last
    one that is a last resort. *)
Definition split_packages {I K} (validate : I -> option K) (last_resort : K -> bool) (l : list I) :
    Result QsPublishKeyPackagesError (list K * option K) :=
  foldM (fun acc i =>
    k ← ok_or InvalidKeyPackage (validate i);
    Ok (if last_resort k then (acc.1, Some k) else (acc.1 ++ [k], acc.2))) ([], None) l.

(** [qs_publish_key_packages] and [qs_publish_apq_key_packages]. *)
Definition publish_packages {I K} `{!StorableKeyPackage K} (validate : I -> option K)
    (last_resort : K -> bool) (sender : Uuid) (key_packages : list I) :
    M QsWorld QsPublishKeyPackagesError unit :=
  x ← lift (split_packages validate last_resort key_packages);
  transaction PublishStorageError
    (_ ← (match x.2 with
          | Some k => replace_last_resort PublishStorageError sender k
          | None => mret tt
          end);
     replace_multiple PublishStorageError sender x.1).
Definition qs_publish_key_packages (sender : Uuid) (key_packages : list MlsKeyPackageIn) :
    M QsWorld QsPublishKeyPackagesError unit :=
  publish_packages kp_validate kp_last_resort sender key_packages.
Definition qs_publish_apq_key_packages (sender : Uuid) (key_packages : list ApqKeyPackageIn) :
    M QsWorld QsPublishKeyPackagesError unit :=
  publish_packages apq_validate apq_last_resort sender key_packages.

(** [qs_key_package] and [qs_apq_key_package], with the row. *)
Definition qs_key_package_row {K} `{!StorableKeyPackage K} (sender : bytes) :
    M QsWorld QsKeyPackageError (Z * PackageRow * K) :=
  _ ← statement KeyPackageStorageError;
  load_user_key_package_row KeyPackageStorageError sender.
Definition qs_key_package (sender : bytes) : M QsWorld QsKeyPackageError MlsKeyPackage :=
  x ← qs_key_package_row sender; mret x.2.
Definition qs_apq_key_package (sender : bytes) : M QsWorld QsKeyPackageError ApqKeyPackage :=
  x ← qs_key_package_row sender; mret x.2.

(** [qs_encryption_key]. *)
Definition qs_encryption_key : M QsWorld QsEncryptionKeyError bytes :=
  found ← load_decryption_key db_ok EncryptionKeyStorageError;
  decryption_key ← lift (ok_or EncryptionKeyLibraryError found);
  mret (encryption_key decryption_key).

(** [Qs::initialize]: a decryption key is generated if there is none. *)
Definition initialize (generated : option ClientIdDecryptionKey) : M QsWorld unit unit :=
  found ← load_decryption_key db_ok tt;
  match found with
  | Some _ => mret tt
  | None =>
      key ← lift (ok_or tt generated);
      _ ← statement tt;
      modify (fun w => set_db (add_decryption_key key (qdb w)) w)
  end.

End Api.
