(* ===== verification/QsGrpc.v ===== *)
(** * The requests of the queue service ([backend/src/qs/auth.rs], [grpc.rs])

    Authentication of requests and the gRPC handlers, over the operations of
    [QsApi]. *)

From S2P Require Import Prelude Aead Ratchet Messages Grpc Qs QsApi.

(** ** Requests *)

Section Payloads.
Context `{Semver} `{MlsKeyPackages}.

Record UpdateUserPayload := {
  uup_client_metadata : option ClientMetadata;
  uup_sender : Field Uuid;
  uup_user_record_auth_key : Field bytes;
  uup_friendship_token : Field bytes
}.
Record DeleteUserPayload := {
  dup_client_metadata : option ClientMetadata;
  dup_sender : Field Uuid
}.
Record CreateClientPayload := {
  ccp_client_metadata : option ClientMetadata;
  ccp_sender : Field Uuid;
  ccp_client_record_auth_key : Field bytes;
  ccp_queue_encryption_key : Field bytes;
  ccp_encrypted_push_token : Field AeadCiphertext;
  ccp_initial_ratched_secret : Field bytes
}.
Record UpdateClientPayload := {
  ucp_client_metadata : option ClientMetadata;
  ucp_sender : Field Uuid;
  ucp_client_record_auth_key : Field bytes;
  ucp_queue_encryption_key : Field bytes;
  ucp_encrypted_push_token : Field AeadCiphertext
}.
Record DeleteClientPayload := {
  dcp_client_metadata : option ClientMetadata;
  dcp_sender : Field Uuid
}.
(** A key package that cannot be deserialized is [None]. *)
Record PublishKeyPackagesPayload := {
  pkp_client_metadata : option ClientMetadata;
  pkp_client_id : Field Uuid;
  pkp_key_packages : list (option MlsKeyPackageIn)
}.
Record PublishApqKeyPackagesPayload := {
  pap_client_metadata : option ClientMetadata;
  pap_client_id : Field Uuid;
  pap_apq_key_packages : list (option ApqKeyPackageIn)
}.
Record InitListenPayload := {
  ilp_client_metadata : option ClientMetadata;
  ilp_client_id : Field Uuid;
  ilp_sequence_number_start : Z
}.
Record CreateUserRequest := {
  cur_client_metadata : option ClientMetadata;
  cur_user_record_auth_key : Field bytes;
  cur_friendship_token : Field bytes;
  cur_client_record_auth_key : Field bytes;
  cur_queue_encryption_key : Field bytes;
  cur_encrypted_push_token : Field AeadCiphertext;
  cur_initial_ratched_secret : Field bytes
}.
(** [KeyPackageRequest] and [ApqKeyPackageRequest]. *)
Record KeyPackageRequest := {
  kpr_client_metadata : option ClientMetadata;
  kpr_sender : Field bytes
}.

(** The traits [WithQsUserId] and [WithQsClientId]: the sender of a payload, and
    the payload made of the fields of the legacy API; [None] when there is no
    such API. *)
Class QsPayload (P : Type) := {
  Legacy : Type;
  sender_of : P -> Field Uuid;
  client_metadata_of : P -> option ClientMetadata;
  legacy_metadata : Legacy -> option ClientMetadata;
  into_unverified_payload : Legacy -> option P
}.
#[export] Instance UpdateUser_payload : QsPayload UpdateUserPayload := {|
  Legacy := UpdateUserPayload; sender_of := uup_sender;
  client_metadata_of := uup_client_metadata; legacy_metadata := uup_client_metadata;
  into_unverified_payload := Some |}.
#[export] Instance DeleteUser_payload : QsPayload DeleteUserPayload := {|
  Legacy := DeleteUserPayload; sender_of := dup_sender;
  client_metadata_of := dup_client_metadata; legacy_metadata := dup_client_metadata;
  into_unverified_payload := Some |}.
#[export] Instance CreateClient_payload : QsPayload CreateClientPayload := {|
  Legacy := CreateClientPayload; sender_of := ccp_sender;
  client_metadata_of := ccp_client_metadata; legacy_metadata := ccp_client_metadata;
  into_unverified_payload := Some |}.
#[export] Instance UpdateClient_payload : QsPayload UpdateClientPayload := {|
  Legacy := UpdateClientPayload; sender_of := ucp_sender;
  client_metadata_of := ucp_client_metadata; legacy_metadata := ucp_client_metadata;
  into_unverified_payload := Some |}.
#[export] Instance DeleteClient_payload : QsPayload DeleteClientPayload := {|
  Legacy := DeleteClientPayload; sender_of := dcp_sender;
  client_metadata_of := dcp_client_metadata; legacy_metadata := dcp_client_metadata;
  into_unverified_payload := Some |}.
#[export] Instance PublishKeyPackages_payload : QsPayload PublishKeyPackagesPayload := {|
  Legacy := PublishKeyPackagesPayload; sender_of := pkp_client_id;
  client_metadata_of := pkp_client_metadata; legacy_metadata := pkp_client_metadata;
  into_unverified_payload := Some |}.
#[export] Instance PublishApqKeyPackages_payload : QsPayload PublishApqKeyPackagesPayload := {|
  Legacy := unit; sender_of := pap_client_id;
  client_metadata_of := pap_client_metadata; legacy_metadata := fun _ => None;
  into_unverified_payload := fun _ => None |}.
#[export] Instance InitListen_payload : QsPayload InitListenPayload := {|
  Legacy := InitListenPayload; sender_of := ilp_client_id;
  client_metadata_of := ilp_client_metadata; legacy_metadata := ilp_client_metadata;
  into_unverified_payload := Some |}.

(** A request: a signed payload next to the fields of the legacy API. *)
Record QsRequest (P : Type) `{!QsPayload P} := {
  signed_payload : SignedRequest P;
  legacy_fields : Legacy
}.
End Payloads.
Arguments signed_payload {_ P _} _.
Arguments legacy_fields {_ P _} _.

(** The messages of a listen stream. *)
Inductive ListenRequest `{Semver} :=
| ListenInit (r : QsRequest InitListenPayload)
| ListenAck (up_to_sequence_number : Z)
| ListenFetch.

Section Handlers.
Context (db_ok : nat -> bool) (uuid_of : nat -> Uuid) (now : nat -> TimeStamp).
Context (scan : nat -> list (Z * PackageRow) -> list (Z * PackageRow)).
Context (ago : Interval -> TimeStamp -> TimeStamp).
Context `{Hkdf} `{TlsCodec bytes} `{MlsKeyPackages} `{Semver}.
Context (client_version_req : option VersionReq).

(** ** Authentication *)

Section Auth.
Context {P : Type} `{!QsPayload P} `{!VerifiableRequest P}.

(** [user_id_proto] and [client_id_proto]: [None] without a payload or without a
    sender in it. *)
Definition request_sender (r : QsRequest P) : option (Result Status Uuid) :=
  p ← sr_payload (signed_payload r);
  match sender_of p with
  | FieldMissing => None
  | f => Some (required f)
  end.

(** [verify_user_auth] and [verify_client_auth], by the function that loads the
    verifying key. *)
Definition verify_auth (load_key : Uuid -> M QsWorld Failure (option bytes)) (r : QsRequest P) :
    M QsWorld Failure P :=
  match request_sender r with
  | None => lift (ok_or Panicked (into_unverified_payload (legacy_fields r)))
  | Some id =>
      id ← fail_with id;
      found ← load_key id;
      verifying_key ← lift (ok_or (Failed (status NotFound)) found);
      fail_with (verify_request (signed_payload r) verifying_key)
  end.
Definition verify_user_auth (r : QsRequest P) : M QsWorld Failure P :=
  verify_auth (user_load_verifying_key db_ok (Failed (status Internal))) r.
Definition verify_client_auth (r : QsRequest P) : M QsWorld Failure P :=
  verify_auth (fun id => with_status (fun _ => status Internal) (load_verifying_key db_ok id)) r.

(** The version check of a request: the metadata of the payload, or else of the
    legacy fields. *)
Definition request_metadata (r : QsRequest P) : option ClientMetadata :=
  match p ← sr_payload (signed_payload r); client_metadata_of p with
  | Some m => Some m
  | None => legacy_metadata (legacy_fields r)
  end.
Definition check_version (m : option ClientMetadata) : M QsWorld Failure (option Version) :=
  fail_with (verify_client_version client_version_req m).

End Auth.

Section Requests.
Context `{!VerifiableRequest UpdateUserPayload} `{!VerifiableRequest DeleteUserPayload}
  `{!VerifiableRequest CreateClientPayload} `{!VerifiableRequest UpdateClientPayload}
  `{!VerifiableRequest DeleteClientPayload} `{!VerifiableRequest PublishKeyPackagesPayload}
  `{!VerifiableRequest PublishApqKeyPackagesPayload} `{!VerifiableRequest InitListenPayload}.

(** ** Handlers *)

Definition create_user (r : CreateUserRequest) : M QsWorld Failure (Uuid * Uuid) :=
  _ ← check_version (cur_client_metadata r);
  params ← fail_with (
    user_key ← required (cur_user_record_auth_key r);
    token ← required (cur_friendship_token r);
    client_key ← required (cur_client_record_auth_key r);
    queue_key ← required (cur_queue_encryption_key r);
    push_token ← optional (cur_encrypted_push_token r);
    secret ← required (cur_initial_ratched_secret r);
    Ok {| cu_user_record_auth_key := user_key; cu_friendship_token := token;
          cu_client_record_auth_key := client_key; cu_queue_encryption_key := queue_key;
          cu_encrypted_push_token := push_token; cu_initial_ratchet_secret := secret |});
  with_status (fun _ => status Internal) (qs_create_user_record db_ok uuid_of now params).

Definition update_user (r : QsRequest UpdateUserPayload) : M QsWorld Failure unit :=
  _ ← check_version (request_metadata r);
  p ← verify_user_auth r;
  params ← fail_with (
    sender ← required (uup_sender p);
    user_key ← required (uup_user_record_auth_key p);
    token ← required (uup_friendship_token p);
    Ok {| uu_sender := sender; uu_user_record_auth_key := user_key; uu_friendship_token := token |});
  with_status (fun _ => status Internal) (qs_update_user_record db_ok params).

Definition delete_user (r : QsRequest DeleteUserPayload) : M QsWorld Failure unit :=
  _ ← check_version (request_metadata r);
  p ← verify_user_auth r;
  sender ← fail_with (required (dup_sender p));
  with_status (fun _ => status Internal) (qs_delete_user_record db_ok sender).

Definition create_client (r : QsRequest CreateClientPayload) : M QsWorld Failure Uuid :=
  p ← verify_user_auth r;
  _ ← check_version (ccp_client_metadata p);
  params ← fail_with (
    sender ← required (ccp_sender p);
    client_key ← required (ccp_client_record_auth_key p);
    queue_key ← required (ccp_queue_encryption_key p);
    push_token ← optional (ccp_encrypted_push_token p);
    secret ← required (ccp_initial_ratched_secret p);
    Ok {| cc_sender := sender; cc_client_record_auth_key := client_key;
          cc_queue_encryption_key := queue_key; cc_encrypted_push_token := push_token;
          cc_initial_ratchet_secret := secret |});
  with_status status_of_create_client (qs_create_client_record db_ok uuid_of now params).

Definition update_client (r : QsRequest UpdateClientPayload) : M QsWorld Failure unit :=
  _ ← check_version (request_metadata r);
  p ← verify_client_auth r;
  params ← fail_with (
    sender ← required (ucp_sender p);
    client_key ← required (ucp_client_record_auth_key p);
    queue_key ← required (ucp_queue_encryption_key p);
    push_token ← optional (ucp_encrypted_push_token p);
    Ok {| uc_sender := sender; uc_client_record_auth_key := client_key;
          uc_queue_encryption_key := queue_key; uc_encrypted_push_token := push_token |});
  with_status status_of_update_client (qs_update_client_record db_ok params).

Definition delete_client (r : QsRequest DeleteClientPayload) : M QsWorld Failure unit :=
  _ ← check_version (request_metadata r);
  p ← verify_client_auth r;
  sender ← fail_with (required (dcp_sender p));
  with_status status_of_update_client (qs_delete_client_record db_ok now sender).

Definition publish_key_packages (r : QsRequest PublishKeyPackagesPayload) : M QsWorld Failure unit :=
  _ ← check_version (request_metadata r);
  p ← verify_client_auth r;
  params ← fail_with (
    sender ← required (pkp_client_id p);
    key_packages ← mapM_r (ok_or (status InvalidArgument)) (pkp_key_packages p);
    Ok (sender, key_packages));
  with_status status_of_publish (qs_publish_key_packages db_ok params.1 params.2).

Definition publish_apq_key_packages (r : QsRequest PublishApqKeyPackagesPayload) :
    M QsWorld Failure unit :=
  _ ← check_version (request_metadata r);
  p ← verify_client_auth r;
  params ← fail_with (
    sender ← required (pap_client_id p);
    key_packages ← mapM_r (ok_or (status InvalidArgument)) (pap_apq_key_packages p);
    Ok (sender, key_packages));
  with_status status_of_publish (qs_publish_apq_key_packages db_ok params.1 params.2).

(** [key_package] and [apq_key_package]: the response carries the TLS encoding of
    the package.  The row is returned as well. *)
Definition key_package_row {K A} `{!StorableKeyPackage K} (serialize : K -> option A)
    (r : KeyPackageRequest) : M QsWorld Failure (Z * PackageRow * A) :=
  _ ← check_version (kpr_client_metadata r);
  sender ← fail_with (required (kpr_sender r));
  x ← with_status status_of_key_package (qs_key_package_row db_ok scan sender);
  tls ← fail_with (ok_or (status Internal) (serialize x.2));
  mret (x.1, tls).
Definition key_package_handler (r : KeyPackageRequest) : M QsWorld Failure bytes :=
  x ← key_package_row kp_serialize r; mret x.2.
Definition serialize_apq (k : ApqKeyPackage) : option (bytes * bytes) :=
  t ← kp_serialize (t_key_package k);
  pq ← kp_serialize (pq_key_package k);
  Some (t, pq).
Definition apq_key_package_handler (r : KeyPackageRequest) : M QsWorld Failure (bytes * bytes) :=
  x ← key_package_row serialize_apq r; mret x.2.

Definition encryption_key_handler (m : option ClientMetadata) : M QsWorld Failure bytes :=
  _ ← check_version m;
  with_status status_of_encryption_key (qs_encryption_key db_ok).

(** [update_client_activity_and_report_metrics]; the gauges are left out. *)
Definition update_client_activity (id : Uuid) : M QsWorld Failure unit :=
  _ ← statement db_ok (Failed (status Internal));
  w ← get;
  _ ← with_status (fun _ => status Internal) (update_activity_time db_ok id (now (statements w)));
  _ ← user_metrics db_ok now ago (Failed (status Internal));
  mret tt.

(** [listen]: the first message of the stream has to be an init request.  The
    handler starts the listener's stream and records the client's activity. *)
Definition listen (first : option (Result Status (option ListenRequest))) :
    M QsWorld Failure QueueStreamContext :=
  let missing := Failed (status FailedPrecondition) in
  request ← lift (ok_or missing first);
  request ← fail_with request;
  match request with
  | Some (ListenInit r) =>
      _ ← check_version (request_metadata r);
      _ ← lift (ok_or (Failed (status InvalidArgument)) (sr_payload (signed_payload r)));
      p ← verify_client_auth r;
      id ← fail_with (required (ilp_client_id p));
      _ ← with_status (fun _ => status Internal) (track_listener id);
      _ ← try_ (F := Failure) (update_client_activity id);
      mret (stream_init id (ilp_sequence_number_start p))
  | _ => throw missing
  end.

(** [process_listen_queue_request], for the messages after the first. *)
Definition process_listen_queue_request (queue_id : Uuid)
    (request : Result Status (option ListenRequest)) : M QsWorld Failure unit :=
  let internal := fun _ : EnqueueError => status Internal in
  match request with
  | Err _ => throw (Failed (status Internal))
  | Ok (Some (ListenAck n)) => with_status internal (ack db_ok queue_id n)
  | Ok (Some ListenFetch) => with_status internal (trigger_fetch db_ok queue_id)
  | Ok (Some (ListenInit _)) | Ok None => throw (Failed (status InvalidArgument))
  end.

End Requests.
End Handlers.
