(* ===== verification/QsCorrect.v ===== *)
(** * Correctness of the queue service

    Coherence of a client's queue with its ratchet, its preservation by every
    operation, and what follows for fetching, listening and broadcasting. *)

From stdpp Require Import sorting.
From S2P Require Import Prelude Aead Ratchet Messages Qs.

Section Frame.
Context (db_ok : nat -> bool).

Lemma statement_Ok {E} (e : E) w w' : statement db_ok e w = (Ok tt, w') ->
  qdb w' = qdb w /\ listeners w' = listeners w /\ pushed w' = pushed w /\ nonces w' = nonces w.
Proof. unfold statement. destruct (db_ok _); [|discriminate]. intros [= <-]. cbn. auto. Qed.

Lemma statement_Err {E} (e e' : E) w w' : statement db_ok e w = (Err e', w') -> qdb w' = qdb w.
Proof. unfold statement. destruct (db_ok _); [discriminate|]. by intros [= _ <-]. Qed.

Lemma transaction_Err {E A} (e : E) (body : M QsWorld E A) w e' w' :
  transaction db_ok e body w = (Err e', w') -> qdb w' = qdb w.
Proof.
  unfold transaction. destruct ((_ ← statement db_ok e; body) w) as [[a|e1] w1].
  - destruct (statement db_ok e w1) as [[]]; intros [= <- <-]. reflexivity.
  - intros [= <- <-]. reflexivity.
Qed.

Lemma transaction_Ok {E A} (e : E) (body : M QsWorld E A) w a w' :
  transaction db_ok e body w = (Ok a, w') ->
  exists w0 w1, statement db_ok e w = (Ok tt, w0) /\ body w0 = (Ok a, w1) /\
    statement db_ok e w1 = (Ok tt, w').
Proof.
  unfold transaction. destruct ((_ ← statement db_ok e; body) w) as [[a1|e1] w1] eqn:E1;
    [|discriminate].
  destruct (statement db_ok e w1) as [[[]|] w2] eqn:E2; [|discriminate].
  intros [= <- <-]. apply M_bind_Ok in E1 as ([] & w0 & H0 & H1). eauto.
Qed.

End Frame.

(** ** One successful enqueue *)

Definition with_ratchet (row : ClientRow) (b : ClientBlobs) (r : QueueRatchet) : ClientRow :=
  {| row_user_id := row_user_id row; row_push_token := row_push_token row;
     row_blobs := Some {| owner_public_key := owner_public_key b;
                          owner_signature_key := owner_signature_key b; row_ratchet := r |};
     row_activity_time := row_activity_time row; row_deleted_at := row_deleted_at row |}.

(** The tables after message [m] was put into the queue of [c], whose ratchet is
    now [r]. *)
Definition db_enqueued (d : QsDb) (c : Uuid) (row : ClientRow) (b : ClientBlobs)
    (m : QueueMessage) (r : QueueRatchet) : QsDb :=
  set_client_record (<[c := with_ratchet row b r]> (qs_client_record d))
    (add_notified c
       (set_queue_rows (<[(c, as_i64 (qm_sequence_number m)) := to_proto m]> (qs_queues d)) d)).

Definition live_row (d : QsDb) (c : Uuid) (row : ClientRow) (b : ClientBlobs) : Prop :=
  qs_client_record d !! c = Some row /\ is_live row = true /\ row_blobs row = Some b.

Section Enqueue.
Context (db_ok : nat -> bool) (nonce_of : nat -> Result RandomnessErr bytes).
Context `{Hkdf} `{Aes256Gcm} `{TlsCodec bytes} `{TlsCodec QsQueueMessagePayload}.

Lemma load_for_update_Ok id w o w' : load_for_update db_ok id w = (Ok o, w') ->
  qdb w' = qdb w /\ nonces w' = nonces w /\ listeners w' = listeners w /\
  forall rec, o = Some rec -> exists row b, live_row (qdb w) id row b /\
    client_id rec = id /\ ratchet_key rec = row_ratchet b /\
    encrypted_push_token rec = row_push_token row.
Proof.
  unfold load_for_update. intros Hl. bindM Hl as [] w1 Hs. bindM Hl as w0 w2 Hg. leafM Hg.
  apply statement_Ok in Hs as (Hq & Hli & _ & Hn). rewrite Hq in Hl.
  destruct (qs_client_record (qdb w) !! id) as [row|] eqn:Er; [|by leafM Hl].
  destruct (is_live row) eqn:El; [|by leafM Hl].
  destruct (row_blobs row) as [b|] eqn:Eb; leafM Hl.
  split_and!; try done. intros rec [= <-]. exists row, b. done.
Qed.

Lemma queues_enqueue_Ok id m w b w' : queues_enqueue db_ok id m w = (Ok b, w') ->
  let k := (id, as_i64 (proto_sequence_number m)) in
  qs_queues (qdb w) !! k = None /\
  qdb w' = add_notified id (set_queue_rows (<[k := m]> (qs_queues (qdb w))) (qdb w)) /\
  b = match listeners w !! id with Some c => negb (cancelled c) | None => false end.
Proof.
  unfold queues_enqueue, queue_enqueue, pg_notify. cbv zeta. intros Hq.
  bindM Hq as [] w1 Hins. bindM Hq as [] w2 Hnot. bindM Hq as w0 w3 Hg. leafM Hg. leafM Hq.
  bindM Hins as [] w3 Hs. bindM Hins as w0 w5 Hg. leafM Hg.
  bindM Hnot as [] w4 Hs'. leafM Hnot.
  apply statement_Ok in Hs as (Hq1 & Hl1 & _), Hs' as (Hq2 & Hl2 & _). rewrite Hq1 in Hins.
  destruct (qs_queues (qdb w) !! _) eqn:Ek; leafM Hins.
  cbn [set_db set_queues qdb listeners] in *. rewrite Hq2, Hl2. cbn. by rewrite Hl1, Hq1.
Qed.

Lemma update_queue_ratchet_Ok rec w w' row b :
  update_queue_ratchet db_ok rec w = (Ok tt, w') -> live_row (qdb w) (client_id rec) row b ->
  qdb w' = set_client_record
    (<[client_id rec := with_ratchet row b (ratchet_key rec)]> (qs_client_record (qdb w))) (qdb w).
Proof.
  unfold update_queue_ratchet, update_live. intros Hu (Hr & Hlv & Hb).
  bindM Hu as [] w1 Hs. leafM Hu. apply statement_Ok in Hs as (Hq & _). rewrite Hq, Hr, Hlv. cbn. rewrite Hq, Hb. reflexivity.
Qed.

(** A successful [do_enqueue] encrypts under the stored ratchet, inserts exactly
    one row and stores the advanced ratchet. *)
Lemma do_enqueue_Ok id p w rec b w' : do_enqueue db_ok nonce_of id p w = (Ok (rec, b), w') ->
  exists row bl n m r, live_row (qdb w) id row bl /\
    ratchet_encrypt p (nonce_of n) (row_ratchet bl) = (Ok m, r) /\
    qs_queues (qdb w) !! (id, as_i64 (qm_sequence_number m)) = None /\
    qdb w' = db_enqueued (qdb w) id row bl m r.
Proof.
  unfold do_enqueue. intros (w0 & w1 & Hs0 & Hb & Hs1)%transaction_Ok. unfold do_enqueue_body in Hb.
  apply statement_Ok in Hs0 as (Hq0 & _ & _ & Hn0), Hs1 as (Hq1 & _).
  bindM Hb as o w2 Hload. bindM Hb as cr w3 Hcr. leafM Hcr. apply ok_or_Ok in Hcr as ->.
  apply load_for_update_Ok in Hload as (Hq & Hn & _ & Hrec).
  destruct (Hrec _ eq_refl) as (row & bl & Hlive & Hid & Hrk & _). rewrite Hq0 in Hlive.
  bindM Hb as rnd w3 Hrnd. injection Hrnd as <- <-.
  destruct (ratchet_encrypt p (nonce_of (nonces w2)) (ratchet_key cr)) as [res r] eqn:Er.
  bindM Hb as m w3 Hmsg. leafM Hmsg. apply map_err_Ok in Hmsg as ->.
  bindM Hb as lis w4 Hqe. bindM Hb as [] w5 Hup. injection Hb as <- <- <-.
  apply queues_enqueue_Ok in Hqe as (Hnone & Hqd & _). cbn [qdb] in Hnone, Hqd.
  rewrite Hq, Hq0 in Hnone, Hqd.
  apply (update_queue_ratchet_Ok _ _ _ row bl) in Hup.
  2:{ rewrite Hqd. cbn [client_id]. rewrite Hid. destruct Hlive as (? & ? & ?). done. }
  exists row, bl, (nonces w2), m, r. rewrite Hrk in Er.
  split_and!; [done|done|done|]. rewrite Hq1, Hup, Hqd. cbn. by rewrite Hid.
Qed.

End Enqueue.

(** ** Coherence of a queue with its ratchet *)

(** What was enqueued for a client: each payload with the nonce it got. *)
Abbreviation History := (list (QsQueueMessagePayload * Result RandomnessErr bytes)).

(** The queue of a client is left alone: it keeps its messages, and if it is live
    it stays live with the same ratchet. *)
Definition keeps_queue (c : Uuid) (d d' : QsDb) : Prop :=
  (forall row b, live_row d c row b ->
     exists row' b', live_row d' c row' b' /\ row_ratchet b' = row_ratchet b) /\
  forall n, qs_queues d' !! (c, n) = qs_queues d !! (c, n).

#[export] Instance keeps_queue_preorder c : PreOrder (keeps_queue c).
Proof.
  split; [split; eauto|]. intros x y z [Hr1 Hq1] [Hr2 Hq2]. split.
  - intros row b Hl. destruct (Hr1 _ _ Hl) as (row1 & b1 & Hl1 & E1).
    destruct (Hr2 _ _ Hl1) as (row2 & b2 & Hl2 & E2). exists row2, b2. split; [done|congruence].
  - intros n. by rewrite Hq2.
Qed.

Section Coherence.
Context `{Hkdf} `{Aes256Gcm} `{TlsCodec bytes} `{TlsCodec QsQueueMessagePayload}.

(** The queue of client [c] holds exactly the messages from [lo] on of the
    encryptions [ms] of its history, and the stored ratchet is where the
    encryption of the whole history leads. *)
Record coherent (d : QsDb) (c : Uuid) (r0 : QueueRatchet) (hist : History) (lo : nat)
    (ms : list QueueMessage) : Prop := {
  co_start : sequence_number r0 = 0;
  co_bound : Z.of_nat (length hist) < 2 ^ 63;
  co_lo : (lo <= length hist)%nat;
  co_ratchet : exists row b, live_row d c row b /\ encrypt_all hist r0 = (Ok ms, row_ratchet b);
  co_queue : forall n m, qs_queues d !! (c, n) = Some m <->
    exists i m', n = Z.of_nat i /\ (lo <= i)%nat /\ ms !! i = Some m' /\ m = to_proto m'
}.

Lemma encrypt_all_length (ps : History) r ms r' :
  encrypt_all ps r = (Ok ms, r') -> length ms = length ps.
Proof.
  revert r ms; induction ps as [|[p rnd] ps IH]; intros r ms; [by intros [= <- <-]|].
  intros (m & ms' & r1 & -> & _ & Hs)%encrypt_all_cons. cbn. f_equal. by eapply IH.
Qed.

Lemma encrypt_all_snoc (ps : History) p rnd r ms m r1 r2 :
  encrypt_all ps r = (Ok ms, r1) -> ratchet_encrypt p rnd r1 = (Ok m, r2) ->
  encrypt_all (ps ++ [(p, rnd)]) r = (Ok (ms ++ [m]), r2).
Proof.
  revert r ms; induction ps as [|[p' rnd'] ps IH]; intros r ms; cbn [app].
  - intros [= <- <-] Hm. apply encrypt_all_cons. exists m, [], r2. done.
  - intros (m' & ms' & r' & -> & Hm' & Hs)%encrypt_all_cons Hm. apply encrypt_all_cons.
    exists m', (ms' ++ [m]), r'. split_and!; [done|done|]. by eapply IH.
Qed.

Lemma encrypt_all_take k (ps : History) r ms r' :
  encrypt_all ps r = (Ok ms, r') -> exists rk, encrypt_all (take k ps) r = (Ok (take k ms), rk).
Proof.
  revert ps r ms; induction k as [|k IH]; intros ps r ms He; [by exists r|].
  destruct ps as [|[p rnd] ps]; [injection He as <- <-; by exists r|].
  apply encrypt_all_cons in He as (m & ms' & r1 & -> & Hm & Hs).
  destruct (IH ps r1 ms' Hs) as (rk & Hk). exists rk. cbn [take]. apply encrypt_all_cons. eauto 10.
Qed.

Lemma coherent_next d c r0 hist lo ms row bl p rnd m r :
  coherent d c r0 hist lo ms -> live_row d c row bl ->
  ratchet_encrypt p rnd (row_ratchet bl) = (Ok m, r) ->
  qm_sequence_number m = Z.of_nat (length hist) /\ as_i64 (qm_sequence_number m) = Z.of_nat (length ms).
Proof.
  intros [Hs Hb _ (row' & bl' & (Hr' & _ & Hb') & Henc) _] (Hr & _ & Hbl) He.
  rewrite Hr in Hr'. injection Hr' as <-. rewrite Hbl in Hb'. injection Hb' as <-.
  pose proof (encrypt_all_length _ _ _ _ Henc) as Hl.
  destruct (encrypt_all_seq hist r0 ms (row_ratchet bl) ltac:(lia) ltac:(unfold U64; lia) Henc)
    as [_ Hseq].
  apply ratchet_encrypt_Ok in He as (_ & Hq & _).
  rewrite Hq, Hseq, Hs, as_i64_small by lia. split; lia.
Qed.

(** A successful enqueue extends the history by one message. *)
Lemma coherent_enqueue d c r0 hist lo ms row bl p rnd m r :
  coherent d c r0 hist lo ms -> live_row d c row bl ->
  ratchet_encrypt p rnd (row_ratchet bl) = (Ok m, r) ->
  Z.of_nat (S (length hist)) < 2 ^ 63 ->
  coherent (db_enqueued d c row bl m r) c r0 (hist ++ [(p, rnd)]) lo (ms ++ [m]).
Proof.
  intros Hco Hlive He Hbound.
  destruct (coherent_next _ _ _ _ _ _ _ _ _ _ _ _ Hco Hlive He) as [_ Hseq].
  destruct Hco as [Hs Hb Hlo (row' & bl' & (Hr' & _ & Hb') & Henc) Hq].
  destruct Hlive as (Hr & Hlv & Hbl).
  rewrite Hr in Hr'. injection Hr' as <-. rewrite Hbl in Hb'. injection Hb' as <-.
  pose proof (encrypt_all_length _ _ _ _ Henc) as Hl.
  split; [done|rewrite length_app; cbn; lia|rewrite length_app; lia| |].
  - eexists (with_ratchet row bl r), _. split.
    + unfold live_row; cbn. rewrite lookup_insert_eq. done.
    + cbn. by eapply encrypt_all_snoc.
  - intros n m0. cbn [db_enqueued set_client_record set_queue_rows add_notified qs_queues]. rewrite Hseq. split.
    + destruct (decide (n = Z.of_nat (length ms))) as [->|Hn].
      * rewrite lookup_insert_eq. intros [= <-]. exists (length ms), m.
        split_and!; [done|lia| |done]. by rewrite list_lookup_middle.
      * rewrite lookup_insert_ne by congruence. intros (i & m' & -> & Hi & Hm & ->)%Hq.
        exists i, m'. split_and!; [done|done| |done]. by apply lookup_app_l_Some.
    + intros (i & m' & -> & Hi & Hm & ->). apply lookup_app_Some in Hm as [Hm|[Hge Hm]].
      * pose proof (lookup_lt_Some _ _ _ Hm). rewrite lookup_insert_ne by (intros [=]; lia).
        apply Hq. by exists i, m'.
      * apply list_lookup_singleton_Some in Hm as [Hi0 <-].
        replace i with (length ms) by lia. by rewrite lookup_insert_eq.
Qed.

(** Operations that leave the queue alone, such as those on other clients. *)
Lemma coherent_keeps d d' c r0 hist lo ms :
  keeps_queue c d d' -> coherent d c r0 hist lo ms -> coherent d' c r0 hist lo ms.
Proof.
  intros [Hr Hq] [Hs Hb Hlo (row & bl & Hlive & Henc) Hqu]. split; [done..| |].
  - destruct (Hr _ _ Hlive) as (row' & bl' & Hlive' & He). exists row', bl'. by rewrite He.
  - intros n m. rewrite Hq. apply Hqu.
Qed.

Lemma keeps_queue_frame d d' c : qs_client_record d' !! c = qs_client_record d !! c ->
  (forall n, qs_queues d' !! (c, n) = qs_queues d !! (c, n)) -> keeps_queue c d d'.
Proof.
  intros Hc Hq. split; [|done]. intros row b Hl. exists row, b. split; [|done].
  unfold live_row in *. by rewrite Hc.
Qed.

Lemma coherent_frame d d' c r0 hist lo ms :
  qs_client_record d' !! c = qs_client_record d !! c ->
  (forall n, qs_queues d' !! (c, n) = qs_queues d !! (c, n)) ->
  coherent d c r0 hist lo ms -> coherent d' c r0 hist lo ms.
Proof. intros Hc Hq. by apply coherent_keeps, keeps_queue_frame. Qed.

Lemma coherent_other d c r0 hist lo ms id row bl m r : c <> id ->
  coherent d c r0 hist lo ms -> coherent (db_enqueued d id row bl m r) c r0 hist lo ms.
Proof.
  intros Hne. apply coherent_frame; cbn.
  - by rewrite lookup_insert_ne.
  - intros n. rewrite lookup_insert_ne; [done|congruence].
Qed.

(** Acknowledging drops a prefix. *)
Lemma coherent_ack d d' c r0 hist lo ms (n : nat) :
  coherent d c r0 hist lo ms -> (n <= length hist)%nat ->
  qs_client_record d' = qs_client_record d ->
  qs_queues d' = filter (fun x => ~ (x.1.1 = c /\ x.1.2 < as_i64 (Z.of_nat n))) (qs_queues d) ->
  coherent d' c r0 hist (Nat.max lo n) ms.
Proof.
  intros [Hs Hb Hlo (row & bl & Hlive & Henc) Hq] Hn Hc Hqs.
  split; [done|done|lia| |].
  - exists row, bl. split; [|done]. unfold live_row in *. by rewrite Hc.
  - intros k m. rewrite Hqs, map_lookup_filter_Some, Hq, as_i64_small by lia. cbn. split.
    + intros [(i & m' & -> & Hi & Hm & ->) Hno]. exists i, m'.
      split_and!; [done| |done|done]. destruct (decide (Z.of_nat i < Z.of_nat n)); [|lia].
      exfalso. apply Hno. done.
    + intros (i & m' & -> & Hi & Hm & ->). split; [exists i, m'; split_and!; (done || lia)|].
      intros [_ Hlt]. lia.
Qed.

End Coherence.

(** ** Fetching *)

(** The rows of the messages [l] with sequence numbers from [k] on. *)
Definition rows (c : Uuid) (k : nat) (l : list QueueMessage) : list ((Uuid * Z) * ProtoQueueMessage) :=
  imap (fun j m => ((c, Z.of_nat (k + j)), to_proto m)) l.

Lemma elem_of_rows c k l x : x ∈ rows c k l <->
  exists j m, l !! j = Some m /\ x = ((c, Z.of_nat (k + j)), to_proto m).
Proof.
  unfold rows. rewrite elem_of_lookup_imap.
  split; intros (j & m & Ha & Hb); exists j, m; by split.
Qed.

Lemma map_snd_rows c k l : map snd (rows c k l) = map to_proto l.
Proof.
  unfold rows. apply list_eq. intros i.
  rewrite !list_lookup_fmap, list_lookup_imap. by destruct (l !! i).
Qed.

Lemma NoDup_rows c k l : NoDup (rows c k l).
Proof.
  apply NoDup_alt. intros i j x. unfold rows. rewrite !list_lookup_imap.
  destruct (l !! i), (l !! j); cbn; intros [= <-] [=]. lia.
Qed.

Lemma Sorted_rows c k l : Sorted seq_le (rows c k l).
Proof.
  revert k; induction l as [|m l IH]; intros k; unfold rows; cbn; constructor.
  - rewrite (imap_ext _ (fun j m => ((c, Z.of_nat (S k + j)), to_proto m)) l).
    + apply IH.
    + intros i x _. cbn. do 3 f_equal. lia.
  - destruct l as [|m' l]; cbn; constructor. unfold seq_le; cbn. lia.
Qed.

#[local] Instance seq_le_trans : Transitive seq_le.
Proof. intros x y z. unfold seq_le. lia. Qed.
#[local] Instance seq_le_total : Total seq_le.
Proof. intros x y. unfold seq_le. lia. Qed.

Section FetchLemmas.
Context `{Hkdf} `{Aes256Gcm} `{TlsCodec bytes} `{TlsCodec QsQueueMessagePayload}.

Lemma select_from_rows d c r0 hist lo ms n : coherent d c r0 hist lo ms -> 0 <= n ->
  let k := Nat.max lo (Z.to_nat n) in
  select_from d c n ≡ₚ rows c k (drop k ms).
Proof.
  intros Hco Hn k. apply NoDup_Permutation.
  - apply NoDup_filter, NoDup_map_to_list.
  - apply NoDup_rows.
  - intros [[c' n'] m]. unfold select_from.
    rewrite list_elem_of_filter, elem_of_map_to_list, elem_of_rows. cbn. split.
    + intros [[-> Hle] (i & m' & -> & Hi & Hm & ->)%(co_queue _ _ _ _ _ _ Hco)].
      exists (i - k)%nat, m'. rewrite lookup_drop.
      replace (k + (i - k))%nat with i by lia. done.
    + intros (j & m' & Hm & [= -> -> ->]). rewrite lookup_drop in Hm.
      split; [split; [done|lia]|]. apply (co_queue _ _ _ _ _ _ Hco).
      exists (k + j)%nat, m'. split_and!; (done || lia).
Qed.

(** A page of the queue is the page of the encrypted history. *)
Lemma fetch_into_coherent d c r0 hist lo ms n limit :
  coherent d c r0 hist lo ms -> 0 <= n < 2 ^ 63 ->
  fetch_into c n limit d = map to_proto (take limit (drop (Nat.max lo (Z.to_nat n)) ms)).
Proof.
  intros Hco Hn. unfold fetch_into. rewrite as_i64_small by lia.
  set (k := Nat.max lo (Z.to_nat n)).
  assert (merge_sort seq_le (select_from d c n) = rows c k (drop k ms)) as ->.
  { pose proof (select_from_rows d c r0 hist lo ms n Hco ltac:(lia)) as Hp. fold k in Hp.
    apply (Sorted_unique_strong seq_le).
    - intros x y. unfold seq_le. intros Hx Hy. rewrite merge_sort_Permutation, Hp in Hx.
      apply elem_of_rows in Hx as (i & m & Hm & ->), Hy as (j & m' & Hm' & ->). cbn.
      intros Hij Hji. assert (i = j) as <- by lia. congruence.
    - apply Sorted_merge_sort, _.
    - apply Sorted_rows.
    - by rewrite merge_sort_Permutation. }
  by rewrite <- firstn_map, map_snd_rows, firstn_map.
Qed.

End FetchLemmas.

(** ** Runs of a listener *)

Section Runs.
Context (db_ok : nat -> bool) (nonce_of : nat -> Result RandomnessErr bytes).
Context `{Hkdf} `{Aes256Gcm} `{TlsCodec bytes} `{TlsCodec QsQueueMessagePayload}.
Context (c : Uuid) (start : nat).

(** A server state, the listener of client [c] and the messages it has yielded. *)
Record RunState := { rs_world : QsWorld; rs_ctx : QueueStreamContext; rs_out : list ProtoQueueMessage }.

(** The listener takes turns with enqueues for any client, acknowledgements of any
    client, and any other activity that leaves the queue of [c] alone; client [c]
    acknowledges only what it received.  Sequence numbers stay below [2^63]. *)
Inductive run_step : RunState -> RunState -> Prop :=
| run_enqueue w w' ctx out id p res :
    do_enqueue db_ok nonce_of id p w = (res, w') ->
    (forall row b, live_row (qdb w) id row b -> sequence_number (row_ratchet b) < 2 ^ 63 - 1) ->
    run_step {| rs_world := w; rs_ctx := ctx; rs_out := out |}
             {| rs_world := w'; rs_ctx := ctx; rs_out := out |}
| run_ack w w' ctx out id n res :
    ack db_ok id (Z.of_nat n) w = (res, w') ->
    (id = c -> (n <= start + length out)%nat) ->
    run_step {| rs_world := w; rs_ctx := ctx; rs_out := out |}
             {| rs_world := w'; rs_ctx := ctx; rs_out := out |}
| run_other w w' ctx out :
    keeps_queue c (qdb w) (qdb w') ->
    run_step {| rs_world := w; rs_ctx := ctx; rs_out := out |}
             {| rs_world := w'; rs_ctx := ctx; rs_out := out |}
| run_yield w ctx ctx' out cancel up wake m :
    stream_turn ctx (qdb w) cancel up wake = Yield (Some m) ctx' ->
    run_step {| rs_world := w; rs_ctx := ctx; rs_out := out |}
             {| rs_world := w; rs_ctx := ctx'; rs_out := out ++ [m] |}
| run_empty w ctx ctx' out cancel up wake :
    stream_turn ctx (qdb w) cancel up wake = Yield None ctx' ->
    run_step {| rs_world := w; rs_ctx := ctx; rs_out := out |}
             {| rs_world := w; rs_ctx := ctx'; rs_out := out |}
| run_again w ctx ctx' out cancel up wake :
    stream_turn ctx (qdb w) cancel up wake = Again ctx' ->
    run_step {| rs_world := w; rs_ctx := ctx; rs_out := out |}
             {| rs_world := w; rs_ctx := ctx'; rs_out := out |}.

(** What is yielded and buffered is a segment of the encrypted history that starts
    at [start]; nothing that is still to be fetched has been acknowledged. *)
Definition segment (r0 : QueueRatchet) (hist : History) (lo : nat) (ms : list QueueMessage)
    (s : RunState) : Prop :=
  let n := (length (rs_out s) + length (sc_buffer (rs_ctx s)))%nat in
  coherent (qdb (rs_world s)) c r0 hist lo ms /\
  sc_client_id (rs_ctx s) = c /\
  (lo <= start + length (rs_out s))%nat /\
  (start + n <= length ms)%nat /\
  sc_sequence_number (rs_ctx s) = Z.of_nat (start + n) /\
  rs_out s ++ sc_buffer (rs_ctx s) = map to_proto (take n (drop start ms)).
Definition run_inv (r0 : QueueRatchet) (s : RunState) : Prop :=
  exists hist lo ms, segment r0 hist lo ms s.

Lemma coherent_seq d r0 hist lo ms i m :
  coherent d c r0 hist lo ms -> ms !! i = Some m -> qm_sequence_number m = Z.of_nat i.
Proof.
  intros [Hs Hb _ (row & bl & _ & Henc) _] Hm.
  pose proof (encrypt_all_length _ _ _ _ Henc) as Hl.
  destruct (encrypt_all_seq hist r0 ms (row_ratchet bl) ltac:(lia) ltac:(unfold U64; lia) Henc)
    as [Hmap _].
  pose proof (lookup_lt_Some _ _ _ Hm).
  apply (f_equal (fun l => l !! i)) in Hmap. rewrite !list_lookup_fmap, Hm in Hmap.
  rewrite lookup_seq_lt in Hmap by lia. cbn in Hmap. injection Hmap as ->. lia.
Qed.

(** Extending the history keeps the segment. *)
Lemma take_drop_app {A} n k (l l' : list A) : (k + n <= length l)%nat ->
  take n (drop k (l ++ l')) = take n (drop k l).
Proof.
  intros Hn. rewrite drop_app_le by lia. rewrite take_app_le; [done|]. rewrite length_drop. lia.
Qed.

Lemma run_inv_enqueue r0 w w' ctx out id p res :
  do_enqueue db_ok nonce_of id p w = (res, w') ->
  (forall row b, live_row (qdb w) id row b -> sequence_number (row_ratchet b) < 2 ^ 63 - 1) ->
  run_inv r0 {| rs_world := w; rs_ctx := ctx; rs_out := out |} ->
  run_inv r0 {| rs_world := w'; rs_ctx := ctx; rs_out := out |}.
Proof.
  intros Hen Hseq (hist & lo & ms & Hco & Hid & Hlo & Hn & Hsn & Hseg).
  cbn [rs_world rs_ctx rs_out] in *. unfold run_inv, segment; cbn [rs_world rs_ctx rs_out].
  destruct res as [[rec b]|e].
  2:{ apply transaction_Err in Hen. rewrite Hen. exists hist, lo, ms. done. }
  apply do_enqueue_Ok in Hen as (row & bl & n & m & r & Hlive & He & Hnone & ->).
  destruct (decide (c = id)) as [<-|Hne].
  - destruct (coherent_next _ _ _ _ _ _ _ _ _ _ _ _ Hco Hlive He) as [Hq _].
    pose proof (Hseq _ _ Hlive) as Hb.
    pose proof He as (_ & Hq' & _)%ratchet_encrypt_Ok.
    exists (hist ++ [(p, nonce_of n)]), lo, (ms ++ [m]). split_and!; try done.
    + apply coherent_enqueue; try done. lia.
    + rewrite length_app. lia.
    + rewrite take_drop_app by lia. done.
  - exists hist, lo, ms. split_and!; try done. by apply coherent_other.
Qed.

Lemma run_inv_ack r0 w w' ctx out id n res :
  ack db_ok id (Z.of_nat n) w = (res, w') -> (id = c -> (n <= start + length out)%nat) ->
  run_inv r0 {| rs_world := w; rs_ctx := ctx; rs_out := out |} ->
  run_inv r0 {| rs_world := w'; rs_ctx := ctx; rs_out := out |}.
Proof.
  intros Hack Hle (hist & lo & ms & Hco & Hid & Hlo & Hn & Hsn & Hseg).
  cbn [rs_world rs_ctx rs_out] in *. unfold run_inv, segment; cbn [rs_world rs_ctx rs_out].
  unfold ack, queue_delete, mbind, M_bind in Hack.
  destruct (statement db_ok EnqueueStorage w) as [[[]|e] w1] eqn:Es.
  2:{ injection Hack as <- <-. apply statement_Err in Es. rewrite Es. exists hist, lo, ms. done. }
  apply statement_Ok in Es as (Hq & _). injection Hack as <- <-. cbn [set_queues set_db qdb].
  destruct (decide (id = c)) as [->|Hne].
  - specialize (Hle eq_refl). exists hist, (Nat.max lo n), ms. split_and!; try done; [|lia].
    eapply coherent_ack; [exact Hco| |cbn; by rewrite Hq|cbn; by rewrite Hq].
    destruct Hco as [_ _ _ (row & bl & _ & Henc) _].
    pose proof (encrypt_all_length _ _ _ _ Henc). lia.
  - exists hist, lo, ms. split_and!; try done. eapply coherent_frame; [| |exact Hco]; cbn; rewrite Hq.
    + done.
    + intros k. apply option_eq. intros m. rewrite map_lookup_filter_Some. cbn.
      split; [by intros [? _]|]. intros Hm. split; [done|]. by intros [<- _].
Qed.

(** A fetch continues the segment where it ended. *)
Lemma segment_fetch r0 hist lo ms w ctx ctx' out up :
  sc_buffer ctx = [] -> fetch_next_messages ctx up (qdb w) = Some ctx' ->
  segment r0 hist lo ms {| rs_world := w; rs_ctx := ctx; rs_out := out |} ->
  segment r0 hist lo ms {| rs_world := w; rs_ctx := ctx'; rs_out := out |} /\
  sc_buffer ctx' = map to_proto (take MAX_BUFFER_SIZE (drop (start + length out) ms)) /\
  sc_state ctx' = sc_state ctx.
Proof.
  intros Hbuf Hf (Hco & Hid & Hlo & Hn & Hsn & Hseg).
  cbn [rs_world rs_ctx rs_out] in *. rewrite Hbuf in *. cbn [length] in *.
  rewrite Nat.add_0_r, app_nil_r in *. unfold fetch_next_messages in Hf.
  destruct up; [|discriminate]. rewrite Hid, Hbuf, Hsn in Hf. cbn [app] in Hf.
  assert (Z.of_nat (length ms) < 2 ^ 63) as Hms.
  { destruct Hco as [_ Hb _ (row & bl & _ & Henc) _].
    by rewrite (encrypt_all_length _ _ _ _ Henc). }
  rewrite (fetch_into_coherent _ _ _ _ _ _ _ _ Hco) in Hf by lia.
  replace (Nat.max lo (Z.to_nat (Z.of_nat (start + length out))))
    with (start + length out)%nat in Hf by lia.
  set (page := take MAX_BUFFER_SIZE (drop (start + length out) ms)) in *.
  assert (length page <= length ms - (start + length out))%nat as Hpage.
  { unfold page. rewrite length_take, length_drop. lia. }
  assert (page = take (length page) (drop (start + length out) ms)) as Hpg.
  { unfold page at 2. rewrite length_take, length_drop. unfold page.
    destruct (decide (MAX_BUFFER_SIZE <= length ms - (start + length out))%nat).
    - f_equal. lia.
    - rewrite !take_ge; [done| |]; rewrite length_drop; lia. }
  injection Hf as <-. split; [|done]. unfold segment. cbn [rs_world rs_ctx rs_out sc_client_id
    sc_buffer sc_sequence_number]. rewrite length_fmap. split_and!; try done; [lia| |].
  - destruct (last page) as [m|] eqn:El.
    + rewrite fmap_last, El. cbn [fmap option_fmap option_map to_proto proto_sequence_number].
      rewrite last_lookup in El.
      assert (ms !! (start + length out + pred (length page))%nat = Some m) as Hm.
      { unfold page in El at 1. apply lookup_take_Some in El as [El _].
        by rewrite lookup_drop in El. }
      rewrite (coherent_seq _ _ _ _ _ _ _ Hco Hm).
      destruct (length page) as [|k] eqn:Ek; [apply lookup_lt_Some in El; lia|].
      cbn [Init.Nat.pred]. rewrite wrap_u64_small by (unfold U64; lia). lia.
    + apply last_None in El. rewrite El. cbn. lia.
  - rewrite Hseg, Hpg at 1. rewrite <- map_app. f_equal.
    rewrite <- drop_drop. apply take_take_drop.
Qed.

Lemma run_inv_fetch r0 w ctx ctx' out up :
  sc_buffer ctx = [] -> fetch_next_messages ctx up (qdb w) = Some ctx' ->
  run_inv r0 {| rs_world := w; rs_ctx := ctx; rs_out := out |} ->
  run_inv r0 {| rs_world := w; rs_ctx := ctx'; rs_out := out |}.
Proof.
  intros Hb Hf (hist & lo & ms & Hs). exists hist, lo, ms.
  by destruct (segment_fetch _ _ _ _ _ _ _ _ _ Hb Hf Hs).
Qed.

Lemma run_inv_turn r0 s s' : run_step s s' -> run_inv r0 s -> run_inv r0 s'.
Proof.
  destruct 1 as [w w' ctx out id p res Hen Hseq|w w' ctx out id n res Ha Hle
    |w w' ctx out Hk|w ctx ctx' out cancel up wake m Ht|w ctx ctx' out cancel up wake Ht
    |w ctx ctx' out cancel up wake Ht]; intros Hinv.
  - by eapply run_inv_enqueue.
  - by eapply run_inv_ack.
  - destruct Hinv as (hist & lo & ms & Hco & Hrest). exists hist, lo, ms.
    split; [|exact Hrest]. by eapply coherent_keeps.
  - unfold stream_turn in Ht. destruct (sc_buffer ctx) as [|m0 rest] eqn:Eb.
    + destruct (_ && _); [discriminate|]. destruct (sc_state ctx); try discriminate.
      * destruct (fetch_next_messages ctx up (qdb w)) as [c1|]; [|discriminate].
        destruct (sc_buffer c1); discriminate.
      * destruct wake; discriminate.
    + injection Ht as <- <-. destruct Hinv as (hist & lo & ms & Hco & Hid & Hlo & Hn & Hsn & Hseg).
      cbn [rs_world rs_ctx rs_out] in *. rewrite Eb in *. cbn [length] in *.
      exists hist, lo, ms. unfold segment.
      cbn [rs_world rs_ctx rs_out sc_client_id sc_buffer sc_sequence_number]. rewrite length_app. cbn [length]. rewrite <- app_assoc. cbn [app].
      split_and!; try done; try lia. rewrite Hseg. do 2 f_equal. lia.
  - unfold stream_turn in Ht. destruct (sc_buffer ctx) as [|m0 rest] eqn:Eb; [|discriminate].
    destruct (_ && _); [discriminate|]. destruct (sc_state ctx); try discriminate.
    + destruct (fetch_next_messages ctx up (qdb w)) as [c1|] eqn:Ef; [|discriminate].
      destruct (sc_buffer c1); [|discriminate]. injection Ht as <-.
      eapply run_inv_fetch in Hinv; [|exact Eb|exact Ef]. exact Hinv.
    + destruct wake; discriminate.
  - unfold stream_turn in Ht. destruct (sc_buffer ctx) as [|m0 rest] eqn:Eb; [|discriminate].
    destruct (_ && _); [discriminate|]. destruct (sc_state ctx).
    + injection Ht as <-. exact Hinv.
    + destruct (fetch_next_messages ctx up (qdb w)) as [c1|] eqn:Ef; [|discriminate].
      destruct (sc_buffer c1) eqn:E1; [discriminate|]. injection Ht as <-.
      by eapply run_inv_fetch in Hinv.
    + destruct wake; [|discriminate]. injection Ht as <-. exact Hinv.
Qed.

Lemma run_inv_reachable r0 s s' : rtc run_step s s' -> run_inv r0 s -> run_inv r0 s'.
Proof. induction 1; [done|]. intros Hinv. by eauto using run_inv_turn. Qed.

Lemma run_inv_init r0 hist lo ms w : coherent (qdb w) c r0 hist lo ms ->
  (lo <= start <= length hist)%nat ->
  run_inv r0 {| rs_world := w; rs_ctx := stream_init c (Z.of_nat start); rs_out := [] |}.
Proof.
  intros Hco Hlo. exists hist, lo, ms. unfold segment. cbn.
  pose proof Hco as [_ _ _ (row & b & _ & Henc) _].
  pose proof (encrypt_all_length _ _ _ _ Henc) as Hl. split_and!; try done; try lia.
Qed.

(** The listener's turns while it is not cancelled, the database answers and it is
    notified, up to the next message. *)
Fixpoint poll (fuel : nat) (ctx : QueueStreamContext) (d : QsDb) :
    option (ProtoQueueMessage * QueueStreamContext) :=
  match fuel with
  | O => None
  | S fuel =>
      match stream_turn ctx d false true true with
      | Yield (Some m) ctx => Some (m, ctx)
      | Yield None ctx | Again ctx => poll fuel ctx d
      | Stop => None
      end
  end.

(** A buffered message is the next one of the history. *)
Lemma segment_next r0 hist lo ms w ctx out p rest :
  segment r0 hist lo ms {| rs_world := w; rs_ctx := ctx; rs_out := out |} ->
  sc_buffer ctx = p :: rest -> exists m, ms !! (start + length out)%nat = Some m /\ p = to_proto m.
Proof.
  intros (_ & _ & _ & _ & _ & Hseg) Hb. cbn [rs_ctx rs_out] in Hseg. rewrite Hb in Hseg.
  apply (f_equal (fun l => l !! length out)) in Hseg.
  rewrite list_lookup_middle, list_lookup_fmap in Hseg by done. symmetry in Hseg.
  apply fmap_Some in Hseg as (m & [Hm _]%lookup_take_Some & ->). rewrite lookup_drop in Hm. by exists m.
Qed.

Lemma poll_fetch r0 hist lo ms w ctx out fuel m :
  segment r0 hist lo ms {| rs_world := w; rs_ctx := ctx; rs_out := out |} ->
  sc_buffer ctx = [] -> sc_state ctx = Fetch -> ms !! (start + length out)%nat = Some m ->
  exists ctx', poll (S (S fuel)) ctx (qdb w) = Some (to_proto m, ctx').
Proof.
  intros Hs Hb Hst Hm. cbn [poll]. unfold stream_turn at 1. rewrite Hb, Hst. cbn [andb].
  destruct (fetch_next_messages ctx true (qdb w)) as [c1|] eqn:Ef; [|done].
  destruct (segment_fetch _ _ _ _ _ _ _ _ _ Hb Ef Hs) as (Hs1 & Hb1 & _).
  destruct (drop (start + length out) ms) as [|m' l] eqn:Ed.
  { apply (f_equal (fun l => l !! 0%nat)) in Ed. rewrite lookup_drop, Nat.add_0_r, Hm in Ed. done. }
  cbn in Hb1. rewrite Hb1. unfold stream_turn. rewrite Hb1.
  destruct (segment_next _ _ _ _ _ _ _ _ _ Hs1 Hb1) as (m1 & Hm1 & ->).
  rewrite Hm in Hm1. injection Hm1 as ->. eauto.
Qed.

(** A message that was enqueued and not yet yielded comes next, after at most
    three turns. *)
Lemma poll_next r0 hist lo ms s m :
  segment r0 hist lo ms s -> ms !! (start + length (rs_out s))%nat = Some m ->
  exists ctx', poll 3 (rs_ctx s) (qdb (rs_world s)) = Some (to_proto m, ctx').
Proof.
  destruct s as [w ctx out]. cbn [rs_world rs_ctx rs_out]. intros Hs Hm.
  destruct (sc_buffer ctx) as [|p rest] eqn:Eb.
  - destruct (sc_state ctx) eqn:Est.
    + cbn [poll]. unfold stream_turn at 1. rewrite Eb, Est. cbn [andb].
      eapply (poll_fetch _ _ _ _ _ (set_state Fetch ctx) _ 0); [exact Hs|exact Eb|done|exact Hm].
    + by eapply poll_fetch.
    + cbn [poll]. unfold stream_turn at 1. rewrite Eb, Est. cbn [andb].
      eapply (poll_fetch _ _ _ _ _ (set_state Fetch ctx) _ 0); [exact Hs|exact Eb|done|exact Hm].
  - cbn [poll]. unfold stream_turn. rewrite Eb.
    destruct (segment_next _ _ _ _ _ _ _ _ _ Hs Eb) as (m1 & Hm1 & ->).
    rewrite Hm in Hm1. injection Hm1 as ->. eauto.
Qed.

End Runs.

(** ** Progress, when the database is up *)

Section Progress.
Context (db_ok : nat -> bool) (nonce_of : nat -> Result RandomnessErr bytes).
Context (push : bytes -> Result PushNotificationError unit).
Context `{Hkdf} `{Aes256Gcm} `{TlsCodec bytes} `{TlsCodec QsQueueMessagePayload}.
Context (Hup : forall n, db_ok n = true).

Lemma statement_up {E} (e : E) w : exists w', statement db_ok e w = (Ok tt, w') /\
  qdb w' = qdb w /\ listeners w' = listeners w /\ nonces w' = nonces w.
Proof. unfold statement. rewrite Hup. eexists; split; [reflexivity|]. done. Qed.

Lemma transaction_up {E A} (e : E) (body : M QsWorld E A) w :
  (forall w0, qdb w0 = qdb w -> nonces w0 = nonces w -> exists a w1, body w0 = (Ok a, w1)) ->
  exists a w', transaction db_ok e body w = (Ok a, w').
Proof.
  intros Hb. unfold transaction, mbind, M_bind.
  destruct (statement_up e w) as (w0 & -> & Hq & _ & Hn).
  destruct (Hb w0 Hq Hn) as (a & w1 & ->).
  destruct (statement_up e w1) as (w2 & -> & _). eauto.
Qed.

Lemma load_for_update_up id w row b : live_row (qdb w) id row b ->
  exists w', load_for_update db_ok id w =
    (Ok (Some {| user_id := row_user_id row; client_id := id;
                 encrypted_push_token := row_push_token row;
                 queue_encryption_key := owner_public_key b;
                 auth_key := owner_signature_key b; ratchet_key := row_ratchet b;
                 activity_time := row_activity_time row |}), w') /\
    qdb w' = qdb w /\ nonces w' = nonces w.
Proof.
  intros (Hr & Hl & Hb). unfold load_for_update, mbind, M_bind.
  destruct (statement_up EnqueueStorage w) as (w1 & -> & Hq & _ & Hn).
  cbn. rewrite Hq, Hr, Hl, Hb. eauto.
Qed.

Lemma queues_enqueue_up id m w : qs_queues (qdb w) !! (id, as_i64 (proto_sequence_number m)) = None ->
  exists b w', queues_enqueue db_ok id m w = (Ok b, w').
Proof.
  intros Hn. unfold queues_enqueue, queue_enqueue, pg_notify, mbind, M_bind.
  destruct (statement_up EnqueueStorage w) as (w1 & -> & Hq & _). cbn. rewrite Hq, Hn. cbn.
  match goal with |- context [statement db_ok EnqueueStorage ?x] =>
    destruct (statement_up EnqueueStorage x) as (w2 & -> & _) end.
  cbn. eauto.
Qed.

Lemma update_live_up id f w : exists w', update_live db_ok id f w = (Ok tt, w').
Proof.
  unfold update_live, mbind, M_bind.
  destruct (statement_up EnqueueStorage w) as (w1 & -> & _). cbn. eauto.
Qed.

Lemma do_enqueue_up id p w row b m r : live_row (qdb w) id row b ->
  ratchet_encrypt p (nonce_of (nonces w)) (row_ratchet b) = (Ok m, r) ->
  qs_queues (qdb w) !! (id, as_i64 (qm_sequence_number m)) = None ->
  exists x w', do_enqueue db_ok nonce_of id p w = (Ok x, w').
Proof.
  intros Hlive He Hn. apply transaction_up. intros w1 Hq1 Hn1.
  rewrite <- Hq1 in Hlive, Hn. rewrite <- Hn1 in He. unfold do_enqueue_body.
  destruct (load_for_update_up id w1 row b Hlive) as (w2 & Hl & Hq2 & Hn2).
  unfold mbind at 1, M_bind at 1. rewrite Hl. rewrite <- Hn2 in He.
  unfold mbind at 1, M_bind at 1, lift at 1. cbn [ok_or].
  unfold mbind at 1, M_bind at 1, next_nonce at 1. cbn [ratchet_key]. rewrite He.
  unfold mbind at 1, M_bind at 1, lift at 1. cbn [map_err].
  unfold mbind at 1, M_bind at 1.
  match goal with |- context [queues_enqueue db_ok id (to_proto m) ?x] =>
    destruct (queues_enqueue_up id (to_proto m) x) as (lis & w3 & ->);
    [cbn; rewrite Hq2; exact Hn|] end.
  unfold mbind at 1, M_bind at 1, update_queue_ratchet.
  match goal with |- context [update_live db_ok ?i ?f ?x] =>
    destruct (update_live_up i f x) as (w4 & ->) end. cbn. eauto.
Qed.

End Progress.

(** ** Fan-out to a set of clients *)

Section FanOut.
Context (db_ok : nat -> bool) (nonce_of : nat -> Result RandomnessErr bytes).
Context (push : bytes -> Result PushNotificationError unit).
Context `{Hkdf} `{Aes256Gcm} `{TlsCodec bytes} `{TlsCodec QsQueueMessagePayload}.

(** [p] was put into the queue of [id]; its push token may have been dropped. *)
Definition enqueued (d : QsDb) (id : Uuid) (p : QsQueueMessagePayload) (d' : QsDb) : Prop :=
  exists row bl rnd m r row' bl',
    live_row d id row bl /\ ratchet_encrypt p rnd (row_ratchet bl) = (Ok m, r) /\
    is_live row' = true /\ row_blobs row' = Some bl' /\ row_ratchet bl' = r /\
    row_user_id row' = row_user_id row /\
    qs_client_record d' = <[id := row']> (qs_client_record d) /\
    qs_queues d' = <[(id, as_i64 (qm_sequence_number m)) := to_proto m]> (qs_queues d).

Lemma coherent_enqueued_same d id p d' r0 hist lo ms :
  enqueued d id p d' -> coherent d id r0 hist lo ms -> Z.of_nat (S (length hist)) < 2 ^ 63 ->
  exists rnd m, coherent d' id r0 (hist ++ [(p, rnd)]) lo (ms ++ [m]).
Proof.
  intros (row & bl & rnd & m & r & row' & bl' & Hlive & He & Hl' & Hb' & Hr' & _ & Hc & Hq) Hco Hb.
  exists rnd, m. pose proof (coherent_enqueue _ _ _ _ _ _ _ _ _ _ _ _ Hco Hlive He Hb) as Hco'.
  destruct Hco' as [Hs Hbd Hlo (row1 & bl1 & (Hr1 & _ & Hb1) & Henc) Hqu].
  cbn in Hr1. rewrite lookup_insert_eq in Hr1. injection Hr1 as <-. cbn in Hb1. injection Hb1 as <-.
  cbn in Henc. split; [done..| |].
  - exists row', bl'. split; [|by rewrite Hr']. unfold live_row. by rewrite Hc, lookup_insert_eq.
  - intros n m0. rewrite Hq. apply Hqu.
Qed.

Lemma enqueued_other d id p d' c : enqueued d id p d' -> c <> id ->
  qs_client_record d' !! c = qs_client_record d !! c /\
  forall n, qs_queues d' !! (c, n) = qs_queues d !! (c, n).
Proof.
  intros (row & bl & rnd & m & r & row' & bl' & _ & _ & _ & _ & _ & _ & -> & ->) Hne. split.
  - by rewrite lookup_insert_ne.
  - intros n. rewrite lookup_insert_ne; [done|congruence].
Qed.

Lemma do_enqueue_enqueued id p w x w' :
  do_enqueue db_ok nonce_of id p w = (Ok x, w') -> enqueued (qdb w) id p (qdb w').
Proof.
  destruct x as [rec b].
  intros (row & bl & n & m & r & Hlive & He & _ & ->)%do_enqueue_Ok.
  exists row, bl, (nonce_of n), m, r, (with_ratchet row bl r),
    {| owner_public_key := owner_public_key bl; owner_signature_key := owner_signature_key bl;
       row_ratchet := r |}.
  split_and!; try done. by destruct Hlive as (_ & ? & _).
Qed.

(** Dropping a push token afterwards does not matter. *)
Lemma enqueued_delete_push_token d id p w rec res w' :
  enqueued d id p (qdb w) -> client_id rec = id ->
  delete_push_token db_ok rec w = (res, w') -> enqueued d id p (qdb w').
Proof.
  unfold delete_push_token, update_live, mbind, M_bind. intros Hen Hid Hd.
  destruct (encrypted_push_token rec) as [t|]; [|by injection Hd as <- <-].
  destruct (statement db_ok EnqueueStorage w) as [[[]|e] w1] eqn:Es.
  2:{ injection Hd as <- <-. apply statement_Err in Es. by rewrite Es. }
  apply statement_Ok in Es as (Hq & _). injection Hd as <- <-. rewrite Hq, Hid.
  destruct Hen as (row & bl & rnd & m & r & row' & bl' & Hl & He & Hl' & Hb' & Hr' & Hu & Hc & Hqs).
  rewrite Hc, lookup_insert_eq, Hl'. cbn. rewrite Hq.
  rewrite insert_insert_eq.
  case_decide; [|exists row, bl, rnd, m, r, row', bl'; split_and!; done].
  exists row, bl, rnd, m, r, {| row_user_id := row_user_id row'; row_push_token := None;
    row_blobs := row_blobs row'; row_activity_time := row_activity_time row';
    row_deleted_at := row_deleted_at row' |}, bl'. split_and!; done.
Qed.

(** [enqueue] of a queue message either leaves the tables alone or enqueues. *)
Lemma enqueue_db id p k w res w' :
  enqueue db_ok nonce_of push id (FanOutQueueMessage p) k w = (res, w') ->
  if is_ok (fst (do_enqueue db_ok nonce_of id p w))
  then enqueued (qdb w) id p (qdb w') else qdb w' = qdb w.
Proof.
  unfold enqueue. unfold mbind at 1, M_bind at 1.
  destruct (do_enqueue db_ok nonce_of id p w) as [[x|e] w1] eqn:Ed.
  2:{ intros [= <- <-]. by eapply transaction_Err. }
  pose proof (do_enqueue_enqueued _ _ _ _ _ Ed) as Hen. destruct x as [rec lis].
  assert (client_id rec = id) as Hid.
  { apply transaction_Ok in Ed as (w2 & w3 & _ & Hb & _). unfold do_enqueue_body in Hb.
    bindM Hb as o w4 Hload. bindM Hb as cr w5 Hcr. leafM Hcr. apply ok_or_Ok in Hcr as ->.
    apply load_for_update_Ok in Hload as (_ & _ & _ & Hrec).
    destruct (Hrec _ eq_refl) as (_ & _ & _ & <- & _).
    bindM Hb as rnd w6 Hrnd. destruct (ratchet_encrypt _ _ _). bindM Hb as m w7 Hmm.
    bindM Hb as l w8 Hq. bindM Hb as [] w9 Hu. by injection Hb as <- _ _. }
  intros Hres. cbn [fst is_ok]. destruct lis; [by injection Hres as <- <-|].
  destruct (encrypted_push_token rec), k; try (by injection Hres as <- <-).
  destruct (decrypt _ _); [|by injection Hres as <- <-].
  unfold push_token_to_provider, mbind, M_bind in Hres. cbn in Hres.
  destruct (push _) as [|[]]; try (by injection Hres as <- <-).
  by eapply enqueued_delete_push_token in Hres.
Qed.

Lemma enqueue_logged_db id p k w :
  exists w', enqueue_logged db_ok nonce_of push (FanOutQueueMessage p) k id w = (Ok tt, w') /\
    (if is_ok (fst (do_enqueue db_ok nonce_of id p w))
     then enqueued (qdb w) id p (qdb w') else qdb w' = qdb w).
Proof.
  unfold enqueue_logged, try_, mbind, M_bind.
  destruct (enqueue db_ok nonce_of push id (FanOutQueueMessage p) k w) as [r w'] eqn:E.
  apply enqueue_db in E. exists w'. split; [by destruct r as [|[]]|done].
Qed.

(** Every client of the list has a coherent queue with room. *)
Definition ready (d : QsDb) (c : Uuid) : Prop :=
  exists r0 hist lo ms, coherent d c r0 hist lo ms /\ Z.of_nat (S (length hist)) < 2 ^ 63.

(** With the database up and encryption working, a ready client gets the message. *)
Lemma enqueue_logged_up id p k w : (forall n, db_ok n = true) ->
  (forall n r, exists m r', ratchet_encrypt p (nonce_of n) r = (Ok m, r')) ->
  ready (qdb w) id ->
  exists w', enqueue_logged db_ok nonce_of push (FanOutQueueMessage p) k id w = (Ok tt, w') /\
    enqueued (qdb w) id p (qdb w').
Proof.
  intros Hup Hen (r0 & hist & lo & ms & Hco & Hb).
  destruct (enqueue_logged_db id p k w) as (w' & Hw & Hd). exists w'. split; [done|].
  pose proof Hco as [_ _ _ (row & b & Hlive & Henc) Hq].
  destruct (Hen (nonces w) (row_ratchet b)) as (m & r & He).
  destruct (coherent_next _ _ _ _ _ _ _ _ _ _ _ _ Hco Hlive He) as [_ Hs].
  destruct (do_enqueue_up db_ok nonce_of Hup id p w row b m r Hlive He) as (x & w1 & Hdo).
  - apply eq_None_not_Some. intros [m0 (i & m' & Hi & _ & Hm & _)%Hq].
    apply lookup_lt_Some in Hm. lia.
  - by rewrite Hdo in Hd.
Qed.

Lemma ready_other d id p d' c : enqueued d id p d' -> c <> id -> ready d c -> ready d' c.
Proof.
  intros He Hne (r0 & hist & lo & ms & Hco & Hb). destruct (enqueued_other _ _ _ _ c He Hne).
  exists r0, hist, lo, ms. split; [|done]. by eapply coherent_frame.
Qed.

(** The loop over the clients of a fan-out. *)
Lemma fan_out_up p k ids w : (forall n, db_ok n = true) ->
  (forall n r, exists m r', ratchet_encrypt p (nonce_of n) r = (Ok m, r')) ->
  NoDup ids -> Forall (ready (qdb w)) ids ->
  exists w', mapM_ (enqueue_logged db_ok nonce_of push (FanOutQueueMessage p) k) ids w = (Ok tt, w') /\
    forall c,
      (c ∈ ids -> forall r0 hist lo ms, coherent (qdb w) c r0 hist lo ms ->
         Z.of_nat (S (length hist)) < 2 ^ 63 ->
         exists rnd m, coherent (qdb w') c r0 (hist ++ [(p, rnd)]) lo (ms ++ [m])) /\
      (c ∉ ids -> qs_client_record (qdb w') !! c = qs_client_record (qdb w) !! c /\
         forall n, qs_queues (qdb w') !! (c, n) = qs_queues (qdb w) !! (c, n)).
Proof.
  intros Hup Hen. revert w; induction ids as [|id ids IH]; intros w Hnd Hready.
  { exists w. split; [done|]. intros c. split; [by intros ?%not_elem_of_nil|done]. }
  apply NoDup_cons in Hnd as [Hni Hnd]. apply Forall_cons in Hready as [Hid Hready].
  destruct (enqueue_logged_up id p k w Hup Hen Hid) as (w1 & Hw1 & He).
  destruct (IH w1 Hnd) as (w' & Hw' & Hall).
  { apply Forall_forall. intros c Hc. rewrite Forall_forall in Hready.
    eapply ready_other; [exact He|congruence|by apply Hready]. }
  exists w'. split; [cbn [mapM_]; apply M_bind_Ok; eauto|]. intros c.
  destruct (Hall c) as [Hin Hout]. destruct (decide (c = id)) as [->|Hne].
  - destruct (Hout Hni) as [Hc Hq]. split; [|intros Hn; exfalso; apply Hn; left].
    intros _ r0 hist lo ms Hco Hb.
    destruct (coherent_enqueued_same _ _ _ _ _ _ _ _ He Hco Hb) as (rnd & m & Hco').
    exists rnd, m. by eapply coherent_frame.
  - destruct (enqueued_other _ _ _ _ c He Hne) as [Hc Hq]. split.
    + intros [->|Hc']%elem_of_cons r0 hist lo ms Hco Hb; [done|].
      apply Hin; [done| |done]. by eapply coherent_frame.
    + intros [_ Hc']%not_elem_of_cons. destruct (Hout Hc') as [H1' H2'].
      split; [by rewrite H1'|intros n; by rewrite H2'].
Qed.

End FanOut.

(** ** Looking up the clients of a user *)

Section Lookup.
Context (db_ok : nat -> bool).

Lemma omap_some {A} (l : list A) : omap (fun o => o) (map Some l) = l.
Proof. induction l as [|x l IH]; cbn; [done|by rewrite IH]. Qed.

(** The clients that [load_client_ids] lists for an existing anchor. *)
Definition live_clients (d : QsDb) (user : Uuid) : list Uuid :=
  map fst (filter (fun x => row_user_id x.2 = user /\ is_live x.2 = true)
             (map_to_list (qs_client_record d))).

Lemma load_client_ids_eq id w : load_client_ids db_ok id w =
  match statement db_ok EnqueueStorage w with
  | (Ok _, w') =>
      (Ok ((fun c => live_clients (qdb w) (row_user_id c)) <$> qs_client_record (qdb w) !! id), w')
  | (Err e, w') => (Err e, w')
  end.
Proof.
  unfold load_client_ids, mbind, M_bind.
  destruct (statement db_ok EnqueueStorage w) as [[[]|e] w'] eqn:Es; [|done].
  apply statement_Ok in Es as (Hq & _). cbn. rewrite Hq. unfold mret, M_ret. do 2 f_equal.
  destruct (qs_client_record (qdb w) !! id) as [c|]; cbn; [|done]. unfold live_clients.
  destruct (filter _ _) as [|x l]; [done|]. cbn [map omap list_omap]. do 2 f_equal.
  by rewrite <- (omap_some (map fst l)), map_map.
Qed.

Lemma elem_of_live_clients d user c : c ∈ live_clients d user <->
  exists row, qs_client_record d !! c = Some row /\ row_user_id row = user /\ is_live row = true.
Proof.
  unfold live_clients. rewrite list_elem_of_fmap. split.
  - intros ([c' row] & -> & [[Hu Hl] Hm]%list_elem_of_filter). apply elem_of_map_to_list in Hm. eauto.
  - intros (row & Hm & Hu & Hl). exists (c, row). split; [done|].
    apply list_elem_of_filter. split; [done|]. by apply elem_of_map_to_list.
Qed.

Lemma NoDup_live_clients d user : NoDup (live_clients d user).
Proof.
  unfold live_clients. apply NoDup_fmap_fst; [|apply NoDup_filter, NoDup_map_to_list].
  intros c r1 r2 [_ H1]%list_elem_of_filter [_ H2]%list_elem_of_filter.
  apply elem_of_map_to_list in H1, H2. congruence.
Qed.

End Lookup.

Lemma drop_packages_lookup id t n r :
  pt_rows (drop_packages (fun c => bool_decide (c = id)) t) !! n = Some r <->
  pt_rows t !! n = Some r /\ pkg_client_id r <> id.
Proof. cbn. rewrite map_lookup_filter_Some. cbn. by rewrite bool_decide_eq_false. Qed.

(** ** A concrete server, for evaluation *)

Module ToyQs.
Import Toy ToyKdf.

Definition type_code (t : QsQueueMessageType) : Z :=
  match t with
  | WelcomeBundleType => 0 | MlsMessageType => 1 | UserProfileKeyUpdateType => 2
  | TargetedMessageType => 3 | DsResponseType => 4 | ApqWelcomeBundleType => 5
  | ApqMlsMessageType => 6
  end.

Definition type_of_code (z : Z) : option QsQueueMessageType :=
  match z with
  | 0 => Some WelcomeBundleType | 1 => Some MlsMessageType | 2 => Some UserProfileKeyUpdateType
  | 3 => Some TargetedMessageType | 4 => Some DsResponseType | 5 => Some ApqWelcomeBundleType
  | 6 => Some ApqMlsMessageType | _ => None
  end.

#[export] Instance tls_payload : TlsCodec QsQueueMessagePayload := {|
  tls_serialize_detached := fun p =>
    Some (timestamp p :: type_code (message_type p) :: payload p);
  tls_deserialize_exact_bytes := fun bs =>
    match bs with
    | t :: c :: rest =>
        ty ← type_of_code c; Some {| timestamp := t; message_type := ty; payload := rest |}
    | _ => None
    end
|}.

#[export] Instance tls_payload_laws : TlsCodecLaws QsQueueMessagePayload.
Proof. split. intros [t [] p] bs [= <-]; reflexivity. Qed.

Definition ratchet0 : QueueRatchet := {| sequence_number := 0; secret := [1]; key := [2] |}.

(** A live client of user 7. *)
Definition client_row : ClientRow :=
  {| row_user_id := 7; row_push_token := None;
     row_blobs := Some {| owner_public_key := []; owner_signature_key := []; row_ratchet := ratchet0 |};
     row_activity_time := 0; row_deleted_at := None |}.

Definition user_row : UserRow := {| row_verifying_key := [70]; row_friendship_token := [71] |}.
Definition packages0 : PackageTable := {| pt_next := 0; pt_rows := ∅ |}.
Definition key0 : ClientIdDecryptionKey := {| encryption_key := []; decryption_key := [] |}.

(** Two live clients of one user, 1 and 2, with empty queues. *)
Definition world0 : QsWorld :=
  {| qdb := {| qs_client_record := {[1 := client_row; 2 := client_row]}; qs_queues := ∅;
               notified := []; qs_user_record := {[7 := user_row]}; key_package := packages0;
               apq_key_package := packages0; qs_decryption_key := [key0] |};
     listeners := ∅; listening := ∅; pushed := []; delivered := []; statements := 0; nonces := 0 |}.

Definition up (_ : nat) : bool := true.
Definition nonces12 (n : nat) : Result RandomnessErr bytes := Ok (replicate 12 (Z.of_nat n)).
Definition hello : QsQueueMessagePayload :=
  {| timestamp := 5; message_type := MlsMessageType; payload := [104; 105] |}.

Lemma coherent0 c : c = 1 \/ c = 2 -> coherent (qdb world0) c ratchet0 [] 0 [].
Proof.
  intros Hc. split; [done|cbn; lia|cbn; lia| |].
  - exists client_row,
      {| owner_public_key := []; owner_signature_key := []; row_ratchet := ratchet0 |}.
    split; [|reflexivity]. by destruct Hc as [-> | ->].
  - intros n m. cbn. rewrite lookup_empty. split; [done|]. intros (i & m' & _ & _ & Hm & _).
    by rewrite lookup_nil in Hm.
Qed.

Lemma encrypt_total n r :
  exists m r', ratchet_encrypt hello (nonces12 n) r = (Ok m, r').
Proof.
  assert (exists ct, encrypt hello (key r) (nonces12 n) = Ok ct) as [ct Hct].
  { eexists. unfold encrypt, key_encrypt. reflexivity. }
  assert (exists r', ratchet_forward r = (Ok tt, r')) as [r' Hf].
  { eexists. unfold ratchet_forward, RatchetSecret_derive, RatchetKey_derive, kdf_derive,
      kdf_key_derive. reflexivity. }
  exists {| qm_sequence_number := sequence_number r; qm_ciphertext := ct |}, r'.
  by apply ratchet_encrypt_Ok.
Qed.

End ToyQs.

(** ** Properties *)

(** C3. Enqueueing is atomic: it either appends exactly one message, encrypted
    under the client's current ratchet key, to that client's queue and advances
    the stored ratchet, or (the record is missing or deleted, encryption, a
    statement or the commit fails) leaves the database as it was; no other
    client is touched.  Queue and ratchet never drift apart. *)
Theorem do_enqueue_atomic (db_ok : nat -> bool) (nonce_of : nat -> Result RandomnessErr bytes)
    `{Hkdf} `{Aes256Gcm} `{TlsCodec bytes} `{TlsCodec QsQueueMessagePayload}
    (w : QsWorld) (id : Uuid) (p : QsQueueMessagePayload) r0 hist lo ms :
  coherent (qdb w) id r0 hist lo ms -> Z.of_nat (S (length hist)) < 2 ^ 63 ->
  let '(res, w') := do_enqueue db_ok nonce_of id p w in
  match res with
  | Ok _ => exists rnd m, coherent (qdb w') id r0 (hist ++ [(p, rnd)]) lo (ms ++ [m])
  | Err _ => qdb w' = qdb w
  end /\
  forall c, c <> id -> qs_client_record (qdb w') !! c = qs_client_record (qdb w) !! c /\
    forall n, qs_queues (qdb w') !! (c, n) = qs_queues (qdb w) !! (c, n).
Proof.
  intros Hco Hb. destruct (do_enqueue db_ok nonce_of id p w) as [[x|e] w'] eqn:E.
  - apply do_enqueue_enqueued in E. split; [by eapply coherent_enqueued_same|].
    intros c Hne. by eapply enqueued_other.
  - apply transaction_Err in E. rewrite E. split; [done|]. intros c _. done.
Qed.

(** C2. A listener that starts at sequence number [start] yields, whatever
    enqueues, acknowledgements and other clients' operations happen in between
    and whenever it is scheduled, a gapless and duplicate-free prefix of the
    messages enqueued from [start] on, in order; a client whose ratchet was
    stepped to [start] decrypts them to the original payloads. *)
Theorem listener_yields_history (db_ok : nat -> bool) (nonce_of : nat -> Result RandomnessErr bytes)
    `{Hkdf} `{Aes256GcmLaws} `{TlsCodec bytes} `{TlsCodecLaws QsQueueMessagePayload}
    (c : Uuid) (start : nat) (w : QsWorld) r0 hist0 lo0 ms0 s :
  coherent (qdb w) c r0 hist0 lo0 ms0 -> (lo0 <= start <= length hist0)%nat ->
  rtc (run_step db_ok nonce_of c start)
    {| rs_world := w; rs_ctx := stream_init c (Z.of_nat start); rs_out := [] |} s ->
  exists hist lo ms,
    let n := length (rs_out s) in
    let yielded := take n (drop start ms) in
    coherent (qdb (rs_world s)) c r0 hist lo ms /\ rs_out s = map to_proto yielded /\
    exists rs r', forward start r0 = (Ok tt, rs) /\
      decrypt_all yielded rs = (Ok (map fst (take n (drop start hist))), r').
Proof.
  intros Hco Hlo Hrun. apply (run_inv_reachable _ _ _ _ r0) in Hrun.
  - destruct Hrun as (hist & lo & ms & Hco' & _ & _ & Hn & _ & Hseg).
    exists hist, lo, ms. cbv zeta. split; [done|]. split.
    + apply (f_equal (take (length (rs_out s)))) in Hseg.
      rewrite take_app_length in Hseg. rewrite Hseg at 1. rewrite firstn_map, take_take.
      do 2 f_equal. lia.
    + destruct Hco' as [_ _ _ (row & b & _ & Henc) _].
      pose proof (encrypt_all_length _ _ _ _ Henc) as Hl.
      destruct (encrypt_all_drop start hist r0 ms _ ltac:(lia) Henc) as (rs & Hf & Hd).
      destruct (encrypt_all_take (length (rs_out s)) _ _ _ _ Hd) as (r' & Ht).
      exists rs, r'. split; [done|]. by apply decrypt_encrypt_all.
  - by eapply run_inv_init.
Qed.

(** Every enqueued message is delivered: in any state that a listener which
    started at [start] can reach, if the history holds a message that the listener
    has not yielded yet, the listener yields exactly the next one within three
    turns, once it is notified and the database answers.  Nothing is skipped by
    waiting, and no page boundary loses a message. *)
Theorem listener_delivers_next (db_ok : nat -> bool) (nonce_of : nat -> Result RandomnessErr bytes)
    `{Hkdf} `{Aes256Gcm} `{TlsCodec bytes} `{TlsCodec QsQueueMessagePayload}
    (c : Uuid) (start : nat) (w : QsWorld) r0 hist0 lo0 ms0 s :
  coherent (qdb w) c r0 hist0 lo0 ms0 -> (lo0 <= start <= length hist0)%nat ->
  rtc (run_step db_ok nonce_of c start)
    {| rs_world := w; rs_ctx := stream_init c (Z.of_nat start); rs_out := [] |} s ->
  exists hist lo ms, coherent (qdb (rs_world s)) c r0 hist lo ms /\
    ((start + length (rs_out s) < length hist)%nat ->
     exists m ctx', ms !! (start + length (rs_out s))%nat = Some m /\
       poll 3 (rs_ctx s) (qdb (rs_world s)) = Some (to_proto m, ctx')).
Proof.
  intros Hco Hlo Hrun. apply (run_inv_reachable _ _ _ _ r0) in Hrun.
  2:{ by eapply run_inv_init. }
  destruct Hrun as (hist & lo & ms & Hseg). exists hist, lo, ms.
  pose proof Hseg as (Hco' & _). split; [done|]. intros Hlt.
  destruct Hco' as [_ _ _ (row & b & _ & Henc) _].
  rewrite <- (encrypt_all_length _ _ _ _ Henc) in Hlt.
  apply lookup_lt_is_Some_2 in Hlt as [m Hm].
  destruct (poll_next _ _ _ _ _ _ _ _ Hseg Hm) as [ctx' Hp]. by exists m, ctx'.
Qed.

Section Evaluate_qs.
Import Toy ToyKdf ToyQs.

Lemma do_enqueue_atomic_witness :
  exists rec w' rnd m, do_enqueue up nonces12 1 hello world0 = (Ok rec, w') /\
    coherent (qdb w') 1 ratchet0 [(hello, rnd)] 0 [m].
Proof.
  pose proof (do_enqueue_atomic up nonces12 world0 1 hello ratchet0 [] 0 [] (coherent0 1 ltac:(auto))
                ltac:(cbn; lia)) as Hd.
  destruct (do_enqueue up nonces12 1 hello world0) as [[x|e] w'] eqn:E;
    [|vm_compute in E; discriminate E].
  destruct Hd as [(rnd & m & Hco) _]. exists x, w', rnd, m. split; [reflexivity|exact Hco].
Defined.

(** Enqueue, open the stream, fetch, yield. *)
Definition world1 : QsWorld := snd (do_enqueue up nonces12 1 hello world0).
Definition message1 : ProtoQueueMessage :=
  match fetch_into 1 0 MAX_BUFFER_SIZE (qdb world1) with
  | m :: _ => m
  | [] => {| proto_sequence_number := 0; proto_ciphertext := None |}
  end.
Definition yielded1 : RunState :=
  {| rs_world := world1;
     rs_ctx := {| sc_client_id := 1; sc_sequence_number := 1; sc_buffer := []; sc_state := Fetch |};
     rs_out := [message1] |}.

Lemma run1 : rtc (run_step up nonces12 1 0)
  {| rs_world := world0; rs_ctx := stream_init 1 0; rs_out := [] |} yielded1.
Proof.
  eapply rtc_l.
  { apply (run_enqueue _ _ _ _ _ world1 _ _ 1 hello
             (fst (do_enqueue up nonces12 1 hello world0))); [apply surjective_pairing|].
    intros row b (Hr & _ & Hb). vm_compute in Hr. injection Hr as <-. injection Hb as <-.
    vm_compute. reflexivity. }
  eapply rtc_l; [apply (run_again _ _ _ _ _ _ (set_state Fetch (stream_init 1 0)) _ false true true);
                 reflexivity|].
  eapply rtc_l.
  { apply (run_again _ _ _ _ _ _ {| sc_client_id := 1; sc_sequence_number := 1;
      sc_buffer := [message1]; sc_state := Fetch |} _ false true true). vm_compute. reflexivity. }
  eapply rtc_l; [|apply rtc_refl].
  apply (run_yield _ _ _ _ _ _ _ [] false true true). reflexivity.
Qed.

(** In [yielded1] one more message was enqueued behind the listener's back. *)
Definition behind1 : RunState :=
  {| rs_world := snd (do_enqueue up nonces12 1 hello world1); rs_ctx := rs_ctx yielded1;
     rs_out := rs_out yielded1 |}.

Lemma run_behind1 : rtc (run_step up nonces12 1 0)
  {| rs_world := world0; rs_ctx := stream_init 1 0; rs_out := [] |} behind1.
Proof.
  eapply rtc_r; [exact run1|].
  apply (run_enqueue _ _ _ _ world1 _ _ _ 1 hello (fst (do_enqueue up nonces12 1 hello world1)));
    [apply surjective_pairing|].
  intros row b (Hr & _ & Hb). vm_compute in Hr. injection Hr as <-. injection Hb as <-.
  vm_compute. reflexivity.
Qed.

Lemma listener_delivers_next_witness :
  exists hist lo ms, coherent (qdb (rs_world behind1)) 1 ratchet0 hist lo ms /\
    ((0 + 1 < length hist)%nat -> exists m ctx', ms !! 1%nat = Some m /\
       poll 3 (rs_ctx behind1) (qdb (rs_world behind1)) = Some (to_proto m, ctx')).
Proof.
  exact (listener_delivers_next up nonces12 1 0 world0 ratchet0 [] 0 [] behind1
           (coherent0 1 ltac:(auto)) ltac:(cbn; lia) run_behind1).
Defined.

Lemma listener_yields_history_witness :
  exists ms rs r', [message1] = map to_proto (take 1 (drop 0 ms)) /\
    forward 0 ratchet0 = (Ok tt, rs) /\
    exists ps, decrypt_all (Payload := QsQueueMessagePayload) (take 1 (drop 0 ms)) rs = (Ok ps, r').
Proof.
  destruct (listener_yields_history up nonces12 1 0 world0 ratchet0 [] 0 [] yielded1
              (coherent0 1 ltac:(auto)) ltac:(cbn; lia) run1)
    as (hist & lo & ms & _ & Hout & rs & r' & Hf & Hd).
  exists ms, rs, r'. split; [exact Hout|]. split; [exact Hf|]. eexists. exact Hd.
Defined.

End Evaluate_qs.

(** A broadcast fan-out message reaches every live client of the addressed
    user exactly once, even when the client named in the reference has been
    deleted, and reaches nobody else. *)
Theorem broadcast_reaches_all_clients (db_ok : nat -> bool)
    (nonce_of : nat -> Result RandomnessErr bytes)
    (push : bytes -> Result PushNotificationError unit)
    `{Hkdf} `{Aes256Gcm} `{TlsCodec bytes} `{TlsCodec QsQueueMessagePayload} `{TlsCodec QsToQsMessage}
    (domain : Fqdn) (dk : ClientIdDecryptionKey) (client_config_decrypt : bytes -> bytes -> Result DecryptionErr ClientConfig)
    (deliver : bytes -> Fqdn -> bool) (message : DsFanOutMessage) (p : QsQueueMessagePayload)
    (cfg : ClientConfig) (anchor : ClientRow) (w : QsWorld) :
  (forall n, db_ok n = true) ->
  (forall n r, exists m r', ratchet_encrypt p (nonce_of n) r = (Ok m, r')) ->
  client_homeserver_domain (client_reference message) = domain ->
  head (qs_decryption_key (qdb w)) = Some dk ->
  client_config_decrypt (decryption_key dk) (sealed_reference (client_reference message)) = Ok cfg ->
  broadcast_to_all_client_queues message = true ->
  fo_payload message = FanOutQueueMessage p ->
  qs_client_record (qdb w) !! cc_client_id cfg = Some anchor ->
  Forall (ready (qdb w)) (live_clients (qdb w) (row_user_id anchor)) ->
  exists w', enqueue_message db_ok nonce_of push domain client_config_decrypt deliver
               message w = (Ok tt, w') /\
    forall c,
      (c ∈ live_clients (qdb w) (row_user_id anchor) ->
         forall r0 hist lo ms, coherent (qdb w) c r0 hist lo ms ->
         Z.of_nat (S (length hist)) < 2 ^ 63 ->
         exists rnd m, coherent (qdb w') c r0 (hist ++ [(p, rnd)]) lo (ms ++ [m])) /\
      (c ∉ live_clients (qdb w) (row_user_id anchor) ->
         qs_client_record (qdb w') !! c = qs_client_record (qdb w) !! c /\
         forall n, qs_queues (qdb w') !! (c, n) = qs_queues (qdb w) !! (c, n)).
Proof.
  intros Hup Henc Hdom Hdk Hcfg Hbc Hp Hanchor Hready. unfold enqueue_message.
  rewrite decide_True, Hbc, Hp by done.
  destruct (statement_up db_ok Hup QsStorageError w) as (w1 & Hs1 & Hq1 & _).
  unfold mbind at 1, M_bind at 1, load_decryption_key. unfold mbind at 1, M_bind at 1. rewrite Hs1.
  unfold mbind at 1, M_bind at 1, get at 1, mret at 1, M_ret at 1. rewrite Hq1, Hdk.
  unfold mbind at 1, M_bind at 1, lift at 1. cbn [ok_or].
  unfold mbind at 1, M_bind at 1, lift at 1. rewrite Hcfg. cbn [map_err].
  unfold mbind at 1, M_bind at 1. unfold mbind at 1, M_bind at 1, map_errM at 1.
  rewrite load_client_ids_eq.
  destruct (statement_up db_ok Hup EnqueueStorage w1) as (w2 & -> & Hq2 & _).
  rewrite Hq1, Hanchor. cbn [map_err fmap option_fmap option_map]. unfold lift. cbn [ok_or].
  rewrite <- Hq1, <- Hq2. apply fan_out_up; try done.
  - apply NoDup_live_clients.
  - by rewrite Hq2, Hq1.
Qed.

(** [load_client_ids] distinguishes an unknown client from a user without live
    clients: it answers [None] exactly when there is no row, and otherwise lists
    exactly the live clients of the row's user, each once. *)
Theorem load_client_ids_spec (db_ok : nat -> bool) (id : Uuid) (w w' : QsWorld) r :
  load_client_ids db_ok id w = (Ok r, w') ->
  match r with
  | None => qs_client_record (qdb w) !! id = None
  | Some ids => NoDup ids /\ exists anchor, qs_client_record (qdb w) !! id = Some anchor /\
      forall c, c ∈ ids <-> exists row, qs_client_record (qdb w) !! c = Some row /\
        row_user_id row = row_user_id anchor /\ row_deleted_at row = None
  end.
Proof.
  rewrite load_client_ids_eq.
  destruct (statement db_ok EnqueueStorage w) as [[[]|e] w1]; [|discriminate].
  intros [= <- _]. destruct (qs_client_record (qdb w) !! id) as [anchor|]; cbn; [|done].
  split; [apply NoDup_live_clients|]. exists anchor. split; [done|]. intros c.
  rewrite elem_of_live_clients. unfold is_live.
  by setoid_rewrite bool_decide_eq_true.
Qed.

(** A soft-deleted client is gone for every lookup, keeps its anchor row so
    that broadcasts to its user still work, and loses its push token and exactly
    its key packages; its queued messages stay in the table. *)
Theorem soft_delete_tombstones (db_ok : nat -> bool) (id : Uuid) (now : TimeStamp) (w w' : QsWorld)
    (row : ClientRow) :
  (forall n, db_ok n = true) -> qs_client_record (qdb w) !! id = Some row ->
  soft_delete db_ok id now w = (Ok tt, w') ->
  fst (load_for_update db_ok id w') = Ok None /\
  fst (load_verifying_key db_ok id w') = Ok None /\
  (exists ids, fst (load_client_ids db_ok id w') = Ok (Some ids) /\ (id ∉ ids) /\
     forall c, c <> id -> (c ∈ ids <-> c ∈ live_clients (qdb w) (row_user_id row))) /\
  qs_queues (qdb w') = qs_queues (qdb w) /\
  forall k n r, pt_rows (table k (qdb w')) !! n = Some r <->
    pt_rows (table k (qdb w)) !! n = Some r /\ pkg_client_id r <> id.
Proof.
  intros Hup Hr Hd. unfold soft_delete in Hd. bindM Hd as [] w1 Hs. leafM Hd.
  apply statement_Ok in Hs as (Hq & _). rewrite Hq, Hr.
  set (w' := set_clients _ _). set (row' := {| row_user_id := row_user_id row |}) in w'.
  assert (qs_client_record (qdb w') !! id = Some row') as Hr'.
  { subst w'; cbn. by rewrite lookup_insert_eq. }
  assert (is_live row' = false) as Hl' by reflexivity.
  split_and!.
  - unfold load_for_update, mbind, M_bind.
    destruct (statement_up db_ok Hup EnqueueStorage w') as (w2 & -> & Hq2 & _).
    cbn -[w']. by rewrite Hq2, Hr', Hl'.
  - unfold load_verifying_key, mbind, M_bind.
    destruct (statement_up db_ok Hup EnqueueStorage w') as (w2 & -> & Hq2 & _).
    cbn -[w']. by rewrite Hq2, Hr', Hl'.
  - exists (live_clients (qdb w') (row_user_id row)). rewrite load_client_ids_eq.
    destruct (statement_up db_ok Hup EnqueueStorage w') as (w2 & -> & _).
    rewrite Hr'. split; [done|]. split.
    + rewrite elem_of_live_clients. intros (r & Hrr & _ & Hl). rewrite Hr' in Hrr.
      injection Hrr as <-. by rewrite Hl' in Hl.
    + intros c Hne. rewrite !elem_of_live_clients. subst w'; cbn.
      by rewrite lookup_insert_ne.
  - subst w'; cbn. reflexivity.
  - intros k n r. subst w'; cbn. destruct k; cbn; apply drop_packages_lookup.
Qed.

Section Evaluate_qs_fan_out.
Import Toy ToyKdf ToyQs.

#[local] Instance toy_tls_qq : TlsCodec QsToQsMessage :=
  {| tls_serialize_detached := fun _ => None; tls_deserialize_exact_bytes := fun _ => None |}.

Definition broadcast1 : DsFanOutMessage :=
  {| fo_payload := FanOutQueueMessage hello;
     client_reference := {| client_homeserver_domain := "a"; sealed_reference := [] |};
     suppress_notifications := false; broadcast_to_all_client_queues := true |}.

Lemma broadcast_reaches_all_clients_witness :
  exists w', enqueue_message up nonces12 (fun _ => Ok tt) "a"
      (fun _ _ => Ok {| cc_client_id := 1; cc_push_token_ear_key := None |}) (fun _ _ => true)
      broadcast1 world0 = (Ok tt, w') /\
    exists rnd m, coherent (qdb w') 2 ratchet0 [(hello, rnd)] 0 [m].
Proof.
  destruct (broadcast_reaches_all_clients up nonces12 (fun _ => Ok tt) "a" key0
    (fun _ _ => Ok {| cc_client_id := 1; cc_push_token_ear_key := None |}) (fun _ _ => true)
    broadcast1 hello {| cc_client_id := 1; cc_push_token_ear_key := None |} client_row world0)
    as (w' & Hw & Hc); try reflexivity.
  - apply encrypt_total.
  - apply Forall_forall. intros c (row & Hc & _)%elem_of_live_clients.
    exists ratchet0, [], 0%nat, []. split; [|cbn; lia]. apply coherent0.
    destruct (decide (c = 1)) as [->|]; [auto|]. destruct (decide (c = 2)) as [->|]; [auto|].
    cbn in Hc. rewrite lookup_insert_ne, lookup_singleton_ne in Hc by done. discriminate.
  - exists w'. split; [exact Hw|].
    apply (proj1 (Hc 2)) with (hist := []) (ms := []); [|by apply coherent0; auto|cbn; lia].
    apply elem_of_live_clients. exists client_row. split_and!; reflexivity.
Defined.

Lemma load_client_ids_spec_witness :
  exists ids w', load_client_ids up 1 world0 = (Ok (Some ids), w') /\ NoDup ids.
Proof.
  pose proof (load_client_ids_spec up 1 world0) as H.
  destruct (load_client_ids up 1 world0) as [[r|e] w'] eqn:E; [|vm_compute in E; discriminate E].
  specialize (H w' r eq_refl). destruct r as [ids|]; [|vm_compute in E; discriminate E].
  exists ids, w'. split; [reflexivity|exact (proj1 H)].
Defined.

Lemma soft_delete_tombstones_witness :
  exists w', soft_delete up 1 9 world0 = (Ok tt, w') /\ fst (load_for_update up 1 w') = Ok None.
Proof.
  eexists; split; [reflexivity|].
  eapply (soft_delete_tombstones up 1 9 world0 _ client_row); [reflexivity..].
Defined.

End Evaluate_qs_fan_out.
