(* ===== verification/PgListen.v ===== *)
(** * Notifications of the queue service ([backend/src/qs/queue.rs])

    The interleavings of enqueues, the Postgres listener task, its connection to the
    database and the listeners of clients' queues. *)

From stdpp Require Import sorting.
From S2P Require Import Prelude PgTask Aead Ratchet Messages Qs QsCorrect.

Set Warnings "-clear-no-such-hyp".

(** ** Channel names *)

(** The text of a [Uuid]. *)
Class UuidText := {
  uuid_to_string : Uuid -> string;
  uuid_parse : string -> option Uuid
}.
Class UuidTextLaws `{UuidText} : Prop := {
  uuid_parse_to_string u : uuid_parse (uuid_to_string u) = Some u
}.

(** [PgChannelName for QsClientId]. *)
#[export] Instance client_channel `{UuidText} : PgChannelName Uuid := {|
  pg_channel := fun c => ("qs_" +:+ uuid_to_string c)%string;
  from_pg_channel := fun channel => s ← strip_prefix "qs_" channel; uuid_parse s
|}.
#[export] Instance client_channel_laws `{UuidTextLaws} : PgChannelNameLaws Uuid.
Proof.
  split. intros u. unfold from_pg_channel, pg_channel, client_channel. rewrite strip_prefix_app. cbn.
  apply uuid_parse_to_string.
Qed.

(** ** The commands of the queue service *)

(** The commands that [track_listener] sends for a new listener of [c]: to stop
    listening to the channels of cancelled listeners, and to listen to the channel
    of [c] unless a live listener of [c] is replaced. *)
Definition track_commands (listeners : gmap Uuid ListenerContext) (c : Uuid) : list (Command Uuid) :=
  map Unlisten (elements (dom (filter (fun x => cancelled x.2 = true) listeners))) ++
  match listeners !! c with
  | Some context => if cancelled context then [Listen c] else []
  | None => [Listen c]
  end.

(** ** The system *)

Section System.
Context `{UuidText}.
Context (db_ok : nat -> bool) (nonce_of : nat -> Result RandomnessErr bytes).
Context `{Hkdf} `{Aes256Gcm} `{!TlsCodec bytes} `{!TlsCodec QsQueueMessagePayload}.
Context (c : Uuid).

Record SystemState := {
  sys_world : QsWorld;
  sys_task : PgTask Uuid;
  sys_ctx : QueueStreamContext;
  sys_out : list ProtoQueueMessage
}.

Definition set_inbox (i : list Uuid) (t : PgTask Uuid) : PgTask Uuid :=
  {| commands := commands t; session := session t; received := received t; inbox := i |}.

(** What a turn of the listener adds to its output. *)
Definition turn_result (w : QsWorld) (t : PgTask Uuid) (out : list ProtoQueueMessage) (r : Turn) :
    option SystemState :=
  match r with
  | Yield (Some m) ctx => Some {| sys_world := w; sys_task := t; sys_ctx := ctx; sys_out := out ++ [m] |}
  | Yield None ctx | Again ctx => Some {| sys_world := w; sys_task := t; sys_ctx := ctx; sys_out := out |}
  | Stop => None
  end.

(** One turn of a listener that is not cancelled, while the database answers.  A
    waiting listener takes a turn only when there is a notification for it. *)
Definition listener_turn (s : SystemState) : option SystemState :=
  let w := sys_world s in
  let turn wake := stream_turn (sys_ctx s) (qdb w) false true wake in
  match sc_buffer (sys_ctx s), sc_state (sys_ctx s) with
  | [], Wait =>
      rest ← next_notification c (inbox (sys_task s));
      turn_result w (set_inbox rest (sys_task s)) (sys_out s) (turn true)
  | _, _ => turn_result w (sys_task s) (sys_out s) (turn false)
  end.

(** New commands for the task, and a connection that was lost: [PgListener] connects
    again and listens to the same channels, but what was on its way is gone. *)
Definition push_commands (cmds : list (Command Uuid)) (t : PgTask Uuid) : PgTask Uuid :=
  {| commands := commands t ++ cmds; session := session t; received := received t; inbox := inbox t |}.
Definition reconnect (t : PgTask Uuid) : PgTask Uuid :=
  {| commands := commands t; session := session t; received := []; inbox := inbox t |}.

(** The notifications that are lost when the next one is passed on to a receiver that
    lags behind, and when the connection is lost. *)
Definition overflow (t : PgTask Uuid) : list Uuid :=
  if (length (inbox t) <? BROADCAST_CAPACITY)%nat then [] else take 1 (inbox t).
Definition in_flight (t : PgTask Uuid) : list Uuid := omap from_pg_channel (received t).

(** The end of a listener: its stream is dropped. *)
Definition cancel_listener (x : Uuid) (w : QsWorld) : QsWorld :=
  set_listeners (alter (fun l => {| cancelled := true; receiver_open := false; payloads := payloads l |}) x
    (listeners w)) w.

(** Enqueues and acknowledgements of any client, listeners that come and go, the two
    kinds of events of the task, lost connections, and the listener itself, in any
    order.  A step is labelled with the clients whose listener it replaces or ends, and
    with those for which it loses a notification. *)
Inductive sys_step : SystemState -> list Uuid -> SystemState -> Prop :=
| sys_enqueue w w' t ctx out id p res :
    do_enqueue db_ok nonce_of id p w = (res, w') ->
    sys_step {| sys_world := w; sys_task := t; sys_ctx := ctx; sys_out := out |} []
             {| sys_world := w';
                sys_task := deliver_notifications (drop (length (notified (qdb w))) (notified (qdb w'))) t;
                sys_ctx := ctx; sys_out := out |}
| sys_ack w w' t ctx out id n res :
    ack db_ok id n w = (res, w') ->
    sys_step {| sys_world := w; sys_task := t; sys_ctx := ctx; sys_out := out |} []
             {| sys_world := w'; sys_task := t; sys_ctx := ctx; sys_out := out |}
| sys_track w t ctx out x :
    sys_step {| sys_world := w; sys_task := t; sys_ctx := ctx; sys_out := out |} [x]
             {| sys_world := (track_listener x w).2;
                sys_task := push_commands (track_commands (listeners w) x) t;
                sys_ctx := ctx; sys_out := out |}
| sys_cancel w t ctx out x :
    sys_step {| sys_world := w; sys_task := t; sys_ctx := ctx; sys_out := out |} [x]
             {| sys_world := cancel_listener x w; sys_task := t; sys_ctx := ctx; sys_out := out |}
| sys_command w t t' ctx out up :
    handle_command up t = Some t' ->
    sys_step {| sys_world := w; sys_task := t; sys_ctx := ctx; sys_out := out |} []
             {| sys_world := w; sys_task := t'; sys_ctx := ctx; sys_out := out |}
| sys_notification w t t' ctx out :
    handle_notification t = Some t' ->
    sys_step {| sys_world := w; sys_task := t; sys_ctx := ctx; sys_out := out |} (overflow t)
             {| sys_world := w; sys_task := t'; sys_ctx := ctx; sys_out := out |}
| sys_reconnect w t ctx out :
    sys_step {| sys_world := w; sys_task := t; sys_ctx := ctx; sys_out := out |} (in_flight t)
             {| sys_world := w; sys_task := reconnect t; sys_ctx := ctx; sys_out := out |}
| sys_turn s s' : listener_turn s = Some s' -> sys_step s [] s'.

(** A step that spares the listener of [c] and its notifications. *)
Definition spares (s s' : SystemState) : Prop := exists l, sys_step s l s' /\ c ∉ l.

(** A new listener that starts at [start]. *)
Definition sys_init (w : QsWorld) (t : PgTask Uuid) (start : Z) : SystemState :=
  {| sys_world := w; sys_task := t; sys_ctx := stream_init c start; sys_out := [] |}.

(** A message is stored that the listener has not fetched. *)
Definition unread (s : SystemState) : Prop :=
  select_from (qdb (sys_world s)) c (as_i64 (sc_sequence_number (sys_ctx s))) <> [].

(** The listener is asleep although there is a message for it, and nothing is on
    its way that would wake it. *)
Definition asleep (s : SystemState) : Prop :=
  sc_buffer (sys_ctx s) = [] /\ sc_state (sys_ctx s) = Wait /\ unread s /\
  commands (sys_task s) = [] /\ received (sys_task s) = [] /\ inbox (sys_task s) = [].

End System.

(** ** Stored messages *)

Lemma select_from_nil d c n : select_from d c n = [] <->
  forall k m, qs_queues d !! (c, k) = Some m -> k < n.
Proof.
  unfold select_from. split.
  - intros Hnil k m Hk. destruct (decide (k < n)); [done|].
    assert (((c, k), m) ∈ @nil ((Uuid * Z) * ProtoQueueMessage)) as Hin;
      [|by apply not_elem_of_nil in Hin].
    rewrite <- Hnil. apply list_elem_of_filter. split; [cbn; lia|]. by apply elem_of_map_to_list.
  - intros Hno. match goal with |- ?l = [] => destruct l as [|[[c' k] m] l'] eqn:Ef; [done|] end.
    assert (((c', k), m) ∈ ((c', k), m) :: l') as Hin by left. rewrite <- Ef in Hin.
    apply list_elem_of_filter in Hin as [[Hc Hk] Hin%elem_of_map_to_list]. cbn in *. subst.
    apply Hno in Hin. lia.
Qed.

Lemma fetch_into_nil d c n limit : fetch_into c n (S limit) d = [] -> select_from d c (as_i64 n) = [].
Proof.
  unfold fetch_into. intros Hf. apply fmap_nil_inv in Hf.
  match type of Hf with take _ ?l = _ =>
    assert (l ≡ₚ select_from d c (as_i64 n)) as Hp by apply merge_sort_Permutation;
    destruct l; [|discriminate]
  end.
  by apply Permutation_nil_l in Hp.
Qed.

(** ** Listeners *)

(** Enqueueing and acknowledging leave the table of listeners alone. *)
Section Listeners.
Context (db_ok : nat -> bool) (nonce_of : nat -> Result RandomnessErr bytes).
Context `{Hkdf} `{Aes256Gcm} `{!TlsCodec bytes} `{!TlsCodec QsQueueMessagePayload}.

Definition same_listeners {E A} (m : M QsWorld E A) : Prop :=
  forall w, listeners (m w).2 = listeners w.

Lemma same_listeners_bind {E A B} (m : M QsWorld E A) (f : A -> M QsWorld E B) :
  same_listeners m -> (forall a, same_listeners (f a)) -> same_listeners (m ≫= f).
Proof.
  intros Hm Hf w. specialize (Hm w). unfold mbind, M_bind. destruct (m w) as [[a|e] w1]; cbn in *; [|done].
  by rewrite Hf.
Qed.
Lemma same_listeners_statement {E} (e : E) : same_listeners (statement db_ok e).
Proof. intros w. unfold statement. by destruct (db_ok (statements w)). Qed.
Lemma same_listeners_transaction {E A} (e : E) (m : M QsWorld E A) :
  same_listeners m -> same_listeners (transaction db_ok e m).
Proof.
  intros Hm w. unfold transaction.
  pose proof (same_listeners_bind _ (fun _ => m) (same_listeners_statement e) (fun _ => Hm) w) as Hb.
  destruct ((_ ← statement db_ok e; m) w) as [[a|e'] w1]; [|done].
  pose proof (same_listeners_statement e w1) as Hc. destruct (statement db_ok e w1) as [[u|e'] w2]; cbn in *; congruence.
Qed.

#[local] Hint Resolve same_listeners_bind same_listeners_statement : core.
Lemma same_listeners_enqueue id p : same_listeners (do_enqueue db_ok nonce_of id p).
Proof.
  apply same_listeners_transaction. unfold do_enqueue_body, load_for_update, queues_enqueue, queue_enqueue,
    pg_notify, update_queue_ratchet, update_live.
  repeat first [done|apply same_listeners_bind|apply same_listeners_statement|case_match|intros ?].
  cbn. by repeat case_match.
Qed.
Lemma same_listeners_ack id n : same_listeners (ack db_ok id n).
Proof. unfold ack, queue_delete. by apply same_listeners_bind. Qed.

(** The listener of [c] has not been ended. *)
Definition live (c : Uuid) (w : QsWorld) : Prop :=
  exists context, listeners w !! c = Some context /\ cancelled context = false.

Lemma live_track c x w : x <> c -> live c w ->
  live c (track_listener x w).2 /\ Unlisten c ∉ track_commands (listeners w) x.
Proof.
  intros Hne (context & Hl & Hc). split.
  - exists context. cbn. rewrite lookup_insert_ne by done. split; [|done].
    apply map_lookup_filter_Some. done.
  - unfold track_commands. intros [Hin|Hin]%elem_of_app.
    + apply list_elem_of_fmap in Hin as (y & [= <-] & Hy%elem_of_elements%elem_of_dom).
      destruct Hy as [context' Hy]. apply map_lookup_filter_Some in Hy as [Hy Hcc]. cbn in Hcc. congruence.
    + repeat case_match; set_solver.
Qed.
Lemma live_cancel c x w : x <> c -> live c w -> live c (cancel_listener x w).
Proof. intros Hne (context & Hl & Hc). exists context. cbn. by rewrite lookup_alter_ne. Qed.

End Listeners.

Section Awake.
Context `{UuidTextLaws}.
Context (db_ok : nat -> bool) (nonce_of : nat -> Result RandomnessErr bytes).
Context `{Hkdf} `{Aes256Gcm} `{!TlsCodec bytes} `{!TlsCodec QsQueueMessagePayload}.
Context (c : Uuid).

(** Something is on its way to the listener. *)
Definition notified_of (t : PgTask Uuid) : Prop := pg_channel c ∈ received t \/ c ∈ inbox t.

(** The listener of [c] is live, the connection listens to its channel and will go on
    doing so; when it waits, it has fetched everything, or will be woken. *)
Record awake (s : SystemState) : Prop := {
  aw_client : sc_client_id (sys_ctx s) = c;
  aw_live : live c (sys_world s);
  aw_session : pg_channel c ∈ session (sys_task s);
  aw_commands : Unlisten c ∉ commands (sys_task s);
  aw_wait : sc_state (sys_ctx s) = Wait -> sc_buffer (sys_ctx s) = [] /\
    (select_from (qdb (sys_world s)) c (as_i64 (sc_sequence_number (sys_ctx s))) = [] \/
     notified_of (sys_task s))
}.

Lemma live_enqueue w w' id p res : do_enqueue db_ok nonce_of id p w = (res, w') -> live c w -> live c w'.
Proof.
  intros He. pose proof (same_listeners_enqueue db_ok nonce_of id p w) as Hs. rewrite He in Hs.
  cbn in Hs. unfold live. by rewrite Hs.
Qed.
Lemma live_ack w w' id n res : ack db_ok id n w = (res, w') -> live c w -> live c w'.
Proof.
  intros He. pose proof (same_listeners_ack db_ok id n w) as Hs. rewrite He in Hs.
  cbn in Hs. unfold live. by rewrite Hs.
Qed.

Lemma awake_enqueue w w' t ctx out id p res :
  do_enqueue db_ok nonce_of id p w = (res, w') ->
  awake {| sys_world := w; sys_task := t; sys_ctx := ctx; sys_out := out |} ->
  awake {| sys_world := w';
           sys_task := deliver_notifications (drop (length (notified (qdb w))) (notified (qdb w'))) t;
           sys_ctx := ctx; sys_out := out |}.
Proof.
  intros He [Hc Hl Hs Hcm Hw]. split; cbn [sys_world sys_task sys_ctx] in *; [done|by eapply live_enqueue|done|done|].
  intros Hst. destruct (Hw Hst) as [Hb Hn]. split; [done|].
  assert (notified_of t -> notified_of (deliver_notifications
    (drop (length (notified (qdb w))) (notified (qdb w'))) t)) as Hmono.
  { intros [Hr|Hi]; [left|by right]. cbn. apply elem_of_app. by left. }
  destruct res as [[rec b]|e].
  2:{ apply transaction_Err in He. destruct Hn as [Hn|Hn]; [left; by rewrite He|right].
      by apply Hmono. }
  apply do_enqueue_Ok in He as (row & bl & rnd & m & r & _ & _ & _ & Hq).
  destruct (decide (id = c)) as [->|Hne].
  - right. left. unfold deliver_notifications. cbn [received]. rewrite Hq.
    cbn [db_enqueued set_client_record add_notified set_queue_rows notified].
    rewrite drop_app_length. apply elem_of_app. right. apply list_elem_of_filter. split; [done|left].
  - destruct Hn as [Hn|Hn]; [left|right; by apply Hmono].
    apply select_from_nil. intros k m0. rewrite Hq. cbn.
    rewrite lookup_insert_ne by congruence. by apply select_from_nil.
Qed.

Lemma awake_ack w w' t ctx out id n res :
  ack db_ok id n w = (res, w') ->
  awake {| sys_world := w; sys_task := t; sys_ctx := ctx; sys_out := out |} ->
  awake {| sys_world := w'; sys_task := t; sys_ctx := ctx; sys_out := out |}.
Proof.
  intros Ha [Hc Hl Hs Hcm Hw]. split; cbn [sys_world sys_task sys_ctx] in *; [done|by eapply live_ack|done|done|].
  intros Hst. destruct (Hw Hst) as [Hb Hn]. split; [done|]. destruct Hn as [Hn|Hn]; [left|by right].
  unfold ack, queue_delete, mbind, M_bind in Ha.
  destruct (statement db_ok EnqueueStorage w) as [[[]|e] w1] eqn:Es.
  - apply statement_Ok in Es as [Hq _]. injection Ha as <- <-. apply select_from_nil.
    intros k m. cbn. intros [Hk _]%map_lookup_filter_Some. rewrite Hq in Hk.
    by eapply select_from_nil.
  - injection Ha as <- <-. apply statement_Err in Es. by rewrite Es.
Qed.

Lemma awake_command w t t' ctx out up : handle_command up t = Some t' ->
  awake {| sys_world := w; sys_task := t; sys_ctx := ctx; sys_out := out |} ->
  awake {| sys_world := w; sys_task := t'; sys_ctx := ctx; sys_out := out |}.
Proof.
  unfold handle_command. destruct (commands t) as [|cmd rest] eqn:Ec; [done|]. intros [= <-].
  intros [Hc Hl Hs Hcm Hw]. split; cbn [sys_world sys_task sys_ctx session commands] in *; [done|done| | |done].
  - destruct up; [|done]. destruct cmd as [x|x]; [set_solver|].
    apply elem_of_difference. split; [done|]. rewrite elem_of_singleton. intros Hx.
    apply (inj pg_channel) in Hx as ->. rewrite Ec in Hcm. apply Hcm. left.
  - rewrite Ec in Hcm. intros Hin. apply Hcm. by right.
Qed.

Lemma awake_track w t ctx out x : x <> c ->
  awake {| sys_world := w; sys_task := t; sys_ctx := ctx; sys_out := out |} ->
  awake {| sys_world := (track_listener x w).2; sys_task := push_commands (track_commands (listeners w) x) t;
           sys_ctx := ctx; sys_out := out |}.
Proof.
  intros Hne [Hc Hl Hs Hcm Hw]. destruct (live_track c x w Hne Hl) as [Hl' Hu].
  split; [done|done|done| |exact Hw]. cbn. intros [?|?]%elem_of_app; [by apply Hcm|by apply Hu].
Qed.

Lemma awake_reconnect w t ctx out : c ∉ in_flight t ->
  awake {| sys_world := w; sys_task := t; sys_ctx := ctx; sys_out := out |} ->
  awake {| sys_world := w; sys_task := reconnect t; sys_ctx := ctx; sys_out := out |}.
Proof.
  intros Hno [Hc Hl Hs Hcm Hw]. split; [done..|]. cbn in *. intros Hst. destruct (Hw Hst) as [Hb Hn].
  split; [done|]. destruct Hn as [Hn|[Hn|Hn]]; [by left| |right; by right].
  destruct Hno. apply list_elem_of_omap. exists (pg_channel c). split; [done|]. apply from_pg_channel_pg_channel.
Qed.

Lemma awake_notification w t t' ctx out :
  c ∉ overflow t -> handle_notification t = Some t' ->
  awake {| sys_world := w; sys_task := t; sys_ctx := ctx; sys_out := out |} ->
  awake {| sys_world := w; sys_task := t'; sys_ctx := ctx; sys_out := out |}.
Proof.
  unfold handle_notification. intros Hcap. destruct (received t) as [|ch rest] eqn:Er; [done|].
  intros [= <-] [Hc Hl Hs Hcm Hw]. split; cbn [sys_world sys_task sys_ctx session commands] in *;
    [done..|]. intros Hst. destruct (Hw Hst) as [Hb Hn]. split; [done|].
  destruct Hn as [Hn|Hn]; [by left|right]. unfold notified_of in *. cbn [received inbox]. rewrite Er in Hn.
  destruct Hn as [Hn|Hn].
  - apply elem_of_cons in Hn as [<-|Hn]; [right|by left]. rewrite from_pg_channel_pg_channel.
    unfold broadcast_send. case_match; apply elem_of_app; right; left.
  - right. destruct (from_pg_channel ch) as [x|]; [|done]. unfold broadcast_send, overflow in *.
    destruct (length (inbox t) <? BROADCAST_CAPACITY)%nat; apply elem_of_app; left; [done|].
    destruct (inbox t) as [|y l]; [done|]. cbn in *. set_solver.
Qed.

Lemma awake_turn s s' : listener_turn c s = Some s' -> awake s -> awake s'.
Proof.
  destruct s as [w t ctx out]. unfold listener_turn. cbn [sys_world sys_task sys_ctx sys_out].
  intros Ht [Hc Hl Hs Hcm Hw]. cbn [sys_world sys_task sys_ctx] in *.
  destruct (sc_buffer ctx) as [|m buf] eqn:Eb.
  - destruct (sc_state ctx) eqn:Est.
    + unfold stream_turn in Ht. rewrite Eb, Est in Ht. injection Ht as <-. by split.
    + unfold stream_turn, fetch_next_messages in Ht. rewrite Eb, Est, Hc in Ht. cbn [app] in Ht.
      destruct (fetch_into c (sc_sequence_number ctx) MAX_BUFFER_SIZE (qdb w)) as [|m l] eqn:Ef;
        cbn in Ht; injection Ht as <-; split; cbn; try done.
      intros _. split; [done|]. left. by eapply fetch_into_nil.
    + destruct (next_notification c (inbox t)) as [rest|]; [|discriminate]. cbn in Ht.
      unfold stream_turn in Ht. rewrite Eb, Est in Ht. injection Ht as <-. by split.
  - assert (sc_state ctx <> Wait) as Hnw by (intros Est; by destruct (Hw Est)).
    destruct (sc_state ctx) eqn:Est; [| |done]; unfold stream_turn in Ht; rewrite Eb in Ht;
      injection Ht as <-; split; cbn; congruence.
Qed.

End Awake.


(** ** Concrete runs *)

Module ToyText.

(** Identifiers in binary. *)
Definition zero : Ascii.ascii := Ascii.Ascii false false false false true true false false.
Definition one : Ascii.ascii := Ascii.Ascii true false false false true true false false.
Fixpoint bits (p : positive) : string :=
  match p with
  | xH => EmptyString
  | xO p => String zero (bits p)
  | xI p => String one (bits p)
  end.
Fixpoint unbits (s : string) : option positive :=
  match s with
  | EmptyString => Some xH
  | String a s => p ← unbits s; Some (if decide (a = zero) then xO p else xI p)
  end.

#[export] Instance toy_text : UuidText :=
  {| uuid_to_string := fun u => bits (encode u); uuid_parse := fun s => p ← unbits s; decode p |}.
#[export] Instance toy_text_laws : UuidTextLaws.
Proof.
  split. intros u. cbn.
  assert (forall p, unbits (bits p) = Some p) as Hp
    by (intros p; induction p as [p IH|p IH|]; cbn; [by rewrite IH|by rewrite IH|done]).
  rewrite Hp. cbn. apply decode_encode.
Qed.

End ToyText.

Section Evaluate_pg_listen.
Import Toy ToyKdf ToyQs ToyText.

(** A task with the given commands and channels. *)
Definition task (cmds : list (Command Uuid)) (chans : gset string) : PgTask Uuid :=
  {| commands := cmds; session := chans; received := []; inbox := [] |}.

(** A listener of client 1 that has found its queue empty and waits. *)
Definition waiting (w : QsWorld) (t : PgTask Uuid) : SystemState :=
  {| sys_world := w; sys_task := t;
     sys_ctx := {| sc_client_id := 1; sc_sequence_number := 0; sc_buffer := []; sc_state := Wait |};
     sys_out := [] |}.
Definition fetching (w : QsWorld) (t : PgTask Uuid) : SystemState :=
  {| sys_world := w; sys_task := t;
     sys_ctx := {| sc_client_id := 1; sc_sequence_number := 0; sc_buffer := []; sc_state := Fetch |};
     sys_out := [] |}.

(** Client 1 has connected, and then got a message. *)
Definition tracked : QsWorld := (track_listener 1 world0).2.
Definition enqueued : QsWorld := (do_enqueue up nonces12 1 hello tracked).2.

Lemma turn_fetching t : listener_turn 1 (sys_init 1 tracked t 0) = Some (fetching tracked t).
Proof. reflexivity. Qed.
Lemma turn_waiting t : listener_turn 1 (fetching tracked t) = Some (waiting tracked t).
Proof. vm_compute. reflexivity. Qed.

Lemma unread_enqueued t : unread 1 (waiting enqueued t).
Proof.
  unfold unread. cbn [sys_world sys_ctx waiting sc_sequence_number].
  intros Hn. apply (f_equal length) in Hn. vm_compute in Hn. discriminate Hn.
Qed.

(** The task after client 1 got a message. *)
Definition after_enqueue (t : PgTask Uuid) : PgTask Uuid :=
  deliver_notifications (drop (length (notified (qdb tracked))) (notified (qdb enqueued))) t.

Lemma step_enqueue_waiting t :
  sys_step up nonces12 1 (waiting tracked t) [] (waiting enqueued (after_enqueue t)).
Proof.
  apply (sys_enqueue up nonces12 1 tracked enqueued t _ _ 1 hello (fst (do_enqueue up nonces12 1 hello tracked))).
  apply surjective_pairing.
Qed.

(** The listener finds nothing and waits, and client 1 gets a message. *)
Lemma run_enqueued t : rtc (spares up nonces12 1) (sys_init 1 tracked t 0) (waiting enqueued (after_enqueue t)).
Proof.
  eapply rtc_l; [exists []; split; [apply sys_turn, turn_fetching|apply not_elem_of_nil]|].
  eapply rtc_l; [exists []; split; [apply sys_turn, turn_waiting|apply not_elem_of_nil]|].
  eapply rtc_l; [exists []; split; [apply step_enqueue_waiting|apply not_elem_of_nil]|apply rtc_refl].
Qed.


(** A message can be stored without anybody being told: the command to listen
    to a new listener's channel is only queued, so the listener can fetch (and find
    nothing), a message can be enqueued, and only then the connection starts to
    listen.  The listener then sleeps with a stored message and nothing on its way
    that would wake it. *)
Theorem wakeup_can_be_missed : exists w s,
  qs_queues (qdb w) = ∅ /\
  rtc (spares up nonces12 1)
    (sys_init 1 (track_listener 1 w).2 (task (track_commands (listeners w) 1) ∅) 0) s /\
  pg_channel 1 ∈ session (sys_task s) /\ asleep 1 s.
Proof.
  set (t0 := task [Listen 1] ∅).
  assert (handle_command true (after_enqueue t0) =
    Some {| commands := []; session := {[pg_channel 1]} ∪ ∅; received := []; inbox := [] |}) as Hc.
  { unfold handle_command, after_enqueue, deliver_notifications, t0, task.
    cbn [commands session received inbox]. do 2 f_equal. }
  exists world0, (waiting enqueued
    {| commands := []; session := {[pg_channel 1]} ∪ ∅; received := []; inbox := [] |}).
  split; [reflexivity|]. split; [|split].
  - etransitivity; [apply run_enqueued|]. eapply rtc_l; [|apply rtc_refl].
    exists []. split; [eapply sys_command; exact Hc|apply not_elem_of_nil].
  - cbn [sys_task waiting session]. apply elem_of_union. left. by apply elem_of_singleton.
  - split_and!; try reflexivity. apply unread_enqueued.
Qed.

End Evaluate_pg_listen.
