(* ===== verification/QsApiCorrect.v ===== *)
(** * The interface of the queue service: correctness

    The invariants of the tables, who may change what, and what happens to key
    packages between publication and hand-out. *)

From S2P Require Import Prelude Aead Ratchet Messages Grpc Qs QsCorrect QsApi QsGrpc.

Set Warnings "-clear-no-such-hyp".

(** ** Relations between the tables before and after an operation *)

(** A computation relates the tables before it to the tables after it, whether or
    not it fails. *)
Definition respects {E A} (R : QsDb -> QsDb -> Prop) (m : M QsWorld E A) : Prop :=
  forall w, R (qdb w) (qdb (m w).2).

Create HintDb respects.

Section Respects.
Context (R : QsDb -> QsDb -> Prop) `{!PreOrder R}.

Lemma respects_ret {E A} (a : A) : respects R (mret a : M QsWorld E A).
Proof. intros w. cbn. reflexivity. Qed.
Lemma respects_throw {E A} (e : E) : respects R (throw e : M QsWorld E A).
Proof. intros w. cbn. reflexivity. Qed.
Lemma respects_lift {E A} (r : Result E A) : respects R (lift r).
Proof. intros w. cbn. reflexivity. Qed.
Lemma respects_read {E} : respects R (get : M QsWorld E QsWorld).
Proof. intros w. cbn. reflexivity. Qed.
Lemma respects_bind {E A B} (m : M QsWorld E A) (f : A -> M QsWorld E B) :
  respects R m -> (forall a, respects R (f a)) -> respects R (m ≫= f).
Proof.
  intros Hm Hf w. unfold mbind, M_bind. specialize (Hm w). destruct (m w) as [[a|e] w1]; [|done].
  etrans; [exact Hm|apply Hf].
Qed.
Lemma respects_bind_with {E A B} (m : M QsWorld E A) (f : A -> M QsWorld E B) :
  respects R m -> (forall a w w', m w = (Ok a, w') -> respects R (f a)) -> respects R (m ≫= f).
Proof.
  intros Hm Hf w. unfold mbind, M_bind. specialize (Hm w). destruct (m w) as [[a|e] w1] eqn:Em; [|done].
  etrans; [exact Hm|by eapply Hf].
Qed.
(** After [get] the state is known. *)
Lemma respects_get {E B} (f : QsWorld -> M QsWorld E B) :
  (forall w, R (qdb w) (qdb (f w w).2)) -> respects R (get ≫= f).
Proof. intros Hf w. apply Hf. Qed.
Lemma respects_modify {E} (f : QsWorld -> QsWorld) :
  (forall w, R (qdb w) (qdb (f w))) -> respects R (modify f : M QsWorld E unit).
Proof. intros Hf w. apply Hf. Qed.
Lemma respects_map_errM {E F A} (f : E -> F) (m : M QsWorld E A) :
  respects R m -> respects R (map_errM f m).
Proof. intros Hm w. specialize (Hm w). unfold map_errM. by destruct (m w). Qed.
Lemma respects_try {E F A} (m : M QsWorld E A) : respects R m -> respects R (try_ (F := F) m).
Proof. intros Hm w. specialize (Hm w). unfold try_. by destruct (m w). Qed.
Lemma respects_mapM {E A} (f : A -> M QsWorld E unit) l :
  (forall a, respects R (f a)) -> respects R (mapM_ f l).
Proof. intros Hf. induction l; cbn; [apply respects_ret|by apply respects_bind]. Qed.
Lemma respects_statement {E} db_ok (e : E) : respects R (statement db_ok e).
Proof. intros w. unfold statement. case_match; reflexivity. Qed.
Lemma respects_transaction {E A} db_ok (e : E) (body : M QsWorld E A) :
  respects R body -> respects R (transaction db_ok e body).
Proof.
  intros Hb w.
  assert (respects R (_ ← statement db_ok e; body)) as Hsb
    by (apply respects_bind; [apply respects_statement|done]).
  specialize (Hsb w). unfold transaction.
  destruct ((_ ← statement db_ok e; body) w) as [[a|e'] w1]; cbn in *; [|reflexivity].
  pose proof (respects_statement db_ok e w1) as Hs.
  destruct (statement db_ok e w1) as [[?|?] w2]; cbn in *; [by etrans|reflexivity].
Qed.

End Respects.

(** Walk through a computation: structural lemmas first, then the operations in the
    hint database, then case analysis on the data it branches on. *)
Ltac respects_step :=
  match goal with
  | |- respects _ (mret _) => apply respects_ret; apply _
  | |- respects _ (throw _) => apply respects_throw; apply _
  | |- respects _ (lift _) => apply respects_lift; apply _
  | |- respects _ get => apply respects_read; apply _
  | |- respects _ (statement _ _) => apply respects_statement; apply _
  | |- respects _ (transaction _ _ _) => apply respects_transaction; [apply _|]
  | |- respects _ (map_errM _ _) => apply respects_map_errM
  | |- respects _ (try_ _) => apply respects_try
  | |- respects _ (mapM_ _ _) => apply respects_mapM; [apply _|intros ?]
  | |- respects _ (_ ≫= _) => apply respects_bind; [apply _| |intros ?]
  | |- respects _ (match ?x with _ => _ end) => destruct x
  | |- respects _ _ => solve [auto with respects]
  end.
Ltac respects := repeat respects_step.

(** ** Well-formed tables *)

(** Friendship tokens are unique, a client has a user, a live client has its
    blobs, a key package has a client and an identity that was handed out
    before, and a client has at most one package of last resort per table. *)
Record qs_wf (d : QsDb) : Prop := {
  wf_tokens u v a b : qs_user_record d !! u = Some a -> qs_user_record d !! v = Some b ->
    row_friendship_token a = row_friendship_token b -> u = v;
  wf_clients c r : qs_client_record d !! c = Some r -> is_Some (qs_user_record d !! row_user_id r);
  wf_blobs c r : qs_client_record d !! c = Some r -> is_live r = true -> is_Some (row_blobs r);
  wf_packages k n r : pt_rows (table k d) !! n = Some r ->
    n < pt_next (table k d) /\ is_Some (qs_client_record d !! pkg_client_id r);
  wf_last_resort k m n a b : pt_rows (table k d) !! m = Some a -> pt_rows (table k d) !! n = Some b ->
    pkg_client_id a = pkg_client_id b ->
    pkg_is_last_resort a = true -> pkg_is_last_resort b = true -> m = n
}.

Definition keeps_wf (d d' : QsDb) : Prop := qs_wf d -> qs_wf d'.
#[export] Instance keeps_wf_preorder : PreOrder keeps_wf.
Proof. split; [intros d Hd; exact Hd|]. intros a b c Hab Hbc Ha. exact (Hbc (Hab Ha)). Qed.

(** Writes to client rows and queues: users and packages stay, and so does the
    owner of every client. *)
Lemma wf_set_client d c r :
  (exists r0, qs_client_record d !! c = Some r0 /\ row_user_id r0 = row_user_id r /\
     (is_live r = true -> is_Some (row_blobs r))) ->
  keeps_wf d (set_client_record (<[c := r]> (qs_client_record d)) d).
Proof.
  intros (r0 & Hr0 & Hu & Hb) [Ht Hc Hbl Hp Hl]. split; cbn; [done| | | |exact Hl].
  - intros c' r'. destruct (decide (c = c')) as [<-|].
    + rewrite lookup_insert_eq. intros [= <-]. rewrite <- Hu. eauto.
    + rewrite lookup_insert_ne by done. eauto.
  - intros c' r'. destruct (decide (c = c')) as [<-|].
    + rewrite lookup_insert_eq. by intros [= <-].
    + rewrite lookup_insert_ne by done. eauto.
  - intros k n p Hn. destruct (Hp k n p) as [? Hs]; [by destruct k|].
    split; [by destruct k|]. destruct (decide (c = pkg_client_id p)) as [->|].
    + rewrite lookup_insert_eq. eauto.
    + by rewrite lookup_insert_ne.
Qed.

Lemma wf_same d d' : qs_client_record d' = qs_client_record d -> qs_user_record d' = qs_user_record d ->
  (forall k, table k d' = table k d) -> keeps_wf d d'.
Proof.
  intros Hc Hu Ht [? ? ? Hp Hl]. split; rewrite ?Hc, ?Hu; [done..| |]; intros k; rewrite Ht.
  - apply Hp.
  - apply Hl.
Qed.

(** Removing packages, and removing clients with their packages. *)
Definition sub_table (t t' : PackageTable) : Prop :=
  pt_next t' = pt_next t /\ forall n r, pt_rows t' !! n = Some r -> pt_rows t !! n = Some r.

Lemma wf_sub d d' : qs_client_record d' = qs_client_record d -> qs_user_record d' = qs_user_record d ->
  (forall k, sub_table (table k d) (table k d')) -> keeps_wf d d'.
Proof.
  intros Hc Hu Hs [Ht Hcl Hbl Hp Hl]. split; rewrite ?Hc, ?Hu; [done..| |].
  - intros k n r Hn. destruct (Hs k) as [-> Hsub]. apply Hsub in Hn. eauto.
  - intros k m n a b Ha Hb. destruct (Hs k) as [_ Hsub]. apply Hsub in Ha, Hb. eauto.
Qed.

Lemma sub_table_refl t : sub_table t t.
Proof. by split. Qed.

Lemma sub_table_filter (P : Z * PackageRow -> Prop) `{!forall x, Decision (P x)} t :
  sub_table t {| pt_next := pt_next t; pt_rows := filter P (pt_rows t) |}.
Proof. split; [done|]. cbn. intros n r Hn. by apply map_lookup_filter_Some in Hn as [? _]. Qed.

Lemma sub_table_set k t d : sub_table (table k d) t ->
  forall k', sub_table (table k' d) (table k' (set_table k t d)).
Proof. intros Hs []; destruct k; cbn; first [done|apply sub_table_refl]. Qed.

(** ** Inserted packages *)

Definition new_package (c : Uuid) (is_last_resort : bool) (blob : bytes) : PackageRow :=
  {| pkg_client_id := c; pkg_blob := blob; pkg_is_last_resort := is_last_resort |}.

Lemma insert_packages_next c b blobs t :
  pt_next (insert_packages c b blobs t) = pt_next t + Z.of_nat (length blobs).
Proof.
  revert t. induction blobs as [|x blobs IH]; intros t; cbn [insert_packages length]; [lia|].
  rewrite IH. cbn [pt_next]. lia.
Qed.

Lemma insert_packages_old c b blobs t n : n < pt_next t ->
  pt_rows (insert_packages c b blobs t) !! n = pt_rows t !! n.
Proof.
  revert t. induction blobs as [|x blobs IH]; intros t Hn; cbn [insert_packages]; [done|].
  rewrite IH by (cbn [pt_next]; lia). cbn [pt_rows]. rewrite lookup_insert_ne by lia. done.
Qed.

Lemma insert_packages_new c b blobs t i blob : blobs !! i = Some blob ->
  pt_rows (insert_packages c b blobs t) !! (pt_next t + Z.of_nat i) = Some (new_package c b blob).
Proof.
  revert t i. induction blobs as [|x blobs IH]; intros t i Hi; [done|]. cbn [insert_packages].
  destruct i as [|i]; cbn in Hi.
  - injection Hi as ->. rewrite insert_packages_old by (cbn [pt_next]; lia). cbn [pt_rows].
    rewrite Z.add_0_r, lookup_insert_eq. done.
  - specialize (IH {| pt_next := pt_next t + 1;
                      pt_rows := <[pt_next t:=new_package c b x]> (pt_rows t) |} i Hi).
    cbn [pt_next] in IH. rewrite <- IH. f_equal. lia.
Qed.

(** A row after an insertion was there before, or is one of the new ones. *)
Lemma insert_packages_inv c b blobs t n r :
  (forall n r, pt_rows t !! n = Some r -> n < pt_next t) ->
  pt_rows (insert_packages c b blobs t) !! n = Some r <->
  pt_rows t !! n = Some r \/
  exists i blob, blobs !! i = Some blob /\ n = pt_next t + Z.of_nat i /\ r = new_package c b blob.
Proof.
  intros Hlt. split.
  - revert t Hlt. induction blobs as [|x blobs IH]; intros t Hlt Hn; [by left|]. cbn in Hn.
    apply IH in Hn as [Hn|(i & blob & Hi & -> & ->)]; cbn [pt_rows pt_next] in *.
    + destruct (decide (n = pt_next t)) as [->|].
      * rewrite lookup_insert_eq in Hn. injection Hn as <-. right. exists 0%nat, x.
        split_and!; [done|lia|done].
      * rewrite lookup_insert_ne in Hn by done. by left.
    + right. exists (S i), blob. split_and!; [done|lia|done].
    + intros m r' Hm. destruct (decide (m = pt_next t)) as [->|]; [lia|].
      rewrite lookup_insert_ne in Hm by done. apply Hlt in Hm. lia.
  - intros [Hn|(i & blob & Hi & -> & ->)].
    + rewrite insert_packages_old; [done|by eapply Hlt].
    + by apply insert_packages_new.
Qed.

(** ** Operations and their tables *)

(** Identities are never reused: a row that was not there before is new. *)
Definition table_step (t t' : PackageTable) : Prop :=
  pt_next t <= pt_next t' /\
  forall n r, pt_rows t' !! n = Some r -> pt_rows t !! n = Some r \/ pt_next t <= n.

(** What every operation of the service does: it keeps the tables well-formed,
    and never reuses an identity. *)
Definition api_step (d d' : QsDb) : Prop :=
  keeps_wf d d' /\ forall k, table_step (table k d) (table k d').

#[export] Instance api_step_preorder : PreOrder api_step.
Proof.
  split.
  - intros d. split; [reflexivity|]. intros k. split; [lia|auto].
  - intros a b c [Hab Tab] [Hbc Tbc]. split; [by etrans|]. intros k.
    destruct (Tab k) as [Hn Hr], (Tbc k) as [Hn' Hr']. split; [lia|].
    intros n r [H|H]%Hr'; [auto|right; lia].
Qed.

Lemma table_step_refl t : table_step t t.
Proof. split; [lia|auto]. Qed.
Lemma table_step_sub t t' : sub_table t t' -> table_step t t'.
Proof. intros [Hn Hs]. split; [lia|]. intros n r Hr. left. by apply Hs. Qed.

Lemma api_step_same d d' : qs_client_record d' = qs_client_record d ->
  qs_user_record d' = qs_user_record d -> (forall k, table k d' = table k d) -> api_step d d'.
Proof.
  intros Hc Hu Ht. split; [by apply wf_same|]. intros k. rewrite Ht. apply table_step_refl.
Qed.
Lemma api_step_sub d d' : qs_client_record d' = qs_client_record d ->
  qs_user_record d' = qs_user_record d -> (forall k, sub_table (table k d) (table k d')) ->
  api_step d d'.
Proof. intros Hc Hu Ht. split; [by apply wf_sub|]. intros k. by apply table_step_sub. Qed.

Lemma table_cascade k gone d : table k (cascade_packages gone d) = drop_packages gone (table k d).
Proof. by destruct k. Qed.

Lemma token_taken_false d id token : token_taken d id token = false <->
  forall v b, qs_user_record d !! v = Some b -> v <> id -> row_friendship_token b <> token.
Proof.
  unfold token_taken. rewrite negb_false_iff, bool_decide_eq_true. split.
  - intros Hf v b Hv Hne Htok. apply elem_of_map_to_list in Hv.
    assert ((v, b) ∈ @nil (Z * UserRow)) as Hin; [|by apply not_elem_of_nil in Hin].
    rewrite <- Hf. by apply list_elem_of_filter.
  - intros Hno. match goal with |- ?l = [] => destruct l as [|[v b] l'] eqn:Ef; [done|] end.
    assert ((v, b) ∈ (v, b) :: l') as Hin by left. rewrite <- Ef in Hin.
    apply list_elem_of_filter in Hin as [[Hne Htok] Hin%elem_of_map_to_list].
    by destruct (Hno v b Hin Hne).
Qed.

Lemma owned_by_false d id c r : qs_client_record d !! c = Some r ->
  is_Some (qs_user_record d !! row_user_id r) -> owned_by d id c = false <-> row_user_id r <> id.
Proof.
  intros Hr Hu. unfold owned_by. rewrite bool_decide_eq_false, Hr. cbn. split.
  - intros Hn He. apply Hn. by rewrite <- He.
  - intros Hne [[= He] _]. done.
Qed.

Section Steps.
Context (db_ok : nat -> bool).

Lemma step_update_live id f :
  (forall r, row_user_id (f r) = row_user_id r /\
     (is_Some (row_blobs r) -> is_Some (row_blobs (f r)))) ->
  (forall r, row_deleted_at (f r) = row_deleted_at r) ->
  respects api_step (update_live db_ok id f).
Proof.
  intros Hf Hd. unfold update_live. apply respects_bind; [apply _|apply respects_statement; apply _|].
  intros _. apply respects_modify. intros w.
  destruct (qs_client_record (qdb w) !! id) as [r|] eqn:Er; [|reflexivity].
  destruct (is_live r) eqn:El; [|reflexivity]. destruct (Hf r) as [Hu Hb].
  split; [|intros []; apply table_step_refl].
  intros Hwf. apply wf_set_client; [|done]. exists r. split_and!; [done|done|].
  intros _. apply Hb. by eapply wf_blobs.
Qed.

Lemma step_client_store rec : respects api_step (client_store db_ok rec).
Proof.
  unfold client_store. apply respects_bind; [apply _|apply respects_statement; apply _|].
  intros _. apply respects_get. intros w.
  destruct (qs_client_record (qdb w) !! client_id rec) as [r|] eqn:Er; [reflexivity|].
  destruct (qs_user_record (qdb w) !! user_id rec) as [u|] eqn:Eu; [|reflexivity].
  split; [|intros []; apply table_step_refl].
  intros [Ht Hc Hbl Hp Hl]. split; cbn; [done| | | |exact Hl].
  - intros c r [[<- <-]|[_ Hn]]%lookup_insert_Some; [cbn; eauto|eauto].
  - intros c r [[<- <-]|[_ Hn]]%lookup_insert_Some; [cbn; eauto|eauto].
  - intros k n p Hn. destruct (Hp k n p) as [? [r Hr]]; [by destruct k|]. split; [by destruct k|].
    destruct (decide (client_id rec = pkg_client_id p)) as [He|]; [rewrite He in Er; congruence|].
    rewrite lookup_insert_ne by done. eauto.
Qed.

Lemma step_soft_delete id t : respects api_step (soft_delete db_ok id t).
Proof.
  unfold soft_delete. apply respects_bind; [apply _|apply respects_statement; apply _|].
  intros _. apply respects_modify. intros w.
  destruct (qs_client_record (qdb w) !! id) as [r|] eqn:Er; [|reflexivity].
  trans (cascade_packages (fun c => bool_decide (c = id)) (qdb w)).
  - apply api_step_sub; [done..|]. intros k. rewrite table_cascade. apply sub_table_filter.
  - split; [|intros []; apply table_step_refl].
    refine (wf_set_client (cascade_packages _ (qdb w)) id _ _). exists r. by split_and!.
Qed.

(** Writing a user row whose token nobody else holds. *)
Lemma step_set_user d u :
  token_taken d (ur_user_id u) (ur_friendship_token u) = false ->
  api_step d (set_users (<[ur_user_id u := user_row_of u]> (qs_user_record d)) d).
Proof.
  rewrite token_taken_false. intros Hfree. split; [|intros []; apply table_step_refl].
  intros [Ht Hc Hbl Hp Hl]. split; cbn; [| |done| |].
  - intros x y a b [[<- <-]|[Hx Ha]]%lookup_insert_Some [[<- <-]|[Hy Hb]]%lookup_insert_Some Heq;
      [done| | |by eapply Ht].
    + destruct (Hfree y b Hb); [congruence|done].
    + destruct (Hfree x a Ha); [congruence|done].
  - intros c r Hr. destruct (decide (ur_user_id u = row_user_id r)) as [->|].
    + rewrite lookup_insert_eq. eauto.
    + rewrite lookup_insert_ne by done. eauto.
  - intros k. specialize (Hp k). by destruct k.
  - intros k. specialize (Hl k). by destruct k.
Qed.

Lemma step_user_store {E} (e : E) u : respects api_step (user_store db_ok e u).
Proof.
  unfold user_store. apply respects_bind; [apply _|apply respects_statement; apply _|].
  intros _. apply respects_get. intros w.
  destruct (qs_user_record (qdb w) !! _); [reflexivity|].
  destruct (token_taken _ _ _) eqn:Et; [reflexivity|]. by apply step_set_user.
Qed.

Lemma step_user_update {E} (e : E) u : respects api_step (user_update db_ok e u).
Proof.
  unfold user_update. apply respects_bind; [apply _|apply respects_statement; apply _|].
  intros _. apply respects_get. intros w.
  destruct (qs_user_record (qdb w) !! _); [|reflexivity].
  destruct (token_taken _ _ _) eqn:Et; [reflexivity|]. by apply step_set_user.
Qed.

Lemma step_user_delete {E} (e : E) id : respects api_step (user_delete db_ok e id).
Proof.
  unfold user_delete. apply respects_bind; [apply _|apply respects_statement; apply _|].
  intros _. apply respects_modify. intros w. split.
  2:{ intros k. apply table_step_sub. destruct k; apply sub_table_filter. }
  intros [Ht Hc Hbl Hp Hl]. split; cbn.
  - intros u v a b [_ Ha]%lookup_delete_Some [_ Hb]%lookup_delete_Some. by apply Ht.
  - intros c r [Hr Hg]%map_lookup_filter_Some. cbn in Hg. pose proof (Hc _ _ Hr) as Hu.
    rewrite (owned_by_false _ _ _ _ Hr Hu) in Hg. by rewrite lookup_delete_ne.
  - intros c r [Hr _]%map_lookup_filter_Some. by eapply Hbl.
  - intros k n p Hn.
    assert (pt_rows (table k (qdb w)) !! n = Some p /\ owned_by (qdb w) id (pkg_client_id p) = false) as [Hn' Hg]
      by (destruct k; cbn in Hn; by apply map_lookup_filter_Some in Hn).
    destruct (Hp k n p Hn') as [? [r Hr]]. split; [by destruct k|]. exists r.
    by apply map_lookup_filter_Some.
  - intros k m n a b Ha Hb. apply (Hl k);
      [destruct k; cbn in Ha; by apply map_lookup_filter_Some in Ha as [? _]
      |destruct k; cbn in Hb; by apply map_lookup_filter_Some in Hb as [? _]].
Qed.

Lemma step_queue_enqueue id m : respects api_step (queue_enqueue db_ok id m).
Proof.
  unfold queue_enqueue. apply respects_bind; [apply _|apply respects_statement; apply _|].
  intros _. apply respects_get. intros w. case_match; [reflexivity|].
  by apply api_step_same; [..|intros []].
Qed.
Lemma step_pg_notify id : respects api_step (pg_notify db_ok id).
Proof.
  unfold pg_notify. apply respects_bind; [apply _|apply respects_statement; apply _|].
  intros _. apply respects_modify. intros w. by apply api_step_same; [..|intros []].
Qed.
Lemma step_queue_delete id n : respects api_step (queue_delete db_ok id n).
Proof.
  unfold queue_delete. apply respects_bind; [apply _|apply respects_statement; apply _|].
  intros _. apply respects_modify. intros w. by apply api_step_same; [..|intros []].
Qed.

End Steps.

(** ** Replacing and handing out packages *)

Lemma set_table_table k t d : table k (set_table k t d) = t.
Proof. by destruct k. Qed.
Lemma set_table_twice k t t' d : set_table k t (set_table k t' d) = set_table k t d.
Proof. by destruct k. Qed.
Lemma set_table_other k k' t d : k <> k' -> table k' (set_table k t d) = table k' d.
Proof. by destruct k, k'. Qed.

(** The table after the packages of a client were replaced. *)
Definition replaced_packages (c : Uuid) (b : bool) (blobs : list bytes) (t : PackageTable) : PackageTable :=
  insert_packages c b blobs (clear_packages c b t).

Lemma clear_packages_lookup c b t n r : pt_rows (clear_packages c b t) !! n = Some r <->
  pt_rows t !! n = Some r /\ ~ (pkg_client_id r = c /\ pkg_is_last_resort r = b).
Proof. apply map_lookup_filter_Some. Qed.

Lemma replaced_packages_lookup c b blobs t n r :
  (forall n r, pt_rows t !! n = Some r -> n < pt_next t) ->
  pt_rows (replaced_packages c b blobs t) !! n = Some r <->
  (pt_rows t !! n = Some r /\ ~ (pkg_client_id r = c /\ pkg_is_last_resort r = b)) \/
  exists i blob, blobs !! i = Some blob /\ n = pt_next t + Z.of_nat i /\ r = new_package c b blob.
Proof.
  intros Hlt. unfold replaced_packages. rewrite insert_packages_inv, clear_packages_lookup; [done|].
  intros m p [Hm _]%clear_packages_lookup. by eapply Hlt.
Qed.

Lemma wf_replaced k c b blobs d : is_Some (qs_client_record d !! c) ->
  (b = true -> (length blobs <= 1)%nat) ->
  keeps_wf d (set_table k (replaced_packages c b blobs (table k d)) d).
Proof.
  intros Hc Hb [Ht Hcl Hbl Hp Hl].
  assert (forall n r, pt_rows (table k d) !! n = Some r -> n < pt_next (table k d)) as Hlt
    by (intros n r Hn; by apply Hp in Hn as [? _]).
  split; [done..| |].
  - intros k' n r Hn. destruct (decide (k = k')) as [<-|Hne];
      [|rewrite set_table_other in Hn |- * by done; by apply Hp].
    rewrite set_table_table in Hn |- *. unfold replaced_packages at 1.
    rewrite insert_packages_next. cbn [pt_next clear_packages].
    apply replaced_packages_lookup in Hn as [[Hn _]|(i & blob & Hi & -> & ->)]; [| |done].
    + destruct (Hp _ _ _ Hn). split; [lia|done].
    + apply lookup_lt_Some in Hi. split; [lia|done].
  - intros k' m n x y Hx Hy. destruct (decide (k = k')) as [<-|Hne];
      [|rewrite set_table_other in Hx, Hy by done; by eapply Hl].
    rewrite set_table_table in Hx, Hy. intros Hcc Hlx Hly.
    apply replaced_packages_lookup in Hx as [[Hx Hnx]|(i & bl & Hi & -> & ->)]; [| |done];
      apply replaced_packages_lookup in Hy as [[Hy Hny]|(j & bl' & Hj & -> & ->)];
      [| |done| | |done]; cbn in *.
    + by eapply Hl.
    + subst. by destruct Hnx.
    + subst. by destruct Hny.
    + subst. apply lookup_lt_Some in Hi, Hj. specialize (Hb eq_refl). lia.
Qed.

Lemma table_step_replaced c b blobs t : table_step t (replaced_packages c b blobs t).
Proof.
  split.
  - unfold replaced_packages. rewrite insert_packages_next. cbn [pt_next clear_packages]. lia.
  - intros n r Hn. destruct (decide (n < pt_next t)); [left|right; lia].
    unfold replaced_packages in Hn. rewrite insert_packages_old in Hn by done.
    by apply clear_packages_lookup in Hn as [? _].
Qed.

Lemma table_step_set k t d : table_step (table k d) t ->
  forall k', table_step (table k' d) (table k' (set_table k t d)).
Proof.
  intros Hs k'. destruct (decide (k = k')) as [<-|Hne].
  - by rewrite set_table_table.
  - rewrite set_table_other by done. apply table_step_refl.
Qed.

Section Packages.
Context (db_ok : nat -> bool) {K : Type} `{!StorableKeyPackage K}.

(** The outcomes of a replacement. *)
Lemma replace_multiple_internal_db {E} (e : E) c key_packages b w r w' :
  replace_multiple_internal db_ok e c key_packages b w = (r, w') ->
  match r with
  | Ok _ => key_packages = [] /\ qdb w' = qdb w \/
      exists blobs, key_packages <> [] /\
        Forall2 (fun k bl => encoded k = Some bl) key_packages blobs /\
        is_Some (qs_client_record (qdb w) !! c) /\
        qdb w' = set_table TABLE_NAME (replaced_packages c b blobs (table TABLE_NAME (qdb w))) (qdb w)
  | Err _ => qdb w' = qdb w \/
      qdb w' = set_table TABLE_NAME (clear_packages c b (table TABLE_NAME (qdb w))) (qdb w)
  end.
Proof.
  unfold replace_multiple_internal. destruct key_packages as [|k0 ks]; [intros [= <- <-]; auto|].
  unfold mbind at 1, M_bind at 1.
  destruct (statement db_ok e w) as [[[]|e1] w1] eqn:Es;
    [apply statement_Ok in Es as [Hq _]|apply statement_Err in Es; intros [= <- <-]; auto].
  unfold mbind at 1, M_bind at 1, modify at 1. unfold mbind at 1, M_bind at 1, lift at 1.
  destruct (mapM_r _ (k0 :: ks)) as [blobs|e1] eqn:Eb;
    [|intros [= <- <-]; right; cbn; by rewrite Hq].
  unfold mbind at 1, M_bind at 1.
  destruct (statement db_ok e _) as [[[]|e1] w2] eqn:Es2;
    [apply statement_Ok in Es2 as [Hq2 _]
    |apply statement_Err in Es2; intros [= <- <-]; right; rewrite Es2; cbn; by rewrite Hq].
  unfold mbind at 1, M_bind at 1, get at 1. cbn [qdb set_db] in Hq2. rewrite Hq in Hq2.
  rewrite Hq2. cbn [set_table qs_client_record].
  destruct (qs_client_record (qdb w) !! c) as [row|] eqn:Ec;
    [|intros [= <- <-]; right; by rewrite Hq2].
  intros [= <- <-]. right. exists blobs. split_and!; [done| |done|].
  - apply mapM_r_Ok in Eb. eapply Forall2_impl; [exact Eb|]. intros k bl Hk. by apply ok_or_Ok in Hk.
  - cbn [qdb set_db]. by rewrite set_table_table, set_table_twice.
Qed.

Lemma step_replace {E} (e : E) c key_packages b : (b = true -> (length key_packages <= 1)%nat) ->
  respects api_step (replace_multiple_internal db_ok e c key_packages b).
Proof.
  intros Hb w. destruct (replace_multiple_internal _ _ _ _ _ w) as [r w'] eqn:E1.
  apply replace_multiple_internal_db in E1. cbn. destruct r as [u|e'].
  - destruct E1 as [[_ ->]|(blobs & _ & Hf & Hc & ->)]; [reflexivity|]. split.
    + apply wf_replaced; [done|]. intros Hbt. apply Forall2_length in Hf. specialize (Hb Hbt). lia.
    + apply table_step_set, table_step_replaced.
  - destruct E1 as [->| ->]; [reflexivity|]. apply api_step_sub; [done..|].
    apply sub_table_set. apply sub_table_filter.
Qed.

End Packages.

(** ** Handing out packages *)

(** The packages of a client that can be handed out once, or always. *)
Definition single_use (t : PackageTable) (c : Uuid) (n : Z) : Prop :=
  exists r, pt_rows t !! n = Some r /\ pkg_client_id r = c /\ pkg_is_last_resort r = false.

Section Selection.
Context (d : QsDb) (users : list Uuid) (t : PackageTable) (rows : list (Z * PackageRow)).
Context (Hrows : rows ≡ₚ map_to_list (pt_rows t)).

Lemma elem_of_rows_table n r : (n, r) ∈ rows <-> pt_rows t !! n = Some r.
Proof. rewrite Hrows. apply elem_of_map_to_list. Qed.

Lemma elem_of_ranked c x : x ∈ ranked_packages rows c <-> x ∈ rows /\ pkg_client_id x.2 = c.
Proof.
  unfold ranked_packages. rewrite elem_of_app, !list_elem_of_filter.
  destruct (pkg_is_last_resort x.2); naive_solver.
Qed.

Lemma elem_of_selected x : x ∈ selected_key_packages d users rows <->
  x ∈ rows /\ is_client_of d users (pkg_client_id x.2) = true /\
  head (ranked_packages rows (pkg_client_id x.2)) = Some x.
Proof. unfold selected_key_packages. rewrite list_elem_of_filter. tauto. Qed.

(** A package of last resort is selected only if its client has no other. *)
Lemma head_ranked_last c n r m : head (ranked_packages rows c) = Some (n, r) ->
  pkg_is_last_resort r = true -> ~ single_use t c m.
Proof.
  unfold ranked_packages. intros Hh Hl (p & Hp & Hc & Hf).
  destruct (filter (fun x => pkg_client_id x.2 = c /\ pkg_is_last_resort x.2 = false) rows)
    as [|y l] eqn:Ef.
  - assert ((m, p) ∈ @nil (Z * PackageRow)) as Hin; [|by apply not_elem_of_nil in Hin].
    rewrite <- Ef. apply list_elem_of_filter. by rewrite elem_of_rows_table.
  - cbn in Hh. injection Hh as ->.
    assert ((n, r) ∈ (n, r) :: l) as Hin by left. rewrite <- Ef in Hin.
    apply list_elem_of_filter in Hin as [[_ Hlf] _]. cbn in Hlf. congruence.
Qed.

Lemma head_ranked_single c m : single_use t c m ->
  exists n r, head (ranked_packages rows c) = Some (n, r) /\ (n, r) ∈ rows /\
    pkg_client_id r = c /\ pkg_is_last_resort r = false.
Proof.
  intros (p & Hp & Hc & Hf). unfold ranked_packages.
  destruct (filter (fun x => pkg_client_id x.2 = c /\ pkg_is_last_resort x.2 = false) rows)
    as [|[n r] l] eqn:Ef.
  - assert ((m, p) ∈ @nil (Z * PackageRow)) as Hin; [|by apply not_elem_of_nil in Hin].
    rewrite <- Ef. apply list_elem_of_filter. by rewrite elem_of_rows_table.
  - exists n, r. split; [done|]. assert ((n, r) ∈ (n, r) :: l) as Hin by left.
    rewrite <- Ef in Hin. apply list_elem_of_filter in Hin as [[? ?] ?]. done.
Qed.

(** The identities that the deletion removes: one single-use package of each
    client of the users that has any. *)
Definition taken : list Z :=
  map fst (filter (fun y => pkg_is_last_resort y.2 = false) (selected_key_packages d users rows)).

Lemma elem_of_taken n : n ∈ taken <-> exists r, pt_rows t !! n = Some r /\
  pkg_is_last_resort r = false /\ is_client_of d users (pkg_client_id r) = true /\
  head (ranked_packages rows (pkg_client_id r)) = Some (n, r).
Proof.
  unfold taken. rewrite list_elem_of_fmap. split.
  - intros ([n' r] & -> & [Hl (Hr & Hc & Hh)%elem_of_selected]%list_elem_of_filter).
    exists r. rewrite <- elem_of_rows_table. done.
  - intros (r & Hr & Hl & Hc & Hh). exists (n, r). split; [done|].
    rewrite list_elem_of_filter, elem_of_selected, elem_of_rows_table. done.
Qed.

Lemma taken_one_per_client c m : is_client_of d users c = true -> single_use t c m ->
  exists n, n ∈ taken /\ single_use t c n /\ forall n', n' ∈ taken -> single_use t c n' -> n' = n.
Proof.
  intros Hc Hs. destruct (head_ranked_single c m Hs) as (n & r & Hh & Hin & Hcr & Hl).
  exists n. apply elem_of_rows_table in Hin. split_and!.
  - apply elem_of_taken. exists r. by rewrite Hcr.
  - by exists r.
  - intros n' (r' & Hr' & Hl' & Hc' & Hh')%elem_of_taken (r'' & Hr'' & Hcc & _).
    rewrite Hr' in Hr''. injection Hr'' as <-. rewrite Hcc, Hh in Hh'. by injection Hh'.
Qed.

Lemma deleted_lookup n r :
  pt_rows (deleted_packages (selected_key_packages d users rows) t) !! n = Some r <->
  pt_rows t !! n = Some r /\ n ∉ taken.
Proof. apply map_lookup_filter_Some. Qed.

Lemma head_selected_None : head (selected_key_packages d users rows) = None ->
  forall n r, pt_rows t !! n = Some r -> is_client_of d users (pkg_client_id r) = false.
Proof.
  intros Hn n r Hr. destruct (is_client_of _ _ _) eqn:Ec; [|done].
  destruct (ranked_packages rows (pkg_client_id r)) as [|y l] eqn:Er.
  - assert ((n, r) ∈ ranked_packages rows (pkg_client_id r)) as Hin
      by (apply elem_of_ranked; by rewrite elem_of_rows_table).
    rewrite Er in Hin. by apply not_elem_of_nil in Hin.
  - assert (y ∈ ranked_packages rows (pkg_client_id r)) as [Hy Hyc]%elem_of_ranked
      by (rewrite Er; left).
    assert (y ∈ selected_key_packages d users rows) as Hin.
    { apply elem_of_selected. rewrite Hyc, Er. done. }
    destruct (selected_key_packages d users rows); [by apply not_elem_of_nil in Hin|done].
Qed.

End Selection.

Section Loading.
Context (db_ok : nat -> bool).
Context (scan : nat -> list (Z * PackageRow) -> list (Z * PackageRow)).
Context (Hscan : forall n l, scan n l ≡ₚ l).
Context {K : Type} `{!StorableKeyPackage K}.

(** The rows in the order of the scan of the loading statement. *)
Definition load_rows (w : QsWorld) (s : nat) : list (Z * PackageRow) :=
  scan s (map_to_list (pt_rows (table TABLE_NAME (qdb w)))).

Lemma load_rows_perm w s : load_rows w s ≡ₚ map_to_list (pt_rows (table TABLE_NAME (qdb w))).
Proof. apply Hscan. Qed.

Lemma load_row_Ok {E} (e : E) token w n r k w' :
  load_user_key_package_row db_ok scan e token w = (Ok (n, r, k), w') ->
  exists s, let rows := load_rows w s in
    let users := user_info (qdb w) token in
    let selected := selected_key_packages (qdb w) users rows in
    (length users < 2)%nat /\ head selected = Some (n, r) /\ decoded (pkg_blob r) = Some k /\
    qdb w' = set_table TABLE_NAME (deleted_packages selected (table TABLE_NAME (qdb w))) (qdb w).
Proof.
  unfold load_user_key_package_row. intros (w0 & w1 & Hs0 & Hb & Hs1)%transaction_Ok.
  apply statement_Ok in Hs0 as [Hq0 _], Hs1 as [Hq1 _].
  bindM Hb as [] w2 Hs2. apply statement_Ok in Hs2 as [Hq2 _].
  bindM Hb as w3 w4 Hg. leafM Hg. rewrite Hq2, Hq0 in Hb.
  destruct (2 <=? length (user_info (qdb w) token))%nat eqn:Eu; [leafM Hb|].
  bindM Hb as [] w5 Hm. leafM Hm. bindM Hb as row w6 Hr. leafM Hr. apply ok_or_Ok in Hr.
  bindM Hb as k' w7 Hk. leafM Hk. apply ok_or_Ok in Hk. injection Hb as -> -> <-.
  eexists. cbv zeta. split_and!; [by apply Nat.leb_gt|exact Hr|exact Hk|]. by rewrite Hq1.
Qed.

Lemma load_row_up {E} (e : E) token w : (forall n, db_ok n = true) ->
  let '(res, w') := load_user_key_package_row db_ok scan e token w in
  match res with
  | Ok _ => True
  | Err _ => (2 <= length (user_info (qdb w) token))%nat \/
      (forall n r, pt_rows (table TABLE_NAME (qdb w)) !! n = Some r ->
         is_client_of (qdb w) (user_info (qdb w) token) (pkg_client_id r) = false) \/
      exists n r, pt_rows (table TABLE_NAME (qdb w)) !! n = Some r /\ decoded (K := K) (pkg_blob r) = None
  end.
Proof.
  intros Hup. unfold load_user_key_package_row, transaction.
  assert (forall w, exists w', statement db_ok e w = (Ok tt, w') /\ qdb w' = qdb w) as Hst.
  { intros w0. destruct (statement_up db_ok Hup e w0) as (w' & Hs & Hq & _). by exists w'. }
  destruct (Hst w) as (w1 & Hs1 & Hq1). destruct (Hst w1) as (w2 & Hs2 & Hq2).
  unfold mbind, M_bind. rewrite Hs1, Hs2. cbn [get]. unfold get. rewrite Hq2, Hq1.
  destruct (2 <=? length (user_info (qdb w) token))%nat eqn:Eu;
    [cbn; left; by apply Nat.leb_le|]. unfold modify. cbv beta iota zeta.
  set (rows := scan (statements w2) _). set (selected := selected_key_packages _ _ rows).
  assert (rows ≡ₚ map_to_list (pt_rows (table TABLE_NAME (qdb w)))) as Hperm by apply Hscan.
  destruct (head selected) as [[n r]|] eqn:Eh; unfold lift; cbn [ok_or].
  - destruct (decoded (pkg_blob (n, r).2)) as [k|] eqn:Ed; cbn [ok_or].
    + destruct (Hst (set_db (set_table TABLE_NAME (deleted_packages selected
        (table TABLE_NAME (qdb w))) (qdb w)) w2)) as (w3 & Hs3 & _). unfold mret, M_ret. by rewrite Hs3.
    + right; right. exists n, r. split; [|done].
      assert ((n, r) ∈ selected) as (Hin & _)%elem_of_selected
        by (destruct selected; [done|]; injection Eh as ->; left).
      by rewrite <- (elem_of_rows_table _ _ Hperm).
  - right; left. eapply head_selected_None; [exact Hperm|exact Eh].
Qed.

Lemma step_load {E} (e : E) token :
  respects api_step (load_user_key_package_row (K := K) db_ok scan e token).
Proof.
  intros w. destruct (load_user_key_package_row db_ok scan e token w) as [[[[n r] k]|e'] w'] eqn:El; cbn.
  - apply load_row_Ok in El as (s & _ & _ & _ & ->). apply api_step_sub; [done..|].
    apply sub_table_set. apply sub_table_filter.
  - apply transaction_Err in El. rewrite El. reflexivity.
Qed.

(** The row that is handed out was in the table, and is not any more unless it is
    a last resort. *)
Lemma load_row_taken {E} (e : E) token w n r k w' :
  load_user_key_package_row (K := K) db_ok scan e token w = (Ok (n, r, k), w') ->
  pt_rows (table TABLE_NAME (qdb w)) !! n = Some r /\
  (pkg_is_last_resort r = false -> pt_rows (table TABLE_NAME (qdb w')) !! n = None).
Proof.
  intros (s & _ & Hh & _ & Hq)%load_row_Ok. pose proof (load_rows_perm w s) as Hperm.
  assert ((n, r) ∈ selected_key_packages (qdb w) (user_info (qdb w) token) (load_rows w s))
    as (Hin & Hc & Hhr)%elem_of_selected
    by (destruct (selected_key_packages _ _ _); [done|]; injection Hh as ->; left).
  apply (elem_of_rows_table _ _ Hperm) in Hin. split; [done|]. intros Hl.
  rewrite Hq, set_table_table. apply eq_None_not_Some. intros [p Hp].
  apply (deleted_lookup _ _ _ _) in Hp as [_ Hnt]. apply Hnt.
  apply (elem_of_taken _ _ _ _ Hperm). by exists r.
Qed.

End Loading.

(** A key package is handed out exactly as promised: the caller gets a
    package of a client of the one user that holds the friendship token, a
    package of last resort only if that client has no other; of every client of
    the user exactly one single-use package leaves the table, whether it is the
    one handed out or not; nothing else changes.  A failure changes nothing, and
    with the database up it means that there is no package to hand out (or a
    stored one cannot be decoded). *)
Theorem load_user_key_package_exact (db_ok : nat -> bool)
    (scan : nat -> list (Z * PackageRow) -> list (Z * PackageRow))
    {K E : Type} `{!StorableKeyPackage K} (e : E) (token : bytes) (w : QsWorld) :
  (forall n l, scan n l ≡ₚ l) ->
  let '(res, w') := load_user_key_package_row (K := K) db_ok scan e token w in
  let t := table TABLE_NAME (qdb w) in
  let users := user_info (qdb w) token in
  match res with
  | Ok (n, r, k) =>
      pt_rows t !! n = Some r /\ decoded (pkg_blob r) = Some k /\
      is_client_of (qdb w) users (pkg_client_id r) = true /\
      (pkg_is_last_resort r = true -> forall m, ~ single_use t (pkg_client_id r) m) /\
      exists gone : list Z,
        (pkg_is_last_resort r = false -> n ∈ gone) /\
        (forall m, m ∈ gone -> exists c, is_client_of (qdb w) users c = true /\ single_use t c m) /\
        (forall c m, is_client_of (qdb w) users c = true -> single_use t c m ->
           exists x, x ∈ gone /\ single_use t c x /\
             forall y, y ∈ gone -> single_use t c y -> y = x) /\
        exists t', qdb w' = set_table TABLE_NAME t' (qdb w) /\ pt_next t' = pt_next t /\
          forall m p, pt_rows t' !! m = Some p <-> pt_rows t !! m = Some p /\ m ∉ gone
  | Err _ =>
      qdb w' = qdb w /\
      ((forall n, db_ok n = true) ->
         (2 <= length users)%nat \/
         (forall n r, pt_rows t !! n = Some r -> is_client_of (qdb w) users (pkg_client_id r) = false) \/
         exists n r, pt_rows t !! n = Some r /\ decoded (K := K) (pkg_blob r) = None)
  end.
Proof.
  intros Hscan. pose proof (load_row_up db_ok scan Hscan (K := K) e token w) as Hup.
  destruct (load_user_key_package_row db_ok scan e token w) as [[[[n r] k]|e'] w'] eqn:El.
  2:{ split; [by eapply transaction_Err|]. exact Hup. }
  clear Hup. apply load_row_Ok in El as (s & _ & Hh & Hd & Hq).
  pose proof (load_rows_perm scan Hscan w s) as Hperm.
  assert ((n, r) ∈ selected_key_packages (qdb w) (user_info (qdb w) token) (load_rows scan w s))
    as (Hin & Hc & Hhr)%elem_of_selected
    by (destruct (selected_key_packages _ _ _); [done|]; injection Hh as ->; left).
  apply (elem_of_rows_table _ _ Hperm) in Hin. split_and!; [done..| |].
  - intros Hl m. by eapply head_ranked_last.
  - exists (taken (qdb w) (user_info (qdb w) token) (load_rows scan w s)). split_and!.
    + intros Hl. apply (elem_of_taken _ _ _ _ Hperm). by exists r.
    + intros m (p & Hp & Hl & Hcp & _)%(elem_of_taken _ _ _ _ Hperm).
      exists (pkg_client_id p). split; [done|]. by exists p.
    + intros c m. by apply taken_one_per_client.
    + eexists. split; [exact Hq|]. split; [done|]. intros m p. apply deleted_lookup.
Qed.

(** ** Runs of the service *)

Section Service.
Context (db_ok : nat -> bool) (nonce_of : nat -> Result RandomnessErr bytes).
Context (push : bytes -> Result PushNotificationError unit).
Context (uuid_of : nat -> Uuid) (now : nat -> TimeStamp).
Context (scan : nat -> list (Z * PackageRow) -> list (Z * PackageRow)).
Context (ago : Interval -> TimeStamp -> TimeStamp).
Context (domain : Fqdn) (client_config_decrypt : bytes -> bytes -> Result DecryptionErr ClientConfig).
Context (deliver : bytes -> Fqdn -> bool).
Context `{Hkdf} `{Aes256Gcm} `{!TlsCodec bytes} `{!TlsCodec QsQueueMessagePayload}
  `{!TlsCodec QsToQsMessage} `{MlsKeyPackages} `{Semver}.
Context (client_version_req : option VersionReq).
Context `{!VerifiableRequest UpdateUserPayload} `{!VerifiableRequest DeleteUserPayload}
  `{!VerifiableRequest CreateClientPayload} `{!VerifiableRequest UpdateClientPayload}
  `{!VerifiableRequest DeleteClientPayload} `{!VerifiableRequest PublishKeyPackagesPayload}
  `{!VerifiableRequest PublishApqKeyPackagesPayload} `{!VerifiableRequest InitListenPayload}.

(** The requests the service answers, and the messages the delivery service hands
    to it. *)
Inductive QsOp :=
| OpCreateUser (r : CreateUserRequest)
| OpUpdateUser (r : QsRequest UpdateUserPayload)
| OpDeleteUser (r : QsRequest DeleteUserPayload)
| OpCreateClient (r : QsRequest CreateClientPayload)
| OpUpdateClient (r : QsRequest UpdateClientPayload)
| OpDeleteClient (r : QsRequest DeleteClientPayload)
| OpPublish (r : QsRequest PublishKeyPackagesPayload)
| OpPublishApq (r : QsRequest PublishApqKeyPackagesPayload)
| OpKeyPackage (r : KeyPackageRequest)
| OpApqKeyPackage (r : KeyPackageRequest)
| OpEncryptionKey (m : option ClientMetadata)
| OpListen (first : option (Result Status (option ListenRequest)))
| OpListenRequest (queue_id : Uuid) (r : Result Status (option ListenRequest))
| OpEnqueue (m : DsFanOutMessage).

(** The single-use row that a hand-out gives away. *)
Definition given {A} (k : PackageKind) (r : Result Failure (Z * PackageRow * A)) :
    list (PackageKind * Z) :=
  match r with
  | Ok (n, p, _) => if pkg_is_last_resort p then [] else [(k, n)]
  | Err _ => []
  end.

Definition run_op (o : QsOp) (w : QsWorld) : QsWorld * list (PackageKind * Z) :=
  match o with
  | OpCreateUser r => ((create_user db_ok uuid_of now client_version_req r w).2, [])
  | OpUpdateUser r => ((update_user db_ok client_version_req r w).2, [])
  | OpDeleteUser r => ((delete_user db_ok client_version_req r w).2, [])
  | OpCreateClient r => ((create_client db_ok uuid_of now client_version_req r w).2, [])
  | OpUpdateClient r => ((update_client db_ok client_version_req r w).2, [])
  | OpDeleteClient r => ((delete_client db_ok now client_version_req r w).2, [])
  | OpPublish r => ((publish_key_packages db_ok client_version_req r w).2, [])
  | OpPublishApq r => ((publish_apq_key_packages db_ok client_version_req r w).2, [])
  | OpKeyPackage r =>
      let '(x, w') := key_package_row db_ok scan client_version_req kp_serialize r w in
      (w', given ClassicPackage x)
  | OpApqKeyPackage r =>
      let '(x, w') := key_package_row db_ok scan client_version_req serialize_apq r w in
      (w', given ApqPackage x)
  | OpEncryptionKey m => ((encryption_key_handler db_ok client_version_req m w).2, [])
  | OpListen first => ((listen db_ok now ago client_version_req first w).2, [])
  | OpListenRequest q r => ((process_listen_queue_request db_ok q r w).2, [])
  | OpEnqueue m =>
      ((enqueue_message db_ok nonce_of push domain client_config_decrypt deliver m w).2, [])
  end.

Fixpoint run_ops (ops : list QsOp) (w : QsWorld) : QsWorld * list (PackageKind * Z) :=
  match ops with
  | [] => (w, [])
  | o :: ops =>
      let '(w1, l1) := run_op o w in
      let '(w2, l2) := run_ops ops w1 in
      (w2, l1 ++ l2)
  end.

Hint Resolve step_client_store step_soft_delete step_user_store step_user_update step_user_delete
  step_queue_enqueue step_pg_notify step_queue_delete step_replace step_load : respects.

Lemma step_update_activity_time id t : respects api_step (update_activity_time db_ok id t).
Proof. by apply step_update_live. Qed.
Lemma step_client_update rec : respects api_step (client_update db_ok rec).
Proof. apply step_update_live; [|done]. intros r. split; [done|]. intros _. cbn. eauto. Qed.
Lemma step_update_queue_ratchet rec : respects api_step (update_queue_ratchet db_ok rec).
Proof.
  apply step_update_live; [|done]. intros r. split; [done|]. intros [b Hb]. cbn. rewrite Hb. cbn. eauto.
Qed.
Lemma step_delete_push_token rec : respects api_step (delete_push_token db_ok rec).
Proof.
  unfold delete_push_token. destruct (encrypted_push_token rec); [|apply respects_ret; apply _].
  apply step_update_live; intros r; case_decide; done.
Qed.
Lemma step_load_for_update id : respects api_step (load_for_update db_ok id).
Proof. unfold load_for_update. respects. Qed.
Lemma step_load_client_ids id : respects api_step (load_client_ids db_ok id).
Proof. unfold load_client_ids. respects. Qed.
Lemma step_load_decryption_key {E} (e : E) : respects api_step (load_decryption_key db_ok e).
Proof. unfold load_decryption_key. respects. Qed.
Lemma step_user_load {E} (e : E) id : respects api_step (user_load db_ok e id).
Proof. unfold user_load. respects. Qed.
Lemma step_user_metrics {E} (e : E) : respects api_step (user_metrics db_ok now ago e).
Proof. unfold user_metrics. respects. Qed.

Hint Resolve step_update_activity_time step_client_update step_update_queue_ratchet
  step_delete_push_token step_load_for_update step_load_client_ids step_load_decryption_key
  step_user_load step_user_metrics : respects.

(** Computations that write nothing to the tables. *)
Lemma step_silent {E A} (m : M QsWorld E A) : (forall w, qdb (m w).2 = qdb w) -> respects api_step m.
Proof. intros Hm w. rewrite Hm. reflexivity. Qed.

Lemma step_next_nonce {E} : respects api_step (next_nonce nonce_of : M QsWorld E _).
Proof. by apply step_silent. Qed.
Lemma step_push t : respects api_step (push_token_to_provider push t).
Proof. by apply step_silent. Qed.
Lemma step_track_listener id : respects api_step (track_listener id).
Proof. by apply step_silent. Qed.
Lemma step_send_payload id p : respects api_step (send_payload id p).
Proof.
  apply step_silent. intros w. unfold send_payload, mbind, M_bind, get.
  destruct (listeners w !! id) as [c|]; [|done]. by destruct (receiver_open c).
Qed.
Lemma step_deliver m : respects api_step (deliver_federated domain deliver m).
Proof. unfold deliver_federated. respects. by apply step_silent. Qed.
Lemma step_load_verifying_key id : respects api_step (load_verifying_key db_ok id).
Proof. unfold load_verifying_key. respects. Qed.
Lemma step_user_load_verifying_key {E} (e : E) id :
  respects api_step (user_load_verifying_key db_ok e id).
Proof. unfold user_load_verifying_key. respects. Qed.

Hint Resolve step_next_nonce step_push step_track_listener step_send_payload step_deliver
  step_load_verifying_key step_user_load_verifying_key : respects.

Lemma step_enqueue id m k : respects api_step (enqueue db_ok nonce_of push id m k).
Proof.
  unfold enqueue, do_enqueue, do_enqueue_body, queues_enqueue. respects.
Qed.
Hint Resolve step_enqueue : respects.

Lemma step_enqueue_message m :
  respects api_step (enqueue_message db_ok nonce_of push domain client_config_decrypt deliver m).
Proof. unfold enqueue_message, enqueue_logged. case_decide; respects. Qed.

Lemma step_verify_auth {P} `{!QsPayload P, !VerifiableRequest P}
    (load : Uuid -> M QsWorld Failure (option bytes)) (r : QsRequest P) :
  (forall id, respects api_step (load id)) -> respects api_step (verify_auth load r).
Proof. intros Hl. unfold verify_auth, fail_with. respects; auto. Qed.
Lemma step_verify_user_auth {P} `{!QsPayload P, !VerifiableRequest P} (r : QsRequest P) :
  respects api_step (verify_user_auth db_ok r).
Proof. apply step_verify_auth. intros id. respects. Qed.
Lemma step_verify_client_auth {P} `{!QsPayload P, !VerifiableRequest P} (r : QsRequest P) :
  respects api_step (verify_client_auth db_ok r).
Proof. apply step_verify_auth. intros id. unfold with_status. respects. Qed.
Hint Resolve step_verify_user_auth step_verify_client_auth : respects.

Lemma step_create_client_record p :
  respects api_step (qs_create_client_record db_ok uuid_of now p).
Proof. unfold qs_create_client_record. respects. Qed.
Lemma step_publish {K I} `{!StorableKeyPackage K} (validate : I -> option K) last c l :
  respects api_step (publish_packages db_ok validate last c l).
Proof.
  unfold publish_packages, replace_last_resort, replace_multiple. respects. by apply step_replace.
Qed.
Hint Resolve step_create_client_record : respects.

Lemma step_key_package_row {K A} `{!StorableKeyPackage K} (f : K -> option A) r :
  respects api_step (key_package_row db_ok scan client_version_req f r).
Proof.
  unfold key_package_row, qs_key_package_row, with_status, check_version, fail_with. respects.
Qed.

(** Every operation keeps the tables well-formed and never reuses an identity. *)
Lemma step_run_op o w : api_step (qdb w) (qdb (run_op o w).1).
Proof.
  assert (forall {E A} (m : M QsWorld E A), respects api_step m -> api_step (qdb w) (qdb (m w).2))
    as Hr by auto.
  destruct o as [r|r|r|r|r|r|r|r|r|r|m|f|q r|m]; cbn [run_op fst].
  - apply Hr. unfold create_user, qs_create_user_record, user_new_and_store, with_status,
      check_version, fail_with. respects.
  - apply Hr. unfold update_user, qs_update_user_record, with_status, check_version, fail_with. respects.
  - apply Hr. unfold delete_user, qs_delete_user_record, with_status, check_version, fail_with. respects.
  - apply Hr. unfold create_client, with_status, check_version, fail_with. respects.
  - apply Hr. unfold update_client, qs_update_client_record, with_status, check_version, fail_with.
    respects.
  - apply Hr. unfold delete_client, qs_delete_client_record, with_status, check_version, fail_with.
    respects.
  - apply Hr. unfold publish_key_packages, with_status, check_version, fail_with. respects.
    apply step_publish.
  - apply Hr. unfold publish_apq_key_packages, with_status, check_version, fail_with. respects.
    apply step_publish.
  - pose proof (step_key_package_row kp_serialize r w) as Hk. by destruct (key_package_row _ _ _ _ r w).
  - pose proof (step_key_package_row serialize_apq r w) as Hk. by destruct (key_package_row _ _ _ _ r w).
  - apply Hr. unfold encryption_key_handler, qs_encryption_key, with_status, check_version, fail_with.
    respects.
  - apply Hr. unfold listen, update_client_activity, with_status, check_version, fail_with. respects.
  - apply Hr. unfold process_listen_queue_request, with_status, ack, trigger_fetch. respects.
  - apply Hr. apply step_enqueue_message.
Qed.

Lemma step_run_ops ops w : api_step (qdb w) (qdb (run_ops ops w).1).
Proof.
  revert w. induction ops as [|o ops IH]; intros w; cbn; [reflexivity|].
  pose proof (step_run_op o w) as Ho. destruct (run_op o w) as [w1 l1]. specialize (IH w1).
  destruct (run_ops ops w1) as [w2 l2]. by etrans.
Qed.

(** A row that is given away was in the table, and is not any more. *)
Lemma run_op_given o w k n : (forall s l, scan s l ≡ₚ l) -> (k, n) ∈ (run_op o w).2 ->
  (run_op o w).2 = [(k, n)] /\ is_Some (pt_rows (table k (qdb w)) !! n) /\
  pt_rows (table k (qdb (run_op o w).1)) !! n = None.
Proof.
  intros Hscan.
  assert (forall {K A} `{!StorableKeyPackage K} (f : K -> option A) r k',
    let '(x, w') := key_package_row db_ok scan client_version_req f r w in
    k' = TABLE_NAME (K := K) -> (k, n) ∈ given k' x ->
    given k' x = [(k, n)] /\ is_Some (pt_rows (table k (qdb w)) !! n) /\
    pt_rows (table k (qdb w')) !! n = None) as Hrow.
  { intros K A HK f r k'. destruct (key_package_row _ _ _ f r w) as [[[[n' p] a]|e] w'] eqn:Ek;
      [|by intros _ Hn%not_elem_of_nil]. intros -> Hin. cbn in Hin |- *.
    destruct (pkg_is_last_resort p) eqn:El; [by apply not_elem_of_nil in Hin|].
    apply list_elem_of_singleton in Hin. injection Hin as -> ->. split; [done|].
    unfold key_package_row, check_version, fail_with in Ek. bindM Ek as v w1 Hv. leafM Hv.
    bindM Ek as sender w2 Hs. leafM Hs. bindM Ek as x w3 Hx. bindM Ek as tls w4 Ht. leafM Ht.
    injection Ek as Hx1 _ <-. destruct x as [[n0 p0] k0]. cbn in Hx1. injection Hx1 as -> ->.
    unfold with_status, map_errM in Hx. destruct (qs_key_package_row _ _ _ _) as [rx wx] eqn:Eq.
    injection Hx as Hrx ->. apply map_err_Ok in Hrx as ->. unfold qs_key_package_row in Eq.
    bindM Eq as u w5 Hst. destruct u. apply statement_Ok in Hst as [Hq _].
    apply (load_row_taken _ _ Hscan) in Eq as [Hn Hg]. rewrite Hq in Hn. split; [eauto|]. by apply Hg. }
  destruct o as [r|r|r|r|r|r|r|r|r|r|m|f|q r|m]; cbn [run_op fst snd];
    try (intros Hin; by apply not_elem_of_nil in Hin).
  - specialize (Hrow _ _ _ kp_serialize r ClassicPackage).
    destruct (key_package_row _ _ _ kp_serialize r w). by apply Hrow.
  - specialize (Hrow _ _ _ serialize_apq r ApqPackage).
    destruct (key_package_row _ _ _ serialize_apq r w). by apply Hrow.
Qed.

(** Rows that are gone stay gone, and are not given away again. *)
Lemma run_ops_fresh ops w k n : (forall s l, scan s l ≡ₚ l) -> qs_wf (qdb w) ->
  n < pt_next (table k (qdb w)) -> pt_rows (table k (qdb w)) !! n = None ->
  (k, n) ∉ (run_ops ops w).2.
Proof.
  intros Hscan. revert w. induction ops as [|o ops IH]; intros w Hwf Hlt Hnone; cbn;
    [apply not_elem_of_nil|].
  pose proof (step_run_op o w) as [Hkeep Hstep]. pose proof (run_op_given o w k n Hscan) as Hg.
  destruct (run_op o w) as [w1 l1]. cbn [fst snd] in *. specialize (IH w1 (Hkeep Hwf)).
  destruct (run_ops ops w1) as [w2 l2]. cbn [fst snd] in *.
  rewrite not_elem_of_app. split.
  - intros Hin. destruct (Hg Hin) as (_ & [p Hp] & _). congruence.
  - destruct (Hstep k) as [Hnext Hrows]. apply IH; [lia|].
    destruct (pt_rows (table k (qdb w1)) !! n) as [p|] eqn:Ep; [|done].
    destruct (Hrows n p Ep) as [Hold|Hge]; [congruence|lia].
Qed.

(** Whatever requests the queue service serves, in whatever order and however
    they fail, its tables stay well-formed: friendship tokens are unique, every
    client has its user and every live client its keys, every key package has its
    client, and no client has two packages of last resort in one table. *)
Theorem run_ops_wf ops w : qs_wf (qdb w) -> qs_wf (qdb (run_ops ops w).1).
Proof. apply step_run_ops. Qed.

(** C23. A single-use key package is handed out at most once: over any sequence of
    requests no stored package that is not a last resort is given to two
    callers. *)
Theorem key_packages_single_use ops w :
  (forall s l, scan s l ≡ₚ l) -> qs_wf (qdb w) -> NoDup (run_ops ops w).2.
Proof.
  intros Hscan. revert w. induction ops as [|o ops IH]; intros w Hwf; cbn; [constructor|].
  pose proof (step_run_op o w) as [Hkeep Hstep]. pose proof (run_op_given o w) as Hg.
  destruct (run_op o w) as [w1 l1]. cbn [fst snd] in *. specialize (IH w1 (Hkeep Hwf)).
  pose proof (fun k n => run_ops_fresh ops w1 k n Hscan (Hkeep Hwf)) as Hfresh.
  destruct (run_ops ops w1) as [w2 l2]. cbn [fst snd] in *.
  destruct l1 as [|[k n] l1]; [done|].
  destruct (Hg k n Hscan) as (Hl & [p Hp] & Hnone); [left|]. injection Hl as ->. cbn.
  constructor; [|done]. apply Hfresh; [|done].
  destruct (wf_packages _ Hwf _ _ _ Hp). destruct (Hstep k). lia.
Qed.

End Service.

(** ** Publishing *)

Section Publishing.
Context (db_ok : nat -> bool).
Context {K I : Type} `{!StorableKeyPackage K}.

(** The packages of a client of one kind after they were replaced by [ks]: the new
    ones in consecutive rows; no new ones leave the old ones in place. *)
Definition pool_replaced (t t' : PackageTable) (c : Uuid) (b : bool) (ks : list K) : Prop :=
  exists base, forall n r, pkg_client_id r = c -> pkg_is_last_resort r = b ->
    pt_rows t' !! n = Some r <->
    match ks with
    | [] => pt_rows t !! n = Some r
    | _ => exists i k, ks !! i = Some k /\ encoded k = Some (pkg_blob r) /\ n = base + Z.of_nat i
    end.

Lemma replaced_pool c b ks blobs t : ks <> [] ->
  (forall n r, pt_rows t !! n = Some r -> n < pt_next t) ->
  Forall2 (fun k bl => encoded k = Some bl) ks blobs ->
  pool_replaced t (replaced_packages c b blobs t) c b ks.
Proof.
  intros Hks Hlt Hf. exists (pt_next t). intros n r Hc Hb. rewrite replaced_packages_lookup by done.
  destruct ks as [|k0 ks0] eqn:Ek; [done|]. rewrite <- Ek in Hf |- *. split.
  - intros [[_ Hn]|(i & blob & Hi & -> & ->)]; [by destruct Hn|].
    apply (Forall2_lookup_r _ _ _ _ _ Hf) in Hi as (k & Hk & He). by exists i, k.
  - intros (i & k & Hi & He & ->). right.
    apply (Forall2_lookup_l _ _ _ _ _ Hf) in Hi as (bl & Hbl & He'). rewrite He in He'.
    injection He' as <-. exists i, (pkg_blob r). split_and!; [done..|]. destruct r; cbn in *. by subst.
Qed.

Lemma replaced_elsewhere c b blobs t n r :
  (forall n r, pt_rows t !! n = Some r -> n < pt_next t) ->
  ~ (pkg_client_id r = c /\ pkg_is_last_resort r = b) ->
  pt_rows (replaced_packages c b blobs t) !! n = Some r <-> pt_rows t !! n = Some r.
Proof.
  intros Hlt Hn. rewrite replaced_packages_lookup by done. split.
  - intros [[? _]|(i & bl & _ & _ & ->)]; [done|]. by destruct Hn.
  - auto.
Qed.

(** One replacement, seen from the tables. *)
Lemma replace_pool {E} (e : E) c ks b w w' :
  qs_wf (qdb w) -> replace_multiple_internal db_ok e c ks b w = (Ok tt, w') ->
  exists t', qdb w' = set_table TABLE_NAME t' (qdb w) /\
    pool_replaced (table TABLE_NAME (qdb w)) t' c b ks /\
    forall n r, ~ (pkg_client_id r = c /\ pkg_is_last_resort r = b) ->
      pt_rows t' !! n = Some r <-> pt_rows (table TABLE_NAME (qdb w)) !! n = Some r.
Proof.
  intros Hwf Hr. apply replace_multiple_internal_db in Hr.
  assert (forall n r, pt_rows (table TABLE_NAME (qdb w)) !! n = Some r ->
    n < pt_next (table TABLE_NAME (qdb w))) as Hlt
    by (intros n r Hn; by apply (wf_packages _ Hwf) in Hn as [? _]).
  destruct Hr as [[-> Hq]|(blobs & Hne & Hf & Hc & Hq)].
  - exists (table TABLE_NAME (qdb w)). split_and!; [|by exists 0|done].
    rewrite Hq. by destruct (qdb w), TABLE_NAME.
  - exists (replaced_packages c b blobs (table TABLE_NAME (qdb w))). split_and!; [done| |].
    + by apply replaced_pool.
    + intros n r. by apply replaced_elsewhere.
Qed.

(** The loop over the received packages: all are valid; the single-use ones are
    kept in order, of the others the last one. *)
Lemma split_packages_Ok (validate : I -> option K) last_resort l x :
  split_packages validate last_resort l = Ok x ->
  exists ks, Forall2 (fun i k => validate i = Some k) l ks /\
    x = (filter (fun k => last_resort k = false) ks, last (filter (fun k => last_resort k = true) ks)).
Proof.
  unfold split_packages. revert x. induction l as [|i l IH] using rev_ind; intros x Hx.
  - injection Hx as <-. by exists [].
  - rewrite foldM_app in Hx. inv_ok. destruct (IH _ Hm) as (ks & Hf & ->). cbn in Hx. inv_ok.
    match goal with Hk : validate i = Some ?k |- _ => exists (ks ++ [k]) end.
    split; [by apply Forall2_app; [|constructor]|].
    rewrite !filter_app. cbn. destruct (last_resort _) eqn:El.
    + rewrite decide_False, decide_True by congruence. by rewrite app_nil_r, last_snoc.
    + rewrite decide_True, decide_False by congruence. by rewrite app_nil_r.
Qed.

Lemma split_packages_Err (validate : I -> option K) last_resort l e :
  split_packages validate last_resort l = Err e ->
  (e = InvalidKeyPackage <-> exists i, i ∈ l /\ validate i = None).
Proof.
  unfold split_packages. generalize (@nil K, @None K) as acc.
  induction l as [|i l IH]; intros acc He; [discriminate|]. cbn in He.
  destruct (validate i) as [k|] eqn:Ev; cbn in He.
  - rewrite (IH _ He). split; intros (j & Hj & Hn); exists j; (split; [|done]).
    + by right.
    + apply elem_of_cons in Hj as [->|]; [congruence|done].
  - injection He as <-. split; [|done]. intros _. exists i. split; [left|done].
Qed.

(** The transaction of a publication fails with a storage error only. *)
Definition storage_only {A} (m : M QsWorld QsPublishKeyPackagesError A) : Prop :=
  forall w w', m w <> (Err InvalidKeyPackage, w').
Lemma storage_only_bind {A B} (m : M QsWorld _ A) (f : A -> M QsWorld _ B) :
  storage_only m -> (forall a, storage_only (f a)) -> storage_only (m ≫= f).
Proof.
  intros Hm Hf w w' [He|(a & w1 & _ & He)]%M_bind_Err; [by eapply Hm|by eapply Hf].
Qed.
Lemma storage_only_statement : storage_only (statement db_ok PublishStorageError).
Proof. intros w w'. unfold statement. case_match; congruence. Qed.
Lemma storage_only_replace c (ks : list K) b :
  storage_only (replace_multiple_internal db_ok PublishStorageError c ks b).
Proof.
  unfold replace_multiple_internal. destruct ks; [by intros w w'|].
  apply storage_only_bind; [apply storage_only_statement|intros _].
  apply storage_only_bind; [by intros w w'|intros _].
  apply storage_only_bind.
  { intros w w' He. apply (f_equal fst) in He. destruct (mapM_r_Err _ _ _ He) as (k' & _ & Hk).
    by destruct (encoded k'). }
  intros blobs. apply storage_only_bind; [apply storage_only_statement|intros _].
  apply storage_only_bind; [by intros w w'|]. intros w w1 w2. by case_match.
Qed.
Lemma publish_txn_error c (x : list K * option K) w w' :
  transaction db_ok PublishStorageError
    (_ ← (match x.2 with
          | Some k => replace_last_resort db_ok PublishStorageError c k
          | None => mret tt
          end);
     replace_multiple db_ok PublishStorageError c x.1) w <> (Err InvalidKeyPackage, w').
Proof.
  set (body := _ ← _; _). assert (storage_only body) as Hb.
  { apply storage_only_bind; [|intros _; apply storage_only_replace].
    destruct x.2; [apply storage_only_replace|by intros w1 w2]. }
  unfold transaction. intros He.
  assert (storage_only (_ ← statement db_ok PublishStorageError; body)) as Hsb
    by (apply storage_only_bind; [apply storage_only_statement|done]).
  destruct ((_ ← statement db_ok PublishStorageError; body) w) as [[u|e] w1] eqn:E1.
  - destruct (statement db_ok PublishStorageError w1) as [[?|e] w2] eqn:E2; [discriminate|].
    injection He as -> _. by eapply storage_only_statement.
  - injection He as -> _. by eapply Hsb.
Qed.

(** What publishing does to the tables. *)
Definition published (validate : I -> option K) (last_resort : K -> bool) (c : Uuid) (l : list I)
    (d d' : QsDb) : Prop :=
  exists ks t', Forall2 (fun i k => validate i = Some k) l ks /\
    d' = set_table TABLE_NAME t' d /\
    pool_replaced (table TABLE_NAME d) t' c false (filter (fun k => last_resort k = false) ks) /\
    pool_replaced (table TABLE_NAME d) t' c true
      (option_list (last (filter (fun k => last_resort k = true) ks))) /\
    forall n r, pkg_client_id r <> c ->
      pt_rows t' !! n = Some r <-> pt_rows (table TABLE_NAME d) !! n = Some r.

Lemma publish_Ok validate last_resort c l w w' : qs_wf (qdb w) ->
  publish_packages db_ok validate last_resort c l w = (Ok tt, w') ->
  published validate last_resort c l (qdb w) (qdb w').
Proof.
  intros Hwf Hp. unfold publish_packages in Hp. bindM Hp as x w0 Hx. leafM Hx.
  apply split_packages_Ok in Hx as (ks & Hf & ->).
  apply transaction_Ok in Hp as (w1 & w2 & Hs1 & Hb & Hs2).
  apply statement_Ok in Hs1 as [Hq1 _], Hs2 as [Hq2 _]. bindM Hb as u w3 Hl. destruct u.
  cbn [fst snd] in Hl, Hb. unfold replace_multiple in Hb. rewrite <- Hq1 in Hwf.
  assert (exists t1, qdb w3 = set_table TABLE_NAME t1 (qdb w) /\
    pool_replaced (table TABLE_NAME (qdb w)) t1 c true
      (option_list (last (filter (fun k => last_resort k = true) ks))) /\
    forall n r, ~ (pkg_client_id r = c /\ pkg_is_last_resort r = true) ->
      pt_rows t1 !! n = Some r <-> pt_rows (table TABLE_NAME (qdb w)) !! n = Some r) as (t1 & Hq3 & Hp1 & He1).
  { destruct (last _) as [k|].
    - unfold replace_last_resort in Hl. apply (replace_pool _ _ _ _ _ _ Hwf) in Hl as (t1 & Ht & Hp & He). rewrite Hq1 in *. by exists t1.
    - leafM Hl. exists (table TABLE_NAME (qdb w)). rewrite Hq1. split_and!; [|by exists 0|done].
      by destruct (qdb w), TABLE_NAME. }
  assert (qs_wf (qdb w3)) as Hwf3.
  { destruct (last _) as [k|]; [|leafM Hl; done].
    pose proof (step_replace db_ok PublishStorageError c [k] true ltac:(cbn; lia) w1) as [Hk _].
    unfold replace_last_resort in Hl. rewrite Hl in Hk. by apply Hk. }
  apply (replace_pool _ _ _ _ _ _ Hwf3) in Hb as (t2 & Hq4 & (base & Hp2) & He2).
  rewrite Hq3, set_table_table in Hp2, He2. rewrite Hq3, set_table_twice in Hq4.
  exists ks, t2. split_and!; [done|by rewrite Hq2| | |].
  - exists base. intros n r Hc Hb. rewrite (Hp2 n r Hc Hb). case_match; [|done]. apply He1. intros [_ Hb']. congruence.
  - destruct Hp1 as [base1 Hp1]. exists base1. intros n r Hc Hb. rewrite <- (Hp1 n r Hc Hb).
    apply He2. intros [_ Hb']. congruence.
  - intros n r Hc. rewrite He2, He1; [done|by intros [? _]..].
Qed.

End Publishing.

(** Publishing replaces a pool of key packages and nothing else: all packages
    have to be valid; the client's single-use packages become exactly the ones
    published, or stay if none was, and likewise its package of last resort (the
    last one published); packages of other clients, the other table, users and
    clients stay.  A request that fails changes nothing, and is called invalid
    exactly when a package is. *)
Theorem publish_replaces_pool (db_ok : nat -> bool) {K I : Type} `{!StorableKeyPackage K}
    (validate : I -> option K) (last_resort : K -> bool) (c : Uuid) (l : list I) (w : QsWorld) :
  qs_wf (qdb w) ->
  let '(res, w') := publish_packages db_ok validate last_resort c l w in
  match res with
  | Ok _ => published validate last_resort c l (qdb w) (qdb w')
  | Err e => qdb w' = qdb w /\ (e = InvalidKeyPackage <-> exists i, i ∈ l /\ validate i = None)
  end.
Proof.
  intros Hwf. destruct (publish_packages db_ok validate last_resort c l w) as [[[]|e] w'] eqn:Ep.
  { by eapply publish_Ok. }
  unfold publish_packages in Ep. apply M_bind_Err in Ep as [Ep|(x & w1 & Hx & Ep)].
  - injection Ep as Hs <-. split; [done|]. by apply split_packages_Err in Hs.
  - leafM Hx. pose proof (transaction_Err _ _ _ _ _ _ Ep) as Hq. split; [done|].
    apply split_packages_Ok in Hx as (ks & Hf & ->). split.
    + intros ->. by apply publish_txn_error in Ep.
    + intros (i & Hi & Hn). apply list_elem_of_lookup in Hi as [j Hj].
      apply (Forall2_lookup_l _ _ _ _ _ Hf) in Hj as (k & _ & Hv). congruence.
Qed.

(** An APQ key package survives its stored form: the two encodings are written
    one after the other, and reading the blob back gives both packages. *)
Theorem stored_apq_roundtrip `{MlsKeyPackagesLaws} (k : ApqKeyPackage) (blob : bytes) :
  encoded k = Some blob -> decoded blob = Some k.
Proof.
  cbn. destruct (kp_serialize (t_key_package k)) as [t|] eqn:Et; [|discriminate].
  destruct (kp_serialize (pq_key_package k)) as [pq|] eqn:Epq; [|discriminate].
  intros [= <-]. destruct (kp_deserialize_serialize _ _ pq Et) as (ti & Hti & Hut).
  destruct (kp_deserialize_serialize _ _ [] Epq) as (pi & Hpi & Hup). rewrite app_nil_r in Hpi.
  cbn. rewrite Hti. cbn. unfold kp_deserialize_exact. rewrite Hpi. cbn. unfold unwrap_verified. cbn.
  rewrite Hut, Hup. by destruct k.
Qed.
