(* ===== verification/QsAuth.v ===== *)
(** * Authenticated requests of the queue service

    A request that names a sender in its signed payload is served only under the
    sender's stored key, and whoever is served changes only the sender's own
    rows. *)

From S2P Require Import Prelude Aead Ratchet Messages Grpc Qs QsCorrect QsApi QsGrpc QsApiCorrect.

Set Warnings "-clear-no-such-hyp".

(** ** What a sender may change *)

(** A user's request changes the user's own row, the clients of the user and
    their key packages, and nothing else; [own] are the clients concerned. *)
Record confined (mine own : Uuid -> Prop) (d d' : QsDb) : Prop := {
  confined_users u : ~ mine u -> qs_user_record d' !! u = qs_user_record d !! u;
  confined_clients c : ~ own c -> qs_client_record d' !! c = qs_client_record d !! c;
  confined_packages k n p : ~ own (pkg_client_id p) ->
    pt_rows (table k d') !! n = Some p <-> pt_rows (table k d) !! n = Some p;
  confined_queues : qs_queues d' = qs_queues d;
  confined_keys : qs_decryption_key d' = qs_decryption_key d
}.

#[export] Instance confined_preorder mine own : PreOrder (confined mine own).
Proof.
  split; [by split|]. intros a b c [U1 C1 P1 Q1 K1] [U2 C2 P2 Q2 K2]. split.
  - intros u Hu. by rewrite U2, U1.
  - intros x Hx. by rewrite C2, C1.
  - intros k n p Hp. by rewrite P2, P1.
  - by rewrite Q2.
  - by rewrite K2.
Qed.

Lemma confined_weaken (mine mine' own own' : Uuid -> Prop) d d' :
  (forall u, mine u -> mine' u) -> (forall c, own c -> own' c) ->
  confined mine own d d' -> confined mine' own' d d'.
Proof.
  intros Hm Ho [U C P Q K]. split; [| | |done|done].
  - intros u Hu. apply U. auto.
  - intros c Hc. apply C. auto.
  - intros k n p Hp. apply P. auto.
Qed.

(** The clients of a user, before or after. *)
Definition clients_of (d d' : QsDb) (id c : Uuid) : Prop :=
  row_user_id <$> qs_client_record d !! c = Some id \/
  row_user_id <$> qs_client_record d' !! c = Some id.

Section Effects.
Context (db_ok : nat -> bool).

Lemma confined_set_clients d c r : confined (fun _ => False) (eq c) d
  (set_client_record (<[c := r]> (qs_client_record d)) d).
Proof.
  split; cbn; [done| |by intros []|done|done]. intros x Hx. by rewrite lookup_insert_ne.
Qed.

Lemma confined_update_live c f : respects (confined (fun _ => False) (eq c)) (update_live db_ok c f).
Proof.
  unfold update_live. respects. apply respects_modify. intros w.
  destruct (qs_client_record (qdb w) !! c) as [r|]; [|reflexivity].
  destruct (is_live r); [|reflexivity]. apply confined_set_clients.
Qed.

Lemma confined_soft_delete c t :
  respects (confined (fun _ => False) (eq c)) (soft_delete db_ok c t).
Proof.
  unfold soft_delete. respects. apply respects_modify. intros w.
  destruct (qs_client_record (qdb w) !! c) as [r|]; [|reflexivity].
  trans (cascade_packages (fun x => bool_decide (x = c)) (qdb w)).
  - split; [done|done| |done|done]. intros k n p Hp. rewrite table_cascade, drop_packages_lookup.
    split; [by intros [? _]|]. intros Hn. split; [done|congruence].
  - refine (confined_set_clients (cascade_packages _ (qdb w)) c _).
Qed.

Lemma confined_set_table c k t d :
  (forall n p, pkg_client_id p <> c -> pt_rows t !! n = Some p <-> pt_rows (table k d) !! n = Some p) ->
  confined (fun _ => False) (eq c) d (set_table k t d).
Proof.
  intros Ht. split; [done|done| |done|done]. intros k' n p Hp.
  destruct (decide (k = k')) as [<-|]; [|by rewrite set_table_other].
  rewrite set_table_table. apply Ht. congruence.
Qed.

(** Replacing packages writes rows that are new only if identities are. *)
Lemma confined_replace {K E} `{!StorableKeyPackage K} (e : E) c (ks : list K) b w :
  qs_wf (qdb w) ->
  confined (fun _ => False) (eq c) (qdb w)
    (qdb (replace_multiple_internal db_ok e c ks b w).2).
Proof.
  intros Hwf. destruct (replace_multiple_internal db_ok e c ks b w) as [r w'] eqn:Er. cbn.
  apply replace_multiple_internal_db in Er.
  assert (forall n r, pt_rows (table TABLE_NAME (qdb w)) !! n = Some r ->
    n < pt_next (table TABLE_NAME (qdb w))) as Hlt
    by (intros n p Hn; by apply (wf_packages _ Hwf) in Hn as [? _]).
  destruct r as [u|e'].
  - destruct Er as [[_ ->]|(blobs & _ & _ & _ & ->)]; [reflexivity|].
    apply confined_set_table. intros n p Hp. apply replaced_elsewhere; [done|naive_solver].
  - destruct Er as [->| ->]; [reflexivity|]. apply confined_set_table. intros n p Hp.
    rewrite clear_packages_lookup. naive_solver.
Qed.

Lemma confined_set_user d u :
  confined (eq (ur_user_id u)) (fun _ => False) d
    (set_users (<[ur_user_id u := user_row_of u]> (qs_user_record d)) d).
Proof. split; cbn; [|done|by intros []|done|done]. intros x Hx. by rewrite lookup_insert_ne. Qed.

Lemma confined_user_update {E} (e : E) u :
  respects (confined (eq (ur_user_id u)) (fun _ => False)) (user_update db_ok e u).
Proof.
  unfold user_update. apply respects_bind; [apply _|apply respects_statement; apply _|intros _].
  apply respects_get. intros w. destruct (qs_user_record (qdb w) !! ur_user_id u); [|reflexivity].
  destruct (token_taken _ _ _); [reflexivity|]. apply confined_set_user.
Qed.

Lemma confined_update_user_record params :
  respects (confined (eq (uu_sender params)) (fun _ => False)) (qs_update_user_record db_ok params).
Proof.
  unfold qs_update_user_record. apply respects_transaction; [apply _|].
  apply respects_bind_with; [apply _|unfold user_load; respects|]. intros found w w' Hf.
  apply respects_bind_with; [apply _|respects|]. intros u w1 w2 Hu. leafM Hu. apply ok_or_Ok in Hu as ->.
  assert (ur_user_id u = uu_sender params) as Hid.
  { unfold user_load in Hf. bindM Hf as x w3 Hs. bindM Hf as w4 w5 Hg. leafM Hg.
    injection Hf as Hf _. by apply fmap_Some in Hf as (row & _ & ->). }
  rewrite <- Hid. refine (confined_user_update _ {| ur_user_id := ur_user_id u |}).
Qed.

Lemma confined_update_client_record params :
  respects (confined (fun _ => False) (eq (uc_sender params))) (qs_update_client_record db_ok params).
Proof.
  unfold qs_update_client_record. apply respects_transaction; [apply _|].
  apply respects_bind_with; [apply _|apply respects_map_errM; unfold load_for_update; respects|].
  intros found w w' Hf. unfold map_errM in Hf.
  destruct (load_for_update db_ok (uc_sender params) w) as [rl wl] eqn:El.
  injection Hf as Hf <-. apply map_err_Ok in Hf as ->.
  apply load_for_update_Ok in El as (_ & _ & _ & Hrec).
  apply respects_bind_with; [apply _|respects|]. intros u w1 w2 Hu. leafM Hu. apply ok_or_Ok in Hu as ->.
  destruct (Hrec _ eq_refl) as (_ & _ & _ & <- & _).
  apply respects_map_errM. apply confined_update_live.
Qed.

(** Publishing, in tables that are well-formed. *)
Definition confined_wf (c : Uuid) (d d' : QsDb) : Prop :=
  qs_wf d -> confined (fun _ => False) (eq c) d d' /\ qs_wf d'.
#[local] Instance confined_wf_preorder c : PreOrder (confined_wf c).
Proof.
  split; [by intros d|]. intros x y z Hxy Hyz Hx. destruct (Hxy Hx) as [H1 Hy].
  destruct (Hyz Hy) as [H2 Hz]. split; [by etrans|done].
Qed.
Lemma confined_publish {K I} `{!StorableKeyPackage K} (validate : I -> option K) last c l :
  respects (confined_wf c) (publish_packages db_ok validate last c l).
Proof.
  assert (forall (ks : list K) b, (b = true -> (length ks <= 1)%nat) ->
    respects (confined_wf c) (replace_multiple_internal db_ok PublishStorageError c ks b)) as Hrep.
  { intros ks b Hb w Hwf. split; [by apply confined_replace|].
    by apply (step_replace db_ok PublishStorageError c ks b Hb w). }
  unfold publish_packages, replace_last_resort, replace_multiple. respects; by apply Hrep.
Qed.

Lemma confined_create_client_record uuid_of now `{Hkdf} `{!TlsCodec bytes} params w :
  let w' := (qs_create_client_record db_ok uuid_of now params w).2 in
  confined (fun _ => False) (clients_of (qdb w) (qdb w') (cc_sender params)) (qdb w) (qdb w').
Proof.
  cbv zeta. unfold qs_create_client_record, mbind, M_bind, lift.
  destruct (map_err _ _) as [rk|e]; [|reflexivity].
  destruct (statement db_ok _ w) as [[[]|e] w1] eqn:Es;
    [apply statement_Ok in Es as [Hq _]|apply statement_Err in Es; cbn; rewrite Es; reflexivity].
  unfold get, map_errM. set (rec := {| user_id := cc_sender params |}).
  unfold client_store, mbind, M_bind.
  destruct (statement db_ok EnqueueStorage w1) as [[[]|e] w2] eqn:Es2;
    [apply statement_Ok in Es2 as [Hq2 _]|apply statement_Err in Es2; cbn; rewrite Es2, Hq; reflexivity].
  unfold get. rewrite Hq2, Hq.
  destruct (qs_client_record (qdb w) !! client_id rec) eqn:Ec; [cbn; rewrite Hq2, Hq; reflexivity|].
  destruct (qs_user_record (qdb w) !! user_id rec); [|cbn; rewrite Hq2, Hq; reflexivity].
  cbn [fst snd modify map_err mret M_ret set_clients set_db qdb]. rewrite Hq2, Hq.
  split; [done| |by intros []|done|done].
  intros c Hc. cbn. destruct (decide (client_id rec = c)) as [<-|]; [|by rewrite lookup_insert_ne].
  destruct Hc. right. cbn. by rewrite lookup_insert_eq.
Qed.

Lemma confined_user_delete {E} (e : E) id w :
  let w' := (user_delete db_ok e id w).2 in
  confined (eq id) (clients_of (qdb w) (qdb w') id) (qdb w) (qdb w').
Proof.
  cbv zeta. unfold user_delete, mbind, M_bind.
  destruct (statement db_ok e w) as [[[]|e'] w1] eqn:Es;
    [apply statement_Ok in Es as [Hq _]|apply statement_Err in Es; cbn; rewrite Es; reflexivity].
  unfold modify. cbn [snd set_db qdb]. rewrite Hq.
  assert (forall c, ~ clients_of (qdb w) (qdb w) id c -> owned_by (qdb w) id c = false) as Hno.
  { intros c Hc. apply bool_decide_eq_false. intros [Hr _]. apply Hc. by left. }
  assert (forall d' c, ~ clients_of (qdb w) d' id c -> ~ clients_of (qdb w) (qdb w) id c) as Hweak.
  { intros d' c Hc Hcl. apply Hc. left. by destruct Hcl. }
  split; cbn; [| | |done|done].
  - intros u Hu. by rewrite lookup_delete_ne.
  - intros c Hc%Hweak%Hno. destruct (qs_client_record (qdb w) !! c) as [r|] eqn:Er.
    + by apply map_lookup_filter_Some.
    + apply map_lookup_filter_None. by left.
  - intros k n p Hp%Hweak%Hno. transitivity (pt_rows (table k (qdb w)) !! n = Some p /\
      owned_by (qdb w) id (pkg_client_id p) = false); [|tauto].
    destruct k; cbn; apply map_lookup_filter_Some.
Qed.

End Effects.

(** ** Accepted requests *)

Section Accepted.
Context `{Semver} {P : Type} `{!QsPayload P} `{!VerifiableRequest P}.

(** The payload [p] of user (client) [id] is accepted: it is signed under the
    stored key, or made of legacy fields because the request has no payload that
    names a sender. *)
Definition accepts (key : option bytes) (r : QsRequest P) (p : P) (id : Uuid) : Prop :=
  sender_of p = FieldValue id /\
  match request_sender r with
  | None => into_unverified_payload (legacy_fields r) = Some p
  | Some _ => sr_payload (signed_payload r) = Some p /\ exists k, key = Some k /\
      signature_valid p (default [] (sr_signature (signed_payload r))) k = true
  end.

Definition user_key (d : QsDb) (id : Uuid) : option bytes :=
  row_verifying_key <$> qs_user_record d !! id.
Definition client_key (d : QsDb) (id : Uuid) : option bytes :=
  r ← qs_client_record d !! id;
  if is_live r then owner_signature_key <$> row_blobs r else None.

Definition user_accepts (d : QsDb) := fun r p id => accepts (user_key d id) r p id.
Definition client_accepts (d : QsDb) := fun r p id => accepts (client_key d id) r p id.

End Accepted.

(** A step that does not write: either it ends the computation, or the rest runs
    on the same tables. *)
Lemma skip_bind {E A B} (m : M QsWorld E A) (f : A -> M QsWorld E B) w :
  qdb (m w).2 = qdb w ->
  qdb ((m ≫= f) w).2 = qdb w \/
  exists a w1, m w = (Ok a, w1) /\ qdb w1 = qdb w /\ (m ≫= f) w = f a w1.
Proof.
  intros Hq. unfold mbind, M_bind. destruct (m w) as [[a|e] w1]; [right|left; done]. by exists a, w1.
Qed.

Lemma fail_with_db {A} (r : Result Status A) w : qdb (fail_with r w).2 = qdb w.
Proof. done. Qed.
Lemma with_status_db {E A} (f : E -> Status) (m : M QsWorld E A) w :
  qdb (with_status f m w).2 = qdb (m w).2.
Proof. unfold with_status, map_errM. by destruct (m w). Qed.

Section Verified.
Context (db_ok : nat -> bool) `{Semver} {P : Type} `{!QsPayload P} `{!VerifiableRequest P}.

Lemma verify_user_db (r : QsRequest P) : respects eq (verify_user_auth db_ok r).
Proof. unfold verify_user_auth, verify_auth, fail_with, user_load_verifying_key. respects. Qed.
Lemma verify_client_db (r : QsRequest P) : respects eq (verify_client_auth db_ok r).
Proof.
  unfold verify_client_auth, verify_auth, fail_with, with_status, load_verifying_key. respects.
Qed.

(** The sender that a verified payload names is the one whose key was loaded. *)
Lemma verify_auth_Ok (load : Uuid -> M QsWorld Failure (option bytes)) (r : QsRequest P) w p w' :
  verify_auth load r w = (Ok p, w') ->
  (request_sender r = None /\ into_unverified_payload (legacy_fields r) = Some p) \/
  exists id k w1, request_sender r = Some (Ok id) /\ sender_of p = FieldValue id /\
    load id w = (Ok (Some k), w1) /\ sr_payload (signed_payload r) = Some p /\
    signature_valid p (default [] (sr_signature (signed_payload r))) k = true.
Proof.
  unfold verify_auth. intros Hv.
  destruct (request_sender r) as [res|] eqn:Er; [|leafM Hv; apply ok_or_Ok in Hv; by left].
  bindM Hv as id w1 Hx. unfold fail_with in Hx. leafM Hx. apply map_err_Ok in Hx as ->.
  bindM Hv as found w2 Hl. bindM Hv as k w3 Hk. leafM Hk. apply ok_or_Ok in Hk as ->.
  apply fail_with_Ok in Hv. apply verify_request_Ok in Hv as [Hp Hs].
  right. eexists id, k, _. split_and!; try done.
  unfold request_sender in Er. rewrite Hp in Er. cbn in Er.
  destruct (sender_of p); [done|discriminate|]. by injection Er as ->.
Qed.

Lemma verify_user_Ok (r : QsRequest P) w p w' id :
  verify_user_auth db_ok r w = (Ok p, w') -> sender_of p = FieldValue id ->
  user_accepts (qdb w) r p id.
Proof.
  intros [[Hn Hl]|(id' & k & w1 & Hr & Hid & Hload & Hp & Hs)]%verify_auth_Ok Hid'; split; try done.
  - by rewrite Hn.
  - rewrite Hr. split; [done|]. exists k. split; [|done]. rewrite Hid in Hid'. injection Hid' as ->.
    unfold user_load_verifying_key in Hload. bindM Hload as u w2 Hst. destruct u.
    apply statement_Ok in Hst as [Hq _]. bindM Hload as w3 w4 Hg. leafM Hg.
    injection Hload as Hload _. by rewrite Hq in Hload.
Qed.

Lemma verify_client_Ok (r : QsRequest P) w p w' id :
  verify_client_auth db_ok r w = (Ok p, w') -> sender_of p = FieldValue id ->
  client_accepts (qdb w) r p id.
Proof.
  intros [[Hn Hl]|(id' & k & w1 & Hr & Hid & Hload & Hp & Hs)]%verify_auth_Ok Hid'; split; try done.
  - by rewrite Hn.
  - rewrite Hr. split; [done|]. exists k. split; [|done]. rewrite Hid in Hid'. injection Hid' as ->.
    unfold with_status, map_errM in Hload.
    destruct (load_verifying_key db_ok id w) as [rl wl] eqn:El. injection Hload as Hload ->.
    apply map_err_Ok in Hload as ->. unfold load_verifying_key in El. bindM El as u w2 Hst. destruct u.
    apply statement_Ok in Hst as [Hq _]. bindM El as w3 w4 Hg. leafM Hg. rewrite Hq in El.
    unfold client_key. destruct (qs_client_record (qdb w) !! id) as [row|]; [|discriminate]. cbn.
    destruct (is_live row); [|discriminate]. destruct (row_blobs row); [|discriminate]. cbn.
    by injection El as ->.
Qed.

End Verified.

(** ** The handlers *)

Section Requests.
Context (db_ok : nat -> bool) (uuid_of : nat -> Uuid) (now : nat -> TimeStamp).
Context `{Hkdf} `{!TlsCodec bytes} `{MlsKeyPackages} `{Semver}.
Context (client_version_req : option VersionReq).
Context `{!VerifiableRequest UpdateUserPayload} `{!VerifiableRequest DeleteUserPayload}
  `{!VerifiableRequest CreateClientPayload} `{!VerifiableRequest UpdateClientPayload}
  `{!VerifiableRequest DeleteClientPayload} `{!VerifiableRequest PublishKeyPackagesPayload}
  `{!VerifiableRequest PublishApqKeyPackagesPayload}.

(** A request changes nothing, or it was accepted for a sender and changes only
    what is the sender's. *)
Definition acts_for {P} `{!QsPayload P} (accepts : QsDb -> QsRequest P -> P -> Uuid -> Prop)
    (effect : Uuid -> QsDb -> QsDb -> Prop) (r : QsRequest P) (w w' : QsWorld) : Prop :=
  qdb w' = qdb w \/
  exists p id, accepts (qdb w) r p id /\ effect id (qdb w) (qdb w').

Definition user_effect (id : Uuid) (d d' : QsDb) : Prop := confined (eq id) (clients_of d d' id) d d'.
Definition client_effect (id : Uuid) (d d' : QsDb) : Prop := confined (fun _ => False) (eq id) d d'.

Section Acts.
Context {P : Type} `{!QsPayload P} (acc : QsDb -> QsRequest P -> P -> Uuid -> Prop).
Context (effect : Uuid -> QsDb -> QsDb -> Prop) (r : QsRequest P).

(** A step of a handler that does not write. *)
Lemma acts_bind {A B} (m : M QsWorld Failure A) (f : A -> M QsWorld Failure B) w w0 :
  respects eq m -> qdb w0 = qdb w ->
  (forall a w1, m w0 = (Ok a, w1) -> qdb w1 = qdb w -> acts_for acc effect r w (f a w1).2) ->
  acts_for acc effect r w ((m ≫= f) w0).2.
Proof.
  intros Hm Hq Hf. specialize (Hm w0). unfold mbind, M_bind. destruct (m w0) as [[a|e] w1].
  - apply Hf; [done|]. cbn in Hm. congruence.
  - left. cbn in *. congruence.
Qed.

(** The end of a handler: parameters from the payload, then the operation. *)
Lemma acts_tail {A B E} (q : Result Status A) (f : E -> Status) (op : A -> M QsWorld E B)
    (s : A -> Uuid) p w w0 :
  qdb w0 = qdb w ->
  (forall x, q = Ok x -> sender_of p = FieldValue (s x)) ->
  (forall id, sender_of p = FieldValue id -> acc (qdb w) r p id) ->
  (forall x, effect (s x) (qdb w) (qdb (op x w0).2)) ->
  acts_for acc effect r w ((x ← fail_with q; with_status f (op x)) w0).2.
Proof.
  intros Hq Hs Hacc Heff. apply acts_bind; [unfold fail_with; respects|done|].
  intros x w1 Hx Hq1. unfold fail_with in Hx. leafM Hx. apply map_err_Ok in Hx.
  right. exists p, (s x). split; [by apply Hacc, Hs|]. rewrite with_status_db. apply Heff.
Qed.

End Acts.

Lemma check_version_db m : respects eq (check_version client_version_req m).
Proof. unfold check_version, fail_with. respects. Qed.

Ltac inv_params :=
  intros ?x ?Hx; inv_ok; repeat match goal with H : required _ = Ok _ |- _ => apply required_Ok in H end; done.

Lemma update_user_acts r w :
  acts_for user_accepts user_effect r w (update_user db_ok client_version_req r w).2.
Proof.
  unfold update_user. apply acts_bind; [apply check_version_db|done|]. intros _ w1 _ Hq1.
  apply acts_bind; [apply verify_user_db|done|]. intros p w2 Hp Hq2.
  apply (acts_tail _ _ _ _ _ _ uu_sender p); [done|inv_params| |].
  - intros id Hid. rewrite <- Hq1. by eapply verify_user_Ok.
  - intros x. pose proof (confined_update_user_record db_ok x w2) as Hc. rewrite Hq2 in Hc.
    eapply confined_weaken; [..|exact Hc]; [done|by intros c []].
Qed.

Lemma delete_user_acts r w :
  acts_for user_accepts user_effect r w (delete_user db_ok client_version_req r w).2.
Proof.
  unfold delete_user. apply acts_bind; [apply check_version_db|done|]. intros _ w1 _ Hq1.
  apply acts_bind; [apply verify_user_db|done|]. intros p w2 Hp Hq2.
  apply (acts_tail _ _ _ _ _ _ id p); [done|inv_params| |].
  - intros i Hi. rewrite <- Hq1. by eapply verify_user_Ok.
  - intros x. pose proof (confined_user_delete db_ok DeleteUserStorageError x w2) as Hc.
    unfold user_effect. by rewrite Hq2 in Hc.
Qed.

Lemma create_client_acts r w :
  acts_for user_accepts user_effect r w (create_client db_ok uuid_of now client_version_req r w).2.
Proof.
  unfold create_client. apply acts_bind; [apply verify_user_db|done|]. intros p w1 Hp Hq1.
  apply acts_bind; [apply check_version_db|done|]. intros _ w2 _ Hq2.
  apply (acts_tail _ _ _ _ _ _ cc_sender p); [done|inv_params| |].
  - intros i Hi. by eapply verify_user_Ok.
  - intros x. pose proof (confined_create_client_record db_ok uuid_of now x w2) as Hc.
    cbv zeta in Hc. rewrite Hq2 in Hc. eapply confined_weaken; [..|exact Hc]; [by intros u []|done].
Qed.

Lemma update_client_acts r w :
  acts_for client_accepts client_effect r w (update_client db_ok client_version_req r w).2.
Proof.
  unfold update_client. apply acts_bind; [apply check_version_db|done|]. intros _ w1 _ Hq1.
  apply acts_bind; [apply verify_client_db|done|]. intros p w2 Hp Hq2.
  apply (acts_tail _ _ _ _ _ _ uc_sender p); [done|inv_params| |].
  - intros i Hi. rewrite <- Hq1. by eapply verify_client_Ok.
  - intros x. pose proof (confined_update_client_record db_ok x w2) as Hc.
    unfold client_effect. by rewrite Hq2 in Hc.
Qed.

Lemma delete_client_acts r w :
  acts_for client_accepts client_effect r w (delete_client db_ok now client_version_req r w).2.
Proof.
  unfold delete_client. apply acts_bind; [apply check_version_db|done|]. intros _ w1 _ Hq1.
  apply acts_bind; [apply verify_client_db|done|]. intros p w2 Hp Hq2.
  apply (acts_tail _ _ _ _ _ _ id p); [done|inv_params| |].
  - intros i Hi. rewrite <- Hq1. by eapply verify_client_Ok.
  - intros x. pose proof (confined_soft_delete db_ok x (now (statements w2)) w2) as Hc.
    unfold client_effect, qs_delete_client_record, mbind, M_bind, get, map_errM. rewrite Hq2 in Hc.
    by destruct (soft_delete _ _ _ _).
Qed.

Lemma publish_acts {K I} `{!StorableKeyPackage K} (validate : I -> option K) last c l w w0 :
  qs_wf (qdb w) -> qdb w0 = qdb w ->
  client_effect c (qdb w) (qdb (publish_packages db_ok validate last c l w0).2).
Proof.
  intros Hwf Hq. rewrite <- Hq in Hwf.
  destruct (confined_publish db_ok validate last c l w0 Hwf) as [Hc _]. by rewrite Hq in Hc.
Qed.

Lemma publish_key_packages_acts r w : qs_wf (qdb w) ->
  acts_for client_accepts client_effect r w (publish_key_packages db_ok client_version_req r w).2.
Proof.
  intros Hwf. unfold publish_key_packages.
  apply acts_bind; [apply check_version_db|done|]. intros _ w1 _ Hq1.
  apply acts_bind; [apply verify_client_db|done|]. intros p w2 Hp Hq2.
  apply (acts_tail _ _ _ _ _ (fun x => qs_publish_key_packages db_ok x.1 x.2) fst p);
    [done|inv_params| |].
  - intros i Hi. rewrite <- Hq1. by eapply verify_client_Ok.
  - intros x. by apply publish_acts.
Qed.

Lemma publish_apq_key_packages_acts r w : qs_wf (qdb w) ->
  acts_for client_accepts client_effect r w (publish_apq_key_packages db_ok client_version_req r w).2.
Proof.
  intros Hwf. unfold publish_apq_key_packages.
  apply acts_bind; [apply check_version_db|done|]. intros _ w1 _ Hq1.
  apply acts_bind; [apply verify_client_db|done|]. intros p w2 Hp Hq2.
  apply (acts_tail _ _ _ _ _ (fun x => qs_publish_apq_key_packages db_ok x.1 x.2) fst p);
    [done|inv_params| |].
  - intros i Hi. rewrite <- Hq1. by eapply verify_client_Ok.
  - intros x. by apply publish_acts.
Qed.

(** C28. A request to update or delete a user or to create a client either changes
    nothing, or acts for one user: the payload that names the user is signed
    under the key stored for that very user (requests without such a payload are
    the unsigned ones of legacy clients), and only the user's own row, clients
    and key packages change.  Queues are never touched. *)
Theorem user_requests_authentic :
  (forall r w, acts_for user_accepts user_effect r w (update_user db_ok client_version_req r w).2) /\
  (forall r w, acts_for user_accepts user_effect r w (delete_user db_ok client_version_req r w).2) /\
  (forall r w, acts_for user_accepts user_effect r w
     (create_client db_ok uuid_of now client_version_req r w).2).
Proof. split_and!; intros r w; [apply update_user_acts|apply delete_user_acts|apply create_client_acts]. Qed.

(** A request to update or delete a client or to publish its key packages
    either changes nothing, or acts for one client: the payload that names the
    client is signed under the key stored for that very client, which has not
    been deleted (requests without such a payload are the unsigned ones of legacy
    clients), and only that client's row and key packages change. *)
Theorem client_requests_authentic :
  (forall r w, acts_for client_accepts client_effect r w (update_client db_ok client_version_req r w).2) /\
  (forall r w, acts_for client_accepts client_effect r w
     (delete_client db_ok now client_version_req r w).2) /\
  (forall r w, qs_wf (qdb w) -> acts_for client_accepts client_effect r w
     (publish_key_packages db_ok client_version_req r w).2) /\
  (forall r w, qs_wf (qdb w) -> acts_for client_accepts client_effect r w
     (publish_apq_key_packages db_ok client_version_req r w).2).
Proof.
  split_and!; intros r w.
  - apply update_client_acts.
  - apply delete_client_acts.
  - apply publish_key_packages_acts.
  - apply publish_apq_key_packages_acts.
Qed.

(** A request to publish APQ key packages without a payload, or without a
    client in it, does not get an error: the handler panics, since there is no
    legacy payload to fall back to. *)
Theorem publish_apq_panics r w :
  client_version_req = None -> request_sender r = None ->
  publish_apq_key_packages db_ok client_version_req r w = (Err Panicked, w).
Proof.
  intros Hv Hr. unfold publish_apq_key_packages, mbind, M_bind, check_version, fail_with, lift.
  rewrite Hv. cbn. unfold verify_client_auth, verify_auth. by rewrite Hr.
Qed.

End Requests.

(** ** Queues under requests *)

Section KeepQueue.
Context (db_ok : nat -> bool) (c : Uuid).

Lemma keeps_set_row id r r' d :
  qs_client_record d !! id = Some r -> row_deleted_at r' = row_deleted_at r ->
  (forall b, row_blobs r = Some b ->
     exists b', row_blobs r' = Some b' /\ row_ratchet b' = row_ratchet b) ->
  keeps_queue c d (set_client_record (<[id := r']> (qs_client_record d)) d).
Proof.
  intros Hr Hd Hb. split; [|done]. intros row b (Hrow & Hl & Hbl).
  destruct (decide (id = c)) as [->|].
  - rewrite Hr in Hrow. injection Hrow as ->. destruct (Hb _ Hbl) as (b' & Hb' & He).
    exists r', b'. split; [|done]. unfold live_row, is_live in *. cbn.
    by rewrite lookup_insert_eq, Hd.
  - exists row, b. split; [|done]. unfold live_row. cbn. by rewrite lookup_insert_ne.
Qed.

Lemma keeps_update_live id f :
  (forall r, row_deleted_at (f r) = row_deleted_at r /\ row_blobs (f r) = row_blobs r) ->
  respects (keeps_queue c) (update_live db_ok id f).
Proof.
  intros Hf. unfold update_live. respects. apply respects_modify. intros w.
  destruct (qs_client_record (qdb w) !! id) as [r|] eqn:Er; [|reflexivity].
  destruct (is_live r); [|reflexivity]. destruct (Hf r) as [Hd Hb].
  apply (keeps_set_row _ r); [done|done|]. rewrite Hb. eauto.
Qed.

Lemma keeps_client_store rec : respects (keeps_queue c) (client_store db_ok rec).
Proof.
  unfold client_store. apply respects_bind; [apply _|apply respects_statement; apply _|intros _].
  apply respects_get. intros w.
  destruct (qs_client_record (qdb w) !! client_id rec) as [r|] eqn:Er; [reflexivity|].
  destruct (qs_user_record (qdb w) !! user_id rec); [|reflexivity]. split; [|done].
  intros row b (Hrow & Hl & Hb). exists row, b. split; [|done]. split; [|done]. cbn.
  rewrite lookup_insert_ne; [done|]. intros He. rewrite He in Er. congruence.
Qed.

(** Tables other than the clients and queues. *)
Lemma keeps_same d d' : qs_client_record d' = qs_client_record d -> qs_queues d' = qs_queues d ->
  keeps_queue c d d'.
Proof. intros Hc Hq. apply keeps_queue_frame; [by rewrite Hc|intros n; by rewrite Hq]. Qed.

Lemma keeps_user_store {E} (e : E) u : respects (keeps_queue c) (user_store db_ok e u).
Proof.
  unfold user_store. apply respects_bind; [apply _|apply respects_statement; apply _|intros _].
  apply respects_get. intros w. case_match; [reflexivity|]. case_match; [reflexivity|].
  by apply keeps_same.
Qed.
Lemma keeps_user_update {E} (e : E) u : respects (keeps_queue c) (user_update db_ok e u).
Proof.
  unfold user_update. apply respects_bind; [apply _|apply respects_statement; apply _|intros _].
  apply respects_get. intros w. case_match; [|reflexivity]. case_match; [reflexivity|].
  by apply keeps_same.
Qed.
Lemma keeps_replace {K E} `{!StorableKeyPackage K} (e : E) id (ks : list K) b :
  respects (keeps_queue c) (replace_multiple_internal db_ok e id ks b).
Proof.
  intros w. destruct (replace_multiple_internal db_ok e id ks b w) as [r w'] eqn:Er.
  apply replace_multiple_internal_db in Er. cbn. destruct r as [u|e'].
  - destruct Er as [[_ ->]|(blobs & _ & _ & _ & ->)]; by apply keeps_same.
  - destruct Er as [->| ->]; by apply keeps_same.
Qed.
Lemma keeps_load {K E} `{!StorableKeyPackage K} scan (e : E) token :
  respects (keeps_queue c) (load_user_key_package_row (K := K) db_ok scan e token).
Proof.
  intros w. destruct (load_user_key_package_row db_ok scan e token w) as [[[[n r] k]|e'] w'] eqn:El; cbn.
  - apply load_row_Ok in El as (s & _ & _ & _ & ->). by apply keeps_same.
  - apply transaction_Err in El. rewrite El. reflexivity.
Qed.

(** An update of a client keeps the ratchet it finds. *)
Lemma keeps_update_client_record params :
  respects (keeps_queue c) (qs_update_client_record db_ok params).
Proof.
  intros w. destruct (qs_update_client_record db_ok params w) as [[u|e] w'] eqn:Eu; cbn;
    [|apply transaction_Err in Eu; rewrite Eu; reflexivity].
  apply transaction_Ok in Eu as (w1 & w2 & Hs1 & Hb & Hs2).
  apply statement_Ok in Hs1 as [Hq1 _], Hs2 as [Hq2 _]. rewrite Hq2, <- Hq1.
  bindM Hb as found w3 Hf. unfold map_errM in Hf.
  destruct (load_for_update db_ok (uc_sender params) w1) as [rl wl] eqn:El.
  injection Hf as Hf <-. apply map_err_Ok in Hf as ->. bindM Hb as rec w4 Hr. leafM Hr.
  apply ok_or_Ok in Hr as ->. apply load_for_update_Ok in El as (Hq & _ & _ & Hrec).
  destruct (Hrec _ eq_refl) as (row & b & (Hrow & Hl & Hbl) & Hid & Hrk & _).
  unfold map_errM in Hb. destruct (client_update db_ok _ wl) as [ru wu] eqn:Ec.
  injection Hb as Hb ->. apply map_err_Ok in Hb as ->.
  unfold client_update, update_live in Ec. cbn [client_id] in Ec. rewrite Hid in Ec.
  bindM Ec as v w5 Hs. destruct v. apply statement_Ok in Hs as [Hq5 _]. leafM Ec.
  rewrite Hq5, Hq, Hrow, Hl. cbn [set_clients set_db qdb]. rewrite Hq5, Hq.
  apply (keeps_set_row _ row); [done|done|]. intros b0 Hb0. rewrite Hbl in Hb0. injection Hb0 as <-.
  eexists. split; [reflexivity|]. done.
Qed.

End KeepQueue.

Section QueueUnderRequests.
Context (db_ok : nat -> bool) (nonce_of : nat -> Result RandomnessErr bytes).
Context (push : bytes -> Result PushNotificationError unit).
Context (uuid_of : nat -> Uuid) (now : nat -> TimeStamp).
Context (scan : nat -> list (Z * PackageRow) -> list (Z * PackageRow)).
Context (ago : Interval -> TimeStamp -> TimeStamp).
Context (domain : Fqdn) (client_config_decrypt : bytes -> bytes -> Result DecryptionErr ClientConfig).
Context (deliver : bytes -> Fqdn -> bool).
Context `{Hkdf} `{Aes256Gcm} `{!TlsCodec bytes} `{!TlsCodec QsQueueMessagePayload}
  `{!TlsCodec QsToQsMessage} `{MlsKeyPackages} `{Semver}.
Context (client_version_req : option VersionReq).
Context `{!VerifiableRequest UpdateUserPayload} `{!VerifiableRequest DeleteUserPayload}
  `{!VerifiableRequest CreateClientPayload} `{!VerifiableRequest UpdateClientPayload}
  `{!VerifiableRequest DeleteClientPayload} `{!VerifiableRequest PublishKeyPackagesPayload}
  `{!VerifiableRequest PublishApqKeyPackagesPayload} `{!VerifiableRequest InitListenPayload}.

(** Requests that are not meant to change the queue of [c]: all but deletions,
    acknowledgements on that queue, and messages to deliver. *)
Definition spares (c : Uuid) (o : QsOp) : Prop :=
  match o with
  | OpDeleteUser _ | OpDeleteClient _ | OpEnqueue _ => False
  | OpListenRequest q _ => q <> c
  | _ => True
  end.

Hint Resolve keeps_client_store keeps_user_store keeps_user_update keeps_replace keeps_load
  keeps_update_client_record : respects.

Lemma keeps_verify_user {P} `{!QsPayload P, !VerifiableRequest P} c (r : QsRequest P) :
  respects (keeps_queue c) (verify_user_auth db_ok r).
Proof. intros w. rewrite <- (verify_user_db db_ok r w). reflexivity. Qed.
Lemma keeps_verify_client {P} `{!QsPayload P, !VerifiableRequest P} c (r : QsRequest P) :
  respects (keeps_queue c) (verify_client_auth db_ok r).
Proof. intros w. rewrite <- (verify_client_db db_ok r w). reflexivity. Qed.
Lemma keeps_pg_notify c id : respects (keeps_queue c) (pg_notify db_ok id).
Proof. unfold pg_notify. respects. apply respects_modify. intros w. by apply keeps_same. Qed.
Lemma keeps_queue_delete c id n : id <> c -> respects (keeps_queue c) (queue_delete db_ok id n).
Proof.
  intros Hne. unfold queue_delete. respects. apply respects_modify. intros w.
  apply keeps_queue_frame; [done|]. intros k. cbn. apply option_eq. intros m.
  rewrite map_lookup_filter_Some. cbn. split; [by intros [? _]|]. intros Hm. split; [done|].
  by intros [-> _].
Qed.
Lemma keeps_activity c id t : respects (keeps_queue c) (update_activity_time db_ok id t).
Proof. by apply keeps_update_live. Qed.
Lemma keeps_track c id : respects (keeps_queue c) (track_listener id).
Proof. unfold track_listener. apply respects_modify. intros w. by apply keeps_same. Qed.
Lemma keeps_create_client c p : respects (keeps_queue c) (qs_create_client_record db_ok uuid_of now p).
Proof. unfold qs_create_client_record. respects. Qed.
Lemma keeps_publish {K I} `{!StorableKeyPackage K} c (validate : I -> option K) last id l :
  respects (keeps_queue c) (publish_packages db_ok validate last id l).
Proof. unfold publish_packages, replace_last_resort, replace_multiple. respects. Qed.
Hint Resolve keeps_verify_user keeps_verify_client keeps_pg_notify keeps_queue_delete keeps_activity
  keeps_track keeps_create_client keeps_publish : respects.

Abbreviation run_op' := (run_op db_ok nonce_of push uuid_of now scan ago domain client_config_decrypt
  deliver client_version_req) (only parsing).

(** No request but a deletion breaks a queue: whatever is published, updated,
    created, handed out or listened to, a client's queue still holds exactly the
    encrypted history from where it was acknowledged, in step with the stored
    ratchet; in particular updating the client's keys keeps the ratchet. *)
Theorem requests_keep_queue c o w r0 hist lo ms : spares c o ->
  coherent (qdb w) c r0 hist lo ms -> coherent (qdb (run_op' o w).1) c r0 hist lo ms.
Proof.
  intros Hsp. apply coherent_keeps.
  assert (forall {E A} (m : M QsWorld E A), respects (keeps_queue c) m ->
    keeps_queue c (qdb w) (qdb (m w).2)) as Hr by auto.
  destruct o as [r|r|r|r|r|r|r|r|r|r|m|f|q r|m]; cbn [run_op fst]; try done.
  - apply Hr. unfold create_user, qs_create_user_record, user_new_and_store, with_status,
      check_version, fail_with. respects.
  - apply Hr. unfold update_user, qs_update_user_record, user_load, with_status, check_version,
      fail_with. respects.
  - apply Hr. unfold create_client, with_status, check_version, fail_with. respects.
  - apply Hr. unfold update_client, with_status, check_version, fail_with. respects.
  - apply Hr. unfold publish_key_packages, qs_publish_key_packages, with_status, check_version,
      fail_with. respects.
  - apply Hr. unfold publish_apq_key_packages, qs_publish_apq_key_packages, with_status,
      check_version, fail_with. respects.
  - assert (respects (keeps_queue c) (key_package_row db_ok scan client_version_req kp_serialize r))
      as Hk by (unfold key_package_row, qs_key_package_row, with_status, check_version, fail_with; respects).
    specialize (Hk w). by destruct (key_package_row _ _ _ _ r w).
  - assert (respects (keeps_queue c) (key_package_row db_ok scan client_version_req serialize_apq r))
      as Hk by (unfold key_package_row, qs_key_package_row, with_status, check_version, fail_with; respects).
    specialize (Hk w). by destruct (key_package_row _ _ _ _ r w).
  - apply Hr. unfold encryption_key_handler, qs_encryption_key, load_decryption_key, with_status,
      check_version, fail_with. respects.
  - apply Hr. unfold listen, update_client_activity, user_metrics, with_status, check_version,
      fail_with. respects.
  - apply Hr. unfold process_listen_queue_request, with_status, ack, trigger_fetch. respects.
Qed.

End QueueUnderRequests.
