(* ===== verification/QsExample.v ===== *)
(** * A concrete queue service, for evaluation

    Key packages of two bytes, a server with two users, and runs that show the
    properties at work. *)

From S2P Require Import Prelude Aead Ratchet Messages Grpc Qs QsCorrect QsApi QsGrpc QsApiCorrect QsAuth.

Module ToyApi.
Import Toy ToyKdf ToyQs.

(** A package is a flag (last resort) and a number. *)
#[export] Instance toy_packages : MlsKeyPackages := {|
  MlsKeyPackage := bool * Z;
  MlsKeyPackageIn := bool * Z;
  kp_validate := fun k => if 0 <=? k.2 then Some k else None;
  kp_into_unchecked := fun k => k;
  kp_last_resort := fst;
  kp_serialize := fun k => Some [if k.1 then 1 else 0; k.2];
  kp_deserialize := fun bs =>
    match bs with f :: z :: rest => Some ((f =? 1, z), rest) | _ => None end;
  kp_blob_encode := fun k => Some [if k.1 then 1 else 0; k.2];
  kp_blob_decode := fun bs => match bs with [f; z] => Some (f =? 1, z) | _ => None end
|}.
Definition pkg (last : bool) (z : Z) : @MlsKeyPackage toy_packages := (last, z).
#[export] Instance toy_packages_laws : MlsKeyPackagesLaws.
Proof.
  split.
  - intros [[] z] bs rest [= <-]; eexists; split; reflexivity.
  - intros [[] z] bs [= <-]; reflexivity.
Qed.

#[export] Instance toy_semver : Semver := {|
  VersionReq := unit; Version := unit; ProtoVersion := unit;
  version_matches := fun _ _ => true; version_try_into := fun _ => Some tt |}.

(** A signature is valid when it repeats the key. *)
#[export] Instance toy_verifiable (P : Type) : VerifiableRequest P :=
  fun _ sig key => bool_decide (sig = key).

Definition scan0 (_ : nat) (l : list (Z * PackageRow)) : list (Z * PackageRow) := l.
Definition uuids (n : nat) : Uuid := 1000 + Z.of_nat n.
Definition clock (n : nat) : TimeStamp := Z.of_nat n.
Definition ago0 (_ : Interval) (t : TimeStamp) : TimeStamp := t - 1.

(** The clients 1 and 2 of user 7 with one single-use package each. *)
Definition stocked : QsWorld :=
  set_db (set_table ClassicPackage
    {| pt_next := 2;
       pt_rows := {[0 := {| pkg_client_id := 1; pkg_blob := [0; 10]; pkg_is_last_resort := false |};
                    1 := {| pkg_client_id := 2; pkg_blob := [0; 20]; pkg_is_last_resort := false |}]} |}
    (qdb world0)) world0.

Lemma wf_stocked : qs_wf (qdb stocked).
Proof.
  assert (forall c r, qs_client_record (qdb stocked) !! c = Some r -> r = client_row) as Hc.
  { intros c r Hr. change (({[1 := client_row; 2 := client_row]} : gmap Uuid ClientRow) !! c = Some r) in Hr.
    by apply lookup_insert_Some in Hr as [[_ <-]|[_ [_ <-]%lookup_singleton_Some]]. }
  split.
  - intros u v a b Ha Hb _. change (({[7 := user_row]} : gmap Uuid UserRow) !! u = Some a) in Ha.
    change (({[7 := user_row]} : gmap Uuid UserRow) !! v = Some b) in Hb. apply lookup_singleton_Some in Ha as [<- _], Hb as [<- _]. done.
  - intros c r ->%Hc. by exists user_row.
  - intros c r ->%Hc _. by eexists.
  - intros [] n r Hn; cbn in Hn |- *; [|by rewrite lookup_empty in Hn].
    apply lookup_insert_Some in Hn as [[<- <-]|[_ [<- <-]%lookup_singleton_Some]];
      (split; [lia|by exists client_row]).
  - intros [] m n a b Ha Hb _ Hl _; cbn in Ha; [|by rewrite lookup_empty in Ha].
    apply lookup_insert_Some in Ha as [[_ <-]|[_ [_ <-]%lookup_singleton_Some]]; discriminate.
Qed.

Definition take_package : KeyPackageRequest := {| kpr_client_metadata := None; kpr_sender := FieldValue [71] |}.

(** Key packages of client 1, signed with its (empty) key. *)
Definition publish_request (ks : list (bool * Z)) : QsRequest PublishKeyPackagesPayload :=
  @Build_QsRequest _ PublishKeyPackagesPayload _
    {| sr_payload := Some {| pkp_client_metadata := None; pkp_client_id := FieldValue 1;
                             pkp_key_packages := map Some ks |};
       sr_signature := Some [] |}
    {| pkp_client_metadata := None; pkp_client_id := FieldMissing; pkp_key_packages := [] |}.

End ToyApi.

Section Evaluate_qs_api.
Import Toy ToyKdf ToyQs ToyApi.

#[local] Instance toy_tls_qq : TlsCodec QsToQsMessage :=
  {| tls_serialize_detached := fun _ => None; tls_deserialize_exact_bytes := fun _ => None |}.

Abbreviation run := (run_ops up nonces12 (fun _ => Ok tt) uuids clock scan0 ago0 "a"
  (fun _ _ => Ok {| cc_client_id := 1; cc_push_token_ear_key := None |}) (fun _ _ => true) None)
  (only parsing).

(** Publish, and take three packages. *)
Definition ops1 : list QsOp :=
  [OpPublish (publish_request [(false, 30); (true, 40); (false, 50)]);
   OpKeyPackage take_package; OpKeyPackage take_package; OpKeyPackage take_package].

Lemma run_ops_wf_witness : qs_wf (qdb (run ops1 stocked).1).
Proof.
  exact (run_ops_wf up nonces12 (fun _ => Ok tt) uuids clock scan0 ago0 "a" _ _ None ops1 stocked
           wf_stocked).
Defined.

Lemma key_packages_single_use_witness :
  (run ops1 stocked).2 = [(ClassicPackage, 3); (ClassicPackage, 4)] /\ NoDup (run ops1 stocked).2.
Proof.
  split; [vm_compute; reflexivity|].
  exact (key_packages_single_use up nonces12 (fun _ => Ok tt) uuids clock scan0 ago0 "a" _ _ None
           ops1 stocked (fun _ l => Permutation_refl l) wf_stocked).
Defined.

(** One hand-out from a stocked server. *)
Lemma load_user_key_package_exact_witness :
  exists n r k w', load_user_key_package_row (K := MlsKeyPackage) up scan0 tt [71] stocked =
      (Ok (n, r, k), w') /\ is_client_of (qdb stocked) (user_info (qdb stocked) [71]) (pkg_client_id r) = true.
Proof.
  pose proof (load_user_key_package_exact up scan0 (K := MlsKeyPackage) tt [71] stocked
                (fun _ l => Permutation_refl l)) as Hx.
  destruct (load_user_key_package_row up scan0 tt [71] stocked) as [[[[n r] k]|e] w'] eqn:E;
    [|vm_compute in E; discriminate E].
  exists n, r, k, w'. split; [reflexivity|]. exact (proj1 (proj2 (proj2 Hx))).
Defined.

Definition two_packages : list MlsKeyPackageIn := [(false, 30); (true, 40)].

Lemma publish_replaces_pool_witness :
  exists w', publish_packages (K := MlsKeyPackage) up kp_validate kp_last_resort 1 two_packages stocked =
      (Ok tt, w') /\
    published (K := MlsKeyPackage) kp_validate kp_last_resort 1 two_packages (qdb stocked) (qdb w').
Proof.
  pose proof (publish_replaces_pool up (K := MlsKeyPackage) kp_validate kp_last_resort 1 two_packages stocked
                wf_stocked) as Hx.
  destruct (publish_packages (K := MlsKeyPackage) up kp_validate kp_last_resort 1 two_packages stocked)
    as [[[]|e] w'] eqn:E; [|vm_compute in E; discriminate E].
  exists w'. split; [reflexivity|exact Hx].
Defined.

Lemma stored_apq_roundtrip_witness :
  decoded [0; 10; 1; 20] = Some {| t_key_package := pkg false 10; pq_key_package := pkg true 20 |}.
Proof. apply (stored_apq_roundtrip {| t_key_package := pkg false 10; pq_key_package := pkg true 20 |}). reflexivity. Defined.

Lemma publish_apq_panics_witness :
  publish_apq_key_packages up None
    (@Build_QsRequest _ PublishApqKeyPackagesPayload _ {| sr_payload := None; sr_signature := None |} tt)
    stocked = (Err Panicked, stocked).
Proof.
  exact (publish_apq_panics up None
    (@Build_QsRequest _ PublishApqKeyPackagesPayload _ {| sr_payload := None; sr_signature := None |} tt)
    stocked eq_refl eq_refl).
Defined.

Lemma requests_keep_queue_witness :
  coherent (qdb (run_op up nonces12 (fun _ => Ok tt) uuids clock scan0 ago0 "a"
    (fun _ _ => Ok {| cc_client_id := 1; cc_push_token_ear_key := None |}) (fun _ _ => true) None
    (OpPublish (publish_request [(false, 30)])) world0).1) 1 ratchet0 [] 0 [].
Proof.
  exact (requests_keep_queue up nonces12 (fun _ => Ok tt) uuids clock scan0 ago0 "a" _ _ None 1
           (OpPublish (publish_request [(false, 30)])) world0 ratchet0 [] 0 [] I
           (coherent0 1 (or_introl eq_refl))).
Defined.

End Evaluate_qs_api.

(** ** What goes wrong *)

Section Evaluate_qs_losses.
Import Toy ToyKdf ToyQs ToyApi.

(** Handing out one key package can use up another that nobody receives: with
    one single-use package for each of a user's two clients, one request gets the
    package of one client, the other client's package is deleted with it, and the
    next request finds nothing. *)
Theorem hand_out_wastes_package : exists w n r k w',
  qs_wf (qdb w) /\
  load_user_key_package_row (K := MlsKeyPackage) up scan0 tt [71] w = (Ok (n, r, k), w') /\
  (exists c m, c <> pkg_client_id r /\ single_use (key_package (qdb w)) c m /\
     pt_rows (key_package (qdb w')) !! m = None) /\
  fst (load_user_key_package_row (K := MlsKeyPackage) up scan0 tt [71] w') = Err tt.
Proof.
  assert (match load_user_key_package_row (K := MlsKeyPackage) up scan0 tt [71] stocked with
          | (Ok (_, r, _), w') => bool_decide (pkg_client_id r = 2) &&
              bool_decide (pt_rows (key_package (qdb w')) !! 0 = None) &&
              negb (is_ok (fst (load_user_key_package_row (K := MlsKeyPackage) up scan0 tt [71] w')))
          | _ => false
          end = true) as Hrun by (vm_compute; reflexivity).
  destruct (load_user_key_package_row up scan0 tt [71] stocked) as [[[[n r] k]|e] w'] eqn:E;
    [|discriminate].
  apply andb_true_iff in Hrun as [Hrun H3]. apply andb_true_iff in Hrun as [H1 H2].
  apply bool_decide_eq_true in H1, H2. exists stocked, n, r, k, w'.
  refine (conj wf_stocked (conj E (conj _ _))).
  - exists 1, 0. rewrite H1. split; [lia|]. split; [|exact H2]. eexists. split; [vm_compute; reflexivity|].
    split; reflexivity.
  - destruct (fst (load_user_key_package_row up scan0 tt [71] w')) as [x|[]]; [discriminate|reflexivity].
Qed.

(** A request to create a user, on a database that answers the first statement only. *)
Definition new_user : CreateUserRequest :=
  {| cur_client_metadata := None; cur_user_record_auth_key := FieldValue [1];
     cur_friendship_token := FieldValue [99]; cur_client_record_auth_key := FieldValue [2];
     cur_queue_encryption_key := FieldValue [3]; cur_encrypted_push_token := FieldMissing;
     cur_initial_ratched_secret := FieldValue (replicate 32 5) |}.
Definition fails_second (n : nat) : bool := negb (Nat.eqb n 1).

(** Creating a user is not atomic: when the database fails between the two
    writes, the request fails, but the user record stays, without any client; and
    repeating the request with the same friendship token fails for good. *)
Theorem create_user_leaves_orphan : exists w1 s,
  create_user fails_second uuids clock None new_user world0 = (Err (Failed s), w1) /\
  (exists u row, qs_user_record (qdb w1) !! u = Some row /\ row_friendship_token row = [99] /\
     forall c r, qs_client_record (qdb w1) !! c = Some r -> row_user_id r <> u) /\
  is_ok (fst (create_user up uuids clock None new_user w1)) = false.
Proof.
  assert (match create_user fails_second uuids clock None new_user world0 with
          | (Err (Failed s), w1) =>
              bool_decide (row_friendship_token <$> qs_user_record (qdb w1) !! 1000 = Some [99]) &&
              bool_decide (row_user_id <$> map snd (map_to_list (qs_client_record (qdb w1))) = [7; 7]) &&
              negb (is_ok (fst (create_user up uuids clock None new_user w1)))
          | _ => false
          end = true) as Hrun by (vm_compute; reflexivity).
  destruct (create_user fails_second uuids clock None new_user world0) as [[x|[s|]] w1];
    [discriminate| |discriminate].
  apply andb_true_iff in Hrun as [Hrun H3]. apply andb_true_iff in Hrun as [H1 H2].
  apply bool_decide_eq_true in H1, H2. apply fmap_Some in H1 as (row & Hrow & Htok).
  exists w1, s. split; [reflexivity|]. split; [|by apply negb_true_iff in H3].
  exists 1000, row. split; [exact Hrow|]. split; [by symmetry|]. intros c r Hr%elem_of_map_to_list Hu.
  assert (1000 ∈ [7; 7]) as Hin; [|set_solver].
  rewrite <- H2, <- Hu. apply list_elem_of_fmap. exists r. split; [done|].
  apply list_elem_of_fmap. by exists (c, r).
Qed.

End Evaluate_qs_losses.
