(* ===== verification/MemoryProvider.v ===== *)
(** * The in-memory storage of mls-assist ([mls-assist/src/memory_provider.rs])

    A key-value storage of encoded values, generic in its codec.  It refines a
    map from group and kind of data to values, and its serialization is lossless;
    this is what lets the delivery service keep a group's public state as one
    encrypted blob. *)

From stdpp Require Import sorting.
From S2P Require Import Prelude Aead.

(** The [Codec] trait, at one type. *)
Class Codec (T : Type) := {
  c_to_vec : T -> Result CodecError bytes;
  c_from_slice : bytes -> Result CodecError T
}.

(** What the storage relies on: decoding inverts encoding, and an encoding is
    never empty (an empty payload stands for an absent one). *)
Class CodecLaws (T : Type) `{Codec T} := {
  codec_roundtrip : forall x bs, c_to_vec x = Ok bs -> c_from_slice bs = Ok x;
  codec_nonempty : forall x bs, c_to_vec x = Ok bs -> bs <> []
}.

(** [impl Codec for PersistenceCodec]. *)
#[export] Instance PersistenceCodec_codec T `{Cbor T} : Codec T :=
  {| c_to_vec := to_vec; c_from_slice := from_slice |}.

#[export] Instance PersistenceCodec_laws T `{CborLaws T} : CodecLaws T.
Proof.
  split; cbn; intros x bs Hx.
  - by apply from_slice_to_vec.
  - unfold to_vec, codec_serialize in Hx. destruct (cbor_encode x); [|discriminate].
    injection Hx as <-. discriminate.
Qed.

Record PublicGroupState := {
  treesync : bytes;
  interim_transcript_hash : bytes;
  context : bytes;
  confirmation_tag_bytes : bytes;
  proposal_queue : gmap bytes bytes
}.

(** [PublicGroupState::default()]. *)
Definition default_state : PublicGroupState :=
  {| treesync := []; interim_transcript_hash := []; context := [];
     confirmation_tag_bytes := []; proposal_queue := ∅ |}.

(** [PublicGroupState::is_empty]. *)
Definition state_is_empty (s : PublicGroupState) : bool :=
  bool_decide (treesync s = []) && bool_decide (interim_transcript_hash s = []) &&
  bool_decide (context s = []) && bool_decide (confirmation_tag_bytes s = []) &&
  bool_decide (proposal_queue s = ∅).

Inductive DataType := TreeSync | InterimTranscriptHash | Context | ConfirmationTagData.

#[export] Instance DataType_eq_dec : EqDecision DataType.
Proof. solve_decision. Defined.

Record MlsAssistMemoryStorage := {
  past_group_states_map : gmap bytes bytes;
  group_infos_map : gmap bytes bytes;
  group_states_map : gmap bytes PublicGroupState
}.

(** [MlsAssistMemoryStorage::default()]. *)
Definition empty_storage : MlsAssistMemoryStorage :=
  {| past_group_states_map := ∅; group_infos_map := ∅; group_states_map := ∅ |}.

Definition with_group_states (m : gmap bytes PublicGroupState) (st : MlsAssistMemoryStorage) :
    MlsAssistMemoryStorage :=
  {| past_group_states_map := past_group_states_map st; group_infos_map := group_infos_map st;
     group_states_map := m |}.

(** The field that holds a kind of data, and its replacement. *)
Definition field (s : PublicGroupState) (dt : DataType) : bytes :=
  match dt with
  | TreeSync => treesync s
  | InterimTranscriptHash => interim_transcript_hash s
  | Context => context s
  | ConfirmationTagData => confirmation_tag_bytes s
  end.

Definition set_field (s : PublicGroupState) (dt : DataType) (bs : bytes) : PublicGroupState :=
  match dt with
  | TreeSync =>
      {| treesync := bs; interim_transcript_hash := interim_transcript_hash s;
         context := context s; confirmation_tag_bytes := confirmation_tag_bytes s;
         proposal_queue := proposal_queue s |}
  | InterimTranscriptHash =>
      {| treesync := treesync s; interim_transcript_hash := bs; context := context s;
         confirmation_tag_bytes := confirmation_tag_bytes s; proposal_queue := proposal_queue s |}
  | Context =>
      {| treesync := treesync s; interim_transcript_hash := interim_transcript_hash s;
         context := bs; confirmation_tag_bytes := confirmation_tag_bytes s;
         proposal_queue := proposal_queue s |}
  | ConfirmationTagData =>
      {| treesync := treesync s; interim_transcript_hash := interim_transcript_hash s;
         context := context s; confirmation_tag_bytes := bs; proposal_queue := proposal_queue s |}
  end.

Definition set_queue (s : PublicGroupState) (q : gmap bytes bytes) : PublicGroupState :=
  {| treesync := treesync s; interim_transcript_hash := interim_transcript_hash s;
     context := context s; confirmation_tag_bytes := confirmation_tag_bytes s;
     proposal_queue := q |}.

(** [entry(k).or_default()], then an update in place. *)
Definition update_entry (k : bytes) (f : PublicGroupState -> PublicGroupState)
    (st : MlsAssistMemoryStorage) : MlsAssistMemoryStorage :=
  with_group_states (<[k := f (default default_state (group_states_map st !! k))]>
                       (group_states_map st)) st.

(** [get_mut(k)], an update in place, and removal of an entry that became empty. *)
Definition shrink_entry (k : bytes) (f : PublicGroupState -> PublicGroupState)
    (st : MlsAssistMemoryStorage) : MlsAssistMemoryStorage :=
  match group_states_map st !! k with
  | Some s =>
      if state_is_empty (f s) then with_group_states (delete k (group_states_map st)) st
      else with_group_states (<[k := f s]> (group_states_map st)) st
  | None => st
  end.

Section Storage.
Context {GroupId : Type} `{Codec GroupId}.

(** [write_payload]. *)
Definition write_payload {P} `{Codec P} (st : MlsAssistMemoryStorage) (group_id : GroupId)
    (payload : P) (dt : DataType) : Result CodecError MlsAssistMemoryStorage :=
  k ← c_to_vec group_id;
  bs ← c_to_vec payload;
  Ok (update_entry k (fun s => set_field s dt bs) st).

(** [read_payload]. *)
Definition read_payload {P} `{Codec P} (st : MlsAssistMemoryStorage) (group_id : GroupId)
    (dt : DataType) : Result CodecError (option P) :=
  k ← c_to_vec group_id;
  match group_states_map st !! k with
  | Some s =>
      match field s dt with
      | [] => Ok None
      | bs => p ← c_from_slice bs; Ok (Some p)
      end
  | None => Ok None
  end.

(** [delete_payload]. *)
Definition delete_payload (st : MlsAssistMemoryStorage) (group_id : GroupId) (dt : DataType) :
    Result CodecError MlsAssistMemoryStorage :=
  k ← c_to_vec group_id;
  Ok (shrink_entry k (fun s => set_field s dt []) st).

(** [queue_proposal]. *)
Definition queue_proposal {R Q} `{Codec R, Codec Q} (st : MlsAssistMemoryStorage)
    (group_id : GroupId) (proposal_ref : R) (proposal : Q) :
    Result CodecError MlsAssistMemoryStorage :=
  k ← c_to_vec group_id;
  r ← c_to_vec proposal_ref;
  p ← c_to_vec proposal;
  Ok (update_entry k (fun s => set_queue s (<[r := p]> (proposal_queue s))) st).

(** [remove_proposal]. *)
Definition remove_proposal {R} `{Codec R} (st : MlsAssistMemoryStorage) (group_id : GroupId)
    (proposal_ref : R) : Result CodecError MlsAssistMemoryStorage :=
  k ← c_to_vec group_id;
  r ← c_to_vec proposal_ref;
  Ok (shrink_entry k (fun s => set_queue s (delete r (proposal_queue s))) st).

(** [clear_proposal_queue]. *)
Definition clear_proposal_queue (st : MlsAssistMemoryStorage) (group_id : GroupId) :
    Result CodecError MlsAssistMemoryStorage :=
  k ← c_to_vec group_id;
  Ok (shrink_entry k (fun s => set_queue s ∅) st).

(** Byte strings in the order a [BTreeMap] keeps its keys in. *)
Fixpoint bytes_leb (a b : bytes) : bool :=
  match a, b with
  | [], _ => true
  | _ :: _, [] => false
  | x :: a, y :: b => (x <? y) || ((x =? y) && bytes_leb a b)
  end.
Definition key_le (x y : bytes * bytes) : Prop := bytes_leb x.1 y.1 = true.
#[local] Instance key_le_dec : RelDecision key_le.
Proof. intros x y. unfold key_le. apply _. Defined.

(** [queued_proposals]. *)
Definition queued_proposals {R Q} `{Codec R, Codec Q} (st : MlsAssistMemoryStorage)
    (group_id : GroupId) : Result CodecError (list (R * Q)) :=
  k ← c_to_vec group_id;
  match group_states_map st !! k with
  | Some s =>
      mapM_r (fun x => r ← c_from_slice x.1; q ← c_from_slice x.2; Ok (r, q))
        (merge_sort key_le (map_to_list (proposal_queue s)))
  | None => Ok []
  end.

(** [write_group_info], [read_group_info], [delete_group_info]. *)
Definition write_group_info {G} `{Codec G} (st : MlsAssistMemoryStorage) (group_id : GroupId)
    (group_info : G) : Result CodecError MlsAssistMemoryStorage :=
  k ← c_to_vec group_id;
  bs ← c_to_vec group_info;
  Ok {| past_group_states_map := past_group_states_map st;
        group_infos_map := <[k := bs]> (group_infos_map st);
        group_states_map := group_states_map st |}.

Definition read_group_info {G} `{Codec G} (st : MlsAssistMemoryStorage) (group_id : GroupId) :
    Result CodecError (option G) :=
  k ← c_to_vec group_id;
  match group_infos_map st !! k with
  | None => Ok None
  | Some bs => g ← c_from_slice bs; Ok (Some g)
  end.

Definition delete_group_info (st : MlsAssistMemoryStorage) (group_id : GroupId) :
    Result CodecError MlsAssistMemoryStorage :=
  k ← c_to_vec group_id;
  Ok {| past_group_states_map := past_group_states_map st;
        group_infos_map := delete k (group_infos_map st);
        group_states_map := group_states_map st |}.

(** [write_past_group_states], [read_past_group_states], [delete_past_group_states]. *)
Definition write_past_group_states {P} `{Codec P} (st : MlsAssistMemoryStorage)
    (group_id : GroupId) (past : P) : Result CodecError MlsAssistMemoryStorage :=
  k ← c_to_vec group_id;
  bs ← c_to_vec past;
  Ok {| past_group_states_map := <[k := bs]> (past_group_states_map st);
        group_infos_map := group_infos_map st; group_states_map := group_states_map st |}.

Definition read_past_group_states {P} `{Codec P} (st : MlsAssistMemoryStorage)
    (group_id : GroupId) : Result CodecError (option P) :=
  k ← c_to_vec group_id;
  match past_group_states_map st !! k with
  | None => Ok None
  | Some bs => p ← c_from_slice bs; Ok (Some p)
  end.

Definition delete_past_group_states (st : MlsAssistMemoryStorage) (group_id : GroupId) :
    Result CodecError MlsAssistMemoryStorage :=
  k ← c_to_vec group_id;
  Ok {| past_group_states_map := delete k (past_group_states_map st);
        group_infos_map := group_infos_map st; group_states_map := group_states_map st |}.

End Storage.

(** ** Serialization *)

(** [SerializableMlsAssistMemoryStorage]. *)
Record SerializableStorage := {
  storage_bytes : list (bytes * bytes);
  past_group_states_bytes : list (bytes * bytes);
  group_infos_bytes : list (bytes * bytes)
}.

(** [serialize]: the hash maps are written out in their iteration order. *)
Definition storage_serialize `{Codec PublicGroupState, Codec SerializableStorage}
    (st : MlsAssistMemoryStorage) : Result CodecError bytes :=
  sb ← mapM_r (fun x => v ← c_to_vec x.2; Ok (x.1, v)) (map_to_list (group_states_map st));
  c_to_vec {| storage_bytes := sb;
              past_group_states_bytes := map_to_list (past_group_states_map st);
              group_infos_bytes := map_to_list (group_infos_map st) |}.

(** [collect] into a [HashMap]: a later entry replaces an earlier one. *)
Definition from_iter {V} (l : list (bytes * V)) : gmap bytes V := list_to_map (reverse l).

(** [deserialize]. *)
Definition storage_deserialize `{Codec PublicGroupState, Codec SerializableStorage}
    (serialized : bytes) : Result CodecError MlsAssistMemoryStorage :=
  d ← c_from_slice (T := SerializableStorage) serialized;
  gs ← mapM_r (fun x => v ← c_from_slice x.2; Ok (x.1, v)) (storage_bytes d);
  Ok {| past_group_states_map := from_iter (past_group_states_bytes d);
        group_infos_map := from_iter (group_infos_bytes d);
        group_states_map := from_iter gs |}.

(** ** Correctness *)

(** The stored bytes of a kind of data of a group, by the group's encoded id. *)
Definition stored (st : MlsAssistMemoryStorage) (k : bytes) (dt : DataType) : bytes :=
  match group_states_map st !! k with Some s => field s dt | None => [] end.

Lemma field_set_field s dt bs dt' :
  field (set_field s dt bs) dt' = if decide (dt = dt') then bs else field s dt'.
Proof. by destruct dt, dt'. Qed.

Lemma proposal_queue_set_field s dt bs : proposal_queue (set_field s dt bs) = proposal_queue s.
Proof. by destruct dt. Qed.

Lemma state_is_empty_field s dt : state_is_empty s = true -> field s dt = [].
Proof.
  unfold state_is_empty. rewrite !andb_true_iff, !bool_decide_eq_true.
  by destruct dt; intros [[[[] ?] ?] ?].
Qed.

Lemma state_is_empty_queue s : state_is_empty s = true -> proposal_queue s = ∅.
Proof. unfold state_is_empty. rewrite !andb_true_iff, !bool_decide_eq_true. tauto. Qed.

(** The queue of a group, by the group's encoded id. *)
Definition queue_of (st : MlsAssistMemoryStorage) (k : bytes) : gmap bytes bytes :=
  match group_states_map st !! k with Some s => proposal_queue s | None => ∅ end.

Lemma stored_update k f st k' dt :
  stored (update_entry k f st) k' dt =
  if decide (k = k')
  then field (f (default default_state (group_states_map st !! k))) dt
  else stored st k' dt.
Proof.
  unfold stored, update_entry; cbn. destruct (decide (k = k')) as [<-|Hk].
  - by rewrite lookup_insert_eq.
  - by rewrite lookup_insert_ne.
Qed.

Lemma stored_shrink k f st k' dt :
  field (f default_state) dt = [] ->
  stored (shrink_entry k f st) k' dt =
  if decide (k = k')
  then field (f (default default_state (group_states_map st !! k))) dt
  else stored st k' dt.
Proof.
  intros Hd. unfold stored, shrink_entry.
  destruct (group_states_map st !! k) as [s|] eqn:Es; [destruct (state_is_empty (f s)) eqn:Ee|];
    cbn [with_group_states group_states_map]; destruct (decide (k = k')) as [<-|Hk].
  - rewrite lookup_delete_eq. cbn. by rewrite state_is_empty_field.
  - by rewrite lookup_delete_ne.
  - by rewrite lookup_insert_eq.
  - by rewrite lookup_insert_ne.
  - rewrite Es. cbn. by rewrite Hd.
  - done.
Qed.

Lemma queue_of_update k f st k' :
  queue_of (update_entry k f st) k' =
  if decide (k = k')
  then proposal_queue (f (default default_state (group_states_map st !! k)))
  else queue_of st k'.
Proof.
  unfold queue_of, update_entry; cbn. destruct (decide (k = k')) as [<-|Hk].
  - by rewrite lookup_insert_eq.
  - by rewrite lookup_insert_ne.
Qed.

Lemma queue_of_shrink k f st k' :
  proposal_queue (f default_state) = ∅ ->
  queue_of (shrink_entry k f st) k' =
  if decide (k = k')
  then proposal_queue (f (default default_state (group_states_map st !! k)))
  else queue_of st k'.
Proof.
  intros Hd. unfold queue_of, shrink_entry.
  destruct (group_states_map st !! k) as [s|] eqn:Es; [destruct (state_is_empty (f s)) eqn:Ee|];
    cbn [with_group_states group_states_map]; destruct (decide (k = k')) as [<-|Hk].
  - rewrite lookup_delete_eq. cbn. by rewrite state_is_empty_queue.
  - by rewrite lookup_delete_ne.
  - by rewrite lookup_insert_eq.
  - by rewrite lookup_insert_ne.
  - rewrite Es. cbn. by rewrite Hd.
  - done.
Qed.

Section Refinement.
Context {GroupId : Type} `{CodecLaws GroupId}.

Lemma read_payload_stored {P} `{Codec P} st (g : GroupId) dt :
  read_payload (P := P) st g dt =
  k ← c_to_vec g;
  match stored st k dt with [] => Ok None | bs => p ← c_from_slice bs; Ok (Some p) end.
Proof.
  unfold read_payload, stored. destruct (c_to_vec g) as [k|]; cbn; [|done].
  by destruct (group_states_map st !! k).
Qed.

Lemma c_to_vec_inj (g g' : GroupId) k : c_to_vec g = Ok k -> c_to_vec g' = Ok k -> g = g'.
Proof.
  intros Hg%codec_roundtrip Hg'%codec_roundtrip. rewrite Hg in Hg'. by apply (inj Ok) in Hg'.
Qed.

(** Reads of other entries are not affected when the stored bytes are not. *)
Lemma read_payload_frame {P} `{Codec P} st st' (g : GroupId) dt :
  (forall k, c_to_vec g = Ok k -> stored st' k dt = stored st k dt) ->
  read_payload (P := P) st' g dt = read_payload st g dt.
Proof.
  intros Hk. rewrite !read_payload_stored.
  destruct (c_to_vec g) as [k|]; cbn; [|done]. by rewrite Hk.
Qed.

Lemma read_write_payload {P} `{CodecLaws P} st (g : GroupId) (p : P) dt st' :
  write_payload st g p dt = Ok st' -> read_payload st' g dt = Ok (Some p).
Proof.
  intros Hw. unfold write_payload in Hw. inv_ok. rewrite read_payload_stored, Hm; cbn.
  rewrite stored_update, decide_True, field_set_field, decide_True by done.
  destruct a0 eqn:Ea; [by destruct (codec_nonempty p _ Hm0)|].
  by rewrite (codec_roundtrip p _ Hm0).
Qed.

(** The storage refines a map from group and kind of data to values: a
    written value is read back, a deleted one is absent, and no other group, kind
    of data or proposal queue is affected. *)
Theorem storage_refines_map {P} `{CodecLaws P} (st st' : MlsAssistMemoryStorage)
    (g : GroupId) (dt : DataType) :
  (forall p : P, write_payload st g p dt = Ok st' -> read_payload st' g dt = Ok (Some p)) /\
  (delete_payload st g dt = Ok st' -> read_payload (P := P) st' g dt = Ok None) /\
  ((exists p : P, write_payload st g p dt = Ok st') \/ delete_payload st g dt = Ok st' ->
   (forall (g' : GroupId) (dt' : DataType), (g', dt') <> (g, dt) ->
      read_payload (P := P) st' g' dt' = read_payload st g' dt') /\
   forall k, queue_of st' k = queue_of st k).
Proof.
  split; [|split].
  - intros p. apply read_write_payload.
  - intros Hd. unfold delete_payload in Hd. inv_ok. rewrite read_payload_stored, Hm; cbn.
    by rewrite stored_shrink, decide_True, field_set_field, decide_True by (by destruct dt).
  - intros Hst. split.
    + intros g' dt' Hne. apply read_payload_frame. intros k Hk.
      destruct Hst as [[p Hw]|Hd]; [unfold write_payload in Hw|unfold delete_payload in Hd]; inv_ok.
      * rewrite stored_update. destruct (decide (a = k)) as [->|]; [|done].
        pose proof (c_to_vec_inj _ _ _ Hk Hm) as ->.
        rewrite field_set_field, decide_False by congruence.
        unfold stored. by destruct (group_states_map st !! k), dt'.
      * rewrite stored_shrink by (by destruct dt, dt').
        destruct (decide (a = k)) as [->|]; [|done].
        pose proof (c_to_vec_inj _ _ _ Hk Hm) as ->.
        rewrite field_set_field, decide_False by congruence.
        unfold stored. by destruct (group_states_map st !! k), dt'.
    + intros k. destruct Hst as [[p Hw]|Hd];
        [unfold write_payload in Hw|unfold delete_payload in Hd]; inv_ok.
      * rewrite queue_of_update, proposal_queue_set_field. unfold queue_of.
        destruct (decide (a = k)) as [->|]; [by destruct (group_states_map st !! k)|done].
      * rewrite queue_of_shrink, proposal_queue_set_field by (by destruct dt). unfold queue_of.
        destruct (decide (a = k)) as [->|]; [by destruct (group_states_map st !! k)|done].
Qed.

End Refinement.

Lemma from_iter_map_to_list {V} (m : gmap bytes V) : from_iter (map_to_list m) = m.
Proof.
  unfold from_iter. rewrite <- (list_to_map_to_list m) at 2.
  apply list_to_map_proper; [|by rewrite reverse_Permutation].
  rewrite fmap_reverse, reverse_Permutation. apply NoDup_fst_map_to_list.
Qed.

Lemma storage_deserialize_serialize `{CodecLaws PublicGroupState, CodecLaws SerializableStorage}
    (st : MlsAssistMemoryStorage) (bs : bytes) :
  storage_serialize st = Ok bs -> storage_deserialize bs = Ok st.
Proof.
  intros Hs. unfold storage_serialize in Hs. apply Result_bind_Ok in Hs as (sb & Hsb & Hs).
  unfold storage_deserialize. rewrite (codec_roundtrip _ _ Hs); cbn [mbind Result_bind].
  assert (mapM_r (fun x : bytes * bytes => v ← c_from_slice (T := PublicGroupState) x.2; Ok (x.1, v)) sb
          = Ok (map_to_list (group_states_map st))) as Hgs.
  { apply mapM_r_Ok. apply mapM_r_Ok in Hsb. apply Forall2_flip.
    eapply Forall2_impl; [exact Hsb|]. cbn. intros [k v] x Hx. inv_ok. cbn in *.
    by rewrite (codec_roundtrip _ _ Hm). }
  cbn [storage_bytes past_group_states_bytes group_infos_bytes]. rewrite Hgs; cbn.
  rewrite !from_iter_map_to_list. by destruct st.
Qed.

(** Serialization of the storage is lossless: what [serialize] writes,
    [deserialize] reads back, whatever order the hash maps are iterated in. *)
Theorem storage_roundtrip `{CodecLaws PublicGroupState, CodecLaws SerializableStorage}
    (st : MlsAssistMemoryStorage) (bs : bytes) :
  storage_serialize st = Ok bs -> storage_deserialize bs = Ok st.
Proof. apply storage_deserialize_serialize. Qed.

(** ** Evaluation *)

(** CBOR at any countable type, for concrete runs. *)
Module ToyCodec.

#[export] Instance countable_cbor T `{Countable T} : Cbor T :=
  {| cbor_encode x := Some [Zpos (encode x)];
     cbor_decode bs := match bs with [Zpos p] => decode p | _ => None end |}.

#[export] Instance countable_cbor_laws T `{Countable T} : CborLaws T.
Proof. split; cbn. intros x bs [= <-]. by rewrite decode_encode. Qed.

(** Byte strings with their length in front. *)
Definition put_bytes (l : bytes) : bytes := Z.of_nat (length l) :: l.
Definition get_bytes (bs : bytes) : option (bytes * bytes) :=
  match bs with
  | n :: bs => Some (take (Z.to_nat n) bs, drop (Z.to_nat n) bs)
  | [] => None
  end.
Lemma get_put_bytes l r : get_bytes (put_bytes l ++ r) = Some (l, r).
Proof. cbn. by rewrite Nat2Z.id, take_app_length, drop_app_length. Qed.

(** A list of byte strings. *)
Fixpoint put_all (l : list bytes) : bytes :=
  match l with [] => [] | x :: l => put_bytes x ++ put_all l end.
Fixpoint get_all (fuel : nat) (bs : bytes) : list bytes :=
  match fuel with
  | O => []
  | S fuel => match get_bytes bs with Some (x, bs) => x :: get_all fuel bs | None => [] end
  end.
Lemma length_put_all l : (length l <= length (put_all l))%nat.
Proof. induction l as [|x l IH]; [done|]. cbn. rewrite length_app. lia. Qed.
Lemma get_put_all l fuel : (length l <= fuel)%nat -> get_all fuel (put_all l) = l.
Proof.
  revert fuel. induction l as [|x l IH]; intros [|fuel] Hf; cbn [length] in Hf; [done|done|lia|].
  cbn [put_all get_all]. rewrite get_put_bytes, IH; [done|lia].
Qed.

(** CBOR through a conversion to a list of byte strings. *)
Definition framed_cbor {T} (to : T -> list bytes) (from : list bytes -> option T) : Cbor T :=
  {| cbor_encode x := Some (put_all (to x));
     cbor_decode bs := from (get_all (length bs) bs) |}.
Lemma framed_cbor_laws {T} (to : T -> list bytes) (from : list bytes -> option T) :
  (forall x, from (to x) = Some x) -> @CborLaws T (framed_cbor to from).
Proof. intros Hx. split; cbn. intros x bs <-%(inj Some). by rewrite get_put_all, Hx by apply length_put_all. Qed.

Fixpoint flatten_pairs (l : list (bytes * bytes)) : list bytes :=
  match l with [] => [] | (a, b) :: l => a :: b :: flatten_pairs l end.
Fixpoint pair_up (l : list bytes) : list (bytes * bytes) :=
  match l with a :: b :: l => (a, b) :: pair_up l | _ => [] end.
Lemma pair_up_flatten l : pair_up (flatten_pairs l) = l.
Proof. induction l as [|[a b] l IH]; cbn; congruence. Qed.

Definition of_public (s : PublicGroupState) : list bytes :=
  treesync s :: interim_transcript_hash s :: context s :: confirmation_tag_bytes s ::
  flatten_pairs (map_to_list (proposal_queue s)).
Definition to_public (l : list bytes) : option PublicGroupState :=
  match l with
  | a :: b :: c :: d :: q =>
      Some {| treesync := a; interim_transcript_hash := b; context := c; confirmation_tag_bytes := d;
              proposal_queue := list_to_map (pair_up q) |}
  | _ => None
  end.
#[export] Instance toy_public_cbor : Cbor PublicGroupState := framed_cbor of_public to_public.
#[export] Instance toy_public_cbor_laws : CborLaws PublicGroupState.
Proof. apply framed_cbor_laws. intros []. cbn. by rewrite pair_up_flatten, list_to_map_to_list. Qed.

(** The three maps, with the number of their entries in front. *)
Definition of_serializable (s : SerializableStorage) : list bytes :=
  [Z.of_nat (length (flatten_pairs (storage_bytes s)));
   Z.of_nat (length (flatten_pairs (past_group_states_bytes s)))] ::
  flatten_pairs (storage_bytes s) ++ flatten_pairs (past_group_states_bytes s) ++
  flatten_pairs (group_infos_bytes s).
Definition to_serializable (l : list bytes) : option SerializableStorage :=
  match l with
  | [n; k] :: l =>
      let l' := drop (Z.to_nat n) l in
      Some {| storage_bytes := pair_up (take (Z.to_nat n) l);
              past_group_states_bytes := pair_up (take (Z.to_nat k) l');
              group_infos_bytes := pair_up (drop (Z.to_nat k) l') |}
  | _ => None
  end.
#[export] Instance toy_serializable_cbor : Cbor SerializableStorage :=
  framed_cbor of_serializable to_serializable.
#[export] Instance toy_serializable_cbor_laws : CborLaws SerializableStorage.
Proof.
  apply framed_cbor_laws. intros [a b c]. unfold to_serializable, of_serializable.
  cbn [storage_bytes past_group_states_bytes group_infos_bytes].
  rewrite !Nat2Z.id, drop_app_length, !take_app_length, drop_app_length. by rewrite !pair_up_flatten.
Qed.

End ToyCodec.

Section Evaluate_storage.
Import ToyCodec.

Let example_storage : MlsAssistMemoryStorage :=
  match write_payload empty_storage 7 42 Context ≫= fun st =>
        write_payload st 8 1 TreeSync ≫= fun st => queue_proposal st 7 3 4 with
  | Ok st => st
  | Err _ => empty_storage
  end.

Lemma storage_refines_map_witness :
  exists st', write_payload example_storage 7 43 Context = Ok st' /\
    read_payload st' 7 Context = Ok (Some 43) /\
    read_payload st' 8 TreeSync = Ok (Some 1).
Proof.
  eexists. split; [reflexivity|].
  match goal with |- read_payload ?st' _ _ = _ /\ _ =>
    destruct (storage_refines_map (P := Z) example_storage st' 7 Context) as (Hw & _ & Hf) end.
  split; [by apply Hw|].
  destruct Hf as [Hf _]; [left; by exists 43|]. rewrite Hf; [vm_compute; reflexivity|done].
Defined.

Lemma storage_roundtrip_witness :
  exists bs, storage_serialize example_storage = Ok bs /\
    storage_deserialize bs = Ok example_storage.
Proof.
  eexists. split; [reflexivity|]. apply storage_roundtrip. reflexivity.
Defined.

End Evaluate_storage.
