(* ===== verification/Mls.v ===== *)
(** * mls-assist: the server's view of an MLS group ([mls-assist/src])

    OpenMLS is an external crate: its types are opaque, its operations are the
    fields of the classes [OpenMlsTypes] and [OpenMls], and what the code relies
    on is the class [OpenMlsLaws].  On top of it, the file models [Group]: its
    creation, loading, the processing of assisted messages, the validation of
    the assisted group info, and the acceptance of processed messages with the
    past group states kept for joiners. *)

From S2P Require Import Prelude Aead MemoryProvider Messages.

(** ** OpenMLS: data *)

Class OpenMlsTypes := {
  PublicGroup : Type;
  GroupInfo : Type;
  GroupContext : Type;
  VerifiableGroupInfo : Type;
  RatchetTree : Type;
  RatchetTreeIn : Type;
  LeafNode : Type;
  Member : Type;
  KeyPackage : Type;
  Credential : Type;
  GroupInfoExtensions : Type;
  MlsSignature : Type;
  SignatureScheme : Type;
  OpenMlsSignaturePublicKey : Type;
  ConfirmationTag : Type;
  StagedCommit : Type;
  QueuedProposal : Type;
  ProcessedMessage : Type;
  PublicMessageIn : Type;
  PrivateMessageIn : Type;
  UnresolvedAppDataCommit : Type;
  AppDataUpdateProposal : Type;
  AppDataDictionaryUpdater : Type;
  AppDataUpdates : Type
}.

(** Signature public keys and key package references are byte strings. *)
Abbreviation SignaturePublicKey := (list Z) (only parsing).
Abbreviation KeyPackageRef := (list Z) (only parsing).

(** [Sender]. *)
Inductive Sender :=
| SenderMember (index : LeafNodeIndex)
| SenderExternal (index : Z)
| NewMemberProposal
| NewMemberCommit.

(** [Proposal], with the kinds the code distinguishes. *)
Inductive Proposal :=
| ProposalRemove (removed : LeafNodeIndex)
| ProposalSelfRemove
| ProposalOther.

(** [ContentType]. *)
Inductive ContentType := ContentApplication | ContentProposal | ContentCommit.

(** A leaf node extension: [Extension::Unknown], or another kind. *)
Inductive Extension :=
| ExtensionUnknown (extension_type : Z) (data : bytes)
| ExtensionOther.

(** [AppDataUpdateOperation]. *)
Inductive AppDataUpdateOperation :=
| AppDataUpdateOp (data : bytes)
| AppDataRemoveOp.

(** [ProcessedMessageContent]. *)
Inductive ProcessedMessageContent `{OpenMlsTypes} :=
| ApplicationMessage
| ProposalMessage (p : QueuedProposal)
| ExternalJoinProposalMessage (p : QueuedProposal)
| StagedCommitMessage (c : StagedCommit)
| OwnPendingCommit
| OwnPrivateMessage
| UnresolvedAppDataCommitMessage (u : UnresolvedAppDataCommit).

(** [ProtocolMessage]. *)
Inductive ProtocolMessage `{OpenMlsTypes} :=
| PrivateMessage (m : PrivateMessageIn)
| PublicMessage (m : PublicMessageIn).

(** OpenMLS errors, as far as the code distinguishes them. *)
Inductive ValidationError := ValidationLibraryError | WrongEpoch | ValidationOther.
Inductive PublicProcessMessageError :=
| ProcessValidationError (e : ValidationError)
| ProcessOther.
Inductive OpenMlsLibraryErr := OpenMlsLibraryError_.
Inductive ResolveAppDataCommitError := ResolveAppDataCommitErr.

(** [MergeCommitError]; [MergePanic] marks a [todo!()] that was reached. *)
Inductive MergeCommitError :=
| MergeStorageError (e : CodecError)
| MergeOther
| MergePanic.

Inductive CreationFromExternalError :=
| WriteToStorageError (e : CodecError)
| CreationOther.

(** ** OpenMLS: operations *)

Class OpenMls `{OpenMlsTypes} := {
  (* equality of the values the code compares *)
  #[global] credential_eq_dec :: EqDecision Credential;
  #[global] group_context_eq_dec :: EqDecision GroupContext;
  (* [PublicGroup]; the operations that persist take and return the storage *)
  from_external : MlsAssistMemoryStorage -> RatchetTreeIn -> VerifiableGroupInfo ->
    Result CreationFromExternalError (PublicGroup * GroupInfo * MlsAssistMemoryStorage);
  public_group_load : MlsAssistMemoryStorage -> GroupId -> Result CodecError (option PublicGroup);
  merge_commit : PublicGroup -> MlsAssistMemoryStorage -> StagedCommit ->
    Result MergeCommitError (PublicGroup * MlsAssistMemoryStorage);
  add_proposal : PublicGroup -> MlsAssistMemoryStorage -> QueuedProposal ->
    Result CodecError (PublicGroup * MlsAssistMemoryStorage);
  process_message : PublicGroup -> PublicMessageIn ->
    Result PublicProcessMessageError ProcessedMessage;
  pg_group_context : PublicGroup -> GroupContext;
  pg_export_ratchet_tree : PublicGroup -> RatchetTree;
  pg_leaf : PublicGroup -> LeafNodeIndex -> option LeafNode;
  pg_members : PublicGroup -> list Member;
  pg_ext_commit_sender_index : PublicGroup -> StagedCommit -> Result OpenMlsLibraryErr LeafNodeIndex;
  pg_app_data_dictionary_updater : PublicGroup -> AppDataDictionaryUpdater;
  resolve_app_data_commit : PublicGroup -> ProcessedMessage -> option AppDataUpdates ->
    Result ResolveAppDataCommitError ProcessedMessage;
  (* [GroupContext], [GroupInfo], [VerifiableGroupInfo] *)
  gc_group_id : GroupContext -> GroupId;
  gc_epoch : GroupContext -> GroupEpoch;
  gc_signature_scheme : GroupContext -> SignatureScheme;
  gc_app_data : GroupContext -> Z -> option bytes;
  gi_group_context : GroupInfo -> GroupContext;
  new_verifiable_group_info : GroupContext -> GroupInfoExtensions -> ConfirmationTag ->
    LeafNodeIndex -> MlsSignature -> VerifiableGroupInfo;
  verify_group_info : VerifiableGroupInfo -> OpenMlsSignaturePublicKey -> option GroupInfo;
  from_signature_key : SignaturePublicKey -> SignatureScheme -> OpenMlsSignaturePublicKey;
  (* leaves, members and key packages *)
  leaf_signature_key : LeafNode -> SignaturePublicKey;
  leaf_node_credential : LeafNode -> Credential;
  leaf_extensions : LeafNode -> list Extension;
  member_index : Member -> LeafNodeIndex;
  member_signature_key : Member -> SignaturePublicKey;
  member_credential : Member -> Credential;
  kp_leaf_node : KeyPackage -> LeafNode;
  kp_hash_ref : KeyPackage -> option KeyPackageRef;
  kp_hpke_init_key : KeyPackage -> bytes;
  serialized_content : Credential -> bytes;
  (* staged commits and proposals *)
  sc_add_proposals : StagedCommit -> list KeyPackage;
  sc_update_proposals : StagedCommit -> nat;
  sc_remove_proposals : StagedCommit -> list LeafNodeIndex;
  sc_queued_proposals : StagedCommit -> list QueuedProposal;
  sc_update_path_leaf_node : StagedCommit -> option LeafNode;
  sc_group_context : StagedCommit -> GroupContext;
  qp_sender : QueuedProposal -> Sender;
  qp_proposal : QueuedProposal -> Proposal;
  (* messages *)
  pm_sender : ProcessedMessage -> Sender;
  pm_content : ProcessedMessage -> ProcessedMessageContent;
  pm_aad : ProcessedMessage -> bytes;
  pm_credential : ProcessedMessage -> Credential;
  pub_content_type : PublicMessageIn -> ContentType;
  pub_confirmation_tag : PublicMessageIn -> option ConfirmationTag;
  pub_sender : PublicMessageIn -> Sender;
  pub_epoch : PublicMessageIn -> GroupEpoch;
  pub_group_id : PublicMessageIn -> GroupId;
  priv_epoch : PrivateMessageIn -> GroupEpoch;
  priv_group_id : PrivateMessageIn -> GroupId;
  (* the app data dictionary *)
  unresolved_proposals : UnresolvedAppDataCommit -> list AppDataUpdateProposal;
  adp_component_id : AppDataUpdateProposal -> Z;
  adp_operation : AppDataUpdateProposal -> AppDataUpdateOperation;
  updater_set : AppDataDictionaryUpdater -> Z -> bytes -> AppDataDictionaryUpdater;
  updater_remove : AppDataDictionaryUpdater -> Z -> AppDataDictionaryUpdater;
  updater_changes : AppDataDictionaryUpdater -> option AppDataUpdates
}.

(** ** Past group states ([group/past_group_states.rs]) *)

Record PastGroupState `{OpenMlsTypes} := {
  nodes : RatchetTree;
  creation_time : TimeStamp;
  potential_joiners : gset SignaturePublicKey
}.

Abbreviation PastGroupStates := (gmap GroupEpoch PastGroupState) (only parsing).

(** [Group]. *)
Record Group `{OpenMlsTypes} := {
  public_group : PublicGroup;
  group_info : GroupInfo;
  past_group_states : PastGroupStates
}.

(** [AssistedGroupInfoIn]. *)
Record AssistedGroupInfoIn `{OpenMlsTypes} := {
  agi_extensions : GroupInfoExtensions;
  agi_signature : MlsSignature
}.

(** [AssistedMessageIn]; the serialized message is a byte string. *)
Abbreviation SerializedMlsMessage := (list Z) (only parsing).
Record AssistedMessageIn `{OpenMlsTypes} := {
  mls_message : ProtocolMessage;
  serialized_mls_message : SerializedMlsMessage;
  group_info_option : option AssistedGroupInfoIn
}.

(** [ProcessedAssistedMessage] and [ProcessedAssistedMessagePlus]. *)
Inductive ProcessedAssistedMessage `{OpenMlsTypes} :=
| ProcessedPrivate (m : PrivateMessageIn)
| NonCommit (pm : ProcessedMessage)
| Commit (pm : ProcessedMessage) (gi : GroupInfo).

Record ProcessedAssistedMessagePlus `{OpenMlsTypes} := {
  processed_assisted_message : ProcessedAssistedMessage;
  plus_serialized : SerializedMlsMessage
}.

(** ** Errors ([group/errors.rs], [group/process.rs]) *)

Inductive LibraryError := LibraryErr | OpenMlsLibraryError (e : OpenMlsLibraryErr).

Inductive GroupInfoValidationError :=
| ValidationLibrary (e : LibraryError)
| UnknownSender
| InvalidGroupInfoSignature
| InconsistentGroupContext.

Inductive ProcessAssistedMessageError :=
| InvalidAssistedMessage
| ProcessLibraryError (e : LibraryError)
| ProcessMessageError (e : PublicProcessMessageError)
| GroupInfoValidation (e : GroupInfoValidationError)
| AppDataUpdate (e : ResolveAppDataCommitError).

(** [AssistedSender] and [ValidateGroupInfoParams]. *)
Inductive AssistedSender :=
| AssistedMember (index : LeafNodeIndex)
| AssistedExternal (signature_key : SignaturePublicKey).

Record ValidateGroupInfoParams `{OpenMlsTypes} := {
  assisted_sender : AssistedSender;
  staged_commit : StagedCommit;
  confirmation_tag : ConfirmationTag
}.

Section Group.
Context `{OpenMls}.
(** The clock: the [n]-th call of [Utc::now()] returns [now n]. *)
Context (now : nat -> TimeStamp).

Definition utc_now {E} : M nat E TimeStamp := fun t => (Ok (now t), S t).

(** *** [PastGroupStates] *)

(** [PastGroupState::new]. *)
Definition past_group_state_new {E} (tree : RatchetTree) (joiners : list SignaturePublicKey) :
    M nat E PastGroupState :=
  t ← utc_now;
  mret {| nodes := tree; creation_time := t; potential_joiners := list_to_set joiners |}.

(** [is_authorized], [has_expired]. *)
Definition is_authorized (s : PastGroupState) (joiner : SignaturePublicKey) : bool :=
  bool_decide (joiner ∈ potential_joiners s).
Definition has_expired {E} (s : PastGroupState) (expiration_time : Z) : M nat E bool :=
  t ← utc_now; mret (creation_time s <=? t - expiration_time).

(** [add_state]. *)
Definition add_state {E} (ps : PastGroupStates) (epoch : GroupEpoch) (tree : RatchetTree)
    (joiners : list SignaturePublicKey) : M nat E PastGroupStates :=
  match joiners with
  | [] => mret ps
  | _ => s ← past_group_state_new tree joiners; mret (<[epoch := s]> ps)
  end.

(** [get_for_joiner]. *)
Definition get_for_joiner (ps : PastGroupStates) (epoch : GroupEpoch)
    (joiner : SignaturePublicKey) : option RatchetTree :=
  s ← ps !! epoch; if is_authorized s joiner then Some (nodes s) else None.

(** [remove_expired_states]: the clock is read once per state. *)
Fixpoint expired_epochs {E} (l : list (GroupEpoch * PastGroupState)) (expiration_time : Z) :
    M nat E (list GroupEpoch) :=
  match l with
  | [] => mret []
  | (e, s) :: l =>
      b ← has_expired s expiration_time;
      es ← expired_epochs l expiration_time;
      mret (if b : bool then e :: es else es)
  end.

Definition remove_expired_states {E} (ps : PastGroupStates) (expiration_time : Z) :
    M nat E PastGroupStates :=
  es ← expired_epochs (map_to_list ps) expiration_time;
  mret (foldl (fun ps e => delete e ps) ps es).

(** *** App data commits *)

(** [compute_app_data_updates]. *)
Fixpoint compute_app_data_updates (updater : AppDataDictionaryUpdater) (updated : bool)
    (proposals : list AppDataUpdateProposal) : option AppDataUpdates :=
  match proposals with
  | [] => if updated then updater_changes updater else None
  | p :: proposals =>
      let updater' :=
        match adp_operation p with
        | AppDataUpdateOp data => updater_set updater (adp_component_id p) data
        | AppDataRemoveOp => updater_remove updater (adp_component_id p)
        end in
      compute_app_data_updates updater' true proposals
  end.

(** [resolve_app_data_commit_public]. *)
Definition resolve_app_data_commit_public (pg : PublicGroup) (message : ProcessedMessage) :
    Result ResolveAppDataCommitError ProcessedMessage :=
  match pm_content message with
  | UnresolvedAppDataCommitMessage u =>
      resolve_app_data_commit pg message
        (compute_app_data_updates (pg_app_data_dictionary_updater pg) false (unresolved_proposals u))
  | _ => Ok message
  end.

(** *** Validation of the group info *)

(** [ValidateGroupInfoParams::from_processed_commit]. *)
Definition from_processed_commit (tag : ConfirmationTag) (processed : ProcessedMessage) :
    Result LibraryError ValidateGroupInfoParams :=
  match pm_content processed with
  | StagedCommitMessage sc =>
      sender ← match pm_sender processed with
               | SenderMember i => Ok (AssistedMember i)
               | SenderExternal _ | NewMemberProposal => Err LibraryErr
               | NewMemberCommit =>
                   match sc_update_path_leaf_node sc with
                   | Some leaf => Ok (AssistedExternal (leaf_signature_key leaf))
                   | None => Err LibraryErr
                   end
               end;
      Ok {| assisted_sender := sender; staged_commit := sc; confirmation_tag := tag |}
  | _ => Err LibraryErr
  end.

(** [AssistedGroupInfoIn::into_verifiable_group_info]. *)
Definition into_verifiable_group_info (agi : AssistedGroupInfoIn) (sender_index : LeafNodeIndex)
    (gc : GroupContext) (tag : ConfirmationTag) : VerifiableGroupInfo :=
  new_verifiable_group_info gc (agi_extensions agi) tag sender_index (agi_signature agi).

(** The first member at an index, with its signature key. *)
Definition find_member_key (members : list Member) (index : LeafNodeIndex) :
    option SignaturePublicKey :=
  head (omap (fun m => if decide (member_index m = index) then Some (member_signature_key m)
                       else None) members).

(** [Group::validate_group_info]. *)
Definition validate_group_info (g : Group) (params : ValidateGroupInfoParams)
    (agi : AssistedGroupInfoIn) : Result GroupInfoValidationError GroupInfo :=
  let scheme := gc_signature_scheme (gi_group_context (group_info g)) in
  sender ← match assisted_sender params with
           | AssistedMember index =>
               key ← ok_or UnknownSender (find_member_key (pg_members (public_group g)) index);
               Ok (index, from_signature_key key scheme)
           | AssistedExternal key =>
               index ← map_err (fun e => ValidationLibrary (OpenMlsLibraryError e))
                         (pg_ext_commit_sender_index (public_group g) (staged_commit params));
               Ok (index, from_signature_key key scheme)
           end;
  let '(sender_index, sender_pk) := sender in
  let verifiable := into_verifiable_group_info agi sender_index
                      (sc_group_context (staged_commit params)) (confirmation_tag params) in
  gi ← ok_or InvalidGroupInfoSignature (verify_group_info verifiable sender_pk);
  if decide (gi_group_context gi = sc_group_context (staged_commit params)) then Ok gi
  else Err InconsistentGroupContext.

(** *** Processing of assisted messages *)

(** [PublicGroup::process_message], and the resolution of app data commits. *)
Definition process_resolved (pg : PublicGroup) (m : PublicMessageIn) :
    Result ProcessAssistedMessageError ProcessedMessage :=
  pm ← map_err ProcessMessageError (process_message pg m);
  map_err AppDataUpdate (resolve_app_data_commit_public pg pm).

(** [Group::process_assisted_message]. *)
Definition process_assisted_message (g : Group) (am : AssistedMessageIn) :
    Result ProcessAssistedMessageError ProcessedAssistedMessagePlus :=
  match mls_message am with
  | PrivateMessage m =>
      Ok {| processed_assisted_message := ProcessedPrivate m;
            plus_serialized := serialized_mls_message am |}
  | PublicMessage m =>
      match pub_content_type m with
      | ContentApplication => Err InvalidAssistedMessage
      | ContentProposal =>
          pm ← process_resolved (public_group g) m;
          Ok {| processed_assisted_message := NonCommit pm;
                plus_serialized := serialized_mls_message am |}
      | ContentCommit =>
          agi ← ok_or InvalidAssistedMessage (group_info_option am);
          pm ← process_resolved (public_group g) m;
          tag ← ok_or (ProcessLibraryError LibraryErr) (pub_confirmation_tag m);
          params ← map_err ProcessLibraryError (from_processed_commit tag pm);
          gi ← map_err GroupInfoValidation (validate_group_info g params agi);
          Ok {| processed_assisted_message := Commit pm gi;
                plus_serialized := serialized_mls_message am |}
      end
  end.

(** *** [Group] *)

Context `{Cbor GroupId, Cbor GroupInfo, Cbor PastGroupStates}.

(** [Group::new]. *)
Definition group_new (st : MlsAssistMemoryStorage) (vgi : VerifiableGroupInfo)
    (ratchet_tree : RatchetTreeIn) :
    Result CreationFromExternalError (Group * MlsAssistMemoryStorage) :=
  r ← from_external st ratchet_tree vgi;
  let '(pg, gi, st1) := r in
  let group_id := gc_group_id (gi_group_context gi) in
  let past : PastGroupStates := ∅ in
  st2 ← map_err WriteToStorageError (write_group_info st1 group_id gi);
  st3 ← map_err WriteToStorageError (write_past_group_states st2 group_id past);
  Ok ({| public_group := pg; group_info := gi; past_group_states := past |}, st3).

(** [Group::load]. *)
Definition group_load (st : MlsAssistMemoryStorage) (group_id : GroupId) :
    Result CodecError (option Group) :=
  gi ← read_group_info st group_id;
  past ← read_past_group_states st group_id;
  pg ← public_group_load st group_id;
  match gi, past, pg with
  | Some gi, Some past, Some pg =>
      Ok (Some {| public_group := pg; group_info := gi; past_group_states := past |})
  | _, _, _ => Ok None
  end.

(** [Group::delete]. *)
Definition group_delete (st : MlsAssistMemoryStorage) (group_id : GroupId) :
    Result CodecError MlsAssistMemoryStorage :=
  st ← delete_group_info st group_id;
  st ← delete_past_group_states st group_id;
  st ← delete_payload st group_id TreeSync;
  st ← delete_payload st group_id ConfirmationTagData;
  st ← delete_payload st group_id Context;
  delete_payload st group_id InterimTranscriptHash.

(** Signature keys of the clients that a staged commit adds. *)
Definition added_potential_joiners (sc : StagedCommit) : list SignaturePublicKey :=
  map (fun kp => leaf_signature_key (kp_leaf_node kp)) (sc_add_proposals sc).

(** The part of [accept_processed_message] that changes the public group. *)
Definition accept_content (pg : PublicGroup) (st : MlsAssistMemoryStorage)
    (content : ProcessedMessageContent) :
    Result MergeCommitError (PublicGroup * MlsAssistMemoryStorage * list SignaturePublicKey) :=
  match content with
  | StagedCommitMessage sc =>
      r ← merge_commit pg st sc; Ok (r, added_potential_joiners sc)
  | ProposalMessage p =>
      r ← map_err MergeStorageError (add_proposal pg st p); Ok (r, [])
  | OwnPendingCommit | OwnPrivateMessage | UnresolvedAppDataCommitMessage _ => Ok (pg, st, [])
  | ApplicationMessage | ExternalJoinProposalMessage _ => Err MergePanic
  end.

(** [Group::accept_processed_message].  The group and the storage are only
    returned on success: a caller drops both on failure. *)
Definition accept_processed_message (g : Group) (st : MlsAssistMemoryStorage)
    (m : ProcessedAssistedMessage) (expiration_time : Z) :
    M nat MergeCommitError (Group * MlsAssistMemoryStorage) :=
  let accept gi pm :=
    r ← lift (accept_content (public_group g) st (pm_content pm));
    let '(pg, st1, joiners) := r in
    past1 ← add_state (past_group_states g) (gc_epoch (pg_group_context pg))
              (pg_export_ratchet_tree pg) joiners;
    past2 ← remove_expired_states past1 expiration_time;
    let group_id := gc_group_id (gi_group_context gi) in
    st2 ← lift (map_err MergeStorageError (write_group_info st1 group_id gi));
    st3 ← lift (map_err MergeStorageError (write_past_group_states st2 group_id past2));
    mret ({| public_group := pg; group_info := gi; past_group_states := past2 |}, st3) in
  match m with
  | ProcessedPrivate _ => mret (g, st)
  | NonCommit pm => accept (group_info g) pm
  | Commit pm gi => accept gi pm
  end.

(** Accessors of [Group] and of [AssistedMessageIn]. *)
Definition group_epoch (g : Group) : GroupEpoch := gc_epoch (pg_group_context (public_group g)).
Definition past_group_state (g : Group) (epoch : GroupEpoch) (joiner : SignaturePublicKey) :
    option RatchetTree :=
  get_for_joiner (past_group_states g) epoch joiner.
Definition group_leaf (g : Group) (i : LeafNodeIndex) : option LeafNode := pg_leaf (public_group g) i.
Definition members (g : Group) : list Member := pg_members (public_group g).

Definition am_epoch (am : AssistedMessageIn) : GroupEpoch :=
  match mls_message am with PrivateMessage m => priv_epoch m | PublicMessage m => pub_epoch m end.
Definition am_group_id (am : AssistedMessageIn) : GroupId :=
  match mls_message am with PrivateMessage m => priv_group_id m | PublicMessage m => pub_group_id m end.
Definition am_sender (am : AssistedMessageIn) : option Sender :=
  match mls_message am with PrivateMessage _ => None | PublicMessage m => Some (pub_sender m) end.

(** [ProcessedAssistedMessage::sender]. *)
Definition processed_sender (m : ProcessedAssistedMessage) : option Sender :=
  match m with
  | NonCommit pm | Commit pm _ => Some (pm_sender pm)
  | ProcessedPrivate _ => None
  end.

(** [removed_client] and [removed_clients] ([common/src/utils/mod.rs]). *)
Definition removed_client (p : QueuedProposal) : option LeafNodeIndex :=
  match qp_proposal p with
  | ProposalRemove removed => Some removed
  | ProposalSelfRemove => match qp_sender p with SenderMember i => Some i | _ => None end
  | ProposalOther => None
  end.
Definition removed_clients (sc : StagedCommit) : list LeafNodeIndex :=
  omap removed_client (sc_queued_proposals sc).

End Group.

(** ** OpenMLS: documented behaviour *)

(** What it means that a group was persisted: its public group can be loaded
    (up to an equivalence that no accessor observes, such as the order of its
    proposal store), and the data of mls-assist itself was not touched. *)
Definition persisted `{OpenMls} (equiv : relation PublicGroup) (pg : PublicGroup)
    (st st' : MlsAssistMemoryStorage) : Prop :=
  past_group_states_map st' = past_group_states_map st /\
  group_infos_map st' = group_infos_map st /\
  exists pg0, public_group_load st' (gc_group_id (pg_group_context pg)) = Ok (Some pg0) /\
              equiv pg0 pg.

Class OpenMlsLaws `{OpenMls} := {
  (* accessors do not observe the equivalence *)
  pg_equiv : relation PublicGroup;
  #[global] pg_equiv_equivalence :: Equivalence pg_equiv;
  #[global] pg_equiv_context :: Proper (pg_equiv ==> eq) pg_group_context;
  #[global] pg_equiv_members :: Proper (pg_equiv ==> eq) pg_members;
  #[global] pg_equiv_leaf :: Proper (pg_equiv ==> eq ==> eq) pg_leaf;
  #[global] pg_equiv_tree :: Proper (pg_equiv ==> eq) pg_export_ratchet_tree;
  (* operations that change a public group persist it *)
  load_local : forall st st' group_id, group_states_map st' = group_states_map st ->
    public_group_load st' group_id = public_group_load st group_id;
  from_external_persisted : forall st rt vgi pg gi st',
    from_external st rt vgi = Ok (pg, gi, st') ->
    persisted pg_equiv pg st st' /\ gi_group_context gi = pg_group_context pg;
  merge_commit_persisted : forall pg st sc pg' st',
    merge_commit pg st sc = Ok (pg', st') ->
    persisted pg_equiv pg' st st' /\ pg_group_context pg' = sc_group_context sc;
  add_proposal_persisted : forall pg st p pg' st',
    add_proposal pg st p = Ok (pg', st') ->
    persisted pg_equiv pg' st st' /\ pg_group_context pg' = pg_group_context pg /\
    pg_members pg' = pg_members pg /\ pg_leaf pg' = pg_leaf pg;
  (* processing does not turn a proposal into a commit, and keeps the sender *)
  process_proposal : forall pg m pm sc, process_resolved pg m = Ok pm ->
    pub_content_type m = ContentProposal -> pm_content pm <> StagedCommitMessage sc;
  process_sender : forall pg m pm, process_resolved pg m = Ok pm -> pm_sender pm = pub_sender m;
  (* a staged commit moves its group to the next epoch *)
  staged_context : forall pg m pm sc, process_resolved pg m = Ok pm ->
    pm_content pm = StagedCommitMessage sc ->
    gc_group_id (sc_group_context sc) = gc_group_id (pg_group_context pg) /\
    gc_epoch (sc_group_context sc) = gc_epoch (pg_group_context pg) + 1;
  (* members have distinct leaves and signature keys *)
  members_distinct : forall pg, NoDup (map member_index (pg_members pg)) /\
    NoDup (map member_signature_key (pg_members pg));
  leaf_member : forall pg i, is_Some (pg_leaf pg i) <-> i ∈ map member_index (pg_members pg);
  (* a remove proposal of a commit is one of its queued proposals *)
  remove_queued : forall sc i, i ∈ sc_remove_proposals sc ->
    exists p, p ∈ sc_queued_proposals sc /\ qp_proposal p = ProposalRemove i;
  (* the proposals of a valid commit remove a leaf at most once *)
  removed_distinct : forall pg m pm sc, process_resolved pg m = Ok pm ->
    pm_content pm = StagedCommitMessage sc -> NoDup (removed_clients sc);
  (* a member's commit removes and adds the clients its proposals name *)
  merge_member_commit : forall pg m pm sc i st pg' st',
    process_resolved pg m = Ok pm -> pm_content pm = StagedCommitMessage sc ->
    pm_sender pm = SenderMember i -> merge_commit pg st sc = Ok (pg', st') ->
    (forall j, j ∈ map member_index (pg_members pg') <->
       (j ∈ map member_index (pg_members pg) /\ j ∉ removed_clients sc) \/
       exists kp mb, kp ∈ sc_add_proposals sc /\ mb ∈ pg_members pg' /\ member_index mb = j /\
                     member_signature_key mb = leaf_signature_key (kp_leaf_node kp)) /\
    (forall kp, kp ∈ sc_add_proposals sc -> exists mb, mb ∈ pg_members pg' /\
       member_signature_key mb = leaf_signature_key (kp_leaf_node kp));
  (* an external commit adds its sender, at the index [ext_commit_sender_index] tells *)
  merge_external_commit : forall pg m pm sc i st pg' st',
    process_resolved pg m = Ok pm -> pm_content pm = StagedCommitMessage sc ->
    pm_sender pm = NewMemberCommit -> pg_ext_commit_sender_index pg sc = Ok i ->
    merge_commit pg st sc = Ok (pg', st') ->
    (forall j, j ∈ map member_index (pg_members pg') <->
       (j ∈ map member_index (pg_members pg) /\ j ∉ removed_clients sc) \/ j = i) /\
    ((i ∈ map member_index (pg_members pg)) -> i ∈ removed_clients sc)
}.
