(* ===== verification/MlsExample.v ===== *)
(** * A small MLS implementation

    Instances of the OpenMLS interface that can be evaluated: messages carry
    their effect in the clear and nothing is signed.  They show that the laws the
    theorems rely on can be met, and let the theorems be applied to concrete
    groups. *)

From S2P Require Import Prelude Aead MemoryProvider Messages Mls.

Module ToyMls.

(** The extension type that holds a client's queue reference
    ([QS_CLIENT_REFERENCE_EXTENSION_TYPE]). *)
Definition toy_extension_type : Z := 65280.

(** A leaf: signature key, credential, queue reference. *)
Record ToyLeaf := { tl_key : bytes; tl_credential : bytes; tl_reference : bytes }.

#[export] Instance ToyLeaf_eq_dec : EqDecision ToyLeaf.
Proof. solve_decision. Defined.

#[export] Instance ToyLeaf_countable : Countable ToyLeaf.
Proof.
  refine (inj_countable' (fun l => (tl_key l, tl_credential l, tl_reference l))
    (fun '(a, b, c) => {| tl_key := a; tl_credential := b; tl_reference := c |}) _).
  by intros [].
Defined.

(** A context: group id, epoch, app data. *)
Definition ToyContext : Type := bytes * Z * option bytes.
Definition ToyMember : Type := Z * ToyLeaf.

(** Distinct leaves and keys. *)
Definition toy_wf (l : list ToyMember) : bool :=
  bool_decide (NoDup (map fst l)) && bool_decide (NoDup (map (tl_key ∘ snd) l)).

Definition ToyGroup : Type := { x : ToyContext * list ToyMember | toy_wf x.2 = true }.

(** A staged commit: clients added, proposals, new leaf of the sender, whether it
    is external, and the context it leads to. *)
Record ToyCommit := {
  tc_adds : list ToyLeaf;
  tc_updates : nat;
  tc_proposals : list (Sender * Proposal);
  tc_path : option ToyLeaf;
  tc_external : bool;
  tc_context : ToyContext
}.

(** A message: its sender, context, content and associated data. *)
Record ToyMessage := {
  tm_sender : Sender;
  tm_context : ToyContext;
  tm_type : ContentType;
  tm_proposal : Proposal;
  tm_proposals : list (Sender * Proposal);
  tm_adds : list ToyLeaf;
  tm_path : option ToyLeaf;
  tm_aad : bytes;
  tm_credential : bytes
}.

Definition toy_external (s : Sender) : bool :=
  match s with NewMemberCommit => true | _ => false end.

Definition toy_staged (m : ToyMessage) : ToyCommit :=
  {| tc_adds := tm_adds m; tc_updates := 0; tc_proposals := tm_proposals m; tc_path := tm_path m;
     tc_external := toy_external (tm_sender m);
     tc_context := let '(g, e, a) := tm_context m in (g, e + 1, a) |}.

(** The leftmost free index. *)
Definition toy_fresh (used : list Z) : Z :=
  default (Z.of_nat (length used))
    (head (filter (fun i => i ∉ used) (map Z.of_nat (seq 0 (S (length used)))))).

Fixpoint toy_place (used : list Z) (ls : list ToyLeaf) : list ToyMember :=
  match ls with
  | [] => []
  | l :: ls => let i := toy_fresh used in (i, l) :: toy_place (i :: used) ls
  end.

#[export] Instance toy_types : OpenMlsTypes := {|
  PublicGroup := ToyGroup;
  GroupInfo := ToyContext;
  GroupContext := ToyContext;
  VerifiableGroupInfo := ToyContext;
  RatchetTree := list ToyMember;
  RatchetTreeIn := list ToyMember;
  LeafNode := ToyLeaf;
  Member := ToyMember;
  KeyPackage := ToyLeaf;
  Credential := list Z;
  GroupInfoExtensions := unit;
  MlsSignature := unit;
  SignatureScheme := unit;
  OpenMlsSignaturePublicKey := list Z;
  ConfirmationTag := unit;
  StagedCommit := ToyCommit;
  QueuedProposal := Sender * Proposal;
  ProcessedMessage := ToyMessage;
  PublicMessageIn := ToyMessage;
  PrivateMessageIn := bytes * Z;
  UnresolvedAppDataCommit := unit;
  AppDataUpdateProposal := unit;
  AppDataDictionaryUpdater := option bytes;
  AppDataUpdates := bytes
|}.

Definition toy_removed (c : ToyCommit) : list Z :=
  omap (fun p : Sender * Proposal =>
          match p.2, p.1 with
          | ProposalRemove i, _ => Some i
          | ProposalSelfRemove, SenderMember i => Some i
          | _, _ => None
          end) (tc_proposals c).

Definition toy_remaining (pg : ToyGroup) (c : ToyCommit) : list ToyMember :=
  filter (fun m : ToyMember => m.1 ∉ toy_removed c) (proj1_sig pg).2.

Definition toy_new_leaves (c : ToyCommit) : list ToyLeaf :=
  if tc_external c then option_list (tc_path c) else tc_adds c.

Definition toy_members_after (pg : ToyGroup) (c : ToyCommit) : list ToyMember :=
  let r := toy_remaining pg c in r ++ toy_place (map fst r) (toy_new_leaves c).

Definition toy_mk (x : ToyContext * list ToyMember) : option ToyGroup :=
  match bool_dec (toy_wf x.2) true with left p => Some (exist _ x p) | right _ => None end.

Import ToyCodec.

Definition toy_store (st : MlsAssistMemoryStorage) (pg : ToyGroup) :
    Result CodecError MlsAssistMemoryStorage :=
  write_payload st (proj1_sig pg).1.1.1 (proj1_sig pg) Context.

Definition toy_load (st : MlsAssistMemoryStorage) (g : bytes) : Result CodecError (option ToyGroup) :=
  x ← read_payload (P := ToyContext * list ToyMember) st g Context;
  Ok (x ≫= toy_mk).

#[export] Instance toy_mls : OpenMls.
Proof.
  refine {|
    from_external := fun st rt vgi =>
      match toy_mk (vgi, rt) with
      | Some pg => st' ← map_err WriteToStorageError (toy_store st pg); Ok (pg, vgi, st')
      | None => Err CreationOther
      end;
    public_group_load := toy_load;
    merge_commit := fun pg st c =>
      match toy_mk (tc_context c, toy_members_after pg c) with
      | Some pg' => st' ← map_err MergeStorageError (toy_store st pg'); Ok (pg', st')
      | None => Err MergeOther
      end;
    add_proposal := fun pg st _ => st' ← toy_store st pg; Ok (pg, st');
    process_message := fun pg m =>
      if decide ((tm_context m).1.1 <> (proj1_sig pg).1.1.1)
      then Err (ProcessValidationError ValidationOther)
      else if decide ((tm_context m).1.2 <> (proj1_sig pg).1.1.2)
      then Err (ProcessValidationError WrongEpoch)
      else if decide (NoDup (toy_removed (toy_staged m))) then Ok m
      else Err (ProcessValidationError ValidationOther);
    pg_group_context := fun pg => (proj1_sig pg).1;
    pg_export_ratchet_tree := fun pg => (proj1_sig pg).2;
    pg_leaf := fun pg i => (list_to_map (proj1_sig pg).2 : gmap Z ToyLeaf) !! i;
    pg_members := fun pg => (proj1_sig pg).2;
    pg_ext_commit_sender_index := fun pg c =>
      match tc_external c, tc_path c with
      | true, Some _ => Ok (toy_fresh (map fst (toy_remaining pg c)))
      | _, _ => Err OpenMlsLibraryError_
      end;
    pg_app_data_dictionary_updater := fun pg => (proj1_sig pg).1.2;
    resolve_app_data_commit := fun _ m _ => Ok m;
    gc_group_id := fun c => c.1.1;
    gc_epoch := fun c => c.1.2;
    gc_signature_scheme := fun _ => tt;
    gc_app_data := fun c _ => c.2;
    gi_group_context := fun c => c;
    new_verifiable_group_info := fun c _ _ _ _ => c;
    verify_group_info := fun c _ => Some c;
    from_signature_key := fun k _ => k;
    leaf_signature_key := tl_key;
    leaf_node_credential := tl_credential;
    leaf_extensions := fun l => [ExtensionOther; ExtensionUnknown toy_extension_type (tl_reference l)];
    member_index := fst;
    member_signature_key := fun m : ToyMember => tl_key m.2;
    member_credential := fun m : ToyMember => tl_credential m.2;
    kp_leaf_node := fun l => l;
    kp_hash_ref := fun l => Some (tl_key l);
    kp_hpke_init_key := tl_key;
    serialized_content := fun c => c;
    sc_add_proposals := tc_adds;
    sc_update_proposals := tc_updates;
    sc_remove_proposals := fun c =>
      omap (fun p : Sender * Proposal => match p.2 with ProposalRemove i => Some i | _ => None end)
        (tc_proposals c);
    sc_queued_proposals := tc_proposals;
    sc_update_path_leaf_node := tc_path;
    sc_group_context := tc_context;
    qp_sender := fst;
    qp_proposal := snd;
    pm_sender := tm_sender;
    pm_content := fun m =>
      match tm_type m with
      | ContentApplication => ApplicationMessage
      | ContentProposal => ProposalMessage (tm_sender m, tm_proposal m)
      | ContentCommit => StagedCommitMessage (toy_staged m)
      end;
    pm_aad := tm_aad;
    pm_credential := tm_credential;
    pub_content_type := tm_type;
    pub_confirmation_tag := fun _ => Some tt;
    pub_sender := tm_sender;
    pub_epoch := fun m => (tm_context m).1.2;
    pub_group_id := fun m => (tm_context m).1.1;
    priv_epoch := snd;
    priv_group_id := fst;
    unresolved_proposals := fun _ => [];
    adp_component_id := fun _ => 0;
    adp_operation := fun _ => AppDataRemoveOp;
    updater_set := fun _ _ data => Some data;
    updater_remove := fun _ _ => None;
    updater_changes := fun u => u
  |}.
Defined.

Lemma toy_mk_Some x pg : toy_mk x = Some pg -> proj1_sig pg = x.
Proof. unfold toy_mk. destruct (bool_dec _ _); [by intros [= <-]|done]. Qed.

Lemma toy_mk_proj (pg : ToyGroup) : exists pg', toy_mk (proj1_sig pg) = Some pg' /\ proj1_sig pg' = proj1_sig pg.
Proof.
  unfold toy_mk. destruct pg as [x p]; cbn. destruct (bool_dec _ _) as [e|n]; [eauto|done].
Qed.

(** Equality of the data of two groups. *)
Definition toy_equiv (a b : ToyGroup) : Prop := proj1_sig a = proj1_sig b.

Lemma toy_store_persisted st pg st' : toy_store st pg = Ok st' -> persisted toy_equiv pg st st'.
Proof.
  intros Hs. split; [|split].
  1-2: by unfold toy_store, write_payload in Hs; inv_ok.
  destruct (toy_mk_proj pg) as (pg' & Hpg' & He). exists pg'. split; [|done].
  change (toy_load st' (proj1_sig pg).1.1.1 = Ok (Some pg')).
  unfold toy_load. rewrite (read_write_payload _ _ _ _ _ Hs). cbn. by rewrite Hpg'.
Qed.

Lemma toy_process pg (m pm : ToyMessage) :
  process_resolved (pg : PublicGroup) (m : PublicMessageIn) = Ok pm ->
  pm = m /\ (tm_context m).1 = (proj1_sig pg).1.1 /\ NoDup (toy_removed (toy_staged m)).
Proof.
  unfold process_resolved, process_message, resolve_app_data_commit_public; cbn.
  intros Hp. destruct (decide _); [discriminate|]. destruct (decide _); [discriminate|].
  destruct (decide (NoDup _)) as [Hnd|]; [|discriminate]. cbn in Hp. assert (pm = m) as ->.
  { by destruct (tm_type m); cbn in Hp; inv_ok. }
  split; [done|]. split; [|exact Hnd].
  destruct (tm_context m) as [[a b] c], pg as [[[[a' b'] c'] l] p]; cbn in *.
  f_equal; by apply dec_stable.
Qed.

Lemma toy_merge pg st c pg' st' :
  merge_commit (pg : PublicGroup) st (c : StagedCommit) = Ok (pg', st') ->
  proj1_sig pg' = (tc_context c, toy_members_after pg c) /\ toy_store st pg' = Ok st'.
Proof.
  cbn. destruct (toy_mk _) as [pg1|] eqn:Em; [|discriminate]. intros Hm. inv_ok.
  by apply toy_mk_Some in Em.
Qed.

Lemma toy_place_leaf used ls x : x ∈ toy_place used ls -> x.2 ∈ ls.
Proof.
  revert used; induction ls as [|l ls IH]; intros used; cbn; [by intros ?%elem_of_nil|].
  intros [->|Hx]%elem_of_cons; [left|right; eauto].
Qed.

Lemma toy_place_all used ls l : l ∈ ls -> exists i, (i, l) ∈ toy_place used ls.
Proof.
  revert used; induction ls as [|l' ls IH]; intros used; cbn; [by intros ?%elem_of_nil|].
  intros [->|Hl]%elem_of_cons; [eexists; left|].
  destruct (IH (toy_fresh used :: used) Hl) as [i Hi]. exists i. by right.
Qed.

Lemma toy_removed_clients c : removed_clients (c : StagedCommit) = toy_removed c.
Proof.
  unfold removed_clients, toy_removed. cbn [sc_queued_proposals toy_mls].
  induction (tc_proposals c) as [|[s p] l IH]; [done|].
  unfold removed_client; cbn. by destruct p, s; cbn; rewrite <- ?IH.
Qed.

Lemma toy_remaining_elem pg c j :
  j ∈ map fst (toy_remaining pg c) <-> j ∈ map fst (proj1_sig pg).2 /\ j ∉ toy_removed c.
Proof.
  unfold toy_remaining. change (map fst) with (fmap (M := list) (@fst Z ToyLeaf)).
  rewrite !list_elem_of_fmap. setoid_rewrite list_elem_of_filter. split.
  - intros (m & -> & Hr & Hm). eauto.
  - intros [(m & -> & Hm) Hr]. eauto.
Qed.

#[export] Instance toy_mls_laws : OpenMlsLaws.
Proof.
  refine {| pg_equiv := toy_equiv : relation PublicGroup |}.
  - split; [done|by intros ? ? ?|intros a b c; unfold toy_equiv; congruence].
  - intros a b Hab. cbn. by rewrite Hab.
  - intros a b Hab. cbn. by rewrite Hab.
  - intros a b Hab i ? <-. cbn. by rewrite Hab.
  - intros a b Hab. cbn. by rewrite Hab.
  - intros st st' g Hst. cbn. unfold toy_load, read_payload. by rewrite Hst.
  - intros st rt vgi pg gi st' Hf. cbn in Hf. destruct (toy_mk _) eqn:Em; [|discriminate]. inv_ok.
    split; [by apply toy_store_persisted|]. apply toy_mk_Some in Em. cbn. by rewrite Em.
  - intros pg st sc pg' st' [Hp Hs]%toy_merge.
    split; [by apply toy_store_persisted|]. cbn. by rewrite Hp.
  - intros pg st p pg' st' Ha. cbn in Ha. inv_ok. split; [by apply toy_store_persisted|done].
  - intros pg m pm sc (-> & _)%toy_process Ht. cbn in *. by rewrite Ht.
  - by intros pg m pm (-> & _)%toy_process.
  - intros pg m pm sc (-> & Hc & _)%toy_process Hsc. cbn in *. destruct (tm_type m); try discriminate.
    injection Hsc as <-. unfold toy_staged; cbn. destruct (tm_context m) as [[g e] a]; cbn in *.
    by rewrite <- Hc.
  - intros [x p]. unfold toy_wf in p. cbn. apply andb_true_iff in p as [?%bool_decide_eq_true ?%bool_decide_eq_true].
    done.
  - intros [x p] i. cbn. unfold toy_wf in p.
    apply andb_true_iff in p as [Hn%bool_decide_eq_true _].
    change (map fst) with (fmap (M := list) (@fst Z ToyLeaf)) in *. split.
    + intros [l Hl]. apply elem_of_list_to_map in Hl; [|done].
      apply list_elem_of_fmap. by exists (i, l).
    + intros ([j l] & -> & Hl)%list_elem_of_fmap. exists l. by apply elem_of_list_to_map.
  - intros sc i Hi. cbn in *. apply list_elem_of_omap in Hi as ([s p] & Hp & Heq).
    exists (s, p). split; [done|]. cbn in *. destruct p; congruence.
  - intros pg m pm sc (-> & _ & Hnd)%toy_process Hsc. cbn in Hsc.
    destruct (tm_type m); try discriminate. injection Hsc as <-. by rewrite toy_removed_clients.
  - intros pg m pm sc i st pg' st' (-> & Hc & _)%toy_process Hsc Hs [Hp _]%toy_merge.
    cbn in Hsc, Hs. destruct (tm_type m); try discriminate. injection Hsc as <-.
    cbn [pg_members toy_mls]. rewrite toy_removed_clients, Hp. cbn [snd].
    assert (Hl : toy_new_leaves (toy_staged m) = tm_adds m).
    { unfold toy_new_leaves, toy_staged; cbn. by rewrite Hs. }
    unfold toy_members_after. rewrite Hl. split.
    + intros j. rewrite map_app, elem_of_app, toy_remaining_elem. split; [|].
      * intros [?|Hj]; [by left|right].
        change (map member_index) with (fmap (M := list) (@fst Z ToyLeaf)) in Hj.
        apply list_elem_of_fmap in Hj as (mb & -> & Hmb). exists mb.2, mb.
        split; [by eapply toy_place_leaf|]. split; [apply elem_of_app; by right|done].
      * intros [?|(kp & mb & _ & Hmb & <- & _)]; [by left|].
        apply elem_of_app in Hmb as [Hmb|Hmb].
        -- left. apply toy_remaining_elem. by apply (list_elem_of_fmap_2 fst).
        -- right. by apply (list_elem_of_fmap_2 fst).
    + intros kp Hkp. destruct (toy_place_all (map fst (toy_remaining pg (toy_staged m))) _ _ Hkp) as [j Hj].
      exists (j, kp). split; [|done]. apply elem_of_app. by right.
  - intros pg m pm sc i st pg' st' (-> & Hc & _)%toy_process Hsc Hs Hi [Hp _]%toy_merge.
    cbn in Hsc, Hs. destruct (tm_type m); try discriminate. injection Hsc as <-.
    cbn in Hi. rewrite Hs in Hi. cbn in Hi.
    destruct (tm_path m) as [l|] eqn:El; [|discriminate]. injection Hi as <-.
    assert (Hl : toy_members_after pg (toy_staged m) = toy_remaining pg (toy_staged m) ++
              [(toy_fresh (map fst (toy_remaining pg (toy_staged m))), l)]).
    { unfold toy_members_after, toy_new_leaves, toy_staged; cbn. rewrite Hs. cbn. by rewrite El. }
    cbn [pg_members toy_mls]. rewrite toy_removed_clients, Hp, Hl. cbn [snd]. split.
    + intros j. rewrite map_app, elem_of_app, toy_remaining_elem. cbn. by rewrite list_elem_of_singleton.
    + intros Hin. destruct pg' as [x p]; cbn in Hp. subst x. cbn in p. rewrite Hl in p. unfold toy_wf in p.
      apply andb_true_iff in p as [Hn%bool_decide_eq_true _]. rewrite map_app in Hn.
      apply NoDup_app in Hn as (_ & Hn & _).
      apply dec_stable. intros Hnr. eapply Hn; [|left]. by apply toy_remaining_elem.
Qed.

(** CBOR of the stored types. *)
#[export] Instance toy_group_info_cbor : Cbor GroupInfo := countable_cbor ToyContext.
#[export] Instance toy_group_info_cbor_laws : CborLaws GroupInfo := countable_cbor_laws ToyContext.

Definition toy_past : Type := list ToyMember * Z * gset (list Z).

Definition to_past (x : toy_past) : PastGroupState :=
  {| nodes := x.1.1 : RatchetTree; creation_time := x.1.2; potential_joiners := x.2 |}.
Definition of_past (s : PastGroupState) : toy_past :=
  (nodes s : list ToyMember, creation_time s, potential_joiners s).

#[export] Instance PastGroupState_eq_dec : EqDecision PastGroupState.
Proof.
  refine (fun a b => cast_if (decide (of_past a = of_past b))).
  - destruct a, b; unfold of_past in *; cbn in *; congruence.
  - congruence.
Defined.

#[export] Instance PastGroupState_countable : Countable PastGroupState.
Proof. refine (inj_countable' of_past to_past _). by intros []. Defined.

(** A group with one member, and a commit of that member that adds a client. *)
Definition alice : ToyLeaf := {| tl_key := [1]; tl_credential := [11]; tl_reference := [101] |}.
Definition bob : ToyLeaf := {| tl_key := [2]; tl_credential := [12]; tl_reference := [102] |}.

Definition alice_adds_bob : ToyMessage :=
  {| tm_sender := SenderMember 0; tm_context := ([7], 0, None); tm_type := ContentCommit;
     tm_proposal := ProposalOther; tm_proposals := [(SenderMember 0, ProposalOther)];
     tm_adds := [bob]; tm_path := Some alice; tm_aad := []; tm_credential := [11] |}.

Definition assisted (m : ToyMessage) : AssistedMessageIn :=
  {| mls_message := PublicMessage (m : PublicMessageIn); serialized_mls_message := [9];
     group_info_option := Some {| agi_extensions := tt : GroupInfoExtensions;
                                  agi_signature := tt : MlsSignature |} |}.

End ToyMls.
