(* ===== verification/MlsCorrect.v ===== *)
(** * Correctness of the mls-assist group

    The group in memory, the stored group and its group info stay in agreement
    over any sequence of operations; the past group states hand a ratchet tree
    only to the clients a commit added, and expire. *)

From S2P Require Import Prelude Aead MemoryProvider Messages Mls MlsExample.

(** ** Storage of the mls-assist data *)

Section Data.
Context `{CborLaws GroupId, CborLaws G}.

Lemma write_group_info_spec st (g : GroupId) (gi : G) st' :
  write_group_info st g gi = Ok st' ->
  read_group_info st' g = Ok (Some gi) /\ past_group_states_map st' = past_group_states_map st /\
  group_states_map st' = group_states_map st.
Proof.
  unfold write_group_info, read_group_info. intros Hw. inv_ok. rewrite Hm; cbn.
  rewrite lookup_insert_eq. cbn.
  change (from_slice a0) with (c_from_slice (T := G) a0).
  by rewrite (codec_roundtrip gi a0 Hm0).
Qed.

Lemma write_past_group_states_spec st (g : GroupId) (ps : G) st' :
  write_past_group_states st g ps = Ok st' ->
  read_past_group_states st' g = Ok (Some ps) /\ group_infos_map st' = group_infos_map st /\
  group_states_map st' = group_states_map st.
Proof.
  unfold write_past_group_states, read_past_group_states. intros Hw. inv_ok. rewrite Hm; cbn.
  rewrite lookup_insert_eq. cbn.
  change (from_slice a0) with (c_from_slice (T := G) a0).
  by rewrite (codec_roundtrip ps a0 Hm0).
Qed.

Lemma read_group_info_local st st' (g : GroupId) :
  group_infos_map st' = group_infos_map st -> read_group_info (G := G) st' g = read_group_info st g.
Proof. intros Hst. unfold read_group_info. by rewrite Hst. Qed.

End Data.

Section Invariant.
Context `{OpenMlsLaws} (now : nat -> TimeStamp).
Context `{CborLaws GroupId, CborLaws GroupInfo, CborLaws (gmap GroupEpoch PastGroupState)}.

(** The group id that a group is stored under. *)
Definition group_id_of (g : Group) : GroupId := gc_group_id (gi_group_context (group_info g)).

(** Groups that differ in nothing an accessor observes. *)
Definition group_equiv (g g' : Group) : Prop :=
  pg_equiv (public_group g) (public_group g') /\ group_info g = group_info g' /\
  past_group_states g = past_group_states g'.

(** The group info describes the current state of the public group. *)
Definition coherent (g : Group) : Prop :=
  gi_group_context (group_info g) = pg_group_context (public_group g).

(** The stored group is the one in memory. *)
Definition synced (g : Group) (st : MlsAssistMemoryStorage) : Prop :=
  exists g0, group_load st (group_id_of g) = Ok (Some g0) /\ group_equiv g0 g.

(** The life of a group: created, advanced by messages, and loaded again. *)
Inductive group_reachable : Group -> MlsAssistMemoryStorage -> Prop :=
| reach_new st vgi rt g st' :
    group_new st vgi rt = Ok (g, st') -> group_reachable g st'
| reach_accept g st am p expiration t g' st' t' :
    group_reachable g st ->
    process_assisted_message g am = Ok p ->
    accept_processed_message now g st (processed_assisted_message p) expiration t
      = (Ok (g', st'), t') ->
    group_reachable g' st'
| reach_load g st g' :
    group_reachable g st -> group_load st (group_id_of g) = Ok (Some g') -> group_reachable g' st.

(** The two writes that end [new] and [accept_processed_message]. *)
Lemma writes_synced pg (gi : GroupInfo) past st1 st2 st3 pg0 :
  write_group_info st1 (gc_group_id (gi_group_context gi)) gi = Ok st2 ->
  write_past_group_states st2 (gc_group_id (gi_group_context gi)) past = Ok st3 ->
  gi_group_context gi = pg_group_context pg ->
  public_group_load st1 (gc_group_id (pg_group_context pg)) = Ok (Some pg0) -> pg_equiv pg0 pg ->
  let g := {| public_group := pg; group_info := gi; past_group_states := past |} in
  coherent g /\ synced g st3.
Proof.
  intros Hgi Hps Hctx Hload Heq.
  apply write_group_info_spec in Hgi as (Hgi & _ & Hs1).
  apply write_past_group_states_spec in Hps as (Hps & Hi & Hs2).
  split; [exact Hctx|]. exists {| public_group := pg0; group_info := gi; past_group_states := past |}.
  split; [|done]. unfold group_load, group_id_of; cbn [group_info].
  rewrite (read_group_info_local st2 st3) by done. rewrite Hgi, Hps; cbn [mbind Result_bind].
  rewrite (load_local st1 st3), Hctx, Hload by congruence. done.
Qed.

(** What the processing of a message tells about its acceptance. *)
Lemma process_commit_context g am p pm gi sc :
  process_assisted_message g am = Ok p -> processed_assisted_message p = Commit pm gi ->
  pm_content pm = StagedCommitMessage sc -> gi_group_context gi = sc_group_context sc.
Proof.
  unfold process_assisted_message. intros Hp Hc Hsc.
  destruct (mls_message am) as [|m]; [inv_ok; discriminate|].
  destruct (pub_content_type m); inv_ok; try discriminate.
  cbn in Hc. injection Hc as -> ->. unfold from_processed_commit in Hm2. rewrite Hsc in Hm2. inv_ok.
  unfold validate_group_info in Hm3. inv_ok. destruct a2 as [i pk]. inv_ok.
  cbn [staged_commit] in Hm3. by case_decide; inv_ok.
Qed.

Lemma process_commit_staged g am p pm gi :
  process_assisted_message g am = Ok p -> processed_assisted_message p = Commit pm gi ->
  exists sc, pm_content pm = StagedCommitMessage sc.
Proof.
  unfold process_assisted_message. intros Hp Hc.
  destruct (mls_message am) as [|m]; [inv_ok; discriminate|].
  destruct (pub_content_type m); inv_ok; try discriminate.
  cbn in Hc. injection Hc as -> ->. unfold from_processed_commit in Hm2.
  destruct (pm_content pm); try discriminate. eauto.
Qed.

Lemma process_message_of g am p pm :
  process_assisted_message g am = Ok p ->
  processed_assisted_message p = NonCommit pm \/ (exists gi, processed_assisted_message p = Commit pm gi) ->
  exists m, mls_message am = PublicMessage m /\ process_resolved (public_group g) m = Ok pm.
Proof.
  unfold process_assisted_message. intros Hp Hc.
  destruct (mls_message am) as [|m]; [inv_ok; by destruct Hc as [|[]]|].
  destruct (pub_content_type m); inv_ok; cbn in Hc; destruct Hc as [Hc|[gi Hc]];
    try discriminate; injection Hc as ->; subst; eauto.
Qed.

Lemma process_non_commit g am p pm sc :
  process_assisted_message g am = Ok p -> processed_assisted_message p = NonCommit pm ->
  pm_content pm <> StagedCommitMessage sc.
Proof.
  unfold process_assisted_message. intros Hp Hc.
  destruct (mls_message am) as [|m]; [inv_ok; discriminate|].
  destruct (pub_content_type m) eqn:Ect; inv_ok; try discriminate.
  cbn in Hc. injection Hc as ->. by eapply process_proposal.
Qed.

(** Acceptance of a content leaves a public group that can be loaded. *)
Lemma accept_content_load pg st content pg' st' joiners :
  accept_content pg st content = Ok (pg', st', joiners) ->
  (exists pg0, public_group_load st (gc_group_id (pg_group_context pg)) = Ok (Some pg0) /\
               pg_equiv pg0 pg) ->
  exists pg0, public_group_load st' (gc_group_id (pg_group_context pg')) = Ok (Some pg0) /\
              pg_equiv pg0 pg'.
Proof.
  intros Ha Hl. destruct content; cbn in Ha; inv_ok; try done.
  - by apply add_proposal_persisted in Hm as [(_ & _ & ?) _].
  - by apply merge_commit_persisted in Hm as [(_ & _ & ?) _].
Qed.

Lemma accept_content_context pg st content pg' st' joiners :
  accept_content pg st content = Ok (pg', st', joiners) ->
  (forall sc, content <> StagedCommitMessage sc) -> pg_group_context pg' = pg_group_context pg.
Proof.
  intros Ha Hsc. destruct content; cbn in Ha; inv_ok; try done.
  - by apply add_proposal_persisted in Hm as (_ & ? & _).
  - by destruct (Hsc c).
Qed.

(** The steps of a successful acceptance. *)
Lemma accept_Ok g st m expiration t g' st' t' :
  accept_processed_message now g st m expiration t = (Ok (g', st'), t') ->
  (exists pr, m = ProcessedPrivate pr /\ g' = g /\ st' = st /\ t' = t) \/
  exists pm gi st1 joiners past1 t1 st2,
    (m = NonCommit pm /\ gi = group_info g \/ m = Commit pm gi) /\
    accept_content (public_group g) st (pm_content pm) = Ok (public_group g', st1, joiners) /\
    add_state (E := MergeCommitError) now (past_group_states g)
      (gc_epoch (pg_group_context (public_group g')))
      (pg_export_ratchet_tree (public_group g')) joiners t = (Ok past1, t1) /\
    remove_expired_states (E := MergeCommitError) now past1 expiration t1
      = (Ok (past_group_states g'), t') /\
    group_info g' = gi /\
    write_group_info st1 (gc_group_id (gi_group_context gi)) gi = Ok st2 /\
    write_past_group_states st2 (gc_group_id (gi_group_context gi)) (past_group_states g') = Ok st'.
Proof.
  intros Ha. destruct m as [pr|pm|pm gi]; cbn in Ha.
  { left. eqM Ha. eauto. }
  all: right; bindM Ha as r t1 Hr; leafM Hr; destruct r as [[pg st1] joiners];
    bindM Ha as past1 t2 Hadd; bindM Ha as past2 t3 Hrem; bindM Ha as st2 t4 Hw1; leafM Hw1;
    bindM Ha as st3 t5 Hw2; leafM Hw2; eqM Ha; apply map_err_Ok in Hw1, Hw2.
  - exists pm, (group_info g), st1, joiners, past1, t2, st2. cbn [public_group group_info past_group_states]. auto 10.
  - exists pm, gi, st1, joiners, past1, t2, st2. cbn [public_group group_info past_group_states]. auto 10.
Qed.

Lemma reachable_invariant g st : group_reachable g st -> coherent g /\ synced g st.
Proof.
  induction 1 as [st vgi rt g st' Hnew|g st am p expiration t g' st' t' _ [Hc Hs] Hp Ha
                 |g st g' _ [Hc Hs] Hl].
  - unfold group_new in Hnew. inv_ok. destruct a as [[pg gi] st1]. inv_ok.
    apply from_external_persisted in Hm as [(_ & _ & pg0 & Hl & He) Hctx].
    by eapply writes_synced.
  - apply accept_Ok in Ha as [(pr & _ & -> & -> & _)|
      (pm & gi & st1 & js & past1 & t1 & st2 & Hpm & Hac & _ & _ & <- & Hw1 & Hw2)]; [done|].
    assert (Hl : exists pg0, public_group_load st (gc_group_id (pg_group_context (public_group g)))
                             = Ok (Some pg0) /\ pg_equiv pg0 (public_group g)).
    { destruct Hs as (g0 & Hl & He & _). unfold group_load in Hl. inv_ok.
      destruct a as [gi|], a0 as [past|], a1 as [pg|]; try discriminate.
      injection Hl as <-. rewrite <- Hc. exists pg. by split. }
    pose proof (accept_content_load _ _ _ _ _ _ Hac Hl) as (pg0 & Hl' & He).
    destruct g' as [pg' gi' past']; cbn [public_group group_info past_group_states] in *.
    eapply writes_synced; [exact Hw1|exact Hw2| |exact Hl'|exact He].
    destruct Hpm as [[Hpm ->]|Hpm].
    + rewrite (accept_content_context _ _ _ _ _ _ Hac); [exact Hc|].
      intros sc. by eapply process_non_commit.
    + destruct (process_commit_staged _ _ _ _ _ Hp Hpm) as [sc Hsc].
      rewrite (process_commit_context _ _ _ _ _ _ Hp Hpm Hsc).
      rewrite Hsc in Hac. cbn in Hac. inv_ok.
      by apply merge_commit_persisted in Hm as [_ ->].
  - destruct Hs as (g0 & Hl0 & He & Hgi & Hps). rewrite Hl in Hl0. injection Hl0 as <-.
    unfold coherent, synced, group_id_of in *. rewrite Hgi. split; [by rewrite Hc, He|].
    exists g'. split; [exact Hl|]. by split.
Qed.

(** C8. Over any sequence of creation, accepted messages and reloads, the group
    info handed to external joiners describes the current state of the public
    group, and loading the group from its storage gives the group in memory. *)
Theorem group_reachable_synced g st : group_reachable g st -> coherent g /\ synced g st.
Proof. apply reachable_invariant. Qed.

(** ** Past group states *)

Lemma expired_epochs_spec {E} l expiration t :
  exists es, expired_epochs (E := E) now l expiration t = (Ok es, (t + length l)%nat) /\
  forall e, e ∈ es <-> exists k s, l !! k = Some (e, s) /\ creation_time s <= now (t + k)%nat - expiration.
Proof.
  revert t; induction l as [|[e s] l IH]; intros t; cbn [expired_epochs length].
  { exists []. rewrite Nat.add_0_r. split; [done|]. intros e. split; [by intros ?%elem_of_nil|].
    intros (k & s & Hk & _). discriminate Hk. }
  destruct (IH (S t)) as (es & Hes & Hin).
  unfold mbind, M_bind, has_expired, utc_now, mret, M_ret. unfold mbind, M_bind.
  cbn beta iota. rewrite Hes. eexists. split; [by rewrite Nat.add_succ_comm|]. intros e'.
  assert (Hcons : (exists k s', ((e, s) :: l) !! k = Some (e', s') /\
              creation_time s' <= now (t + k)%nat - expiration) <->
          (e' = e /\ creation_time s <= now t - expiration) \/ e' ∈ es).
  { rewrite Hin. split.
    - intros ([|k] & s' & Hk & Hs); cbn in Hk.
      + injection Hk as <- <-. rewrite Nat.add_0_r in Hs. auto.
      + right. exists k, s'. rewrite Nat.add_succ_comm. auto.
    - intros [[-> Hs]|(k & s' & Hk & Hs)].
      + exists 0%nat, s. by rewrite Nat.add_0_r.
      + exists (S k), s'. by rewrite <- Nat.add_succ_comm. }
  rewrite Hcons. destruct (Z.leb_spec (creation_time s) (now t - expiration)).
  - rewrite elem_of_cons. intuition lia.
  - intuition lia.
Qed.

Lemma lookup_foldl_delete {A} (m : gmap GroupEpoch A) es e a :
  foldl (fun ps e => delete e ps) m es !! e = Some a <-> m !! e = Some a /\ e ∉ es.
Proof.
  revert m; induction es as [|x es IH]; intros m; cbn.
  - split; [intros ->; split; [done|by intros ?%elem_of_nil] | by intros [-> _]].
  - rewrite IH, lookup_delete_Some, not_elem_of_cons.
    split; [intros [[? ?] ?]|intros [? [? ?]]]; repeat split; congruence.
Qed.

(** A state stays exactly when it had not expired when the clock was read for it. *)
Lemma remove_expired_spec {E} ps expiration t :
  exists ps', remove_expired_states (E := E) now ps expiration t = (Ok ps', (t + size ps)%nat) /\
  forall e s, ps' !! e = Some s <->
    exists k, map_to_list ps !! k = Some (e, s) /\ now (t + k)%nat - expiration < creation_time s.
Proof.
  destruct (expired_epochs_spec (E := E) (map_to_list ps) expiration t) as (es & Hes & Hin).
  unfold remove_expired_states. unfold mbind, M_bind. rewrite Hes, length_map_to_list.
  eexists. split; [reflexivity|]. intros e s. rewrite lookup_foldl_delete, Hin.
  rewrite <- elem_of_map_to_list, list_elem_of_lookup.
  assert (Huniq : forall k k' s', map_to_list ps !! k = Some (e, s) ->
            map_to_list ps !! k' = Some (e, s') -> k = k' /\ s = s').
  { intros k k' s' Hk Hk'.
    pose proof (NoDup_fst_map_to_list ps) as Hnd.
    assert (k = k') as <-.
    { eapply NoDup_lookup; [exact Hnd| |]; rewrite list_lookup_fmap; [rewrite Hk|rewrite Hk']; done. }
    split; [done|]. congruence. }
  split.
  - intros [[k Hk] Hne]. exists k. split; [done|]. apply Z.nle_gt. intros Hle. apply Hne. eauto.
  - intros (k & Hk & Hlt). split; [eauto|]. intros (k' & s' & Hk' & Hle).
    destruct (Huniq _ _ _ Hk Hk') as [<- <-]. lia.
Qed.

Lemma accept_joiners pg st content pg' st' joiners j :
  accept_content pg st content = Ok (pg', st', joiners) -> j ∈ joiners ->
  exists sc, content = StagedCommitMessage sc /\ j ∈ added_potential_joiners sc.
Proof.
  intros Ha Hj. destruct content; cbn in Ha; inv_ok; try by apply elem_of_nil in Hj. eauto.
Qed.

Lemma add_state_lookup {E} ps epoch tree joiners t :
  exists ps' t', add_state (E := E) now ps epoch tree joiners t = (Ok ps', t') /\ (t <= t' <= S t)%nat /\
  (joiners = [] /\ ps' = ps \/
   joiners <> [] /\ ps' = <[epoch := {| nodes := tree; creation_time := now t;
                                potential_joiners := list_to_set joiners |}]> ps /\ t' = S t).
Proof.
  destruct joiners as [|j js]; cbn; do 2 eexists; (split; [reflexivity|]); split; try lia; [by left|by right].
Qed.

(** The staged commit that a processed message carries. *)
Definition accepted_commit (m : ProcessedAssistedMessage) : option StagedCommit :=
  match m with
  | NonCommit pm | Commit pm _ =>
      match pm_content pm with StagedCommitMessage sc => Some sc | _ => None end
  | ProcessedPrivate _ => None
  end.

(** The past group states after an acceptance, with the clock readings in between. *)
Lemma accept_past_states g st m expiration t g' st' t' :
  accept_processed_message now g st m expiration t = (Ok (g', st'), t') ->
  (exists pr, m = ProcessedPrivate pr) /\ g' = g \/
  exists joiners past1 t1,
    ((accepted_commit m = None /\ joiners = []) \/
     exists sc, accepted_commit m = Some sc /\ joiners = added_potential_joiners sc) /\
    (joiners = [] /\ past1 = past_group_states g \/
     joiners <> [] /\ past1 = <[group_epoch g' :=
       {| nodes := pg_export_ratchet_tree (public_group g'); creation_time := now t;
          potential_joiners := list_to_set joiners |}]> (past_group_states g)) /\
    (t <= t1 <= t')%nat /\
    (forall e s, past_group_states g' !! e = Some s <-> exists k,
       map_to_list past1 !! k = Some (e, s) /\ now (t1 + k)%nat - expiration < creation_time s) /\
    (t' = t1 + size past1)%nat.
Proof.
  intros [(pr & -> & -> & _)|(pm & gi & st1 & js & past1 & t1 & st2 & Hpm & Hac & Hadd & Hrem & _)]%accept_Ok.
  { left. eauto. }
  right. exists js, past1, t1.
  destruct (add_state_lookup (E := MergeCommitError) (past_group_states g)
    (gc_epoch (pg_group_context (public_group g'))) (pg_export_ratchet_tree (public_group g')) js t)
    as (past1' & t1' & Hadd' & Ht & Hcase).
  rewrite Hadd in Hadd'. injection Hadd' as <- <-.
  destruct (remove_expired_spec (E := MergeCommitError) past1 expiration t1) as (ps' & Hrem' & Hps).
  rewrite Hrem in Hrem'. injection Hrem' as -> Ht'.
  split; [|split; [|split; [lia|split; [exact Hps|done]]]].
  - assert (accepted_commit m = match pm_content pm with StagedCommitMessage sc => Some sc | _ => None end)
      as -> by (by destruct Hpm as [[-> _]| ->]).
    destruct (pm_content pm); cbn in Hac; inv_ok; eauto.
  - destruct Hcase as [[-> ->]|(Hne & -> & _)]; [by left|]. by right.
Qed.

(** C21. A joiner is handed the ratchet tree of an epoch only if it was already
    entitled to it, or if the accepted commit adds the joiner and leads to that
    epoch; the tree is then the one after the commit. *)
Theorem past_states_sound g st m expiration t g' st' t' e j tree :
  accept_processed_message now g st m expiration t = (Ok (g', st'), t') ->
  past_group_state g' e j = Some tree ->
  past_group_state g e j = Some tree \/
  exists sc, accepted_commit m = Some sc /\ j ∈ added_potential_joiners sc /\
    e = group_epoch g' /\ tree = pg_export_ratchet_tree (public_group g').
Proof.
  intros Ha Hp. destruct (accept_past_states _ _ _ _ _ _ _ _ Ha)
    as [[_ ->]|(js & past1 & t1 & Hjs & Hpast1 & _ & Hps & _)]; [by left|].
  unfold past_group_state, get_for_joiner in *.
  apply bind_Some in Hp as (s & Hs & Hauth). apply Hps in Hs as (k & Hk & _).
  apply list_elem_of_lookup_2, elem_of_map_to_list in Hk.
  destruct Hpast1 as [[_ ->]|[Hne ->]]; [left; by rewrite Hk|].
  apply lookup_insert_Some in Hk as [[<- <-]|[_ Hk]]; [|left; by rewrite Hk].
  right. unfold is_authorized in Hauth; cbn in Hauth. case_bool_decide as Hj; [|done].
  apply elem_of_list_to_set in Hj. injection Hauth as <-.
  destruct Hjs as [[_ ->]|(sc & Hsc & ->)]; [by apply elem_of_nil in Hj|]. eauto.
Qed.

(** Past group states live as long as promised: after a commit that adds a
    joiner, the joiner can fetch the tree of the new epoch (if the clock does not
    jump by the expiration time meanwhile); every state that is kept had not
    expired when it was examined; and states of other epochs that do not expire
    are kept. *)
Theorem past_states_lifetime g st m expiration t g' st' t' :
  accept_processed_message now g st m expiration t = (Ok (g', st'), t') ->
  (forall sc j, accepted_commit m = Some sc -> j ∈ added_potential_joiners sc ->
     (forall k, (t <= k < t')%nat -> now k - now t < expiration) ->
     past_group_state g' (group_epoch g') j = Some (pg_export_ratchet_tree (public_group g'))) /\
  ((exists pr, m = ProcessedPrivate pr) \/
   forall e s, past_group_states g' !! e = Some s -> exists k,
     (t <= k < t')%nat /\ now k - expiration < creation_time s) /\
  (forall e s, past_group_states g !! e = Some s -> e <> group_epoch g' ->
     (forall k, (t <= k < t')%nat -> now k - expiration < creation_time s) ->
     past_group_states g' !! e = Some s).
Proof.
  intros Ha. destruct (accept_past_states _ _ _ _ _ _ _ _ Ha)
    as [[[pr ->] ->]|(js & past1 & t1 & Hjs & Hpast1 & Ht & Hps & Ht')].
  { split; [by intros sc j [=]|]. split; [eauto|]. done. }
  assert (Hk : forall e s k, map_to_list past1 !! k = Some (e, s) -> (t <= t1 + k < t')%nat).
  { intros e s k Hk%lookup_lt_Some. rewrite length_map_to_list in Hk. lia. }
  assert (Hkeep : forall e s, past1 !! e = Some s ->
    (forall k, (t <= k < t')%nat -> now k - expiration < creation_time s) ->
    past_group_states g' !! e = Some s).
  { intros e s Hs Hlt. apply Hps. apply elem_of_map_to_list, list_elem_of_lookup in Hs as [k Hs].
    exists k. split; [exact Hs|]. by eapply Hlt, Hk. }
  split; [|split].
  - intros sc j Hsc Hj Hclock. destruct Hjs as [[Hn _]|(sc' & Hsc' & ->)]; [congruence|].
    replace sc' with sc in * by congruence.
    destruct Hpast1 as [[Hn _]|[_ ->]]; [rewrite Hn in Hj; by apply elem_of_nil in Hj|].
    unfold past_group_state, get_for_joiner.
    erewrite Hkeep; [|apply lookup_insert_eq|].
    + cbn. unfold is_authorized; cbn. by rewrite bool_decide_true by (by apply elem_of_list_to_set).
    + cbn. intros k Hk'. specialize (Hclock k Hk'). lia.
  - right. intros e s (k & Hks & Hlt)%Hps. eauto.
  - intros e s Hs Hne Hlt. apply Hkeep; [|exact Hlt].
    destruct Hpast1 as [[_ ->]|[_ ->]]; [exact Hs|]. by rewrite lookup_insert_ne.
Qed.

End Invariant.

(** ** Evaluation *)

Section Evaluate_mls.
Import ToyCodec ToyMls.

Definition toy_clock (n : nat) : TimeStamp := Z.of_nat n.

Definition created := group_new empty_storage (([7], 0, None) : VerifiableGroupInfo)
                 ([(0, alice)] : RatchetTreeIn).

(** Whether the acceptance of a message succeeds, and with what. *)
Definition run_check (g : Group) (st : MlsAssistMemoryStorage) (p : ProcessedAssistedMessagePlus) : bool :=
  match accept_processed_message toy_clock g st (processed_assisted_message p) 90 5%nat with
  | (Ok (g', _), t') =>
      (group_epoch g' =? 1) && bool_decide (t' = 7%nat) &&
      match accepted_commit (processed_assisted_message p) with
      | Some sc => bool_decide ([2] ∈ added_potential_joiners sc)
      | None => false
      end
  | _ => false
  end.

Lemma run_evaluates :
  match created with
  | Ok (g, st) => match process_assisted_message g (assisted alice_adds_bob) with
                  | Ok p => run_check g st p
                  | Err _ => false
                  end
  | Err _ => false
  end = true.
Proof. vm_compute. reflexivity. Qed.

(** The concrete run: a group is created, and its member adds a client. *)
Lemma run_steps : exists g st p g' st' sc,
  created = Ok (g, st) /\ process_assisted_message g (assisted alice_adds_bob) = Ok p /\
  accept_processed_message toy_clock g st (processed_assisted_message p) 90 5%nat
    = (Ok (g', st'), 7%nat) /\
  group_epoch g' = 1 /\ accepted_commit (processed_assisted_message p) = Some sc /\
  [2] ∈ added_potential_joiners sc.
Proof.
  pose proof run_evaluates as Hr. destruct created as [[g st]|]; [|discriminate].
  destruct (process_assisted_message g (assisted alice_adds_bob)) as [p|] eqn:Ep; [|discriminate].
  unfold run_check in Hr.
  destruct (accept_processed_message toy_clock g st (processed_assisted_message p) 90 5%nat)
    as [[[g' st']|] t'] eqn:Ea; [|discriminate].
  destruct (accepted_commit (processed_assisted_message p)) as [sc|] eqn:Es;
    [|by rewrite andb_false_r in Hr].
  apply andb_true_iff in Hr as [[He%Z.eqb_eq Ht%bool_decide_eq_true]%andb_true_iff
                                Hj%bool_decide_eq_true]. subst t'.
  exists g, st, p, g', st', sc. auto 10.
Qed.

Lemma group_reachable_synced_witness :
  exists g st, group_epoch g = 1 /\ coherent g /\ synced g st.
Proof.
  destruct run_steps as (g & st & p & g' & st' & sc & Hc & Hp & Ha & He & _).
  exists g', st'. split; [exact He|]. apply (group_reachable_synced toy_clock).
  eapply reach_accept; [eapply reach_new; exact Hc|exact Hp|exact Ha].
Defined.

Lemma past_states_sound_witness :
  exists g st m g' st' t', accept_processed_message toy_clock g st m 90 5%nat = (Ok (g', st'), t') /\
    forall e j tree, past_group_state g' e j = Some tree -> past_group_state g e j = Some tree \/
      exists sc, accepted_commit m = Some sc /\ j ∈ added_potential_joiners sc /\
        e = group_epoch g' /\ tree = pg_export_ratchet_tree (public_group g').
Proof.
  destruct run_steps as (g & st & p & g' & st' & sc & _ & _ & Ha & _).
  exists g, st, (processed_assisted_message p), g', st', 7%nat. split; [exact Ha|]. intros e j tree.
  apply (past_states_sound toy_clock g st _ 90 5%nat g' st' 7%nat e j tree Ha).
Defined.

Lemma past_states_lifetime_witness :
  exists g', past_group_state g' 1 [2] = Some (pg_export_ratchet_tree (public_group g')).
Proof.
  destruct run_steps as (g & st & p & g' & st' & sc & _ & _ & Ha & He & Hsc & Hj).
  exists g'. rewrite <- He.
  destruct (past_states_lifetime toy_clock g st _ 90 5%nat g' st' 7%nat Ha) as [Hlt _].
  apply (Hlt sc); [exact Hsc|exact Hj|]. intros k Hk. unfold toy_clock. lia.
Defined.

End Evaluate_mls.
