(* ===== verification/Apq.v ===== *)
(** * Amortized post-quantum groups in mls-assist ([group/apq.rs], [group/process.rs])

    An APQ group is a pair of groups, traditional (T) and post-quantum (PQ), that
    advance by pairs of commits.  The crate [apqmls] processes such a pair: the class
    [Apqmls] is its interface, which the file ApqMls implements. *)

From S2P Require Import Prelude Aead MemoryProvider Messages Mls.

(** [ApqProcessMessageValidationError] and [ApqProcessPublicMessageError]. *)
Inductive ApqProcessMessageValidationError :=
| InvalidMessageType | MismatchedMessages | MissingApqInfo | InvalidApqInfo.
Inductive ApqProcessPublicMessageError :=
| ApqValidation (e : ApqProcessMessageValidationError)
| ApqProcessing (e : PublicProcessMessageError)
| ApqAppDataUpdate.

(** [ApqPublicGroupMut::process_message] on the pair of public groups it borrows
    mutably, for a pair of public messages and an equivalence of credentials. *)
Class Apqmls `{OpenMls} := {
  apq_process_message : PublicGroup -> PublicGroup -> PublicMessageIn -> PublicMessageIn ->
    (Credential -> Credential -> bool) ->
    Result ApqProcessPublicMessageError
      ((PublicGroup * PublicGroup) * (ProcessedMessage * ProcessedMessage));
  (* [ApqInfo::from_extensions] of a group context: an error, or the component if present *)
  apq_info_from_extensions : GroupContext -> Result unit (option unit)
}.

Inductive ProcessApqAssistedMessageError :=
| ApqInvalidAssistedMessage
| ApqLibraryError (e : LibraryError)
| ApqProcessMessageError (e : ApqProcessPublicMessageError)
| ApqGroupInfoValidation (e : GroupInfoValidationError).

(** [ApqProcessedAssistedMessage] and its [Plus] variant: the two processed
    messages, the two group infos and the serialized pair. *)
Record ApqProcessedAssistedMessage `{OpenMls} := {
  t_message : ProcessedMessage;
  pq_message : ProcessedMessage;
  t_group_info : GroupInfo;
  pq_group_info : GroupInfo
}.

Record ApqProcessedAssistedMessagePlus `{OpenMls} := {
  apq_processed : ApqProcessedAssistedMessage;
  serialized_apq_message : SerializedMlsMessage
}.

(** [SerializedMlsMessage::combine_apq]. *)
Definition combine_apq (t pq : SerializedMlsMessage) : SerializedMlsMessage := t ++ pq.

Section Apq.
Context `{Apqmls} (now : nat -> TimeStamp).
Context `{Cbor GroupId, Cbor GroupInfo, Cbor (gmap GroupEpoch PastGroupState)}.

Definition with_public_group (g : Group) (pg : PublicGroup) : Group :=
  {| public_group := pg; group_info := group_info g; past_group_states := past_group_states g |}.

(** The closure [extract_public_commit]: only a public commit that comes with a
    group info is accepted. *)
Definition extract_public_commit (am : AssistedMessageIn) :
    option (PublicMessageIn * SerializedMlsMessage * AssistedGroupInfoIn) :=
  match mls_message am with
  | PrivateMessage _ => None
  | PublicMessage pm =>
      match pub_content_type pm with
      | ContentApplication | ContentProposal => None
      | ContentCommit =>
          agi ← group_info_option am; Some (pm, serialized_mls_message am, agi)
      end
  end.

(** [ApqGroupRef::process_apq_assisted_message]: the two groups, which are
    borrowed mutably, come back with the result. *)
Definition process_apq_assisted_message (t_group pq_group : Group)
    (t_assisted pq_assisted : AssistedMessageIn) (sender_equivalence : Credential -> Credential -> bool) :
    Result ProcessApqAssistedMessageError (ApqProcessedAssistedMessagePlus * (Group * Group)) :=
  pq ← ok_or ApqInvalidAssistedMessage (extract_public_commit pq_assisted);
  t ← ok_or ApqInvalidAssistedMessage (extract_public_commit t_assisted);
  let '(pq_commit, pq_serialized, pq_agi) := pq in
  let '(t_commit, t_serialized, t_agi) := t in
  t_tag ← ok_or (ApqLibraryError LibraryErr) (pub_confirmation_tag t_commit);
  pq_tag ← ok_or (ApqLibraryError LibraryErr) (pub_confirmation_tag pq_commit);
  r ← map_err ApqProcessMessageError
        (apq_process_message (public_group t_group) (public_group pq_group) t_commit pq_commit
           sender_equivalence);
  let '((t_pg, pq_pg), (t_pm, pq_pm)) := r in
  let t_group := with_public_group t_group t_pg in
  let pq_group := with_public_group pq_group pq_pg in
  t_params ← map_err ApqLibraryError (from_processed_commit t_tag t_pm);
  t_gi ← map_err ApqGroupInfoValidation (validate_group_info t_group t_params t_agi);
  pq_params ← map_err ApqLibraryError (from_processed_commit pq_tag pq_pm);
  pq_gi ← map_err ApqGroupInfoValidation (validate_group_info pq_group pq_params pq_agi);
  Ok ({| apq_processed := {| t_message := t_pm; pq_message := pq_pm;
                             t_group_info := t_gi; pq_group_info := pq_gi |};
         serialized_apq_message := combine_apq t_serialized pq_serialized |},
      (t_group, pq_group)).

(** [ApqGroupRef::accept_apq_processed_message]. *)
Definition accept_apq_processed_message (t_group pq_group : Group)
    (t_storage pq_storage : MlsAssistMemoryStorage) (m : ApqProcessedAssistedMessage)
    (expiration_time : Z) :
    M nat MergeCommitError ((Group * MlsAssistMemoryStorage) * (Group * MlsAssistMemoryStorage)) :=
  t ← accept_processed_message now t_group t_storage (Commit (t_message m) (t_group_info m))
        expiration_time;
  pq ← accept_processed_message now pq_group pq_storage (Commit (pq_message m) (pq_group_info m))
         expiration_time;
  mret (t, pq).

(** Both messages of a processed pair are commits whose group infos were checked
    against the commits. *)
Lemma process_apq_commits t_group pq_group t_am pq_am eqv p groups :
  process_apq_assisted_message t_group pq_group t_am pq_am eqv = Ok (p, groups) ->
  exists t_sc pq_sc,
    pm_content (t_message (apq_processed p)) = StagedCommitMessage t_sc /\
    pm_content (pq_message (apq_processed p)) = StagedCommitMessage pq_sc /\
    gi_group_context (t_group_info (apq_processed p)) = sc_group_context t_sc /\
    gi_group_context (pq_group_info (apq_processed p)) = sc_group_context pq_sc /\
    serialized_apq_message p
      = combine_apq (serialized_mls_message t_am) (serialized_mls_message pq_am).
Proof.
  assert (Hgi : forall g tag pm params agi gi,
    from_processed_commit tag pm = Ok params -> validate_group_info g params agi = Ok gi ->
    exists sc, pm_content pm = StagedCommitMessage sc /\ gi_group_context gi = sc_group_context sc).
  { intros g tag pm params agi gi Hf Hv. unfold from_processed_commit in Hf.
    destruct (pm_content pm) as [| | |sc| | |]; try discriminate. inv_ok. exists sc. split; [done|].
    unfold validate_group_info in Hv. inv_ok. destruct a0. inv_ok. cbn in Hv. by case_decide; inv_ok. }
  assert (Hser : forall am c s agi, extract_public_commit am = Some (c, s, agi) ->
                                 s = serialized_mls_message am).
  { intros am c s agi He. unfold extract_public_commit in He.
    destruct (mls_message am) as [|m]; [done|]. destruct (pub_content_type m); try done.
    destruct (group_info_option am); [|done]. by injection He as <- <- <-. }
  unfold process_apq_assisted_message.
  intros ([[pq_c pq_s] pq_agi] & Hpq%ok_or_Ok & Hp)%Result_bind_Ok.
  apply Result_bind_Ok in Hp as ([[t_c t_s] t_agi] & Ht%ok_or_Ok & Hp).
  apply Result_bind_Ok in Hp as (t_tag & _ & Hp). apply Result_bind_Ok in Hp as (pq_tag & _ & Hp).
  apply Result_bind_Ok in Hp as ([[t_pg pq_pg] [t_pm pq_pm]] & _ & Hp). inv_ok.
  destruct (Hgi _ _ _ _ _ _ Hm Hm0) as (t_sc & Ht_sc & Ht_gi).
  destruct (Hgi _ _ _ _ _ _ Hm1 Hm2) as (pq_sc & Hpq_sc & Hpq_gi).
  exists t_sc, pq_sc. cbn. rewrite (Hser _ _ _ _ Hpq), (Hser _ _ _ _ Ht). auto.
Qed.

End Apq.
