(* ===== verification/ApqExtension.v ===== *)
(** * The APQMLS component and capabilities ([apqmls/src/extension.rs],
      [key_package.rs], [group_builder.rs], [lib.rs])

    An APQ group combines a traditional (T) and a post-quantum (PQ) group.  Both
    carry the same [ApqInfo] as a component of their app data dictionary, and every
    member announces support for what this takes.  The data of OpenMLS that the
    crate edits, capabilities, extensions and dictionaries, is modelled as such; the
    codes of ciphersuites and of well-known components are parameters. *)

From S2P Require Import Prelude Aead MemoryProvider Messages.

(** ** Data of OpenMLS *)

Inductive ExtensionType := ExtRequiredCapabilities | ExtAppDataDictionary | ExtTypeOther (z : Z).
Inductive ProposalType :=
| PropAdd | PropUpdate | PropRemove | PropAppDataUpdate | PropTypeOther (z : Z).
#[export] Instance ExtensionType_eq_dec : EqDecision ExtensionType.
Proof. solve_decision. Defined.
#[export] Instance ProposalType_eq_dec : EqDecision ProposalType.
Proof. solve_decision. Defined.

(** A ciphersuite is its code, which a [VerifiableCiphersuite] need not be known. *)
Abbreviation Ciphersuite := Z (only parsing).
Record Capabilities := {
  cap_versions : list Z;
  cap_ciphersuites : list Ciphersuite;
  cap_extensions : list ExtensionType;
  cap_proposals : list ProposalType;
  cap_credentials : list Z
}.
Record RequiredCapabilities := {
  rc_extension_types : list ExtensionType;
  rc_proposal_types : list ProposalType;
  rc_credential_types : list Z
}.
(** Extensions of a group context or a leaf, with the two kinds that the crate
    edits; [add_or_replace] of one of them. *)
Abbreviation AppDataDictionary := (gmap Z (list Z)) (only parsing).
Record Extensions := {
  ext_app_data_dictionary : option AppDataDictionary;
  ext_required_capabilities : option RequiredCapabilities;
  ext_others : list (Z * bytes)
}.
Definition no_extensions : Extensions :=
  {| ext_app_data_dictionary := None; ext_required_capabilities := None; ext_others := [] |}.
Definition replace_dictionary (d : AppDataDictionary) (e : Extensions) : Extensions :=
  {| ext_app_data_dictionary := Some d; ext_required_capabilities := ext_required_capabilities e;
     ext_others := ext_others e |}.
Definition replace_required (r : RequiredCapabilities) (e : Extensions) : Extensions :=
  {| ext_app_data_dictionary := ext_app_data_dictionary e; ext_required_capabilities := Some r;
     ext_others := ext_others e |}.

(** [LeafNodeParameters], with an opaque credential. *)
Record LeafNodeParameters (C : Type) := {
  lnp_capabilities : option Capabilities;
  lnp_extensions : option Extensions;
  lnp_credential_with_key : option C
}.
Arguments lnp_capabilities {C}.
Arguments lnp_extensions {C}.
Arguments lnp_credential_with_key {C}.

(** What the crate takes from OpenMLS and the standard library: which codes are
    ciphersuites, the suites it names, the default capabilities, the component that
    lists supported components, and the order in which a hash set is iterated. *)
Class OpenMlsCodes := {
  ciphersuite_known : Z -> bool;
  X25519_ED25519 : Ciphersuite;
  MLKEM1024_SHA512_MLDSA87 : Ciphersuite;
  MLKEM1024_SHA384_P384 : Ciphersuite;
  MLKEM1024_SHA384_MLDSA87 : Ciphersuite;
  MLKEM768_SHA384_MLDSA65 : Ciphersuite;
  default_capabilities : Capabilities;
  APP_COMPONENTS : Z;
  hash_set_iter : gset Z -> list Z
}.

(** ** The combiner's data *)

Definition APQMLS_COMPONENT_ID : Z := 32769.

Inductive PqtMode := ConfOnly | ConfAndAuth.
#[export] Instance PqtMode_eq_dec : EqDecision PqtMode.
Proof. solve_decision. Defined.

Record ApqCiphersuite := { t_ciphersuite : Ciphersuite; pq_ciphersuite : Ciphersuite }.
Record ApqGroupId := { t_group_id : GroupId; pq_group_id : GroupId }.

Record ApqInfo := {
  t_session_group_id : GroupId;
  pq_session_group_id : GroupId;
  info_mode : PqtMode;
  t_cipher_suite : Ciphersuite;
  pq_cipher_suite : Ciphersuite;
  t_epoch : GroupEpoch;
  pq_epoch : GroupEpoch
}.
#[export] Instance ApqInfo_eq_dec : EqDecision ApqInfo.
Proof. solve_decision. Defined.

Inductive TlsCodecError := TlsCodecErr.

(** [ApqInfo::set_epoch] and [group_id]. *)
Definition set_epoch (i : ApqInfo) (t pq : GroupEpoch) : ApqInfo :=
  {| t_session_group_id := t_session_group_id i; pq_session_group_id := pq_session_group_id i;
     info_mode := info_mode i; t_cipher_suite := t_cipher_suite i; pq_cipher_suite := pq_cipher_suite i;
     t_epoch := t; pq_epoch := pq |}.
Definition info_group_id (i : ApqInfo) : ApqGroupId :=
  {| t_group_id := t_session_group_id i; pq_group_id := pq_session_group_id i |}.

(** [if !l.contains(&x) { l.push(x) }]. *)
Definition push_missing {A} `{EqDecision A} (l : list A) (x : A) : list A :=
  if decide (x ∈ l) then l else l ++ [x].
(** The loop of pushes. *)
Definition push_all {A} `{EqDecision A} (l xs : list A) : list A := foldl push_missing l xs.

Section Extension.
Context `{OpenMlsCodes} `{!TlsCodec ApqInfo} `{!TlsCodec (list Z)}.

(** [PqtMode::default_ciphersuite]. *)
Definition default_pq_conf_and_auth : ApqCiphersuite :=
  {| t_ciphersuite := X25519_ED25519; pq_ciphersuite := MLKEM1024_SHA512_MLDSA87 |}.
Definition default_pq_conf : ApqCiphersuite :=
  {| t_ciphersuite := X25519_ED25519; pq_ciphersuite := MLKEM1024_SHA384_P384 |}.
Definition default_ciphersuite (m : PqtMode) : ApqCiphersuite :=
  match m with ConfOnly => default_pq_conf | ConfAndAuth => default_pq_conf_and_auth end.
(** [ApqKeyPackage::mode], by the suite of the PQ key package. *)
Definition mode_of_suite (pq : Ciphersuite) : PqtMode :=
  if decide (pq ∈ [MLKEM1024_SHA512_MLDSA87; MLKEM1024_SHA384_MLDSA87; MLKEM768_SHA384_MLDSA65])
  then ConfAndAuth else ConfOnly.

(** [ApqInfo::to_component_data] and [from_extensions]. *)
Definition to_component_data (i : ApqInfo) : Result TlsCodecError (Z * bytes) :=
  bs ← ok_or TlsCodecErr (tls_serialize_detached i);
  Ok (APQMLS_COMPONENT_ID, bs).
Definition from_component (o : option bytes) : Result TlsCodecError (option ApqInfo) :=
  match o with
  | None => Ok None
  | Some bs => i ← ok_or TlsCodecErr (tls_deserialize_exact_bytes bs); Ok (Some i)
  end.
Definition from_extensions (e : Extensions) : Result TlsCodecError (option ApqInfo) :=
  from_component (d ← ext_app_data_dictionary e; d !! APQMLS_COMPONENT_ID).

(** ** Support for the component *)

Definition known_suites (l : list Z) : Result TlsCodecError (list Ciphersuite) :=
  mapM_r (fun c => if ciphersuite_known c then Ok c else Err TlsCodecErr) l.

Definition ensure_extension_support (c : Capabilities) : Result TlsCodecError Capabilities :=
  let extensions :=
    push_missing (push_missing (cap_extensions c) ExtRequiredCapabilities) ExtAppDataDictionary in
  let proposals := push_missing (cap_proposals c) PropAppDataUpdate in
  ciphersuites ← known_suites (cap_ciphersuites c);
  Ok {| cap_versions := cap_versions c; cap_ciphersuites := ciphersuites; cap_extensions := extensions;
        cap_proposals := proposals; cap_credentials := cap_credentials c |}.

Definition ensure_ciphersuite_support (c : Capabilities) (s : ApqCiphersuite) :
    Result TlsCodecError Capabilities :=
  ciphersuites ← known_suites (cap_ciphersuites c);
  let ciphersuites := {[pq_ciphersuite s]} ∪ ({[t_ciphersuite s]} ∪ list_to_set ciphersuites) in
  Ok {| cap_versions := cap_versions c; cap_ciphersuites := hash_set_iter ciphersuites;
        cap_extensions := cap_extensions c; cap_proposals := cap_proposals c;
        cap_credentials := cap_credentials c |}.

Definition ensure_component_support (d : AppDataDictionary) : Result TlsCodecError AppDataDictionary :=
  app_components ←
    match d !! APP_COMPONENTS with
    | None => Ok []
    | Some bs => ok_or TlsCodecErr (tls_deserialize_exact_bytes (T := list Z) bs)
    end;
  if decide (APQMLS_COMPONENT_ID ∈ app_components) then Ok d
  else
    bs ← ok_or TlsCodecErr (tls_serialize_detached (app_components ++ [APQMLS_COMPONENT_ID]));
    Ok (<[APP_COMPONENTS := bs]> d).

Definition ensure_leaf_node_component_support (e : Extensions) : Result TlsCodecError Extensions :=
  d ← ensure_component_support (default ∅ (ext_app_data_dictionary e));
  Ok (replace_dictionary d e).

(** [ensure_leaf_node_parameters], of which there are two copies. *)
Definition ensure_leaf_node_parameters {C} (params : LeafNodeParameters C) (s : ApqCiphersuite) :
    Result TlsCodecError (LeafNodeParameters C) :=
  capabilities ← ensure_extension_support (default default_capabilities (lnp_capabilities params));
  capabilities ← ensure_ciphersuite_support capabilities s;
  extensions ← ensure_leaf_node_component_support (default no_extensions (lnp_extensions params));
  Ok {| lnp_capabilities := Some capabilities; lnp_extensions := Some extensions;
        lnp_credential_with_key := lnp_credential_with_key params |}.

(** [ensure_group_context_component_support]. *)
Definition ensure_group_context_component_support (e : Extensions) (component : Z * bytes) :
    Result TlsCodecError Extensions :=
  d ← ensure_component_support (default ∅ (ext_app_data_dictionary e));
  Ok (replace_dictionary (<[component.1 := component.2]> d) e).

Definition merged_required_capabilities (existing : option RequiredCapabilities) : RequiredCapabilities :=
  let extension_types := [ExtRequiredCapabilities; ExtAppDataDictionary] in
  let proposal_types := [PropAppDataUpdate] in
  match existing with
  | None => {| rc_extension_types := extension_types; rc_proposal_types := proposal_types;
               rc_credential_types := [] |}
  | Some rq => {| rc_extension_types := push_all extension_types (rc_extension_types rq);
                  rc_proposal_types := push_all proposal_types (rc_proposal_types rq);
                  rc_credential_types := push_all [] (rc_credential_types rq) |}
  end.

End Extension.

(** ** Laws *)

Class OpenMlsCodesLaws `{OpenMlsCodes} : Prop := {
  hash_set_iter_elements s : hash_set_iter s ≡ₚ elements s;
  app_components_other : APP_COMPONENTS <> APQMLS_COMPONENT_ID
}.

Section Correct.
Context `{OpenMlsCodes} `{!OpenMlsCodesLaws}.
Context `{!TlsCodec ApqInfo, !TlsCodecLaws ApqInfo} `{!TlsCodec (list Z), !TlsCodecLaws (list Z)}.

Lemma elem_of_push_missing {A} `{EqDecision A} (l : list A) x y : y ∈ push_missing l x <-> y ∈ l \/ y = x.
Proof. unfold push_missing. case_decide; set_solver. Qed.
Lemma elem_of_push_all {A} `{EqDecision A} (l xs : list A) y : y ∈ push_all l xs <-> y ∈ l \/ y ∈ xs.
Proof.
  unfold push_all. revert l. induction xs as [|x xs IH]; intros l; cbn; [set_solver|].
  rewrite IH, elem_of_push_missing. set_solver.
Qed.
Lemma push_missing_id {A} `{EqDecision A} (l : list A) x : x ∈ l -> push_missing l x = l.
Proof. intros Hx. unfold push_missing. by rewrite decide_True. Qed.

Lemma known_suites_Ok l l' : known_suites l = Ok l' -> l' = l /\ Forall (fun c => ciphersuite_known c = true) l.
Proof.
  unfold known_suites. revert l'. induction l as [|c l IH]; intros l' Hl; cbn in Hl; [by injection Hl as <-|].
  apply Result_bind_Ok in Hl as (c' & Hc & Hl). apply Result_bind_Ok in Hl as (r & Hr & [= <-]).
  destruct (ciphersuite_known c) eqn:Ek; [|done]. injection Hc as <-. destruct (IH r Hr) as [-> Hf]. by split; [|constructor].
Qed.

(** What the capabilities of a member have to offer in an APQ group. *)
Record apq_capable (c : Capabilities) (s : ApqCiphersuite) : Prop := {
  capable_required : ExtRequiredCapabilities ∈ cap_extensions c;
  capable_dictionary : ExtAppDataDictionary ∈ cap_extensions c;
  capable_update : PropAppDataUpdate ∈ cap_proposals c;
  capable_t : t_ciphersuite s ∈ cap_ciphersuites c;
  capable_pq : pq_ciphersuite s ∈ cap_ciphersuites c
}.
(** More capabilities. *)
Record cap_le (c c' : Capabilities) : Prop := {
  le_versions : cap_versions c' = cap_versions c;
  le_ciphersuites : cap_ciphersuites c ⊆ cap_ciphersuites c';
  le_extensions : cap_extensions c ⊆ cap_extensions c';
  le_proposals : cap_proposals c ⊆ cap_proposals c';
  le_credentials : cap_credentials c' = cap_credentials c
}.

Definition ensure_capabilities (c : Capabilities) (s : ApqCiphersuite) : Result TlsCodecError Capabilities :=
  c ← ensure_extension_support c; ensure_ciphersuite_support c s.

Lemma ensure_capabilities_Ok c s c' : ensure_capabilities c s = Ok c' -> apq_capable c' s /\ cap_le c c'.
Proof.
  intros Hc. apply Result_bind_Ok in Hc as (c1 & H1 & H2).
  apply Result_bind_Ok in H1 as (l1 & [-> _]%known_suites_Ok & [= <-]).
  apply Result_bind_Ok in H2 as (l2 & [-> _]%known_suites_Ok & [= <-]). cbn.
  assert (forall x, x ∈ hash_set_iter ({[pq_ciphersuite s]} ∪ ({[t_ciphersuite s]} ∪ list_to_set (cap_ciphersuites c)))
    <-> x = pq_ciphersuite s \/ x = t_ciphersuite s \/ x ∈ cap_ciphersuites c) as Hs.
  { intros x. rewrite hash_set_iter_elements, elem_of_elements. set_solver. }
  split; split; cbn; try done; intros; rewrite ?elem_of_push_missing, ?Hs; auto.
  - intros x Hx. rewrite Hs. auto.
  - intros x Hx. rewrite !elem_of_push_missing. auto.
  - intros x Hx. rewrite !elem_of_push_missing. auto.
Qed.

(** The support that the creator of a group announces covers what the group requires,
    if it does for what was required already. *)
Definition covers (c : Capabilities) (r : RequiredCapabilities) : Prop :=
  rc_extension_types r ⊆ cap_extensions c /\ rc_proposal_types r ⊆ cap_proposals c /\
  rc_credential_types r ⊆ cap_credentials c.
Lemma required_covered c s c' existing : ensure_capabilities c s = Ok c' ->
  (forall r, existing = Some r -> covers c r) -> covers c' (merged_required_capabilities existing).
Proof.
  intros Hc Hr. destruct (ensure_capabilities_Ok _ _ _ Hc) as [[C1 C2 C3 _ _] [_ _ L3 L4 L5]].
  unfold merged_required_capabilities. destruct existing as [r|].
  - destruct (Hr r eq_refl) as (R1 & R2 & R3). split_and!; cbn.
    + intros x. rewrite elem_of_push_all. set_solver.
    + intros x. rewrite elem_of_push_all. set_solver.
    + rewrite L5. intros x. rewrite elem_of_push_all. set_solver.
  - split_and!; cbn; set_solver.
Qed.

(** Adding support for the component keeps the other entries of the dictionary, and
    adding it again changes nothing. *)
Lemma ensure_component_support_Ok d d' : ensure_component_support d = Ok d' ->
  (forall k, k <> APP_COMPONENTS -> d' !! k = d !! k) /\
  (exists bs l, d' !! APP_COMPONENTS = Some bs /\ tls_deserialize_exact_bytes bs = Some l /\ APQMLS_COMPONENT_ID ∈ l) /\
  ensure_component_support d' = Ok d'.
Proof.
  unfold ensure_component_support. intros (l & Hl & Hd)%Result_bind_Ok. case_decide as Hin.
  - injection Hd as <-. split; [done|]. destruct (d !! APP_COMPONENTS) as [bs|] eqn:E.
    + apply ok_or_Ok in Hl. split; [by exists bs, l|]. rewrite Hl. cbn. by rewrite decide_True.
    + injection Hl as <-. by apply elem_of_nil in Hin.
  - apply Result_bind_Ok in Hd as (bs & Hbs%ok_or_Ok & [= <-]).
    apply tls_correct in Hbs. assert (APQMLS_COMPONENT_ID ∈ l ++ [APQMLS_COMPONENT_ID]) as Hin' by set_solver.
    split; [by intros k Hk; rewrite lookup_insert_ne|]. rewrite lookup_insert_eq. split; [by exists bs, (l ++ [APQMLS_COMPONENT_ID])|].
    rewrite Hbs. cbn. by rewrite decide_True.
Qed.

Lemma ensure_group_context_Ok e i e' : to_component_data i ≫= ensure_group_context_component_support e = Ok e' ->
  from_extensions e' = Ok (Some i) /\ ext_others e' = ext_others e /\
  ext_required_capabilities e' = ext_required_capabilities e /\
  forall k, k <> APP_COMPONENTS -> k <> APQMLS_COMPONENT_ID ->
    (d ← ext_app_data_dictionary e'; d !! k) = (d ← ext_app_data_dictionary e; d !! k).
Proof.
  intros He. apply Result_bind_Ok in He as ([z bs] & Hi & He).
  apply Result_bind_Ok in Hi as (bs' & Hbs%ok_or_Ok & [= <- <-]). apply tls_correct in Hbs.
  apply Result_bind_Ok in He as (d & Hd & [= <-]). apply ensure_component_support_Ok in Hd as (Hd & _).
  split_and!; [|done|done|].
  - unfold from_extensions. cbn. rewrite lookup_insert_eq. cbn. by rewrite Hbs.
  - intros k H1 H2. cbn. rewrite lookup_insert_ne by done. rewrite Hd by done.
    destruct (ext_app_data_dictionary e); cbn; [done|]. apply lookup_empty.
Qed.

End Correct.
