(* ===== verification/ApqMls.v ===== *)
(** * Amortized post-quantum MLS ([apqmls/src])

    The crate pairs a traditional (T) and a post-quantum (PQ) MLS group.  Commits
    advance both groups; the PQ commit comes first, and a key exported from its new
    epoch enters the T commit as a pre-shared key.  The file models the processing
    of message pairs by the server ([ApqPublicGroupMut]) and by clients
    ([ApqMlsGroupMut]), commits, external commits, welcomes, the creation of groups
    and key packages, and merging.

    OpenMLS is external: the class [MlsContents] adds to [OpenMls] what the crate
    reads of messages, the class [MlsClient] is the client side. *)

From S2P Require Import Prelude Aead MemoryProvider Messages Mls Apq ApqExtension.

(** ** Message pairs *)

#[export] Instance Sender_eq_dec : EqDecision Sender.
Proof. solve_decision. Defined.

(** A proposal, with the kinds whose content the crate compares. *)
Inductive ProposalBody `{OpenMlsTypes} :=
| BodyAdd (kp : KeyPackage)
| BodyUpdate (leaf : LeafNode)
| BodyRemove (removed : LeafNodeIndex)
| BodyOther.

Class MlsContents `{OpenMls} := {
  gc_ciphersuite : GroupContext -> Ciphersuite;
  sc_update_leaf_nodes : StagedCommit -> list LeafNode;
  qp_proposal_type : QueuedProposal -> ProposalType;
  qp_body : QueuedProposal -> ProposalBody
}.

(** [ProposalContent], [CommitContent], [MessageType] and [MessageInfo]; the closure
    they carry is an argument of the comparison. *)
Record ProposalContent `{OpenMlsTypes} := {
  pc_proposal_type : ProposalType;
  pc_credential : option Credential;
  pc_leaf_index : option LeafNodeIndex
}.
Record CommitContent `{OpenMlsTypes} := {
  co_path_credential : option Credential;
  co_adds : list Credential;
  co_removes : gset LeafNodeIndex;
  co_updates : list Credential
}.
Inductive MessageType `{OpenMlsTypes} :=
| MtProposal (c : ProposalContent)
| MtCommit (c : CommitContent)
| MtOwnPendingCommit.
Record MessageInfo `{OpenMlsTypes} := { mi_type : MessageType; mi_sender : Sender }.

(** [ApqProcessedMessage] and [ApqStagedCommit]. *)
Record ApqProcessedMessage `{OpenMlsTypes} := { apm_t : ProcessedMessage; apm_pq : ProcessedMessage }.
Record ApqStagedCommit `{OpenMlsTypes} := { asc_t : StagedCommit; asc_pq : StagedCommit }.
Record ApqProtocolMessage `{OpenMlsTypes} := { ap_t : ProtocolMessage; ap_pq : ProtocolMessage }.

Section Processing.
Context `{MlsContents} `{!TlsCodec ApqInfo}.

(** [ApqProcessedMessage::into_staged_commit]. *)
Definition into_staged_commit (m : ApqProcessedMessage) : option ApqStagedCommit :=
  match pm_content (apm_t m), pm_content (apm_pq m) with
  | StagedCommitMessage t, StagedCommitMessage pq => Some {| asc_t := t; asc_pq := pq |}
  | _, _ => None
  end.

(** [MessageType::new]. *)
Definition kp_credential (kp : KeyPackage) : Credential := leaf_node_credential (kp_leaf_node kp).
Definition message_type (content : ProcessedMessageContent) : option MessageType :=
  match content with
  | ApplicationMessage => None
  | ProposalMessage p =>
      let '(credential, leaf_index) :=
        match qp_body p with
        | BodyAdd kp => (Some (kp_credential kp), None)
        | BodyUpdate leaf => (Some (leaf_node_credential leaf), None)
        | BodyRemove removed => (None, Some removed)
        | BodyOther => (None, None)
        end in
      Some (MtProposal {| pc_proposal_type := qp_proposal_type p; pc_credential := credential;
                          pc_leaf_index := leaf_index |})
  | ExternalJoinProposalMessage p =>
      let credential := match qp_body p with BodyAdd kp => Some (kp_credential kp) | _ => None end in
      Some (MtProposal {| pc_proposal_type := qp_proposal_type p; pc_credential := credential;
                          pc_leaf_index := None |})
  | StagedCommitMessage sc =>
      Some (MtCommit
        {| co_path_credential := leaf_node_credential <$> sc_update_path_leaf_node sc;
           co_adds := map kp_credential (sc_add_proposals sc);
           co_removes := list_to_set (sc_remove_proposals sc);
           co_updates := map leaf_node_credential (sc_update_leaf_nodes sc) |})
  | OwnPendingCommit => Some MtOwnPendingCommit
  | OwnPrivateMessage => None
  | UnresolvedAppDataCommitMessage _ => None
  end.

(** [PartialEq] of the contents. *)
Definition same_credential (compare : Credential -> Credential -> bool) (a b : option Credential) : bool :=
  match a, b with
  | Some a, Some b => compare a b
  | None, None => true
  | _, _ => false
  end.
Definition proposal_content_eqb compare (a b : ProposalContent) : bool :=
  bool_decide (pc_proposal_type a = pc_proposal_type b) &&
  bool_decide (pc_leaf_index a = pc_leaf_index b) &&
  same_credential compare (pc_credential a) (pc_credential b).
Definition commit_content_eqb (compare : Credential -> Credential -> bool) (a b : CommitContent) : bool :=
  same_credential compare (co_path_credential a) (co_path_credential b) &&
  bool_decide (co_removes a = co_removes b) &&
  bool_decide (length (co_adds a) = length (co_adds b)) &&
  bool_decide (length (co_updates a) = length (co_updates b)) &&
  forallb (fun '(x, y) => compare x y) (zip (co_adds a) (co_adds b)) &&
  forallb (fun '(x, y) => compare x y) (zip (co_updates a) (co_updates b)).
Definition message_type_eqb compare (a b : MessageType) : bool :=
  match a, b with
  | MtProposal a, MtProposal b => proposal_content_eqb compare a b
  | MtCommit a, MtCommit b => commit_content_eqb compare a b
  | MtOwnPendingCommit, MtOwnPendingCommit => true
  | _, _ => false
  end.

(** [MessageInfo::new] and its comparison. *)
Definition message_info (pm : ProcessedMessage) : Result ApqProcessMessageValidationError MessageInfo :=
  msg_type ← ok_or InvalidMessageType (message_type (pm_content pm));
  Ok {| mi_type := msg_type; mi_sender := pm_sender pm |}.
Definition message_info_eqb compare (a b : MessageInfo) : bool :=
  message_type_eqb compare (mi_type a) (mi_type b) && bool_decide (mi_sender a = mi_sender b).

(** [ValidationParams]. *)
Record ValidationParams := { vp_epoch : GroupEpoch; vp_group_id : GroupId; vp_ciphersuite : Ciphersuite }.
Definition params_of_context (gc : GroupContext) : ValidationParams :=
  {| vp_epoch := gc_epoch gc; vp_group_id := gc_group_id gc; vp_ciphersuite := gc_ciphersuite gc |}.
Definition from_public_group (pg : PublicGroup) : ValidationParams :=
  params_of_context (pg_group_context pg).

(** The [ApqInfo] of a group context. *)
Definition context_info (gc : GroupContext) : Result TlsCodecError (option ApqInfo) :=
  from_component (gc_app_data gc APQMLS_COMPONENT_ID).
Definition staged_info (sc : StagedCommit) : Result ApqProcessMessageValidationError ApqInfo :=
  o ← map_err (fun _ => InvalidApqInfo) (context_info (sc_group_context sc));
  ok_or MissingApqInfo o.

(** [ValidationParams::validate]; epochs are 64-bit, and wrap in a release build. *)
Definition validate (pq_params t_params : ValidationParams) (pq_message t_message : ProcessedMessage) :
    Result ApqProcessMessageValidationError unit :=
  match pm_content pq_message, pm_content t_message with
  | StagedCommitMessage pq_sc, StagedCommitMessage t_sc =>
      pq_info ← staged_info pq_sc;
      t_info ← staged_info t_sc;
      let apq_info_match := bool_decide (pq_info = t_info) in
      let epochs_match :=
        bool_decide (pq_epoch pq_info = gc_epoch (sc_group_context pq_sc)) &&
        bool_decide (t_epoch t_info = gc_epoch (sc_group_context t_sc)) in
      let epochs_are_incremented :=
        bool_decide (pq_epoch pq_info = wrap_u64 (vp_epoch pq_params + 1)) &&
        bool_decide (t_epoch t_info = wrap_u64 (vp_epoch t_params + 1)) in
      let group_ids_match :=
        bool_decide (pq_session_group_id pq_info = vp_group_id pq_params) &&
        bool_decide (t_session_group_id t_info = vp_group_id t_params) in
      let ciphersuites_match :=
        bool_decide (pq_cipher_suite pq_info = vp_ciphersuite pq_params) &&
        bool_decide (t_cipher_suite t_info = vp_ciphersuite t_params) in
      if negb apq_info_match || negb epochs_match || negb epochs_are_incremented ||
         negb group_ids_match || negb ciphersuites_match
      then Err InvalidApqInfo else Ok tt
  | _, _ => Ok tt
  end.

(** One leg of the processing by a public group. *)
Definition process_public_leg (pg : PublicGroup) (m : PublicMessageIn) :
    Result ApqProcessPublicMessageError (ProcessedMessage * MessageInfo) :=
  pm ← map_err ApqProcessing (process_message pg m);
  pm ← map_err (fun _ => ApqAppDataUpdate) (resolve_app_data_commit_public pg pm);
  info ← map_err ApqValidation (message_info pm);
  Ok (pm, info).

(** [ApqPublicGroupMut::process_message]: the groups do not change. *)
Definition process_public_message (t pq : PublicGroup) (t_msg pq_msg : PublicMessageIn)
    (sender_equivalence : Credential -> Credential -> bool) :
    Result ApqProcessPublicMessageError ((PublicGroup * PublicGroup) * (ProcessedMessage * ProcessedMessage)) :=
  '(pq_message, pq_info) ← process_public_leg pq pq_msg;
  '(t_message, t_info) ← process_public_leg t t_msg;
  if negb (message_info_eqb sender_equivalence pq_info t_info)
  then Err (ApqValidation MismatchedMessages)
  else
    _ ← map_err ApqValidation
          (validate (from_public_group pq) (from_public_group t) pq_message t_message);
    Ok ((t, pq), (t_message, pq_message)).

(** The crate implements the interface of mls-assist. *)
#[export] Instance apqmls_crate : Apqmls := {|
  apq_process_message := process_public_message;
  apq_info_from_extensions := fun gc =>
    match context_info gc with
    | Ok o => Ok (option_map (fun _ => tt) o)
    | Err _ => Err tt
    end
|}.

(** [ApqPublicGroupMut::merge_staged_commit]: PQ first, on one storage. *)
Definition merge_public_staged_commit (t pq : PublicGroup) (storage : MlsAssistMemoryStorage)
    (sc : ApqStagedCommit) :
    Result MergeCommitError ((PublicGroup * PublicGroup) * MlsAssistMemoryStorage) :=
  '(pq, storage) ← merge_commit pq storage (asc_pq sc);
  '(t, storage) ← merge_commit t storage (asc_t sc);
  Ok ((t, pq), storage).

End Processing.

(** ** OpenMLS: the client side *)

Class MlsClientTypes := {
  MlsGroup : Type;
  Provider : Type;
  Signer : Type;
  CredentialWithKey : Type;
  MlsWelcome : Type;
  StagedWelcome : Type;
  MlsMessageOut : Type;
  CommitMessageBundle : Type;
  LoadedCommit : Type;
  BuiltCommit : Type;
  ExternalCommitGroup : Type;
  LoadedExternalCommit : Type;
  BuiltExternalCommit : Type;
  MlsGroupJoinConfig : Type;
  KeyPackageBundle : Type;
  KeyPackageIn : Type;
  GroupSettings : Type;
  KeyPackageSettings : Type;
  (* errors of OpenMLS and of its storage *)
  MlsError : Type
}.

(** An application PSK is named by a component and an identifier; the id of a
    pre-shared key adds a nonce. *)
Record ApplicationPsk := { psk_component : Z; psk_identifier : bytes }.
#[export] Instance ApplicationPsk_eq_dec : EqDecision ApplicationPsk.
Proof. solve_decision. Defined.
Record PreSharedKeyId := { psk : ApplicationPsk; psk_nonce : bytes }.

Inductive CryptoError :=
| CryptoLibraryError | InvalidLength | KdfLabelTooLarge | KdfSerializationError | CryptoOther.

(** A proposal that a commit builder adds by value. *)
Inductive CommitProposal :=
| CommitPreSharedKey (id : PreSharedKeyId)
| CommitAppDataUpdate (component : Z) (data : bytes)
| CommitOther (ty : ProposalType) (body : bytes).
Definition proposal_type (p : CommitProposal) : ProposalType :=
  match p with
  | CommitPreSharedKey _ => PropTypeOther 4
  | CommitAppDataUpdate _ _ => PropAppDataUpdate
  | CommitOther ty _ => ty
  end.

(** What is configured on OpenMLS's commit builder, external commit builder, group
    builder and key package builder. *)
Record CommitConfig `{OpenMlsTypes, MlsClientTypes} := {
  cc_consume_proposal_store : option bool;
  cc_force_self_update : option bool;
  cc_leaf_node_parameters : option (LeafNodeParameters CredentialWithKey);
  cc_proposals : list CommitProposal;
  cc_adds : list KeyPackage;
  cc_removals : list LeafNodeIndex
}.
Record ExternalConfig `{OpenMlsTypes, MlsClientTypes} := {
  ec_proposals : list PublicMessageIn;
  ec_config : MlsGroupJoinConfig;
  ec_aad : bytes;
  ec_ratchet_tree : option RatchetTreeIn;
  ec_skip_lifetimes : bool
}.
Record GroupConfig `{MlsClientTypes} := {
  gb_settings : GroupSettings;
  gb_ciphersuite : Ciphersuite;
  gb_extensions : Extensions;
  gb_group_id : GroupId;
  gb_capabilities : Capabilities;
  gb_leaf_extensions : Extensions
}.
Record KeyPackageConfig `{MlsClientTypes} := {
  kb_settings : KeyPackageSettings;
  kb_capabilities : Capabilities;
  kb_leaf_extensions : Extensions;
  kb_extensions : Extensions
}.

(** Operations on a group change the group and the provider, which holds the
    storage, the randomness and the crypto. *)
Class MlsClient `{OpenMlsTypes, MlsClientTypes} := {
  mg_group_context : MlsGroup -> GroupContext;
  mg_process_message : ProtocolMessage -> M (MlsGroup * Provider) MlsError ProcessedMessage;
  mg_app_data_dictionary_updater : MlsGroup -> AppDataDictionaryUpdater;
  mg_resolve_app_data_commit : MlsGroup -> Provider -> ProcessedMessage -> option AppDataUpdates ->
    Result ResolveAppDataCommitError ProcessedMessage;
  (* exporting a secret of a component: of the epoch, of the pending commit, or of a
     processed message, which it punctures *)
  safe_export_secret : Z -> M (MlsGroup * Provider) MlsError bytes;
  safe_export_secret_from_pending : Z -> M (MlsGroup * Provider) MlsError bytes;
  pm_safe_export_secret : Z -> M ProcessedMessage MlsError bytes;
  sc_self_removed : StagedCommit -> bool;
  (* crypto and PSK storage *)
  hash_length : Ciphersuite -> Z;
  mls_hkdf_expand : Ciphersuite -> bytes -> bytes -> Z -> option bytes;
  random_psk_nonce : Ciphersuite -> M Provider CryptoError bytes;
  random_group_id : Provider -> GroupId * Provider;
  delete_psk : ApplicationPsk -> M Provider MlsError unit;
  psk_id_store : PreSharedKeyId -> bytes -> M Provider MlsError unit;
  (* commits *)
  commit_load_psks : CommitConfig -> M (MlsGroup * Provider) MlsError LoadedCommit;
  loaded_updater : LoadedCommit -> AppDataDictionaryUpdater;
  commit_build : LoadedCommit -> bool -> option AppDataUpdates -> Signer -> (QueuedProposal -> bool) ->
    M (MlsGroup * Provider) MlsError BuiltCommit;
  stage_commit : BuiltCommit -> M (MlsGroup * Provider) MlsError CommitMessageBundle;
  bundle_contents : CommitMessageBundle -> MlsMessageOut * option MlsWelcome * option GroupInfo;
  mg_merge_pending_commit : M (MlsGroup * Provider) MlsError unit;
  mg_merge_staged_commit : StagedCommit -> M (MlsGroup * Provider) MlsError unit;
  mg_clear_pending_commit : M (MlsGroup * Provider) MlsError unit;
  (* external commits *)
  vgi_group_context : VerifiableGroupInfo -> GroupContext;
  external_build_group : ExternalConfig -> VerifiableGroupInfo -> CredentialWithKey ->
    M Provider MlsError ExternalCommitGroup;
  external_load_psks : ExternalCommitGroup -> LeafNodeParameters CredentialWithKey ->
    list CommitProposal -> M Provider MlsError LoadedExternalCommit;
  external_updater : LoadedExternalCommit -> AppDataDictionaryUpdater;
  external_build : LoadedExternalCommit -> bool -> option AppDataUpdates -> Signer ->
    M Provider MlsError BuiltExternalCommit;
  external_finalize : BuiltExternalCommit -> M Provider MlsError (MlsGroup * CommitMessageBundle);
  (* welcomes, creation, loading *)
  welcome_ciphersuite : MlsWelcome -> Ciphersuite;
  staged_welcome_new : MlsGroupJoinConfig -> MlsWelcome -> option RatchetTreeIn ->
    M Provider MlsError StagedWelcome;
  staged_welcome_into_group : StagedWelcome -> M Provider MlsError MlsGroup;
  leaf_extensions_valid : Extensions -> bool;
  mls_group_build : GroupConfig -> Signer -> CredentialWithKey -> M Provider MlsError MlsGroup;
  mls_group_load : GroupId -> Provider -> Result MlsError (option MlsGroup);
  mg_delete : M (MlsGroup * Provider) MlsError unit;
  key_package_build : KeyPackageConfig -> Ciphersuite -> Signer -> CredentialWithKey ->
    M Provider MlsError KeyPackageBundle;
  bundle_key_package : KeyPackageBundle -> KeyPackage;
  key_package_validate : KeyPackageIn -> option KeyPackage;
  mg_member_at : MlsGroup -> LeafNodeIndex -> option Member;
  mg_export_ratchet_tree : MlsGroup -> RatchetTree;
  mg_export_group_info : MlsGroup -> Signer -> bool -> Result MlsError MlsMessageOut
}.
