(* ===== verification/ApqClient.v ===== *)
(** * APQMLS on clients ([apqmls/src])

    The operations on the pair of MLS groups that a client holds: processing of
    message pairs ([processing.rs]), the pre-shared key that binds the groups
    ([psk.rs], [secret.rs]), commits ([commit_builder.rs]), external commits
    ([external_commit_builder.rs]), welcomes ([welcome.rs]), creation
    ([group_builder.rs]), key packages ([key_package.rs]), merging ([merging.rs]) and
    export ([export.rs]). *)

From S2P Require Import Prelude Aead MemoryProvider Messages Mls Apq ApqExtension ApqMls.

(** ** Key derivation *)

(** The length of a variable-size vector, as a variable-length integer. *)
Definition vl_length (n : Z) : option bytes :=
  if n <? 64 then Some [n]
  else if n <? 16384 then Some [64 + n / 256; n mod 256]
  else if n <? 2 ^ 30 then
    Some [128 + n / 2 ^ 24; (n / 2 ^ 16) mod 256; (n / 256) mod 256; n mod 256]
  else None.
Definition vl_bytes (b : bytes) : option bytes :=
  len ← vl_length (Z.of_nat (length b)); Some (len ++ b).

(** [KdfLabel]. *)
Definition kdf_label (length : Z) (label context : bytes) : option bytes :=
  label ← vl_bytes label;
  context ← vl_bytes context;
  Some ([length / 256; length mod 256] ++ label ++ context).

Section Secret.
Context `{MlsClient}.

Definition hkdf_expand (secret : bytes) (suite : Ciphersuite) (info : bytes) (okm_len : Z) :
    Result CryptoError bytes :=
  key ← ok_or CryptoLibraryError (mls_hkdf_expand suite secret info okm_len);
  match key with [] => Err InvalidLength | _ => Ok key end.

Definition kdf_expand_label (secret : bytes) (suite : Ciphersuite) (label : string) (context : bytes)
    (length : Z) : Result CryptoError bytes :=
  let full_label := bytes_of_string ("MLS 1.0 " ++ label) in
  _ ← ensure (length <? 2 ^ 16) KdfLabelTooLarge;
  info ← ok_or KdfSerializationError (kdf_label length full_label context);
  hkdf_expand secret suite info length.

Definition derive_secret (secret : bytes) (suite : Ciphersuite) (label : string) :
    Result CryptoError bytes :=
  kdf_expand_label secret suite label [] (hash_length suite).

End Secret.

(** ** Errors *)

Inductive ApqPskError `{MlsClientTypes} :=
| ExportFromGroup (e : MlsError)
| ExportFromProcessed (e : MlsError)
| ExportFromPending (e : MlsError)
| DerivingPskId (e : CryptoError)
| PskStorage (e : MlsError).
Inductive ApqProcessMessageError `{MlsClientTypes} :=
| CpProcessing (e : MlsError)
| CpPsk (e : ApqPskError)
| CpValidation (e : ApqProcessMessageValidationError)
| CpAppDataUpdate (e : ResolveAppDataCommitError).
Inductive CreateCommitError `{MlsClientTypes} :=
| BuildCommit (e : MlsError)
| StageCommit (e : MlsError)
| CcMissingApqInfo
| CcMalformedExtension (e : TlsCodecError)
| CcPsk (e : ApqPskError).
Inductive ApqExternalCommitBuilderError `{MlsClientTypes} :=
| ExExternalCommit (e : MlsError)
| ExBuildCommit (e : MlsError)
| ExFinalize (e : MlsError)
| ExPsk (e : ApqPskError)
| ExMissingApqInfo
| ExMalformedExtension (e : TlsCodecError).
Inductive NewGroupError `{MlsClientTypes} :=
| NewGroup (e : MlsError)
| InvalidExtension (e : TlsCodecError)
| LeafNodeValidation.
Inductive WelcomeError `{MlsClientTypes} :=
| WelcomeProcessing (e : MlsError)
| WelcomePsk (e : ApqPskError).
Inductive KeyPackageNewError `{MlsClientTypes} :=
| KpOpenMls (e : MlsError)
| UnsupportedCiphersuite (e : TlsCodecError).

(** ** Data *)

(** [ApqMlsGroup], and the state of an operation on it. *)
Record ApqMlsGroup `{MlsClientTypes} := { t_group : MlsGroup; pq_group : MlsGroup }.
Record ApqState `{MlsClientTypes} := { st_group : ApqMlsGroup; st_provider : Provider }.

Record ApqCredentialWithKey `{MlsClientTypes} := {
  t_credential : CredentialWithKey; pq_credential : CredentialWithKey }.
(** [ApqSigner]. *)
Record ApqSigner `{MlsClientTypes} := { t_signer : Signer; pq_signer : Signer }.
Record ApqKeyPackage `{OpenMlsTypes} := { t_key_package : KeyPackage; pq_key_package : KeyPackage }.
Record ApqKeyPackageBundle `{MlsClientTypes} := {
  t_kp_bundle : KeyPackageBundle; pq_kp_bundle : KeyPackageBundle }.
Record ApqMlsMessageOut `{MlsClientTypes} := { out_t : MlsMessageOut; out_pq : MlsMessageOut }.
Record ApqMlsWelcome `{MlsClientTypes} := { t_welcome : MlsWelcome; pq_welcome : MlsWelcome }.
Record ApqGroupInfo `{OpenMlsTypes} := { agi_t : GroupInfo; agi_pq : GroupInfo }.
Record VerifiableApqGroupInfo `{OpenMlsTypes} := { vagi_t : VerifiableGroupInfo; vagi_pq : VerifiableGroupInfo }.
Record ApqRatchetTreeIn `{OpenMlsTypes} := { t_ratchet_tree : RatchetTreeIn; pq_ratchet_tree : RatchetTreeIn }.
Record ApqRatchetTree `{OpenMlsTypes} := { t_tree : RatchetTree; pq_tree : RatchetTree }.
Record ApqProposalIn `{OpenMlsTypes} := { t_proposal : PublicMessageIn; pq_proposal : PublicMessageIn }.
Record ApqVerifyingKey := { t_verifying_key : SignaturePublicKey; pq_verifying_key : SignaturePublicKey }.
Record ApqCommitMessageBundle `{OpenMlsTypes, MlsClientTypes} := {
  acb_commit : ApqMlsMessageOut;
  acb_welcome : option ApqMlsWelcome;
  acb_group_info : option ApqGroupInfo
}.
(** [StagedApqWelcome]. *)
Record StagedApqWelcome `{MlsClientTypes} := {
  t_staged_welcome : StagedWelcome; pq_staged_welcome : StagedWelcome }.

(** [ConfigValues] of the commit builder. *)
Record ConfigValues `{OpenMlsTypes, MlsClientTypes} := {
  cv_consume_proposal_store : option bool;
  cv_force_self_update : option bool;
  cv_t_proposals : list CommitProposal;
  cv_t_leaf_node_parameters : option (LeafNodeParameters CredentialWithKey);
  cv_pq_leaf_node_parameters : option (LeafNodeParameters CredentialWithKey);
  cv_proposed_adds : list ApqKeyPackage;
  cv_proposed_removals : list LeafNodeIndex;
  cv_create_group_info : bool
}.

(** [GroupBuilder]; the settings of the two MLS builders that the crate only
    forwards are opaque. *)
Record GroupBuilder `{MlsClientTypes} := {
  ab_t_settings : GroupSettings;
  ab_pq_settings : GroupSettings;
  ab_group_ids : option ApqGroupId;
  ab_mode : PqtMode;
  ab_ciphersuite : option ApqCiphersuite;
  ab_capabilities : Capabilities;
  ab_t_extensions : Extensions;
  ab_pq_extensions : Extensions;
  ab_t_leaf_extensions : Extensions;
  ab_pq_leaf_extensions : Extensions
}.

(** [ApqExternalCommitBuilder]. *)
Record ApqExternalCommitBuilder `{OpenMlsTypes, MlsClientTypes} := {
  eb_ratchet_tree : option ApqRatchetTreeIn;
  eb_proposals : list ApqProposalIn;
  eb_config : MlsGroupJoinConfig;
  eb_skip_lifetimes : bool;
  eb_aad : bytes;
  eb_leaf_node_parameters : option (LeafNodeParameters CredentialWithKey * LeafNodeParameters CredentialWithKey);
  eb_create_group_info : bool;
  eb_t_psk_proposals : list PreSharedKeyId
}.

(** [ApqKeyPackageBuilder]. *)
Record ApqKeyPackageBuilder `{MlsClientTypes} := {
  akb_capabilities : Capabilities;
  akb_t_settings : KeyPackageSettings;
  akb_pq_settings : KeyPackageSettings;
  akb_extensions : Extensions;
  akb_leaf_extensions : Extensions
}.

(** Running an operation of one group, or of the provider, on the pair. *)
Section Lift.
Context `{MlsClientTypes}.
Definition with_t (st : ApqState) (g : MlsGroup) (p : Provider) : ApqState :=
  {| st_group := {| t_group := g; pq_group := pq_group (st_group st) |}; st_provider := p |}.
Definition with_pq (st : ApqState) (g : MlsGroup) (p : Provider) : ApqState :=
  {| st_group := {| t_group := t_group (st_group st); pq_group := g |}; st_provider := p |}.
Definition on_t {E A} (m : M (MlsGroup * Provider) E A) : M ApqState E A := fun st =>
  let '(r, (g, p)) := m (t_group (st_group st), st_provider st) in (r, with_t st g p).
Definition on_pq {E A} (m : M (MlsGroup * Provider) E A) : M ApqState E A := fun st =>
  let '(r, (g, p)) := m (pq_group (st_group st), st_provider st) in (r, with_pq st g p).
Definition on_provider {E A} (m : M Provider E A) : M ApqState E A := fun st =>
  let '(r, p) := m (st_provider st) in (r, {| st_group := st_group st; st_provider := p |}).
Definition provided {E A} (m : M Provider E A) : M (MlsGroup * Provider) E A := fun s =>
  let '(r, p) := m s.2 in (r, (s.1, p)).
(** An operation on a group that is a local variable. *)
Definition on_local {E A} (g : MlsGroup) (m : M (MlsGroup * Provider) E A) : M Provider E (A * MlsGroup) :=
  fun p => match m (g, p) with
           | (Ok a, (g', p')) => (Ok (a, g'), p')
           | (Err e, (_, p')) => (Err e, p')
           end.
End Lift.

Section Client.
Context `{MlsContents} `{!MlsClientTypes} `{!MlsClient} `{OpenMlsCodes}.
Context `{!TlsCodec ApqInfo} `{!TlsCodec (list Z)}.

Abbreviation LeafParameters := (LeafNodeParameters CredentialWithKey) (only parsing).

(** [ApqMlsGroup::group_id], [ciphersuite], [t_epoch], [pq_epoch] and [apq_info]. *)
Definition apq_group_id (g : ApqMlsGroup) : ApqGroupId :=
  {| t_group_id := gc_group_id (mg_group_context (t_group g));
     pq_group_id := gc_group_id (mg_group_context (pq_group g)) |}.
Definition apq_ciphersuite (g : ApqMlsGroup) : ApqCiphersuite :=
  {| t_ciphersuite := gc_ciphersuite (mg_group_context (t_group g));
     pq_ciphersuite := gc_ciphersuite (mg_group_context (pq_group g)) |}.
Definition group_t_epoch (g : ApqMlsGroup) : GroupEpoch := gc_epoch (mg_group_context (t_group g)).
Definition group_pq_epoch (g : ApqMlsGroup) : GroupEpoch := gc_epoch (mg_group_context (pq_group g)).
Definition apq_info (g : ApqMlsGroup) : option ApqInfo :=
  o ← ok (context_info (mg_group_context (t_group g))); o.
(** [verifying_key_at], [load] and [delete]. *)
Definition verifying_key_at (g : ApqMlsGroup) (index : LeafNodeIndex) : option ApqVerifyingKey :=
  t_member ← mg_member_at (t_group g) index;
  pq_member ← mg_member_at (pq_group g) index;
  Some {| t_verifying_key := member_signature_key t_member;
          pq_verifying_key := member_signature_key pq_member |}.
Definition apq_load (id : ApqGroupId) (p : Provider) : Result MlsError (option ApqMlsGroup) :=
  t ← mls_group_load (t_group_id id) p;
  pq ← mls_group_load (pq_group_id id) p;
  Ok match t, pq with
     | Some t, Some pq => Some {| t_group := t; pq_group := pq |}
     | _, _ => None
     end.
Definition apq_delete : M ApqState MlsError unit :=
  _ ← on_t mg_delete; on_pq mg_delete.

(** ** The pre-shared key that binds the groups ([psk.rs]) *)

Definition store_psk (psk_id : PreSharedKeyId) (key : bytes) : M Provider ApqPskError PreSharedKeyId :=
  _ ← map_errM PskStorage (delete_psk (psk psk_id));
  _ ← map_errM PskStorage (psk_id_store psk_id key);
  mret psk_id.

(** Identifier and value of the PSK, derived from the exporter secret of the PQ
    group, and its storage. *)
Definition derive_psk (apq_exporter : bytes) (t_ciphersuite : Ciphersuite) :
    M Provider ApqPskError PreSharedKeyId :=
  apq_psk_id ← lift (map_err DerivingPskId (derive_secret apq_exporter t_ciphersuite "psk_id"));
  apq_psk ← lift (map_err DerivingPskId (derive_secret apq_exporter t_ciphersuite "psk"));
  let application := {| psk_component := APQMLS_COMPONENT_ID; psk_identifier := apq_psk_id |} in
  nonce ← map_errM DerivingPskId (random_psk_nonce t_ciphersuite);
  store_psk {| psk := application; psk_nonce := nonce |} apq_psk.

(** [derive_and_store_psk], with the const parameter [FROM_PENDING]. *)
Definition derive_and_store_psk (from_pending : bool) (t_ciphersuite : Ciphersuite) :
    M (MlsGroup * Provider) ApqPskError PreSharedKeyId :=
  apq_exporter ←
    (if from_pending then map_errM ExportFromPending (safe_export_secret_from_pending APQMLS_COMPONENT_ID)
     else map_errM ExportFromGroup (safe_export_secret APQMLS_COMPONENT_ID));
  provided (derive_psk apq_exporter t_ciphersuite).

(** ** Processing ([processing.rs]) *)

(** [resolve_app_data_commit]. *)
Definition resolve_app_data (g : MlsGroup) (p : Provider) (message : ProcessedMessage) :
    Result ResolveAppDataCommitError ProcessedMessage :=
  match pm_content message with
  | UnresolvedAppDataCommitMessage u =>
      mg_resolve_app_data_commit g p message
        (compute_app_data_updates (mg_app_data_dictionary_updater g) false (unresolved_proposals u))
  | _ => Ok message
  end.

(** One leg: processing, resolution and message info. *)
Definition process_leg (m : ProtocolMessage) :
    M (MlsGroup * Provider) ApqProcessMessageError (ProcessedMessage * MessageInfo) :=
  message ← map_errM CpProcessing (mg_process_message m);
  s ← get;
  message ← lift (map_err CpAppDataUpdate (resolve_app_data s.1 s.2 message));
  info ← lift (map_err CpValidation (message_info message));
  mret (message, info).

(** The export of the PSK from a processed PQ commit that does not remove the client
    itself; the export changes the message. *)
Definition store_processed_psk (pq_message : ProcessedMessage) (t_ciphersuite : Ciphersuite) :
    M Provider ApqProcessMessageError ProcessedMessage :=
  match pm_content pq_message with
  | StagedCommitMessage sc =>
      if sc_self_removed sc then mret pq_message
      else
        match pm_safe_export_secret APQMLS_COMPONENT_ID pq_message with
        | (Err e, _) => throw (CpPsk (ExportFromProcessed e))
        | (Ok apq_exporter, pq_message) =>
            _ ← map_errM CpPsk (derive_psk apq_exporter t_ciphersuite); mret pq_message
        end
  | _ => mret pq_message
  end.

(** [ApqMlsGroupMut::process_message]. *)
Definition apq_client_process_message (m : ApqProtocolMessage)
    (sender_equivalence : Credential -> Credential -> bool) :
    M ApqState ApqProcessMessageError ApqProcessedMessage :=
  '(pq_message, pq_info) ← on_pq (process_leg (ap_pq m));
  t_suite ← gets (fun st => gc_ciphersuite (mg_group_context (t_group (st_group st))));
  pq_message ← on_provider (store_processed_psk pq_message t_suite);
  '(t_message, t_info) ← on_t (process_leg (ap_t m));
  if negb (message_info_eqb sender_equivalence pq_info t_info)
  then throw (CpValidation MismatchedMessages)
  else
    st ← get;
    _ ← lift (map_err CpValidation
          (validate (params_of_context (mg_group_context (pq_group (st_group st))))
                    (params_of_context (mg_group_context (t_group (st_group st))))
                    pq_message t_message));
    mret {| apm_t := t_message; apm_pq := pq_message |}.

(** ** Merging ([merging.rs]) *)

Definition apq_merge_pending_commit : M ApqState MlsError unit :=
  _ ← on_t mg_merge_pending_commit; on_pq mg_merge_pending_commit.
Definition apq_merge_staged_commit (sc : ApqStagedCommit) : M ApqState MlsError unit :=
  _ ← on_t (mg_merge_staged_commit (asc_t sc)); on_pq (mg_merge_staged_commit (asc_pq sc)).
Definition apq_clear_pending_commits : M ApqState MlsError unit :=
  _ ← on_t mg_clear_pending_commit; on_pq mg_clear_pending_commit.

(** ** Commits ([commit_builder.rs]) *)

(** [ApqCommitMessageBundle::from_bundles]; a welcome of one leg only fails a debug
    assertion, and is dropped. *)
Definition from_bundles (t_bundle pq_bundle : CommitMessageBundle) : ApqCommitMessageBundle :=
  let '(t_commit, t_wel, t_gi) := bundle_contents t_bundle in
  let '(pq_commit, pq_wel, pq_gi) := bundle_contents pq_bundle in
  {| acb_commit := {| out_t := t_commit; out_pq := pq_commit |};
     acb_welcome :=
       match t_wel, pq_wel with
       | Some t, Some pq => Some {| t_welcome := t; pq_welcome := pq |}
       | _, _ => None
       end;
     acb_group_info :=
       match t_gi, pq_gi with
       | Some t, Some pq => Some {| agi_t := t; agi_pq := pq |}
       | _, _ => None
       end |}.

(** [ConfigValues::default] and the setters of [CommitBuilder]. *)
Definition config_default : ConfigValues :=
  {| cv_consume_proposal_store := None; cv_force_self_update := None; cv_t_proposals := [];
     cv_t_leaf_node_parameters := None; cv_pq_leaf_node_parameters := None; cv_proposed_adds := [];
     cv_proposed_removals := []; cv_create_group_info := false |}.

Definition is_membership (p : CommitProposal) : bool :=
  bool_decide (proposal_type p = PropAdd) || bool_decide (proposal_type p = PropRemove).
Definition with_t_proposals (l : list CommitProposal) (v : ConfigValues) : ConfigValues :=
  {| cv_consume_proposal_store := cv_consume_proposal_store v;
     cv_force_self_update := cv_force_self_update v; cv_t_proposals := l;
     cv_t_leaf_node_parameters := cv_t_leaf_node_parameters v;
     cv_pq_leaf_node_parameters := cv_pq_leaf_node_parameters v;
     cv_proposed_adds := cv_proposed_adds v; cv_proposed_removals := cv_proposed_removals v;
     cv_create_group_info := cv_create_group_info v |}.
Definition add_t_proposal (p : CommitProposal) (v : ConfigValues) : ConfigValues :=
  if is_membership p then v else with_t_proposals (cv_t_proposals v ++ [p]) v.
Definition add_t_proposals (ps : list CommitProposal) (v : ConfigValues) : ConfigValues :=
  with_t_proposals (cv_t_proposals v ++ filter (fun p => is_membership p = false) ps) v.
Definition with_leaf_parameters (t pq : option LeafParameters) (v : ConfigValues) : ConfigValues :=
  {| cv_consume_proposal_store := cv_consume_proposal_store v;
     cv_force_self_update := cv_force_self_update v; cv_t_proposals := cv_t_proposals v;
     cv_t_leaf_node_parameters := t; cv_pq_leaf_node_parameters := pq;
     cv_proposed_adds := cv_proposed_adds v; cv_proposed_removals := cv_proposed_removals v;
     cv_create_group_info := cv_create_group_info v |}.
Definition leaf_node_parameters (t pq : LeafParameters) (v : ConfigValues) : ConfigValues :=
  with_leaf_parameters (Some t) (Some pq) v.
Definition propose_adds (kps : list ApqKeyPackage) (v : ConfigValues) : ConfigValues :=
  {| cv_consume_proposal_store := cv_consume_proposal_store v;
     cv_force_self_update := cv_force_self_update v; cv_t_proposals := cv_t_proposals v;
     cv_t_leaf_node_parameters := cv_t_leaf_node_parameters v;
     cv_pq_leaf_node_parameters := cv_pq_leaf_node_parameters v;
     cv_proposed_adds := cv_proposed_adds v ++ kps; cv_proposed_removals := cv_proposed_removals v;
     cv_create_group_info := cv_create_group_info v |}.
Definition propose_removals (removed : list LeafNodeIndex) (v : ConfigValues) : ConfigValues :=
  {| cv_consume_proposal_store := cv_consume_proposal_store v;
     cv_force_self_update := cv_force_self_update v; cv_t_proposals := cv_t_proposals v;
     cv_t_leaf_node_parameters := cv_t_leaf_node_parameters v;
     cv_pq_leaf_node_parameters := cv_pq_leaf_node_parameters v;
     cv_proposed_adds := cv_proposed_adds v; cv_proposed_removals := cv_proposed_removals v ++ removed;
     cv_create_group_info := cv_create_group_info v |}.

(** [ConfigValues::apply], with the const parameter [IS_TRADITIONAL]. *)
Definition apply_config (v : ConfigValues) (is_traditional : bool) : CommitConfig :=
  {| cc_consume_proposal_store := cv_consume_proposal_store v;
     cc_force_self_update := cv_force_self_update v;
     cc_leaf_node_parameters :=
       if is_traditional then cv_t_leaf_node_parameters v else cv_pq_leaf_node_parameters v;
     cc_proposals := if is_traditional then cv_t_proposals v else [];
     cc_adds := if is_traditional then map t_key_package (cv_proposed_adds v)
                else map pq_key_package (cv_proposed_adds v);
     cc_removals := cv_proposed_removals v |}.
Definition add_proposals (ps : list CommitProposal) (c : CommitConfig) : CommitConfig :=
  {| cc_consume_proposal_store := cc_consume_proposal_store c;
     cc_force_self_update := cc_force_self_update c;
     cc_leaf_node_parameters := cc_leaf_node_parameters c;
     cc_proposals := cc_proposals c ++ ps; cc_adds := cc_adds c; cc_removals := cc_removals c |}.

(** Loading the PSKs, updating the component, building and staging of one leg. *)
Definition commit_leg (c : CommitConfig) (component : Z * bytes) (create_group_info : bool)
    (signer : Signer) (f : QueuedProposal -> bool) :
    M (MlsGroup * Provider) CreateCommitError CommitMessageBundle :=
  b ← map_errM BuildCommit (commit_load_psks c);
  let updater := updater_set (loaded_updater b) component.1 component.2 in
  b ← map_errM BuildCommit (commit_build b create_group_info (updater_changes updater) signer f);
  map_errM StageCommit (stage_commit b).

(** A commit on the T group alone, as the client's [Group::update] makes it. *)
Definition t_only_commit (c : CommitConfig) (create_group_info : bool) (signer : Signer)
    (f : QueuedProposal -> bool) : M (MlsGroup * Provider) CreateCommitError CommitMessageBundle :=
  b ← map_errM BuildCommit (commit_load_psks c);
  b ← map_errM BuildCommit (commit_build b create_group_info None signer f);
  map_errM StageCommit (stage_commit b).

Definition ensure_leaf_option (suite : ApqCiphersuite) (o : option LeafParameters) :
    Result CreateCommitError (option LeafParameters) :=
  match o with
  | None => Ok None
  | Some params => params ← map_err CcMalformedExtension (ensure_leaf_node_parameters params suite); Ok (Some params)
  end.

(** [CommitBuilder::finalize]. *)
Definition finalize (v : ConfigValues) (signer : ApqSigner) (t_f pq_f : QueuedProposal -> bool) :
    M ApqState CreateCommitError ApqCommitMessageBundle :=
  g ← gets st_group;
  t_params ← lift (ensure_leaf_option (apq_ciphersuite g) (cv_t_leaf_node_parameters v));
  pq_params ← lift (ensure_leaf_option (apq_ciphersuite g) (cv_pq_leaf_node_parameters v));
  let v := with_leaf_parameters t_params pq_params v in
  info ← lift (ok_or CcMissingApqInfo (apq_info g));
  let info := set_epoch info (wrap_u64 (group_t_epoch g + 1)) (wrap_u64 (group_pq_epoch g + 1)) in
  component ← lift (map_err CcMalformedExtension (to_component_data info));
  let update := CommitAppDataUpdate APQMLS_COMPONENT_ID component.2 in
  pq_result ← on_pq (commit_leg (add_proposals [update] (apply_config v false)) component
                       (cv_create_group_info v) (pq_signer signer) pq_f);
  psk_id ← on_pq (map_errM CcPsk (derive_and_store_psk true (t_ciphersuite (apq_ciphersuite g))));
  t_result ← on_t (commit_leg (add_proposals [CommitPreSharedKey psk_id; update] (apply_config v true))
                     component (cv_create_group_info v) (t_signer signer) t_f);
  mret (from_bundles t_result pq_result).

(** ** External commits ([external_commit_builder.rs]) *)

(** [build_and_finalize_leg]. *)
Definition build_and_finalize_leg (c : ExternalConfig) (group_info : VerifiableGroupInfo)
    (credential : CredentialWithKey) (params : LeafParameters) (component : Z * bytes)
    (psks : list PreSharedKeyId) (create_group_info : bool) (signer : Signer) :
    M Provider ApqExternalCommitBuilderError (MlsGroup * CommitMessageBundle) :=
  let proposals := CommitAppDataUpdate APQMLS_COMPONENT_ID component.2 :: map CommitPreSharedKey psks in
  g ← map_errM ExExternalCommit (external_build_group c group_info credential);
  b ← map_errM ExBuildCommit (external_load_psks g params proposals);
  let updater := updater_set (external_updater b) component.1 component.2 in
  b ← map_errM ExBuildCommit (external_build b create_group_info (updater_changes updater) signer);
  map_errM ExFinalize (external_finalize b).

Definition default_leaf_parameters : LeafParameters :=
  {| lnp_capabilities := None; lnp_extensions := None; lnp_credential_with_key := None |}.

(** The configuration of a leg. *)
Definition external_config (b : ApqExternalCommitBuilder) (tree : option RatchetTreeIn)
    (proposals : list PublicMessageIn) : ExternalConfig :=
  {| ec_proposals := proposals; ec_config := eb_config b; ec_aad := eb_aad b; ec_ratchet_tree := tree;
     ec_skip_lifetimes := eb_skip_lifetimes b |}.

(** The T leg, in the state of the PQ group that is built already. *)
Definition external_t_leg (b : ApqExternalCommitBuilder) (signer : ApqSigner)
    (credential : ApqCredentialWithKey) (group_info : VerifiableApqGroupInfo) (params : LeafParameters)
    (component : Z * bytes) :
    M (MlsGroup * Provider) ApqExternalCommitBuilderError (MlsGroup * CommitMessageBundle) :=
  psk_id ← map_errM ExPsk
    (derive_and_store_psk false (gc_ciphersuite (vgi_group_context (vagi_t group_info))));
  provided
    (build_and_finalize_leg
       (external_config b (t_ratchet_tree <$> eb_ratchet_tree b) (map t_proposal (eb_proposals b)))
       (vagi_t group_info) (t_credential credential) params component (psk_id :: eb_t_psk_proposals b)
       (eb_create_group_info b) (t_signer signer)).

(** The T leg and the rollback of the PQ group if it fails; an error of the rollback
    is ignored. *)
Definition external_finish (b : ApqExternalCommitBuilder) (signer : ApqSigner)
    (credential : ApqCredentialWithKey) (group_info : VerifiableApqGroupInfo) (params : LeafParameters)
    (component : Z * bytes) (pq_group : MlsGroup) (pq_bundle : CommitMessageBundle) :
    M Provider ApqExternalCommitBuilderError (ApqMlsGroup * ApqCommitMessageBundle) := fun p =>
  match external_t_leg b signer credential group_info params component (pq_group, p) with
  | (Ok (t_group, t_bundle), (pq_group, p)) =>
      (Ok ({| t_group := t_group; pq_group := pq_group |}, from_bundles t_bundle pq_bundle), p)
  | (Err e, (pq_group, p)) =>
      let '(_, (_, p)) := mg_delete (pq_group, p) in (Err e, p)
  end.

(** [ApqExternalCommitBuilder::build]. *)
Definition external_commit_build (b : ApqExternalCommitBuilder) (signer : ApqSigner)
    (credential : ApqCredentialWithKey) (group_info : VerifiableApqGroupInfo) :
    M Provider ApqExternalCommitBuilderError (ApqMlsGroup * ApqCommitMessageBundle) :=
  let t_context := vgi_group_context (vagi_t group_info) in
  let pq_context := vgi_group_context (vagi_pq group_info) in
  o ← lift (map_err ExMalformedExtension (context_info t_context));
  info ← lift (ok_or ExMissingApqInfo o);
  let info := set_epoch info (wrap_u64 (gc_epoch t_context + 1)) (wrap_u64 (gc_epoch pq_context + 1)) in
  component ← lift (map_err ExMalformedExtension (to_component_data info));
  let suite := {| t_ciphersuite := gc_ciphersuite t_context; pq_ciphersuite := gc_ciphersuite pq_context |} in
  let '(t_params, pq_params) :=
    default (default_leaf_parameters, default_leaf_parameters) (eb_leaf_node_parameters b) in
  t_params ← lift (map_err ExMalformedExtension (ensure_leaf_node_parameters t_params suite));
  pq_params ← lift (map_err ExMalformedExtension (ensure_leaf_node_parameters pq_params suite));
  '(pq_group, pq_bundle) ←
    build_and_finalize_leg
      (external_config b (pq_ratchet_tree <$> eb_ratchet_tree b) (map pq_proposal (eb_proposals b)))
      (vagi_pq group_info) (pq_credential credential) pq_params component []
      (eb_create_group_info b) (pq_signer signer);
  external_finish b signer credential group_info t_params component pq_group pq_bundle.

(** ** Welcomes ([welcome.rs]) *)

(** [derive_and_store_join_psk]. *)
Definition derive_and_store_join_psk (t_suite : Ciphersuite) : M (MlsGroup * Provider) WelcomeError unit :=
  _ ← map_errM WelcomePsk (derive_and_store_psk false t_suite); mret tt.

(** Joining a group of MLS. *)
Definition join_leg (config : MlsGroupJoinConfig) (w : MlsWelcome) (tree : option RatchetTreeIn) :
    M Provider WelcomeError MlsGroup :=
  staged ← map_errM WelcomeProcessing (staged_welcome_new config w tree);
  map_errM WelcomeProcessing (staged_welcome_into_group staged).

(** [ApqMlsGroup::new_from_welcome]. *)
Definition new_from_welcome (config : MlsGroupJoinConfig) (w : ApqMlsWelcome) (tree : option ApqRatchetTreeIn) :
    M Provider WelcomeError ApqMlsGroup :=
  pq_group ← join_leg config (pq_welcome w) (pq_ratchet_tree <$> tree);
  let t_suite := welcome_ciphersuite (t_welcome w) in
  '(_, pq_group) ← on_local pq_group (map_errM WelcomePsk (derive_and_store_psk false t_suite));
  t_group ← join_leg config (t_welcome w) (t_ratchet_tree <$> tree);
  mret {| t_group := t_group; pq_group := pq_group |}.

(** [StagedApqWelcome::new_from_welcome] and [into_group]. *)
Definition staged_apq_welcome_new (config : MlsGroupJoinConfig) (w : ApqMlsWelcome)
    (tree : option ApqRatchetTreeIn) : M Provider WelcomeError StagedApqWelcome :=
  t ← map_errM WelcomeProcessing (staged_welcome_new config (t_welcome w) (t_ratchet_tree <$> tree));
  pq ← map_errM WelcomeProcessing (staged_welcome_new config (pq_welcome w) (pq_ratchet_tree <$> tree));
  mret {| t_staged_welcome := t; pq_staged_welcome := pq |}.
Definition staged_apq_welcome_into_group (w : StagedApqWelcome) : M Provider WelcomeError ApqMlsGroup :=
  t ← map_errM WelcomeProcessing (staged_welcome_into_group (t_staged_welcome w));
  pq ← map_errM WelcomeProcessing (staged_welcome_into_group (pq_staged_welcome w));
  mret {| t_group := t; pq_group := pq |}.

(** ** Creation ([group_builder.rs]) *)

Definition group_ids (b : GroupBuilder) : M Provider NewGroupError ApqGroupId :=
  match ab_group_ids b with
  | Some ids => mret ids
  | None => fun p =>
      let '(t, p) := random_group_id p in
      let '(pq, p) := random_group_id p in
      (Ok {| t_group_id := t; pq_group_id := pq |}, p)
  end.

(** The [ApqInfo] of a new group. *)
Definition initial_info (ids : ApqGroupId) (mode : PqtMode) (suite : ApqCiphersuite) : ApqInfo :=
  {| t_session_group_id := t_group_id ids; pq_session_group_id := pq_group_id ids; info_mode := mode;
     t_cipher_suite := t_ciphersuite suite; pq_cipher_suite := pq_ciphersuite suite;
     t_epoch := 0; pq_epoch := 0 |}.

(** The group context extensions of a leg. *)
Definition group_extensions (e : Extensions) (component : Z * bytes) : Result TlsCodecError Extensions :=
  ensure_group_context_component_support
    (replace_required (merged_required_capabilities (ext_required_capabilities e)) e) component.

Definition build_leg (c : GroupConfig) (signer : Signer) (credential : CredentialWithKey) :
    M Provider NewGroupError MlsGroup :=
  if leaf_extensions_valid (gb_leaf_extensions c) then map_errM NewGroup (mls_group_build c signer credential)
  else throw LeafNodeValidation.

(** [GroupBuilder::build]. *)
Definition apq_group_build (b : GroupBuilder) (signer : ApqSigner) (credential : ApqCredentialWithKey) :
    M Provider NewGroupError ApqMlsGroup :=
  let suite := match ab_ciphersuite b with
               | Some suite => suite
               | None => match ab_mode b with
                         | ConfOnly => default_pq_conf
                         | ConfAndAuth => default_pq_conf_and_auth
                         end
               end in
  capabilities ← lift (map_err InvalidExtension (ensure_extension_support (ab_capabilities b)));
  capabilities ← lift (map_err InvalidExtension (ensure_ciphersuite_support capabilities suite));
  ids ← group_ids b;
  component ← lift (map_err InvalidExtension (to_component_data (initial_info ids (ab_mode b) suite)));
  t_extensions ← lift (map_err InvalidExtension (group_extensions (ab_t_extensions b) component));
  pq_extensions ← lift (map_err InvalidExtension (group_extensions (ab_pq_extensions b) component));
  t ← build_leg {| gb_settings := ab_t_settings b; gb_ciphersuite := t_ciphersuite suite;
                   gb_extensions := t_extensions; gb_group_id := t_group_id ids;
                   gb_capabilities := capabilities; gb_leaf_extensions := ab_t_leaf_extensions b |}
        (t_signer signer) (t_credential credential);
  pq ← build_leg {| gb_settings := ab_pq_settings b; gb_ciphersuite := pq_ciphersuite suite;
                    gb_extensions := pq_extensions; gb_group_id := pq_group_id ids;
                    gb_capabilities := capabilities; gb_leaf_extensions := ab_pq_leaf_extensions b |}
         (pq_signer signer) (pq_credential credential);
  mret {| t_group := t; pq_group := pq |}.

(** ** Key packages ([key_package.rs]) and export ([export.rs]) *)

Definition apq_key_package_build (b : ApqKeyPackageBuilder) (suite : ApqCiphersuite) (signer : ApqSigner)
    (credential : ApqCredentialWithKey) : M Provider KeyPackageNewError ApqKeyPackageBundle :=
  capabilities ← lift (map_err UnsupportedCiphersuite (ensure_extension_support (akb_capabilities b)));
  capabilities ← lift (map_err UnsupportedCiphersuite (ensure_ciphersuite_support capabilities suite));
  ln_extensions ← lift (map_err UnsupportedCiphersuite
                          (ensure_leaf_node_component_support (akb_leaf_extensions b)));
  let config settings :=
    {| kb_settings := settings; kb_capabilities := capabilities; kb_leaf_extensions := ln_extensions;
       kb_extensions := akb_extensions b |} in
  t ← map_errM KpOpenMls (key_package_build (config (akb_t_settings b)) (t_ciphersuite suite)
                            (t_signer signer) (t_credential credential));
  pq ← map_errM KpOpenMls (key_package_build (config (akb_pq_settings b)) (pq_ciphersuite suite)
                             (pq_signer signer) (pq_credential credential));
  mret {| t_kp_bundle := t; pq_kp_bundle := pq |}.
Definition into_key_package (b : ApqKeyPackageBundle) : ApqKeyPackage :=
  {| t_key_package := bundle_key_package (t_kp_bundle b); pq_key_package := bundle_key_package (pq_kp_bundle b) |}.
(** [ApqKeyPackageIn::validate], on the pair of unverified key packages. *)
Definition validate_key_packages (t pq : KeyPackageIn) : option ApqKeyPackage :=
  t ← key_package_validate t; pq ← key_package_validate pq;
  Some {| t_key_package := t; pq_key_package := pq |}.

(** [VerifiableApqGroupInfo::verify]. *)
Definition verify_apq_group_info (gi : VerifiableApqGroupInfo) (k : ApqVerifyingKey) : option ApqGroupInfo :=
  let key vk vgi := from_signature_key vk (gc_signature_scheme (vgi_group_context vgi)) in
  t ← verify_group_info (vagi_t gi) (key (t_verifying_key k) (vagi_t gi));
  pq ← verify_group_info (vagi_pq gi) (key (pq_verifying_key k) (vagi_pq gi));
  Some {| agi_t := t; agi_pq := pq |}.

Definition apq_export_ratchet_tree (g : ApqMlsGroup) : ApqRatchetTree :=
  {| t_tree := mg_export_ratchet_tree (t_group g); pq_tree := mg_export_ratchet_tree (pq_group g) |}.
Definition apq_export_group_info (g : ApqMlsGroup) (signer : ApqSigner) (with_ratchet_tree : bool) :
    Result MlsError ApqMlsMessageOut :=
  t ← mg_export_group_info (t_group g) (t_signer signer) with_ratchet_tree;
  pq ← mg_export_group_info (pq_group g) (pq_signer signer) with_ratchet_tree;
  Ok {| out_t := t; out_pq := pq |}.

End Client.
