(* ===== verification/ApqMlsCorrect.v ===== *)
(** * What a processed pair of messages guarantees

    A pair of commits is accepted by the public groups exactly if each is accepted
    by its group, they come from the same sender, concern the same clients and lead
    to contexts that carry one [ApqInfo], which names both groups at their new
    epochs. *)

From S2P Require Import Prelude Aead MemoryProvider Messages Mls Apq ApqExtension ApqMls.

(** OpenMLS: a staged commit keeps the ciphersuite, and lists the updates it counts. *)
Class MlsContentsLaws `{MlsContents} : Prop := {
  staged_ciphersuite : forall pg m pm sc, process_resolved pg m = Ok pm ->
    pm_content pm = StagedCommitMessage sc ->
    gc_ciphersuite (sc_group_context sc) = gc_ciphersuite (pg_group_context pg)
}.

Section Pairs.
Context `{MlsContents} `{!TlsCodec ApqInfo}.

(** Two group contexts that are linked by one [ApqInfo]. *)
Record linked (t pq : GroupContext) (i : ApqInfo) : Prop := {
  linked_t : context_info t = Ok (Some i);
  linked_pq : context_info pq = Ok (Some i);
  linked_t_epoch : t_epoch i = gc_epoch t;
  linked_pq_epoch : pq_epoch i = gc_epoch pq;
  linked_t_id : t_session_group_id i = gc_group_id t;
  linked_pq_id : pq_session_group_id i = gc_group_id pq;
  linked_t_suite : t_cipher_suite i = gc_ciphersuite t;
  linked_pq_suite : pq_cipher_suite i = gc_ciphersuite pq
}.

(** Two commits on the same clients, up to an equivalence of credentials. *)
Record same_clients (eqv : Credential -> Credential -> bool) (pq t : StagedCommit) : Prop := {
  same_removes : forall j, j ∈ sc_remove_proposals pq <-> j ∈ sc_remove_proposals t;
  same_adds : Forall2 (fun a b => eqv (kp_credential a) (kp_credential b) = true)
    (sc_add_proposals pq) (sc_add_proposals t);
  same_updates : Forall2 (fun a b => eqv (leaf_node_credential a) (leaf_node_credential b) = true)
    (sc_update_leaf_nodes pq) (sc_update_leaf_nodes t);
  same_path : option_Forall2 (fun a b => eqv (leaf_node_credential a) (leaf_node_credential b) = true)
    (sc_update_path_leaf_node pq) (sc_update_path_leaf_node t)
}.

(** The epochs of a pair of contexts move by one, at 64 bits. *)
Definition next_epoch (old new : GroupContext) : Prop := gc_epoch new = wrap_u64 (gc_epoch old + 1).

Lemma forallb_zip_map {A B} (f : A -> B) (r : B -> B -> bool) l l' :
  length (map f l) = length (map f l') /\ forallb (fun '(x, y) => r x y) (zip (map f l) (map f l')) = true <->
  Forall2 (fun a b => r (f a) (f b) = true) l l'.
Proof.
  revert l'. induction l as [|a l IH]; intros [|b l']; cbn.
  - by split.
  - split; [by intros []|by inversion 1].
  - split; [by intros []|by inversion 1].
  - rewrite andb_true_iff, Forall2_cons, <- IH. split; intros []; split; [by destruct_and?| |..]; destruct_and?; auto.
Qed.

Lemma same_credential_option {A} (f : A -> Credential) eqv a b :
  same_credential eqv (f <$> a) (f <$> b) = true <-> option_Forall2 (fun a b => eqv (f a) (f b) = true) a b.
Proof.
  destruct a, b; cbn; split; try done; try by inversion 1.
  - intros Hf. by constructor.
  - intros _. constructor.
Qed.

Lemma commit_content_same eqv pq t a b :
  message_type (StagedCommitMessage pq) = Some (MtCommit a) ->
  message_type (StagedCommitMessage t) = Some (MtCommit b) ->
  commit_content_eqb eqv a b = true <-> same_clients eqv pq t.
Proof.
  intros [= <-] [= <-]. unfold commit_content_eqb. cbn [co_path_credential co_adds co_removes co_updates].
  rewrite !andb_true_iff, !bool_decide_eq_true, same_credential_option. rewrite set_eq.
  setoid_rewrite elem_of_list_to_set. split.
  - intros (((((Hp & Hr) & Hla) & Hlu) & Ha) & Hu). split; [exact Hr| | |exact Hp].
    + by apply forallb_zip_map.
    + by apply forallb_zip_map.
  - intros [Hr Ha%(forallb_zip_map kp_credential eqv) Hu%(forallb_zip_map leaf_node_credential eqv) Hp].
    destruct_and!. auto 10.
Qed.

Lemma staged_info_Ok sc i : staged_info sc = Ok i <-> context_info (sc_group_context sc) = Ok (Some i).
Proof.
  unfold staged_info. destruct (context_info _) as [[j|]|]; cbn; split; intros Hi; try discriminate.
  - by injection Hi as <-.
  - by injection Hi as <-.
Qed.

(** What [validate] checks of a pair of commits. *)
Lemma validate_commits pq_params t_params pq_m t_m pq_sc t_sc :
  pm_content pq_m = StagedCommitMessage pq_sc -> pm_content t_m = StagedCommitMessage t_sc ->
  validate pq_params t_params pq_m t_m = Ok tt <->
  exists i, context_info (sc_group_context pq_sc) = Ok (Some i) /\
    context_info (sc_group_context t_sc) = Ok (Some i) /\
    (pq_epoch i = gc_epoch (sc_group_context pq_sc) /\ t_epoch i = gc_epoch (sc_group_context t_sc)) /\
    (pq_epoch i = wrap_u64 (vp_epoch pq_params + 1) /\ t_epoch i = wrap_u64 (vp_epoch t_params + 1)) /\
    (pq_session_group_id i = vp_group_id pq_params /\ t_session_group_id i = vp_group_id t_params) /\
    (pq_cipher_suite i = vp_ciphersuite pq_params /\ t_cipher_suite i = vp_ciphersuite t_params).
Proof.
  intros Hpq Ht. unfold validate. rewrite Hpq, Ht. split.
  - intros (i & Hi%staged_info_Ok & Hv)%Result_bind_Ok. apply Result_bind_Ok in Hv as (j & Hj%staged_info_Ok & Hv).
    case_match eqn:Ec; [discriminate|]. repeat setoid_rewrite orb_false_iff in Ec.
    repeat setoid_rewrite negb_false_iff in Ec. repeat setoid_rewrite andb_true_iff in Ec.
    repeat setoid_rewrite bool_decide_eq_true in Ec. destruct Ec as [[[[-> ?] ?] ?] ?]. by exists j.
  - intros (i & Hi%staged_info_Ok & Hj%staged_info_Ok & (? & ?) & (? & ?) & (? & ?) & ? & ?).
    rewrite Hi, Hj. cbn. by rewrite !bool_decide_eq_true_2.
Qed.

Lemma process_public_leg_Ok pg m pm info :
  process_public_leg pg m = Ok (pm, info) <-> process_resolved pg m = Ok pm /\ message_info pm = Ok info.
Proof.
  unfold process_public_leg, process_resolved. destruct (process_message pg m) as [pm0|]; cbn; [|split; [done|by intros []]].
  destruct (resolve_app_data_commit_public pg pm0) as [pm1|]; cbn; [|split; [done|by intros []]].
  split.
  - intros (i & Hi%map_err_Ok & [= <- <-])%Result_bind_Ok. done.
  - intros [[= ->] ->]. done.
Qed.

Lemma message_info_commit pm sc : pm_content pm = StagedCommitMessage sc ->
  exists c, message_type (StagedCommitMessage sc) = Some (MtCommit c) /\
    message_info pm = Ok {| mi_type := MtCommit c; mi_sender := pm_sender pm |}.
Proof. intros Hp. unfold message_info. rewrite Hp. cbn. eauto. Qed.

Lemma message_type_commit content c : message_type content = Some (MtCommit c) ->
  exists sc, content = StagedCommitMessage sc.
Proof. destruct content as [|p| | | | |]; cbn; try done; [destruct (qp_body p)|..]; try done. eauto. Qed.

(** The groups are as before, the messages are those of the two groups, and both or
    none of them are commits. *)
Lemma process_public_Ok t pq tm pqm eqv t' pq' mt mpq :
  process_public_message t pq tm pqm eqv = Ok ((t', pq'), (mt, mpq)) ->
  t' = t /\ pq' = pq /\ process_resolved t tm = Ok mt /\ process_resolved pq pqm = Ok mpq /\
  pm_sender mpq = pm_sender mt /\
  ((exists sc, pm_content mt = StagedCommitMessage sc) <-> exists sc, pm_content mpq = StagedCommitMessage sc).
Proof.
  unfold process_public_message. intros ([pm1 i1] & L1 & Hp)%Result_bind_Ok.
  apply Result_bind_Ok in Hp as ([pm2 i2] & L2 & Hp).
  apply process_public_leg_Ok in L1 as [L1 I1], L2 as [L2 I2].
  destruct (message_info_eqb eqv i1 i2) eqn:Ee; [|discriminate]. cbn [negb] in Hp.
  apply Result_bind_Ok in Hp as ([] & _ & [= <- <- <- <-]).
  apply andb_true_iff in Ee as [Et Es%bool_decide_eq_true].
  unfold message_info in I1, I2. apply Result_bind_Ok in I1 as (a1 & I1%ok_or_Ok & [= <-]).
  apply Result_bind_Ok in I2 as (a2 & I2%ok_or_Ok & [= <-]). cbn in Es, Et. split_and!; try done.
  split; intros [sc Hsc]; rewrite Hsc in *.
  - cbn in I2. injection I2 as <-. destruct a1 as [|c|]; try done. by apply message_type_commit in I1.
  - cbn in I1. injection I1 as <-. destruct a2 as [|c|]; try done. by apply message_type_commit in I2.
Qed.

Context `{!OpenMlsLaws} `{!MlsContentsLaws}.

(** A pair of commits that the groups accept one by one is accepted as a pair
    exactly if it is linked. *)
Lemma process_public_commits t pq tm pqm eqv mt mpq t_sc pq_sc :
  process_resolved t tm = Ok mt -> process_resolved pq pqm = Ok mpq ->
  pm_content mt = StagedCommitMessage t_sc -> pm_content mpq = StagedCommitMessage pq_sc ->
  process_public_message t pq tm pqm eqv = Ok ((t, pq), (mt, mpq)) <->
  pm_sender mpq = pm_sender mt /\ same_clients eqv pq_sc t_sc /\
  next_epoch (pg_group_context t) (sc_group_context t_sc) /\
  next_epoch (pg_group_context pq) (sc_group_context pq_sc) /\
  exists i, linked (sc_group_context t_sc) (sc_group_context pq_sc) i.
Proof.
  intros Ht Hpq Hts Hpqs.
  destruct (staged_context _ _ _ _ Ht Hts) as [Gt _], (staged_context _ _ _ _ Hpq Hpqs) as [Gpq _].
  pose proof (staged_ciphersuite _ _ _ _ Ht Hts) as St. pose proof (staged_ciphersuite _ _ _ _ Hpq Hpqs) as Spq.
  destruct (message_info_commit _ _ Hts) as (ct & Mt & It), (message_info_commit _ _ Hpqs) as (cpq & Mpq & Ipq).
  unfold process_public_message. rewrite (proj2 (process_public_leg_Ok _ _ _ _) (conj Hpq Ipq)).
  rewrite (proj2 (process_public_leg_Ok _ _ _ _) (conj Ht It)).
  unfold mbind at 1 2, Result_bind at 1 2. unfold message_info_eqb. cbn [mi_type mi_sender message_type_eqb].
  rewrite <- (commit_content_same eqv _ _ _ _ Mpq Mt).
  destruct (commit_content_eqb eqv cpq ct); cbn [andb negb]; [|by split; [|intros (_ & ? & _)]].
  case_bool_decide as Es; cbn [negb]; [|by split; [|intros (? & _)]].
  pose proof (validate_commits (from_public_group pq) (from_public_group t) _ _ _ _ Hpqs Hts) as Hv.
  cbn [from_public_group params_of_context vp_epoch vp_group_id vp_ciphersuite] in Hv.
  unfold next_epoch. split.
  - intros (u & Hu%map_err_Ok & _)%Result_bind_Ok. destruct u.
    apply Hv in Hu as (i & ? & ? & (? & ?) & (? & ?) & (? & ?) & ? & ?).
    split_and!; try congruence. exists i. split; congruence.
  - intros (_ & _ & N1 & N2 & i & [L1 L2 L3 L4 L5 L6 L7 L8]). apply Result_bind_Ok. exists tt. split; [|done].
    apply map_err_Ok, Hv. exists i. repeat split; congruence.
Qed.

End Pairs.
