(* ===== verification/ApqExample.v ===== *)
(** * A small APQMLS setting

    Instances of the client side of OpenMLS that can be evaluated, on top of the
    small MLS implementation: secrets are computed from the epoch in the clear.  They
    meet the laws of the theorems on APQ groups, and let the theorems be applied. *)

From S2P Require Import Prelude Aead MemoryProvider Messages Mls MlsExample Apq ApqExtension ApqMls ApqClient ApqMlsCorrect ApqClientCorrect.

Module ToyApq.
Export ToyMls.

(** ** Contents and codecs *)

#[export] Instance toy_contents : MlsContents := {|
  gc_ciphersuite := fun _ => 1;
  sc_update_leaf_nodes := fun _ => [];
  qp_proposal_type := fun p : QueuedProposal =>
    match (p : Sender * Proposal).2 with ProposalRemove _ => PropRemove | _ => PropTypeOther 0 end;
  qp_body := fun p : QueuedProposal =>
    match (p : Sender * Proposal).2 with ProposalRemove i => BodyRemove i | _ => BodyOther end
|}.
#[export] Instance toy_contents_laws : MlsContentsLaws.
Proof. by split. Qed.

Definition of_info (i : ApqInfo) : list Z * list Z * bool * (Z * Z) * (Z * Z) :=
  (t_session_group_id i, pq_session_group_id i, bool_decide (info_mode i = ConfAndAuth),
   (t_cipher_suite i, pq_cipher_suite i), (t_epoch i, pq_epoch i)).
Definition to_info (x : list Z * list Z * bool * (Z * Z) * (Z * Z)) : ApqInfo :=
  let '(t, pq, m, (ts, pqs), (te, pqe)) := x in
  {| t_session_group_id := t; pq_session_group_id := pq;
     info_mode := if m : bool then ConfAndAuth else ConfOnly;
     t_cipher_suite := ts; pq_cipher_suite := pqs; t_epoch := te; pq_epoch := pqe |}.
Lemma to_of_info i : to_info (of_info i) = i.
Proof. by destruct i as [? ? [] ? ? ? ?]. Qed.
#[export] Instance toy_info_tls : TlsCodec ApqInfo := {|
  tls_serialize_detached := fun i => Some [Zpos (encode (of_info i))];
  tls_deserialize_exact_bytes := fun bs =>
    match bs with [Zpos e] => to_info <$> decode e | _ => None end
|}.
#[export] Instance toy_info_tls_laws : TlsCodecLaws ApqInfo.
Proof.
  split. intros x bs. cbn [tls_serialize_detached tls_deserialize_exact_bytes toy_info_tls].
  intros <-%(inj Some). rewrite decode_encode. unfold fmap, option_fmap, option_map. by rewrite to_of_info.
Qed.
#[export] Instance toy_list_tls : TlsCodec (list Z) := {|
  tls_serialize_detached := Some; tls_deserialize_exact_bytes := Some |}.
#[export] Instance toy_list_tls_laws : TlsCodecLaws (list Z).
Proof. by split; intros x bs [= ->]. Qed.

(** One suite for both legs. *)
#[export] Instance toy_codes : OpenMlsCodes := {|
  ciphersuite_known := fun _ => true;
  X25519_ED25519 := 1; MLKEM1024_SHA512_MLDSA87 := 1; MLKEM1024_SHA384_P384 := 1;
  MLKEM1024_SHA384_MLDSA87 := 1; MLKEM768_SHA384_MLDSA65 := 1;
  default_capabilities := {| cap_versions := []; cap_ciphersuites := []; cap_extensions := [];
                             cap_proposals := []; cap_credentials := [] |};
  APP_COMPONENTS := 1;
  hash_set_iter := elements
|}.
#[export] Instance toy_codes_laws : OpenMlsCodesLaws.
Proof. by split. Qed.

(** ** Clients *)

(** A group: its context and its pending commit; a provider: PSKs and groups. *)
Record ToyClientGroup := { tg_context : ToyContext; tg_pending : option ToyCommit }.
Record ToyProvider := { tp_psks : list (ApplicationPsk * bytes); tp_groups : list (bytes * ToyClientGroup) }.

#[export] Instance toy_client_types : MlsClientTypes := {|
  MlsGroup := ToyClientGroup;
  Provider := ToyProvider;
  Signer := unit;
  CredentialWithKey := ToyLeaf;
  MlsWelcome := ToyContext;
  StagedWelcome := ToyContext;
  MlsMessageOut := ToyMessage;
  CommitMessageBundle := ToyMessage * ToyContext;
  LoadedCommit := list ToyLeaf * list Z;
  BuiltCommit := (list ToyLeaf * list Z) * option bytes;
  ExternalCommitGroup := ToyContext;
  LoadedExternalCommit := ToyContext;
  BuiltExternalCommit := ToyContext;
  MlsGroupJoinConfig := unit;
  KeyPackageBundle := ToyLeaf;
  KeyPackageIn := ToyLeaf;
  GroupSettings := unit;
  KeyPackageSettings := unit;
  MlsError := unit
|}.

Definition toy_secret (c : ToyContext) (component : Z) : option bytes := Some (c.1.1 ++ [c.1.2; component]).
Definition toy_lookup (p : ToyProvider) (k : ApplicationPsk) : option bytes :=
  snd <$> head (filter (fun x : ApplicationPsk * bytes => x.1 = k) (tp_psks p)).
Definition toy_next (c : ToyContext) (data : option bytes) : ToyContext := (c.1.1, wrap_u64 (c.1.2 + 1), data).
Definition toy_has_psks (p : ToyProvider) (ps : list CommitProposal) : bool :=
  forallb (fun x => match x with
                    | CommitPreSharedKey id => bool_decide (is_Some (toy_lookup p (psk id)))
                    | _ => true end) ps.
Definition toy_message (g : ToyClientGroup) (b : list ToyLeaf * list Z) (data : option bytes) : ToyMessage :=
  {| tm_sender := SenderMember 0; tm_context := ((tg_context g).1, data);
     tm_type := ContentCommit; tm_proposal := ProposalOther;
     tm_proposals := map (fun i => (SenderMember 0, ProposalRemove i)) b.2; tm_adds := b.1;
     tm_path := Some alice; tm_aad := []; tm_credential := [11] |}.

#[export] Instance toy_client : MlsClient := {|
  mg_group_context := tg_context;
  mg_process_message := fun m '(g, p) =>
    match m with
    | PublicMessage m =>
        if decide ((tm_context (m : ToyMessage)).1 = (tg_context g).1 /\ 0 <= (tg_context g).1.2 + 1 < U64)
        then (Ok m, (g, p)) else (Err tt, (g, p))
    | PrivateMessage _ => (Err tt, (g, p))
    end;
  mg_app_data_dictionary_updater := fun g => (tg_context g).2;
  mg_resolve_app_data_commit := fun _ _ m _ => Ok m;
  safe_export_secret := fun c '(g, p) => (ok_or tt (toy_secret (tg_context g) c), (g, p));
  safe_export_secret_from_pending := fun c '(g, p) =>
    (ok_or tt (sc ← tg_pending g; toy_secret (tc_context sc) c), (g, p));
  pm_safe_export_secret := fun c m => (ok_or tt (toy_secret (tc_context (toy_staged m)) c), m);
  sc_self_removed := fun _ => false;
  hash_length := fun _ => 32;
  mls_hkdf_expand := fun _ prk info _ => Some (prk ++ info);
  random_psk_nonce := fun _ p => (Ok [], p);
  random_group_id := fun p => ([Z.of_nat (length (tp_groups p))], p);
  delete_psk := fun k p => (Ok tt, {| tp_psks := filter (fun x : ApplicationPsk * bytes => x.1 <> k) (tp_psks p);
                                      tp_groups := tp_groups p |});
  psk_id_store := fun id key p => (Ok tt, {| tp_psks := (psk id, key) :: tp_psks p; tp_groups := tp_groups p |});
  commit_load_psks := fun c '(g, p) =>
    if toy_has_psks p (cc_proposals c) then (Ok (cc_adds c, cc_removals c), (g, p)) else (Err tt, (g, p));
  loaded_updater := fun _ => None;
  commit_build := fun b _ updates _ _ '(g, p) => (Ok (b, updates), (g, p));
  stage_commit := fun b '(g, p) =>
    let data := match b.2 with Some d => Some d | None => (tg_context g).2 end in
    let m := toy_message g b.1 data in
    let c := toy_next (tg_context g) data in
    let sc := {| tc_adds := tm_adds m; tc_updates := 0; tc_proposals := tm_proposals m; tc_path := tm_path m;
                 tc_external := false; tc_context := c |} in
    (Ok (m, c), ({| tg_context := tg_context g; tg_pending := Some sc |}, p));
  bundle_contents := fun b => (b.1, Some b.2, None);
  mg_merge_pending_commit := fun '(g, p) =>
    (Ok tt, ({| tg_context := match tg_pending g with Some sc => tc_context sc | None => tg_context g end;
                tg_pending := None |}, p));
  mg_merge_staged_commit := fun sc '(g, p) => (Ok tt, ({| tg_context := tc_context sc; tg_pending := None |}, p));
  mg_clear_pending_commit := fun '(g, p) => (Ok tt, ({| tg_context := tg_context g; tg_pending := None |}, p));
  vgi_group_context := fun c => c;
  external_build_group := fun _ c _ p => (Ok c, p);
  external_load_psks := fun c _ ps p => if toy_has_psks p ps then (Ok c, p) else (Err tt, p);
  external_updater := fun c => c.2;
  external_build := fun c _ updates _ p => (Ok (toy_next c updates), p);
  external_finalize := fun c p =>
    let g := {| tg_context := c; tg_pending := None |} in
    (Ok (g, (toy_message g ([], []) c.2, c)),
     {| tp_psks := tp_psks p; tp_groups := (c.1.1, g) :: tp_groups p |});
  welcome_ciphersuite := fun _ => 1;
  staged_welcome_new := fun _ w _ p => (Ok w, p);
  staged_welcome_into_group := fun w p => (Ok {| tg_context := w; tg_pending := None |}, p);
  leaf_extensions_valid := fun _ => true;
  mls_group_build := fun c _ _ p =>
    if decide (gb_ciphersuite c = 1)
    then (Ok {| tg_context := (gb_group_id c, 0, d ← ext_app_data_dictionary (gb_extensions c); d !! APQMLS_COMPONENT_ID);
                tg_pending := None |}, p)
    else (Err tt, p);
  mls_group_load := fun id p =>
    Ok (snd <$> head (filter (fun x : bytes * ToyClientGroup => x.1 = id) (tp_groups p)));
  mg_delete := fun '(g, p) =>
    (Ok tt, (g, {| tp_psks := tp_psks p;
                   tp_groups := filter (fun x : bytes * ToyClientGroup => x.1 <> (tg_context g).1.1) (tp_groups p) |}));
  key_package_build := fun _ _ _ leaf p => (Ok leaf, p);
  bundle_key_package := fun l => l;
  key_package_validate := Some;
  mg_member_at := fun _ _ => None;
  mg_export_ratchet_tree := fun _ => [];
  mg_export_group_info := fun _ _ _ => Err tt
|}.

#[export] Instance toy_client_laws : MlsClientLaws.
Proof.
  refine {| mg_pending := tg_pending; psk_lookup := toy_lookup;
    sc_exporter := fun sc => toy_secret (tc_context sc); mg_exporter := fun g => toy_secret (tg_context g);
    welcome_context := fun w => w; welcome_exporter := toy_secret;
    sw_context := fun w => w; sw_exporter := toy_secret |}.
  - intros [m|m] g p r g' p' Hp; cbn in Hp; [by injection Hp as <- <- <-|]. by case_decide; injection Hp as <- <- <-.
  - intros c g p r g' p' Hp. cbn in Hp. by destruct (toy_has_psks p (cc_proposals c)); injection Hp as <- <- <-.
  - intros b gi up s f g p r g' p' Hp. by injection Hp as <- <- <-.
  - intros b g p r g' p' Hp. by injection Hp as <- <- <-.
  - intros c g p r g' p' Hp. by injection Hp as <- <- <-.
  - intros c g p r g' p' Hp. by injection Hp as <- <- <-.
  - intros g p r g' p' Hp. by injection Hp as <- <- <-.
  - intros [m|m] g p pm g' p' pm' sc Hp; cbn in Hp; [done|]. case_decide as Hd; [|done]. injection Hp as -> <- <-.
    unfold resolve_app_data. cbn. intros Hr. assert (pm' = pm) as -> by (destruct (tm_type pm); by injection Hr).
    destruct (tm_type pm); try done. intros [= <-]. cbn.
    destruct Hd as [Hc Hb]. destruct (tm_context pm) as [[i e] a], (tg_context g) as [[i' e'] a']; cbn in *.
    injection Hc as -> ->. split_and!; [done|done|]. by rewrite wrap_u64_small.
  - intros c pm s pm' sc Hp Hsc. cbn in *. injection Hp as <- <-. destruct (tm_type pm); try done.
    injection Hsc as <-. split; [done|]. by exists (toy_staged pm).
  - intros c g p s g' p' Hp. cbn in Hp. destruct (tg_pending g) as [sc|] eqn:Ep; [|done]. injection Hp as <- <- <-.
    exists sc, sc. done.
  - intros c g p s g' p' Hp. injection Hp as <- <- <-. done.
  - intros c g p b g1 p1 comp data gi s f b2 g2 p2 bd g3 p3 Hl Hb Hs. cbn in *.
    destruct (toy_has_psks _ _); [|done]. injection Hl as <- <- <-. injection Hb as <- <- <-. injection Hs as <- <- <-.
    eexists. split; [done|]. done.
  - intros c g p b g1 p1 gi s f b2 g2 p2 bd g3 p3 Hl Hb Hs. cbn in *.
    destruct (toy_has_psks _ _); [|done]. injection Hl as <- <- <-. injection Hb as <- <- <-. injection Hs as <- <- <-.
    eexists. split; [done|]. done.
  - intros g p g' p' [= <- <-]. cbn. by destruct (tg_pending g).
  - intros sc g p g' p' [= <- <-]. done.
  - intros s p r p' [= <- <-]. done.
  - intros id key p p' [= <-]. unfold toy_lookup. cbn. by rewrite decide_True.
  - intros c w tree p sw p' [= <- <-]. done.
  - intros sw p g p' [= <- <-]. done.
  - intros c vgi cred p g p1 params ps b p2 comp data gi s b2 p3 r bd p4 Hg Hl Hb Hf. cbn in *.
    injection Hg as <- <-. destruct (toy_has_psks p ps); [|done]. injection Hl as <- <-. injection Hb as <- <-.
    injection Hf as <- <- <-. done.
  - intros c s cred p g p' Hb. cbn in Hb. case_decide; [|done]. by injection Hb as <- <-.
  - intros g p g' p' [= <- <-]. cbn. do 2 f_equal. induction (tp_groups p) as [|x l IH]; [done|].
    rewrite filter_cons. case_decide; [|done]. rewrite filter_cons. by rewrite decide_False.
Defined.
#[export] Instance toy_epoch_secrets : EpochSecrets toy_secret.
Proof. by split. Qed.

End ToyApq.

(** ** Evaluation *)

Section Evaluate_apq.
Import ToyApq.

Definition empty_provider : Provider := {| tp_psks := []; tp_groups := [] |} : ToyProvider.
Definition join_config : MlsGroupJoinConfig := tt.
Definition signers : ApqSigner := {| t_signer := tt : Signer; pq_signer := tt : Signer |}.
Definition alice_with_key : ApqCredentialWithKey :=
  {| t_credential := alice : CredentialWithKey; pq_credential := alice : CredentialWithKey |}.
Definition group_builder : GroupBuilder :=
  {| ab_t_settings := tt : GroupSettings; ab_pq_settings := tt : GroupSettings;
     ab_group_ids := Some {| t_group_id := [1]; pq_group_id := [2] |}; ab_mode := ConfOnly; ab_ciphersuite := None;
     ab_capabilities := default_capabilities; ab_t_extensions := no_extensions; ab_pq_extensions := no_extensions;
     ab_t_leaf_extensions := no_extensions; ab_pq_leaf_extensions := no_extensions |}.

(** The group that Alice creates. *)
Definition created : option ApqState :=
  match apq_group_build group_builder signers alice_with_key empty_provider with
  | (Ok g, p) => Some {| st_group := g; st_provider := p |}
  | _ => None
  end.
(** Her commit that adds Bob. *)
Definition add_bob_values : ConfigValues :=
  propose_adds [{| t_key_package := bob : KeyPackage; pq_key_package := bob : KeyPackage |}] config_default.
Definition all_proposals (_ : QueuedProposal) : bool := true.
Definition alice_commits (st : ApqState) := finalize add_bob_values signers all_proposals all_proposals st.
(** The commit pair and the welcome of a bundle. *)
Definition bundle_messages (b : ApqCommitMessageBundle) : ApqProtocolMessage :=
  {| ap_t := PublicMessage (out_t (acb_commit b) : PublicMessageIn);
     ap_pq := PublicMessage (out_pq (acb_commit b) : PublicMessageIn) |}.

(** Her update of the T group alone. *)
Definition config_plain : CommitConfig :=
  {| cc_consume_proposal_store := None; cc_force_self_update := Some true; cc_leaf_node_parameters := None;
     cc_proposals := []; cc_adds := []; cc_removals := [] |}.


(** Alice commits, Carol is in the group already and receives the commit, Bob joins. *)
Definition psk_run : option (ApqState * ApqCommitMessageBundle * ApqState * ApqProcessedMessage * ApqState * ApqMlsWelcome * (ApqMlsGroup * Provider)) :=
  match created with
  | Some st =>
      match alice_commits st with
      | (Ok b, st1) =>
          match apq_client_process_message (bundle_messages b) (fun _ _ => true) st, acb_welcome b with
          | (Ok pm, st3), Some w =>
              match new_from_welcome join_config w None empty_provider with
              | (Ok g, p') => Some (st, b, st1, pm, st3, w, (g, p'))
              | _ => None
              end
          | _, _ => None
          end
      | _ => None
      end
  | None => None
  end.

Lemma psk_agreement_witness :
  exists st b st1 pm st3 w g p' k key, psk_run = Some (st, b, st1, pm, st3, w, (g, p')) /\
    psk_lookup (st_provider st1) k = Some key /\ psk_lookup (st_provider st3) k = Some key /\
    psk_lookup p' k = Some key.
Proof.
  assert (match psk_run with
    | Some (st, b, st1, pm, st3, w, (g, p')) =>
        match into_staged_commit pm, mg_pending (pq_group (st_group st1)) with
        | Some sc, Some psc => bool_decide (sc_group_context (asc_pq sc) = sc_group_context psc) &&
            bool_decide (welcome_context (pq_welcome w) = sc_group_context psc)
        | _, _ => false end
    | None => false end = true) as Hc by (vm_compute; reflexivity).
  unfold psk_run in *. destruct created as [st|]; [|done].
  destruct (alice_commits st) as [[b|] st1] eqn:Ef; [|done].
  destruct (apq_client_process_message (bundle_messages b) (fun _ _ => true) st) as [[pm|] st3] eqn:Ep; [|done].
  destruct (acb_welcome b) as [w|] eqn:Ew; [|done].
  destruct (new_from_welcome join_config w None empty_provider) as [[g|] p'] eqn:Ej; [|done].
  destruct (into_staged_commit pm) as [sc|] eqn:Esc; [|done].
  destruct (mg_pending (pq_group (st_group st1))) as [psc|] eqn:Epsc; [|done].
  apply andb_true_iff in Hc as [C1%bool_decide_eq_true C2%bool_decide_eq_true].
  destruct (psk_agreement (H := toy_types) (epoch_secret := toy_secret) add_bob_values signers all_proposals all_proposals st b st1 psc
    (bundle_messages b) (fun _ _ => true) st pm st3 sc join_config w None empty_provider g p'
    Ef Epsc Ep Esc eq_refl Ej C1 C2 eq_refl eq_refl) as (k & key & _ & K1 & K2 & K3).
  exists st, b, st1, pm, st3, w, g, p', k, key. done.
Defined.

(** An external commit whose T leg fails: the PSK of the connection is not stored. *)
Definition info0 : ApqInfo := initial_info {| t_group_id := [1]; pq_group_id := [2] |} ConfOnly default_pq_conf.
Definition external_info : VerifiableApqGroupInfo :=
  {| vagi_t := ([1], 0, tls_serialize_detached info0) : VerifiableGroupInfo;
     vagi_pq := ([2], 0, tls_serialize_detached info0) : VerifiableGroupInfo |}.
Definition missing_psk : PreSharedKeyId :=
  {| psk := {| psk_component := 5; psk_identifier := [9] |}; psk_nonce := [] |}.
Definition external_builder : ApqExternalCommitBuilder :=
  {| eb_ratchet_tree := None; eb_proposals := []; eb_config := join_config; eb_skip_lifetimes := false;
     eb_aad := []; eb_leaf_node_parameters := None; eb_create_group_info := false;
     eb_t_psk_proposals := [missing_psk] |}.

Lemma external_commit_rolled_back_witness :
  exists e p', external_commit_build external_builder signers alice_with_key external_info empty_provider = (Err e, p') /\
    mls_group_load [2] p' = Ok None /\
    (p' = empty_provider \/
     (exists params comp, pq_leg external_builder signers alice_with_key external_info params comp empty_provider = (Err e, p')) \/
     exists params comp pq bundle p1,
       pq_leg external_builder signers alice_with_key external_info params comp empty_provider = (Ok (pq, bundle), p1)).
Proof.
  destruct (external_commit_build external_builder signers alice_with_key external_info empty_provider)
    as [[r|e] p'] eqn:Eb; [by vm_compute in Eb|].
  exists e, p'. split; [done|]. split; [vm_compute in Eb; injection Eb as <- <-; vm_compute; reflexivity|].
  destruct (external_commit_rolled_back _ _ _ _ _ _ _ Eb) as
    [?|[?|(params & comp & pq & bd & p1 & pq' & p2 & r & g & Hpq & _)]]; [by left|by right; left|].
  right; right. by exists params, comp, pq, bd, p1.
Defined.

(** A commit that fails in its T leg, since a PSK is missing, leaves the PQ commit
    pending; merging the pending commits then moves the PQ group alone. *)
Definition failing_values : ConfigValues := add_t_proposal (CommitPreSharedKey missing_psk) config_default.
Lemma failed_commit_tears :
  exists st e st1 st2, created = Some st /\
    finalize failing_values signers all_proposals all_proposals st = (Err e, st1) /\
    apq_merge_pending_commit st1 = (Ok tt, st2) /\ forall i, ~ linked (t_context st2) (pq_context st2) i.
Proof.
  eexists _, _, _, _. split; [vm_compute; reflexivity|]. split; [vm_compute; reflexivity|].
  split; [vm_compute; reflexivity|]. intros i [H1 H2 H3 H4 _ _ _ _]. vm_compute in H1, H2. congruence.
Qed.

End Evaluate_apq.
