(* ===== verification/DsState.v ===== *)
(** * The group state of the delivery service
      ([backend/src/ds/group_state/mod.rs], [common/src/time.rs])

    Per group, the delivery service keeps the mls-assist group with its storage,
    the room state and one profile per member.  The state is encrypted at rest
    under a key that only clients hold.  The room policy and the format of client
    credentials are external: [RoomPolicy] and [ClientCredentials]. *)

From stdpp Require Import sorting.
From S2P Require Import Prelude Aead MemoryProvider Messages Mls Apq.

(** ** Externals *)

(** Roles of [mimi_room_policy] that the delivery service assigns. *)
Inductive RoleIndex := RoleOutsider | RoleRegular.

(** [mimi_room_policy]: a room state is verified once, and changed by proposals
    of a sender that target a user with a role. *)
Class RoomPolicy := {
  RoomState : Type;
  VerifiedRoomState : Type;
  apply_change_role : VerifiedRoomState -> bytes -> bytes -> RoleIndex -> option VerifiedRoomState;
  room_verify : RoomState -> option VerifiedRoomState;
  room_unverified : VerifiedRoomState -> RoomState;
  fallback_room : list bytes -> VerifiedRoomState
}.
Class RoomPolicyLaws `{RoomPolicy} := {
  room_verify_unverified : forall r, room_verify (room_unverified r) = Some r
}.

(** Client credentials: the TLS codec of [ClientCredential] (the same for
    [VerifiableClientCredential]) and the fields the services read. *)
Class ClientCredentials `{OpenMls} := {
  ClientCredential : Type;
  #[global] client_credential_tls :: TlsCodec ClientCredential;
  credential_is_basic : Credential -> bool;
  cred_user_id : ClientCredential -> UserId;
  cred_verifying_key : ClientCredential -> bytes
}.

(** Keys and ciphertexts. *)
Abbreviation GroupStateEarKey := (list Z) (only parsing).
Abbreviation EncryptedUserProfileKey := AeadCiphertext (only parsing).
Abbreviation EncryptedDsGroupState := AeadCiphertext (only parsing).

(** ** Time *)

(** [TimeStamp::now]. *)
Definition timestamp_now {E} (now : nat -> TimeStamp) : M nat E TimeStamp :=
  t ← utc_now now; mret (round_subsecs t).

(** [TimeStamp::has_expired]. *)
Definition timestamp_has_expired {E} (now : nat -> TimeStamp) (t : TimeStamp) (expiration : Z) :
    M nat E bool :=
  n ← utc_now now; mret (t <=? n - expiration).

(** ** State *)

Record MemberProfile := {
  leaf_index : LeafNodeIndex;
  client_queue_config : QsReference;
  activity_time : TimeStamp;
  activity_epoch : GroupEpoch;
  encrypted_user_profile_key : EncryptedUserProfileKey
}.

(** [DsGroupState]; the crypto provider is its storage. *)
Record DsGroupState `{OpenMls, RoomPolicy} := {
  room_state : VerifiedRoomState;
  group : Group;
  provider : MlsAssistMemoryStorage;
  member_profiles : gmap LeafNodeIndex MemberProfile;
  proposals : list bytes
}.

(** A [BTreeMap] is iterated in the order of its keys; collecting into it keeps
    the last entry of a key. *)
Definition entry_le {V} (x y : Z * V) : Prop := x.1 <= y.1.
#[export] Instance entry_le_dec {V} : RelDecision (@entry_le V).
Proof. intros x y. unfold entry_le. apply _. Defined.
Definition btree_iter {V} (m : gmap Z V) : list (Z * V) := merge_sort entry_le (map_to_list m).
Definition btree_collect {V} (l : list (Z * V)) : gmap Z V := list_to_map (reverse l).

(** [SerializableDsGroupStateV1] and [V2], and [EncryptableDsGroupState]. *)
Record SerializableDsGroupStateV1 := {
  v1_group_id : GroupId;
  v1_serialized_provider : bytes;
  v1_room_state : bytes;
  v1_member_profiles : list (LeafNodeIndex * MemberProfile)
}.

Record SerializableDsGroupStateV2 := {
  v2_group_id : GroupId;
  v2_serialized_provider : bytes;
  v2_room_state : bytes;
  v2_member_profiles : list (LeafNodeIndex * MemberProfile);
  v2_proposals : list bytes
}.

Inductive EncryptableDsGroupState :=
| EncryptableV1 (s : SerializableDsGroupStateV1)
| EncryptableV2 (s : SerializableDsGroupStateV2).

Definition v2_of_v1 (v1 : SerializableDsGroupStateV1) : SerializableDsGroupStateV2 :=
  {| v2_group_id := v1_group_id v1; v2_serialized_provider := v1_serialized_provider v1;
     v2_room_state := v1_room_state v1; v2_member_profiles := v1_member_profiles v1;
     v2_proposals := [] |}.

Definition v2_of_encryptable (e : EncryptableDsGroupState) : SerializableDsGroupStateV2 :=
  match e with EncryptableV1 s => v2_of_v1 s | EncryptableV2 s => s end.

(** [DsGroupStateEncryptionError], and [DsGroupStateDecryptionError] with the
    [unwrap] of a group that is not in the storage. *)
Inductive DsGroupStateEncryptionError :=
| StateEncryption (e : EncryptionErr)
| StateSerialization (e : CodecError).
Inductive DsGroupStateDecryptionError :=
| StateDecryption (e : DecryptionErr)
| StateDeserialization (e : CodecError)
| StateWithoutGroup.

(** The component of the group context that marks a self group. *)
Record AirComponent := { air_features : bytes; is_self_group : bool }.

(** [AIR_COMPONENT_ID], [QS_CLIENT_REFERENCE_EXTENSION_TYPE], [USER_EXPIRATION_DAYS]. *)
Definition AIR_COMPONENT_ID : Z := 32768.
Definition QS_CLIENT_REFERENCE_EXTENSION_TYPE : Z := 65280.
Definition USER_EXPIRATION : Z := 90 * 86400 * 10 ^ 9.

Section State.
Context `{OpenMls, RoomPolicy} {Hcc : ClientCredentials}.
Context (now : nat -> TimeStamp).
Context `{Cbor GroupId, Cbor GroupInfo, Cbor (gmap GroupEpoch PastGroupState)}.
Context `{Cbor PublicGroupState, Cbor SerializableStorage, Cbor RoomState, Cbor AirComponent}.
Context `{TlsCodec UserId, TlsCodec EncryptableDsGroupState, Aes256Gcm}.

(** *** Field updates *)

Definition set_room_state (r : VerifiedRoomState) (s : DsGroupState) : DsGroupState :=
  {| room_state := r; group := group s; provider := provider s;
     member_profiles := member_profiles s; proposals := proposals s |}.
Definition set_group (g : Group) (st : MlsAssistMemoryStorage) (s : DsGroupState) : DsGroupState :=
  {| room_state := room_state s; group := g; provider := st;
     member_profiles := member_profiles s; proposals := proposals s |}.
Definition set_profiles (m : gmap LeafNodeIndex MemberProfile) (s : DsGroupState) : DsGroupState :=
  {| room_state := room_state s; group := group s; provider := provider s;
     member_profiles := m; proposals := proposals s |}.
Definition set_proposals (l : list bytes) (s : DsGroupState) : DsGroupState :=
  {| room_state := room_state s; group := group s; provider := provider s;
     member_profiles := member_profiles s; proposals := l |}.

(** *** [DsGroupState] *)

(** [DsGroupState::new]. *)
Definition ds_group_state_new {E} (st : MlsAssistMemoryStorage) (g : Group)
    (creator_key : EncryptedUserProfileKey) (creator_queue_config : QsReference)
    (room : VerifiedRoomState) : M nat E DsGroupState :=
  t ← timestamp_now now;
  mret {| room_state := room; group := g; provider := st;
          member_profiles := {[ 0 := {| leaf_index := 0; client_queue_config := creator_queue_config;
                                        activity_time := t; activity_epoch := 0;
                                        encrypted_user_profile_key := creator_key |} ]};
          proposals := [] |}.

(** [VerifiableClientCredential::from_basic_credential]. *)
Definition from_basic_credential (c : Credential) : option ClientCredential :=
  if credential_is_basic c then tls_deserialize_exact_bytes (serialized_content c) else None.

(** [room_state_change_role]. *)
Definition room_state_change_role (s : DsGroupState) (sender target : UserId) (role : RoleIndex) :
    option DsGroupState :=
  sender ← tls_serialize_detached sender;
  target ← tls_serialize_detached target;
  r ← apply_change_role (room_state s) sender target role;
  Some (set_room_state r s).

(** [leaf_credential]. *)
Definition leaf_credential (s : DsGroupState) (index : LeafNodeIndex) : option ClientCredential :=
  leaf ← group_leaf (group s) index; from_basic_credential (leaf_node_credential leaf).

(** [welcome_info]. *)
Definition welcome_info (s : DsGroupState) (epoch : GroupEpoch) (sender : SignaturePublicKey) :
    option RatchetTree :=
  past_group_state (group s) epoch sender.

(** [encrypted_user_profile_keys]. *)
Definition encrypted_user_profile_keys (s : DsGroupState) : list EncryptedUserProfileKey :=
  map (fun x => encrypted_user_profile_key x.2) (btree_iter (member_profiles s)).

(** [ExternalCommitInfo] and [external_commit_info]. *)
Record ExternalCommitInfo := {
  eci_group_info : GroupInfo;
  eci_ratchet_tree : RatchetTree;
  eci_user_profile_keys : list EncryptedUserProfileKey;
  eci_room_state : VerifiedRoomState;
  eci_proposals : list bytes
}.
Definition external_commit_info (s : DsGroupState) : ExternalCommitInfo :=
  {| eci_group_info := group_info (group s);
     eci_ratchet_tree := pg_export_ratchet_tree (public_group (group s));
     eci_user_profile_keys := encrypted_user_profile_keys s;
     eci_room_state := room_state s; eci_proposals := proposals s |}.

(** [destination_clients], [other_destination_clients], [qs_client_ref_by_index]. *)
Definition destination_clients (s : DsGroupState) : list QsReference :=
  map (fun x => client_queue_config x.2) (btree_iter (member_profiles s)).
Definition other_destination_clients (s : DsGroupState) (sender_index : LeafNodeIndex) :
    list QsReference :=
  omap (fun x => if decide (x.1 <> sender_index) then Some (client_queue_config x.2) else None)
    (btree_iter (member_profiles s)).
Definition qs_client_ref_by_index (s : DsGroupState) (i : LeafNodeIndex) : option QsReference :=
  client_queue_config <$> member_profiles s !! i.

(** [broadcast_to_all_client_queues]. *)
Definition broadcast_to_all (s : DsGroupState) : bool :=
  let component :=
    data ← gc_app_data (gi_group_context (group_info (group s))) AIR_COMPONENT_ID;
    ok (from_slice (T := AirComponent) data) in
  negb (match component with Some c => is_self_group c | None => false end).

(** *** Persistence *)

(** [SerializableDsGroupStateV2::from_group_state]. *)
Definition from_group_state (s : DsGroupState) : Result CodecError SerializableDsGroupStateV2 :=
  sp ← storage_serialize (provider s);
  rs ← to_vec (room_unverified (room_state s));
  Ok {| v2_group_id := gc_group_id (gi_group_context (group_info (group s)));
        v2_serialized_provider := sp; v2_room_state := rs;
        v2_member_profiles := btree_iter (member_profiles s); v2_proposals := proposals s |}.

(** [fallback_room_state]. *)
Definition fallback_room_state (members : list Member) : VerifiedRoomState :=
  fallback_room
    (omap (fun m => c ← from_basic_credential (member_credential m);
                    tls_serialize_detached (cred_user_id c)) members).

(** [SerializableDsGroupStateV2::into_group_state]. *)
Definition into_group_state (d : SerializableDsGroupStateV2) :
    Result DsGroupStateDecryptionError DsGroupState :=
  st ← map_err StateDeserialization (storage_deserialize (v2_serialized_provider d));
  g ← map_err StateDeserialization (group_load st (v2_group_id d));
  g ← ok_or StateWithoutGroup g;
  let room := default (fallback_room_state (members g))
                (ok (from_slice (T := RoomState) (v2_room_state d)) ≫= room_verify) in
  Ok {| room_state := room; group := g; provider := st;
        member_profiles := btree_collect (v2_member_profiles d); proposals := v2_proposals d |}.

(** [DsGroupState::encrypt] and [DsGroupState::decrypt]. *)
Definition ds_encrypt (s : DsGroupState) (ear_key : GroupStateEarKey)
    (rnd : Result RandomnessErr bytes) : Result DsGroupStateEncryptionError EncryptedDsGroupState :=
  v2 ← map_err StateSerialization (from_group_state s);
  map_err StateEncryption (encrypt (EncryptableV2 v2) ear_key rnd).

Definition ds_decrypt (ct : EncryptedDsGroupState) (ear_key : GroupStateEarKey) :
    Result DsGroupStateDecryptionError DsGroupState :=
  e ← map_err StateDecryption (decrypt (T := EncryptableDsGroupState) ear_key ct);
  into_group_state (v2_of_encryptable e).

End State.

(** [DsGroupState::is_apq]. *)
Definition is_apq `{Apqmls} `{RoomPolicy} (s : DsGroupState) : bool :=
  match apq_info_from_extensions (gi_group_context (group_info (group s))) with
  | Ok (Some _) => true
  | _ => false
  end.
