(* ===== verification/DsStateCorrect.v ===== *)
(** * Correctness of the stored group state

    What the delivery service encrypts and stores is what it loads again. *)

From stdpp Require Import sorting.
From S2P Require Import Prelude Aead MemoryProvider Messages Mls MlsExample MlsCorrect Apq DsState.

(** ** Ordered maps *)

Lemma btree_iter_perm {V} (m : gmap Z V) : btree_iter m ≡ₚ map_to_list m.
Proof. apply merge_sort_Permutation. Qed.

Lemma elem_of_btree_iter {V} (m : gmap Z V) i v : (i, v) ∈ btree_iter m <-> m !! i = Some v.
Proof. by rewrite btree_iter_perm, elem_of_map_to_list. Qed.

Lemma btree_collect_iter {V} (m : gmap Z V) : btree_collect (btree_iter m) = m.
Proof.
  unfold btree_collect. rewrite <- (list_to_map_to_list m) at 2.
  apply list_to_map_proper; [|by rewrite reverse_Permutation, btree_iter_perm].
  rewrite fmap_reverse, reverse_Permutation, btree_iter_perm. apply NoDup_fst_map_to_list.
Qed.

Section State.
Context `{OpenMlsLaws, RoomPolicyLaws} {Hcc : ClientCredentials}.
Context `{CborLaws GroupId, CborLaws GroupInfo, CborLaws (gmap GroupEpoch PastGroupState)}.
Context `{CborLaws PublicGroupState, CborLaws SerializableStorage, CborLaws RoomState}.
Context `{TlsCodec UserId, TlsCodecLaws EncryptableDsGroupState, Aes256GcmLaws}.

(** C25. What the delivery service encrypts under a group's key, it decrypts to the
    same state under that key: room state, profiles, pending proposals, storage
    and (up to what no accessor observes) the group. *)
Theorem ds_state_roundtrip s ear_key rnd ct :
  synced (group s) (provider s) ->
  ds_encrypt s ear_key rnd = Ok ct ->
  exists s', ds_decrypt ct ear_key = Ok s' /\
    room_state s' = room_state s /\ provider s' = provider s /\
    member_profiles s' = member_profiles s /\ proposals s' = proposals s /\
    group_equiv (group s') (group s).
Proof.
  intros (g & Hl & Hg) He. unfold ds_encrypt in He. inv_ok.
  unfold ds_decrypt. rewrite (decrypt_encrypt _ _ _ _ He). cbn [map_err mbind Result_bind v2_of_encryptable].
  unfold from_group_state in Hm. apply Result_bind_Ok in Hm as (sp & Hsp & Hm).
  apply Result_bind_Ok in Hm as (rs & Hrs & Hm). apply (inj Ok) in Hm as <-.
  unfold into_group_state. cbn [v2_serialized_provider v2_group_id v2_room_state v2_member_profiles v2_proposals].
  rewrite (storage_deserialize_serialize _ _ Hsp). cbn [map_err mbind Result_bind].
  unfold group_id_of in Hl. rewrite Hl. cbn [map_err mbind Result_bind ok_or].
  rewrite (from_slice_to_vec _ _ Hrs). cbn [ok mbind option_bind]. rewrite room_verify_unverified.
  eexists. split; [reflexivity|]. cbn. rewrite btree_collect_iter. auto.
Qed.

(** States written by the first version of the format are read with no pending
    proposals. *)
Lemma ds_decrypt_v1 (v1 : SerializableDsGroupStateV1) ear_key rnd ct s :
  encrypt (EncryptableV1 v1) ear_key rnd = Ok ct -> ds_decrypt ct ear_key = Ok s ->
  proposals s = [] /\ member_profiles s = btree_collect (v1_member_profiles v1).
Proof.
  intros He Hd. unfold ds_decrypt in Hd. rewrite (decrypt_encrypt _ _ _ _ He) in Hd.
  cbn [map_err mbind Result_bind v2_of_encryptable v2_of_v1] in Hd.
  unfold into_group_state in Hd. inv_ok. done.
Qed.

End State.
