(* ===== verification/DsOps.v ===== *)
(** * The operations of the delivery service on a group state
      ([backend/src/ds/group_operation.rs], [resync.rs], [self_remove.rs],
      [delete_group.rs], [join_connection_group.rs], [update_user_profile_key.rs])

    Each operation takes a group state and gives the new one with its result; a
    caller drops the state when an operation fails.  Clock readings are threaded
    through. *)

From stdpp Require Import sorting.
From S2P Require Import Prelude Aead MemoryProvider Messages Mls Apq DsState.

(** ** Externals *)

(** Welcome messages of OpenMLS, with the key package references of their
    secrets, and HPKE sealing (public key, info, associated data, plaintext). *)
Class Welcomes := {
  Welcome : Type;
  welcome_joiners : Welcome -> list KeyPackageRef;
  hpke_seal : bytes -> bytes -> bytes -> bytes -> bytes
}.

(** ** Messages ([common/src/messages/client_ds.rs]) *)

Abbreviation EncryptedWelcomeAttributionInfo := AeadCiphertext (only parsing).

Record GroupOperationParamsAad := {
  new_encrypted_user_profile_keys : list EncryptedUserProfileKey
}.
Record JoinConnectionGroupParamsAad := {
  encrypted_friendship_package : AeadCiphertext;
  aad_user_profile_key : EncryptedUserProfileKey
}.
Inductive AadPayload :=
| AadGroupOperation (a : GroupOperationParamsAad)
| AadJoinConnectionGroup (a : JoinConnectionGroupParamsAad)
| AadResync
| AadDeleteGroup.
Record AadMessage := { aad_version : Z; aad_payload : AadPayload }.

Record AddUsersInfo `{Welcomes} := {
  aui_welcome : Welcome;
  encrypted_welcome_attribution_infos : list EncryptedWelcomeAttributionInfo
}.

Record WelcomeBundle `{Welcomes} := {
  wb_welcome : Welcome;
  wb_attribution_info : EncryptedWelcomeAttributionInfo;
  wb_joiner_info : bytes
}.
Record ApqWelcomeBundle `{Welcomes} := {
  awb_welcome : Welcome * Welcome;
  awb_attribution_info : EncryptedWelcomeAttributionInfo;
  awb_joiner_info : bytes
}.
Record DsCommitResponse := {
  cr_group_id : GroupId; cr_epoch : GroupEpoch; cr_timestamp : TimeStamp
}.
(** [DsJoinerInformation]: the key the state is encrypted under. *)
Record DsJoinerInformation := { ji_ear_key : GroupStateEarKey }.

Record GroupOperationParams `{OpenMls, Welcomes} := {
  go_commit : AssistedMessageIn;
  add_users_info_option : option AddUsersInfo
}.
Record JoinConnectionGroupParams `{OpenMls} := {
  jc_external_commit : AssistedMessageIn;
  jc_qs_client_reference : QsReference
}.

(** ** Errors ([backend/src/errors/mod.rs]) *)

Inductive GroupOperationError :=
| GoLibraryError | GoInvalidMessage | GoWrongEpoch | GoProcessingError
| GoMissingQueueConfig | GoIncompleteWelcome | GoMergeCommitError (e : MergeCommitError).
Inductive JoinConnectionGroupError :=
| JcInvalidMessage | JcProcessingError | JcNotAConnectionGroup
| JcMergeCommitError (e : MergeCommitError).
Inductive GroupDeletionError :=
| GdInvalidMessage | GdProcessingError | GdMergeCommitError (e : MergeCommitError).
Inductive ClientSelfRemovalError :=
| SrInvalidMessage | SrProcessingError | SrWrongEpoch | SrMergeCommitError (e : MergeCommitError).
Inductive ResyncClientError :=
| RcInvalidMessage | RcProcessingError | RcMergeCommitError (e : MergeCommitError).
Inductive UpdateUserProfileKeyError := UpkUnknownSender.

(** [From<ProcessAssistedMessageError> for GroupOperationError]. *)
Definition go_of_process_error (e : ProcessAssistedMessageError) : GroupOperationError :=
  match e with
  | InvalidAssistedMessage | GroupInfoValidation _ => GoInvalidMessage
  | ProcessLibraryError _ => GoProcessingError
  | ProcessMessageError (ProcessValidationError ValidationLibraryError) => GoProcessingError
  | ProcessMessageError (ProcessValidationError WrongEpoch) => GoWrongEpoch
  | ProcessMessageError (ProcessValidationError ValidationOther) => GoInvalidMessage
  | ProcessMessageError ProcessOther => GoProcessingError
  | AppDataUpdate _ => GoProcessingError
  end.

(** [From<ProcessApqAssistedMessageError> for GroupOperationError]. *)
Definition go_of_apq_error (e : ProcessApqAssistedMessageError) : GroupOperationError :=
  match e with
  | ApqInvalidAssistedMessage | ApqGroupInfoValidation _ => GoInvalidMessage
  | ApqLibraryError _ => GoProcessingError
  | ApqProcessMessageError (ApqValidation _) => GoInvalidMessage
  | ApqProcessMessageError (ApqProcessing (ProcessValidationError WrongEpoch)) => GoWrongEpoch
  | ApqProcessMessageError (ApqProcessing (ProcessValidationError ValidationLibraryError)) =>
      GoProcessingError
  | ApqProcessMessageError (ApqProcessing _) => GoInvalidMessage
  | ApqProcessMessageError ApqAppDataUpdate => GoProcessingError
  end.

(** [From<ProcessAssistedMessageError> for ClientSelfRemovalError]. *)
Definition sr_of_process_error (e : ProcessAssistedMessageError) : ClientSelfRemovalError :=
  match e with
  | InvalidAssistedMessage | GroupInfoValidation _ => SrInvalidMessage
  | ProcessLibraryError _ => SrProcessingError
  | ProcessMessageError (ProcessValidationError ValidationLibraryError) => SrProcessingError
  | ProcessMessageError (ProcessValidationError WrongEpoch) => SrWrongEpoch
  | ProcessMessageError (ProcessValidationError ValidationOther) => SrInvalidMessage
  | ProcessMessageError ProcessOther => SrProcessingError
  | AppDataUpdate _ => SrProcessingError
  end.

(** ** Group operations *)

Inductive SenderIndex := IndexMember (i : LeafNodeIndex) | IndexExternal (i : LeafNodeIndex).
Definition sender_leaf_index (s : SenderIndex) : LeafNodeIndex :=
  match s with IndexMember i | IndexExternal i => i end.

(** [AddUsersState]: per added client its key package, encrypted user profile key
    and attribution info, and the welcome. *)
Record AddUsersState `{OpenMls, Welcomes} := {
  added_users : list (KeyPackage * EncryptedUserProfileKey * EncryptedWelcomeAttributionInfo);
  aus_welcome : Welcome
}.

Record TCommitValidation `{OpenMls, Welcomes} := {
  tcv_sender_index : SenderIndex;
  tcv_added_users_state : option AddUsersState;
  tcv_external_sender : option (EncryptedUserProfileKey * QsReference);
  tcv_removed_clients : list LeafNodeIndex
}.

Section Ops.
Context `{OpenMls} {Happ : Apqmls} {Hcc : ClientCredentials} `{RoomPolicy, Welcomes}.
Context (now : nat -> TimeStamp).
Context `{Cbor GroupId, Cbor GroupInfo, Cbor (gmap GroupEpoch PastGroupState), Cbor AirComponent}.
Context `{TlsCodec UserId, TlsCodec AadMessage, TlsCodec QsReference, TlsCodec WelcomeBundle,
          TlsCodec ApqWelcomeBundle, TlsCodec DsCommitResponse, TlsCodec DsJoinerInformation}.

(** *** Validation of a commit *)

(** The closure of [validate_welcome_only]: each added key package takes its
    reference out of the remaining welcomes. *)
Fixpoint take_welcomes (remaining : gset KeyPackageRef) (adds : list KeyPackage) :
    option (gset KeyPackageRef) :=
  match adds with
  | [] => Some remaining
  | kp :: adds =>
      r ← kp_hash_ref kp;
      if decide (r ∈ remaining) then take_welcomes (remaining ∖ {[r]}) adds else None
  end.

(** [validate_welcome_only]. *)
Definition validate_welcome_only (sc : StagedCommit) (w : Welcome) :
    Result GroupOperationError unit :=
  match take_welcomes (list_to_set (welcome_joiners w)) (sc_add_proposals sc) with
  | None => Err GoIncompleteWelcome
  | Some remaining => if decide (remaining = ∅) then Ok tt else Err GoIncompleteWelcome
  end.

(** [validate_added_users]. *)
Definition validate_added_users (sc : StagedCommit) (aad : GroupOperationParamsAad)
    (info : AddUsersInfo) : Result GroupOperationError AddUsersState :=
  let number_of_added_users := length (sc_add_proposals sc) in
  if decide (length (encrypted_welcome_attribution_infos info) <> number_of_added_users)
  then Err GoInvalidMessage
  else
    _ ← validate_welcome_only sc (aui_welcome info);
    Ok {| added_users := zip (zip (sc_add_proposals sc) (new_encrypted_user_profile_keys aad))
                           (encrypted_welcome_attribution_infos info);
          aus_welcome := aui_welcome info |}.

(** The loop over the added users: credentials, agreement of the T and PQ
    signature keys, and the room role; the PQ key packages not consumed are
    returned. *)
Fixpoint validate_added_loop (s : DsGroupState) (sender : UserId)
    (added : list (KeyPackage * EncryptedUserProfileKey * EncryptedWelcomeAttributionInfo))
    (pq_adds : option (list KeyPackage)) :
    Result GroupOperationError (DsGroupState * option (list KeyPackage)) :=
  match added with
  | [] => Ok (s, pq_adds)
  | (kp, _, _) :: added =>
      credential ← ok_or GoInvalidMessage
                     (from_basic_credential (leaf_node_credential (kp_leaf_node kp)));
      pq_adds' ← match pq_adds with
                 | None => Ok None
                 | Some [] => Err GoInvalidMessage
                 | Some (pq_kp :: pq_rest) =>
                     if decide (leaf_signature_key (kp_leaf_node kp)
                                = leaf_signature_key (kp_leaf_node pq_kp))
                     then Ok (Some pq_rest) else Err GoInvalidMessage
                 end;
      s' ← ok_or GoInvalidMessage
             (room_state_change_role s sender (cred_user_id credential) RoleRegular);
      validate_added_loop s' sender added pq_adds'
  end.

(** The queue reference extension of a leaf. *)
Definition queue_extension (leaf : LeafNode) : option bytes :=
  head (omap (fun e => match e with
                       | ExtensionUnknown t data =>
                           if decide (t = QS_CLIENT_REFERENCE_EXTENSION_TYPE) then Some data else None
                       | ExtensionOther => None
                       end) (leaf_extensions leaf)).

(** The sender of a group operation: a member, or a client that resyncs. *)
Definition operation_sender (sender : Sender) (sc : StagedCommit) :
    Result GroupOperationError SenderIndex :=
  match sender with
  | SenderMember i => Ok (IndexMember i)
  | NewMemberCommit =>
      match sc_remove_proposals sc with
      | [] => Err GoInvalidMessage
      | removed :: _ => Ok (IndexExternal removed)
      end
  | SenderExternal _ | NewMemberProposal => Err GoInvalidMessage
  end.

(** The profile key and queue reference of a client that resyncs. *)
Definition external_sender_information (s : DsGroupState) (sc : StagedCommit) (i : SenderIndex) :
    Result GroupOperationError (option (EncryptedUserProfileKey * QsReference)) :=
  match i with
  | IndexMember _ => Ok None
  | IndexExternal original =>
      if decide (sc_remove_proposals sc = []) then Err GoInvalidMessage
      else
        profile ← ok_or GoInvalidMessage (member_profiles s !! original);
        leaf ← ok_or GoInvalidMessage (sc_update_path_leaf_node sc);
        data ← ok_or GoInvalidMessage (queue_extension leaf);
        qs_ref ← ok_or GoInvalidMessage (tls_deserialize_exact_bytes (T := QsReference) data);
        Ok (Some (encrypted_user_profile_key profile, qs_ref))
  end.

(** The loop over the removed clients: nobody removes itself, the T and PQ leaves
    have the same signature key, and the removed user becomes an outsider. *)
Definition validate_removed (sender_index : SenderIndex) (sender : UserId)
    (pq_group_state : option DsGroupState) (s : DsGroupState) (removed : LeafNodeIndex) :
    Result GroupOperationError DsGroupState :=
  if decide (removed = sender_leaf_index sender_index) then Err GoInvalidMessage
  else
    leaf ← ok_or GoInvalidMessage (group_leaf (group s) removed);
    _ ← match pq_group_state with
        | None => Ok tt
        | Some pq =>
            pq_leaf ← ok_or GoInvalidMessage (group_leaf (group pq) removed);
            if decide (leaf_signature_key leaf = leaf_signature_key pq_leaf) then Ok tt
            else Err GoInvalidMessage
        end;
    credential ← ok_or GoInvalidMessage (from_basic_credential (leaf_node_credential leaf));
    ok_or GoInvalidMessage
      (room_state_change_role s sender (cred_user_id credential) RoleOutsider).

(** The part of [validate_t_commit] that concerns added users. *)
Definition validate_adds (s : DsGroupState) (sender : UserId) (sc : StagedCommit)
    (aad : GroupOperationParamsAad) (add_users_info : option AddUsersInfo)
    (pq_staged_commit : option StagedCommit) :
    Result GroupOperationError (DsGroupState * option AddUsersState) :=
  match sc_add_proposals sc with
  | [] => Ok (s, None)
  | _ =>
      info ← ok_or GoInvalidMessage add_users_info;
      aus ← validate_added_users sc aad info;
      r ← validate_added_loop s sender (added_users aus) (sc_add_proposals <$> pq_staged_commit);
      match r.2 with
      | Some (_ :: _) => Err GoInvalidMessage
      | _ => Ok (r.1, Some aus)
      end
  end.

(** [validate_t_commit]. *)
Definition validate_t_commit (s : DsGroupState) (pm : ProcessedMessage)
    (add_users_info : option AddUsersInfo) (pq_group_state : option DsGroupState)
    (pq_staged_commit : option StagedCommit) :
    Result GroupOperationError (TCommitValidation * DsGroupState) :=
  aad ← ok_or GoInvalidMessage (tls_deserialize_exact_bytes (T := AadMessage) (pm_aad pm));
  match aad_payload aad, pm_content pm with
  | AadGroupOperation aad, StagedCommitMessage sc =>
      sender_index ← operation_sender (pm_sender pm) sc;
      sender ← ok_or GoInvalidMessage (leaf_credential s (sender_leaf_index sender_index));
      r ← validate_adds s (cred_user_id sender) sc aad add_users_info pq_staged_commit;
      external ← external_sender_information r.1 sc sender_index;
      let removed := removed_clients sc in
      s' ← foldM (validate_removed sender_index (cred_user_id sender) pq_group_state) r.1 removed;
      Ok ({| tcv_sender_index := sender_index; tcv_added_users_state := r.2;
             tcv_external_sender := external; tcv_removed_clients := removed |}, s')
  | _, _ => Err GoInvalidMessage
  end.

(** *** Profiles *)

(** The queue reference of a key package. *)
Definition kp_queue_config (kp : KeyPackage) : Result GroupOperationError QsReference :=
  data ← ok_or GoMissingQueueConfig (queue_extension (kp_leaf_node kp));
  ok_or GoMissingQueueConfig (tls_deserialize_exact_bytes (T := QsReference) data).

(** The profile that [update_membership_profiles] makes for an added client. *)
Definition added_profile (s : DsGroupState) (kp : KeyPackage) (key : EncryptedUserProfileKey) :
    M nat GroupOperationError MemberProfile :=
  m ← lift (ok_or GoInvalidMessage
        (list_find (fun m => member_signature_key m = leaf_signature_key (kp_leaf_node kp))
           (members (group s))));
  config ← lift (kp_queue_config kp);
  t ← timestamp_now now;
  mret {| leaf_index := member_index m.2; client_queue_config := config; activity_time := t;
          activity_epoch := group_epoch (group s); encrypted_user_profile_key := key |}.

Fixpoint added_profiles (s : DsGroupState)
    (added : list (KeyPackage * EncryptedUserProfileKey * EncryptedWelcomeAttributionInfo)) :
    M nat GroupOperationError (list MemberProfile) :=
  match added with
  | [] => mret []
  | (kp, key, _) :: added =>
      p ← added_profile s kp key;
      ps ← added_profiles s added;
      mret (p :: ps)
  end.

(** [update_membership_profiles]. *)
Definition update_membership_profiles (s : DsGroupState)
    (added : list (KeyPackage * EncryptedUserProfileKey * EncryptedWelcomeAttributionInfo)) :
    M nat GroupOperationError DsGroupState :=
  ps ← added_profiles s added;
  mret (set_profiles (foldl (fun m p => <[leaf_index p := p]> m) (member_profiles s) ps) s).

(** [remove_profiles]. *)
Definition remove_profiles (s : DsGroupState) (removed : list LeafNodeIndex) : DsGroupState :=
  set_profiles (foldl (fun m i => delete i m) (member_profiles s) removed) s.

(** What [process_group_operation] and [process_apq_group_operation] do to the T
    group state after the commit was accepted. *)
Definition apply_validation (s : DsGroupState) (v : TCommitValidation) :
    M nat GroupOperationError DsGroupState :=
  let s := remove_profiles s (tcv_removed_clients v) in
  s ← match tcv_added_users_state v with
      | Some aus => update_membership_profiles s (added_users aus)
      | None => mret s
      end;
  match tcv_external_sender v with
  | Some (key, config) =>
      t ← timestamp_now now;
      let i := sender_leaf_index (tcv_sender_index v) in
      mret (set_profiles (<[i := {| leaf_index := i; client_queue_config := config;
                                    activity_time := t; activity_epoch := group_epoch (group s);
                                    encrypted_user_profile_key := key |}]> (member_profiles s)) s)
  | None => mret s
  end.

(** [process_group_operation]. *)
Definition process_group_operation (s : DsGroupState) (params : GroupOperationParams) :
    M nat GroupOperationError (SerializedMlsMessage * option AddUsersState * DsGroupState) :=
  p ← lift (map_err go_of_process_error (process_assisted_message (group s) (go_commit params)));
  match processed_assisted_message p with
  | Commit pm _ =>
      r ← lift (validate_t_commit s pm (add_users_info_option params) None None);
      let '(v, s) := r in
      a ← map_errM GoMergeCommitError
            (accept_processed_message now (group s) (provider s) (processed_assisted_message p)
               USER_EXPIRATION);
      s ← apply_validation (set_group a.1 a.2 s) v;
      mret (plus_serialized p, tcv_added_users_state v, s)
  | _ => throw GoInvalidMessage
  end.

(** *** Fan-out messages *)

(** [TryFrom<WelcomeBundle>], [TryFrom<ApqWelcomeBundle>] and
    [ds_commit_response] of [QsQueueMessagePayload]. *)
Definition queue_payload {T} `{TlsCodec T} (ty : QsQueueMessageType) (x : T) :
    M nat GroupOperationError QsQueueMessagePayload :=
  bs ← lift (ok_or GoLibraryError (tls_serialize_detached x));
  t ← timestamp_now now;
  mret {| timestamp := t; message_type := ty; payload := bs |}.

(** [HpkeEncryptable::encrypt] of the joiner information. *)
Definition encrypt_joiner_info (kp : KeyPackage) (ear_key : GroupStateEarKey) : bytes :=
  hpke_seal (kp_hpke_init_key kp) [] []
    (default [] (tls_serialize_detached {| ji_ear_key := ear_key |})).

(** One message of [generate_fan_out_messages]. *)
Definition welcome_fan_out (s : DsGroupState) (ear_key : GroupStateEarKey) (w : Welcome)
    (x : KeyPackage * EncryptedUserProfileKey * EncryptedWelcomeAttributionInfo) :
    M nat GroupOperationError DsFanOutMessage :=
  let '(kp, _, attribution) := x in
  config ← lift (kp_queue_config kp);
  m ← queue_payload WelcomeBundleType
        {| wb_welcome := w; wb_attribution_info := attribution;
           wb_joiner_info := encrypt_joiner_info kp ear_key |};
  mret {| fo_payload := FanOutQueueMessage m; client_reference := config;
          suppress_notifications := false;
          broadcast_to_all_client_queues := broadcast_to_all s |}.

(** One message of [generate_apq_fan_out_messages]. *)
Definition apq_welcome_fan_out (s : DsGroupState) (ear_key : GroupStateEarKey) (t_w pq_w : Welcome)
    (x : KeyPackage * EncryptedUserProfileKey * EncryptedWelcomeAttributionInfo) :
    M nat GroupOperationError DsFanOutMessage :=
  let '(kp, _, attribution) := x in
  config ← lift (kp_queue_config kp);
  m ← queue_payload ApqWelcomeBundleType
        {| awb_welcome := (t_w, pq_w); awb_attribution_info := attribution;
           awb_joiner_info := encrypt_joiner_info kp ear_key |};
  mret {| fo_payload := FanOutQueueMessage m; client_reference := config;
          suppress_notifications := false;
          broadcast_to_all_client_queues := broadcast_to_all s |}.

(** A loop that collects its results. *)
Fixpoint collectM {A B} (f : A -> M nat GroupOperationError B) (l : list A) :
    M nat GroupOperationError (list B) :=
  match l with
  | [] => mret []
  | a :: l => b ← f a; bs ← collectM f l; mret (b :: bs)
  end.

Definition generate_fan_out_messages (s : DsGroupState)
    (added : list (KeyPackage * EncryptedUserProfileKey * EncryptedWelcomeAttributionInfo))
    (ear_key : GroupStateEarKey) (w : Welcome) : M nat GroupOperationError (list DsFanOutMessage) :=
  collectM (welcome_fan_out s ear_key w) added.

Definition generate_apq_fan_out_messages (s : DsGroupState)
    (added : list (KeyPackage * EncryptedUserProfileKey * EncryptedWelcomeAttributionInfo))
    (t_w pq_w : Welcome) (ear_key : GroupStateEarKey) :
    M nat GroupOperationError (list DsFanOutMessage) :=
  collectM (apq_welcome_fan_out s ear_key t_w pq_w) added.

(** [group_operation]. *)
Definition group_operation (s : DsGroupState) (params : GroupOperationParams)
    (ear_key : GroupStateEarKey) :
    M nat GroupOperationError (SerializedMlsMessage * list DsFanOutMessage * DsGroupState) :=
  r ← process_group_operation s params;
  let '(serialized, aus, s) := r in
  ms ← match aus with
       | Some aus => generate_fan_out_messages s (added_users aus) ear_key (aus_welcome aus)
       | None => mret []
       end;
  mret (serialized, ms, s).

(** [create_commit_response]; the epoch is a [u64]. *)
Definition create_commit_response (s : DsGroupState) (sender_index : LeafNodeIndex)
    (t : TimeStamp) : M nat GroupOperationError DsFanOutMessage :=
  m ← queue_payload DsResponseType
        {| cr_group_id := gc_group_id (gi_group_context (group_info (group s)));
           cr_epoch := wrap_u64 (group_epoch (group s) - 1); cr_timestamp := t |};
  profile ← lift (ok_or GoInvalidMessage (member_profiles s !! sender_index));
  mret {| fo_payload := FanOutQueueMessage m; client_reference := client_queue_config profile;
          suppress_notifications := true;
          broadcast_to_all_client_queues := broadcast_to_all s |}.

(** ** Resync *)

(** [change_removed_roles_to_outsider]. *)
Definition change_removed_roles_to_outsider (s : DsGroupState) (sender : ClientCredential)
    (removed : list LeafNodeIndex) : Result ResyncClientError DsGroupState :=
  foldM (fun s i =>
           credential ← ok_or RcInvalidMessage (leaf_credential s i);
           ok_or RcInvalidMessage
             (room_state_change_role s (cred_user_id sender) (cred_user_id credential) RoleOutsider))
    s removed.

(** [rekey_sender_profile]. *)
Definition rekey_sender_profile (s : DsGroupState) (old_index new_index : LeafNodeIndex) :
    DsGroupState :=
  if decide (new_index = old_index) then s
  else match member_profiles s !! old_index with
       | Some p =>
           set_profiles
             (<[new_index := {| leaf_index := new_index;
                                client_queue_config := client_queue_config p;
                                activity_time := activity_time p;
                                activity_epoch := activity_epoch p;
                                encrypted_user_profile_key := encrypted_user_profile_key p |}]>
                (delete old_index (member_profiles s))) s
       | None => s
       end.

(** [Vec::swap_remove] at the position of an element. *)
Definition swap_remove (pos : nat) (l : list LeafNodeIndex) : list LeafNodeIndex :=
  match last l with
  | Some x => take (length l - 1) (<[pos := x]> l)
  | None => l
  end.
Definition position (i : LeafNodeIndex) (l : list LeafNodeIndex) : option nat :=
  fst <$> list_find (fun j => j = i) l.

(** [resync_client]. *)
Definition resync_client (s : DsGroupState) (external_commit : AssistedMessageIn)
    (sender_index : LeafNodeIndex) :
    M nat ResyncClientError (SerializedMlsMessage * DsGroupState) :=
  p ← lift (map_err (fun _ => RcProcessingError)
              (process_assisted_message (group s) external_commit));
  match processed_assisted_message p with
  | Commit pm _ =>
      match pm_content pm, pm_sender pm with
      | StagedCommitMessage sc, NewMemberCommit =>
          if decide (sender_index ∉ sc_remove_proposals sc) then throw RcInvalidMessage
          else
            sender ← lift (ok_or RcInvalidMessage (leaf_credential s sender_index));
            pos ← lift (ok_or RcInvalidMessage (position sender_index (removed_clients sc)));
            let removed := swap_remove pos (removed_clients sc) in
            s ← lift (change_removed_roles_to_outsider s sender removed);
            new_sender_index ← lift (map_err (fun _ => RcInvalidMessage)
                                       (pg_ext_commit_sender_index (public_group (group s)) sc));
            a ← map_errM RcMergeCommitError
                  (accept_processed_message now (group s) (provider s)
                     (processed_assisted_message p) USER_EXPIRATION);
            let s := remove_profiles (set_group a.1 a.2 s) removed in
            mret (plus_serialized p, rekey_sender_profile s sender_index new_sender_index)
      | _, _ => throw RcInvalidMessage
      end
  | _ => throw RcInvalidMessage
  end.

(** ** Self removal *)

(** [self_remove_client_inner]. *)
Definition self_remove_client_inner (s : DsGroupState) (remove_proposal : AssistedMessageIn) :
    M nat ClientSelfRemovalError (LeafNode * SerializedMlsMessage * DsGroupState) :=
  p ← lift (map_err sr_of_process_error (process_assisted_message (group s) remove_proposal));
  match processed_assisted_message p with
  | NonCommit pm =>
      match pm_sender pm, pm_content pm with
      | SenderMember sender_index, ProposalMessage q =>
          match qp_proposal q with
          | ProposalSelfRemove =>
              a ← map_errM SrMergeCommitError
                    (accept_processed_message now (group s) (provider s)
                       (processed_assisted_message p) USER_EXPIRATION);
              let s := set_group a.1 a.2 s in
              let s := set_proposals (proposals s ++ [plus_serialized p]) s in
              leaf ← lift (ok_or SrInvalidMessage (group_leaf (group s) sender_index));
              mret (leaf, plus_serialized p, s)
          | _ => throw SrInvalidMessage
          end
      | _, _ => throw SrInvalidMessage
      end
  | _ => throw SrInvalidMessage
  end.

(** [self_remove_client]. *)
Definition self_remove_client (s : DsGroupState) (remove_proposal : AssistedMessageIn) :
    M nat ClientSelfRemovalError (SerializedMlsMessage * DsGroupState) :=
  r ← self_remove_client_inner s remove_proposal;
  let '(leaf, serialized, s) := r in
  sender ← lift (ok_or SrInvalidMessage (from_basic_credential (leaf_node_credential leaf)));
  s ← lift (ok_or SrInvalidMessage
              (room_state_change_role s (cred_user_id sender) (cred_user_id sender) RoleOutsider));
  mret (serialized, s).

(** [self_remove_client_without_room_state]. *)
Definition self_remove_client_without_room_state (s : DsGroupState)
    (remove_proposal : AssistedMessageIn) :
    M nat ClientSelfRemovalError (SerializedMlsMessage * DsGroupState) :=
  r ← self_remove_client_inner s remove_proposal;
  mret (r.1.2, r.2).

(** ** Group deletion *)

Inductive MembershipCheck := CheckMemberProfiles | CheckRatchetTree.

(** [sort_unstable]. *)
Definition sort_indices (l : list LeafNodeIndex) : list LeafNodeIndex := merge_sort Z.le l.

(** [delete_group_inner]: validation only. *)
Definition delete_group_inner (s : DsGroupState) (commit : AssistedMessageIn)
    (check : MembershipCheck) : Result GroupDeletionError SerializedMlsMessage :=
  p ← map_err (fun _ => GdProcessingError) (process_assisted_message (group s) commit);
  match processed_assisted_message p with
  | Commit pm _ =>
      match pm_sender pm, pm_content pm with
      | SenderMember sender_index, StagedCommitMessage sc =>
          if decide (sc_add_proposals sc <> [] \/ sc_update_proposals sc <> 0%nat)
          then Err GdInvalidMessage
          else
            let existing :=
              filter (fun i => i <> sender_index)
                match check with
                | CheckMemberProfiles => map fst (btree_iter (member_profiles s))
                | CheckRatchetTree => map member_index (members (group s))
                end in
            if decide (sort_indices (removed_clients sc) = existing)
            then Ok (plus_serialized p) else Err GdInvalidMessage
      | _, _ => Err GdInvalidMessage
      end
  | _ => Err GdInvalidMessage
  end.

Definition delete_group (s : DsGroupState) (commit : AssistedMessageIn) :
    Result GroupDeletionError SerializedMlsMessage :=
  delete_group_inner s commit CheckMemberProfiles.
Definition delete_pq_group (s : DsGroupState) (commit : AssistedMessageIn) :
    Result GroupDeletionError SerializedMlsMessage :=
  delete_group_inner s commit CheckRatchetTree.

(** ** Connection groups and profile keys *)

(** [join_connection_group]. *)
Definition join_connection_group (s : DsGroupState) (params : JoinConnectionGroupParams) :
    M nat JoinConnectionGroupError (SerializedMlsMessage * DsGroupState) :=
  p ← lift (map_err (fun _ => JcProcessingError)
              (process_assisted_message (group s) (jc_external_commit params)));
  match processed_assisted_message p with
  | Commit pm _ =>
      match pm_content pm with
      | StagedCommitMessage sc =>
          if decide (sc_add_proposals sc <> [] \/ sc_update_proposals sc <> 0%nat \/
                     sc_remove_proposals sc <> [])
          then throw JcInvalidMessage
          else
            aad ← lift (ok_or JcInvalidMessage
                          (tls_deserialize_exact_bytes (T := AadMessage) (pm_aad pm)));
            match aad_payload aad with
            | AadJoinConnectionGroup aad =>
                if decide (1 < size (member_profiles s))%nat then throw JcNotAConnectionGroup
                else
                  let sender_credential := pm_credential pm in
                  a ← map_errM JcMergeCommitError
                        (accept_processed_message now (group s) (provider s)
                           (processed_assisted_message p) USER_EXPIRATION);
                  let s := set_group a.1 a.2 s in
                  sender ← lift (ok_or JcProcessingError
                             (list_find (fun m => member_credential m = sender_credential)
                                (members (group s))));
                  let i := member_index sender.2 in
                  t ← timestamp_now now;
                  mret (plus_serialized p,
                    set_profiles
                      (<[i := {| leaf_index := i;
                                 client_queue_config := jc_qs_client_reference params;
                                 activity_time := t; activity_epoch := group_epoch (group s);
                                 encrypted_user_profile_key := aad_user_profile_key aad |}]>
                         (member_profiles s)) s)
            | _ => throw JcInvalidMessage
            end
      | _ => throw JcInvalidMessage
      end
  | _ => throw JcInvalidMessage
  end.

(** [update_user_profile_key]. *)
Definition update_user_profile_key (s : DsGroupState) (sender_index : LeafNodeIndex)
    (key : EncryptedUserProfileKey) : M nat UpdateUserProfileKeyError DsGroupState :=
  p ← lift (ok_or UpkUnknownSender (member_profiles s !! sender_index));
  t ← timestamp_now now;
  mret (set_profiles
          (<[sender_index := {| leaf_index := leaf_index p;
                                client_queue_config := client_queue_config p; activity_time := t;
                                activity_epoch := activity_epoch p;
                                encrypted_user_profile_key := key |}]> (member_profiles s)) s).

(** ** APQ operations *)

(** The validation of the PQ leg in [process_apq_group_operation]: its staged
    commit and its welcome. *)
Definition validate_pq_commit (pq_pm : ProcessedMessage) (pq_add_users_info : option AddUsersInfo) :
    Result GroupOperationError (StagedCommit * option Welcome) :=
  match pm_content pq_pm with
  | StagedCommitMessage sc =>
      sender_index ← operation_sender (pm_sender pq_pm) sc;
      if decide (sender_leaf_index sender_index ∈ removed_clients sc) then Err GoInvalidMessage
      else
        match sc_add_proposals sc with
        | [] => Ok (sc, None)
        | _ =>
            info ← ok_or GoInvalidMessage pq_add_users_info;
            _ ← validate_welcome_only sc (aui_welcome info);
            Ok (sc, Some (aui_welcome info))
        end
  | _ => Err GoInvalidMessage
  end.

(** [process_apq_group_operation]. *)
Definition process_apq_group_operation (t_state pq_state : DsGroupState)
    (t_msg pq_msg : AssistedMessageIn) (t_info pq_info : option AddUsersInfo) :
    M nat GroupOperationError
      (SerializedMlsMessage * option AddUsersState * option Welcome * DsGroupState * DsGroupState) :=
  r ← lift (map_err go_of_apq_error
              (process_apq_assisted_message (group t_state) (group pq_state) t_msg pq_msg
                 (fun _ _ => true)));
  let '(p, (t_group, pq_group)) := r in
  let t_state := set_group t_group (provider t_state) t_state in
  let pq_state := set_group pq_group (provider pq_state) pq_state in
  pq ← lift (validate_pq_commit (pq_message (apq_processed p)) pq_info);
  let '(pq_staged_commit, pq_welcome) := pq in
  v ← lift (validate_t_commit t_state (t_message (apq_processed p)) t_info (Some pq_state)
              (Some pq_staged_commit));
  let '(v, t_state) := v in
  a ← map_errM GoMergeCommitError
        (accept_apq_processed_message now (group t_state) (group pq_state) (provider t_state)
           (provider pq_state) (apq_processed p) USER_EXPIRATION);
  t_state ← apply_validation (set_group a.1.1 a.1.2 t_state) v;
  mret (serialized_apq_message p, tcv_added_users_state v, pq_welcome, t_state,
        set_group a.2.1 a.2.2 pq_state).

(** The new leaves of an APQ resync carry the same signature key. *)
Definition new_leaf_keys_match (t_sc pq_sc : StagedCommit) : Result ResyncClientError unit :=
  t_leaf ← ok_or RcInvalidMessage (sc_update_path_leaf_node t_sc);
  pq_leaf ← ok_or RcInvalidMessage (sc_update_path_leaf_node pq_sc);
  if decide (leaf_signature_key t_leaf = leaf_signature_key pq_leaf) then Ok tt
  else Err RcInvalidMessage.

(** [apq_resync_client]. *)
Definition apq_resync_client (t_state pq_state : DsGroupState) (t_msg pq_msg : AssistedMessageIn)
    (t_sender_index : LeafNodeIndex) :
    M nat ResyncClientError (SerializedMlsMessage * DsGroupState * DsGroupState) :=
  r ← lift (map_err (fun _ => RcProcessingError)
              (process_apq_assisted_message (group t_state) (group pq_state) t_msg pq_msg
                 (fun _ _ => true)));
  let '(p, (t_group, pq_group)) := r in
  let t_state := set_group t_group (provider t_state) t_state in
  let pq_state := set_group pq_group (provider pq_state) pq_state in
  let t_pm := t_message (apq_processed p) in
  let pq_pm := pq_message (apq_processed p) in
  match pm_content t_pm, pm_content pq_pm, pm_sender t_pm, pm_sender pq_pm with
  | StagedCommitMessage t_sc, StagedCommitMessage pq_sc, NewMemberCommit, NewMemberCommit =>
      _ ← lift (new_leaf_keys_match t_sc pq_sc);
      t_sender ← lift (ok_or RcInvalidMessage (leaf_credential t_state t_sender_index));
      let t_removed := sort_indices (removed_clients t_sc) in
      let pq_removed := sort_indices (removed_clients pq_sc) in
      if decide (t_removed <> pq_removed) then throw RcInvalidMessage
      else
        pos ← lift (ok_or RcInvalidMessage (position t_sender_index t_removed));
        let t_removed := swap_remove pos t_removed in
        t_state ← lift (change_removed_roles_to_outsider t_state t_sender t_removed);
        t_new ← lift (map_err (fun _ => RcInvalidMessage)
                        (pg_ext_commit_sender_index (public_group (group t_state)) t_sc));
        pq_new ← lift (map_err (fun _ => RcInvalidMessage)
                         (pg_ext_commit_sender_index (public_group (group pq_state)) pq_sc));
        if decide (t_new <> pq_new) then throw RcInvalidMessage
        else
          a ← map_errM RcMergeCommitError
                (accept_apq_processed_message now (group t_state) (group pq_state)
                   (provider t_state) (provider pq_state) (apq_processed p) USER_EXPIRATION);
          let t_state := remove_profiles (set_group a.1.1 a.1.2 t_state) t_removed in
          mret (serialized_apq_message p, rekey_sender_profile t_state t_sender_index t_new,
                set_group a.2.1 a.2.2 pq_state)
  | _, _, _, _ => throw RcInvalidMessage
  end.

End Ops.
