(* ===== verification/DsOpsCorrect.v ===== *)
(** * Correctness of the operations on a group state

    The member profiles stay in step with the members of the MLS group, welcomes
    are complete, group deletions remove everyone else, and the encrypted state
    is read back as it was written. *)

From stdpp Require Import sorting.
From S2P Require Import Prelude Aead MemoryProvider Messages Mls MlsExample MlsCorrect Apq DsState DsStateCorrect DsOps.

Set Warnings "-clear-no-such-hyp".

(** ** Ordered maps *)

#[local] Instance entry_le_trans {V} : Transitive (@entry_le V).
Proof. intros x y z. unfold entry_le. lia. Qed.
#[local] Instance entry_le_total {V} : Total (@entry_le V).
Proof. intros x y. unfold entry_le. lia. Qed.

Lemma btree_keys_sorted {V} (m : gmap Z V) : StronglySorted Z.le (map fst (btree_iter m)).
Proof.
  assert (Hs : StronglySorted entry_le (btree_iter m)).
  { apply (StronglySorted_merge_sort entry_le). }
  induction Hs as [|x l _ IH Hf]; cbn; constructor; [exact IH|].
  apply Forall_map. exact Hf.
Qed.

Lemma btree_keys_NoDup {V} (m : gmap Z V) : NoDup (map fst (btree_iter m)).
Proof. rewrite btree_iter_perm. apply NoDup_fst_map_to_list. Qed.

Lemma StronglySorted_filter {A} (R : relation A) (P : A -> Prop) `{forall x, Decision (P x)} l :
  StronglySorted R l -> StronglySorted R (filter P l).
Proof.
  induction 1 as [|x l _ IH Hf]; [constructor|]. rewrite filter_cons. case_decide; [|exact IH].
  constructor; [exact IH|]. apply Forall_forall. intros y [_ Hy]%list_elem_of_filter.
  by eapply Forall_forall in Hf.
Qed.

(** A sorted list of indices is the list of the other keys of a map if and only
    if the unsorted one has the same elements. *)
Lemma sort_indices_keys {V} (m : gmap Z V) (i : Z) l :
  sort_indices l = filter (fun j => j <> i) (map fst (btree_iter m)) <->
  l ≡ₚ elements (dom m ∖ {[i]}).
Proof.
  assert (Hk : filter (fun j => j <> i) (map fst (btree_iter m)) ≡ₚ elements (dom m ∖ {[i]})).
  { apply NoDup_Permutation; [apply NoDup_filter, btree_keys_NoDup|apply NoDup_elements|].
    intros j. rewrite list_elem_of_filter, elem_of_elements, elem_of_difference, elem_of_dom,
      not_elem_of_singleton. rewrite btree_iter_perm, list_elem_of_fmap. split.
    - intros [Hj ([j' v] & -> & Hv%elem_of_map_to_list)]. eauto.
    - intros [[v Hv] Hj]. split; [done|]. exists (j, v). by rewrite elem_of_map_to_list. }
  rewrite <- Hk. split; intros Hl.
  - rewrite <- Hl. symmetry. apply merge_sort_Permutation.
  - eapply (StronglySorted_unique Z.le).
    + apply (StronglySorted_merge_sort Z.le).
    + apply StronglySorted_filter, btree_keys_sorted.
    + unfold sort_indices. by rewrite merge_sort_Permutation.
Qed.

Lemma lookup_foldl_delete_is_Some {V} (m : gmap Z V) ks j :
  is_Some (foldl (fun m i => delete i m) m ks !! j) <-> is_Some (m !! j) /\ j ∉ ks.
Proof.
  revert m; induction ks as [|i ks IH]; intros m; cbn.
  - split; [intros ?; split; [done|by intros ?%elem_of_nil]|by intros []].
  - rewrite IH, lookup_delete_is_Some, not_elem_of_cons. intuition congruence.
Qed.

Lemma lookup_foldl_delete_ne {V} (m : gmap Z V) ks j :
  j ∉ ks -> foldl (fun m i => delete i m) m ks !! j = m !! j.
Proof.
  revert m; induction ks as [|i ks IH]; intros m; cbn; [done|].
  intros [? ?]%not_elem_of_cons. rewrite IH by done. by apply lookup_delete_ne.
Qed.

Lemma lookup_foldl_insert_is_Some (m : gmap Z MemberProfile) ps j :
  is_Some (foldl (fun m p => <[leaf_index p := p]> m) m ps !! j) <->
  is_Some (m !! j) \/ j ∈ map leaf_index ps.
Proof.
  revert m; induction ps as [|p ps IH]; intros m; cbn.
  - rewrite elem_of_nil. tauto.
  - rewrite IH, lookup_insert_is_Some', elem_of_cons. intuition congruence.
Qed.

(** ** Welcomes *)

Section Welcomes.
Context `{OpenMls, Welcomes}.

Lemma take_welcomes_spec adds : forall remaining remaining',
  take_welcomes remaining adds = Some remaining' <->
  exists refs, Forall2 (fun kp r => kp_hash_ref kp = Some r) adds refs /\ NoDup refs /\
    (forall r, r ∈ refs -> r ∈ remaining) /\ remaining' = remaining ∖ list_to_set refs.
Proof.
  induction adds as [|kp adds IH]; intros remaining remaining'; cbn.
  - split.
    + intros [= <-]. exists []. split; [constructor|]. split; [constructor|].
      split; [by intros r ?%elem_of_nil|]. set_solver.
    + intros (refs & Hf & _ & _ & ->). inversion Hf; subst. f_equal. set_solver.
  - split.
    + intros (r & Hr & Ht)%bind_Some. case_decide as Hin; [|done].
      apply IH in Ht as (refs & Hf & Hnd & Hrem & ->).
      exists (r :: refs). split; [by constructor|]. split.
      { constructor; [|done]. intros Hr'. apply Hrem in Hr'. set_solver. }
      split; [|cbn; set_solver]. intros r' [->|Hr']%elem_of_cons; [done|]. apply Hrem in Hr'. set_solver.
    + intros (refs & Hf & Hnd & Hrem & ->). inversion Hf as [|? r ? refs' Hr Hf']; subst.
      apply NoDup_cons in Hnd as [Hnr Hnd]. rewrite Hr; cbn. rewrite decide_True by (apply Hrem; left).
      apply IH. exists refs'. split; [done|]. split; [done|]. split; [|set_solver].
      intros r' Hr'. specialize (Hrem r'). set_solver.
Qed.

(** The welcome check is exact: it succeeds if and only if every added key
    package has a reference, no two have the same, and the welcome has secrets for
    exactly these references. *)
Theorem validate_welcome_only_exact sc w :
  validate_welcome_only sc w = Ok tt <->
  exists refs, Forall2 (fun kp r => kp_hash_ref kp = Some r) (sc_add_proposals sc) refs /\
    NoDup refs /\ forall r, r ∈ refs <-> r ∈ welcome_joiners w.
Proof.
  unfold validate_welcome_only. split.
  - destruct (take_welcomes _ _) as [remaining|] eqn:Et; [|discriminate].
    case_decide as He; [|discriminate]. intros _.
    apply take_welcomes_spec in Et as (refs & Hf & Hnd & Hin & ->).
    exists refs. split; [done|]. split; [done|]. intros r. split; [set_solver|].
    intros Hr. apply dec_stable. intros Hn. set_solver.
  - intros (refs & Hf & Hnd & Heq).
    destruct (take_welcomes (list_to_set (welcome_joiners w)) (sc_add_proposals sc))
      as [remaining|] eqn:Et.
    + apply take_welcomes_spec in Et as (refs' & Hf' & _ & _ & ->).
      assert (refs' = refs) as ->.
      { clear -Hf Hf'. revert refs' Hf'. induction Hf as [|kp r adds refs Hr _ IH]; intros refs' Hf';
          inversion Hf'; subst; [done|]. f_equal; [congruence|auto]. }
      rewrite decide_True; [done|]. set_solver.
    + exfalso. apply eq_None_not_Some in Et. apply Et. eexists. apply take_welcomes_spec.
      exists refs. split; [done|]. split; [done|]. split; [|done]. set_solver.
Qed.

End Welcomes.

(** ** Operations *)

Section Correct.
Context `{OpenMls} {Happ : Apqmls} {Hcc : ClientCredentials} `{RoomPolicy, Welcomes}.
Context (now : nat -> TimeStamp).
Context `{CborLaws GroupId, CborLaws GroupInfo, CborLaws (gmap GroupEpoch PastGroupState), Cbor AirComponent}.
Context `{TlsCodec UserId, TlsCodec AadMessage, TlsCodec QsReference, TlsCodec WelcomeBundle,
          TlsCodec ApqWelcomeBundle, TlsCodec DsCommitResponse, TlsCodec DsJoinerInformation}.

(** ** Validation changes the room state only *)

(** States that differ in the room state at most. *)
Definition same_but_room (s s' : DsGroupState) : Prop :=
  group s' = group s /\ provider s' = provider s /\ member_profiles s' = member_profiles s /\
  proposals s' = proposals s.

Lemma change_role_room s a b r s' :
  room_state_change_role s a b r = Some s' -> same_but_room s s'.
Proof.
  unfold room_state_change_role. intros (x & _ & (y & _ & (z & _ & [= <-])%bind_Some)%bind_Some)%bind_Some.
  done.
Qed.

Lemma same_but_room_trans s1 s2 s3 :
  same_but_room s1 s2 -> same_but_room s2 s3 -> same_but_room s1 s3.
Proof. unfold same_but_room. intuition congruence. Qed.

Lemma validate_removed_room i u pq s r s' :
  validate_removed i u pq s r = Ok s' -> same_but_room s s' /\ r <> sender_leaf_index i.
Proof.
  unfold validate_removed. case_decide as Hd; [discriminate|]. intros Hv. inv_ok.
  split; [by eapply change_role_room|done].
Qed.

Lemma validate_removed_all i u pq l s s' :
  foldM (validate_removed i u pq) s l = Ok s' ->
  same_but_room s s' /\ sender_leaf_index i ∉ l.
Proof.
  revert s; induction l as [|r l IH]; intros s; cbn.
  - intros [= <-]. split; [done|by intros ?%elem_of_nil].
  - intros (s1 & [Hs1 Hr]%validate_removed_room & [Hs' Hl]%IH)%Result_bind_Ok.
    split; [by eapply same_but_room_trans|]. by intros [?|?]%elem_of_cons.
Qed.

Lemma validate_added_loop_room u added : forall s pq s' pq',
  validate_added_loop s u added pq = Ok (s', pq') -> same_but_room s s' /\
  match pq with
  | None => pq' = None
  | Some adds => exists rest, pq' = Some rest /\ exists used, adds = used ++ rest /\
      map (fun x => leaf_signature_key (kp_leaf_node x.1.1)) added
      = map (fun kp => leaf_signature_key (kp_leaf_node kp)) used
  end.
Proof.
  induction added as [|[[kp key] att] added IH]; intros s pq s' pq'; cbn.
  - intros [= <- <-]. split; [done|]. destruct pq as [adds|]; [|done].
    exists adds. split; [done|]. by exists [].
  - intros Hv. inv_ok. apply IH in Hv as [Hs' Hpq].
    split; [by eapply same_but_room_trans; [eapply change_role_room|]|].
    destruct pq as [[|pq_kp adds]|]; cbn in Hm0; [discriminate| |by inv_ok].
    case_decide as Hk; [|discriminate]. inv_ok.
    destruct Hpq as (rest & -> & used & -> & Heq). exists rest. split; [done|].
    exists (pq_kp :: used). split; [done|]. cbn. by rewrite Hk, Heq.
Qed.

(** What a validated commit satisfies. *)
Lemma validate_t_commit_Ok s pm info pq pqsc v s' :
  validate_t_commit s pm info pq pqsc = Ok (v, s') ->
  same_but_room s s' /\ exists sc aad,
    pm_content pm = StagedCommitMessage sc /\
    (exists am, tls_deserialize_exact_bytes (pm_aad pm) = Some am /\
                aad_payload am = AadGroupOperation aad) /\
    operation_sender (pm_sender pm) sc = Ok (tcv_sender_index v) /\
    tcv_removed_clients v = removed_clients sc /\
    (sender_leaf_index (tcv_sender_index v) ∉ removed_clients sc) /\
    (match tcv_added_users_state v with
    | None => sc_add_proposals sc = []
    | Some aus => exists i, info = Some i /\ validate_added_users sc aad i = Ok aus /\
        match pqsc with
        | None => True
        | Some pqsc =>
            map (fun x => leaf_signature_key (kp_leaf_node x.1.1)) (added_users aus)
            = map (fun kp => leaf_signature_key (kp_leaf_node kp)) (sc_add_proposals pqsc)
        end
    end) /\
    external_sender_information s sc (tcv_sender_index v) = Ok (tcv_external_sender v).
Proof.
  unfold validate_t_commit. intros (am & Ham%ok_or_Ok & Hv)%Result_bind_Ok.
  destruct (aad_payload am) as [aad| | |] eqn:Eaad; try discriminate.
  destruct (pm_content pm) as [| | |sc| | |]; try discriminate.
  apply Result_bind_Ok in Hv as (si & Hsi & Hv). apply Result_bind_Ok in Hv as (sender & _ & Hv).
  apply Result_bind_Ok in Hv as ([s1 aus] & Hadds & Hv); cbn [fst snd] in Hv.
  apply Result_bind_Ok in Hv as (ext & Hext & Hv).
  apply Result_bind_Ok in Hv as (s2 & [Hs2 Hnot]%validate_removed_all & [= <- <-]).
  assert (Hs1 : same_but_room s s1 /\
    match aus with
    | None => sc_add_proposals sc = []
    | Some aus => exists i, info = Some i /\ validate_added_users sc aad i = Ok aus /\
        match pqsc with
        | None => True
        | Some pqsc =>
            map (fun x => leaf_signature_key (kp_leaf_node x.1.1)) (added_users aus)
            = map (fun kp => leaf_signature_key (kp_leaf_node kp)) (sc_add_proposals pqsc)
        end
    end).
  { unfold validate_adds in Hadds. destruct (sc_add_proposals sc) eqn:Ea; [by inv_ok|].
    apply Result_bind_Ok in Hadds as (i & ->%ok_or_Ok & Hadds).
    apply Result_bind_Ok in Hadds as (aus' & Haus & Hadds).
    apply Result_bind_Ok in Hadds as ([s3 rest] & [Hs3 Hpq]%validate_added_loop_room & Hadds).
    cbn [fst snd] in Hadds.
    assert (s3 = s1 /\ aus = Some aus' /\ (rest = None \/ rest = Some [])) as (-> & -> & Hrest).
    { destruct rest as [[|]|]; inv_ok; auto. }
    split; [done|]. exists i. split; [done|]. split; [done|].
    destruct pqsc as [pqsc|]; [|done]. cbn in Hpq.
    destruct Hpq as (r & Hr & used & -> & Hu). destruct Hrest as [->| ->]; [done|].
    injection Hr as <-. by rewrite app_nil_r. }
  destruct Hs1 as [Hs1 Haus]. split; [by eapply same_but_room_trans|].
  exists sc, aad. cbn. split; [done|]. split; [eauto|]. split; [done|]. split; [done|].
  split; [done|]. split; [done|].
  destruct si as [i|i]; cbn in *; [exact Hext|].
  destruct Hs1 as (_ & _ & Hmp & _). by rewrite <- Hmp.
Qed.

(** ** Member profiles *)

(** Every member has a profile, at its leaf index, and there are no others. *)
Definition profiles_match (s : DsGroupState) : Prop :=
  (forall i, is_Some (member_profiles s !! i) <-> i ∈ map member_index (members (group s))) /\
  (forall i p, member_profiles s !! i = Some p -> leaf_index p = i).

Lemma added_profiles_spec s added : forall t ps t',
  added_profiles now s added t = (Ok ps, t') ->
  Forall2 (fun x p => exists mb, mb ∈ members (group s) /\
      member_signature_key mb = leaf_signature_key (kp_leaf_node x.1.1) /\
      leaf_index p = member_index mb /\ encrypted_user_profile_key p = x.1.2 /\
      kp_queue_config x.1.1 = Ok (client_queue_config p)) added ps.
Proof.
  induction added as [|[[kp key] att] added IH]; intros t ps t' Ha; cbn in Ha.
  - eqM Ha. constructor.
  - bindM Ha as p t1 Hp. bindM Ha as ps' t2 Hps. eqM Ha. constructor; [|by eapply IH].
    unfold added_profile in Hp. bindM Hp as [k m] t3 Hm. leafM Hm. bindM Hp as c t4 Hc. leafM Hc.
    bindM Hp as t5 t6 Ht. eqM Hp. apply ok_or_Ok, list_find_Some in Hm as (Hm & Hk & _).
    apply list_elem_of_lookup_2 in Hm. exists m. cbn. auto.
Qed.

Lemma foldl_insert_wf (m : gmap Z MemberProfile) ps :
  (forall i p, m !! i = Some p -> leaf_index p = i) ->
  forall i p, foldl (fun m p => <[leaf_index p := p]> m) m ps !! i = Some p -> leaf_index p = i.
Proof.
  revert m; induction ps as [|p ps IH]; intros m Hm; cbn; [exact Hm|].
  apply IH. intros i p' [[<- <-]|[_ Hp']]%lookup_insert_Some; [done|by apply Hm].
Qed.

Lemma foldl_delete_wf (m : gmap Z MemberProfile) ks :
  (forall i p, m !! i = Some p -> leaf_index p = i) ->
  forall i p, foldl (fun m i => delete i m) m ks !! i = Some p -> leaf_index p = i.
Proof.
  revert m; induction ks as [|k ks IH]; intros m Hm; cbn; [exact Hm|].
  apply IH. intros i p' [_ Hp']%lookup_delete_Some. by apply Hm.
Qed.

(** The steps of a successful group operation. *)
Lemma process_group_operation_Ok s params t ser aus s' t' :
  process_group_operation now s params t = (Ok (ser, aus, s'), t') ->
  exists p pm gi v s1 a t1,
    process_assisted_message (group s) (go_commit params) = Ok p /\
    processed_assisted_message p = Commit pm gi /\
    validate_t_commit s pm (add_users_info_option params) None None = Ok (v, s1) /\
    accept_processed_message now (group s1) (provider s1) (Commit pm gi) USER_EXPIRATION t
      = (Ok a, t1) /\
    apply_validation now (set_group a.1 a.2 s1) v t1 = (Ok s', t') /\
    ser = plus_serialized p /\ aus = tcv_added_users_state v.
Proof.
  unfold process_group_operation. intros Hp. bindM Hp as p t1 Hm. leafM Hm. apply map_err_Ok in Hm.
  destruct (processed_assisted_message p) as [| |pm gi] eqn:Ep; [leafM Hp|leafM Hp|].
  bindM Hp as r t2 Hr. leafM Hr. destruct r as [v s1].
  bindM Hp as a t3 Ha. bindM Hp as s2 t4 Hs2. eqM Hp.
  unfold map_errM in Ha. destruct (accept_processed_message _ _ _ _ _ _) as [ra ta] eqn:Ea.
  injection Ha as Hra <-. apply map_err_Ok in Hra. subst ra.
  exists p, pm, gi, v, s1, a, ta. auto 10.
Qed.

Section Laws.
Context `{!OpenMlsLaws}.

(** The sender of a validated commit is a member. *)
Lemma validated_sender s pm info pq pqsc v s1 :
  validate_t_commit s pm info pq pqsc = Ok (v, s1) ->
  exists i, pm_sender pm = SenderMember i /\ tcv_sender_index v = IndexMember i /\
            tcv_external_sender v = None.
Proof.
  intros (_ & sc & aad & _ & _ & Hos & _ & Hnot & _ & Hext)%validate_t_commit_Ok.
  destruct (pm_sender pm) as [i| | |]; cbn in Hos; try discriminate.
  - injection Hos as Hos. rewrite <- Hos in Hext. cbn in Hext. injection Hext as Hext. eauto.
  - destruct (sc_remove_proposals sc) as [|r rs] eqn:Er; [discriminate|].
    injection Hos as Hos. rewrite <- Hos in Hnot. cbn in Hnot. destruct Hnot.
    destruct (remove_queued sc r) as (q & Hq & Hqr); [rewrite Er; left|].
    apply list_elem_of_omap. exists q. split; [done|]. unfold removed_client. by rewrite Hqr.
Qed.

(** Members are determined by their signature keys. *)
Lemma members_key_inj g mb mb' :
  mb ∈ members g -> mb' ∈ members g -> member_signature_key mb = member_signature_key mb' -> mb = mb'.
Proof.
  intros [k Hk]%list_elem_of_lookup [k' Hk']%list_elem_of_lookup Heq.
  destruct (members_distinct (public_group g)) as [_ Hnd].
  assert (k = k') as <-; [|congruence].
  eapply NoDup_lookup; [exact Hnd| |]; unfold members in *.
  - rewrite (list_lookup_fmap member_signature_key), Hk. done.
  - rewrite (list_lookup_fmap member_signature_key), Hk', Heq. done.
Qed.

(** The members after a member's commit was accepted. *)
Lemma accept_member_commit g am p pm gi sc st i t a t1 :
  process_assisted_message g am = Ok p -> processed_assisted_message p = Commit pm gi ->
  pm_content pm = StagedCommitMessage sc -> pm_sender pm = SenderMember i ->
  accept_processed_message now g st (Commit pm gi) USER_EXPIRATION t = (Ok a, t1) ->
  (forall j, j ∈ map member_index (members a.1) <->
     (j ∈ map member_index (members g) /\ j ∉ removed_clients sc) \/
     exists kp mb, kp ∈ sc_add_proposals sc /\ mb ∈ members a.1 /\ member_index mb = j /\
                   member_signature_key mb = leaf_signature_key (kp_leaf_node kp)) /\
  (forall kp, kp ∈ sc_add_proposals sc -> exists mb, mb ∈ members a.1 /\
     member_signature_key mb = leaf_signature_key (kp_leaf_node kp)).
Proof.
  intros Hp Hc Hsc Hs Ha. destruct a as [g' st'].
  destruct (process_message_of _ _ _ _ Hp (or_intror (ex_intro _ gi Hc))) as (m & _ & Hm).
  apply accept_Ok in Ha as [(pr & [=] & _)|(pm' & gi' & st1 & js & past & t2 & st2 & Hpm & Hac & _)].
  destruct Hpm as [[[=] _]|[= <- <-]]. rewrite Hsc in Hac. cbn in Hac. inv_ok.
  exact (merge_member_commit _ _ _ _ _ _ _ _ Hm Hsc Hs Hm0).
Qed.

(** A group operation never succeeds for an external commit: the sender is
    taken to be the first client the commit removes, and a commit that removes
    its sender is rejected.  The resync branch of the operation is never taken. *)
Theorem group_operation_rejects_external s params t p :
  process_assisted_message (group s) (go_commit params) = Ok p ->
  processed_sender (processed_assisted_message p) = Some NewMemberCommit ->
  exists e t', process_group_operation now s params t = (Err e, t').
Proof.
  intros Hp Hs. destruct (process_group_operation now s params t) as [[[[ser aus] s']|e] t'] eqn:E; [|eauto].
  exfalso. apply process_group_operation_Ok in E as (p' & pm & gi & v & s1 & a & t1 & Hp' & Hc & Hv & _).
  rewrite Hp in Hp'. injection Hp' as <-. rewrite Hc in Hs. cbn in Hs. injection Hs as Hs.
  apply validated_sender in Hv as (i & Hi & _). congruence.
Qed.

(** The associated data of a commit has a user profile key for every added client. *)
Definition enough_profile_keys (pm : ProcessedMessage) : Prop :=
  forall am aad sc, tls_deserialize_exact_bytes (pm_aad pm) = Some am ->
    aad_payload am = AadGroupOperation aad -> pm_content pm = StagedCommitMessage sc ->
    (length (sc_add_proposals sc) <= length (new_encrypted_user_profile_keys aad))%nat.

(** With enough profile keys, no added client is dropped. *)
Lemma validate_added_users_all sc aad info aus :
  validate_added_users sc aad info = Ok aus ->
  (length (sc_add_proposals sc) <= length (new_encrypted_user_profile_keys aad))%nat ->
  map (fun x => x.1.1) (added_users aus) = sc_add_proposals sc.
Proof.
  unfold validate_added_users. case_decide as Hl; [discriminate|]. intros Hv Hk. inv_ok. cbn.
  rewrite <- (map_map fst fst).
  assert (Hz : forall {A B} (l : list A) (k : list B), (length l <= length k)%nat -> map fst (zip l k) = l).
  { intros A B l k Hlk. by apply fst_zip. }
  rewrite Hz; [by apply Hz|]. rewrite length_zip. lia.
Qed.

(** The profiles after a validated commit was applied. *)
Lemma apply_validation_profiles s v t s' t' :
  apply_validation now s v t = (Ok s', t') -> tcv_external_sender v = None ->
  group s' = group s /\ exists ps,
    Forall2 (fun x p => exists mb, mb ∈ members (group s) /\
      member_signature_key mb = leaf_signature_key (kp_leaf_node x.1.1) /\
      leaf_index p = member_index mb /\ encrypted_user_profile_key p = x.1.2 /\
      kp_queue_config x.1.1 = Ok (client_queue_config p))
      (match tcv_added_users_state v with Some aus => added_users aus | None => [] end) ps /\
    member_profiles s' = foldl (fun m p => <[leaf_index p := p]> m)
      (foldl (fun m i => delete i m) (member_profiles s) (tcv_removed_clients v)) ps.
Proof.
  unfold apply_validation. intros Ha Hext. bindM Ha as s1 t1 Hs1. rewrite Hext in Ha. eqM Ha.
  destruct (tcv_added_users_state v) as [aus|].
  - unfold update_membership_profiles in Hs1. bindM Hs1 as ps t2 Hps. eqM Hs1.
    split; [done|]. exists ps. split; [by apply added_profiles_spec in Hps|done].
  - eqM Hs1. split; [done|]. exists []. by split.
Qed.

(** C20. A group operation keeps the member profiles in step with the members of
    the group, provided that its associated data carries a user profile key for
    every added client. *)
Theorem group_operation_profiles s params p t ser aus s' t' :
  profiles_match s ->
  process_assisted_message (group s) (go_commit params) = Ok p ->
  (forall pm gi, processed_assisted_message p = Commit pm gi -> enough_profile_keys pm) ->
  process_group_operation now s params t = (Ok (ser, aus, s'), t') ->
  profiles_match s'.
Proof.
  intros [Hdom Hwf] Hp Hkeys Hop.
  apply process_group_operation_Ok in Hop as (p' & pm & gi & v & s1 & a & t1 & Hp' & Hc & Hv & Ha & Hav & _).
  rewrite Hp in Hp'. injection Hp' as <-. specialize (Hkeys pm gi Hc).
  destruct (validated_sender _ _ _ _ _ _ _ Hv) as (i & Hsnd & _ & Hext).
  apply validate_t_commit_Ok in Hv as ((Hg & Hpr & Hmp & _) & sc & aad & Hsc & (am & Ham & Hpl) & _ & Hrem & _ & Haus & _).
  rewrite Hg in Ha.
  destruct (accept_member_commit _ _ _ _ _ _ _ _ _ _ _ Hp Hc Hsc Hsnd Ha) as [Hmem Hadd].
  apply apply_validation_profiles in Hav as (Hg' & ps & Hps & Hmp'); [|done].
  cbn [group set_group] in Hg', Hps. cbn [member_profiles set_group] in Hmp'. rewrite Hmp in Hmp'.
  assert (Hadds : map (fun x => x.1.1) (match tcv_added_users_state v with
                    Some aus => added_users aus | None => [] end) = sc_add_proposals sc).
  { destruct (tcv_added_users_state v) as [aus'|]; [|done].
    destruct Haus as (info & _ & Haus & _). eapply validate_added_users_all; [exact Haus|].
    by eapply Hkeys. }
  split.
  - intros j. rewrite Hmp', lookup_foldl_insert_is_Some, lookup_foldl_delete_is_Some, Hdom, Hrem, Hg', Hmem.
    apply or_iff_compat_l. split.
    + intros (q & -> & Hq)%list_elem_of_fmap.
      apply list_elem_of_lookup in Hq as [k Hk].
      destruct (Forall2_lookup_r _ _ _ _ _ Hps Hk) as (x & Hx & mb & Hmb & Hkey & Hli & _).
      exists x.1.1, mb. split; [|by rewrite Hli].
      rewrite <- Hadds. apply list_elem_of_fmap. exists x. split; [done|]. by eapply list_elem_of_lookup_2.
    + intros (kp & mb & Hkp & Hmb & <- & Hkey). rewrite <- Hadds in Hkp.
      apply list_elem_of_fmap in Hkp as (x & -> & Hx). apply list_elem_of_lookup in Hx as [k Hx].
      destruct (Forall2_lookup_l _ _ _ _ _ Hps Hx) as (q & Hq & mb' & Hmb' & Hkey' & Hli & _).
      apply list_elem_of_fmap. exists q. split; [|by eapply list_elem_of_lookup_2].
      rewrite Hli. f_equal. eapply members_key_inj; [exact Hmb|exact Hmb'|congruence].
  - rewrite Hmp'. by apply foldl_insert_wf, foldl_delete_wf.
Qed.

(** The clients that are served: those for which the associated data has a key. *)
Lemma validate_added_users_served sc aad info aus :
  validate_added_users sc aad info = Ok aus ->
  map (fun x => x.1.1) (added_users aus)
    = take (length (new_encrypted_user_profile_keys aad)) (sc_add_proposals sc).
Proof.
  unfold validate_added_users. case_decide as Hl; [discriminate|]. intros Hv. inv_ok. cbn.
  assert (Hz : forall {A B} (l : list A) (k : list B), map fst (zip l k) = take (length k) l).
  { intros A B l. induction l as [|x l IH]; intros [|y k]; cbn; [done..|]. by rewrite IH. }
  rewrite <- (map_map fst fst), Hz, take_ge; [apply Hz|]. rewrite length_zip. lia.
Qed.

Lemma collectM_Forall2 {A B} (R : A -> B -> Prop) f (l : list A) t (bs : list B) t' :
  (forall a t b t', f a t = (Ok b, t') -> R a b) -> collectM f l t = (Ok bs, t') -> Forall2 R l bs.
Proof.
  intros Hf. revert t bs. induction l as [|a l IH]; intros t bs Hc; cbn in Hc; [eqM Hc; constructor|].
  bindM Hc as b t1 Hb. bindM Hc as bs' t2 Hbs. eqM Hc. constructor; [by eapply Hf|by eapply IH].
Qed.

(** The clients of a validated commit that are served. *)
Definition served (v : TCommitValidation) :
    list (KeyPackage * EncryptedUserProfileKey * EncryptedWelcomeAttributionInfo) :=
  match tcv_added_users_state v with Some aus => added_users aus | None => [] end.

Lemma group_operation_welcomes s params ear_key t ser individual s' t' :
  group_operation now s params ear_key t = (Ok (ser, individual, s'), t') ->
  exists aus t1, process_group_operation now s params t = (Ok (ser, aus, s'), t1) /\
    Forall2 (fun x fo => kp_queue_config x.1.1 = Ok (client_reference fo))
      (match aus with Some aus => added_users aus | None => [] end) individual.
Proof.
  intros Hg. unfold group_operation in Hg. bindM Hg as [[ser0 aus] s1] t1 Hp. bindM Hg as ms t2 Hm. eqM Hg.
  exists aus, t1. split; [exact Hp|]. destruct aus as [aus|]; [|eqM Hm; constructor].
  eapply collectM_Forall2; [|exact Hm]. intros [[kp key] att] t3 fo t4 Hw. unfold welcome_fan_out in Hw.
  bindM Hw as config t5 Hc. leafM Hc. bindM Hw as m t6 Hq. by eqM Hw.
Qed.


(** ** Resync *)

Lemma position_Some i l pos : position i l = Some pos -> l !! pos = Some i.
Proof.
  unfold position. destruct (list_find _ l) as [[k x]|] eqn:Ef; [|done].
  intros [= <-]. by apply list_find_Some in Ef as (Hk & -> & _).
Qed.

Lemma swap_remove_perm i l pos : l !! pos = Some i -> i :: swap_remove pos l ≡ₚ l.
Proof.
  intros Hpos. unfold swap_remove. destruct l as [|y l0 _] using rev_ind; [done|].
  rewrite last_snoc, length_app. cbn [length]. rewrite Nat.add_sub.
  destruct (decide (pos < length l0)%nat) as [Hlt|Hge].
  - rewrite insert_app_l, take_app_length' by (rewrite ?length_insert; done).
    rewrite lookup_app_l in Hpos by done.
    rewrite insert_take_drop by done. rewrite <- (take_drop_middle l0 pos i) at 3 by done.
    rewrite (Permutation_app_comm _ [y]). cbn. rewrite <- !Permutation_middle. apply perm_swap.
  - assert (pos = length l0) as ->.
    { apply lookup_lt_Some in Hpos. rewrite length_app in Hpos. cbn in Hpos. lia. }
    rewrite insert_app_r_alt, Nat.sub_diag by lia. cbn.
    rewrite lookup_app_r, Nat.sub_diag in Hpos by lia. injection Hpos as ->.
    rewrite take_app_length. by rewrite Permutation_cons_append.
Qed.

Lemma change_removed_room s c l s' :
  change_removed_roles_to_outsider s c l = Ok s' -> same_but_room s s'.
Proof.
  unfold change_removed_roles_to_outsider. revert s; induction l as [|r l IH]; intros s; cbn.
  - by intros [= <-].
  - intros (s1 & Hs1 & Hs')%Result_bind_Ok. inv_ok.
    eapply same_but_room_trans; [by eapply change_role_room|by apply IH].
Qed.

(** The steps of a successful resync. *)
Lemma resync_client_Ok s am i t ser s' t' :
  resync_client now s am i t = (Ok (ser, s'), t') ->
  exists p pm gi sc c pos s1 new a,
    process_assisted_message (group s) am = Ok p /\ processed_assisted_message p = Commit pm gi /\
    pm_content pm = StagedCommitMessage sc /\ pm_sender pm = NewMemberCommit /\
    leaf_credential s i = Some c /\ removed_clients sc !! pos = Some i /\
    change_removed_roles_to_outsider s c (swap_remove pos (removed_clients sc)) = Ok s1 /\
    pg_ext_commit_sender_index (public_group (group s1)) sc = Ok new /\
    accept_processed_message now (group s1) (provider s1) (Commit pm gi) USER_EXPIRATION t
      = (Ok a, t') /\
    s' = rekey_sender_profile (remove_profiles (set_group a.1 a.2 s1)
           (swap_remove pos (removed_clients sc))) i new.
Proof.
  unfold resync_client. intros Hr. bindM Hr as p t1 Hp. leafM Hp. apply map_err_Ok in Hp.
  destruct (processed_assisted_message p) as [| |pm gi] eqn:Ep; [leafM Hr|leafM Hr|].
  destruct (pm_content pm) as [| | |sc| | |] eqn:Ec; try by leafM Hr.
  destruct (pm_sender pm) eqn:Es; try by leafM Hr.
  case_decide; [leafM Hr|].
  bindM Hr as c t2 Hc. leafM Hc. apply ok_or_Ok in Hc.
  bindM Hr as pos t3 Hpos. leafM Hpos. apply ok_or_Ok, position_Some in Hpos.
  bindM Hr as s1 t4 Hs1. leafM Hs1. bindM Hr as new t5 Hnew. leafM Hnew. apply map_err_Ok in Hnew.
  bindM Hr as a t6 Ha. eqM Hr. unfold map_errM in Ha.
  destruct (accept_processed_message _ _ _ _ _ _) as [ra ta] eqn:Ea.
  injection Ha as Hra <-. apply map_err_Ok in Hra. subst ra.
  exists p, pm, gi, sc, c, pos, s1, new, a. auto 15.
Qed.

(** The members after an external commit was accepted. *)
Lemma accept_external_commit g am p pm gi sc st new t a t1 :
  process_assisted_message g am = Ok p -> processed_assisted_message p = Commit pm gi ->
  pm_content pm = StagedCommitMessage sc -> pm_sender pm = NewMemberCommit ->
  pg_ext_commit_sender_index (public_group g) sc = Ok new ->
  accept_processed_message now g st (Commit pm gi) USER_EXPIRATION t = (Ok a, t1) ->
  (forall j, j ∈ map member_index (members a.1) <->
     (j ∈ map member_index (members g) /\ j ∉ removed_clients sc) \/ j = new) /\
  (new ∈ map member_index (members g) -> new ∈ removed_clients sc) /\ NoDup (removed_clients sc).
Proof.
  intros Hp Hc Hsc Hs Hnew Ha. destruct a as [g' st'].
  destruct (process_message_of _ _ _ _ Hp (or_intror (ex_intro _ gi Hc))) as (m & _ & Hm).
  apply accept_Ok in Ha as [(pr & [=] & _)|(pm' & gi' & st1 & js & past & t2 & st2 & Hpm & Hac & _)].
  destruct Hpm as [[[=] _]|[= <- <-]]. rewrite Hsc in Hac. cbn in Hac. inv_ok.
  destruct (merge_external_commit _ _ _ _ _ _ _ _ Hm Hsc Hs Hnew Hm0) as [Hmem Hrem].
  split; [exact Hmem|]. split; [exact Hrem|]. by eapply removed_distinct.
Qed.

(** A resync keeps the member profiles in step with the members: the sender's
    profile moves to the leaf at which the external commit puts it (which is
    vacant by then), with its queue and its profile key, and the profiles of the
    clients that stay are not touched. *)
Theorem resync_profiles s am i t ser s' t' :
  profiles_match s -> resync_client now s am i t = (Ok (ser, s'), t') ->
  profiles_match s' /\
  exists new p p', member_profiles s !! i = Some p /\ member_profiles s' !! new = Some p' /\
    client_queue_config p' = client_queue_config p /\
    encrypted_user_profile_key p' = encrypted_user_profile_key p /\
    forall j, j <> new -> is_Some (member_profiles s' !! j) ->
      member_profiles s' !! j = member_profiles s !! j.
Proof.
  intros [Hdom Hwf] (p & pm & gi & sc & c & pos & s1 & new & a & Hp & Hc & Hsc & Hsnd & Hcred &
    Hpos & (Hg & Hpr & Hmp & _)%change_removed_room & Hnew & Ha & ->)%resync_client_Ok.
  rewrite Hg in Hnew, Ha.
  destruct (accept_external_commit _ _ _ _ _ _ _ _ _ _ _ Hp Hc Hsc Hsnd Hnew Ha) as (Hmem & Hvac & Hnd).
  pose proof (swap_remove_perm _ _ _ Hpos) as Hperm. set (removed := swap_remove pos _) in *.
  assert (Hrem : forall j, j ∈ removed_clients sc <-> j = i \/ j ∈ removed).
  { intros j. by rewrite <- Hperm, elem_of_cons. }
  assert (Hni : i ∉ removed) by (rewrite <- Hperm in Hnd; by apply NoDup_cons in Hnd as [? _]).
  assert (Hi : i ∈ map member_index (members (group s))).
  { apply leaf_member. unfold leaf_credential, group_leaf in Hcred. apply bind_Some in Hcred as (l & Hl & _). eauto. }
  destruct (proj2 (Hdom i) Hi) as [pi Hpi].
  set (s2 := remove_profiles (set_group a.1 a.2 s1) removed).
  assert (Hs2 : forall j, j ∉ removed -> member_profiles s2 !! j = member_profiles s !! j).
  { intros j Hj. cbn. rewrite Hmp. by apply lookup_foldl_delete_ne. }
  assert (Hs2' : forall j, is_Some (member_profiles s2 !! j) <-> is_Some (member_profiles s !! j) /\ j ∉ removed).
  { intros j. cbn. rewrite Hmp. apply lookup_foldl_delete_is_Some. }
  assert (Hwf2 : forall j q, member_profiles s2 !! j = Some q -> leaf_index q = j).
  { cbn. rewrite Hmp. by apply foldl_delete_wf. }
  unfold rekey_sender_profile. rewrite (Hs2 i Hni), Hpi.
  case_decide as Hd; [subst new|].
  - split; [split; [|exact Hwf2]|].
    + intros j. rewrite Hs2', Hdom. cbn [group s2 remove_profiles set_profiles set_group]. rewrite Hmem, Hrem.
      destruct (decide (j = i)) as [->|]; tauto.
    + exists i, pi, pi. rewrite (Hs2 i Hni). do 4 (split; [done|]).
      intros j _ [_ Hj]%Hs2'. by apply Hs2.
  - cbn [member_profiles set_profiles]. split; [split|].
    + intros j. change (members (group _)) with (members a.1). rewrite Hmem, Hrem.
      cbn [member_profiles set_profiles]. rewrite lookup_insert_is_Some', lookup_delete_is_Some, Hs2', Hdom.
      destruct (decide (j = i)), (decide (j = new)); intuition congruence.
    + cbn [member_profiles set_profiles].
      intros j q [[<- <-]|[_ [_ Hq]%lookup_delete_Some]]%lookup_insert_Some; [done|by apply Hwf2].
    + exists new, pi. eexists. rewrite lookup_insert_eq. do 4 (split; [done|]).
      intros j Hj. rewrite lookup_insert_ne by done.
      intros [Hji [_ Hjr]%Hs2']%lookup_delete_is_Some. rewrite lookup_delete_ne by done. by apply Hs2.
Qed.

End Laws.

(** ** Deletion of groups *)

(** A group deletion is accepted if and only if it is a commit of a member,
    without adds and updates, that removes exactly the other clients that have a
    profile. *)
Theorem delete_group_exact s am ser :
  delete_group s am = Ok ser <->
  exists p pm gi sc sender,
    process_assisted_message (group s) am = Ok p /\ processed_assisted_message p = Commit pm gi /\
    pm_content pm = StagedCommitMessage sc /\ pm_sender pm = SenderMember sender /\
    sc_add_proposals sc = [] /\ sc_update_proposals sc = 0%nat /\
    removed_clients sc ≡ₚ elements (dom (member_profiles s) ∖ {[sender]}) /\
    ser = plus_serialized p.
Proof.
  unfold delete_group, delete_group_inner. split.
  - intros (p & Hp%map_err_Ok & Hd)%Result_bind_Ok.
    destruct (processed_assisted_message p) as [| |pm gi] eqn:Ep; try discriminate.
    destruct (pm_sender pm) as [i| | |] eqn:Es; try discriminate.
    destruct (pm_content pm) as [| | |sc| | |] eqn:Ec; try discriminate.
    case_decide as Hau; [discriminate|]. case_decide as Hr; [|discriminate]. injection Hd as <-.
    apply sort_indices_keys in Hr. exists p, pm, gi, sc, i.
    assert (sc_add_proposals sc = [] /\ sc_update_proposals sc = 0%nat) as [? ?].
    { split; [destruct (sc_add_proposals sc)|destruct (sc_update_proposals sc)]; [done| |done|];
        destruct Hau; [by left|by right]. }
    auto 10.
  - intros (p & pm & gi & sc & i & Hp & Hc & Hsc & Hs & Ha & Hu & Hr & ->).
    rewrite Hp; cbn. rewrite Hc, Hs, Hsc, Ha, Hu.
    rewrite decide_False by (by intros [|]). apply sort_indices_keys in Hr. by rewrite decide_True.
Qed.

(** ** Destinations *)

(** A message of a member goes to every other member's queue and to no
    other, once per member. *)
Theorem other_destinations_exact s i :
  other_destination_clients s i ≡ₚ
  map (fun x => client_queue_config x.2) (map_to_list (delete i (member_profiles s))).
Proof.
  unfold other_destination_clients. rewrite btree_iter_perm.
  destruct (member_profiles s !! i) as [p|] eqn:Ei.
  - rewrite <- (insert_delete_id (member_profiles s) i p) at 1 by done.
    rewrite map_to_list_insert by apply lookup_delete_eq. cbn. rewrite decide_False by auto.
    set (m := delete i (member_profiles s)).
    assert (Hm : forall j q, (j, q) ∈ map_to_list m -> j <> i).
    { intros j q [Hj _]%elem_of_map_to_list%lookup_delete_Some. congruence. }
    induction (map_to_list m) as [|[j q] l IH]; [done|]. cbn.
    rewrite decide_True by (eapply Hm; left). constructor. apply IH. intros. eapply Hm. by right.
  - rewrite delete_id by done.
    assert (Hm : forall j q, (j, q) ∈ map_to_list (member_profiles s) -> j <> i).
    { intros j q Hj%elem_of_map_to_list ->. congruence. }
    induction (map_to_list (member_profiles s)) as [|[j q] l IH]; [done|]. cbn.
    rewrite decide_True by (eapply Hm; left). constructor. apply IH. intros. eapply Hm. by right.
Qed.

End Correct.
