(* ===== verification/DsApqCorrect.v ===== *)
(** * Agreement of the two legs of an APQ group

    An operation on an APQ group is applied to both legs or to none, and the two
    commits concern the same clients. *)

From stdpp Require Import sorting.
From S2P Require Import Prelude Aead MemoryProvider Messages Mls MlsExample MlsCorrect Apq DsState DsStateCorrect DsOps DsOpsCorrect.

Section Apq.
Context `{OpenMls} {Happ : Apqmls} {Hcc : ClientCredentials} `{RoomPolicy, Welcomes}.
Context (now : nat -> TimeStamp).
Context `{Cbor GroupId, Cbor GroupInfo, Cbor (gmap GroupEpoch PastGroupState), Cbor AirComponent}.
Context `{TlsCodec UserId, TlsCodec AadMessage, TlsCodec QsReference, TlsCodec WelcomeBundle,
          TlsCodec ApqWelcomeBundle, TlsCodec DsCommitResponse, TlsCodec DsJoinerInformation}.

(** The signature keys of the clients a commit adds. *)
Definition added_keys (sc : StagedCommit) : list SignaturePublicKey :=
  map (fun kp => leaf_signature_key (kp_leaf_node kp)) (sc_add_proposals sc).

Lemma validate_removed_keys i u pq l : forall s s',
  foldM (validate_removed i u (Some pq)) s l = Ok s' ->
  forall j, j ∈ l -> exists leaf pq_leaf, group_leaf (group s) j = Some leaf /\
    group_leaf (group pq) j = Some pq_leaf /\ leaf_signature_key leaf = leaf_signature_key pq_leaf.
Proof.
  induction l as [|r l IH]; intros s s'; cbn; [by intros _ j ?%elem_of_nil|].
  intros (s1 & Hs1 & Hs')%Result_bind_Ok j [->|Hj]%elem_of_cons.
  - unfold validate_removed in Hs1. case_decide; [discriminate|].
    apply Result_bind_Ok in Hs1 as (leaf & Hleaf%ok_or_Ok & Hs1).
    apply Result_bind_Ok in Hs1 as (u' & Hpq & _).
    apply Result_bind_Ok in Hpq as (pq_leaf & Hpq%ok_or_Ok & Hk). case_decide; [|discriminate]. eauto.
  - apply validate_removed_room in Hs1 as [(Hg & _) _]. rewrite <- Hg. by eapply IH.
Qed.

Lemma validate_t_commit_removed s pm info pq pqsc v s' :
  validate_t_commit s pm info (Some pq) pqsc = Ok (v, s') ->
  forall j, j ∈ tcv_removed_clients v -> exists leaf pq_leaf, group_leaf (group s) j = Some leaf /\
    group_leaf (group pq) j = Some pq_leaf /\ leaf_signature_key leaf = leaf_signature_key pq_leaf.
Proof.
  unfold validate_t_commit. intros (am & _ & Hv)%Result_bind_Ok.
  destruct (aad_payload am) as [aad| | |]; try discriminate.
  destruct (pm_content pm) as [| | |sc| | |]; try discriminate.
  apply Result_bind_Ok in Hv as (si & Hsi & Hv). apply Result_bind_Ok in Hv as (sender & _ & Hv).
  apply Result_bind_Ok in Hv as ([s1 aus] & Hadds & Hv); cbn [fst snd] in Hv.
  apply Result_bind_Ok in Hv as (ext & Hext & Hv). apply Result_bind_Ok in Hv as (s2 & Hs2 & [= <- <-]).
  cbn. assert (Hg : group s1 = group s).
  { unfold validate_adds in Hadds. destruct (sc_add_proposals sc); [by inv_ok|].
    apply Result_bind_Ok in Hadds as (i & _ & Hadds). apply Result_bind_Ok in Hadds as (aus' & _ & Hadds).
    apply Result_bind_Ok in Hadds as ([s3 rest] & [(Hs3 & _) _]%validate_added_loop_room & Hadds).
    cbn in Hadds. destruct rest as [[|]|]; by inv_ok. }
  rewrite <- Hg. by eapply validate_removed_keys.
Qed.

Lemma validate_pq_commit_Ok pm info sc w :
  validate_pq_commit pm info = Ok (sc, w) ->
  pm_content pm = StagedCommitMessage sc /\ (is_Some w <-> sc_add_proposals sc <> []) /\
  match w with Some w => validate_welcome_only sc w = Ok tt | None => True end.
Proof.
  unfold validate_pq_commit. destruct (pm_content pm) as [| | |sc'| | |]; try discriminate.
  intros (si & _ & Hv)%Result_bind_Ok. case_decide; [discriminate|].
  destruct (sc_add_proposals sc') as [|kp adds] eqn:Ea.
  - injection Hv as <- <-. split; [done|]. split; [|done]. rewrite Ea. split; [by intros []|done].
  - inv_ok. split; [done|]. rewrite Ea. split; [|by destruct a0]. by split; intros.
Qed.

(** When a group operation on an APQ group succeeds, each client that the T
    commit removes sits at the same leaf of the PQ group with the same signature
    key; and if both commits add clients and the associated data has a user
    profile key for each, they add the same signature keys in the same order,
    and the PQ welcome is complete. *)
Theorem apq_operation_agrees ts pqs t_msg pq_msg t_info pq_info t ser aus w ts' pqs' t' :
  process_apq_group_operation now ts pqs t_msg pq_msg t_info pq_info t
    = (Ok (ser, aus, w, ts', pqs'), t') ->
  exists p t_group pq_group t_sc pq_sc,
    process_apq_assisted_message (group ts) (group pqs) t_msg pq_msg (fun _ _ => true)
      = Ok (p, (t_group, pq_group)) /\
    pm_content (t_message (apq_processed p)) = StagedCommitMessage t_sc /\
    pm_content (pq_message (apq_processed p)) = StagedCommitMessage pq_sc /\
    (forall j, j ∈ removed_clients t_sc -> exists leaf pq_leaf,
       group_leaf t_group j = Some leaf /\ group_leaf pq_group j = Some pq_leaf /\
       leaf_signature_key leaf = leaf_signature_key pq_leaf) /\
    (is_Some aus -> enough_profile_keys (t_message (apq_processed p)) ->
     added_keys t_sc = added_keys pq_sc) /\
    (aus = None -> sc_add_proposals t_sc = []) /\
    match w with
    | Some w => validate_welcome_only pq_sc w = Ok tt
    | None => sc_add_proposals pq_sc = []
    end.
Proof.
  unfold process_apq_group_operation. intros Hop. bindM Hop as r t1 Hr. leafM Hr. apply map_err_Ok in Hr.
  destruct r as [p [t_group pq_group]]. bindM Hop as pq t2 Hpq. leafM Hpq. destruct pq as [pq_sc w'].
  bindM Hop as v t3 Hv. leafM Hv. destruct v as [v ts1].
  bindM Hop as a t4 Ha. bindM Hop as ts2 t5 Hts2. eqM Hop.
  apply validate_pq_commit_Ok in Hpq as (Hpq_sc & Hw & Hwv).
  pose proof (validate_t_commit_removed _ _ _ _ _ _ _ Hv) as Hrem.
  apply validate_t_commit_Ok in Hv as (_ & t_sc & aad & Ht_sc & (am & Ham & Hpl) & _ & Htr & _ & Haus & _).
  exists p, t_group, pq_group, t_sc, pq_sc. split; [done|]. split; [done|]. split; [done|].
  split; [intros j Hj; rewrite <- Htr in Hj; exact (Hrem j Hj)|].
  split; [|split].
  - intros [aus Haus']. rewrite Haus' in Haus. intros Hkeys.
    destruct Haus as (info & _ & Hvau & Heq). unfold added_keys. rewrite <- Heq.
    rewrite <- (validate_added_users_all _ _ _ _ Hvau); [by rewrite map_map|]. by eapply Hkeys.
  - intros Hn. by rewrite Hn in Haus.
  - destruct w' as [w'|]; [exact Hwv|]. destruct (sc_add_proposals pq_sc); [done|]. by destruct (proj2 Hw).
Qed.

End Apq.
