(* ===== verification/DsApqLinked.v ===== *)
(** * The delivery service keeps the legs of an APQ group linked

    With the crate [apqmls] as the implementation of the interface that mls-assist
    uses, a pair of commits that the delivery service accepts leaves a T and a PQ
    group whose contexts carry one [ApqInfo], which names the two groups, their
    ciphersuites and their epochs.  A client that finds the component in one leg can
    therefore trust it for the other.  Commits on one of the groups alone, which the
    service accepts as well, move that group only; the next pair links the groups
    again. *)

From S2P Require Import Prelude Aead MemoryProvider Messages Mls MlsExample MlsCorrect Apq ApqExtension ApqMls ApqMlsCorrect DsState DsStateCorrect DsOps DsOpsCorrect.

Section Linked.
Context `{MlsContents} {Hcc : ClientCredentials} `{RoomPolicy, Welcomes} `{!TlsCodec ApqInfo}.
Context (now : nat -> TimeStamp).
Context `{Cbor GroupId, Cbor GroupInfo, Cbor (gmap GroupEpoch PastGroupState), Cbor AirComponent}.
Context `{TlsCodec UserId, TlsCodec AadMessage, TlsCodec QsReference, TlsCodec WelcomeBundle,
          TlsCodec ApqWelcomeBundle, TlsCodec DsCommitResponse, TlsCodec DsJoinerInformation}.
Context `{!OpenMlsLaws, !MlsContentsLaws}.

Definition state_context (s : DsGroupState) : GroupContext := pg_group_context (public_group (group s)).
(** The group contexts of a stored pair are linked, and one epoch further. *)
Definition advanced (ts pqs ts' pqs' : DsGroupState) : Prop :=
  (exists i, linked (state_context ts') (state_context pqs') i) /\
  gc_epoch (state_context ts') = gc_epoch (state_context ts) + 1 /\
  gc_epoch (state_context pqs') = gc_epoch (state_context pqs) + 1.

(** The pair of commits behind an accepted pair of messages. *)
Lemma process_apq_linked t_group pq_group t_am pq_am eqv p groups :
  process_apq_assisted_message t_group pq_group t_am pq_am eqv = Ok (p, groups) ->
  public_group groups.1 = public_group t_group /\ public_group groups.2 = public_group pq_group /\
  exists t_sc pq_sc i,
    pm_content (t_message (apq_processed p)) = StagedCommitMessage t_sc /\
    pm_content (pq_message (apq_processed p)) = StagedCommitMessage pq_sc /\
    pm_sender (pq_message (apq_processed p)) = pm_sender (t_message (apq_processed p)) /\
    same_clients eqv pq_sc t_sc /\
    gc_epoch (sc_group_context t_sc) = gc_epoch (pg_group_context (public_group t_group)) + 1 /\
    gc_epoch (sc_group_context pq_sc) = gc_epoch (pg_group_context (public_group pq_group)) + 1 /\
    linked (sc_group_context t_sc) (sc_group_context pq_sc) i.
Proof.
  intros Hp. destruct (process_apq_commits _ _ _ _ _ _ _ Hp) as (t_sc & pq_sc & Ht & Hpq & _).
  unfold process_apq_assisted_message in Hp. apply Result_bind_Ok in Hp as ([[pqc ?] ?] & _ & Hp).
  apply Result_bind_Ok in Hp as ([[tc ?] ?] & _ & Hp). apply Result_bind_Ok in Hp as (t_tag & _ & Hp).
  apply Result_bind_Ok in Hp as (pq_tag & _ & Hp).
  apply Result_bind_Ok in Hp as ([[tg pqg] [mt mpq]] & Hpair%map_err_Ok & Hp). inv_ok.
  cbn [fst snd public_group with_public_group apq_processed t_message pq_message] in *.
  destruct (process_public_Ok _ _ _ _ _ _ _ _ _ Hpair) as (-> & -> & Rt & Rpq & _).
  split_and!; [done|done|].
  apply (process_public_commits _ _ _ _ _ _ _ _ _ Rt Rpq Ht Hpq) in Hpair as (Hs & Hc & _ & _ & i & Hl).
  destruct (staged_context _ _ _ _ Rt Ht) as [_ N1], (staged_context _ _ _ _ Rpq Hpq) as [_ N2].
  by exists t_sc, pq_sc, i.
Qed.

(** Acceptance moves both groups to the contexts of the staged commits. *)
Lemma accept_apq_context tg pqg tst pqst m expiration t a t' t_sc pq_sc :
  accept_apq_processed_message now tg pqg tst pqst m expiration t = (Ok a, t') ->
  pm_content (t_message m) = StagedCommitMessage t_sc -> pm_content (pq_message m) = StagedCommitMessage pq_sc ->
  pg_group_context (public_group a.1.1) = sc_group_context t_sc /\
  pg_group_context (public_group a.2.1) = sc_group_context pq_sc.
Proof.
  intros Ha Ht Hpq. unfold accept_apq_processed_message in Ha. bindM Ha as [tg' tst'] t1 H1'.
  bindM Ha as [pqg' pqst'] t2 H2'. eqM Ha. cbn [fst snd].
  assert (forall g st pm gi e s g' st' s' sc, pm_content pm = StagedCommitMessage sc ->
    accept_processed_message now g st (Commit pm gi) e s = (Ok (g', st'), s') ->
    pg_group_context (public_group g') = sc_group_context sc) as Hacc.
  { intros g st pm gi e s g' st' s' sc Hsc [(pr & [=] & _)|
      (pm' & gi' & st1 & js & past1 & t3 & st2 & [[[=] _]|[= <- <-]] & Hac & _)]%accept_Ok.
    rewrite Hsc in Hac. cbn in Hac. inv_ok. by apply merge_commit_persisted in Hm as [_ ?]. }
  split; by eapply Hacc.
Qed.

Lemma apply_validation_group s v t s' t' :
  apply_validation now s v t = (Ok s', t') -> group s' = group s.
Proof.
  unfold apply_validation. intros Ha. bindM Ha as s1 t1 Hs1. transitivity (group s1).
  - destruct (tcv_external_sender v) as [[k c]|]; [|by eqM Ha]. bindM Ha as tt t2 Ht. by eqM Ha.
  - destruct (tcv_added_users_state v) as [aus|]; [|by eqM Hs1].
    unfold update_membership_profiles in Hs1. bindM Hs1 as ps t2 Hps. by eqM Hs1.
Qed.

Lemma operation_linked ts pqs t_msg pq_msg t_info pq_info t ser aus w ts' pqs' t' :
  process_apq_group_operation now ts pqs t_msg pq_msg t_info pq_info t
    = (Ok (ser, aus, w, ts', pqs'), t') ->
  advanced ts pqs ts' pqs'.
Proof.
  unfold process_apq_group_operation. intros Hop. bindM Hop as r t1 Hr. leafM Hr. apply map_err_Ok in Hr.
  destruct r as [p [tg pqg]]. bindM Hop as pq t2 Hpq. leafM Hpq. destruct pq as [pq_sc0 w'].
  bindM Hop as v t3 Hv. leafM Hv. destruct v as [v ts1].
  bindM Hop as a t4 Ha. apply map_errM_inv in Ha as (q & Ha & Hq). destruct q; [|done]. injection Hq as ->.
  bindM Hop as ts2 t5 Hts2. eqM Hop.
  destruct (process_apq_linked _ _ _ _ _ _ _ Hr) as
    (Gt & Gpq & t_sc & pq_sc & i & Ct & Cpq & Hs & Hsc & N1 & N2 & Hl).
  destruct (accept_apq_context _ _ _ _ _ _ _ _ _ _ _ Ha Ct Cpq) as [Et Epq].
  apply apply_validation_group in Hts2. unfold advanced, state_context. rewrite Hts2. cbn [group set_group].
  rewrite Et, Epq. by split; [exists i|].
Qed.

Lemma rekey_group s i j : group (rekey_sender_profile s i j) = group s.
Proof. unfold rekey_sender_profile. case_decide; [done|]. by destruct (member_profiles s !! i). Qed.

Lemma apq_resync_linked ts pqs t_msg pq_msg idx t ser ts' pqs' t' :
  apq_resync_client now ts pqs t_msg pq_msg idx t = (Ok (ser, ts', pqs'), t') -> advanced ts pqs ts' pqs'.
Proof.
  unfold apq_resync_client. intros Hop. bindM Hop as r t1 Hr. leafM Hr. apply map_err_Ok in Hr.
  destruct r as [p [tg pqg]].
  destruct (process_apq_linked _ _ _ _ _ _ _ Hr) as
    (Gt & Gpq & t_sc & pq_sc & i & Ct & Cpq & Hs & _ & N1 & N2 & Hl).
  rewrite Ct, Cpq in Hop. destruct (pm_sender (t_message (apq_processed p))), (pm_sender (pq_message (apq_processed p)));
    try by leafM Hop.
  bindM Hop as u t2 Hu. leafM Hu. bindM Hop as c t3 Hc. leafM Hc.
  destruct (decide (sort_indices (removed_clients t_sc) ≠ sort_indices (removed_clients pq_sc))); [by leafM Hop|].
  bindM Hop as pos t4 Hpos. leafM Hpos. bindM Hop as ts1 t5 Hts1. leafM Hts1.
  bindM Hop as tn t6 Htn. leafM Htn. bindM Hop as pqn t7 Hpqn. leafM Hpqn.
  destruct (decide (tn ≠ pqn)); [by leafM Hop|].
  bindM Hop as a t8 Ha. apply map_errM_inv in Ha as (q & Ha & Hq). destruct q; [|done]. injection Hq as ->. eqM Hop.
  destruct (accept_apq_context _ _ _ _ _ _ _ _ _ _ _ Ha Ct Cpq) as [Et Epq].
  unfold advanced, state_context. rewrite rekey_group. cbn [group set_group remove_profiles set_profiles].
  rewrite Et, Epq. by split; [exists i|].
Qed.

(** ** Commits on one of the groups *)

(** What is accepted moves the group to the next epoch if it is a commit, and leaves its
    context alone otherwise. *)
Lemma accept_epoch g st am p expiration t g' st' t' : process_assisted_message g am = Ok p ->
  accept_processed_message now g st (processed_assisted_message p) expiration t = (Ok (g', st'), t') ->
  (forall pm gi, processed_assisted_message p = Commit pm gi ->
     gc_epoch (pg_group_context (public_group g')) = gc_epoch (pg_group_context (public_group g)) + 1) /\
  (forall pm, processed_assisted_message p = NonCommit pm ->
     pg_group_context (public_group g') = pg_group_context (public_group g)).
Proof.
  intros Hp [(pr & E & _)|(pm & gi & st1 & js & past1 & t1 & st2 & Hm & Ha & _)]%accept_Ok;
    [rewrite E; by split; intros|].
  split.
  - intros pm' gi' E. destruct Hm as [[E' _]|E']; rewrite E in E'; [done|injection E' as -> ->].
    destruct (process_commit_staged _ _ _ _ _ Hp E) as [sc Hsc].
    destruct (process_message_of _ _ _ _ Hp (or_intror (ex_intro _ gi E))) as (m & _ & Hr).
    rewrite Hsc in Ha. cbn in Ha. inv_ok. apply merge_commit_persisted in Hm as [_ ->].
    by destruct (staged_context _ _ _ _ Hr Hsc).
  - intros pm' E. destruct Hm as [[E' _]|E']; rewrite E in E'; [injection E' as ->|done].
    pose proof (fun sc => process_non_commit _ _ _ _ sc Hp E) as Hn.
    destruct (pm_content pm) as [| | |sc| | |]; try by destruct (Hn sc).
    all: cbn in Ha; try (injection Ha as <- _ _; done); inv_ok.
    by apply add_proposal_persisted in Hm as (_ & ? & _).
Qed.

(** An operation of the delivery service on one of the two groups, and whether it moves
    the group to its next epoch: the plain handlers do not ask whether the group is
    part of an APQ group. *)
Inductive leg_step (s : DsGroupState) : bool -> DsGroupState -> Prop :=
| leg_operation params t ser aus s' t' :
    process_group_operation now s params t = (Ok (ser, aus, s'), t') -> leg_step s true s'
| leg_resync am i t ser s' t' :
    resync_client now s am i t = (Ok (ser, s'), t') -> leg_step s true s'
| leg_join params t ser s' t' :
    join_connection_group now s params t = (Ok (ser, s'), t') -> leg_step s true s'
| leg_self_remove am t leaf ser s' t' :
    self_remove_client_inner now s am t = (Ok (leaf, ser, s'), t') -> leg_step s false s'
| leg_bookkeeping s' : group s' = group s -> leg_step s false s'.

Lemma leg_step_epoch s b s' : leg_step s b s' ->
  if b then gc_epoch (state_context s') = gc_epoch (state_context s) + 1 else state_context s' = state_context s.
Proof.
  unfold state_context. intros [params t ser aus s1 t' Ho|am i t ser s1 t' Ho|params t ser s1 t' Ho
    |am t leaf ser s1 t' Ho|s1 Ho].
  - apply process_group_operation_Ok in Ho as (p & pm & gi & v & s2 & a & t1 & Hp & Hc & Hv & Ha & Hap & _).
    apply validate_t_commit_Ok in Hv as [(Hg & _) _]. apply apply_validation_group in Hap. rewrite Hap. cbn.
    rewrite Hg, <- Hc in Ha. destruct a as [g st]. by eapply (accept_epoch _ _ _ _ _ _ _ _ _ Hp Ha).
  - apply resync_client_Ok in Ho as (p & pm & gi & sc & c & pos & s2 & new & a & Hp & Hc & _ & _ & _ & _ & Hr & _ & Ha & ->).
    apply change_removed_room in Hr as (Hr & _). rewrite rekey_group. cbn. rewrite Hr, <- Hc in Ha. destruct a as [g st].
    by eapply (accept_epoch _ _ _ _ _ _ _ _ _ Hp Ha).
  - unfold join_connection_group in Ho. bindM Ho as p t1 Hp. leafM Hp. apply map_err_Ok in Hp.
    destruct (processed_assisted_message p) as [| |pm gi] eqn:Ep; [leafM Ho|leafM Ho|].
    destruct (pm_content pm); try by leafM Ho. case_decide; [leafM Ho|]. bindM Ho as aad t2 Haad. leafM Haad.
    destruct (aad_payload aad); try by leafM Ho. case_decide; [leafM Ho|].
    bindM Ho as acc t3 Ha. apply map_errM_inv in Ha as ([[g st]|] & Ha & [= ->]).
    bindM Ho as sender t4 Hse. leafM Hse. bindM Ho as t5 t6 Ht. eqM Ho. cbn.
    rewrite <- Ep in Ha. by eapply (accept_epoch _ _ _ _ _ _ _ _ _ Hp Ha).
  - unfold self_remove_client_inner in Ho. bindM Ho as p t1 Hp. leafM Hp. apply map_err_Ok in Hp.
    destruct (processed_assisted_message p) as [|pm|] eqn:Ep; [leafM Ho| |leafM Ho].
    destruct (pm_sender pm); try by leafM Ho. destruct (pm_content pm); try by leafM Ho.
    destruct (qp_proposal _); try by leafM Ho.
    bindM Ho as a t3 Ha. apply map_errM_inv in Ha as ([[g st]|] & Ha & [= ->]).
    bindM Ho as lf t4 Hlf. leafM Hlf. eqM Ho. cbn.
    rewrite <- Ep in Ha. by eapply (accept_epoch _ _ _ _ _ _ _ _ _ Hp Ha).
  - by rewrite Ho.
Qed.

(** ** Runs *)

(** Which groups a step moves to their next epoch. *)
Inductive Moved := MovedBoth | MovedT | MovedPq | MovedNone.
#[export] Instance Moved_eq_dec : EqDecision Moved.
Proof. solve_decision. Defined.

(** What the delivery service does to the stored pair of an APQ group: group operations
    and resyncs by pairs of commits, and whatever it does to one of the groups. *)
Inductive apq_step : DsGroupState * DsGroupState -> Moved -> DsGroupState * DsGroupState -> Prop :=
| step_operation ts pqs t_msg pq_msg t_info pq_info t ser aus w ts' pqs' t' :
    process_apq_group_operation now ts pqs t_msg pq_msg t_info pq_info t
      = (Ok (ser, aus, w, ts', pqs'), t') ->
    apq_step (ts, pqs) MovedBoth (ts', pqs')
| step_resync ts pqs t_msg pq_msg idx t ser ts' pqs' t' :
    apq_resync_client now ts pqs t_msg pq_msg idx t = (Ok (ser, ts', pqs'), t') ->
    apq_step (ts, pqs) MovedBoth (ts', pqs')
| step_t ts pqs b ts' : leg_step ts b ts' ->
    apq_step (ts, pqs) (if b then MovedT else MovedNone) (ts', pqs)
| step_pq ts pqs b pqs' : leg_step pqs b pqs' ->
    apq_step (ts, pqs) (if b then MovedPq else MovedNone) (ts, pqs').

Inductive apq_run (s : DsGroupState * DsGroupState) : list Moved -> DsGroupState * DsGroupState -> Prop :=
| run_nil : apq_run s [] s
| run_snoc ls s1 l s2 : apq_run s ls s1 -> apq_step s1 l s2 -> apq_run s (ls ++ [l]) s2.

Definition moves_t (l : Moved) : bool := match l with MovedBoth | MovedT => true | _ => false end.
Definition moves_pq (l : Moved) : bool := match l with MovedBoth | MovedPq => true | _ => false end.
(** How often the steps move a group, and the last step that moves any. *)
Definition epochs (f : Moved -> bool) (ls : list Moved) : Z := Z.of_nat (length (filter (fun l => f l = true) ls)).
Definition last_move (ls : list Moved) : option Moved := last (filter (fun l => l <> MovedNone) ls).

Lemma apq_step_epochs s l s' : apq_step s l s' ->
  gc_epoch (state_context s'.1) = gc_epoch (state_context s.1) + (if moves_t l then 1 else 0) /\
  gc_epoch (state_context s'.2) = gc_epoch (state_context s.2) + (if moves_pq l then 1 else 0) /\
  (l = MovedBoth -> exists i, linked (state_context s'.1) (state_context s'.2) i) /\
  (l = MovedNone -> state_context s'.1 = state_context s.1 /\ state_context s'.2 = state_context s.2).
Proof.
  intros [????????????? Ho|?????????? Ho|ts pqs b ts' Hl|ts pqs b pqs' Hl].
  - apply operation_linked in Ho as (? & ? & ?). by split_and!.
  - apply apq_resync_linked in Ho as (? & ? & ?). by split_and!.
  - apply leg_step_epoch in Hl. destruct b; cbn in *; split_and!; try done; rewrite ?Hl; lia.
  - apply leg_step_epoch in Hl. destruct b; cbn in *; split_and!; try done; rewrite ?Hl; lia.
Qed.

Lemma epochs_snoc f ls l : epochs f (ls ++ [l]) = epochs f ls + (if f l then 1 else 0).
Proof.
  unfold epochs. rewrite filter_app, length_app, filter_cons. case_decide as Hf; cbn.
  - rewrite Hf. lia.
  - destruct (f l); [done|lia].
Qed.

(** C11. The delivery service keeps the two groups of an APQ group linked.  Over any run of
    operations on the group, by pairs of commits or on one of the two groups alone, the
    epoch of each group grows by exactly the number of accepted commits on it; and as long
    as the last commit was a pair, the two stored groups carry one [ApqInfo] that names
    both groups, their ciphersuites and their current epochs, however far apart commits on
    one of the groups had moved them before. *)
Theorem apq_runs_linked ls s s' : apq_run s ls s' ->
  gc_epoch (state_context s'.1) = gc_epoch (state_context s.1) + epochs moves_t ls /\
  gc_epoch (state_context s'.2) = gc_epoch (state_context s.2) + epochs moves_pq ls /\
  (last_move ls = Some MovedBoth -> exists i, linked (state_context s'.1) (state_context s'.2) i).
Proof.
  induction 1 as [|ls s1 l s2 _ (E1 & E2 & IH) Hs]; [unfold epochs; cbn; split_and!; [lia|lia|done]|].
  apply apq_step_epochs in Hs as (S1 & S2 & S3 & S4). rewrite !epochs_snoc. split_and!; [lia|lia|].
  unfold last_move in *. rewrite filter_app, filter_cons, filter_nil. destruct (decide (l = MovedNone)) as [->|Hl].
  - rewrite decide_False by naive_solver. rewrite app_nil_r. destruct (S4 eq_refl) as [-> ->]. done.
  - rewrite decide_True by done. rewrite last_snoc. intros [= ->]. by apply S3.
Qed.

End Linked.
