(* ===== verification/DsExample.v ===== *)
(** * Concrete delivery service states

    Instances of the external interfaces of the delivery service that can be
    evaluated, and runs of its operations on small groups. *)

From S2P Require Import Prelude Aead MemoryProvider Messages Mls MlsExample MlsCorrect Apq ApqExtension ApqMls ApqMlsCorrect ApqExample DsState DsStateCorrect DsOps DsOpsCorrect DsApqCorrect DsApqLinked.

Module ToyDs.

Export ToyCodec ToyMls ToyApq Toy.

#[export] Instance toy_room : RoomPolicy := {|
  RoomState := list (list Z);
  VerifiedRoomState := list (list Z);
  apply_change_role := fun r _ target _ => Some (target :: r);
  room_verify := Some;
  room_unverified := fun r => r;
  fallback_room := fun l => l
|}.
#[export] Instance toy_room_laws : RoomPolicyLaws.
Proof. by split. Qed.
#[export] Instance toy_room_cbor : Cbor RoomState := countable_cbor (list (list Z)).
#[export] Instance toy_room_cbor_laws : CborLaws RoomState := countable_cbor_laws (list (list Z)).

#[export] Instance toy_user_tls : TlsCodec UserId := {|
  tls_serialize_detached := fun u => Some [user_uuid u];
  tls_deserialize_exact_bytes := fun _ => None
|}.

(** A credential names a user, whose key is its number. *)
#[export] Instance toy_credentials : ClientCredentials := {|
  ClientCredential := UserId * bytes;
  client_credential_tls := {|
    tls_serialize_detached := fun c => Some c.2;
    tls_deserialize_exact_bytes := fun bs =>
      match bs with [u] => Some ({| user_uuid := u; user_domain := "example.com" |}, [u]) | _ => None end
  |};
  credential_is_basic := fun _ => true;
  cred_user_id := fst;
  cred_verifying_key := snd
|}.

#[export] Instance toy_welcomes : Welcomes := {|
  Welcome := list (list Z);
  welcome_joiners := fun w => w;
  hpke_seal := fun _ _ _ p => p
|}.

(** Associated data: one byte per user profile key. *)
Definition toy_key (k : Z) : AeadCiphertext := {| ciphertext := [k]; nonce := [] |}.
#[export] Instance toy_aad_tls : TlsCodec AadMessage := {|
  tls_serialize_detached := fun _ => Some [];
  tls_deserialize_exact_bytes := fun bs =>
    Some {| aad_version := 0;
            aad_payload := AadGroupOperation {| new_encrypted_user_profile_keys := map toy_key bs |} |}
|}.

#[export] Instance toy_reference_tls : TlsCodec QsReference := {|
  tls_serialize_detached := fun r => Some (sealed_reference r);
  tls_deserialize_exact_bytes := fun bs =>
    Some {| client_homeserver_domain := "example.com"; sealed_reference := bs |}
|}.

(** Messages that are only written. *)
Definition write_only (T : Type) : TlsCodec T :=
  {| tls_serialize_detached := fun _ => Some []; tls_deserialize_exact_bytes := fun _ => None |}.
#[export] Instance toy_welcome_bundle_tls : TlsCodec WelcomeBundle := write_only _.
#[export] Instance toy_apq_welcome_bundle_tls : TlsCodec ApqWelcomeBundle := write_only _.
#[export] Instance toy_response_tls : TlsCodec DsCommitResponse := write_only _.
#[export] Instance toy_joiner_tls : TlsCodec DsJoinerInformation := write_only _.
#[export] Instance toy_component_cbor : Cbor AirComponent :=
  {| cbor_encode := fun _ => Some []; cbor_decode := fun _ => None |}.

(** The stored state, through an encoding of its parts. *)
Definition toy_entry : Type := Z * (Z * (string * list Z) * Z * Z * (list Z * list Z)).
Definition of_entry (x : Z * MemberProfile) : toy_entry :=
  let p := x.2 in
  (x.1, (leaf_index p, (client_homeserver_domain (client_queue_config p),
                        sealed_reference (client_queue_config p)), activity_time p, activity_epoch p,
         (ciphertext (encrypted_user_profile_key p), nonce (encrypted_user_profile_key p)))).
Definition to_entry (x : toy_entry) : Z * MemberProfile :=
  let '(i, (l, (d, r), t, e, (c, n))) := x in
  (i, {| leaf_index := l; client_queue_config := {| client_homeserver_domain := d; sealed_reference := r |};
         activity_time := t; activity_epoch := e;
         encrypted_user_profile_key := {| ciphertext := c; nonce := n |} |}).

Definition toy_stored : Type := bool * (list Z * list Z * list Z * list toy_entry * list (list Z)).
Definition of_stored (e : EncryptableDsGroupState) : toy_stored :=
  let v2 := v2_of_encryptable e in
  (match e with EncryptableV1 _ => false | EncryptableV2 _ => true end,
   (v2_group_id v2, v2_serialized_provider v2, v2_room_state v2, map of_entry (v2_member_profiles v2),
    v2_proposals v2)).
Definition to_stored (x : toy_stored) : EncryptableDsGroupState :=
  let '(b, (g, p, r, l, q)) := x in
  if b then EncryptableV2 {| v2_group_id := g; v2_serialized_provider := p; v2_room_state := r;
                             v2_member_profiles := map to_entry l; v2_proposals := q |}
  else EncryptableV1 {| v1_group_id := g; v1_serialized_provider := p; v1_room_state := r;
                        v1_member_profiles := map to_entry l |}.

Lemma to_of_stored e : to_stored (of_stored e) = e.
Proof.
  assert (He : forall l, map to_entry (map of_entry l) = l).
  { induction l as [|[i [? [] ? ? []]] l IH]; [done|]. cbn. by rewrite IH. }
  by destruct e as [[]|[]]; cbn; rewrite He.
Qed.

Definition put_stored (x : toy_stored) : bytes :=
  let '(b, (g, p, r, l, q)) := x in
  [Zpos (encode (b, l, q))] ++ put_bytes g ++ put_bytes p ++ put_bytes r.
Definition get_stored (bs : bytes) : option toy_stored :=
  match bs with
  | Zpos e :: bs =>
      '(b, l, q) ← (decode e : option (bool * list toy_entry * list (list Z)));
      '(g, bs) ← get_bytes bs; '(p, bs) ← get_bytes bs; '(r, bs) ← get_bytes bs;
      Some (b, (g, p, r, l, q))
  | _ => None
  end.
Lemma get_put_stored x : get_stored (put_stored x) = Some x.
Proof.
  destruct x as [b [[[[g p] r] l] q]]. unfold put_stored, get_stored. cbn [app].
  rewrite decode_encode. unfold mbind, option_bind. rewrite !get_put_bytes.
  rewrite <- (app_nil_r (put_bytes r)), get_put_bytes. done.
Qed.

#[export] Instance toy_stored_tls : TlsCodec EncryptableDsGroupState := {|
  tls_serialize_detached := fun e => Some (put_stored (of_stored e));
  tls_deserialize_exact_bytes := fun bs => to_stored <$> get_stored bs
|}.
#[export] Instance toy_stored_tls_laws : TlsCodecLaws EncryptableDsGroupState.
Proof.
  split. intros x bs. unfold tls_serialize_detached, tls_deserialize_exact_bytes, toy_stored_tls.
  intros <-%(inj Some). rewrite get_put_stored. unfold fmap, option_fmap, option_map. by rewrite to_of_stored.
Qed.

(** A state of the group [7] with the given members, each with a profile. *)
Definition toy_profile (m : Z * ToyLeaf) : MemberProfile :=
  {| leaf_index := m.1;
     client_queue_config := {| client_homeserver_domain := "example.com";
                               sealed_reference := tl_reference m.2 |};
     activity_time := 0; activity_epoch := 0; encrypted_user_profile_key := toy_key m.1 |}.

Definition toy_state (ms : list (Z * ToyLeaf)) : option DsGroupState :=
  match group_new empty_storage (([7], 0, None) : VerifiableGroupInfo) (ms : RatchetTreeIn) with
  | Ok (g, st) =>
      Some {| room_state := [] : VerifiedRoomState; group := g; provider := st;
              member_profiles := list_to_map (map (fun m => (m.1, toy_profile m)) ms);
              proposals := [] |}
  | Err _ => None
  end.

Definition toy_now (n : nat) : TimeStamp := Z.of_nat n.
Definition carol : ToyLeaf := {| tl_key := [3]; tl_credential := [13]; tl_reference := [103] |}.

(** A decision procedure for the agreement of profiles and members. *)
Definition profiles_matchb (s : DsGroupState) : bool :=
  bool_decide (dom (member_profiles s) = (list_to_set (map member_index (members (group s))) : gset Z)) &&
  forallb (fun x => x.1 =? leaf_index x.2) (map_to_list (member_profiles s)).

Lemma profiles_matchb_true s : profiles_matchb s = true -> profiles_match s.
Proof.
  unfold profiles_matchb. intros [Hd%bool_decide_eq_true Hf]%andb_true_iff. split.
  - intros i. rewrite <- elem_of_dom, Hd, elem_of_list_to_set. done.
  - intros i p Hp. rewrite forallb_forall in Hf. specialize (Hf (i, p)).
    symmetry. apply Z.eqb_eq, Hf, list_elem_of_In, elem_of_map_to_list, Hp.
Qed.

End ToyDs.

(** ** Evaluation *)

Section Evaluate_ds.
Import ToyDs.

(** Alice adds Bob, with the given associated data. *)
Definition add_bob (aad : bytes) : GroupOperationParams :=
  {| go_commit := assisted {| tm_sender := SenderMember 0; tm_context := ([7], 0, None);
       tm_type := ContentCommit; tm_proposal := ProposalOther; tm_proposals := [];
       tm_adds := [bob]; tm_path := Some alice; tm_aad := aad; tm_credential := [11] |};
     add_users_info_option := Some {| aui_welcome := [[2]] : Welcome;
       encrypted_welcome_attribution_infos := [toy_key 9] |} |}.

(** The operation succeeds on Alice's group. *)
Lemma add_bob_steps aad :
  (match toy_state [(0, alice)] with
   | Some s => match process_group_operation toy_now s (add_bob aad) 0%nat with
               | (Ok _, _) => profiles_matchb s
               | _ => false
               end
   | None => false
   end) = true ->
  exists s ser aus s' t', process_group_operation toy_now s (add_bob aad) 0%nat
    = (Ok (ser, aus, s'), t') /\ profiles_match s.
Proof.
  destruct (toy_state [(0, alice)]) as [s|]; [|done].
  destruct (process_group_operation toy_now s (add_bob aad) 0%nat) as [[[[ser aus] s']|] t'] eqn:Eo; [|done].
  intros Hs%profiles_matchb_true. eauto 10.
Qed.

(** The processed message of the operation, and its associated data. *)
Lemma add_bob_processed aad s ser aus s' t' :
  process_group_operation toy_now s (add_bob aad) 0%nat = (Ok (ser, aus, s'), t') ->
  exists p, process_assisted_message (group s) (go_commit (add_bob aad)) = Ok p /\
    forall pm gi, processed_assisted_message p = Commit pm gi ->
      pm_aad pm = aad /\ forall sc, pm_content pm = StagedCommitMessage sc -> sc_add_proposals sc = [bob : KeyPackage].
Proof.
  intros (p & pm & gi & v & s1 & a & t1 & Hp & Hc & _)%process_group_operation_Ok.
  exists p. split; [exact Hp|]. intros pm' gi' Hc'. rewrite Hc in Hc'. injection Hc' as <- <-.
  destruct (process_message_of _ _ _ _ Hp (or_intror (ex_intro _ gi Hc))) as (m & Hm & Hr).
  apply toy_process in Hr as (-> & _). injection Hm as <-. split; [done|].
  intros sc. cbn. by intros [= <-].
Qed.

Lemma group_operation_profiles_witness :
  exists s ser aus s' t', process_group_operation toy_now s (add_bob [5]) 0%nat
    = (Ok (ser, aus, s'), t') /\ profiles_match s'.
Proof.
  destruct (add_bob_steps [5]) as (s & ser & aus & s' & t' & Ho & Hs); [vm_compute; reflexivity|].
  exists s, ser, aus, s', t'. split; [exact Ho|].
  destruct (add_bob_processed _ _ _ _ _ _ Ho) as (p & Hp & Hpm).
  apply (group_operation_profiles toy_now s (add_bob [5]) p 0%nat ser aus s' t' Hs Hp); [|exact Ho].
  intros pm gi Hc. destruct (Hpm pm gi Hc) as [Haad Hadds].
  intros am aad sc Ham Hpl Hsc. rewrite (Hadds sc Hsc), Haad in *. cbn in Ham. injection Ham as <-.
  cbn in Hpl. injection Hpl as <-. cbn. lia.
Defined.


(** A client that is not in the group removes Alice's old leaf. *)
Definition external_commit : GroupOperationParams :=
  {| go_commit := assisted {| tm_sender := NewMemberCommit; tm_context := ([7], 0, None);
       tm_type := ContentCommit; tm_proposal := ProposalOther;
       tm_proposals := [(NewMemberCommit, ProposalRemove 0)]; tm_adds := [];
       tm_path := Some alice; tm_aad := []; tm_credential := [11] |};
     add_users_info_option := None |}.

Lemma group_operation_rejects_external_witness :
  exists s e t', process_group_operation toy_now s external_commit 0%nat = (Err e, t').
Proof.
  assert (Hs : match toy_state [(0, alice)] with
          | Some s => match process_assisted_message (group s) (go_commit external_commit) with
                      | Ok p => match processed_sender (processed_assisted_message p) with
                                | Some NewMemberCommit => true | _ => false end
                      | Err _ => false end
          | None => false end = true) by (vm_compute; reflexivity).
  destruct (toy_state [(0, alice)]) as [s|]; [|done]. exists s.
  destruct (process_assisted_message (group s) (go_commit external_commit)) as [p|] eqn:Ep; [|done].
  apply (group_operation_rejects_external toy_now s external_commit 0%nat p Ep).
  destruct (processed_sender (processed_assisted_message p)) as [[]|]; done.
Defined.

(** Carol resyncs by an external commit that also removes Bob: she moves to Bob's
    leaf. *)
Definition carol_resyncs : AssistedMessageIn :=
  assisted {| tm_sender := NewMemberCommit; tm_context := ([7], 0, None); tm_type := ContentCommit;
    tm_proposal := ProposalOther;
    tm_proposals := [(NewMemberCommit, ProposalRemove 1); (NewMemberCommit, ProposalRemove 2)];
    tm_adds := []; tm_path := Some carol; tm_aad := []; tm_credential := [13] |}.

Lemma resync_profiles_witness :
  exists s ser s' t', resync_client toy_now s carol_resyncs 2 0%nat = (Ok (ser, s'), t') /\
    map member_index (members (group s')) = [0; 1] /\ profiles_match s'.
Proof.
  assert (Hs : match toy_state [(0, alice); (1, bob); (2, carol)] with
          | Some s => match resync_client toy_now s carol_resyncs 2 0%nat with
                      | (Ok (_, s'), _) =>
                          profiles_matchb s && bool_decide (map member_index (members (group s')) = [0; 1])
                      | _ => false end
          | None => false end = true) by (vm_compute; reflexivity).
  destruct (toy_state [(0, alice); (1, bob); (2, carol)]) as [s|]; [|done].
  destruct (resync_client toy_now s carol_resyncs 2 0%nat) as [[[ser s']|] t'] eqn:Er; [|done].
  apply andb_true_iff in Hs as [Hs%profiles_matchb_true Hm%bool_decide_eq_true].
  exists s, ser, s', t'. split; [exact Er|]. split; [exact Hm|].
  apply (resync_profiles toy_now s carol_resyncs 2 0%nat ser s' t' Hs Er).
Defined.

Lemma ds_state_roundtrip_witness :
  exists s ct s', ds_encrypt s [1] (Ok [2]) = Ok ct /\ ds_decrypt ct [1] = Ok s' /\
    member_profiles s' = member_profiles s.
Proof.
  assert (Hs : match toy_state [(0, alice)] with
          | Some s => is_ok (ds_encrypt s [1] (Ok [2]))
          | None => false end = true) by (vm_compute; reflexivity).
  destruct (toy_state [(0, alice)]) as [s|] eqn:Es; [|done].
  destruct (ds_encrypt s [1] (Ok [2])) as [ct|] eqn:Ee; [|done].
  destruct (ds_state_roundtrip s [1] (Ok [2]) ct) as (s' & Hd & _ & _ & Hp & _); [|exact Ee|eauto 10].
  unfold toy_state in Es.
  match type of Es with context [match ?x with _ => _ end] =>
    destruct x as [[g st]|] eqn:En; [|done] end.
  injection Es as <-. cbn [group provider].
  apply (reachable_invariant toy_now). eapply reach_new. exact En.
Defined.

(** The pair of commits in which Alice adds Bob to both legs, which are the same
    group here, with the component of the next epoch. *)
Definition apq_info1 : ApqInfo :=
  {| t_session_group_id := [7]; pq_session_group_id := [7]; info_mode := ConfOnly; t_cipher_suite := 1;
     pq_cipher_suite := 1; t_epoch := 1; pq_epoch := 1 |}.
Definition apq_commit (aad : bytes) : AssistedMessageIn :=
  assisted {| tm_sender := SenderMember 0; tm_context := ([7], 0, tls_serialize_detached apq_info1);
    tm_type := ContentCommit; tm_proposal := ProposalOther; tm_proposals := [];
    tm_adds := [bob]; tm_path := Some alice; tm_aad := aad; tm_credential := [11] |}.
Definition apq_add_bob (ts pqs : DsGroupState) :=
  process_apq_group_operation toy_now ts pqs (apq_commit [5]) (apq_commit [])
    (add_users_info_option (add_bob [])) (add_users_info_option (add_bob [])) 0%nat.

Lemma apq_operation_agrees_witness :
  exists ts pqs r t', apq_add_bob ts pqs = (Ok r, t') /\
    exists p t_sc pq_sc, pm_content (t_message (apq_processed p)) = StagedCommitMessage t_sc /\
      pm_content (pq_message (apq_processed p)) = StagedCommitMessage pq_sc /\
      (enough_profile_keys (t_message (apq_processed p)) -> added_keys t_sc = added_keys pq_sc).
Proof.
  assert (Hs : match toy_state [(0, alice)] with
          | Some s => match apq_add_bob s s with
                      | (Ok (_, Some _, _, _, _), _) => true | _ => false end
          | None => false end = true) by (vm_compute; reflexivity).
  destruct (toy_state [(0, alice)]) as [s|]; [|done]. exists s, s.
  destruct (apq_add_bob s s) as [[[[[[ser [aus|]] w] ts'] pqs']|] t'] eqn:Eo; [|done|done].
  eexists _, _. split; [reflexivity|].
  destruct (apq_operation_agrees toy_now s s _ _ _ _ 0%nat ser (Some aus) w ts' pqs' t' Eo)
    as (p & tg & pqg & t_sc & pq_sc & _ & Ht & Hpq & _ & Hk & _).
  exists p, t_sc, pq_sc. split; [exact Ht|]. split; [exact Hpq|]. apply Hk. eauto.
Defined.

Lemma apq_runs_linked_witness :
  exists s s', apq_run toy_now s [MovedBoth] s' /\
    exists i, linked (state_context s'.1) (state_context s'.2) i.
Proof.
  assert (Hs : match toy_state [(0, alice)] with
          | Some s => match apq_add_bob s s with (Ok _, _) => true | _ => false end
          | None => false end = true) by (vm_compute; reflexivity).
  destruct (toy_state [(0, alice)]) as [s|]; [|done].
  destruct (apq_add_bob s s) as [[[[[[ser aus] w] ts'] pqs']|] t'] eqn:Eo; [|done].
  exists (s, s), (ts', pqs').
  assert (apq_run toy_now (s, s) [MovedBoth] (ts', pqs')) as Hn.
  { apply (run_snoc _ _ [] (s, s)); [apply run_nil|]. eapply step_operation. exact Eo. }
  split; [exact Hn|]. destruct (apq_runs_linked toy_now _ _ _ Hn) as (_ & _ & Hl). by apply Hl.
Defined.

End Evaluate_ds.
