(* ===== verification/DsService.v ===== *)
(** * The delivery service ([backend/src/ds/grpc.rs], [mod.rs], [collision_tags.rs],
      [group_state/persistence.rs], [create_group.rs], [backend/src/version.rs])

    The gRPC handlers over the database, the set of reserved group ids and the
    queue service.  Whether a statement reaches the database, the clock, nonces
    and fresh UUIDs are oracles that are read in order.  A transaction that fails,
    or whose commit fails, is rolled back; messages handed to the queue service
    are logged in order and stay. *)

From stdpp Require Import sorting.
From S2P Require Import Prelude Aead MemoryProvider Messages Grpc RateLimiter Mls Apq DsState DsOps.

(** ** Errors as statuses *)

Definition wrong_epoch_status : Status :=
  {| code := InvalidArgument; detail := WrongEpochDetail |}.

(** [From<..> for Status]. *)
Definition status_of_group_operation (e : GroupOperationError) : Status :=
  match e with
  | GoLibraryError | GoProcessingError | GoInvalidMessage => status Internal
  | GoMissingQueueConfig | GoIncompleteWelcome => status InvalidArgument
  | GoMergeCommitError _ => status Internal
  | GoWrongEpoch => wrong_epoch_status
  end.
Definition status_of_join (e : JoinConnectionGroupError) : Status :=
  match e with
  | JcInvalidMessage | JcNotAConnectionGroup => status InvalidArgument
  | JcProcessingError => status Internal
  | JcMergeCommitError _ => status Internal
  end.
Definition status_of_deletion (e : GroupDeletionError) : Status :=
  match e with
  | GdInvalidMessage => status InvalidArgument
  | GdProcessingError => status Internal
  | GdMergeCommitError _ => status Internal
  end.
Definition status_of_self_removal (e : ClientSelfRemovalError) : Status :=
  match e with
  | SrInvalidMessage => status InvalidArgument
  | SrProcessingError => status Internal
  | SrWrongEpoch => wrong_epoch_status
  | SrMergeCommitError _ => status Internal
  end.
Definition status_of_resync (e : ResyncClientError) : Status :=
  match e with
  | RcInvalidMessage => status InvalidArgument
  | RcProcessingError => status Internal
  | RcMergeCommitError _ => status Internal
  end.
Definition status_of_profile_key (e : UpdateUserProfileKeyError) : Status :=
  match e with UpkUnknownSender => status InvalidArgument end.

(** ** Group ids *)

(** [QualifiedGroupId]. *)
Record QualifiedGroupId := { group_uuid : Uuid; owning_domain : Fqdn }.

(** [validated_qgid]. *)
Definition validated_qgid (own_domain : Fqdn) (f : Field QualifiedGroupId) :
    Result Status QualifiedGroupId :=
  q ← required f;
  if decide (owning_domain q = own_domain) then Ok q else Err (status InvalidArgument).

(** ** State *)

(** A row of [encrypted_group] ([StorableDsGroupData]). *)
Record StorableDsGroupData := {
  encrypted_group_state : EncryptedDsGroupState;
  last_used : TimeStamp;
  deleted_queues : list bytes
}.

(** What a transaction covers: [encrypted_group] and [ds_collision_tag], whose key
    is group, epoch and tag. *)
Record DsDb := {
  encrypted_group : gmap Uuid StorableDsGroupData;
  ds_collision_tag : gset (Uuid * Z * Z)
}.

(** The service: the database, the rate limiter's table, the reserved group ids,
    the messages handed to the queue service, and the positions in the oracles. *)
Record DsWorld := {
  db : DsDb;
  allowances : RlPostgresStorage;
  reserved_group_ids : gset Uuid;
  dispatched : list DsFanOutMessage;
  clock : nat;
  ds_statements : nat;
  ds_nonces : nat;
  ds_uuids : nat
}.

Definition set_db (d : DsDb) (w : DsWorld) : DsWorld :=
  {| db := d; allowances := allowances w; reserved_group_ids := reserved_group_ids w;
     dispatched := dispatched w; clock := clock w; ds_statements := ds_statements w;
     ds_nonces := ds_nonces w; ds_uuids := ds_uuids w |}.
Definition set_groups (m : gmap Uuid StorableDsGroupData) (w : DsWorld) : DsWorld :=
  set_db {| encrypted_group := m; ds_collision_tag := ds_collision_tag (db w) |} w.
Definition set_tags (t : gset (Uuid * Z * Z)) (w : DsWorld) : DsWorld :=
  set_db {| encrypted_group := encrypted_group (db w); ds_collision_tag := t |} w.
Definition set_allowances (a : RlPostgresStorage) (w : DsWorld) : DsWorld :=
  {| db := db w; allowances := a; reserved_group_ids := reserved_group_ids w;
     dispatched := dispatched w; clock := clock w; ds_statements := ds_statements w;
     ds_nonces := ds_nonces w; ds_uuids := ds_uuids w |}.
Definition set_reserved (r : gset Uuid) (w : DsWorld) : DsWorld :=
  {| db := db w; allowances := allowances w; reserved_group_ids := r;
     dispatched := dispatched w; clock := clock w; ds_statements := ds_statements w;
     ds_nonces := ds_nonces w; ds_uuids := ds_uuids w |}.
Definition log_dispatch (ms : list DsFanOutMessage) (w : DsWorld) : DsWorld :=
  {| db := db w; allowances := allowances w; reserved_group_ids := reserved_group_ids w;
     dispatched := dispatched w ++ ms; clock := clock w; ds_statements := ds_statements w;
     ds_nonces := ds_nonces w; ds_uuids := ds_uuids w |}.
Definition tick_counters (c s n u : nat) (w : DsWorld) : DsWorld :=
  {| db := db w; allowances := allowances w; reserved_group_ids := reserved_group_ids w;
     dispatched := dispatched w; clock := c; ds_statements := s; ds_nonces := n; ds_uuids := u |}.

(** ** Collision tags *)

Definition MAX_COLLISION_TAGS_PER_REQUEST : nat := 30.
Definition MAX_PAST_EPOCHS : Z := 5.

Inductive CollisionTagError :=
| TagDatabase
| Collision (collisions : list Z)
| DuplicateTag (tag : Z)
| TooManyTags
| NoTags.

Definition status_of_tag_error (e : CollisionTagError) : Status :=
  match e with
  | TagDatabase => status Internal
  | Collision tags => {| code := AlreadyExists; detail := GenerationCollisionDetail tags |}
  | DuplicateTag _ | TooManyTags | NoTags => status InvalidArgument
  end.

(** The first pair of equal neighbours. *)
Fixpoint first_duplicate (l : list Z) : option Z :=
  match l with
  | x :: l' =>
      match l' with
      | y :: _ => if decide (x = y) then Some x else first_duplicate l'
      | [] => None
      end
  | [] => None
  end.

(** [TryInto<CollisionTags>]. *)
Definition collision_tags_try_into (tags : list Z) : Result CollisionTagError (list Z) :=
  let tags := merge_sort Z.le tags in
  match first_duplicate tags with
  | Some t => Err (DuplicateTag t)
  | None =>
      if decide (tags = []) then Err NoTags
      else if decide (MAX_COLLISION_TAGS_PER_REQUEST < length tags)%nat then Err TooManyTags
      else Ok tags
  end.

Section Service.
Context `{OpenMls} {Happ : Apqmls} {Hcc : ClientCredentials} `{RoomPolicy, Welcomes, Semver}.
Context `{Cbor GroupId, Cbor GroupInfo, Cbor (gmap GroupEpoch PastGroupState)}.
Context `{Cbor PublicGroupState, Cbor SerializableStorage, Cbor RoomState, Cbor AirComponent}.
Context `{TlsCodec UserId, TlsCodec EncryptableDsGroupState, Aes256Gcm}.
Context `{TlsCodec AadMessage, TlsCodec QsReference, TlsCodec WelcomeBundle,
          TlsCodec ApqWelcomeBundle, TlsCodec DsCommitResponse, TlsCodec DsJoinerInformation,
          TlsCodec QualifiedGroupId}.
(** Configuration and oracles. *)
Context (own_domain : Fqdn) (client_version_req : option VersionReq).
Context (db_ok : nat -> bool) (now : nat -> TimeStamp) (nonce_of : nat -> Result RandomnessErr bytes)
        (uuid_of : nat -> Uuid).

(** A statement that is sent to the database. *)
Definition ds_statement {E} (e : E) : M DsWorld E unit := fun w =>
  ((if db_ok (ds_statements w) then Ok tt else Err e),
   tick_counters (clock w) (S (ds_statements w)) (ds_nonces w) (ds_uuids w) w).

(** A fresh nonce, and an operation that reads the clock. *)
Definition next_nonce {E} : M DsWorld E (Result RandomnessErr bytes) := fun w =>
  (Ok (nonce_of (ds_nonces w)),
   tick_counters (clock w) (ds_statements w) (S (ds_nonces w)) (ds_uuids w) w).
Definition with_clock {E A} (conv : E -> Status) (m : M nat E A) : M DsWorld Status A := fun w =>
  let '(r, t) := m (clock w) in
  (map_err conv r, tick_counters t (ds_statements w) (ds_nonces w) (ds_uuids w) w).

(** [begin], a body, [commit]; a dropped transaction is rolled back. *)
Definition ds_transaction {E A} (e : E) (body : M DsWorld E A) : M DsWorld E A := fun w =>
  match (_ ← ds_statement e; body) w with
  | (Ok a, w1) =>
      match ds_statement e w1 with
      | (Ok _, w2) => (Ok a, w2)
      | (Err e', w2) => (Err e', set_db (db w) w2)
      end
  | (Err e', w1) => (Err e', set_db (db w) w1)
  end.

(** [check_and_insert].  The order of the collisions, which SQL leaves open, is that
    of the sorted tags. *)
Definition check_and_insert (group_id : Uuid) (epoch : Z) (tags : list Z) :
    M DsWorld CollisionTagError unit :=
  tags ← lift (collision_tags_try_into tags);
  ds_transaction TagDatabase
    (_ ← ds_statement TagDatabase;
     present ← gets (fun w => ds_collision_tag (db w));
     _ ← modify (fun w => set_tags (present ∪ list_to_set (map (fun t => (group_id, epoch, t)) tags)) w);
     let collisions := filter (fun t => (group_id, epoch, t) ∈ present) tags in
     if decide (collisions = []) then mret tt
     else _ ← ds_statement TagDatabase; throw (Collision collisions)).

(** [delete_old], as the callers run it: best effort. *)
Definition delete_old (group_id : Uuid) (current_epoch max_past_epochs : Z) :
    M DsWorld Status unit := fun w =>
  let cutoff := as_i64 (as_i64 current_epoch - as_i64 max_past_epochs) in
  match ds_statement (status Internal) w with
  | (Ok _, w1) =>
      (Ok tt, set_tags (filter (fun x => ~ (x.1.1 = group_id /\ x.1.2 < cutoff))
                          (ds_collision_tag (db w1))) w1)
  | (Err _, w1) => (Ok tt, w1)
  end.

(** ** Reserved group ids ([mod.rs], [process.rs]) *)

Definition reserve_group_id (u : Uuid) : M DsWorld Status bool := fun w =>
  if decide (u ∈ reserved_group_ids w) then (Ok false, w)
  else (Ok true, set_reserved ({[u]} ∪ reserved_group_ids w) w).

Definition claim_reserved_group_id (u : Uuid) : M DsWorld Status (option Uuid) := fun w =>
  if decide (u ∈ reserved_group_ids w)
  then (Ok (Some u), set_reserved (reserved_group_ids w ∖ {[u]}) w)
  else (Ok None, w).

(** [request_group_id]: draw UUIDs until one is not yet reserved.  The fuel bounds
    the number of draws. *)
Fixpoint request_group_id (fuel : nat) (w : DsWorld) : option (QualifiedGroupId * DsWorld) :=
  match fuel with
  | O => None
  | S fuel =>
      let u := uuid_of (ds_uuids w) in
      let w1 := tick_counters (clock w) (ds_statements w) (ds_nonces w) (S (ds_uuids w)) w in
      match reserve_group_id u w1 with
      | (Ok true, w2) => Some ({| group_uuid := u; owning_domain := own_domain |}, w2)
      | (_, w2) => request_group_id fuel w2
      end
  end.

(** ** Storage of group states *)

(** [StorableDsGroupData::load], without and with [FOR UPDATE]. *)
Definition group_data_load (u : Uuid) : M DsWorld Status (option StorableDsGroupData) :=
  _ ← ds_statement (status Internal);
  gets (fun w => encrypted_group (db w) !! u).

(** [store]: [ON CONFLICT DO NOTHING]. *)
Definition group_data_store (u : Uuid) (d : StorableDsGroupData) : M DsWorld Status unit :=
  _ ← ds_statement (status Internal);
  modify (fun w => match encrypted_group (db w) !! u with
                   | Some _ => w
                   | None => set_groups (<[u := d]> (encrypted_group (db w))) w
                   end).

(** [update]: rows that are gone are not written. *)
Definition group_data_update (u : Uuid) (d : StorableDsGroupData) : M DsWorld Status unit :=
  _ ← ds_statement (status Internal);
  modify (fun w => match encrypted_group (db w) !! u with
                   | Some _ => set_groups (<[u := d]> (encrypted_group (db w))) w
                   | None => w
                   end).

(** [delete]. *)
Definition group_data_delete (u : Uuid) : M DsWorld Status unit :=
  _ ← ds_statement (status Internal);
  modify (fun w => set_groups (delete u (encrypted_group (db w))) w).

(** [new_and_store]. *)
Definition new_and_store (u : Uuid) (ct : EncryptedDsGroupState) : M DsWorld Status unit :=
  t ← with_clock id (timestamp_now now);
  group_data_store u {| encrypted_group_state := ct; last_used := t; deleted_queues := [] |}.

(** [load_group_state]. *)
Definition load_group_state (q : QualifiedGroupId) (ear_key : GroupStateEarKey) :
    M DsWorld Status (StorableDsGroupData * DsGroupState) :=
  d ← group_data_load (group_uuid q);
  d ← lift (ok_or (status NotFound) d);
  s ← lift (map_err (fun _ => status Internal) (ds_decrypt (encrypted_group_state d) ear_key));
  mret (d, s).

(** [load_group_state_immutable]. *)
Definition load_group_state_immutable (q : QualifiedGroupId) (ear_key : GroupStateEarKey) :
    M DsWorld Status (StorableDsGroupData * DsGroupState) :=
  _ ← ds_statement (status Internal);
  load_group_state q ear_key.

(** [load_group_state_immutable_pair]: the transaction only reads. *)
Definition load_group_state_immutable_pair (q : QualifiedGroupId) (pq : option QualifiedGroupId)
    (ear_key : GroupStateEarKey) : M DsWorld Status (DsGroupState * option DsGroupState) :=
  _ ← ds_statement (status Internal);
  r ← load_group_state q ear_key;
  match pq with
  | Some pq => r' ← load_group_state pq ear_key; mret (r.2, Some r'.2)
  | None => mret (r.2, None)
  end.

(** [encrypt_and_persist]. *)
Definition encrypt_and_persist (q : QualifiedGroupId) (d : StorableDsGroupData) (s : DsGroupState)
    (ear_key : GroupStateEarKey) : M DsWorld Status unit :=
  rnd ← next_nonce;
  ct ← lift (map_err (fun _ => status Internal) (ds_encrypt s ear_key rnd));
  group_data_update (group_uuid q)
    {| encrypted_group_state := ct; last_used := last_used d; deleted_queues := deleted_queues d |}.

(** ** Fan-out *)

(** [fan_out_message]: the messages are dispatched concurrently, failures are
    logged only. *)
Definition fan_out_message (p : DsFanOutPayload) (destinations : list QsReference)
    (suppress broadcast : bool) : M DsWorld Status TimeStamp :=
  _ ← modify (log_dispatch
        (map (fun d => {| fo_payload := p; client_reference := d; suppress_notifications := suppress;
                          broadcast_to_all_client_queues := broadcast |}) destinations));
  mret (fan_out_timestamp p).
Definition fan_out_message_without_notifications (p : DsFanOutPayload)
    (destinations : list QsReference) (broadcast : bool) : M DsWorld Status TimeStamp :=
  fan_out_message p destinations true broadcast.

(** The dispatch of individual messages, one after the other. *)
Definition dispatch_all (ms : list DsFanOutMessage) : M DsWorld Status unit :=
  modify (log_dispatch ms).

(** [From<SerializedMlsMessage> for QsQueueMessagePayload] and [apq_mls_message]. *)
Definition mls_message_payload (m : SerializedMlsMessage) : M DsWorld Status DsFanOutPayload :=
  t ← with_clock id (timestamp_now now);
  mret (FanOutQueueMessage {| timestamp := t; message_type := MlsMessageType; payload := m |}).
Definition apq_mls_message (t : TimeStamp) (m : SerializedMlsMessage) : QsQueueMessagePayload :=
  {| timestamp := t; message_type := ApqMlsMessageType; payload := m |}.

(** ** Verification *)

(** [sender_client_credential]. *)
Definition sender_client_credential (s : DsGroupState) (i : LeafNodeIndex) :
    Result Status ClientCredential :=
  leaf ← ok_or (status InvalidArgument) (group_leaf (group s) i);
  ok_or (status InvalidArgument)
    (tls_deserialize_exact_bytes (serialized_content (leaf_node_credential leaf))).

(** [resolve_and_verify]. *)
Definition resolve_and_verify {P} `{VerifiableRequest P} (r : SignedRequest P)
    (message : AssistedMessageIn) (s : DsGroupState) (sender_index : option LeafNodeIndex) :
    Result Status (P * LeafNodeIndex) :=
  i ← match sender_index with
      | Some i => Ok i
      | None => match am_sender message with
                | Some (SenderMember i) => Ok i
                | _ => Err (status InvalidArgument)
                end
      end;
  credential ← sender_client_credential s i;
  p ← verify_request r (cred_verifying_key credential);
  Ok (p, i).

(** [AssistedMessageIn::qgid] and its validation. *)
Definition message_qgid (m : AssistedMessageIn) : Result Status QualifiedGroupId :=
  validated_qgid own_domain
    match tls_deserialize_exact_bytes (am_group_id m) with
    | Some q => FieldValue q
    | None => FieldInvalid
    end.

(** [LeafVerificationData]. *)
Record LeafVerificationData (P : Type) := {
  lvd_ear_key : GroupStateEarKey;
  lvd_group_state : DsGroupState;
  lvd_sender_index : LeafNodeIndex;
  lvd_payload : P;
  lvd_message : AssistedMessageIn
}.

(** A field of the payload of a request. *)
Definition request_field {P A} (r : SignedRequest P) (f : P -> Field A) : Field A :=
  match sr_payload r with Some p => f p | None => FieldMissing end.

(** [update_group_state_without_verification]. *)
Definition update_group_state_without_verification {A} (q : QualifiedGroupId)
    (ear_key : GroupStateEarKey) (f : DsGroupState -> M DsWorld Status (A * DsGroupState)) :
    M DsWorld Status A :=
  r ← ds_transaction (status Internal)
        (ds ← load_group_state q ear_key;
         v ← f ds.2;
         _ ← encrypt_and_persist q ds.1 v.2 ear_key;
         mret (v.1, group_epoch (group v.2)));
  _ ← delete_old (group_uuid q) r.2 MAX_PAST_EPOCHS;
  mret r.1.

(** [update_group_state]. *)
Definition update_group_state {P A} `{VerifiableRequest P} (ear_key_of : P -> Field GroupStateEarKey)
    (message_of : P -> Field AssistedMessageIn) (request : SignedRequest P)
    (sender_index : option LeafNodeIndex)
    (f : LeafVerificationData P -> M DsWorld Status (A * DsGroupState)) : M DsWorld Status A :=
  ear_key ← lift (required (request_field request ear_key_of));
  message ← lift (required (request_field request message_of));
  q ← lift (message_qgid message);
  r ← ds_transaction (status Internal)
        (ds ← load_group_state q ear_key;
         pi ← lift (resolve_and_verify request message ds.2 sender_index);
         v ← f {| lvd_ear_key := ear_key; lvd_group_state := ds.2; lvd_sender_index := pi.2;
                  lvd_payload := pi.1; lvd_message := message |};
         _ ← encrypt_and_persist q ds.1 v.2 ear_key;
         mret (v.1, group_epoch (group v.2)));
  _ ← delete_old (group_uuid q) r.2 MAX_PAST_EPOCHS;
  mret r.1.

(** [ApqVerificationData] and [ApqFanOut]. *)
Record ApqVerificationData (P : Type) := {
  avd_payload : P;
  avd_t_group_state : DsGroupState;
  avd_pq_group_state : DsGroupState;
  avd_t_message : AssistedMessageIn;
  avd_pq_message : AssistedMessageIn;
  avd_t_sender_index : LeafNodeIndex;
  avd_ear_key : GroupStateEarKey
}.
Record ApqFanOut (A : Type) := {
  af_broadcast : QsQueueMessagePayload * list QsReference;
  af_individual : list DsFanOutMessage;
  af_value : A
}.

(** The check of [update_apq_group_state] that the two senders are one client. *)
Definition check_apq_senders (ts pqs : DsGroupState) (pq_message : AssistedMessageIn)
    (sender_index : option LeafNodeIndex) (t_sender_index : LeafNodeIndex) : Result Status unit :=
  pq_sender_index ← match sender_index with
                    | Some i => Ok i
                    | None => match am_sender pq_message with
                              | Some (SenderMember i) => Ok i
                              | _ => Err (status InvalidArgument)
                              end
                    end;
  if decide (t_sender_index <> pq_sender_index) then Err (status InvalidArgument)
  else
    t_leaf ← ok_or (status InvalidArgument) (group_leaf (group ts) t_sender_index);
    pq_leaf ← ok_or (status InvalidArgument) (group_leaf (group pqs) pq_sender_index);
    if decide (leaf_signature_key t_leaf = leaf_signature_key pq_leaf) then Ok tt
    else Err (status InvalidArgument).

(** [update_apq_group_state]. *)
Definition update_apq_group_state {P A} `{VerifiableRequest P}
    (ear_key_of : P -> Field GroupStateEarKey)
    (messages_of : P -> Field (AssistedMessageIn * AssistedMessageIn)) (request : SignedRequest P)
    (sender_index : option LeafNodeIndex)
    (f : ApqVerificationData P -> M DsWorld Status (ApqFanOut A * DsGroupState * DsGroupState)) :
    M DsWorld Status A :=
  ear_key ← lift (required (request_field request ear_key_of));
  messages ← lift (required (request_field request messages_of));
  let '(t_message, pq_message) := messages in
  t_q ← lift (message_qgid t_message);
  pq_q ← lift (message_qgid pq_message);
  r ← ds_transaction (status Internal)
        (t ← load_group_state t_q ear_key;
         pi ← lift (resolve_and_verify request t_message t.2 sender_index);
         pq ← load_group_state pq_q ear_key;
         _ ← lift (check_apq_senders t.2 pq.2 pq_message sender_index pi.2);
         let broadcast := broadcast_to_all t.2 in
         v ← f {| avd_payload := pi.1; avd_t_group_state := t.2; avd_pq_group_state := pq.2;
                  avd_t_message := t_message; avd_pq_message := pq_message;
                  avd_t_sender_index := pi.2; avd_ear_key := ear_key |};
         let '(out, ts, pqs) := v in
         _ ← encrypt_and_persist t_q t.1 ts ear_key;
         _ ← encrypt_and_persist pq_q pq.1 pqs ear_key;
         mret (out, broadcast, group_epoch (group ts)));
  let '(out, broadcast, epoch) := r in
  _ ← fan_out_message_without_notifications (FanOutQueueMessage (af_broadcast A out).1)
        (af_broadcast A out).2 broadcast;
  _ ← dispatch_all (af_individual A out);
  _ ← delete_old (group_uuid t_q) epoch MAX_PAST_EPOCHS;
  mret (af_value A out).

(** ** Creation of groups *)

Context `{Sha256, Chrono}.

(** [Uuid::as_bytes]. *)
Definition uuid_bytes (u : Uuid) : bytes := rev (to_le_bytes 16 u).

(** The rate limit of [create_group] and [create_apq_group]: 100 per hour and user. *)
Definition creation_allowed (user : UserId) : M DsWorld Status bool := fun w =>
  let key := RlKey_new (bytes_of_string "ds") (bytes_of_string "reserve_group_id")
               [bytes_of_string "user_uuid"; uuid_bytes (user_uuid user)] in
  let config := {| max_requests := 100; time_window := 3600 * 10 ^ 9 |} in
  let c := clock w in
  let '(b, a) := allowed config (allowances w) key
                   {| at_new := now c; at_check := now (S c); at_reset := now (S (S c)) |} in
  (Ok b, tick_counters (S (S (S c))) (ds_statements w) (ds_nonces w) (ds_uuids w) (set_allowances a w)).

(** [CreateGroupPayload]. *)
Record CreateGroupPayload := {
  cg_client_metadata : option ClientMetadata;
  cg_qgid : Field QualifiedGroupId;
  cg_ear_key : Field GroupStateEarKey;
  cg_group_info : Field VerifiableGroupInfo;
  cg_ratchet_tree : Field RatchetTreeIn;
  cg_user_profile_key : Field EncryptedUserProfileKey;
  cg_client_reference : Field QsReference;
  cg_room_state : Field RoomState
}.

(** The credential of the sole member of a new group ([extract_credential]). *)
Definition extract_credential (g : Group) : Result Status ClientCredential :=
  match members g with
  | [m] => ok_or (status InvalidArgument)
             (tls_deserialize_exact_bytes (serialized_content (member_credential m)))
  | _ => Err (status InvalidArgument)
  end.

(** [create_group].  The signature of the request is not verified. *)
Definition create_group (request : SignedRequest CreateGroupPayload) : M DsWorld Status unit :=
  p ← lift (ok_or (status InvalidArgument) (sr_payload request));
  _ ← lift (verify_client_version client_version_req (cg_client_metadata p));
  q ← lift (validated_qgid own_domain (cg_qgid p));
  ear_key ← lift (required (cg_ear_key p));
  u ← claim_reserved_group_id (group_uuid q);
  u ← lift (ok_or (status InvalidArgument) u);
  gi ← lift (required (cg_group_info p));
  rt ← lift (required (cg_ratchet_tree p));
  gs ← lift (map_err (fun _ => status Internal) (group_new empty_storage gi rt));
  credential ← lift (extract_credential gs.1);
  ok ← creation_allowed (cred_user_id credential);
  _ ← lift (ensure ok (status ResourceExhausted));
  key ← lift (required (cg_user_profile_key p));
  reference ← lift (required (cg_client_reference p));
  room ← lift (required (cg_room_state p));
  room ← lift (ok_or (status InvalidArgument) (room_verify room));
  s ← with_clock id (ds_group_state_new now gs.2 gs.1 key reference room);
  rnd ← next_nonce;
  ct ← lift (map_err (fun _ => status Internal) (ds_encrypt s ear_key rnd));
  new_and_store u ct.

(** [GroupSessionData], and [extract_group_state]. *)
Record GroupSessionData := {
  gsd_qgid : Field QualifiedGroupId;
  gsd_ear_key : Field GroupStateEarKey;
  gsd_ratchet_tree : Field RatchetTreeIn;
  gsd_group_info : Field VerifiableGroupInfo
}.
Definition extract_group_state (data : GroupSessionData) (key : EncryptedUserProfileKey)
    (reference : QsReference) (room : VerifiedRoomState) :
    M DsWorld Status (QualifiedGroupId * DsGroupState * GroupStateEarKey) :=
  q ← lift (validated_qgid own_domain (gsd_qgid data));
  ear_key ← lift (required (gsd_ear_key data));
  gi ← lift (required (gsd_group_info data));
  rt ← lift (required (gsd_ratchet_tree data));
  gs ← lift (map_err (fun _ => status Internal) (group_new empty_storage gi rt));
  s ← with_clock id (ds_group_state_new now gs.2 gs.1 key reference room);
  mret (q, s, ear_key).

(** [sole_member_signature_key] and [verify_signing_key]. *)
Definition sole_member_signature_key (g : Group) : Result Status bytes :=
  match members g with
  | [m] => Ok (member_signature_key m)
  | _ => Err (status InvalidArgument)
  end.
Definition verify_signing_key (t_group pq_group : Group) : Result Status unit :=
  t ← sole_member_signature_key t_group;
  pq ← sole_member_signature_key pq_group;
  if decide (t <> pq) then Err (status InvalidArgument) else Ok tt.

(** [CreateApqGroupPayload]. *)
Record CreateApqGroupPayload := {
  ca_client_metadata : option ClientMetadata;
  ca_user_profile_key : Field EncryptedUserProfileKey;
  ca_client_reference : Field QsReference;
  ca_room_state : Field RoomState;
  ca_t_group_data : Field GroupSessionData;
  ca_pq_group_data : Field GroupSessionData
}.

(** [create_apq_group]. *)
Definition create_apq_group `{VerifiableRequest CreateApqGroupPayload}
    (request : SignedRequest CreateApqGroupPayload) : M DsWorld Status unit :=
  p ← lift (ok_or (status InvalidArgument) (sr_payload request));
  _ ← lift (verify_client_version client_version_req (ca_client_metadata p));
  key ← lift (required (ca_user_profile_key p));
  reference ← lift (required (ca_client_reference p));
  room ← lift (required (ca_room_state p));
  room ← lift (ok_or (status InvalidArgument) (room_verify room));
  t_data ← lift (required (ca_t_group_data p));
  t ← extract_group_state t_data key reference room;
  let '(t_q, ts, ear_key) := t in
  credential ← lift (extract_credential (group ts));
  ok ← creation_allowed (cred_user_id credential);
  _ ← lift (ensure ok (status ResourceExhausted));
  p ← lift (verify_request request (cred_verifying_key credential));
  pq_data ← lift (required (ca_pq_group_data p));
  pq ← extract_group_state pq_data key reference room;
  let '(pq_q, pqs, _) := pq in
  _ ← lift (verify_signing_key (group ts) (group pqs));
  t_u ← claim_reserved_group_id (group_uuid t_q);
  t_u ← lift (ok_or (status InvalidArgument) t_u);
  pq_u ← claim_reserved_group_id (group_uuid pq_q);
  pq_u ← lift (ok_or (status InvalidArgument) pq_u);
  rnd ← next_nonce;
  t_ct ← lift (map_err (fun _ => status Internal) (ds_encrypt ts ear_key rnd));
  rnd ← next_nonce;
  pq_ct ← lift (map_err (fun _ => status Internal) (ds_encrypt pqs ear_key rnd));
  ds_transaction (status Internal)
    (_ ← new_and_store t_u t_ct;
     new_and_store pq_u pq_ct).

(** ** Reading group states *)

(** A user profile key with the leaf index of its owner. *)
Definition indexed_user_profile_keys (s : DsGroupState) : list (LeafNodeIndex * EncryptedUserProfileKey) :=
  map (fun x => (x.1, encrypted_user_profile_key x.2)) (btree_iter (member_profiles s)).

Record WelcomeInfoPayload := {
  wi_client_metadata : option ClientMetadata;
  wi_qgid : Field QualifiedGroupId;
  wi_ear_key : Field GroupStateEarKey;
  wi_sender : Field SignaturePublicKey;
  wi_epoch : Field GroupEpoch
}.
Record WelcomeInfoResponse := {
  wir_ratchet_tree : RatchetTree;
  wir_user_profile_keys : list EncryptedUserProfileKey;
  wir_room_state : RoomState;
  wir_indexed_user_profile_keys : list (LeafNodeIndex * EncryptedUserProfileKey)
}.

(** [welcome_info]: the request is signed with the key of the joiner. *)
Definition welcome_info_handler `{VerifiableRequest WelcomeInfoPayload}
    (request : SignedRequest WelcomeInfoPayload) : M DsWorld Status WelcomeInfoResponse :=
  sender ← lift (required (request_field request wi_sender));
  p ← lift (verify_request request sender);
  _ ← lift (verify_client_version client_version_req (wi_client_metadata p));
  q ← lift (validated_qgid own_domain (wi_qgid p));
  ear_key ← lift (required (wi_ear_key p));
  ds ← load_group_state_immutable q ear_key;
  epoch ← lift (required (wi_epoch p));
  tree ← lift (ok_or (status NotFound) (welcome_info ds.2 epoch sender));
  mret {| wir_ratchet_tree := tree; wir_user_profile_keys := encrypted_user_profile_keys ds.2;
          wir_room_state := room_unverified (room_state ds.2);
          wir_indexed_user_profile_keys := indexed_user_profile_keys ds.2 |}.

Record ExternalCommitInfoRequest := {
  ei_client_metadata : option ClientMetadata;
  ei_qgid : Field QualifiedGroupId;
  ei_ear_key : Field GroupStateEarKey;
  ei_pq_qgid : Field QualifiedGroupId
}.

(** [external_commit_info], for one group or for both legs of an APQ group. *)
Definition external_commit_info_handler (request : ExternalCommitInfoRequest) :
    M DsWorld Status (ExternalCommitInfo * list (LeafNodeIndex * EncryptedUserProfileKey) *
                      option ExternalCommitInfo) :=
  _ ← lift (verify_client_version client_version_req (ei_client_metadata request));
  q ← lift (required (ei_qgid request));
  ear_key ← lift (required (ei_ear_key request));
  pq ← lift (optional (ei_pq_qgid request));
  ss ← load_group_state_immutable_pair q pq ear_key;
  mret (external_commit_info ss.1, indexed_user_profile_keys ss.1, external_commit_info <$> ss.2).

(** [connection_group_info]. *)
Definition connection_group_info_handler (request : ExternalCommitInfoRequest) :
    M DsWorld Status (ExternalCommitInfo * list (LeafNodeIndex * EncryptedUserProfileKey)) :=
  _ ← lift (verify_client_version client_version_req (ei_client_metadata request));
  q ← lift (required (ei_qgid request));
  ear_key ← lift (required (ei_ear_key request));
  ds ← load_group_state_immutable q ear_key;
  mret (external_commit_info ds.2, indexed_user_profile_keys ds.2).

(** ** Messages *)

(** The payloads of the requests that carry an MLS message share these fields. *)
Record MessagePayload (X : Type) := {
  mp_client_metadata : option ClientMetadata;
  mp_ear_key : Field GroupStateEarKey;
  mp_message : Field AssistedMessageIn;
  mp_sender : Field LeafNodeIndex;
  mp_extra : X
}.
Arguments mp_client_metadata {X}.
Arguments mp_ear_key {X}.
Arguments mp_message {X}.
Arguments mp_sender {X}.
Arguments mp_extra {X}.

(** The checks at the head of a handler: signature present, payload present, client
    version. *)
Definition handler_head {P} (metadata : P -> option ClientMetadata) (request : SignedRequest P) :
    Result Status P :=
  _ ← ok_or (status InvalidArgument) (sr_signature request);
  p ← ok_or (status InvalidArgument) (sr_payload request);
  _ ← verify_client_version client_version_req (metadata p);
  Ok p.

(** What [send_message] adds: tags that detect generation collisions, and whether
    to suppress notifications. *)
Record SendMessageExtra := {
  se_collision_tags : option (list Z);
  se_suppress_notifications : option bool
}.

(** The collision check of [send_message] and [targeted_message]. *)
Definition check_collisions (q : QualifiedGroupId) (m : AssistedMessageIn) (tags : option (list Z)) :
    M DsWorld Status unit :=
  match tags with
  | Some tags =>
      map_errM status_of_tag_error (check_and_insert (group_uuid q) (as_i64 (am_epoch m)) tags)
  | None => mret tt
  end.

(** [send_message]. *)
Definition send_message `{VerifiableRequest (MessagePayload SendMessageExtra)}
    (request : SignedRequest (MessagePayload SendMessageExtra)) : M DsWorld Status TimeStamp :=
  p ← lift (handler_head mp_client_metadata request);
  sender_index ← lift (required (mp_sender p));
  ear_key ← lift (required (mp_ear_key p));
  message ← lift (required (mp_message p));
  q ← lift (message_qgid message);
  ds ← load_group_state_immutable q ear_key;
  credential ← lift (sender_client_credential ds.2 sender_index);
  p ← lift (verify_request request (cred_verifying_key credential));
  _ ← check_collisions q message (se_collision_tags (mp_extra p));
  fo ← mls_message_payload (serialized_mls_message message);
  fan_out_message fo (other_destination_clients ds.2 sender_index)
    (default false (se_suppress_notifications (mp_extra p))) (broadcast_to_all ds.2).

(** [targeted_message]: to one recipient; a failed dispatch is an error. *)
Record TargetedMessageExtra := {
  te_recipient : Field LeafNodeIndex;
  te_collision_tags : option (list Z)
}.
Definition targeted_message `{VerifiableRequest (MessagePayload TargetedMessageExtra)}
    `{TlsCodec QsQueueTargetedMessage} (dispatch_ok : DsFanOutMessage -> bool)
    (request : SignedRequest (MessagePayload TargetedMessageExtra)) : M DsWorld Status TimeStamp :=
  p ← lift (handler_head mp_client_metadata request);
  sender_index ← lift (required (mp_sender p));
  ear_key ← lift (required (mp_ear_key p));
  message ← lift (required (mp_message p));
  recipient ← lift (required (te_recipient (mp_extra p)));
  q ← lift (message_qgid message);
  ds ← load_group_state_immutable q ear_key;
  credential ← lift (sender_client_credential ds.2 sender_index);
  p ← lift (verify_request request (cred_verifying_key credential));
  _ ← check_collisions q message (te_collision_tags (mp_extra p));
  destination ← lift (ok_or (status InvalidArgument) (qs_client_ref_by_index ds.2 recipient));
  bs ← lift (ok_or (status Internal)
               (tls_serialize_detached (TargetedApplicationMessage (serialized_mls_message message))));
  t ← with_clock id (timestamp_now now);
  let m := {| fo_payload := FanOutQueueMessage {| timestamp := t; message_type := TargetedMessageType;
                                                  payload := bs |};
              client_reference := destination; suppress_notifications := false;
              broadcast_to_all_client_queues := broadcast_to_all ds.2 |} in
  _ ← modify (log_dispatch [m]);
  _ ← lift (ensure (dispatch_ok m) (status Internal));
  mret t.

(** ** Handlers that change a group state *)

(** [join_connection_group]: not signed, the commit joins its sender. *)
Record JoinConnectionGroupRequest := {
  jr_client_metadata : option ClientMetadata;
  jr_external_commit : Field AssistedMessageIn;
  jr_ear_key : Field GroupStateEarKey;
  jr_qs_client_reference : Field QsReference
}.
Definition join_connection_group_handler (request : JoinConnectionGroupRequest) :
    M DsWorld Status TimeStamp :=
  _ ← lift (verify_client_version client_version_req (jr_client_metadata request));
  message ← lift (required (jr_external_commit request));
  q ← lift (message_qgid message);
  ear_key ← lift (required (jr_ear_key request));
  update_group_state_without_verification q ear_key (fun s =>
    reference ← lift (required (jr_qs_client_reference request));
    let destinations := destination_clients s in
    r ← with_clock status_of_join
          (join_connection_group now s {| jc_external_commit := message;
                                          jc_qs_client_reference := reference |});
    fo ← mls_message_payload r.1;
    t ← fan_out_message_without_notifications fo destinations true;
    mret (t, set_proposals [] r.2)).

(** [resync]. *)
Definition resync_handler `{VerifiableRequest (MessagePayload unit)}
    (request : SignedRequest (MessagePayload unit)) : M DsWorld Status TimeStamp :=
  p ← lift (ok_or (status InvalidArgument) (sr_payload request));
  _ ← lift (verify_client_version client_version_req (mp_client_metadata p));
  sender_index ← lift (required (mp_sender p));
  update_group_state mp_ear_key mp_message request (Some sender_index) (fun v =>
    let s := lvd_group_state _ v in
    if is_apq s then throw (status FailedPrecondition)
    else
      let destinations := other_destination_clients s (lvd_sender_index _ v) in
      let broadcast := broadcast_to_all s in
      r ← with_clock status_of_resync
            (resync_client now s (lvd_message _ v) (lvd_sender_index _ v));
      fo ← mls_message_payload r.1;
      t ← fan_out_message_without_notifications fo destinations broadcast;
      mret (t, set_proposals [] r.2)).

(** [self_remove]. *)
Definition self_remove_handler `{VerifiableRequest (MessagePayload unit)}
    (request : SignedRequest (MessagePayload unit)) : M DsWorld Status TimeStamp :=
  _ ← lift (handler_head mp_client_metadata request);
  update_group_state mp_ear_key mp_message request None (fun v =>
    let s := lvd_group_state _ v in
    let destinations := other_destination_clients s (lvd_sender_index _ v) in
    let broadcast := broadcast_to_all s in
    r ← with_clock status_of_self_removal (self_remove_client now s (lvd_message _ v));
    fo ← mls_message_payload r.1;
    t ← fan_out_message_without_notifications fo destinations broadcast;
    mret (t, r.2)).

(** [delete_group]: the commit is fanned out, but neither applied nor is the group
    deleted. *)
Definition delete_group_handler `{VerifiableRequest (MessagePayload unit)}
    (request : SignedRequest (MessagePayload unit)) : M DsWorld Status TimeStamp :=
  _ ← lift (handler_head mp_client_metadata request);
  update_group_state mp_ear_key mp_message request None (fun v =>
    let s := lvd_group_state _ v in
    let destinations := other_destination_clients s (lvd_sender_index _ v) in
    let broadcast := broadcast_to_all s in
    m ← lift (map_err status_of_deletion (delete_group s (lvd_message _ v)));
    fo ← mls_message_payload m;
    t ← fan_out_message_without_notifications fo destinations broadcast;
    mret (t, set_proposals [] s)).

(** What [group_operation] adds: information on added users, and a profile with
    which a client can repair its own. *)
Record GroupOperationExtra (I : Type) := {
  ge_add_users_info : Field I;
  ge_qs_client_reference : Field QsReference;
  ge_user_profile_key : Field EncryptedUserProfileKey
}.
Arguments ge_add_users_info {I}.
Arguments ge_qs_client_reference {I}.
Arguments ge_user_profile_key {I}.

(** The repair of the sender's profile. *)
Definition repair_profile {I} (x : GroupOperationExtra I) (s : DsGroupState) (i : LeafNodeIndex) :
    M DsWorld Status DsGroupState :=
  match ge_qs_client_reference x, ge_user_profile_key x with
  | FieldMissing, _ | _, FieldMissing => mret s
  | reference, key =>
      reference ← lift (required reference);
      t ← with_clock id (timestamp_now now);
      key ← lift (required key);
      mret (set_profiles (<[i := {| leaf_index := i; client_queue_config := reference;
                                    activity_time := t; activity_epoch := group_epoch (group s);
                                    encrypted_user_profile_key := key |}]> (member_profiles s)) s)
  end.

(** [group_operation]: everything is fanned out after the transaction. *)
Definition group_operation_handler
    `{VerifiableRequest (MessagePayload (GroupOperationExtra AddUsersInfo))}
    (request : SignedRequest (MessagePayload (GroupOperationExtra AddUsersInfo))) :
    M DsWorld Status TimeStamp :=
  _ ← lift (handler_head mp_client_metadata request);
  r ← update_group_state mp_ear_key mp_message request None (fun v =>
    s ← repair_profile (mp_extra (lvd_payload _ v)) (lvd_group_state _ v) (lvd_sender_index _ v);
    info ← lift (optional (ge_add_users_info (mp_extra (lvd_payload _ v))));
    let destinations := other_destination_clients s (lvd_sender_index _ v) in
    let broadcast := broadcast_to_all s in
    o ← with_clock status_of_group_operation
          (group_operation now s {| go_commit := lvd_message _ v; add_users_info_option := info |}
             (lvd_ear_key _ v));
    let '(m, individual, s) := o in
    let s := set_proposals [] s in
    fo ← mls_message_payload m;
    response ← with_clock status_of_group_operation
                 (create_commit_response now s (lvd_sender_index _ v) (fan_out_timestamp fo));
    mret ((destinations, fo, individual ++ [response], broadcast), s));
  let '(destinations, fo, individual, broadcast) := r in
  t ← fan_out_message_without_notifications fo destinations broadcast;
  _ ← dispatch_all individual;
  mret t.

(** [update_profile_key]. *)
Record UserProfileKeyUpdateParams := {
  up_group_id : GroupId;
  up_sender_index : LeafNodeIndex;
  up_user_profile_key : EncryptedUserProfileKey
}.
Record UpdateProfileKeyPayload := {
  uk_client_metadata : option ClientMetadata;
  uk_ear_key : Field GroupStateEarKey;
  uk_qgid : Field QualifiedGroupId;
  uk_sender : Field LeafNodeIndex;
  uk_user_profile_key : Field EncryptedUserProfileKey
}.
Definition update_profile_key_handler `{VerifiableRequest UpdateProfileKeyPayload}
    `{TlsCodec UserProfileKeyUpdateParams} (request : SignedRequest UpdateProfileKeyPayload) :
    M DsWorld Status unit :=
  p ← lift (handler_head uk_client_metadata request);
  ear_key ← lift (required (uk_ear_key p));
  q ← lift (validated_qgid own_domain (uk_qgid p));
  sender_index ← lift (required (uk_sender p));
  update_group_state_without_verification q ear_key (fun s =>
    credential ← lift (sender_client_credential s sender_index);
    p ← lift (verify_request request (cred_verifying_key credential));
    key ← lift (required (uk_user_profile_key p));
    group_id ← lift (ok_or (status Internal) (tls_serialize_detached q));
    bs ← lift (ok_or (status Internal)
                 (tls_serialize_detached {| up_group_id := group_id; up_sender_index := sender_index;
                                            up_user_profile_key := key |}));
    t ← with_clock id (timestamp_now now);
    let fo := FanOutQueueMessage {| timestamp := t; message_type := UserProfileKeyUpdateType;
                                    payload := bs |} in
    s ← with_clock status_of_profile_key (update_user_profile_key now s sender_index key);
    _ ← fan_out_message_without_notifications fo (other_destination_clients s sender_index)
          (broadcast_to_all s);
    mret (tt, s)).

(** ** Handlers of APQ groups *)

Record ApqMessagePayload (X : Type) := {
  ap_client_metadata : option ClientMetadata;
  ap_ear_key : Field GroupStateEarKey;
  ap_messages : Field (AssistedMessageIn * AssistedMessageIn);
  ap_sender : Field LeafNodeIndex;
  ap_extra : X
}.
Arguments ap_client_metadata {X}.
Arguments ap_ear_key {X}.
Arguments ap_messages {X}.
Arguments ap_sender {X}.
Arguments ap_extra {X}.

(** A fan-out without individual messages, at the current time. *)
Definition apq_fan_out_now (m : SerializedMlsMessage) (destinations : list QsReference) :
    M DsWorld Status (ApqFanOut TimeStamp) :=
  t ← with_clock id (timestamp_now now);
  mret {| af_broadcast := (apq_mls_message t m, destinations); af_individual := []; af_value := t |}.

(** [apq_resync]. *)
Definition apq_resync_handler `{VerifiableRequest (ApqMessagePayload unit)}
    (request : SignedRequest (ApqMessagePayload unit)) : M DsWorld Status TimeStamp :=
  p ← lift (ok_or (status InvalidArgument) (sr_payload request));
  _ ← lift (verify_client_version client_version_req (ap_client_metadata p));
  sender_index ← lift (required (ap_sender p));
  update_apq_group_state ap_ear_key ap_messages request (Some sender_index) (fun v =>
    let destinations := other_destination_clients (avd_t_group_state _ v) (avd_t_sender_index _ v) in
    r ← with_clock status_of_resync
          (apq_resync_client now (avd_t_group_state _ v) (avd_pq_group_state _ v)
             (avd_t_message _ v) (avd_pq_message _ v) (avd_t_sender_index _ v));
    let '(m, ts, pqs) := r in
    out ← apq_fan_out_now m destinations;
    mret (out, set_proposals [] ts, set_proposals [] pqs)).

(** [apq_self_remove]. *)
Definition apq_self_remove_handler `{VerifiableRequest (ApqMessagePayload unit)}
    (request : SignedRequest (ApqMessagePayload unit)) : M DsWorld Status TimeStamp :=
  _ ← lift (handler_head ap_client_metadata request);
  update_apq_group_state ap_ear_key ap_messages request None (fun v =>
    let destinations := other_destination_clients (avd_t_group_state _ v) (avd_t_sender_index _ v) in
    pq ← with_clock status_of_self_removal
           (self_remove_client_without_room_state now (avd_pq_group_state _ v) (avd_pq_message _ v));
    t ← with_clock status_of_self_removal
          (self_remove_client now (avd_t_group_state _ v) (avd_t_message _ v));
    out ← apq_fan_out_now (combine_apq t.1 pq.1) destinations;
    mret (out, t.2, pq.2)).

(** [apq_delete_group]. *)
Definition apq_delete_group_handler `{VerifiableRequest (ApqMessagePayload unit)}
    (request : SignedRequest (ApqMessagePayload unit)) : M DsWorld Status TimeStamp :=
  _ ← lift (handler_head ap_client_metadata request);
  update_apq_group_state ap_ear_key ap_messages request None (fun v =>
    let ts := avd_t_group_state _ v in
    let pqs := avd_pq_group_state _ v in
    let destinations := other_destination_clients ts (avd_t_sender_index _ v) in
    pq ← lift (map_err status_of_deletion (delete_pq_group pqs (avd_pq_message _ v)));
    t ← lift (map_err status_of_deletion (delete_group ts (avd_t_message _ v)));
    out ← apq_fan_out_now (combine_apq t pq) destinations;
    mret (out, set_proposals [] ts, set_proposals [] pqs)).

(** [ApqAddUsersInfo] and [split]. *)
Record ApqAddUsersInfo := {
  aai_welcome : Welcome * Welcome;
  aai_attribution_infos : list EncryptedWelcomeAttributionInfo
}.
Definition split_add_users_info (info : ApqAddUsersInfo) : AddUsersInfo * AddUsersInfo :=
  ({| aui_welcome := (aai_welcome info).1;
      encrypted_welcome_attribution_infos := aai_attribution_infos info |},
   {| aui_welcome := (aai_welcome info).2;
      encrypted_welcome_attribution_infos := aai_attribution_infos info |}).

(** The welcomes of an APQ group operation: for both legs or for none. *)
Definition apq_welcomes (ts : DsGroupState) (ear_key : GroupStateEarKey) (aus : option AddUsersState)
    (pq_welcome : option Welcome) : M DsWorld Status (list DsFanOutMessage) :=
  match aus, pq_welcome with
  | Some aus, Some pq_welcome =>
      with_clock status_of_group_operation
        (generate_apq_fan_out_messages now ts (added_users aus) (aus_welcome aus) pq_welcome ear_key)
  | None, None => mret []
  | _, _ => throw (status InvalidArgument)
  end.

(** [apq_group_operation]. *)
Definition apq_group_operation_handler
    `{VerifiableRequest (ApqMessagePayload (GroupOperationExtra ApqAddUsersInfo))}
    (request : SignedRequest (ApqMessagePayload (GroupOperationExtra ApqAddUsersInfo))) :
    M DsWorld Status TimeStamp :=
  _ ← lift (handler_head ap_client_metadata request);
  update_apq_group_state ap_ear_key ap_messages request None (fun v =>
    let i := avd_t_sender_index _ v in
    ts ← repair_profile (ap_extra (avd_payload _ v)) (avd_t_group_state _ v) i;
    info ← lift (optional (ge_add_users_info (ap_extra (avd_payload _ v))));
    let infos := split_add_users_info <$> info in
    let destinations := other_destination_clients ts i in
    r ← with_clock status_of_group_operation
          (process_apq_group_operation now ts (avd_pq_group_state _ v) (avd_t_message _ v)
             (avd_pq_message _ v) (fst <$> infos) (snd <$> infos));
    let '(m, aus, pq_welcome, ts, pqs) := r in
    t ← with_clock id (timestamp_now now);
    individual ← apq_welcomes ts (avd_ear_key _ v) aus pq_welcome;
    let ts := set_proposals [] ts in
    response ← with_clock status_of_group_operation (create_commit_response now ts i t);
    mret ({| af_broadcast := (apq_mls_message t m, destinations);
             af_individual := individual ++ [response]; af_value := t |},
          ts, set_proposals [] pqs)).

End Service.
