(* ===== verification/DsServiceCorrect.v ===== *)
(** * Correctness of the delivery service's handlers

    What the handlers of [DsService] do to the database, to the reserved group ids
    and to the messages handed to the queue service: requests are authenticated
    before anything is stored, failures are rolled back, and group ids and
    collision tags are used at most once. *)

From stdpp Require Import sorting.
From S2P Require Import Prelude Aead MemoryProvider Messages Grpc RateLimiter Mls MlsExample Apq DsState DsOps DsOpsCorrect DsExample DsService.

Set Warnings "-clear-no-such-hyp".

(** ** Frames *)

(** A computation that leaves a part of the world alone, whatever its result. *)
Definition frames {E A B} (part : DsWorld -> B) (m : M DsWorld E A) : Prop :=
  forall w, part (m w).2 = part w.

(** A part of the world without the positions in the oracles. *)
Class CounterFree {B} (part : DsWorld -> B) : Prop :=
  counter_free : forall c s n u w, part (tick_counters c s n u w) = part w.
#[export] Instance dispatched_counter_free : CounterFree dispatched := fun _ _ _ _ _ => eq_refl.
#[export] Instance db_counter_free : CounterFree db := fun _ _ _ _ _ => eq_refl.
#[export] Instance groups_counter_free : CounterFree (fun w => encrypted_group (db w)) :=
  fun _ _ _ _ _ => eq_refl.
#[export] Instance reserved_counter_free : CounterFree reserved_group_ids := fun _ _ _ _ _ => eq_refl.

Lemma frames_bind {E A B C} (part : DsWorld -> C) (m : M DsWorld E A) (f : A -> M DsWorld E B) :
  frames part m -> (forall a, frames part (f a)) -> frames part (m ≫= f).
Proof.
  intros Hm Hf w. unfold mbind, M_bind. specialize (Hm w).
  destruct (m w) as [[a|e] w1]; [|exact Hm]. by rewrite Hf.
Qed.
Lemma frames_lift {E A C} (part : DsWorld -> C) (r : Result E A) : frames part (lift r).
Proof. by intros w. Qed.
Lemma frames_ret {E A C} (part : DsWorld -> C) (a : A) : frames part (mret a : M DsWorld E A).
Proof. by intros w. Qed.
Lemma frames_throw {E A C} (part : DsWorld -> C) (e : E) : frames part (throw e : M DsWorld E A).
Proof. by intros w. Qed.
Lemma frames_gets {E A C} (part : DsWorld -> C) (f : DsWorld -> A) : frames part (gets f : M DsWorld E A).
Proof. by intros w. Qed.
Lemma frames_modify {E C} (part : DsWorld -> C) f :
  (forall w, part (f w) = part w) -> frames part (modify f : M DsWorld E unit).
Proof. intros Hf w. apply Hf. Qed.
Lemma frames_map_errM {E F A C} (part : DsWorld -> C) (f : E -> F) (m : M DsWorld E A) :
  frames part m -> frames part (map_errM f m).
Proof. intros Hm w. unfold map_errM. specialize (Hm w). by destruct (m w). Qed.

Create HintDb frames.
#[export] Hint Resolve frames_lift frames_ret frames_throw frames_gets : frames.
#[export] Hint Extern 1 (CounterFree _) => typeclasses eauto : frames.

(** Prove a frame by following the structure of the computation. *)
Ltac frame_step :=
  match goal with
  | |- frames _ (_ ≫= _) => apply frames_bind; [|intros ?]
  | |- frames _ (match ?x with _ => _ end) => destruct x
  | |- frames _ (let _ := _ in _) => cbv zeta
  | |- frames _ (map_errM _ _) => apply frames_map_errM
  | |- _ => solve [eauto with frames]
  end.
Ltac framed := repeat frame_step.

Section ServiceCorrect.
Context `{OpenMls} {Happ : Apqmls} {Hcc : ClientCredentials} `{RoomPolicy, Welcomes, Semver}.
Context `{Cbor GroupId, Cbor GroupInfo, Cbor (gmap GroupEpoch PastGroupState)}.
Context `{Cbor PublicGroupState, Cbor SerializableStorage, Cbor RoomState, Cbor AirComponent}.
Context `{TlsCodec UserId, TlsCodec EncryptableDsGroupState, Aes256Gcm}.
Context `{TlsCodec AadMessage, TlsCodec QsReference, TlsCodec WelcomeBundle,
          TlsCodec ApqWelcomeBundle, TlsCodec DsCommitResponse, TlsCodec DsJoinerInformation,
          TlsCodec QualifiedGroupId}.
Context (own_domain : Fqdn) (client_version_req : option VersionReq).
Context (db_ok : nat -> bool) (now : nat -> TimeStamp) (nonce_of : nat -> Result RandomnessErr bytes)
        (uuid_of : nat -> Uuid).

Lemma frames_statement {E C} (part : DsWorld -> C) `{!CounterFree part} (e : E) :
  frames part (ds_statement db_ok e).
Proof. intros w. apply counter_free. Qed.
Lemma frames_nonce {E C} (part : DsWorld -> C) `{!CounterFree part} :
  frames part (next_nonce nonce_of : M DsWorld E _).
Proof. intros w. apply counter_free. Qed.
Lemma frames_clock {E A C} (part : DsWorld -> C) `{!CounterFree part} conv (m : M nat E A) :
  frames part (with_clock conv m).
Proof. intros w. unfold with_clock. destruct (m (clock w)) as [r t]. apply counter_free. Qed.
#[local] Hint Resolve frames_statement frames_nonce frames_clock : frames.

(** A transaction keeps what its body keeps, and a failed one the database. *)
Lemma frames_transaction_part {E A C} (part : DsWorld -> C) `{!CounterFree part} (e : E)
    (body : M DsWorld E A) :
  (forall w w', part w' = part w -> part (set_db (db w) w') = part w) ->
  frames part body -> frames part (ds_transaction db_ok e body).
Proof.
  intros Hr Hb w. unfold ds_transaction.
  assert (Hs : frames part (_ ← ds_statement db_ok e; body)) by framed.
  specialize (Hs w). destruct ((_ ← ds_statement db_ok e; body) w) as [[a|e'] w1]; [|by apply Hr].
  pose proof (frames_statement part e w1) as Hc. unfold ds_statement in *. cbn [snd] in *.
  destruct (db_ok (ds_statements w1)); cbn [snd]; [by rewrite Hc|]. apply Hr. by rewrite Hc.
Qed.
Lemma frames_transaction {E A} (e : E) (body : M DsWorld E A) :
  frames dispatched body -> frames dispatched (ds_transaction db_ok e body).
Proof. by apply frames_transaction_part. Qed.
Lemma ds_transaction_Err {E A} (e e' : E) (body : M DsWorld E A) w w' :
  ds_transaction db_ok e body w = (Err e', w') -> db w' = db w.
Proof.
  unfold ds_transaction. destruct ((_ ← ds_statement db_ok e; body) w) as [[a|e1] w1].
  - unfold ds_statement. destruct (db_ok (ds_statements w1)); [discriminate|]. by intros [= _ <-].
  - by intros [= _ <-].
Qed.

Lemma ds_statement_Ok {E} (e : E) w a w' :
  ds_statement db_ok e w = (Ok a, w') ->
  db_ok (ds_statements w) = true /\
  w' = tick_counters (clock w) (S (ds_statements w)) (ds_nonces w) (ds_uuids w) w.
Proof. unfold ds_statement. destruct (db_ok _); [|discriminate]. by intros [= _ <-]. Qed.

(** A committed transaction ran its body to the end. *)
Lemma ds_transaction_Ok {E A} (e : E) (body : M DsWorld E A) w a w' :
  ds_transaction db_ok e body w = (Ok a, w') ->
  exists w0 w1, ds_statement db_ok e w = (Ok tt, w0) /\ body w0 = (Ok a, w1) /\
    ds_statement db_ok e w1 = (Ok tt, w').
Proof.
  unfold ds_transaction.
  destruct ((_ ← ds_statement db_ok e; body) w) as [[a'|e1] w1] eqn:Eb; [|discriminate].
  apply M_bind_Ok in Eb as ([] & w0 & Hs & Hb).
  destruct (ds_statement db_ok e w1) as [[[]|] w2] eqn:Ec; [|discriminate].
  intros [= <- <-]. eauto.
Qed.

(** ** Loading and storing *)

Lemma frames_load {C} (part : DsWorld -> C) `{!CounterFree part} q ear_key :
  frames part (load_group_state db_ok q ear_key).
Proof. unfold load_group_state, group_data_load. framed. Qed.
Lemma frames_persist q d s ear_key :
  frames dispatched (encrypt_and_persist db_ok nonce_of q d s ear_key).
Proof.
  unfold encrypt_and_persist, group_data_update. framed.
  apply frames_modify. intros w. by destruct (encrypted_group (db w) !! group_uuid q).
Qed.
Lemma frames_payload {C} (part : DsWorld -> C) `{!CounterFree part} m :
  frames part (mls_message_payload now m).
Proof. unfold mls_message_payload. framed. Qed.
Lemma frames_repair {C I} (part : DsWorld -> C) `{!CounterFree part} (x : GroupOperationExtra I) s i :
  frames part (repair_profile now x s i).
Proof. unfold repair_profile. framed. Qed.
Lemma frames_welcomes {C} (part : DsWorld -> C) `{!CounterFree part} s k a pq :
  frames part (apq_welcomes now s k a pq).
Proof. unfold apq_welcomes. framed. Qed.
#[local] Hint Resolve frames_load frames_persist frames_payload frames_repair frames_welcomes : frames.

(** The group [q] is stored as row [d], which decrypts to [s]. *)
Definition stored (w : DsWorld) (q : QualifiedGroupId) (ear_key : GroupStateEarKey)
    (d : StorableDsGroupData) (s : DsGroupState) : Prop :=
  encrypted_group (db w) !! group_uuid q = Some d /\
  ds_decrypt (encrypted_group_state d) ear_key = Ok s.

(** Between [w] and [w'] only the state of the row [d] was replaced, by [s']. *)
Definition replaced (w w' : DsWorld) (q : QualifiedGroupId) (ear_key : GroupStateEarKey)
    (d : StorableDsGroupData) (s' : DsGroupState) : Prop :=
  exists rnd ct, ds_encrypt s' ear_key rnd = Ok ct /\
    encrypted_group (db w') = <[group_uuid q :=
      {| encrypted_group_state := ct; last_used := last_used d; deleted_queues := deleted_queues d |}]>
      (encrypted_group (db w)).

(** The request carries a signature of the payload [p] under the key in the
    credential of the member at leaf [i]. *)
Definition authenticated {P} `{VerifiableRequest P} (request : SignedRequest P) (p : P)
    (s : DsGroupState) (i : LeafNodeIndex) : Prop :=
  exists credential, sr_payload request = Some p /\ sender_client_credential s i = Ok credential /\
    signature_valid p (default [] (sr_signature request)) (cred_verifying_key credential) = true.

Lemma load_group_state_Ok q ear_key w d s w' :
  load_group_state db_ok q ear_key w = (Ok (d, s), w') ->
  stored w q ear_key d s /\ db w' = db w /\ dispatched w' = dispatched w.
Proof.
  intros Hl. pose proof (frames_load db q ear_key w) as Hdb.
  pose proof (frames_load dispatched q ear_key w) as Hdi. rewrite Hl in Hdb, Hdi.
  split; [|done]. unfold load_group_state, group_data_load in Hl.
  bindM Hl as o w1 Hr. bindM Hr as [] w2 Hs. leafM Hr. apply ds_statement_Ok in Hs as [_ ->].
  bindM Hl as d' w3 Hd. leafM Hd. apply ok_or_Ok in Hd.
  bindM Hl as s' w4 He. leafM He. apply map_err_Ok in He. leafM Hl. done.
Qed.

(** The sender of a request without a given sender is the sender of its message. *)
Lemma resolve_and_verify_Ok {P} `{VerifiableRequest P} (r : SignedRequest P) m s si p i :
  resolve_and_verify r m s si = Ok (p, i) ->
  authenticated r p s i /\
  match si with Some j => i = j | None => am_sender m = Some (SenderMember i) end.
Proof.
  unfold resolve_and_verify. intros (i' & Hi & (c & Hc & (p' & Hp & [= <- <-])%Result_bind_Ok)%Result_bind_Ok)%Result_bind_Ok.
  apply verify_request_Ok in Hp as [? ?]. split; [exists c; auto|].
  destruct si; [by injection Hi|]. destruct (am_sender m) as [[]|]; by inversion Hi.
Qed.

Lemma persist_Ok q d s ear_key w d0 w' :
  encrypted_group (db w) !! group_uuid q = Some d0 ->
  encrypt_and_persist db_ok nonce_of q d s ear_key w = (Ok tt, w') ->
  replaced w w' q ear_key d s /\ ds_collision_tag (db w') = ds_collision_tag (db w) /\
  dispatched w' = dispatched w.
Proof.
  intros Hrow Hp. pose proof (frames_persist q d s ear_key w) as Hdi. rewrite Hp in Hdi.
  unfold encrypt_and_persist, group_data_update in Hp. bindM Hp as rnd w1 Hn. eqM Hn.
  bindM Hp as ct w2 He. leafM He. apply map_err_Ok in He.
  bindM Hp as [] w3 Hs. apply ds_statement_Ok in Hs as [_ ->]. unfold modify in Hp.
  cbn in Hp. rewrite Hrow in Hp. eqM Hp.
  split; [|split; [done|exact Hdi]]. exists (nonce_of (ds_nonces w)), ct. done.
Qed.

(** The cleanup after a commit only touches collision tags, and does not fail. *)
Lemma delete_old_spec g e k w : exists w', delete_old db_ok g e k w = (Ok tt, w') /\
  encrypted_group (db w') = encrypted_group (db w) /\ dispatched w' = dispatched w.
Proof.
  unfold delete_old, ds_statement. destruct (db_ok (ds_statements w)); eexists; done.
Qed.

(** ** Updates of a group state *)

Lemma update_group_state_Ok {P A} `{VerifiableRequest P} ek mf (request : SignedRequest P) si
    (f : LeafVerificationData P -> M DsWorld Status (A * DsGroupState)) w a w' :
  (forall v, frames db (f v)) ->
  update_group_state own_domain db_ok nonce_of ek mf request si f w = (Ok a, w') ->
  exists ear_key message q d s p i s' w1 w2,
    message_qgid own_domain message = Ok q /\ stored w q ear_key d s /\
    authenticated request p s i /\
    match si with Some j => i = j | None => am_sender message = Some (SenderMember i) end /\
    dispatched w1 = dispatched w /\
    f {| lvd_ear_key := ear_key; lvd_group_state := s; lvd_sender_index := i;
         lvd_payload := p; lvd_message := message |} w1 = (Ok (a, s'), w2) /\
    replaced w w' q ear_key d s' /\ dispatched w' = dispatched w2 /\
    ek p = FieldValue ear_key /\ mf p = FieldValue message.
Proof.
  intros Hf Hu. unfold update_group_state in Hu.
  bindM Hu as ear_key w0 Hek. leafM Hek. apply required_Ok in Hek.
  bindM Hu as message w0' Hme. leafM Hme. apply required_Ok in Hme.
  bindM Hu as q w0'' Hq. leafM Hq. bindM Hu as r w3 Ht.
  apply ds_transaction_Ok in Ht as (wa & wb & Hs1 & Hb & Hs2).
  apply ds_statement_Ok in Hs1 as [_ ->]. apply ds_statement_Ok in Hs2 as [_ ->].
  bindM Hb as [d s] wc Hl. apply load_group_state_Ok in Hl as (Hst & Hdb & Hdi).
  bindM Hb as [p i] wc' Hv. leafM Hv. apply resolve_and_verify_Ok in Hv as [Hau Hsi].
  bindM Hb as [a' s'] wd Hfv. bindM Hb as [] we Hp. leafM Hb.
  assert (Hfr : db wd = db wc) by (erewrite <- (Hf _ wc), Hfv; done). cbn in Hfr, Hdb, Hdi.
  apply (persist_Ok _ _ _ _ _ d) in Hp as (Hre & _ & Hdi2); [|by rewrite Hfr, Hdb; apply Hst].
  destruct (delete_old_spec (group_uuid q) (group_epoch (group s')) MAX_PAST_EPOCHS
    (tick_counters (clock we) (S (ds_statements we)) (ds_nonces we) (ds_uuids we) we)) as (wz & Hz & Hg & Hd).
  bindM Hu as [] wy Hy. cbn [fst snd] in Hy. rewrite Hz in Hy. eqM Hy. leafM Hu.
  exists ear_key, message, q, d, s, p, i, s', wc, wd. do 5 (split; [done|]). split; [exact Hfv|].
  assert (forall X (g : P -> Field X), request_field request g = g p) as Hfield.
  { destruct Hau as (? & Hpay & _). intros X g. unfold request_field. by rewrite Hpay. }
  rewrite Hfield in Hek, Hme. split; [|by rewrite Hd, <- Hdi2]. destruct Hre as (rnd & ct & He & Hgr).
  exists rnd, ct. split; [done|]. rewrite Hg. cbn. by rewrite Hgr, Hfr, Hdb.
Qed.

(** A computation that, when it fails, leaves the database as it was and hands no
    message to the queue service. *)
Definition atomic {A} (m : M DsWorld Status A) : Prop :=
  forall w e w', m w = (Err e, w') -> db w' = db w /\ dispatched w' = dispatched w.

Lemma atomic_lift_bind {A B} (r : Result Status A) (f : A -> M DsWorld Status B) :
  (forall a, atomic (f a)) -> atomic (lift r ≫= f).
Proof.
  intros Hf w e w' [He|(a & w1 & Ha & Hf')]%M_bind_Err; [by injection He as _ <-|].
  apply lift_Ok in Ha as [_ ->]. eapply Hf, Hf'.
Qed.
(** Code after the commit that cannot fail. *)
Lemma atomic_transaction_bind {A B} (body : M DsWorld Status A) (f : A -> M DsWorld Status B) :
  frames dispatched body -> (forall a w, is_ok (f a w).1 = true) ->
  atomic (ds_transaction db_ok (status Internal) body ≫= f).
Proof.
  intros Hb Hf w e w' [He|(a & w1 & _ & Hf')]%M_bind_Err.
  - split; [eapply ds_transaction_Err, He|].
    pose proof (frames_transaction (status Internal) body Hb w) as Hd. by rewrite He in Hd.
  - specialize (Hf a w1). by rewrite Hf' in Hf.
Qed.
Lemma delete_old_bind_ok {A} g e k (f : unit -> M DsWorld Status A) :
  (forall w, is_ok (f tt w).1 = true) -> forall w, is_ok ((delete_old db_ok g e k ≫= f) w).1 = true.
Proof.
  intros Hf w. unfold mbind, M_bind. destruct (delete_old_spec g e k w) as (w' & -> & _). apply Hf.
Qed.

Lemma update_group_state_atomic {P A} `{VerifiableRequest P} ek mf (request : SignedRequest P) si
    (f : LeafVerificationData P -> M DsWorld Status (A * DsGroupState)) :
  (forall v, frames dispatched (f v)) ->
  atomic (update_group_state own_domain db_ok nonce_of ek mf request si f).
Proof.
  intros Hf. unfold update_group_state. do 3 (apply atomic_lift_bind; intros ?).
  apply atomic_transaction_bind; [framed; apply Hf|].
  intros r. by apply delete_old_bind_ok.
Qed.
Lemma update_apq_group_state_atomic {P A} `{VerifiableRequest P} ek mf (request : SignedRequest P) si
    (f : ApqVerificationData P -> M DsWorld Status (ApqFanOut A * DsGroupState * DsGroupState)) :
  (forall v, frames dispatched (f v)) ->
  atomic (update_apq_group_state own_domain db_ok nonce_of ek mf request si f).
Proof.
  intros Hf. unfold update_apq_group_state. do 2 (apply atomic_lift_bind; intros ?).
  destruct a0 as [tm pqm]. do 2 (apply atomic_lift_bind; intros ?).
  apply atomic_transaction_bind; [framed; apply Hf|].
  intros [[out b] ep] w. by apply delete_old_bind_ok.
Qed.

Lemma atomic_bind_ok {A B} (m : M DsWorld Status A) (f : A -> M DsWorld Status B) :
  atomic m -> (forall a w, is_ok (f a w).1 = true) -> atomic (m ≫= f).
Proof.
  intros Hm Hf w e w' [He|(a & w1 & _ & Hf')]%M_bind_Err; [eapply Hm, He|].
  specialize (Hf a w1). by rewrite Hf' in Hf.
Qed.

Lemma frames_fan_out_now {C} (part : DsWorld -> C) `{!CounterFree part} m ds :
  frames part (apq_fan_out_now now m ds).
Proof. unfold apq_fan_out_now. framed. Qed.
#[local] Hint Resolve frames_fan_out_now : frames.

(** C6. Group operations and all requests on APQ groups are atomic: a request that
    fails, be it for its content, in the database or in the final commit, leaves the
    database as it was and sends nothing to any member. *)
Theorem group_operations_atomic
    `{VerifiableRequest (MessagePayload (GroupOperationExtra AddUsersInfo)),
      VerifiableRequest (ApqMessagePayload (GroupOperationExtra ApqAddUsersInfo)),
      VerifiableRequest (ApqMessagePayload unit)} :
  (forall request, atomic (group_operation_handler own_domain client_version_req db_ok now nonce_of request)) /\
  (forall request, atomic (apq_group_operation_handler own_domain client_version_req db_ok now nonce_of request)) /\
  forall request : SignedRequest (ApqMessagePayload unit),
    atomic (apq_resync_handler own_domain client_version_req db_ok now nonce_of request) /\
    atomic (apq_self_remove_handler own_domain client_version_req db_ok now nonce_of request) /\
    atomic (apq_delete_group_handler own_domain client_version_req db_ok now nonce_of request).
Proof.
  split; [|split; [|split; [|split]]]; intros;
    unfold group_operation_handler, apq_group_operation_handler, apq_resync_handler,
      apq_self_remove_handler, apq_delete_group_handler;
    apply atomic_lift_bind; intros ?.
  - apply atomic_bind_ok; [|by intros [[[? ?] ?] ?] w].
    apply update_group_state_atomic. intros v. framed.
  - apply update_apq_group_state_atomic. intros v. framed.
  - do 2 (apply atomic_lift_bind; intros ?). apply update_apq_group_state_atomic. intros v. framed.
  - apply update_apq_group_state_atomic. intros v. framed.
  - apply update_apq_group_state_atomic. intros v. framed.
Qed.

(** One message for each destination. *)
Definition copies (p : DsFanOutPayload) (suppress broadcast : bool) (ds : list QsReference) :
    list DsFanOutMessage :=
  map (fun d => {| fo_payload := p; client_reference := d; suppress_notifications := suppress;
                   broadcast_to_all_client_queues := broadcast |}) ds.

(** The profile of the sender as a request repairs it: when the request carries both
    a queue reference and a profile key, they replace the stored ones. *)
Definition repaired {I} (x : GroupOperationExtra I) (s : DsGroupState) (i : LeafNodeIndex)
    (s' : DsGroupState) : Prop :=
  (ge_qs_client_reference _ x = FieldMissing \/ ge_user_profile_key _ x = FieldMissing) /\ s' = s \/
  exists reference key t, ge_qs_client_reference _ x = FieldValue reference /\
    ge_user_profile_key _ x = FieldValue key /\
    s' = set_profiles (<[i := {| leaf_index := i; client_queue_config := reference; activity_time := t;
                                 activity_epoch := group_epoch (group s);
                                 encrypted_user_profile_key := key |}]> (member_profiles s)) s.

Lemma repair_profile_Ok {I} (x : GroupOperationExtra I) s i w s' w' :
  repair_profile now x s i w = (Ok s', w') -> repaired x s i s'.
Proof.
  unfold repair_profile, repaired. intros Hr.
  destruct (ge_qs_client_reference _ x) as [| |reference] eqn:Er, (ge_user_profile_key _ x) as [| |key] eqn:Ek;
    try (leafM Hr; by eauto); bindM Hr as ref w1 Hf; leafM Hf; apply required_Ok in Hf; simplify_eq;
    bindM Hr as t w2 Ht; bindM Hr as k w3 Hk; leafM Hk; apply required_Ok in Hk; simplify_eq; leafM Hr.
  right. by exists ref, k, t.
Qed.

(** A processed message is passed on as it came. *)
Lemma process_assisted_serialized g am p : process_assisted_message g am = Ok p ->
  plus_serialized p = serialized_mls_message am.
Proof.
  unfold process_assisted_message. intros Hp.
  destruct (mls_message am) as [m|m]; [by injection Hp as <-|].
  destruct (pub_content_type m); inv_ok; done.
Qed.

Lemma group_operation_serialized s params ear_key c m individual s1 c' :
  group_operation now s params ear_key c = (Ok (m, individual, s1), c') ->
  m = serialized_mls_message (go_commit params).
Proof.
  intros Hg. unfold group_operation in Hg. bindM Hg as [[ser aus] s2] c1 Hp. bindM Hg as ms c2 Hm. leafM Hg.
  apply process_group_operation_Ok in Hp as (p & _ & _ & _ & _ & _ & _ & Hp & _ & _ & _ & _ & -> & _).
  by apply process_assisted_serialized in Hp.
Qed.

(** The confirmation of a commit that is sent to its sender. *)
Lemma create_commit_response_Ok s i t c response c' :
  create_commit_response now s i t c = (Ok response, c') ->
  exists bs t' profile,
    tls_serialize_detached {| cr_group_id := gc_group_id (gi_group_context (group_info (group s)));
      cr_epoch := wrap_u64 (group_epoch (group s) - 1); cr_timestamp := t |} = Some bs /\
    member_profiles s !! i = Some profile /\
    response = {| fo_payload := FanOutQueueMessage {| timestamp := t'; message_type := DsResponseType; payload := bs |};
                  client_reference := client_queue_config profile; suppress_notifications := true;
                  broadcast_to_all_client_queues := broadcast_to_all s |}.
Proof.
  intros Hc. unfold create_commit_response, queue_payload in Hc. bindM Hc as m c1 Hm.
  bindM Hm as bs c2 Hbs. leafM Hbs. apply ok_or_Ok in Hbs. bindM Hm as t' c3 Ht. leafM Hm.
  bindM Hc as profile c4 Hp. leafM Hp. apply ok_or_Ok in Hp. leafM Hc. by exists bs, t', profile.
Qed.

Lemma with_clock_Ok {E A} conv (m : M nat E A) w a w' :
  with_clock conv m w = (Ok a, w') ->
  exists c, m (clock w) = (Ok a, c) /\
    w' = tick_counters c (ds_statements w) (ds_nonces w) (ds_uuids w) w.
Proof.
  unfold with_clock. destruct (m (clock w)) as [[a'|e] c]; [|discriminate].
  intros [= -> <-]. eauto.
Qed.

(** C4. A group operation that succeeds was signed by the member that its commit
    names as sender; exactly the state of the group named by the signed commit was
    replaced, by the result of applying that commit, with the users that the signed
    request adds, to the stored state after the repair of the sender's profile that the
    request asks for, with no proposals pending; and the signed commit went to every
    other member before the operation, followed by the welcomes and by the confirmation
    of the sender's epoch to the sender's queue. *)
Theorem group_operation_committed
    `{VerifiableRequest (MessagePayload (GroupOperationExtra AddUsersInfo))} request w t w' :
  group_operation_handler own_domain client_version_req db_ok now nonce_of request w = (Ok t, w') ->
  exists ear_key message q d s p i s0 info individual s1 c c' bs t' profile,
    authenticated request p s i /\ mp_ear_key _ p = FieldValue ear_key /\
    mp_message _ p = FieldValue message /\
    optional (ge_add_users_info _ (mp_extra _ p)) = Ok info /\
    message_qgid own_domain message = Ok q /\ stored w q ear_key d s /\
    am_sender message = Some (SenderMember i) /\ repaired (mp_extra _ p) s i s0 /\
    group_operation now s0 {| go_commit := message; add_users_info_option := info |} ear_key c
      = (Ok (serialized_mls_message message, individual, s1), c') /\
    replaced w w' q ear_key d (set_proposals [] s1) /\
    tls_serialize_detached {| cr_group_id := gc_group_id (gi_group_context (group_info (group s1)));
      cr_epoch := wrap_u64 (group_epoch (group s1) - 1); cr_timestamp := t |} = Some bs /\
    member_profiles s1 !! i = Some profile /\
    dispatched w' = dispatched w ++
      copies (FanOutQueueMessage {| timestamp := t; message_type := MlsMessageType;
                                    payload := serialized_mls_message message |})
        true (broadcast_to_all s0) (other_destination_clients s0 i) ++
      individual ++
      [{| fo_payload := FanOutQueueMessage {| timestamp := t'; message_type := DsResponseType; payload := bs |};
          client_reference := client_queue_config profile; suppress_notifications := true;
          broadcast_to_all_client_queues := broadcast_to_all s1 |}].
Proof.
  intros Hh. unfold group_operation_handler in Hh. bindM Hh as p0 w0 Hp0. leafM Hp0.
  bindM Hh as [[[ds fo] ind] br] w1 Hu.
  apply update_group_state_Ok in Hu as (ear_key & message & q & d & s & p & i & s' & wa & wb & Hq & Hst &
    Hau & Hi & Hdi & Hf & Hre & Hdi2 & Hek & Hme); [|intros v; framed].
  cbn [lvd_ear_key lvd_group_state lvd_sender_index lvd_payload lvd_message] in Hf.
  bindM Hf as s0 wc Hrp. assert (Hwc : dispatched wc = dispatched wa).
  { pose proof (frames_repair dispatched (mp_extra _ p) s i wa) as Hfr. by rewrite Hrp in Hfr. }
  apply repair_profile_Ok in Hrp.
  bindM Hf as info wc' Hinfo. leafM Hinfo.
  bindM Hf as [[m individual] s1] wd Hgo. apply with_clock_Ok in Hgo as (c' & Hgo & ->).
  pose proof (group_operation_serialized _ _ _ _ _ _ _ _ Hgo) as ->.
  bindM Hf as fo' we Hfo. unfold mls_message_payload in Hfo. bindM Hfo as tt' we' Ht. leafM Hfo.
  apply with_clock_Ok in Ht as (c2 & Ht & ->).
  bindM Hf as response wf Hr. apply with_clock_Ok in Hr as (c3 & Hr & ->). leafM Hf.
  apply create_commit_response_Ok in Hr as (bs & t' & profile & Hbs & Hpr & ->).
  bindM Hh as t2 wg Hfan. unfold fan_out_message_without_notifications, fan_out_message in Hfan.
  bindM Hfan as [] wh Hm. leafM Hm. leafM Hfan. bindM Hh as [] wi Hda. eqM Hda. leafM Hh.
  exists ear_key, message, q, d, s, p, i, s0, info, individual, s1. eexists _, c', bs, t', profile.
  do 8 (split; [done|]). split; [exact Hgo|]. do 3 (split; [done|]).
  cbn. by rewrite Hdi2, <- !app_assoc; cbn; rewrite Hwc, Hdi.
Qed.

Lemma mls_message_payload_Ok m w fo w' :
  mls_message_payload now m w = (Ok fo, w') ->
  exists t, fo = FanOutQueueMessage {| timestamp := t; message_type := MlsMessageType; payload := m |} /\
    dispatched w' = dispatched w.
Proof.
  intros Hf. unfold mls_message_payload in Hf. bindM Hf as t w1 Ht. leafM Hf.
  apply with_clock_Ok in Ht as (c & _ & ->). eauto.
Qed.
Lemma fan_out_message_Ok p ds su br w t w' :
  fan_out_message p ds su br w = (Ok t, w') ->
  t = fan_out_timestamp p /\ w' = log_dispatch
    (map (fun d => {| fo_payload := p; client_reference := d; suppress_notifications := su;
                      broadcast_to_all_client_queues := br |}) ds) w.
Proof.
  intros Hf. unfold fan_out_message in Hf. bindM Hf as [] w1 Hm. leafM Hm. by leafM Hf.
Qed.

Lemma frames_fan_out p ds su br : frames db (fan_out_message p ds su br).
Proof. unfold fan_out_message. framed. by apply frames_modify. Qed.
#[local] Hint Resolve frames_fan_out : frames.

(** Deleting a group sends the commit to every other member, but the group
    stays: its row is kept, with the old members, epoch and room state, the same
    time of last use, and no pending proposals. *)
Theorem delete_group_keeps_group `{VerifiableRequest (MessagePayload unit)} request w t w' :
  delete_group_handler own_domain client_version_req db_ok now nonce_of request w = (Ok t, w') ->
  exists ear_key message q d s p i m fo,
    message_qgid own_domain message = Ok q /\ stored w q ear_key d s /\
    authenticated request p s i /\ am_sender message = Some (SenderMember i) /\
    delete_group s message = Ok m /\ replaced w w' q ear_key d (set_proposals [] s) /\
    fo = FanOutQueueMessage {| timestamp := t; message_type := MlsMessageType; payload := m |} /\
    dispatched w' = dispatched w ++ copies fo true (broadcast_to_all s) (other_destination_clients s i).
Proof.
  intros Hh. unfold delete_group_handler in Hh. bindM Hh as p0 w0 Hp0. leafM Hp0.
  apply update_group_state_Ok in Hh as (ear_key & message & q & d & s & p & i & s' & wa & wb & Hq & Hst &
    Hau & Hi & Hdi & Hf & Hre & Hdi2 & Hek & Hme);
    [|intros v; unfold fan_out_message_without_notifications; framed].
  cbn [lvd_ear_key lvd_group_state lvd_sender_index lvd_payload lvd_message] in Hf.
  bindM Hf as m wc Hm. leafM Hm. apply map_err_Ok in Hm.
  bindM Hf as fo wd Hfo. apply mls_message_payload_Ok in Hfo as (t' & -> & Hwd).
  bindM Hf as t2 we Hfan. apply fan_out_message_Ok in Hfan as [-> ->]. leafM Hf.
  exists ear_key, message, q, d, s, p, i, m. eexists. do 7 (split; [done|]).
  rewrite Hdi2. cbn. by rewrite Hwd, Hdi.
Qed.

(** Requests and their fields. *)
Lemma handler_head_Ok {P} md (request : SignedRequest P) p :
  handler_head client_version_req md request = Ok p -> sr_payload request = Some p.
Proof. unfold handler_head. intros. inv_ok. done. Qed.

(** The collision check leaves group states and messages alone. *)
Lemma frames_collisions {C} (part : DsWorld -> C) `{!CounterFree part} q m tags :
  (forall ts w, part (set_tags ts w) = part w) ->
  (forall w w', part w' = part w -> part (set_db (db w) w') = part w) ->
  frames part (check_collisions db_ok q m tags).
Proof.
  intros Ht Hr. unfold check_collisions, check_and_insert. framed.
  apply (frames_transaction_part part); [done|]. framed. apply frames_modify. intros w. apply Ht.
Qed.

Lemma check_collisions_part q m tags w r w' :
  check_collisions db_ok q m tags w = (r, w') ->
  dispatched w' = dispatched w /\ encrypted_group (db w') = encrypted_group (db w).
Proof.
  intros Hc. pose proof (frames_collisions dispatched q m tags ltac:(done) ltac:(done) w) as Hd.
  pose proof (frames_collisions (fun w => encrypted_group (db w)) q m tags ltac:(done) ltac:(done) w) as Hg.
  by rewrite Hc in Hd, Hg.
Qed.

(** When it fails, it leaves a part of the world alone. *)
Definition err_keeps {A C} (part : DsWorld -> C) (m : M DsWorld Status A) : Prop :=
  forall w e w', m w = (Err e, w') -> part w' = part w.
Lemma err_keeps_bind {A B C} (part : DsWorld -> C) (m : M DsWorld Status A)
    (f : A -> M DsWorld Status B) :
  frames part m -> (forall a, err_keeps part (f a)) -> err_keeps part (m ≫= f).
Proof.
  intros Hm Hf w e w' Hb. specialize (Hm w).
  apply M_bind_Err in Hb as [He|(a & w1 & Ha & Hb)]; [by rewrite He in Hm|].
  rewrite Ha in Hm. rewrite (Hf _ _ _ _ Hb). exact Hm.
Qed.

Lemma err_keeps_lift_bind {A B C} (part : DsWorld -> C) (r : Result Status A)
    (f : A -> M DsWorld Status B) :
  (forall a, err_keeps part (f a)) -> err_keeps part (lift r ≫= f).
Proof. apply err_keeps_bind, frames_lift. Qed.

(** A deletion that fails leaves the database alone. *)
Lemma delete_group_Err `{VerifiableRequest (MessagePayload unit)} request w e w' :
  delete_group_handler own_domain client_version_req db_ok now nonce_of request w = (Err e, w') ->
  db w' = db w.
Proof.
  unfold delete_group_handler. revert w e w'.
  apply err_keeps_lift_bind. intros p. unfold update_group_state.
  do 3 (apply err_keeps_lift_bind; intros ?).
  intros w e w' [He|(r & w1 & _ & Hb)]%M_bind_Err; [eapply ds_transaction_Err, He|].
  match type of Hb with ?m w1 = _ => assert (Ho : is_ok (m w1).1 = true) by by apply delete_old_bind_ok end.
  by rewrite Hb in Ho.
Qed.

(** C22. A message that [send_message] accepts was signed by the member it names as
    sender, and is handed to the queue service once for every other member of the
    group; no group state changes. *)
Theorem send_message_authentic `{VerifiableRequest (MessagePayload SendMessageExtra)} request w t w' :
  send_message own_domain client_version_req db_ok now request w = (Ok t, w') ->
  exists ear_key message q d s p i m,
    message_qgid own_domain message = Ok q /\ stored w q ear_key d s /\
    authenticated request p s i /\ mp_sender _ p = FieldValue i /\
    mp_message _ p = FieldValue message /\
    m = {| timestamp := t; message_type := MlsMessageType; payload := serialized_mls_message message |} /\
    dispatched w' = dispatched w ++
      copies (FanOutQueueMessage m) (default false (se_suppress_notifications (mp_extra _ p)))
        (broadcast_to_all s) (other_destination_clients s i) /\
    encrypted_group (db w') = encrypted_group (db w).
Proof.
  intros Hh. unfold send_message in Hh. bindM Hh as p0 w0 Hp0. leafM Hp0. apply handler_head_Ok in Hp0.
  bindM Hh as i w0' Hi. leafM Hi. apply required_Ok in Hi.
  bindM Hh as ear_key w1 Hek. leafM Hek. bindM Hh as message w2 Hme. leafM Hme. apply required_Ok in Hme.
  bindM Hh as q w3 Hq. leafM Hq. bindM Hh as [d s] w4 Hl.
  unfold load_group_state_immutable in Hl. bindM Hl as [] w5 Hs. apply ds_statement_Ok in Hs as [_ ->].
  apply load_group_state_Ok in Hl as (Hst & Hdb & Hdi). cbn in Hdb, Hdi.
  bindM Hh as cr w6 Hcr. leafM Hcr. bindM Hh as p w7 Hp. leafM Hp.
  apply verify_request_Ok in Hp as [Hpay Hval].
  rewrite Hp0 in Hpay. injection Hpay as ->.
  bindM Hh as [] w8 Hc.
  apply check_collisions_part in Hc as [Hc1 Hc2].
  bindM Hh as fo w9 Hfo. pose proof (frames_payload db (serialized_mls_message message) w8) as Hd9.
  rewrite Hfo in Hd9. cbn in Hd9. apply mls_message_payload_Ok in Hfo as (t' & -> & Hw9).
  apply fan_out_message_Ok in Hh as [-> ->].
  exists ear_key, message, q, d, s, p, i. eexists. do 2 (split; [done|]).
  split; [exists cr; done|]. do 3 (split; [done|]). cbn. split.
  - by rewrite Hw9, Hc1, Hdi.
  - by rewrite Hd9, Hc2, Hdb.
Qed.

(** ** Group ids and creation *)

Lemma frames_claim {C} (part : DsWorld -> C) u :
  (forall r w, part (set_reserved r w) = part w) -> frames part (claim_reserved_group_id u).
Proof. intros Hs w. unfold claim_reserved_group_id. case_decide; [apply Hs|done]. Qed.
Lemma frames_creation_allowed `{Sha256, Chrono} {C} (part : DsWorld -> C) `{!CounterFree part} u :
  (forall r w, part (set_allowances r w) = part w) -> frames part (creation_allowed now u).
Proof.
  intros Hs w. unfold creation_allowed. destruct (allowed _ _ _ _) as [b a]. cbn [snd].
  by rewrite counter_free.
Qed.
Lemma claim_Ok u w v w' :
  claim_reserved_group_id u w = (Ok (Some v), w') ->
  v = u /\ u ∈ reserved_group_ids w /\ w' = set_reserved (reserved_group_ids w ∖ {[u]}) w.
Proof. unfold claim_reserved_group_id. case_decide; [|discriminate]. by intros [= <- <-]. Qed.

Lemma new_and_store_Ok u ct w w' :
  new_and_store db_ok now u ct w = (Ok tt, w') ->
  exists t, encrypted_group (db w') = encrypted_group (db w) ∪
    {[u := {| encrypted_group_state := ct; last_used := t; deleted_queues := [] |}]} /\
    ds_collision_tag (db w') = ds_collision_tag (db w) /\ reserved_group_ids w' = reserved_group_ids w.
Proof.
  intros Hn. unfold new_and_store, group_data_store in Hn. bindM Hn as t w1 Ht.
  apply with_clock_Ok in Ht as (c & _ & ->). bindM Hn as [] w2 Hs. apply ds_statement_Ok in Hs as [_ ->].
  leafM Hn. exists t. cbn. destruct (encrypted_group (db w) !! u) as [d|] eqn:Hu; cbn; (split; [|done]).
  - apply map_eq. intros v. rewrite lookup_union. destruct (decide (v = u)) as [->|Hv].
    + by rewrite Hu, union_Some_l.
    + by rewrite lookup_singleton_ne, (right_id_L None (∪)).
  - by apply insert_union_singleton_r.
Qed.
Lemma new_and_store_Err u ct : err_keeps db (new_and_store db_ok now u ct).
Proof.
  unfold new_and_store, group_data_store. do 2 (apply err_keeps_bind; [framed|intros ?]). done.
Qed.

Lemma create_group_Err `{Sha256, Chrono} request :
  err_keeps db (create_group own_domain client_version_req db_ok now nonce_of request).
Proof.
  unfold create_group.
  do 19 (apply err_keeps_bind;
    [first [framed; fail | by apply frames_claim | by apply frames_creation_allowed]|intros ?]).
  apply new_and_store_Err.
Qed.

(** A group is created only under an id that was reserved and is then no longer,
    with one member and one profile, and never in place of a stored group; a request
    that fails stores nothing. *)
Theorem create_group_exact `{Sha256, Chrono} request w r w' :
  create_group own_domain client_version_req db_ok now nonce_of request w = (r, w') ->
  match r with
  | Err _ => db w' = db w
  | Ok _ => exists p q ear_key gi rt g st m key reference room t0 t1 rnd ct,
      sr_payload request = Some p /\ validated_qgid own_domain (cg_qgid p) = Ok q /\
      group_uuid q ∈ reserved_group_ids w /\
      reserved_group_ids w' = reserved_group_ids w ∖ {[group_uuid q]} /\
      group_new empty_storage gi rt = Ok (g, st) /\ members g = [m] /\
      ds_encrypt {| room_state := room; group := g; provider := st;
                    member_profiles := {[ 0 := {| leaf_index := 0; client_queue_config := reference;
                      activity_time := t0; activity_epoch := 0; encrypted_user_profile_key := key |} ]};
                    proposals := [] |} ear_key rnd = Ok ct /\
      encrypted_group (db w') = encrypted_group (db w) ∪
        {[group_uuid q := {| encrypted_group_state := ct; last_used := t1; deleted_queues := [] |}]}
  end.
Proof.
  intros Hc. destruct r as [[]|e].
  - unfold create_group in Hc. bindM Hc as p w0 Hp. leafM Hp. apply ok_or_Ok in Hp.
    bindM Hc as v w1 Hv. leafM Hv. bindM Hc as q w2 Hq. leafM Hq. bindM Hc as ear_key w3 Hek. leafM Hek.
    bindM Hc as o w4 Hcl. bindM Hc as u w5 Hu. leafM Hu. apply ok_or_Ok in Hu as ->.
    apply claim_Ok in Hcl as (-> & Hin & ->).
    bindM Hc as gi w6 Hgi. leafM Hgi. bindM Hc as rt w7 Hrt. leafM Hrt.
    bindM Hc as [g st] w8 Hg. leafM Hg. apply map_err_Ok in Hg.
    bindM Hc as cr w9 Hcr. leafM Hcr. bindM Hc as b w10 Hb.
    pose proof (frames_creation_allowed db (cred_user_id cr) ltac:(done)
      (set_reserved (reserved_group_ids w ∖ {[group_uuid q]}) w)) as Hdb.
    pose proof (frames_creation_allowed reserved_group_ids (cred_user_id cr) ltac:(done)
      (set_reserved (reserved_group_ids w ∖ {[group_uuid q]}) w)) as Hre.
    rewrite Hb in Hdb, Hre. cbn in Hdb, Hre.
    bindM Hc as [] w11 Hen. leafM Hen. bindM Hc as key w12 Hk. leafM Hk.
    bindM Hc as rf w13 Hrf. leafM Hrf. bindM Hc as rm w14 Hrm. leafM Hrm. bindM Hc as vr w15 Hvr. leafM Hvr.
    bindM Hc as s w16 Hs. apply with_clock_Ok in Hs as (c & Hs & ->).
    unfold ds_group_state_new in Hs. bindM Hs as t0 c0 Ht. leafM Hs.
    bindM Hc as rnd w17 Hn. eqM Hn. bindM Hc as ct w18 He. leafM He. apply map_err_Ok in He.
    apply new_and_store_Ok in Hc as (t1 & Hgr & _ & Hres). cbn in Hgr, Hres.
    assert (Hm : exists m, members g = [m]).
    { unfold extract_credential in Hcr. cbn in Hcr. destruct (members g) as [|m [|]]; [done|eauto|done]. }
    destruct Hm as [m Hm]. exists p, q, ear_key, gi, rt, g, st, m, key, rf, vr, t0, t1.
    eexists _, ct. do 3 (split; [done|]). split; [by rewrite Hres, Hre|]. do 2 (split; [done|]).
    split; [exact He|]. by rewrite Hgr, Hdb.
  - by apply create_group_Err in Hc.
Qed.

(** ** Collision tags *)

(** Tags that a request may carry. *)
Definition acceptable_tags (tags : list Z) : Prop :=
  NoDup tags /\ (1 <= length tags <= 30)%nat.

Lemma first_duplicate_None l : Sorted Z.le l -> first_duplicate l = None <-> NoDup l.
Proof.
  intros Hs%Sorted_StronglySorted; [|intros ? ? ?; lia].
  induction Hs as [|x l Hs IH Hx]; [split; [constructor|done]|].
  cbn. destruct l as [|y l]; [split; [intros _; apply NoDup_singleton|done]|].
  rewrite NoDup_cons, <- IH. destruct (decide (x = y)) as [->|Hxy].
  - split; [discriminate|]. intros [Hn _]. destruct Hn. by left.
  - split; [|by intros [_ ?]]. intros Hn. split; [|done].
    inversion Hx as [|? ? Hxy' Hxl]; subst. inversion Hs as [|? ? _ Hyl]; subst.
    rewrite list_elem_of_In, <- list_elem_of_In. intros [->|Hin]%elem_of_cons; [done|].
    rewrite Forall_forall in Hyl. specialize (Hyl x Hin). lia.
Qed.

Lemma collision_tags_spec tags :
  (acceptable_tags tags -> collision_tags_try_into tags = Ok (merge_sort Z.le tags)) /\
  (forall l, collision_tags_try_into tags = Ok l -> acceptable_tags tags /\ l = merge_sort Z.le tags).
Proof.
  pose proof (merge_sort_Permutation Z.le tags) as Hp.
  assert (Hn : first_duplicate (merge_sort Z.le tags) = None <-> NoDup tags).
  { rewrite first_duplicate_None by (apply Sorted_merge_sort; apply _). by rewrite Hp. }
  assert (Hl : length (merge_sort Z.le tags) = length tags) by by rewrite Hp.
  unfold collision_tags_try_into, acceptable_tags, MAX_COLLISION_TAGS_PER_REQUEST.
  destruct (first_duplicate (merge_sort Z.le tags)) eqn:Ef.
  - split; [|discriminate]. intros [Hd _]. apply Hn in Hd. discriminate.
  - case_decide as He; [rewrite He in Hl; cbn in Hl; split; [lia|discriminate]|].
    case_decide as Hm; [split; [lia|discriminate]|]. split; [done|].
    intros l [= <-]. split; [|done]. split; [by apply Hn|]. rewrite <- Hl in *.
    destruct (merge_sort Z.le tags); cbn in *; [done|lia].
Qed.

(** The body of [check_and_insert] on a database that answers. *)
Lemma check_and_insert_run g e tags l w :
  (forall n, db_ok n = true) -> collision_tags_try_into tags = Ok l ->
  let present := ds_collision_tag (db w) in
  let collisions := filter (fun t => (g, e, t) ∈ present) l in
  exists w', dispatched w' = dispatched w /\ encrypted_group (db w') = encrypted_group (db w) /\
    if decide (collisions = [])
    then check_and_insert db_ok g e tags w = (Ok tt, w') /\
      ds_collision_tag (db w') = present ∪ list_to_set (map (fun t => (g, e, t)) l)
    else check_and_insert db_ok g e tags w = (Err (Collision collisions), w') /\ db w' = db w.
Proof.
  intros Hok Hl. cbv zeta. unfold check_and_insert, mbind, M_bind, lift. rewrite Hl.
  unfold ds_transaction, ds_statement, gets, modify, mbind, M_bind. rewrite !Hok.
  cbn [db set_tags set_db tick_counters ds_collision_tag].
  case_decide as Hc.
  - cbn. rewrite Hok. eexists. split; [|split; [|split; [reflexivity|]]]; done.
  - cbn. rewrite Hok. eexists. split; [|split; [|split; [reflexivity|]]]; done.
Qed.

(** With a database that answers, the collision check accepts exactly the
    requests of one to thirty distinct tags none of which was used in the group and
    epoch before, and records them; otherwise nothing is recorded, and the tags that
    were used before are reported. *)
Theorem check_and_insert_exact g e tags w :
  (forall n, db_ok n = true) ->
  exists r w', check_and_insert db_ok g e tags w = (r, w') /\
    dispatched w' = dispatched w /\ encrypted_group (db w') = encrypted_group (db w) /\
    (r = Ok tt <-> acceptable_tags tags /\ forall t, t ∈ tags -> (g, e, t) ∉ ds_collision_tag (db w)) /\
    match r with
    | Ok _ => forall x, x ∈ ds_collision_tag (db w') <->
        x ∈ ds_collision_tag (db w) \/ exists t, t ∈ tags /\ x = (g, e, t)
    | Err err => db w' = db w /\
        (acceptable_tags tags -> exists l, err = Collision l /\
           forall t, t ∈ l <-> t ∈ tags /\ (g, e, t) ∈ ds_collision_tag (db w))
    end.
Proof.
  intros Hok. destruct (collision_tags_spec tags) as [Ha Hb].
  destruct (collision_tags_try_into tags) as [l|err] eqn:El.
  - destruct (Hb l eq_refl) as [Hac Hl].
    assert (Hin : forall t, t ∈ l <-> t ∈ tags) by (intros t; by rewrite Hl, merge_sort_Permutation).
    destruct (check_and_insert_run g e tags l w Hok El) as (w' & Hd & Hg & Hr).
    case_decide as Hc; destruct Hr as [-> Hr]; eexists _, w'; (split; [done|]); do 2 (split; [done|]).
    + assert (Hn : forall t, t ∈ tags -> (g, e, t) ∉ ds_collision_tag (db w)).
      { intros t Ht Hp. apply (filter_nil_not_elem_of _ _ t Hc); [exact Hp|by apply Hin]. }
      split; [done|]. intros x. rewrite Hr, elem_of_union, elem_of_list_to_set, list_elem_of_fmap. set_solver.
    + split; [split; [discriminate|]|split; [done|]].
      * intros [_ Hn]. destruct Hc. apply elem_of_nil_inv. intros t [Hp Ht]%list_elem_of_filter.
        apply (Hn t); [by apply Hin|done].
      * intros _. eexists. split; [reflexivity|]. intros t. rewrite list_elem_of_filter, Hin. tauto.
  - exists (Err err), w. unfold check_and_insert, mbind, M_bind, lift. rewrite El.
    do 3 (split; [done|]). split; [split; [discriminate|]|split; [done|]].
    + intros [Hac _]. discriminate (Ha Hac).
    + intros Hac. discriminate (Ha Hac).
Qed.

End ServiceCorrect.

(** ** Group ids *)

Section GroupIds.
Context (own_domain : Fqdn) (uuid_of : nat -> Uuid).

(** The draws of [request_group_id] from position [k] on. *)
Lemma request_group_id_enough fuel (X : gset Uuid) w :
  X ⊆ reserved_group_ids w -> (size X < fuel)%nat ->
  (forall i, (ds_uuids w <= i)%nat -> uuid_of i ∈ reserved_group_ids w -> uuid_of i ∈ X) ->
  (forall i j, (ds_uuids w <= i < j)%nat -> uuid_of i <> uuid_of j) ->
  exists u w', request_group_id own_domain uuid_of fuel w
      = Some ({| group_uuid := u; owning_domain := own_domain |}, w') /\
    (u ∉ reserved_group_ids w) /\ reserved_group_ids w' = {[u]} ∪ reserved_group_ids w /\
    db w' = db w /\ dispatched w' = dispatched w.
Proof.
  revert X w. induction fuel as [|fuel IH]; intros X w HX Hf Hin Hd; [lia|].
  cbn [request_group_id]. unfold reserve_group_id. cbn [reserved_group_ids tick_counters].
  case_decide as Hu; [|by eexists _, _].
  assert (HuX : uuid_of (ds_uuids w) ∈ X) by (apply Hin; [lia|done]).
  specialize (IH (X ∖ {[uuid_of (ds_uuids w)]})
    (tick_counters (clock w) (ds_statements w) (ds_nonces w) (S (ds_uuids w)) w)).
  cbn [reserved_group_ids ds_uuids db dispatched tick_counters] in IH. apply IH; clear IH.
  - set_solver.
  - rewrite size_difference, size_singleton by set_solver.
    assert (size X <> 0%nat) by (intros H0'%size_empty_inv; set_solver). lia.
  - intros i Hi Hr. apply elem_of_difference. split; [apply Hin; [lia|done]|].
    rewrite elem_of_singleton. intros He. apply (Hd (ds_uuids w) i); [lia|done].
  - intros i j Hij. apply Hd. lia.
Qed.

(** Requesting a group id returns a fresh id of the own domain and reserves it:
    if the drawn UUIDs are distinct, one draw more than there are reservations is
    always enough. *)
Theorem request_group_id_fresh fuel w :
  (forall i j, (ds_uuids w <= i < j)%nat -> uuid_of i <> uuid_of j) ->
  (size (reserved_group_ids w) < fuel)%nat ->
  exists u w', request_group_id own_domain uuid_of fuel w
      = Some ({| group_uuid := u; owning_domain := own_domain |}, w') /\
    (u ∉ reserved_group_ids w) /\ reserved_group_ids w' = {[u]} ∪ reserved_group_ids w /\
    db w' = db w /\ dispatched w' = dispatched w.
Proof. intros Hd Hf. by apply (request_group_id_enough fuel (reserved_group_ids w)). Qed.

End GroupIds.
