(* ===== verification/DsServiceExample.v ===== *)
(** * Runs of the delivery service

    Requests on small groups, evaluated with the instances of [DsExample]: a group
    is created, extended, written to and deleted. *)

From S2P Require Import Prelude Aead MemoryProvider Messages Grpc RateLimiter Mls MlsExample Apq DsState DsOps DsOpsCorrect DsExample DsService DsServiceCorrect.

Module ToyService.

Export ToyDs.

#[export] Instance toy_semver : Semver := {|
  VersionReq := unit; Version := unit; ProtoVersion := unit;
  version_matches := fun _ _ => true;
  version_try_into := fun _ => Some tt
|}.
(** A signature is the verifying key. *)
#[export] Instance toy_signature P : VerifiableRequest P := fun _ sig key => bool_decide (sig = key).
#[export] Instance toy_sha : Sha256 := fun bs => bs.
#[export] Instance toy_chrono : Chrono := fun t => t.
#[export] Instance toy_qgid_tls : TlsCodec QualifiedGroupId := {|
  tls_serialize_detached := fun q => Some [group_uuid q];
  tls_deserialize_exact_bytes := fun bs =>
    match bs with [u] => Some {| group_uuid := u; owning_domain := "example.com" |} | _ => None end
|}.

Definition toy_nonce (n : nat) : Result RandomnessErr bytes := Ok [Z.of_nat n].
Definition answers (n : nat) : bool := true.

(** A world that stores the group [7] with the given members, and has reserved the
    id [8]. *)
Definition toy_row (ms : list (Z * ToyLeaf)) : option StorableDsGroupData :=
  s ← toy_state ms;
  ct ← ok (ds_encrypt s [1] (Ok [2]));
  Some {| encrypted_group_state := ct; last_used := 0; deleted_queues := [] |}.
Definition toy_world (ms : list (Z * ToyLeaf)) : DsWorld :=
  {| db := {| encrypted_group := match toy_row ms with Some d => {[7 := d]} | None => ∅ end;
              ds_collision_tag := ∅ |};
     allowances := {| allowance_record := ∅; up := answers; statements := 0 |}; reserved_group_ids := {[8]}; dispatched := [];
     clock := 0; ds_statements := 0; ds_nonces := 0; ds_uuids := 0 |}.

(** A message of Alice. *)
Definition from_alice (type : ContentType) (proposals : list (Sender * Proposal)) : AssistedMessageIn :=
  assisted {| tm_sender := SenderMember 0; tm_context := ([7], 0, None); tm_type := type;
    tm_proposal := ProposalOther; tm_proposals := proposals; tm_adds := []; tm_path := Some alice;
    tm_aad := []; tm_credential := [11] |}.

(** A request with Alice's signature. *)
Definition alice_signs {X} (m : AssistedMessageIn) (x : X) : SignedRequest (MessagePayload X) :=
  {| sr_payload := Some {| mp_client_metadata := None; mp_ear_key := FieldValue [1];
                           mp_message := FieldValue m; mp_sender := FieldValue 0; mp_extra := x |};
     sr_signature := Some [11] |}.

End ToyService.

Section Evaluate_service.
Import ToyService.

Definition add_bob_request : SignedRequest (MessagePayload (GroupOperationExtra AddUsersInfo)) :=
  alice_signs (go_commit (add_bob [5]))
    {| ge_add_users_info := match add_users_info_option (add_bob [5]) with
                            | Some i => FieldValue i | None => FieldMissing end;
       ge_qs_client_reference := FieldMissing; ge_user_profile_key := FieldMissing |}.

Definition run_add_bob := group_operation_handler "example.com" None answers toy_now toy_nonce add_bob_request.

(** The number of messages that a successful request adds. *)
Definition sends {A} (m : M DsWorld Status A) (w : DsWorld) (n : nat) : bool :=
  match m w with
  | (Ok _, w') => bool_decide (length (dispatched w') = (length (dispatched w) + n)%nat)
  | (Err _, _) => false
  end.

Lemma sends_Ok {A} (m : M DsWorld Status A) w n : sends m w n = true ->
  exists a w', m w = (Ok a, w') /\ length (dispatched w') = (length (dispatched w) + n)%nat.
Proof. unfold sends. destruct (m w) as [[a|] w']; [|done]. intros Hd%bool_decide_eq_true. eauto. Qed.

Lemma group_operation_committed_witness :
  exists t w', run_add_bob (toy_world [(0, alice)]) = (Ok t, w') /\
    length (dispatched w') = 2%nat /\
    exists ear_key q d s s', stored (toy_world [(0, alice)]) q ear_key d s /\
      replaced (toy_world [(0, alice)]) w' q ear_key d s'.
Proof.
  destruct (sends_Ok run_add_bob (toy_world [(0, alice)]) 2) as (t & w' & Hr & Hn);
    [vm_compute; reflexivity|].
  exists t, w'. split; [exact Hr|]. split; [exact Hn|].
  unfold run_add_bob in Hr.
  destruct (group_operation_committed "example.com" None answers toy_now toy_nonce
              add_bob_request (toy_world [(0, alice)]) t w' Hr)
    as (ek & m & q & d & s & p & i & s0 & info & ind & s1 & c & c' & bs & t' & profile & _ & _ & _ & _ & _ &
        Hst & _ & _ & _ & Hre & _).
  exists ek, q, d, s, (set_proposals [] s1). exact (conj Hst Hre).
Defined.

(** Alice deletes the group of Alice and Bob. *)
Definition delete_request : SignedRequest (MessagePayload unit) :=
  alice_signs (from_alice ContentCommit [(SenderMember 0, ProposalRemove 1)]) tt.
Definition run_delete (db_ok : nat -> bool) :=
  delete_group_handler "example.com" None db_ok toy_now toy_nonce delete_request.
Definition two_members : DsWorld := toy_world [(0, alice); (1, bob)].

Lemma delete_group_keeps_group_witness :
  exists t w', run_delete answers two_members = (Ok t, w') /\
    length (dispatched w') = 1%nat /\
    exists ear_key q d s, stored two_members q ear_key d s /\
      replaced two_members w' q ear_key d (set_proposals [] s).
Proof.
  destruct (sends_Ok (run_delete answers) two_members 1) as (t & w' & Hr & Hn); [vm_compute; reflexivity|].
  exists t, w'. split; [exact Hr|]. split; [exact Hn|]. unfold run_delete in Hr.
  destruct (delete_group_keeps_group "example.com" None answers toy_now toy_nonce delete_request
              two_members t w' Hr)
    as (ek & m & q & d & s & p & i & ser & fo & _ & Hst & _ & _ & _ & Hre & _).
  exists ek, q, d, s. exact (conj Hst Hre).
Defined.

(** A database that fails at the fourth statement, which is the commit. *)
Definition fails_at_commit (n : nat) : bool := negb (n =? 3)%nat.

(** Handlers that fan out inside the transaction do so before its outcome is
    known: when the commit of a deletion fails, the request fails and the database
    is as before, but the commit is already on its way to the members. *)
Theorem delete_group_sends_uncommitted :
  exists e w', run_delete fails_at_commit two_members = (Err e, w') /\
    db w' = db two_members /\ dispatched two_members = [] /\ length (dispatched w') = 1%nat.
Proof.
  assert (Hc : match run_delete fails_at_commit two_members with
               | (Err _, w') => bool_decide (length (dispatched w') = 1%nat)
               | (Ok _, _) => false
               end = true) by (vm_compute; reflexivity).
  destruct (run_delete fails_at_commit two_members) as [[t|e] w'] eqn:Er; [done|].
  exists e, w'. apply bool_decide_eq_true in Hc.
  split; [reflexivity|]. split; [|by split]. unfold run_delete in Er.
  exact (delete_group_Err "example.com" None fails_at_commit toy_now toy_nonce delete_request
           two_members e w' Er).
Qed.

Definition send_request : SignedRequest (MessagePayload SendMessageExtra) :=
  alice_signs (from_alice ContentApplication [])
    {| se_collision_tags := Some [3; 1; 2]; se_suppress_notifications := None |}.
Definition run_send := send_message "example.com" None answers toy_now send_request.

Lemma send_message_authentic_witness :
  exists t w', run_send two_members = (Ok t, w') /\
    length (dispatched w') = 1%nat /\ encrypted_group (db w') = encrypted_group (db two_members).
Proof.
  destruct (sends_Ok run_send two_members 1) as (t & w' & Hr & Hn); [vm_compute; reflexivity|].
  exists t, w'. split; [exact Hr|]. split; [exact Hn|]. unfold run_send in Hr.
  destruct (send_message_authentic "example.com" None answers toy_now send_request two_members t w' Hr)
    as (ek & m & q & d & s & p & i & pl & _ & _ & _ & _ & _ & _ & _ & Hg). exact Hg.
Defined.

(** Alice creates the group [8]. *)
Definition create_request (u : Uuid) : SignedRequest CreateGroupPayload :=
  {| sr_payload := Some
       {| cg_client_metadata := None;
          cg_qgid := FieldValue {| group_uuid := u; owning_domain := "example.com" |};
          cg_ear_key := FieldValue [1];
          cg_group_info := FieldValue (([u], 0, None) : VerifiableGroupInfo);
          cg_ratchet_tree := FieldValue ([(0, alice)] : RatchetTreeIn);
          cg_user_profile_key := FieldValue (toy_key 0);
          cg_client_reference := FieldValue {| client_homeserver_domain := "example.com";
                                               sealed_reference := [101] |};
          cg_room_state := FieldValue ([] : RoomState) |};
     sr_signature := None |}.
Definition run_create (u : Uuid) := create_group "example.com" None answers toy_now toy_nonce (create_request u).

Lemma create_group_exact_witness :
  exists w', run_create 8 two_members = (Ok tt, w') /\
    exists d : StorableDsGroupData, exists u, encrypted_group (db w') = encrypted_group (db two_members) ∪ {[u := d]}.
Proof.
  destruct (sends_Ok (run_create 8) two_members 0) as ([] & w' & Hr & Hn); [vm_compute; reflexivity|].
  exists w'. split; [exact Hr|]. unfold run_create in Hr.
  pose proof (create_group_exact "example.com" None answers toy_now toy_nonce (create_request 8)
                two_members (Ok tt) w' Hr) as Hc.
  destruct Hc as (p & q & ek & gi & rt & g & st & m & key & rf & room & t0 & t1 & rnd & ct & _ & _ & _ & _ & _ & _ & _ & Hg).
  eexists _, _. exact Hg.
Defined.

(** UUIDs drawn in order: the first one is taken. *)
Definition toy_uuid (n : nat) : Uuid := 8 + Z.of_nat n.

Lemma request_group_id_fresh_witness :
  exists q w', request_group_id "example.com" toy_uuid 2 two_members = Some (q, w') /\
    (group_uuid q ∉ reserved_group_ids two_members).
Proof.
  destruct (request_group_id_fresh "example.com" toy_uuid 2 two_members) as (u & w' & Hr & Hu & _).
  - intros i j Hij. unfold toy_uuid. lia.
  - change (reserved_group_ids two_members) with ({[8]} : gset Uuid). rewrite size_singleton. lia.
  - eexists _, _. split; [exact Hr|]. exact Hu.
Defined.

Lemma check_and_insert_exact_witness :
  exists w', check_and_insert answers 7 0 [3; 1; 2] two_members = (Ok tt, w') /\
    forall x, x ∈ ds_collision_tag (db w') <->
      x ∈ ds_collision_tag (db two_members) \/ exists t, t ∈ [3; 1; 2] /\ x = (7, 0, t).
Proof.
  destruct (check_and_insert_exact answers 7 0 [3; 1; 2] two_members (fun _ => eq_refl))
    as (r & w' & Hr & _ & _ & Hok & Hm).
  assert (Hr' : r = Ok tt).
  { apply Hok. split; [split; [|cbn; lia]|]; [|intros t _; apply not_elem_of_empty].
    by apply (bool_decide_unpack _). }
  subst r. exists w'. exact (conj Hr Hm).
Defined.

End Evaluate_service.
