(* ===== verification/ClientBase.v ===== *)
(** * Access to a client's database
      ([coreclient/src/db/notification.rs], [coreclient/src/db/access.rs])

    What everything on the device shares: notifications about changes, SQLite's
    errors, connections and transactions.  SQLite's answers are an oracle that is read
    in order; a transaction that fails is rolled back together with its
    notifications. *)

From S2P Require Import Prelude Messages.

(** ** Notifications about database changes ([db/notification.rs]) *)

Inductive DbOperation := OpAdd | OpUpdate | OpRemove.

#[export] Instance DbOperation_eq_dec : EqDecision DbOperation.
Proof. solve_decision. Defined.
#[export] Instance DbOperation_countable : Countable DbOperation.
Proof.
  refine (inj_countable (fun o => match o with OpAdd => 0 | OpUpdate => 1 | OpRemove => 2 end)%nat
    (fun n => match n with 0 => Some OpAdd | 1 => Some OpUpdate | 2 => Some OpRemove | _ => None end)%nat _).
  by intros [].
Defined.

Inductive DbEntityId :=
| EntityUser (id : UserId)
| EntityChat (id : Uuid)
| EntityMessage (id : Uuid)
| EntityAttachment (id : Uuid).

#[export] Instance DbEntityId_eq_dec : EqDecision DbEntityId.
Proof. solve_decision. Defined.
#[export] Instance DbEntityId_countable : Countable DbEntityId.
Proof.
  refine (inj_countable' (fun e => match e with
      | EntityUser u => inl u | EntityChat u => inr (inl u)
      | EntityMessage u => inr (inr (inl u)) | EntityAttachment u => inr (inr (inr u)) end)
    (fun x => match x with
      | inl u => EntityUser u | inr (inl u) => EntityChat u
      | inr (inr (inl u)) => EntityMessage u | inr (inr (inr u)) => EntityAttachment u end) _).
  by intros [].
Defined.

(** [DbNotification]: the operations on each entity. *)
Abbreviation DbNotification := (gmap DbEntityId (gset DbOperation)).

(** [DbNotifier::add], [update] and [remove]. *)
Definition notifier_op (op : DbOperation) (id : DbEntityId) (n : DbNotification) : DbNotification :=
  <[id := {[op]} ∪ default ∅ (n !! id)]> n.

(** ** Errors *)

(** [sqlx::Error], by whether [as_database_error] has something. *)
Inductive SqlxError :=
| SqlxDatabase
| SqlxRowNotFound
| SqlxEncode
| SqlxDecode
| SqlxOther.

Definition as_database_error (e : SqlxError) : bool :=
  match e with SqlxDatabase => true | _ => false end.

(** ** Connections and transactions ([db/access.rs]) *)

(** The database as the open connection sees it, the notifier of the connection,
    the notifications that were sent, the requests that were sent to servers, and the
    position in the oracles. *)
Record AccessWorld (Db Req : Type) := {
  aw_db : Db;
  aw_notifier : DbNotification;
  aw_sent : list DbNotification;
  aw_requests : list Req;
  aw_clock : nat
}.
Arguments aw_db {Db Req}.
Arguments aw_notifier {Db Req}.
Arguments aw_sent {Db Req}.
Arguments aw_requests {Db Req}.
Arguments aw_clock {Db Req}.

Section Access.
Context {Db Req : Type} (sqlite : nat -> option SqlxError).
Abbreviation W := (AccessWorld Db Req).
Implicit Types (w : W).

Definition set_db (d : Db) w : W :=
  {| aw_db := d; aw_notifier := aw_notifier w; aw_sent := aw_sent w; aw_requests := aw_requests w;
     aw_clock := aw_clock w |}.
Definition set_notifier (n : DbNotification) w : W :=
  {| aw_db := aw_db w; aw_notifier := n; aw_sent := aw_sent w; aw_requests := aw_requests w;
     aw_clock := aw_clock w |}.
Definition log_request (r : Req) w : W :=
  {| aw_db := aw_db w; aw_notifier := aw_notifier w; aw_sent := aw_sent w;
     aw_requests := aw_requests w ++ [r]; aw_clock := S (aw_clock w) |}.
Definition advance w : W :=
  {| aw_db := aw_db w; aw_notifier := aw_notifier w; aw_sent := aw_sent w;
     aw_requests := aw_requests w; aw_clock := S (aw_clock w) |}.

(** Reading an oracle: the clock, a random value, a cancellation token. *)
Definition ask {E A} (f : nat -> A) : M W E A := fun w => (Ok (f (aw_clock w)), advance w).

(** A statement that is sent to SQLite. *)
Definition statement : M W SqlxError unit := fun w =>
  match sqlite (aw_clock w) with
  | None => (Ok tt, advance w)
  | Some e => (Err e, advance w)
  end.
(** [fetch_optional], [fetch_one] and the like; [execute]. *)
Definition fetch {A} (f : Db -> A) : M W SqlxError A :=
  _ ← statement; gets (fun w => f (aw_db w)).
Definition execute (f : Db -> Db) : M W SqlxError unit :=
  _ ← statement; modify (fun w => set_db (f (aw_db w)) w).

(** [txn.notifier().update(id)]. *)
Definition notify_update {E} (id : DbEntityId) : M W E unit :=
  modify (fun w => set_notifier (notifier_op OpUpdate id (aw_notifier w)) w).

(** [txn.notifier().add(id)]. *)
Definition notify_add {E} (id : DbEntityId) : M W E unit :=
  modify (fun w => set_notifier (notifier_op OpAdd id (aw_notifier w)) w).

(** [Drop] of a [WriteDbConnection]: what was collected is sent. *)
Definition drop_connection w : W :=
  {| aw_db := aw_db w; aw_notifier := ∅;
     aw_sent := if decide (aw_notifier w = ∅) then aw_sent w else aw_sent w ++ [aw_notifier w];
     aw_requests := aw_requests w; aw_clock := aw_clock w |}.

(** [DbAccess::read] followed by one query. *)
Definition with_read {E A} (of_sqlx : SqlxError -> E) (m : M W E A) : M W E A :=
  _ ← map_errM of_sqlx statement; m.

(** [DbAccess::with_read_transaction]. *)
Definition with_read_transaction {E A} (of_sqlx : SqlxError -> E) (m : M W E A) : M W E A :=
  _ ← map_errM of_sqlx statement; _ ← map_errM of_sqlx statement; m.

(** [DbAccess::write], the use of the connection [m], and its end.  Statements outside
    of a transaction take effect one by one. *)
Definition with_write {E A} (of_sqlx : SqlxError -> E) (m : M W E A) : M W E A := fun w =>
  match statement w with
  | (Err e, w1) => (Err (of_sqlx e), w1)
  | (Ok _, w1) => let '(r, w2) := m (set_notifier ∅ w1) in (r, drop_connection w2)
  end.

(** [WriteConnection::with_transaction]. *)
Definition with_transaction {E A} (of_sqlx : SqlxError -> E) (m : M W E A) : M W E A := fun w =>
  match statement w with
  | (Err e, w1) => (Err (of_sqlx e), w1)
  | (Ok _, w1) =>
      match m w1 with
      | (Err e, w2) => (Err e, set_notifier ∅ (set_db (aw_db w1) w2))
      | (Ok a, w2) =>
          match statement w2 with
          | (Ok _, w3) => (Ok a, w3)
          | (Err e, w3) => (Err (of_sqlx e), set_notifier ∅ (set_db (aw_db w1) w3))
          end
      end
  end.

(** [DbAccess::with_write_transaction]. *)
Definition with_write_transaction {E A} (of_sqlx : SqlxError -> E) (m : M W E A) : M W E A :=
  with_write of_sqlx (with_transaction of_sqlx m).

(** [WriteConnection::begin] and [commit] around a body that may find nothing: without a
    result the transaction is dropped, which rolls it back. *)
Definition with_optional_transaction {E A} (of_sqlx : SqlxError -> E) (m : M W E (option A)) :
    M W E (option A) := fun w =>
  match statement w with
  | (Err e, w1) => (Err (of_sqlx e), w1)
  | (Ok _, w1) =>
      match m w1 with
      | (Err e, w2) => (Err e, set_db (aw_db w1) w2)
      | (Ok None, w2) => (Ok None, set_db (aw_db w1) w2)
      | (Ok (Some a), w2) =>
          match statement w2 with
          | (Ok _, w3) => (Ok (Some a), w3)
          | (Err e, w3) => (Err (of_sqlx e), set_notifier ∅ (set_db (aw_db w1) w3))
          end
      end
  end.

(** ** What they do *)

Lemma statement_inv w r w' : statement w = (r, w') -> w' = advance w.
Proof. unfold statement. destruct (sqlite _); by intros [= <- <-]. Qed.

Lemma fetch_inv {A} (f : Db -> A) w r w' :
  fetch f w = (r, w') -> w' = advance w /\ (r = Ok (f (aw_db w)) \/ exists e, r = Err e).
Proof.
  unfold fetch. intros (q & w1 & Hm & H)%M_bind_inv. apply statement_inv in Hm as ->.
  destruct q; [|destruct H; subst; eauto]. injection H as <- <-. eauto.
Qed.

Lemma execute_inv (f : Db -> Db) w r w' :
  execute f w = (r, w') ->
  (r = Ok tt /\ w' = set_db (f (aw_db w)) (advance w)) \/ (exists e, r = Err e /\ w' = advance w).
Proof.
  unfold execute. intros (q & w1 & Hm & H)%M_bind_inv. apply statement_inv in Hm as ->.
  destruct q; [|destruct H; subst; eauto]. injection H as <- <-. eauto.
Qed.

(** A transaction commits what its body did, or changes nothing in the database; the
    requests of its body were sent in any case. *)
Lemma with_write_transaction_inv {E A} (of_sqlx : SqlxError -> E) (m : M W E A) w r w' :
  with_write_transaction of_sqlx m w = (r, w') ->
  (exists e, r = Err e /\ aw_db w' = aw_db w /\ aw_requests w' = aw_requests w) \/
  (exists w1 q w2, aw_db w1 = aw_db w /\ aw_requests w1 = aw_requests w /\ m w1 = (q, w2) /\
     aw_requests w' = aw_requests w2 /\
     ((exists a, q = Ok a /\ r = Ok a /\ aw_db w' = aw_db w2) \/
      (exists e, r = Err e /\ aw_db w' = aw_db w))).
Proof.
  unfold with_write_transaction, with_write. destruct (statement w) as [[[]|e] w1] eqn:E1;
    apply statement_inv in E1 as ->; [|intros [= <- <-]; left; eauto].
  unfold with_transaction. destruct (statement _) as [[[]|e] w2] eqn:E2;
    apply statement_inv in E2 as ->; [|intros [= <- <-]; left; eauto].
  destruct (m _) as [[a|e] w2] eqn:Em.
  - destruct (statement w2) as [[[]|e] w3] eqn:E3; apply statement_inv in E3 as ->;
      intros [= <- <-]; right; eexists _, _, _; (split; [|split; [|split; [exact Em|]]]); try done;
      split; eauto 6.
  - intros [= <- <-]; right; eexists _, _, _; (split; [|split; [|split; [exact Em|]]]); try done;
      split; eauto.
Qed.

Lemma with_optional_transaction_Some {E A} (g : SqlxError -> E) (m : M W E (option A)) w a w' :
  with_write g (with_optional_transaction g m) w = (Ok (Some a), w') ->
  exists w1 w2, aw_db w1 = aw_db w /\ m w1 = (Ok (Some a), w2) /\ aw_db w' = aw_db w2.
Proof.
  unfold with_write, with_optional_transaction.
  destruct (statement w) as [[[]|e] w1] eqn:E1; apply statement_inv in E1 as ->; [|done].
  destruct (statement _) as [[[]|e] w2] eqn:E2; apply statement_inv in E2 as ->; [|done].
  destruct (m _) as [[[b|]|e] w3] eqn:Em; [|done..].
  destruct (statement w3) as [[[]|e] w4] eqn:E3; apply statement_inv in E3 as ->; [|done].
  intros [= <- <-]. eexists _, _. split; [|split; [exact Em|]]; done.
Qed.

(** ** Frames *)

(** What a theorem looks at: the database and the requests. *)
Definition view w : Db * list Req := (aw_db w, aw_requests w).

(** A relation between views that holds along programs: a preorder that a rollback
    of the database respects. *)
Class ViewRel (R : relation (Db * list Req)) := {
  view_pre :: PreOrder R;
  view_rollback d rs d' rs' : R (d, rs) (d', rs') -> R (d, rs) (d, rs')
}.

(** The program [m] relates the views before and after it, also when it fails. *)
Definition framed (R : relation (Db * list Req)) {E A} (m : M W E A) : Prop :=
  forall w r w', m w = (r, w') -> R (view w) (view w').

Section Frame.
Context (R : relation (Db * list Req)) `{!ViewRel R}.

Lemma framed_view {E A} (m : M W E A) :
  (forall w r w', m w = (r, w') -> view w' = view w) -> framed R m.
Proof using ViewRel0. intros Hm w r w' E'. by rewrite (Hm _ _ _ E'). Qed.

Lemma framed_bind {E A B} (m : M W E A) (f : A -> M W E B) :
  framed R m -> (forall a, framed R (f a)) -> framed R (m ≫= f).
Proof using ViewRel0.
  intros Hm Hf w r w' (q & w1 & H1 & H2)%M_bind_inv. apply Hm in H1.
  destruct q as [a|e]; [|by destruct H2 as [_ ->]]. apply Hf in H2. by transitivity (view w1).
Qed.
(** The same when the result of the first program is known. *)
Lemma framed_bind_post {E A B} (P : A -> Prop) (m : M W E A) (f : A -> M W E B) :
  framed R m -> (forall w a w', m w = (Ok a, w') -> P a) -> (forall a, P a -> framed R (f a)) ->
  framed R (m ≫= f).
Proof using ViewRel0.
  intros Hm Hp Hf w r w' (q & w1 & H1 & H2)%M_bind_inv. pose proof (Hm _ _ _ H1).
  destruct q as [a|e]; [|by destruct H2 as [_ ->]]. apply (Hf _ (Hp _ _ _ H1)) in H2. by transitivity (view w1).
Qed.
Lemma framed_ret {E A} (a : A) : framed R (mret a : M W E A).
Proof using ViewRel0. apply framed_view. by intros w r w' [= <- <-]. Qed.
Lemma framed_throw {E A} (e : E) : framed R (throw e : M W E A).
Proof using ViewRel0. apply framed_view. by intros w r w' [= <- <-]. Qed.
Lemma framed_lift {E A} (q : Result E A) : framed R (lift q : M W E A).
Proof using ViewRel0. apply framed_view. by intros w r w' [= <- <-]. Qed.
Lemma framed_gets {E A} (f : W -> A) : framed R (gets f : M W E A).
Proof using ViewRel0. apply framed_view. by intros w r w' [= <- <-]. Qed.
Lemma framed_ask {E A} (f : nat -> A) : framed R (ask f : M W E A).
Proof using ViewRel0. apply framed_view. by intros w r w' [= <- <-]. Qed.
Lemma framed_notify {E} id : framed R (notify_update id : M W E unit).
Proof using ViewRel0. apply framed_view. by intros w r w' [= <- <-]. Qed.
Lemma framed_notify_add {E} id : framed R (notify_add id : M W E unit).
Proof using ViewRel0. apply framed_view. by intros w r w' [= <- <-]. Qed.
Lemma framed_statement : framed R statement.
Proof using ViewRel0. apply framed_view. by intros w r w' ->%statement_inv. Qed.
Lemma framed_fetch {A} (f : Db -> A) : framed R (fetch f).
Proof using ViewRel0. apply framed_view. by intros w r w' [-> _]%fetch_inv. Qed.
Lemma framed_execute (f : Db -> Db) : (forall d rs, R (d, rs) (f d, rs)) -> framed R (execute f).
Proof using ViewRel0.
  intros Hf w r w' [[_ ->]|(e & _ & ->)]%execute_inv; [apply Hf|reflexivity].
Qed.
Lemma framed_try {E F A} (m : M W E A) : framed R m -> framed R (try_ m : M W F (Result E A)).
Proof. intros Hm w r w' (q & E' & _)%try_inv. by eapply Hm. Qed.
Lemma framed_map_err {E F A} (f : E -> F) (m : M W E A) : framed R m -> framed R (map_errM f m).
Proof. intros Hm w r w' (q & E' & _)%map_errM_inv. by eapply Hm. Qed.
Lemma framed_mapM {E A} (f : A -> M W E unit) l : (forall a, framed R (f a)) -> framed R (mapM_ f l).
Proof using ViewRel0.
  intros Hf. induction l as [|a l IH]; cbn; [apply framed_ret|]. apply framed_bind; auto.
Qed.
Lemma framed_with_read {E A} (g : SqlxError -> E) (m : M W E A) :
  framed R m -> framed R (with_read g m).
Proof using ViewRel0. intros Hm. apply framed_bind; [apply framed_map_err, framed_statement|done]. Qed.
Lemma framed_with_read_transaction {E A} (g : SqlxError -> E) (m : M W E A) :
  framed R m -> framed R (with_read_transaction g m).
Proof using ViewRel0.
  intros Hm. apply framed_bind; [apply framed_map_err, framed_statement|].
  intros _. by apply framed_with_read.
Qed.
Lemma framed_with_write {E A} (g : SqlxError -> E) (m : M W E A) :
  framed R m -> framed R (with_write g m).
Proof using ViewRel0.
  intros Hm w r w'. unfold with_write. destruct (statement w) as [[[]|e] w1] eqn:E1;
    apply statement_inv in E1 as ->; [|by intros [= <- <-]].
  destruct (m _) as [q w2] eqn:E2. intros [= <- <-]. by apply Hm in E2.
Qed.
Lemma framed_with_transaction {E A} (g : SqlxError -> E) (m : M W E A) :
  framed R m -> framed R (with_transaction g m).
Proof using ViewRel0.
  intros Hm w r w'. unfold with_transaction. destruct (statement w) as [[[]|e] w1] eqn:E1;
    apply statement_inv in E1 as ->; [|by intros [= <- <-]].
  destruct (m _) as [[a|e] w2] eqn:E2; apply Hm in E2.
  - destruct (statement w2) as [[[]|e] w3] eqn:E3; apply statement_inv in E3 as ->; intros [= <- <-];
      [done|]. by eapply view_rollback.
  - intros [= <- <-]. by eapply view_rollback.
Qed.
Lemma framed_with_optional_transaction {E A} (g : SqlxError -> E) (m : M W E (option A)) :
  framed R m -> framed R (with_optional_transaction g m).
Proof using ViewRel0.
  intros Hm w r w'. unfold with_optional_transaction.
  destruct (statement w) as [[[]|e] w1] eqn:E1; apply statement_inv in E1 as ->; [|by intros [= <- <-]].
  destruct (m _) as [[[a|]|e] w2] eqn:E2; apply Hm in E2.
  - destruct (statement w2) as [[[]|e] w3] eqn:E3; apply statement_inv in E3 as ->; intros [= <- <-];
      [done|]. by eapply view_rollback.
  - intros [= <- <-]. by eapply view_rollback.
  - intros [= <- <-]. by eapply view_rollback.
Qed.

End Frame.

(** Keeping a part of the database. *)
Definition same {X} (f : Db -> X) : relation (Db * list Req) := fun a b => f b.1 = f a.1.
#[export] Instance same_rel {X} (f : Db -> X) : ViewRel (same f).
Proof.
  split; [split|done]; unfold same; [done|]. intros ??? -> ->. done.
Qed.

(** Sending no request. *)
Definition asked : relation (Db * list Req) := fun a b => b.2 = a.2.
#[export] Instance asked_rel : ViewRel asked.
Proof. split; [split|]; unfold asked; [done|by intros ??? -> ->|done]. Qed.

(** Changing nothing in sight. *)
Definition idle : relation (Db * list Req) := fun a b => b = a.
#[export] Instance idle_rel : ViewRel idle.
Proof. split; [split|]; unfold idle; [done|by intros ??? -> ->|]. by intros d rs d' rs' [= -> ->]. Qed.

Lemma framed_same {X E A} (f : Db -> X) (m : M W E A) w r w' :
  framed (same f) m -> m w = (r, w') -> f (aw_db w') = f (aw_db w).
Proof. intros Hm E'. by apply Hm in E'. Qed.

End Access.

(** ** A value in memory *)

(** Code that changes a value of type [X] next to the database: what it has changed
    stays when a transaction is rolled back. *)
Section Memory.
Context {Db Req X : Type} (sqlite : nat -> option SqlxError).
Abbreviation W := (AccessWorld Db Req).
Abbreviation S := (W * X)%type.

Definition on_world {E A} (m : M W E A) : M S E A := fun s =>
  let '(r, w) := m s.1 in (r, (w, s.2)).
Definition recall {E A} (f : X -> A) : M S E A := gets (fun s => f s.2).
Definition assign {E} (f : X -> X) : M S E unit := modify (fun s => (s.1, f s.2)).

(** The code run with a value of its own. *)
Definition with_memory {E A} (x : X) (m : M S E A) : M W E (A * X) := fun w =>
  match m (w, x) with
  | (Ok a, (w', x')) => (Ok (a, x'), w')
  | (Err e, (w', _)) => (Err e, w')
  end.

(** [DbAccess::write] and [WriteConnection::with_transaction]. *)
Definition keeping_write {E A} (of_sqlx : SqlxError -> E) (m : M S E A) : M S E A := fun s =>
  match statement sqlite s.1 with
  | (Err e, w1) => (Err (of_sqlx e), (w1, s.2))
  | (Ok _, w1) => let '(r, (w2, x)) := m (set_notifier ∅ w1, s.2) in (r, (drop_connection w2, x))
  end.
Definition keeping_transaction {E A} (of_sqlx : SqlxError -> E) (m : M S E A) : M S E A := fun s =>
  match statement sqlite s.1 with
  | (Err e, w1) => (Err (of_sqlx e), (w1, s.2))
  | (Ok _, w1) =>
      match m (w1, s.2) with
      | (Err e, (w2, x)) => (Err e, (set_notifier ∅ (set_db (aw_db w1) w2), x))
      | (Ok a, (w2, x)) =>
          match statement sqlite w2 with
          | (Ok _, w3) => (Ok a, (w3, x))
          | (Err e, w3) => (Err (of_sqlx e), (set_notifier ∅ (set_db (aw_db w1) w3), x))
          end
      end
  end.

Lemma on_world_inv {E A} (m : M W E A) s r s' :
  on_world m s = (r, s') -> exists w', m s.1 = (r, w') /\ s' = (w', s.2).
Proof. unfold on_world. destruct (m s.1) as [q w']. intros [= <- <-]. eauto. Qed.

Lemma keeping_write_inv {E A} (g : SqlxError -> E) (m : M S E A) s r s' :
  keeping_write g m s = (r, s') ->
  (exists n e, sqlite n = Some e /\ r = Err (g e) /\ view s'.1 = view s.1 /\ s'.2 = s.2) \/
  (exists w1 s2, view w1 = view s.1 /\ m (w1, s.2) = (r, s2) /\ view s'.1 = view s2.1 /\ s'.2 = s2.2).
Proof.
  destruct s as [w x]. unfold keeping_write, statement. cbn. destruct (sqlite _) as [e|] eqn:E1.
  { intros [= <- <-]. left. by exists (aw_clock w), e. }
  destruct (m _) as [q [w2 x2]] eqn:Em. intros [= <- <-]. right. eexists _, (w2, x2). by split; [|split; [exact Em|]].
Qed.

Lemma keeping_transaction_inv {E A} (g : SqlxError -> E) (m : M S E A) s r s' :
  keeping_transaction g m s = (r, s') ->
  (exists n e, sqlite n = Some e /\ r = Err (g e) /\ view s'.1 = view s.1 /\ s'.2 = s.2) \/
  (exists w1 q s2, view w1 = view s.1 /\ m (w1, s.2) = (q, s2) /\
     s'.2 = s2.2 /\ aw_requests s'.1 = aw_requests s2.1 /\
     ((exists a, q = Ok a /\ r = Ok a /\ aw_db s'.1 = aw_db s2.1) \/
      (exists e, r = Err e /\ aw_db s'.1 = aw_db s.1 /\
         (q = Err e \/ exists n e', sqlite n = Some e' /\ e = g e')))).
Proof.
  destruct s as [w x]. unfold keeping_transaction, statement. cbn. destruct (sqlite _) as [e|] eqn:E1.
  { intros [= <- <-]. left. by exists (aw_clock w), e. }
  destruct (m _) as [[a|e] [w2 x2]] eqn:Em.
  - destruct (sqlite (aw_clock w2)) as [e|] eqn:E2; intros [= <- <-]; right; eexists _, _, _;
      (split; [|split; [exact Em|]]); [done| |done|]; cbn; split_and!; try done; [right|left]; eauto 8.
  - intros [= <- <-]. right. eexists _, _, _. split; [|split; [exact Em|]]; [done|]. cbn. split_and!; try done.
    right. eauto 6.
Qed.

(** Frames of such code: relations between views and values in memory. *)
Class MemoryRel (R : relation (Db * list Req * X)) := {
  memory_pre :: PreOrder R;
  memory_rollback d rs x d' rs' x' : R (d, rs, x) (d', rs', x') -> R (d, rs, x) (d, rs', x')
}.
Definition framed_in (R : relation (Db * list Req * X)) {E A} (m : M S E A) : Prop :=
  forall s r s', m s = (r, s') -> R (view s.1, s.2) (view s'.1, s'.2).

(** A relation between views at a value, and whatever the value. *)
Definition at_value (R : relation (Db * list Req * X)) (x : X) : relation (Db * list Req) :=
  fun a b => R (a, x) (b, x).
Definition any_value (R : relation (Db * list Req)) : relation (Db * list Req * X) :=
  fun a b => R a.1 b.1.
#[export] Instance at_value_rel R x : MemoryRel R -> ViewRel (at_value R x).
Proof.
  intros HR. split; [split|]; unfold at_value; [by intros a|by intros a b c; transitivity (b, x)|].
  intros d rs d' rs'. apply memory_rollback.
Qed.
#[export] Instance any_value_rel R : ViewRel R -> MemoryRel (any_value R).
Proof.
  intros HR. split; [split|]; unfold any_value; [by intros a|by intros a b c; transitivity b.1|].
  intros d rs x d' rs' x'. apply view_rollback.
Qed.

Section Frame.
Context (R : relation (Db * list Req * X)) `{!MemoryRel R}.

Lemma framed_in_bind {E A B} (m : M S E A) (f : A -> M S E B) :
  framed_in R m -> (forall a, framed_in R (f a)) -> framed_in R (m ≫= f).
Proof using MemoryRel0.
  intros Hm Hf s r s' (q & s1 & H1 & H2)%M_bind_inv. apply Hm in H1.
  destruct q as [a|e]; [|by destruct H2 as [_ ->]]. apply Hf in H2. by transitivity (view s1.1, s1.2).
Qed.
Lemma framed_in_ret {E A} (a : A) : framed_in R (mret a : M S E A).
Proof using MemoryRel0. by intros s r s' [= <- <-]. Qed.
Lemma framed_in_throw {E A} (e : E) : framed_in R (throw e : M S E A).
Proof using MemoryRel0. by intros s r s' [= <- <-]. Qed.
Lemma framed_in_lift {E A} (q : Result E A) : framed_in R (lift q : M S E A).
Proof using MemoryRel0. by intros s r s' [= <- <-]. Qed.
Lemma framed_in_recall {E A} (f : X -> A) : framed_in R (recall f : M S E A).
Proof using MemoryRel0. by intros s r s' [= <- <-]. Qed.
Lemma framed_in_assign {E} (f : X -> X) :
  (forall v x, R (v, x) (v, f x)) -> framed_in R (assign f : M S E unit).
Proof. intros Hf s r s' [= <- <-]. apply Hf. Qed.
Lemma framed_in_world {E A} (m : M W E A) :
  (forall x, framed (at_value R x) m) -> framed_in R (on_world m).
Proof. intros Hm s r s' (w' & E' & ->)%on_world_inv. by apply (Hm s.2) in E'. Qed.
Lemma framed_in_map_err {E F A} (f : E -> F) (m : M S E A) : framed_in R m -> framed_in R (map_errM f m).
Proof. intros Hm s r s' (q & E' & _)%map_errM_inv. by eapply Hm. Qed.
Lemma framed_in_try {E F A} (m : M S E A) : framed_in R m -> framed_in R (try_ m : M S F (Result E A)).
Proof. intros Hm s r s' (q & E' & _)%try_inv. by eapply Hm. Qed.
Lemma framed_in_mapM {E A} (f : A -> M S E unit) l : (forall a, framed_in R (f a)) -> framed_in R (mapM_ f l).
Proof using MemoryRel0.
  intros Hf. induction l as [|a l IH]; cbn; [apply framed_in_ret|]. apply framed_in_bind; auto.
Qed.
Lemma framed_in_write {E A} (g : SqlxError -> E) (m : M S E A) :
  framed_in R m -> framed_in R (keeping_write g m).
Proof using MemoryRel0.
  intros Hm [w x] r s'. unfold keeping_write. cbn. destruct (statement sqlite w) as [[[]|e] w1] eqn:E1;
    apply statement_inv in E1 as ->; [|by intros [= <- <-]].
  destruct (m _) as [q [w2 x2]] eqn:E2. intros [= <- <-]. by apply Hm in E2.
Qed.
Lemma framed_in_transaction {E A} (g : SqlxError -> E) (m : M S E A) :
  framed_in R m -> framed_in R (keeping_transaction g m).
Proof using MemoryRel0.
  intros Hm [w x] r s'. unfold keeping_transaction. cbn. destruct (statement sqlite w) as [[[]|e] w1] eqn:E1;
    apply statement_inv in E1 as ->; [|by intros [= <- <-]].
  destruct (m _) as [[a|e] [w2 x2]] eqn:E2; apply Hm in E2.
  - destruct (statement sqlite w2) as [[[]|e] w3] eqn:E3; apply statement_inv in E3 as ->; intros [= <- <-];
      [done|]. by eapply memory_rollback.
  - intros [= <- <-]. by eapply memory_rollback.
Qed.
End Frame.

Lemma framed_with_memory (R : relation (Db * list Req)) {E A} x (m : M S E A) :
  framed_in (any_value R) m -> framed R (with_memory x m).
Proof.
  intros Hm w r w'. unfold with_memory. destruct (m _) as [[a|e] [w1 x1]] eqn:E1; apply Hm in E1;
    by intros [= <- <-].
Qed.
End Memory.

(** ** Programs that succeed *)

Definition total {S E A} (m : M S E A) : Prop := forall s, exists a s', m s = (Ok a, s').

Section Total.
Context {S E : Type}.
Lemma total_bind {A B} (m : M S E A) (f : A -> M S E B) : total m -> (forall a, total (f a)) -> total (m ≫= f).
Proof.
  intros Hm Hf s. destruct (Hm s) as (a & s1 & E1). destruct (Hf a s1) as (b & s2 & E2). exists b, s2.
  unfold mbind, M_bind. by rewrite E1.
Qed.
Lemma total_ret {A} (a : A) : total (mret a : M S E A).
Proof. intros s. by eexists _, _. Qed.
Lemma total_gets {A} (f : S -> A) : total (gets f : M S E A).
Proof. intros s. by eexists _, _. Qed.
Lemma total_modify (f : S -> S) : total (modify f : M S E unit).
Proof. intros s. by eexists _, _. Qed.
Lemma total_map_err {F A} (f : E -> F) (m : M S E A) : total m -> total (map_errM f m).
Proof. intros Hm s. destruct (Hm s) as (a & s1 & E1). exists a, s1. unfold map_errM. by rewrite E1. Qed.
Lemma total_mapM {A} (f : A -> M S E unit) l : (forall a, total (f a)) -> total (mapM_ f l).
Proof. intros Hf. induction l; cbn; [apply total_ret|]. by apply total_bind. Qed.
End Total.

Section NoFailure.
Context {Db Req : Type} (sqlite : nat -> option SqlxError) (Hok : forall n, sqlite n = None).
Abbreviation W := (AccessWorld Db Req).

Lemma fetch_ok {A} (f : Db -> A) (w : W) : fetch sqlite f w = (Ok (f (aw_db w)), advance w).
Proof using Hok. unfold fetch, mbind, M_bind, statement. by rewrite Hok. Qed.
Lemma execute_ok (f : Db -> Db) (w : W) :
  execute sqlite f w = (Ok tt, set_db (f (aw_db w)) (advance w)).
Proof using Hok. unfold execute, mbind, M_bind, statement. by rewrite Hok. Qed.
Lemma total_fetch {A} (f : Db -> A) : total (fetch (Req := Req) sqlite f).
Proof using Hok. intros w. eexists _, _. apply fetch_ok. Qed.
Lemma total_execute (f : Db -> Db) : total (execute (Req := Req) sqlite f).
Proof using Hok. intros w. eexists _, _. apply execute_ok. Qed.
Lemma total_world {X E A} (m : M W E A) : total m -> total (on_world (X := X) m).
Proof. intros Hm s. destruct (Hm s.1) as (a & w & E1). exists a, (w, s.2). unfold on_world. by rewrite E1. Qed.
Lemma total_with_write {E A} (g : SqlxError -> E) (m : M W E A) : total m -> total (with_write sqlite g m).
Proof using Hok.
  intros Hm w. unfold with_write, statement. rewrite Hok.
  destruct (Hm (set_notifier ∅ (advance w))) as (a & w1 & ->). by eexists _, _.
Qed.
Lemma total_with_write_transaction {E A} (g : SqlxError -> E) (m : M W E A) :
  total m -> total (with_write_transaction sqlite g m).
Proof using Hok.
  intros Hm w. unfold with_write_transaction, with_write, with_transaction, statement. rewrite !Hok.
  destruct (Hm (advance (set_notifier ∅ (advance w)))) as (a & w1 & ->). rewrite Hok. by eexists _, _.
Qed.
Lemma with_write_transaction_ok {E A} (g : SqlxError -> E) (m : M W E A) w r w' :
  with_write_transaction sqlite g m w = (r, w') ->
  exists w1 w2, aw_db w1 = aw_db w /\ m w1 = (r, w2) /\
    aw_db w' = match r with Ok _ => aw_db w2 | Err _ => aw_db w end.
Proof using Hok.
  unfold with_write_transaction, with_write, with_transaction, statement. rewrite !Hok.
  destruct (m _) as [[a|e] w2] eqn:Em; rewrite ?Hok; intros [= <- <-]; eexists _, w2;
    (split; [|split; [exact Em|]]); done.
Qed.
End NoFailure.

Ltac total_with tac :=
  repeat first
    [ apply total_ret | apply total_gets | apply total_modify
    | apply total_fetch; solve [tac] | apply total_execute; solve [tac] | apply total_world
    | apply total_with_write; [solve [tac]|]
    | solve [eauto]
    | apply total_map_err | apply total_mapM; intros ? | apply total_bind; [|intros ?]
    | progress cbn beta iota
    | match goal with
      | |- total (match ?x with _ => _ end) => destruct x
      | |- total (notify_update _) => apply total_modify
      | |- total (notify_add _) => apply total_modify
      | |- total (recall _) => apply total_gets
      | |- total (assign _) => apply total_modify
      | |- total (ask _) => let w := fresh in intros w; by eexists _, _
      end ].

(** Frames of programs by their structure; the side conditions of [execute] are left to
    [tac]. *)
Ltac frame_with tac :=
  repeat first
    [ apply framed_ret; exact _ | apply framed_throw; exact _ | apply framed_lift; exact _
    | apply framed_gets; exact _ | apply framed_ask; exact _ | apply framed_notify; exact _
    | apply framed_notify_add; exact _
    | apply framed_fetch; exact _ | apply framed_statement; exact _
    | solve [eauto with frame]
    | apply framed_execute; [exact _|solve [intros; tac]]
    | apply framed_with_read; [exact _|] | apply framed_with_read_transaction; [exact _|]
    | apply framed_with_write; [exact _|] | apply framed_with_transaction; [exact _|]
    | apply framed_with_optional_transaction; [exact _|]
    | apply framed_map_err | apply framed_try
    | apply framed_mapM; [exact _|intros ?]
    | apply framed_bind; [exact _| |intros ?]
    | progress cbn beta iota
    | match goal with
      | |- framed _ (match ?x with _ => _ end) => destruct x
      | |- framed _ (let '(_, _) := ?x in _) => destruct x
      end ].
Ltac frame_in_with tac :=
  repeat first
    [ apply framed_in_ret; exact _ | apply framed_in_throw; exact _ | apply framed_in_lift; exact _
    | apply framed_in_recall; exact _ | apply framed_in_assign; solve [intros; tac]
    | solve [eauto with frame]
    | apply framed_in_write; [exact _|] | apply framed_in_transaction; [exact _|]
    | apply framed_in_world; intros ?; solve [frame_with tac]
    | apply framed_in_map_err | apply framed_in_try
    | apply framed_in_mapM; [exact _|intros ?]
    | apply framed_in_bind; [exact _| |intros ?]
    | progress cbn beta iota
    | match goal with
      | |- framed_in _ (match ?x with _ => _ end) => destruct x
      | |- framed_in _ (let '(_, _) := ?x in _) => destruct x
      end ].
Create HintDb frame.
