(* ===== verification/ClientQueue.v ===== *)
(** * The client's side of the queue
      ([coreclient/src/db], [coreclient/src/key_stores/queue_ratchets.rs],
      [coreclient/src/clients/process/process_qs.rs],
      [coreclient/src/clients/multi_device.rs], [applogic/src/messages.rs])

    How a client receives its queue: the stored queue ratchet, the transaction and
    the savepoint in which a message is decrypted and handled, the processor of
    streamed events, and the two ways of draining the queue at once.  The tables
    other than [queue_ratchet] are the state of the handlers, which are the
    operations of a class; SQLite's answers are an oracle that is read in order. *)

From S2P Require Import Prelude Aead Ratchet Messages Qs ClientBase.

(** ** Errors *)

Inductive DecryptQsQueueMessageError :=
| DecryptDb (e : SqlxError)
| DecryptFailed (e : DecryptionErr) (ratchet_seq_nr message_seq_nr : Z).

(** [anyhow::Error], by what the code downcasts it to. *)
Inductive AnyhowError :=
| BlockedContactError
| AnyhowSqlx (e : SqlxError)
| AnyhowDecrypt (e : DecryptQsQueueMessageError)
| AnyhowTlsCodec
| AnyhowOther.

(** ** Messages and their handlers *)

(** The types of the messages that the queue carries and of what handling them
    reports. *)
Class ClientTypes := {
  WelcomeBundleIn : Type;
  ApqWelcomeBundleIn : Type;
  MlsMessageIn : Type;
  ApqMlsMessageIn : Type;
  UserProfileKeyUpdateParams : Type;
  CommitResponse : Type;
  ChatMessage : Type;
  ReactionNotification : Type
}.

Class ClientCodecs `{ClientTypes} := {
  welcome_in_tls :: TlsCodec WelcomeBundleIn;
  apq_welcome_in_tls :: TlsCodec ApqWelcomeBundleIn;
  mls_message_in_tls :: TlsCodec MlsMessageIn;
  apq_message_in_tls :: TlsCodec ApqMlsMessageIn;
  profile_key_update_tls :: TlsCodec UserProfileKeyUpdateParams;
  targeted_tls :: TlsCodec QsQueueTargetedMessage;
  commit_response_tls :: TlsCodec CommitResponse
}.

Inductive ExtractedQsQueueMessagePayload `{ClientTypes} :=
| ExtractedWelcomeBundle (m : WelcomeBundleIn)
| ExtractedApqWelcomeBundle (m : ApqWelcomeBundleIn)
| ExtractedMlsMessage (m : MlsMessageIn)
| ExtractedApqMlsMessage (m : ApqMlsMessageIn)
| ExtractedUserProfileKeyUpdate (m : UserProfileKeyUpdateParams)
| ExtractedTargetedMessage (m : QsQueueTargetedMessage)
| ExtractedDsCommitResponse (m : CommitResponse).

Record ExtractedQsQueueMessage `{ClientTypes} := {
  ex_timestamp : TimeStamp;
  ex_payload : ExtractedQsQueueMessagePayload
}.

(** [T::tls_deserialize_exact_bytes(&self.payload)?] under the constructor [f]. *)
Definition extract_as `{ClientTypes} {T} `{TlsCodec T} (f : T -> ExtractedQsQueueMessagePayload)
    (bs : bytes) : Result AnyhowError ExtractedQsQueueMessagePayload :=
  x ← ok_or AnyhowTlsCodec (tls_deserialize_exact_bytes bs); Ok (f x).

(** [QsQueueMessagePayload::extract]. *)
Definition extract `{ClientCodecs} (self : QsQueueMessagePayload) :
    Result AnyhowError ExtractedQsQueueMessage :=
  p ← (match message_type self with
       | WelcomeBundleType => extract_as ExtractedWelcomeBundle
       | ApqWelcomeBundleType => extract_as ExtractedApqWelcomeBundle
       | MlsMessageType => extract_as ExtractedMlsMessage
       | ApqMlsMessageType => extract_as ExtractedApqMlsMessage
       | UserProfileKeyUpdateType => extract_as ExtractedUserProfileKeyUpdate
       | TargetedMessageType => extract_as ExtractedTargetedMessage
       | DsResponseType => extract_as ExtractedDsCommitResponse
       end) (payload self);
  Ok {| ex_timestamp := timestamp self; ex_payload := p |}.

Inductive ProcessQsMessageResult `{ClientTypes} :=
| ResultNone
| ResultNewChat (chat_id : Uuid) (messages : list ChatMessage)
| ResultChatChanged (chat_id : Uuid) (messages : list ChatMessage)
    (reactions : list ReactionNotification)
| ResultMessages (messages : list ChatMessage) (reactions : list ReactionNotification)
| ResultNewConnection (chat_id : Uuid).

(** What a handler works on: the other tables, the notifier of its transaction,
    and the position in the oracle. *)
Record HandlerState (App : Type) := {
  hs_app : App;
  hs_notifier : DbNotification;
  hs_clock : nat
}.
Arguments hs_app {App}.
Arguments hs_notifier {App}.
Arguments hs_clock {App}.

(** The handlers of the seven kinds of messages.  None of them touches the table
    [queue_ratchet]. *)
Class QsHandlers (App : Type) `{ClientTypes} := {
  handle_welcome_bundle : WelcomeBundleIn -> TimeStamp ->
    M (HandlerState App) AnyhowError ProcessQsMessageResult;
  handle_apq_welcome_bundle : ApqWelcomeBundleIn -> TimeStamp ->
    M (HandlerState App) AnyhowError ProcessQsMessageResult;
  handle_mls_message : MlsMessageIn -> TimeStamp -> bool ->
    M (HandlerState App) AnyhowError ProcessQsMessageResult;
  handle_apq_mls_message : ApqMlsMessageIn -> TimeStamp -> bool ->
    M (HandlerState App) AnyhowError ProcessQsMessageResult;
  handle_user_profile_key_update : UserProfileKeyUpdateParams ->
    M (HandlerState App) AnyhowError ProcessQsMessageResult;
  handle_targeted_application_message : MlsMessageIn -> TimeStamp ->
    M (HandlerState App) AnyhowError ProcessQsMessageResult;
  handle_commit_response : CommitResponse ->
    M (HandlerState App) AnyhowError ProcessQsMessageResult
}.

(** [ProcessedQsMessages]. *)
Record ProcessedQsMessages `{ClientTypes} := {
  new_chats : list Uuid;
  changed_chats : list Uuid;
  new_messages : list ChatMessage;
  errors : list AnyhowError;
  processed : nat;
  new_connections : list Uuid;
  reaction_notifications : list ReactionNotification
}.

(** [ProcessedQsMessages::default]. *)
Definition processed_default `{ClientTypes} : ProcessedQsMessages :=
  {| new_chats := []; changed_chats := []; new_messages := []; errors := []; processed := 0;
     new_connections := []; reaction_notifications := [] |}.

(** [ProcessedQsMessages::is_empty]. *)
Definition processed_is_empty `{ClientTypes} (r : ProcessedQsMessages) : bool :=
  match new_chats r, changed_chats r, new_messages r, errors r with
  | [], [], [], [] => true
  | _, _, _, _ => false
  end.

Definition push_error `{ClientTypes} (e : AnyhowError) (r : ProcessedQsMessages) : ProcessedQsMessages :=
  {| new_chats := new_chats r; changed_chats := changed_chats r; new_messages := new_messages r;
     errors := errors r ++ [e]; processed := processed r; new_connections := new_connections r;
     reaction_notifications := reaction_notifications r |}.
Definition set_processed `{ClientTypes} (n : nat) (r : ProcessedQsMessages) : ProcessedQsMessages :=
  {| new_chats := new_chats r; changed_chats := changed_chats r; new_messages := new_messages r;
     errors := errors r; processed := n; new_connections := new_connections r;
     reaction_notifications := reaction_notifications r |}.

(** The last [match] of [decrypt_and_process_qs_message]. *)
Definition record_result `{ClientTypes} (p : ProcessQsMessageResult) (r : ProcessedQsMessages) :
    ProcessedQsMessages :=
  let extend chats changed ms conns rs :=
    {| new_chats := new_chats r ++ chats; changed_chats := changed_chats r ++ changed;
       new_messages := new_messages r ++ ms; errors := errors r; processed := processed r;
       new_connections := new_connections r ++ conns;
       reaction_notifications := reaction_notifications r ++ rs |} in
  match p with
  | ResultMessages ms rs => extend [] [] ms [] rs
  | ResultChatChanged chat ms rs => extend [] [chat] ms [] rs
  | ResultNewChat chat ms => extend [chat] [] ms [] []
  | ResultNone => r
  | ResultNewConnection chat => extend [] [] [] [chat] []
  end.

(** ** The client's database *)

(** The row of type [Qs] of [queue_ratchet]. *)
Record RatchetRow := { rr_queue_ratchet : QueueRatchet; rr_sequence_number : Z }.

Record ClientDb (App : Type) := {
  queue_ratchet : option RatchetRow;
  app : App
}.
Arguments queue_ratchet {App}.
Arguments app {App}.

(** The statements whose failure the receiving code can see. *)
Inductive ClientStatement :=
| AcquireRead
| AcquireWrite
| BeginImmediate
| InsertRatchet
| SelectRatchet
| UpdateRatchet
| BeginSavepoint
| ReleaseSavepoint
| CommitRatchet.

(** What the client sends to others: acknowledgements, and control of the outbound
    service. *)
Inductive ClientEffect :=
| SendAck (responder : nat) (up_to_sequence_number : Z)
| OutboundStop
| OutboundStart
| OutboundRunOnce.

(** The database as the open connection sees it, the notifier of that connection,
    the notifications that were sent, the position in the oracle, and the effects
    so far. *)
Record ClientWorld (App : Type) := {
  cl_db : ClientDb App;
  cl_notifier : DbNotification;
  cl_sent : list DbNotification;
  cl_clock : nat;
  cl_effects : list ClientEffect
}.
Arguments cl_db {App}.
Arguments cl_notifier {App}.
Arguments cl_sent {App}.
Arguments cl_clock {App}.
Arguments cl_effects {App}.

Section Client.
Context (sqlite : ClientStatement -> nat -> option SqlxError).
Context `{Hkdf} `{Aes256Gcm} `{!TlsCodec bytes} `{!TlsCodec QsQueueMessagePayload}.
Context {App : Type} `{!ClientTypes} `{!ClientCodecs} `{!QsHandlers App}.
(** The setting as [CoreUser::read_receipts_enabled] reads it. *)
Context (read_receipts_enabled : bool).
Implicit Types (w : ClientWorld App).

Definition with_db (d : ClientDb App) w : ClientWorld App :=
  {| cl_db := d; cl_notifier := cl_notifier w; cl_sent := cl_sent w; cl_clock := cl_clock w;
     cl_effects := cl_effects w |}.
Definition with_notifier (n : DbNotification) w : ClientWorld App :=
  {| cl_db := cl_db w; cl_notifier := n; cl_sent := cl_sent w; cl_clock := cl_clock w;
     cl_effects := cl_effects w |}.
Definition with_effect (e : ClientEffect) w : ClientWorld App :=
  {| cl_db := cl_db w; cl_notifier := cl_notifier w; cl_sent := cl_sent w; cl_clock := cl_clock w;
     cl_effects := cl_effects w ++ [e] |}.

(** A statement that is sent to SQLite. *)
Definition sql (s : ClientStatement) : M (ClientWorld App) SqlxError unit := fun w =>
  let w' := {| cl_db := cl_db w; cl_notifier := cl_notifier w; cl_sent := cl_sent w;
               cl_clock := S (cl_clock w); cl_effects := cl_effects w |} in
  match sqlite s (cl_clock w) with
  | None => (Ok tt, w')
  | Some e => (Err e, w')
  end.

(** [DbAccess::write]: a connection has a notifier of its own. *)
Definition db_write : M (ClientWorld App) SqlxError unit :=
  _ ← sql AcquireWrite; modify (with_notifier ∅).

(** [WriteDbConnection::notify], which is also what dropping the connection does:
    [DbNotifier::notify] sends what was collected unless it is empty. *)
Definition connection_notify w : ClientWorld App :=
  {| cl_db := cl_db w; cl_notifier := ∅;
     cl_sent := if decide (cl_notifier w = ∅) then cl_sent w else cl_sent w ++ [cl_notifier w];
     cl_clock := cl_clock w; cl_effects := cl_effects w |}.

(** [WriteDbTransaction::commit] of a transaction or savepoint that began at [d]:
    when it fails, the changes are rolled back and nothing is notified. *)
Definition txn_commit (s : ClientStatement) (d : ClientDb App) : M (ClientWorld App) SqlxError unit :=
  fun w =>
    match sql s w with
    | (Ok _, w') => (Ok tt, w')
    | (Err e, w') => (Err e, with_notifier ∅ (with_db d w'))
    end.

(** ** The stored ratchet ([queue_ratchets.rs]) *)

(** [u64::try_into] for [i64]. *)
Definition try_into_i64 (n : Z) : Result SqlxError Z :=
  if decide (n < 2 ^ 63) then Ok n else Err SqlxEncode.

(** [StorableQueueRatchet::store]. *)
Definition ratchet_store (r : QueueRatchet) : M (ClientWorld App) SqlxError unit :=
  n ← lift (try_into_i64 (sequence_number r));
  _ ← sql InsertRatchet;
  w ← get;
  match queue_ratchet (cl_db w) with
  | Some _ => throw SqlxDatabase
  | None => modify (with_db {| queue_ratchet := Some {| rr_queue_ratchet := r; rr_sequence_number := n |};
                               app := app (cl_db w) |})
  end.

(** [StorableQsQueueRatchet::initialize]. *)
Definition ratchet_initialize (ratchet_secret : bytes) : M (ClientWorld App) SqlxError unit :=
  r ← lift (map_err (fun _ => SqlxDecode) (ratchet_try_from ratchet_secret));
  ratchet_store r.

(** [StorableQsQueueRatchet::load]: [fetch_one]. *)
Definition ratchet_load : M (ClientWorld App) SqlxError QueueRatchet :=
  _ ← sql SelectRatchet;
  w ← get;
  lift (ok_or SqlxRowNotFound (rr_queue_ratchet <$> queue_ratchet (cl_db w))).

(** [StorableQueueRatchet::update]. *)
Definition ratchet_update (r : QueueRatchet) : M (ClientWorld App) SqlxError unit :=
  n ← lift (try_into_i64 (sequence_number r));
  _ ← sql UpdateRatchet;
  modify (fun w => with_db
    {| queue_ratchet := (fun _ => {| rr_queue_ratchet := r; rr_sequence_number := n |}) <$>
         queue_ratchet (cl_db w);
       app := app (cl_db w) |} w).

(** The loop [while message_seq_nr > sequence_number()]; each turn steps the
    ratchet by one, so the distance bounds the turns. *)
Fixpoint catch_up (fuel : nat) (message_seq_nr : Z) (r : QueueRatchet) : Result LibraryErr QueueRatchet :=
  if decide (message_seq_nr > sequence_number r) then
    match fuel with
    | O => Ok r
    | S fuel =>
        match ratchet_forward r with
        | (Ok _, r') => catch_up fuel message_seq_nr r'
        | (Err e, _) => Err e
        end
    end
  else Ok r.

(** [StorableQsQueueRatchet::decrypt_qs_queue_message]. *)
Definition decrypt_qs_queue_message (m : QueueMessage) :
    M (ClientWorld App) DecryptQsQueueMessageError (option QsQueueMessagePayload) :=
  r ← map_errM DecryptDb ratchet_load;
  let message_seq_nr := qm_sequence_number m in
  let ratchet_seq_nr := sequence_number r in
  if decide (message_seq_nr < ratchet_seq_nr) then mret None
  else
    let failed e := DecryptFailed e ratchet_seq_nr message_seq_nr in
    r ← lift (map_err (fun _ => failed DecRatchetForwardError)
          (catch_up (Z.to_nat (message_seq_nr - ratchet_seq_nr)) message_seq_nr r));
    let '(res, r) := ratchet_decrypt m r in
    payload ← lift (map_err failed res);
    _ ← map_errM DecryptDb (ratchet_update r);
    mret (Some payload).

(** ** Handling a message *)

(** [CoreUser::process_qs_message]. *)
Definition process_qs_message (m : ExtractedQsQueueMessage) :
    M (HandlerState App) AnyhowError ProcessQsMessageResult :=
  let ds_timestamp := ex_timestamp m in
  match ex_payload m with
  | ExtractedWelcomeBundle b => handle_welcome_bundle b ds_timestamp
  | ExtractedApqWelcomeBundle b => handle_apq_welcome_bundle b ds_timestamp
  | ExtractedMlsMessage x => handle_mls_message x ds_timestamp read_receipts_enabled
  | ExtractedApqMlsMessage x => handle_apq_mls_message x ds_timestamp read_receipts_enabled
  | ExtractedUserProfileKeyUpdate u => handle_user_profile_key_update u
  | ExtractedTargetedMessage (TargetedApplicationMessage bs) =>
      x ← lift (ok_or AnyhowTlsCodec (tls_deserialize_exact_bytes bs));
      handle_targeted_application_message x ds_timestamp
  | ExtractedDsCommitResponse r => handle_commit_response r
  end.

(** A handler runs on the other tables and on the notifier of the connection. *)
Definition run_handler {A} (h : M (HandlerState App) AnyhowError A) : M (ClientWorld App) AnyhowError A :=
  fun w =>
    let '(res, s) := h {| hs_app := app (cl_db w); hs_notifier := cl_notifier w; hs_clock := cl_clock w |} in
    (res, {| cl_db := {| queue_ratchet := queue_ratchet (cl_db w); app := hs_app s |};
             cl_notifier := hs_notifier s; cl_sent := cl_sent w; cl_clock := hs_clock s;
             cl_effects := cl_effects w |}).

(** [CoreUser::decrypt_and_process_qs_message]; a savepoint that is dropped is
    rolled back, and the notifier is left as it is. *)
Definition decrypt_and_process_qs_message (qs_message : QueueMessage) (result : ProcessedQsMessages) w :
    Result SqlxError unit * ProcessedQsMessages * ClientWorld App :=
  match decrypt_qs_queue_message qs_message w with
  | (Ok None, w) => (Ok tt, result, w)
  | (Err e, w) => (Ok tt, push_error (AnyhowDecrypt e) result, w)
  | (Ok (Some qs_message_payload), w) =>
      match extract qs_message_payload with
      | Err e => (Ok tt, push_error e result, w)
      | Ok qs_message_plaintext =>
          match sql BeginSavepoint w with
          | (Err e, w) => (Err e, result, w)
          | (Ok _, w1) =>
              match run_handler (process_qs_message qs_message_plaintext) w1 with
              | (Ok p, w2) =>
                  match txn_commit ReleaseSavepoint (cl_db w1) w2 with
                  | (Ok _, w3) => (Ok tt, record_result p result, w3)
                  | (Err e, w3) => (Err e, result, w3)
                  end
              | (Err e, w2) =>
                  let w2 := with_db (cl_db w1) w2 in
                  match e with
                  | BlockedContactError => (Ok tt, result, w2)
                  | AnyhowSqlx e =>
                      if as_database_error e then (Err e, result, w2)
                      else (Ok tt, push_error (AnyhowSqlx e) result, w2)
                  | e => (Ok tt, push_error e result, w2)
                  end
              end
          end
      end
  end.

(** One turn of the loop of [CoreUser::fully_process_qs_messages]: whether the
    loop goes on.  Every way out of a turn drops the connection. *)
Definition process_one (qs_message : QueueMessage) (result : ProcessedQsMessages) w :
    bool * ProcessedQsMessages * ClientWorld App :=
  match db_write w with
  | (Err _, w) => (false, result, w)
  | (Ok _, w) =>
      match sql BeginImmediate w with
      | (Err _, w) => (false, result, connection_notify w)
      | (Ok _, w1) =>
          match decrypt_and_process_qs_message qs_message result w1 with
          | (Err _, result, w2) => (false, result, connection_notify (with_db (cl_db w1) w2))
          | (Ok _, result, w2) =>
              let w3 := (txn_commit CommitRatchet (cl_db w1) w2).2 in
              (true, result, connection_notify w3)
          end
      end
  end.

(** The loop from index [idx] on. *)
Fixpoint process_from (idx : nat) (qs_messages : list QueueMessage) (result : ProcessedQsMessages) w :
    ProcessedQsMessages * ClientWorld App :=
  match qs_messages with
  | [] => (set_processed idx result, w)
  | qs_message :: rest =>
      match process_one qs_message result w with
      | (false, result, w) => (set_processed idx result, w)
      | (true, result, w) => process_from (S idx) rest result w
      end
  end.

(** [CoreUser::fully_process_qs_messages]. *)
Definition fully_process_qs_messages (qs_messages : list QueueMessage) w :
    ProcessedQsMessages * ClientWorld App :=
  process_from 0 qs_messages processed_default w.

(** ** The stream of events *)

(** [listen_response::Event]. *)
Inductive ListenEvent :=
| EventEmpty
| EventMessage (m : ProtoQueueMessage)
| EventPayload (p : QueueEventPayload).

(** [QsStreamProcessor]; a responder is named by its connection. *)
Record QsStreamProcessor := {
  sp_responder : option nat;
  sp_messages : list QueueMessage
}.

(** [QsStreamProcessor::new] and [replace_responder]. *)
Definition processor_new (responder : option nat) : QsStreamProcessor :=
  {| sp_responder := responder; sp_messages := [] |}.
Definition replace_responder (responder : nat) (p : QsStreamProcessor) : QsStreamProcessor :=
  {| sp_responder := Some responder; sp_messages := sp_messages p |}.

Inductive QsProcessEventResult :=
| Accumulated
| Ignored
| FullyProcessed (r : ProcessedQsMessages)
| PartiallyProcessed (r : ProcessedQsMessages) (dropped : nat).

(** [QsProcessEventResult::processed] and [is_partially_processed]. *)
Definition event_processed (r : QsProcessEventResult) : nat :=
  match r with
  | Accumulated | Ignored => 0
  | FullyProcessed r | PartiallyProcessed r _ => processed r
  end.
Definition is_partially_processed (r : QsProcessEventResult) : bool :=
  match r with PartiallyProcessed _ _ => true | _ => false end.

(** [QsListenResponder::ack]. *)
Definition responder_ack (responder : nat) (up_to_sequence_number : Z) w : ClientWorld App :=
  with_effect (SendAck responder up_to_sequence_number) w.

(** [messages.last().map(|m| m.sequence_number)]. *)
Definition max_sequence_number (messages : list QueueMessage) : option Z :=
  qm_sequence_number <$> last messages.

(** Acknowledges all messages before [n + 1]. *)
Definition ack_max (responder : nat) (n : option Z) w : ClientWorld App :=
  match n with
  | Some n => responder_ack responder (wrap_u64 (n + 1)) w
  | None => w
  end.

(** What [process_event] does after processing [num_messages] messages of which
    the last has the number [n]. *)
Definition finish_event (responder : option nat) (n : option Z) (num_messages : nat)
    (processed_messages : ProcessedQsMessages) w : QsProcessEventResult * ClientWorld App :=
  let '(result, w) :=
    if decide (processed processed_messages < num_messages)%nat then
      (PartiallyProcessed processed_messages (num_messages - processed processed_messages), w)
    else
      (FullyProcessed processed_messages,
       match responder with Some responder => ack_max responder n w | None => w end) in
  (result, with_effect OutboundStart w).

(** [QsStreamProcessor::process_event]. *)
Definition process_event (self : QsStreamProcessor) (event : option ListenEvent) w :
    QsProcessEventResult * QsStreamProcessor * ClientWorld App :=
  match event with
  | None | Some (EventPayload _) => (Ignored, self, w)
  | Some (EventMessage message) =>
      match from_proto message with
      | Some message =>
          (Accumulated,
           {| sp_responder := sp_responder self; sp_messages := sp_messages self ++ [message] |},
           with_effect OutboundStop w)
      | None => (Ignored, self, w)
      end
  | Some EventEmpty =>
      let messages := sp_messages self in
      let self := {| sp_responder := sp_responder self; sp_messages := [] |} in
      let '(processed_messages, w) := fully_process_qs_messages messages w in
      let '(result, w) := finish_event (sp_responder self) (max_sequence_number messages)
                            (length messages) processed_messages w in
      (result, self, w)
  end.

(** [QueueContext::handle_event]: whether the stream goes on. *)
Definition handle_event (self : QsStreamProcessor) (event : option ListenEvent) w :
    bool * QsStreamProcessor * ClientWorld App :=
  let '(result, self, w) := process_event self event w in
  (negb (is_partially_processed result), self, w).

(** [CoreUser::listen_queue]: where the stream is asked to start. *)
Definition listen_queue : M (ClientWorld App) SqlxError Z :=
  _ ← sql AcquireRead;
  queue_ratchet ← ratchet_load;
  mret (sequence_number queue_ratchet).

(** ** Draining the queue at once *)

(** The messages of a stream up to the first [Empty], or up to its end. *)
Fixpoint collect (events : list (option ListenEvent)) : list QueueMessage :=
  match events with
  | [] | Some EventEmpty :: _ => []
  | Some (EventMessage m) :: rest =>
      match from_proto m with Some m => m :: collect rest | None => collect rest end
  | Some (EventPayload _) :: rest | None :: rest => collect rest
  end.

(** The end of [CoreUser::drain_and_process_qs_queue]. *)
Definition finish_drain (responder : nat) (n : option Z) (num_messages : nat)
    (processed_messages : ProcessedQsMessages) w : ClientWorld App :=
  if decide (processed processed_messages = num_messages) then ack_max responder n w else w.

(** [CoreUser::drain_and_process_qs_queue] on the connection [responder] whose
    stream carries [events]. *)
Definition drain_and_process_qs_queue (responder : nat) (events : list (option ListenEvent)) w :
    ProcessedQsMessages * ClientWorld App :=
  let messages := collect events in
  let '(processed_messages, w) := fully_process_qs_messages messages w in
  (processed_messages,
   finish_drain responder (max_sequence_number messages) (length messages) processed_messages w).

(** The end of [User::fetch_and_process_qs_messages]. *)
Definition finish_background (responder : nat) (n : option Z) w : ClientWorld App :=
  with_effect OutboundRunOnce (ack_max responder n w).

(** [User::fetch_and_process_qs_messages], likewise. *)
Definition fetch_and_process_qs_messages (responder : nat) (events : list (option ListenEvent)) w :
    ProcessedQsMessages * ClientWorld App :=
  let messages := collect events in
  let '(processed_messages, w) := fully_process_qs_messages messages w in
  (processed_messages, finish_background responder (max_sequence_number messages) w).

End Client.
