(* ===== verification/ClientQueueCorrect.v ===== *)
(** * Correctness of the client's side of the queue

    Where a stored ratchet stands in the history of a queue, what decrypting a
    message of that history does to it, and what processing a batch does: every
    message that is consumed is handled once, in the order of the history. *)

From S2P Require Import Prelude Aead Ratchet Messages ClientBase Qs QsCorrect ClientQueue.

(** ** Positions in a history *)

Section Positions.
Context `{Hkdf} `{Aes256GcmLaws} `{!TlsCodec bytes} `{!TlsCodec QsQueueMessagePayload}
  `{!TlsCodecLaws QsQueueMessagePayload}.
Implicit Types (hist : History) (r : QueueRatchet).

(** The history [hist] is encrypted to [ms] from [r0] on. *)
Record encrypted (r0 : QueueRatchet) hist (ms : list QueueMessage) : Prop := {
  en_start : sequence_number r0 = 0;
  en_bound : Z.of_nat (length hist) < 2 ^ 63;
  en_all : exists r, encrypt_all hist r0 = (Ok ms, r)
}.

(** The ratchet after the first [k] messages. *)
Definition position (r0 : QueueRatchet) hist (ms : list QueueMessage) (k : nat) r : Prop :=
  (k <= length hist)%nat /\ encrypt_all (take k hist) r0 = (Ok (take k ms), r).

Lemma coherent_encrypted d c r0 hist lo ms : coherent d c r0 hist lo ms -> encrypted r0 hist ms.
Proof. intros [? ? _ (row & b & _ & He) _]. split; eauto. Qed.

Lemma encrypt_all_app hist hist' r ms r' :
  encrypt_all (hist ++ hist') r = (Ok ms, r') ->
  exists ms1 r1 ms2, ms = ms1 ++ ms2 /\ encrypt_all hist r = (Ok ms1, r1) /\
    encrypt_all hist' r1 = (Ok ms2, r').
Proof.
  revert r ms; induction hist as [|[p rnd] hist IH]; intros r ms He; cbn [app] in He.
  - exists [], r, ms. done.
  - apply encrypt_all_cons in He as (m & ms' & r1 & -> & Hm & (ms1 & r2 & ms2 & -> & Ha & Hb)%IH).
    exists (m :: ms1), r2, ms2. split_and!; [done| |done]. apply encrypt_all_cons. eauto 10.
Qed.

Lemma encrypted_length r0 hist ms : encrypted r0 hist ms -> length ms = length hist.
Proof. intros [_ _ [r He]]. by eapply encrypt_all_length. Qed.

Lemma encrypted_seq r0 hist ms i m :
  encrypted r0 hist ms -> ms !! i = Some m -> qm_sequence_number m = Z.of_nat i.
Proof.
  intros [Hs Hb [r He]] Hm.
  pose proof (encrypt_all_length _ _ _ _ He) as Hl. pose proof (lookup_lt_Some _ _ _ Hm).
  destruct (encrypt_all_seq hist r0 ms r ltac:(lia) ltac:(unfold U64; lia) He) as [Hmap _].
  apply (f_equal (fun l => l !! i)) in Hmap. rewrite !list_lookup_fmap, Hm in Hmap.
  rewrite lookup_seq_lt in Hmap by lia. cbn in Hmap. injection Hmap as ->. lia.
Qed.

Lemma position_seq r0 hist ms k r : encrypted r0 hist ms -> position r0 hist ms k r ->
  sequence_number r = Z.of_nat k.
Proof.
  intros [Hs Hb _] [Hk He].
  assert (length (take k hist) = k) as Hl by (rewrite length_take; lia).
  destruct (encrypt_all_seq (take k hist) r0 (take k ms) r ltac:(lia) ltac:(rewrite Hl; unfold U64; lia) He)
    as [_ ->].
  lia.
Qed.

Lemma position_fun r0 hist ms k r r' :
  position r0 hist ms k r -> position r0 hist ms k r' -> r' = r.
Proof. intros [_ He] [_ He']. congruence. Qed.

(** The message at the position is the one the ratchet encrypts next. *)
Lemma position_next r0 hist ms k r m : encrypted r0 hist ms -> position r0 hist ms k r ->
  ms !! k = Some m -> exists p rnd r', hist !! k = Some (p, rnd) /\
    ratchet_encrypt p rnd r = (Ok m, r') /\ position r0 hist ms (S k) r'.
Proof.
  intros [Hs Hb [rf Hf]] [Hk He] Hm. pose proof (encrypt_all_length _ _ _ _ Hf) as Hl.
  destruct (hist !! k) as [[p rnd]|] eqn:Eh.
  2:{ apply lookup_ge_None in Eh. apply lookup_lt_Some in Hm. lia. }
  pose proof (lookup_lt_Some _ _ _ Eh). rewrite <- (take_drop_middle _ _ _ Eh) in Hf.
  apply encrypt_all_app in Hf as (ms1 & r1 & ms2 & -> & Ha & (m' & ms' & r' & -> & Hm' & _)%encrypt_all_cons).
  rewrite He in Ha. injection Ha as Ha <-.
  assert (length ms1 = k) as Hk1.
  { rewrite <- Ha, length_take. rewrite Hl. lia. }
  rewrite lookup_app_r, Hk1, Nat.sub_diag in Hm by lia. injection Hm as ->.
  exists p, rnd, r'. split_and!; [done|done|split; [lia|]].
  rewrite (take_S_r _ _ _ Eh), (take_S_r _ _ m).
  2:{ rewrite lookup_app_r, Hk1, Nat.sub_diag by lia. done. }
  by eapply encrypt_all_snoc.
Qed.

(** The loop that steps the ratchet reaches the position of the message. *)
Lemma catch_up_position r0 hist ms k j r : encrypted r0 hist ms -> position r0 hist ms k r ->
  (k + j <= length hist)%nat ->
  exists r', catch_up j (Z.of_nat (k + j)) r = Ok r' /\ position r0 hist ms (k + j) r'.
Proof.
  intros Hen. revert k r; induction j as [|j IH]; intros k r Hpos Hj.
  - exists r. rewrite Nat.add_0_r. split; [|done]. cbn.
    rewrite (position_seq _ _ _ _ _ Hen Hpos). by destruct (decide (Z.of_nat k > Z.of_nat k)).
  - cbn [catch_up]. rewrite (position_seq _ _ _ _ _ Hen Hpos).
    destruct (decide (Z.of_nat (k + S j) > Z.of_nat k)); [|lia].
    pose proof (encrypted_length _ _ _ Hen) as Hl.
    destruct (lookup_lt_is_Some_2 ms k) as [m Hm]; [lia|].
    destruct (position_next _ _ _ _ _ _ Hen Hpos Hm) as (p & rnd & r1 & _ & He & Hpos1).
    apply ratchet_encrypt_Ok in He as (_ & _ & ->).
    replace (k + S j)%nat with (S k + j)%nat in * by lia. apply IH; [done|lia].
Qed.

(** Extending the history. *)
Lemma position_extend r0 hist ms k r hist' ms' : length ms = length hist ->
  position r0 hist ms k r -> position r0 (hist ++ hist') (ms ++ ms') k r.
Proof.
  intros Hl [Hk He]. split; [rewrite length_app; lia|]. rewrite !take_app_le by lia. done.
Qed.

End Positions.

(** ** Handling a payload *)

Section Handled.
Context {App : Type} `{!ClientTypes} `{!ClientCodecs} `{!QsHandlers App}.

(** A failure of a handler that drops the message. *)
Definition droppable (e : AnyhowError) : bool :=
  match e with AnyhowSqlx e => negb (as_database_error e) | _ => true end.

(** What one payload does to the other tables: its handler's changes when the
    handler succeeds; nothing when it cannot be extracted or its handler fails
    with an error that does not stop the processing. *)
Inductive handles (p : QsQueueMessagePayload) (a : App) : App -> Prop :=
| handles_success rr x s r s' : extract p = Ok x -> hs_app s = a ->
    process_qs_message rr x s = (Ok r, s') -> handles p a (hs_app s')
| handles_malformed e : extract p = Err e -> handles p a a
| handles_failure rr x s e s' : extract p = Ok x -> hs_app s = a ->
    process_qs_message rr x s = (Err e, s') -> droppable e = true -> handles p a a.

(** Payloads handled one after the other, each once. *)
Inductive absorbed (a : App) : list QsQueueMessagePayload -> App -> Prop :=
| absorbed_nil : absorbed a [] a
| absorbed_snoc ps p a1 a2 : absorbed a ps a1 -> handles p a1 a2 -> absorbed a (ps ++ [p]) a2.

End Handled.

(** ** Processing *)

Section Processing.
Context (sqlite : ClientStatement -> nat -> option SqlxError).
Context `{Hkdf} `{Aes256GcmLaws} `{!TlsCodec bytes} `{!TlsCodec QsQueueMessagePayload}
  `{!TlsCodecLaws QsQueueMessagePayload}.
Context {App : Type} `{!ClientTypes} `{!ClientCodecs} `{!QsHandlers App}.
Context (rr : bool).
Implicit Types (w : ClientWorld App) (d : ClientDb App).

Lemma sql_Ok s w w' : sql sqlite s w = (Ok tt, w') ->
  cl_db w' = cl_db w /\ cl_notifier w' = cl_notifier w /\ cl_sent w' = cl_sent w /\
  cl_effects w' = cl_effects w.
Proof. unfold sql. destruct (sqlite s (cl_clock w)); intros [=]. by subst. Qed.

Lemma sql_Err s e w w' : sql sqlite s w = (Err e, w') ->
  cl_db w' = cl_db w /\ cl_notifier w' = cl_notifier w /\ cl_sent w' = cl_sent w /\
  cl_effects w' = cl_effects w.
Proof. unfold sql. destruct (sqlite s (cl_clock w)); intros [=]. by subst. Qed.

(** The statements on the ratchet and the commit of its transaction succeed. *)
Record ratchet_reliable : Prop := {
  rel_select : forall n, sqlite SelectRatchet n = None;
  rel_update : forall n, sqlite UpdateRatchet n = None;
  rel_commit : forall n, sqlite CommitRatchet n = None
}.

Definition tick w : ClientWorld App :=
  {| cl_db := cl_db w; cl_notifier := cl_notifier w; cl_sent := cl_sent w;
     cl_clock := S (cl_clock w); cl_effects := cl_effects w |}.

Lemma sql_up s w : sqlite s (cl_clock w) = None -> sql sqlite s w = (Ok tt, tick w).
Proof. intros Hs. unfold sql. by rewrite Hs. Qed.

(** The stored ratchet stands at [k]. *)
Definition stands r0 hist ms (k : nat) d : Prop :=
  exists r, queue_ratchet d = Some {| rr_queue_ratchet := r; rr_sequence_number := Z.of_nat k |} /\
    position r0 hist ms k r.

Lemma ratchet_load_stands w row : sqlite SelectRatchet (cl_clock w) = None ->
  queue_ratchet (cl_db w) = Some row ->
  ratchet_load sqlite w = (Ok (rr_queue_ratchet row), tick w).
Proof.
  intros Hs Hr. unfold ratchet_load, mbind, M_bind. rewrite sql_up by done. cbn. by rewrite Hr.
Qed.

(** A message that was consumed is skipped. *)
Lemma decrypt_behind w r0 hist ms k i m : sqlite SelectRatchet (cl_clock w) = None ->
  encrypted r0 hist ms -> stands r0 hist ms k (cl_db w) -> ms !! i = Some m -> (i < k)%nat ->
  decrypt_qs_queue_message sqlite m w = (Ok None, tick w).
Proof.
  intros Hs Hen (r & Hrow & Hpos) Hm Hi.
  unfold decrypt_qs_queue_message, map_errM, mbind, M_bind.
  rewrite (ratchet_load_stands _ _ Hs Hrow). cbn [rr_queue_ratchet map_err].
  rewrite (encrypted_seq _ _ _ _ _ Hen Hm), (position_seq _ _ _ _ _ Hen Hpos).
  by destruct (decide (Z.of_nat i < Z.of_nat k)); [|lia].
Qed.

(** A message at or after the position is decrypted, and the ratchet moves past
    it. *)
Lemma decrypt_ahead w r0 hist ms k i m : ratchet_reliable ->
  encrypted r0 hist ms -> stands r0 hist ms k (cl_db w) -> ms !! i = Some m -> (k <= i)%nat ->
  exists p rnd w', decrypt_qs_queue_message sqlite m w = (Ok (Some p), w') /\
    hist !! i = Some (p, rnd) /\ stands r0 hist ms (S i) (cl_db w') /\
    app (cl_db w') = app (cl_db w) /\ cl_effects w' = cl_effects w.
Proof.
  intros [Hsel Hup _] Hen (r & Hrow & Hpos) Hm Hi.
  pose proof (encrypted_length _ _ _ Hen) as Hl. pose proof (lookup_lt_Some _ _ _ Hm).
  destruct (catch_up_position _ _ _ k (i - k) r Hen Hpos ltac:(lia)) as (r1 & Hc & Hpos1).
  replace (k + (i - k))%nat with i in * by lia.
  destruct (position_next _ _ _ _ _ _ Hen Hpos1 Hm) as (p & rnd & r2 & Hh & He & Hpos2).
  pose proof (en_bound _ _ _ Hen) as Hb.
  unfold decrypt_qs_queue_message, map_errM, mbind, M_bind.
  rewrite (ratchet_load_stands _ _ (Hsel _) Hrow). cbn [rr_queue_ratchet map_err].
  rewrite (encrypted_seq _ _ _ _ _ Hen Hm), (position_seq _ _ _ _ _ Hen Hpos).
  destruct (decide (Z.of_nat i < Z.of_nat k)); [lia|].
  replace (Z.to_nat (Z.of_nat i - Z.of_nat k)) with (i - k)%nat by lia. rewrite Hc.
  cbn [map_err lift]. rewrite (ratchet_decrypt_encrypt _ _ _ _ _ He). cbn [map_err lift].
  unfold ratchet_update, try_into_i64, mbind, M_bind.
  rewrite (position_seq _ _ _ _ _ Hen Hpos2).
  destruct (decide (Z.of_nat (S i) < 2 ^ 63)); [|lia]. cbn [lift]. rewrite sql_up by apply Hup.
  eexists p, rnd, _. split; [reflexivity|]. cbn. rewrite Hrow. cbn.
  split_and!; [done| |done|done]. exists r2. done.
Qed.

(** The stored ratchet stands at [k], and the first [k] payloads of the history,
    and no others, were handled, in order. *)
Definition consumed r0 hist ms (a0 : App) (k : nat) d : Prop :=
  stands r0 hist ms k d /\ absorbed a0 (map fst (take k hist)) (app d).

Lemma consumed_snoc r0 hist ms a0 k d d' p rnd : consumed r0 hist ms a0 k d ->
  hist !! k = Some (p, rnd) -> stands r0 hist ms (S k) d' -> handles p (app d) (app d') ->
  consumed r0 hist ms a0 (S k) d'.
Proof.
  intros [_ Ha] Hh Hst Hp. split; [done|]. rewrite (take_S_r _ _ _ Hh), map_app. cbn.
  by eapply absorbed_snoc.
Qed.

(** Handling the payload of a message whose ratchet update is already in the
    transaction. *)
Lemma decrypt_and_process_cases m result w p w1 :
  decrypt_qs_queue_message sqlite m w = (Ok (Some p), w1) ->
  let '(res, _, w2) := decrypt_and_process_qs_message sqlite rr m result w in
  cl_effects w2 = cl_effects w1 /\
  (res = Ok tt -> queue_ratchet (cl_db w2) = queue_ratchet (cl_db w1) /\
     handles p (app (cl_db w1)) (app (cl_db w2))).
Proof.
  intros Hd. unfold decrypt_and_process_qs_message. rewrite Hd.
  destruct (extract p) as [x|e] eqn:Ex; [|split; [done|]; split; [done|by eapply handles_malformed]].
  destruct (sql sqlite BeginSavepoint w1) as [[[]|e] w2] eqn:Es.
  2:{ apply sql_Err in Es as (? & _ & _ & ?). split; [done|discriminate]. }
  apply sql_Ok in Es as (Hdb & Hn & _ & Heff). unfold run_handler.
  destruct (process_qs_message rr x _) as [[r|e] s] eqn:Ep.
  - unfold txn_commit. destruct (sql sqlite ReleaseSavepoint _) as [[[]|e] w3] eqn:Ec.
    2:{ apply sql_Err in Ec as (_ & _ & _ & ?). split; [cbn in *; congruence|discriminate]. }
    apply sql_Ok in Ec as (Hdb3 & _ & _ & Heff3). cbn in Hdb3, Heff3. split; [congruence|]. intros _.
    rewrite Hdb3. cbn. rewrite Hdb. split; [done|]. eapply handles_success; [exact Ex| |exact Ep].
    cbn. by rewrite Hdb.
  - assert (droppable e = true -> handles p (app (cl_db w1)) (app (cl_db w1))) as Hdrop.
    { intros Hd'. eapply handles_failure; [exact Ex| |exact Ep|exact Hd']. cbn. by rewrite Hdb. }
    destruct e as [|e| | |]; cbn -[as_database_error].
    2:{ destruct (as_database_error e) eqn:Ee; cbn; (split; [congruence|]); [discriminate|].
        intros _. rewrite Hdb. split; [done|]. apply Hdrop. cbn. by rewrite Ee. }
    all: split; [congruence|]; intros _; rewrite Hdb; split; [done|by apply Hdrop].
Qed.

(** One turn of the loop on a message that is at or behind the position: the
    position moves past it, or the loop stops and nothing has changed. *)
Lemma process_one_spec r0 hist ms a0 k i m result w : ratchet_reliable ->
  encrypted r0 hist ms -> consumed r0 hist ms a0 k (cl_db w) -> ms !! i = Some m -> (i <= k)%nat ->
  let '(go, _, w') := process_one sqlite rr m result w in
  cl_effects w' = cl_effects w /\
  if go then consumed r0 hist ms a0 (Nat.max k (S i)) (cl_db w') else cl_db w' = cl_db w.
Proof.
  intros Hrel Hen Hco Hm Hi. unfold process_one, db_write, mbind, M_bind, modify.
  destruct (sql sqlite AcquireWrite w) as [[[]|e] w0] eqn:Ea; cbn beta iota.
  2:{ apply sql_Err in Ea as (? & _ & _ & ?). done. }
  apply sql_Ok in Ea as (Hdb0 & _ & _ & He0).
  destruct (sql sqlite BeginImmediate _) as [[[]|e] w1] eqn:Eb.
  2:{ apply sql_Err in Eb as (? & _ & _ & ?). cbn in *. split; congruence. }
  apply sql_Ok in Eb as (Hdb1 & _ & _ & He1). cbn in Hdb1, He1.
  assert (cl_db w1 = cl_db w) as Hdb by congruence. rewrite <- Hdb in Hco.
  destruct (decide (i = k)) as [->|Hne].
  - destruct Hco as [Hst Ha].
    destruct (decrypt_ahead w1 _ _ _ _ _ _ Hrel Hen Hst Hm ltac:(lia))
      as (p & rnd & w2 & Hd & Hh & Hst2 & Happ & Heff).
    pose proof (decrypt_and_process_cases _ result _ _ _ Hd) as Hc.
    destruct (decrypt_and_process_qs_message sqlite rr m result w1) as [[[[]|e] res'] w3].
    2:{ destruct Hc as [Heff3 _]. cbn. split; congruence. }
    destruct Hc as [Heff3 Hc]. destruct (Hc eq_refl) as [Hrow Hp].
    unfold txn_commit. rewrite sql_up by apply Hrel. cbn. split; [congruence|].
    replace (Nat.max k (S k)) with (S k) by lia.
    eapply consumed_snoc; [split; [exact Hst|exact Ha]|exact Hh| |by rewrite <- Happ].
    destruct Hst2 as (r & Hr & Hpos). exists r. by rewrite Hrow.
  - pose proof Hco as [Hst _]. unfold decrypt_and_process_qs_message.
    rewrite (decrypt_behind w1 _ _ _ _ _ _ (rel_select Hrel _) Hen Hst Hm ltac:(lia)).
    unfold txn_commit. rewrite sql_up by apply Hrel. cbn. split; [congruence|].
    by replace (Nat.max k (S i)) with k by lia.
Qed.

(** ** At most once *)

(** Decryption, whichever statements fail: the ratchet moves past a message that is at
    or after its position, or nothing changes. *)
Lemma decrypt_inv w r0 hist ms k i m r w' : encrypted r0 hist ms -> stands r0 hist ms k (cl_db w) ->
  ms !! i = Some m -> decrypt_qs_queue_message sqlite m w = (r, w') ->
  cl_effects w' = cl_effects w /\
  match r with
  | Ok (Some p) => (k <= i)%nat /\ exists rnd, hist !! i = Some (p, rnd) /\
      stands r0 hist ms (S i) (cl_db w') /\ app (cl_db w') = app (cl_db w)
  | _ => cl_db w' = cl_db w
  end.
Proof.
  intros Hen (r1 & Hrow & Hpos) Hm Hd. unfold decrypt_qs_queue_message in Hd.
  unfold ratchet_load, map_errM, mbind, M_bind in Hd.
  destruct (sql sqlite SelectRatchet w) as [[[]|e] w2] eqn:E2.
  2:{ apply sql_Err in E2 as (Hdb & _ & _ & He). by injection Hd as <- <-. }
  apply sql_Ok in E2 as (Hdb & _ & _ & He). cbn in Hd. rewrite Hdb, Hrow in Hd. cbn in Hd.
  rewrite (encrypted_seq _ _ _ _ _ Hen Hm), (position_seq _ _ _ _ _ Hen Hpos) in Hd.
  destruct (decide (Z.of_nat i < Z.of_nat k)); [injection Hd as <- <-; split; congruence|].
  pose proof (lookup_lt_Some _ _ _ Hm). pose proof (encrypted_length _ _ _ Hen) as Hl.
  destruct (catch_up_position _ _ _ k (i - k) r1 Hen Hpos ltac:(lia)) as (r2 & Hc & Hpos1).
  replace (k + (i - k))%nat with i in * by lia.
  replace (Z.to_nat (Z.of_nat i - Z.of_nat k)) with (i - k)%nat in Hd by lia. rewrite Hc in Hd.
  destruct (position_next _ _ _ _ _ _ Hen Hpos1 Hm) as (p & rnd & r3 & Hh & Henc & Hpos2).
  cbn [map_err lift] in Hd. rewrite (ratchet_decrypt_encrypt _ _ _ _ _ Henc) in Hd.
  cbn [map_err lift] in Hd. unfold ratchet_update, try_into_i64, mbind, M_bind in Hd.
  rewrite (position_seq _ _ _ _ _ Hen Hpos2) in Hd. pose proof (en_bound _ _ _ Hen).
  destruct (decide (Z.of_nat (S i) < 2 ^ 63)); [|lia]. cbn [lift] in Hd.
  destruct (sql sqlite UpdateRatchet w2) as [[[]|e] w5] eqn:E5.
  - apply sql_Ok in E5 as (Hdb5 & _ & _ & He5). injection Hd as <- <-. cbn. rewrite Hdb5, Hdb, Hrow. cbn.
    split; [congruence|]. split; [lia|]. exists rnd. split_and!; [done| |done]. by exists r3.
  - apply sql_Err in E5 as (Hdb5 & _ & _ & He5). injection Hd as <- <-. cbn. split; congruence.
Qed.

(** One turn of the loop, whichever statements fail and wherever the message is: its
    payload is handled and the position moves past it, or nothing changes. *)
Lemma process_one_once r0 hist ms k i m result w : encrypted r0 hist ms ->
  stands r0 hist ms k (cl_db w) -> ms !! i = Some m ->
  let '(go, _, w') := process_one sqlite rr m result w in
  cl_effects w' = cl_effects w /\
  (cl_db w' = cl_db w \/ go = true /\ (k <= i)%nat /\ exists p rnd, hist !! i = Some (p, rnd) /\
     stands r0 hist ms (S i) (cl_db w') /\ handles p (app (cl_db w)) (app (cl_db w'))).
Proof.
  intros Hen Hst Hm. unfold process_one, db_write, mbind, M_bind, modify.
  destruct (sql sqlite AcquireWrite w) as [[[]|e] w0] eqn:Ea; cbn beta iota.
  2:{ apply sql_Err in Ea as (? & _ & _ & ?). eauto. }
  apply sql_Ok in Ea as (Hdb0 & _ & _ & He0).
  destruct (sql sqlite BeginImmediate _) as [[[]|e] w1] eqn:Eb.
  2:{ apply sql_Err in Eb as (? & _ & _ & ?). cbn in *. split; [congruence|left; congruence]. }
  apply sql_Ok in Eb as (Hdb1 & _ & _ & He1). cbn in Hdb1, He1.
  assert (cl_db w1 = cl_db w) as Hdb by congruence. rewrite <- Hdb in Hst |- *.
  assert (Hcommit : forall w2, cl_effects w2 = cl_effects w ->
    cl_effects (txn_commit sqlite CommitRatchet (cl_db w1) w2).2 = cl_effects w /\
    (cl_db (txn_commit sqlite CommitRatchet (cl_db w1) w2).2 = cl_db w1 \/
     cl_db (txn_commit sqlite CommitRatchet (cl_db w1) w2).2 = cl_db w2)).
  { intros w2 He2. unfold txn_commit. destruct (sql sqlite CommitRatchet w2) as [[[]|e] w3] eqn:Ec.
    - apply sql_Ok in Ec as (E & _ & _ & E'). cbn. rewrite E, E'. eauto.
    - apply sql_Err in Ec as (_ & _ & _ & E). cbn. rewrite E. eauto. }
  destruct (decrypt_qs_queue_message sqlite m w1) as [q w2] eqn:Ed.
  destruct (decrypt_inv _ _ _ _ _ _ _ _ _ Hen Hst Hm Ed) as [Heff Hd].
  destruct q as [[p|]|e].
  - pose proof (decrypt_and_process_cases _ result _ _ _ Ed) as Hc.
    destruct (decrypt_and_process_qs_message sqlite rr m result w1) as [[[[]|e] res'] w3].
    2:{ destruct Hc as [Heff3 _]. cbn. split; [congruence|by left]. }
    destruct Hc as [Heff3 Hc]. destruct (Hc eq_refl) as [Hrow Hp].
    destruct (Hcommit w3 ltac:(congruence)) as [He' Hdb']. cbn. split; [done|].
    destruct Hdb' as [->| ->]; [by left|right]. destruct Hd as (Hki & rnd & Hh & (r & Hr & Hpos) & Happ).
    split_and!; [done|done|]. exists p, rnd. split_and!; [done| |by rewrite <- Happ].
    exists r. by rewrite Hrow.
  - unfold decrypt_and_process_qs_message. rewrite Ed. cbn.
    destruct (Hcommit w2 ltac:(congruence)) as [? [->| ->]]; split; try done; left; congruence.
  - unfold decrypt_and_process_qs_message. rewrite Ed. cbn.
    destruct (Hcommit w2 ltac:(congruence)) as [? [->| ->]]; split; try done; left; congruence.
Qed.

(** ** Failures *)

(** The statements around the ratchet's succeed, and no handler fails with a
    database error: nothing stops the processing of a batch. *)
Record undisturbed : Prop := {
  und_acquire : forall n, sqlite AcquireWrite n = None;
  und_begin : forall n, sqlite BeginImmediate n = None;
  und_savepoint : forall n, sqlite BeginSavepoint n = None;
  und_release : forall n, sqlite ReleaseSavepoint n = None;
  und_handlers : forall x (s : HandlerState App) e s',
    process_qs_message rr x s = (Err e, s') -> droppable e = true
}.

Lemma decrypt_and_process_up m result w : undisturbed ->
  (decrypt_and_process_qs_message sqlite rr m result w).1.1 = Ok tt.
Proof.
  intros [_ _ Hs Hr Hh]. unfold decrypt_and_process_qs_message.
  destruct (decrypt_qs_queue_message sqlite m w) as [[[p|]|e] w1]; [|done|done].
  destruct (extract p) as [x|e]; [|done]. rewrite sql_up by apply Hs. unfold run_handler.
  destruct (process_qs_message rr x _) as [[r|e] st] eqn:Ep.
  - unfold txn_commit. by rewrite sql_up by apply Hr.
  - apply Hh in Ep. destruct e as [|e| | |]; try done. cbn in *. by destruct (as_database_error e).
Qed.

Lemma process_one_up m result w : undisturbed -> (process_one sqlite rr m result w).1.1 = true.
Proof.
  intros Hu. unfold process_one, db_write, mbind, M_bind, modify.
  rewrite sql_up by apply Hu. cbn beta iota. rewrite sql_up by apply Hu.
  set (w1 := tick _). pose proof (decrypt_and_process_up m result w1 Hu) as Hok.
  destruct (decrypt_and_process_qs_message sqlite rr m result w1) as [[res r] w2].
  cbn in Hok. by subst res.
Qed.

(** A handler that fails is rolled back, but what it has notified stays in the
    notifier of the connection, which sends it when the turn ends. *)
Lemma rolled_back_notified m result w w1 p x e s : undisturbed ->
  decrypt_qs_queue_message sqlite m w = (Ok (Some p), w1) -> extract p = Ok x ->
  process_qs_message rr x {| hs_app := app (cl_db w1); hs_notifier := cl_notifier w1;
                             hs_clock := S (cl_clock w1) |} = (Err e, s) ->
  let '(res, _, w2) := decrypt_and_process_qs_message sqlite rr m result w in
  res = Ok tt /\ cl_db w2 = cl_db w1 /\ cl_notifier w2 = hs_notifier s.
Proof.
  intros Hu Hd Hx Hp. pose proof (und_handlers Hu _ _ _ _ Hp) as Hdr.
  unfold decrypt_and_process_qs_message. rewrite Hd, Hx, sql_up by apply Hu.
  unfold run_handler. cbn [tick cl_db cl_notifier cl_clock]. rewrite Hp.
  destruct e as [|e| | |]; [done| |done..]. cbn in Hdr |- *. by destruct (as_database_error e).
Qed.

(** Nothing is stored unless a message is decrypted and the ratchet's update
    succeeds. *)
Lemma decrypt_unchanged m w res w' : decrypt_qs_queue_message sqlite m w = (res, w') ->
  cl_effects w' = cl_effects w /\ ((forall p, res <> Ok (Some p)) -> cl_db w' = cl_db w).
Proof.
  unfold decrypt_qs_queue_message, ratchet_load, ratchet_update, map_errM, mbind, M_bind.
  intros Hd. destruct (sql sqlite SelectRatchet w) as [[[]|e] w1] eqn:Es.
  2:{ apply sql_Err in Es as (Hdb & _ & _ & He). injection Hd as _ <-. done. }
  apply sql_Ok in Es as (Hdb & _ & _ & He). rewrite <- Hdb, <- He. cbn in Hd.
  destruct (queue_ratchet (cl_db w1)) as [row|]; cbn in Hd; [|by injection Hd as _ <-].
  destruct (decide _); [by injection Hd as _ <-|].
  destruct (catch_up _ _ _) as [r1|e]; cbn in Hd; [|by injection Hd as _ <-].
  destruct (ratchet_decrypt m r1) as [[p|e] r2]; cbn in Hd; [|by injection Hd as _ <-].
  destruct (try_into_i64 _) as [i|e]; cbn in Hd; [|by injection Hd as _ <-].
  destruct (sql sqlite UpdateRatchet w1) as [[[]|e] w2] eqn:Eu; cbn in Hd.
  - apply sql_Ok in Eu as (_ & _ & _ & He2). injection Hd as <- <-. split; [done|].
    intros Hno. by destruct (Hno p).
  - apply sql_Err in Eu as (Hdb2 & _ & _ & He2). by injection Hd as _ <-.
Qed.

Lemma decrypt_fails m w st p : st = SelectRatchet \/ st = UpdateRatchet ->
  (forall t, sqlite st t <> None) -> (decrypt_qs_queue_message sqlite m w).1 <> Ok (Some p).
Proof.
  intros Hst Hf. unfold decrypt_qs_queue_message, ratchet_load, ratchet_update, map_errM, mbind, M_bind.
  destruct (sql sqlite SelectRatchet w) as [[[]|e] w1] eqn:Es; [|done]. cbn.
  destruct (queue_ratchet (cl_db w1)) as [row|]; cbn; [|done].
  destruct (decide _); [done|]. destruct (catch_up _ _ _) as [r1|e]; cbn; [|done].
  destruct (ratchet_decrypt m r1) as [[q|e] r2]; cbn; [|done].
  destruct (try_into_i64 _) as [i|e]; cbn; [|done]. unfold sql in *. destruct Hst as [-> | ->].
  - destruct (sqlite SelectRatchet (cl_clock w)) eqn:E; [discriminate|]. by destruct (Hf _ E).
  - destruct (sqlite UpdateRatchet (cl_clock w1)) eqn:E; [done|]. by destruct (Hf _ E).
Qed.

(** A message whose ratchet cannot be read, written or committed counts as
    processed although nothing is stored. *)
Lemma process_one_lost m result w st : undisturbed ->
  st = SelectRatchet \/ st = UpdateRatchet \/ st = CommitRatchet -> (forall t, sqlite st t <> None) ->
  exists r w', process_one sqlite rr m result w = (true, r, w') /\ cl_db w' = cl_db w /\
    cl_effects w' = cl_effects w.
Proof.
  intros Hu Hst Hf. pose proof (process_one_up m result w Hu) as Hgo. revert Hgo.
  unfold process_one, db_write, mbind, M_bind, modify. rewrite sql_up by apply Hu. cbn beta iota.
  rewrite sql_up by apply Hu. set (w1 := tick _).
  assert (cl_db w1 = cl_db w /\ cl_effects w1 = cl_effects w) as [<- <-] by done. clearbody w1.
  assert (let '(_, _, w2) := decrypt_and_process_qs_message sqlite rr m result w1 in
    cl_effects w2 = cl_effects w1 /\ (st = CommitRatchet \/ cl_db w2 = cl_db w1)) as Hc.
  { destruct (decrypt_qs_queue_message sqlite m w1) as [res w3] eqn:Em.
    destruct (decrypt_unchanged _ _ _ _ Em) as [He Hdb].
    destruct res as [[p|]|e].
    - pose proof (decrypt_and_process_cases _ result _ _ _ Em) as Hc.
      destruct (decrypt_and_process_qs_message sqlite rr m result w1) as [[res' r] w2].
      destruct Hc as [He' _]. split; [congruence|left].
      destruct Hst as [Hst|[Hst|Hst]]; [| |done];
        (destruct (decrypt_fails m w1 st p); [tauto|done|by rewrite Em]).
    - unfold decrypt_and_process_qs_message. rewrite Em. split; [done|right]. by apply Hdb.
    - unfold decrypt_and_process_qs_message. rewrite Em. split; [done|right]. by apply Hdb. }
  destruct (decrypt_and_process_qs_message sqlite rr m result w1) as [[[[]|e] r] w2]; [|done].
  intros _. destruct Hc as [He Hc]. eexists _, _. split; [reflexivity|]. unfold txn_commit, sql.
  destruct (sqlite CommitRatchet (cl_clock w2)) as [e|] eqn:Ec; cbn; [done|].
  destruct Hc as [-> |Hc]; [by destruct (Hf _ Ec)|done].
Qed.

(** ** Batches *)

(** Where a batch of the messages with the numbers [ns] leads from [k], when every
    number is at most what the ones before it lead to. *)
Fixpoint frontier (k : nat) (ns : list nat) : nat :=
  match ns with [] => k | i :: ns => frontier (Nat.max k (S i)) ns end.
Fixpoint gapless (k : nat) (ns : list nat) : Prop :=
  match ns with [] => True | i :: ns => (i <= k)%nat /\ gapless (Nat.max k (S i)) ns end.

Lemma frontier_ge k ns : (k <= frontier k ns)%nat.
Proof. revert k; induction ns as [|i ns IH]; intros k; cbn; [done|]. specialize (IH (Nat.max k (S i))). lia. Qed.

Lemma frontier_mono k k' ns : (k <= k')%nat -> (frontier k ns <= frontier k' ns)%nat.
Proof. revert k k'; induction ns as [|i ns IH]; intros k k' Hk; cbn; [done|]. apply IH. lia. Qed.

Lemma frontier_app k ns ns' : frontier k (ns ++ ns') = frontier (frontier k ns) ns'.
Proof. revert k; induction ns as [|i ns IH]; intros k; cbn; [done|]. apply IH. Qed.

Lemma frontier_elem k ns i : i ∈ ns -> (S i <= frontier k ns)%nat.
Proof.
  revert k; induction ns as [|j ns IH]; intros k; [by intros ?%elem_of_nil|].
  intros [->|Hi]%elem_of_cons; cbn; [|by apply IH].
  pose proof (frontier_ge (Nat.max k (S j)) ns). lia.
Qed.

Lemma gapless_mono k k' ns : (k <= k')%nat -> gapless k ns -> gapless k' ns.
Proof.
  revert k k'; induction ns as [|i ns IH]; intros k k' Hk; cbn; [done|].
  intros [Hi Hg]. split; [lia|]. eapply IH; [|exact Hg]. lia.
Qed.

Lemma gapless_app k ns ns' : gapless k (ns ++ ns') <-> gapless k ns /\ gapless (frontier k ns) ns'.
Proof.
  revert k; induction ns as [|i ns IH]; intros k; cbn; [tauto|]. rewrite IH. tauto.
Qed.

Lemma gapless_seq k n : gapless k (seq k n).
Proof.
  revert k; induction n as [|n IH]; intros k; cbn; [done|]. split; [done|].
  by replace (Nat.max k (S k)) with (S k) by lia.
Qed.

(** The messages with the numbers [ns]. *)
Definition numbered (ms : list QueueMessage) (l : list QueueMessage) (ns : list nat) : Prop :=
  Forall2 (fun m i => ms !! i = Some m) l ns.

(** Processing a batch without gaps ends at its frontier unless it stops early;
    every message on the way is handled once. *)
Lemma process_from_spec r0 hist ms a0 l ns : ratchet_reliable -> encrypted r0 hist ms ->
  numbered ms l ns -> forall k idx result w, gapless k ns -> consumed r0 hist ms a0 k (cl_db w) ->
  let '(result', w') := process_from sqlite rr idx l result w in
  exists k', (k <= k' <= frontier k ns)%nat /\ consumed r0 hist ms a0 k' (cl_db w') /\
    cl_effects w' = cl_effects w /\ (processed result' <= idx + length l)%nat /\
    (processed result' = idx + length l -> k' = frontier k ns)%nat.
Proof.
  intros Hrel Hen. induction 1 as [|m i l ns Hm Hl IH]; intros k idx result w Hg Hco.
  - cbn. exists k. split_and!; [lia|lia|done|done|lia|done].
  - cbn [gapless] in Hg. destruct Hg as [Hi Hg]. cbn [process_from frontier length].
    pose proof (process_one_spec _ _ _ _ _ _ _ result w Hrel Hen Hco Hm Hi) as Hone.
    destruct (process_one sqlite rr m result w) as [[[] res1] w1]; destruct Hone as [Heff Hone].
    + specialize (IH _ (S idx) res1 w1 Hg Hone).
      destruct (process_from sqlite rr (S idx) l res1 w1) as [res' w'].
      destruct IH as (k' & Hk' & Hco' & Heff' & Hle & Hfull). exists k'.
      split_and!; [lia|lia|done|congruence|lia|]. intros E. apply Hfull. lia.
    + exists k. rewrite Hone. pose proof (frontier_ge (Nat.max k (S i)) ns).
      split_and!; [lia|lia|done|done|cbn; lia|]. cbn. lia.
Qed.

(** When nothing stops it, a batch is processed to its end. *)
Lemma process_from_up l idx result w : undisturbed ->
  processed (process_from sqlite rr idx l result w).1 = (idx + length l)%nat.
Proof.
  intros Hu. revert idx result w. induction l as [|m l IH]; intros idx result w; cbn; [lia|].
  pose proof (process_one_up m result w Hu) as Hgo.
  destruct (process_one sqlite rr m result w) as [[[] r] w1]; [|done]. rewrite IH. lia.
Qed.

Lemma process_from_lost l st : undisturbed ->
  st = SelectRatchet \/ st = UpdateRatchet \/ st = CommitRatchet -> (forall t, sqlite st t <> None) ->
  forall idx result w, let '(r, w') := process_from sqlite rr idx l result w in
    processed r = (idx + length l)%nat /\ cl_db w' = cl_db w /\ cl_effects w' = cl_effects w.
Proof.
  intros Hu Hst Hf. induction l as [|m l IH]; intros idx result w; cbn; [split; [lia|done]|].
  destruct (process_one_lost m result w st Hu Hst Hf) as (r & w1 & -> & Hdb & He).
  specialize (IH (S idx) r w1). destruct (process_from sqlite rr (S idx) l r w1) as [r' w'].
  destruct IH as (Hp & Hdb' & He'). split_and!; [lia|congruence|congruence].
Qed.

(** Consecutive messages are consumed up to where the processing stops. *)
Lemma process_from_consecutive r0 hist ms a0 l n : ratchet_reliable -> encrypted r0 hist ms ->
  forall k idx result w, numbered ms l (seq k n) -> consumed r0 hist ms a0 k (cl_db w) ->
  let '(result', w') := process_from sqlite rr idx l result w in
  exists i, processed result' = (idx + i)%nat /\ consumed r0 hist ms a0 (k + i) (cl_db w').
Proof.
  intros Hrel Hen. revert l. induction n as [|n IH]; intros l k idx result w Hn Hco; cbn [seq] in Hn.
  - inversion Hn; subst. exists 0%nat. by rewrite !Nat.add_0_r.
  - inversion Hn as [|m ? l' ? Hm Hn']; subst. cbn [process_from].
    pose proof (process_one_spec _ _ _ _ _ _ _ result w Hrel Hen Hco Hm ltac:(done)) as Hone.
    destruct (process_one sqlite rr m result w) as [[[] res1] w1]; destruct Hone as [_ Hone].
    + replace (Nat.max k (S k)) with (S k) in Hone by lia.
      specialize (IH l' (S k) (S idx) res1 w1 Hn' Hone).
      destruct (process_from sqlite rr (S idx) l' res1 w1) as [res' w'].
      destruct IH as (i & Hp & Hc). exists (S i). split; [lia|]. by replace (k + S i)%nat with (S k + i)%nat by lia.
    + exists 0%nat. rewrite !Nat.add_0_r. split; [done|]. by rewrite Hone.
Qed.

End Processing.

(** ** Properties *)

(** What decrypting a message of the history does, by how its number compares to
    where the stored ratchet stands: a message that was consumed is skipped and
    nothing changes; any other message is decrypted to the payload that was
    enqueued under its number, whether or not messages were skipped before it, and
    the ratchet then stands after it, so that neither it nor a skipped message is
    ever decrypted again. *)
Theorem decrypt_exact (sqlite : ClientStatement -> nat -> option SqlxError)
    `{Hkdf} `{Aes256GcmLaws} `{!TlsCodec bytes} `{!TlsCodec QsQueueMessagePayload}
    `{!TlsCodecLaws QsQueueMessagePayload} {App : Type} (w : ClientWorld App) r0 hist ms k i m :
  ratchet_reliable sqlite -> encrypted r0 hist ms -> stands r0 hist ms k (cl_db w) ->
  ms !! i = Some m ->
  let '(res, w') := decrypt_qs_queue_message sqlite m w in
  if (i <? k)%nat then res = Ok None /\ cl_db w' = cl_db w
  else exists p rnd, hist !! i = Some (p, rnd) /\ res = Ok (Some p) /\
    stands r0 hist ms (S i) (cl_db w') /\ app (cl_db w') = app (cl_db w) /\
    forall j m', (j <= i)%nat -> ms !! j = Some m' ->
      (decrypt_qs_queue_message sqlite m' w').1 = Ok None.
Proof.
  intros Hrel Hen Hst Hm. destruct (Nat.ltb_spec i k) as [Hi|Hi].
  - by rewrite (decrypt_behind _ _ _ _ _ _ _ _ (rel_select _ Hrel _) Hen Hst Hm Hi).
  - destruct (decrypt_ahead _ _ _ _ _ _ _ _ Hrel Hen Hst Hm Hi) as (p & rnd & w' & -> & Hh & Hst' & Ha & _).
    exists p, rnd. split_and!; try done. intros j m' Hj Hm'.
    by rewrite (decrypt_behind _ _ _ _ _ _ _ _ (rel_select _ Hrel _) Hen Hst' Hm' ltac:(lia)).
Qed.

(** When the row of the ratchet cannot be read or written, or its transaction
    cannot be committed, the batch nevertheless counts as fully processed and is
    acknowledged, although the client's database is as it was before. *)
Theorem ratchet_failure_acked (sqlite : ClientStatement -> nat -> option SqlxError)
    `{Hkdf} `{Aes256GcmLaws} `{!TlsCodec bytes} `{!TlsCodec QsQueueMessagePayload}
    `{!TlsCodecLaws QsQueueMessagePayload} {App : Type} `{!ClientTypes} `{!ClientCodecs}
    `{!QsHandlers App} (rr : bool) (p : QsStreamProcessor) (w : ClientWorld App) st responder m :
  undisturbed sqlite rr -> st = SelectRatchet \/ st = UpdateRatchet \/ st = CommitRatchet ->
  (forall t, sqlite st t <> None) -> sp_responder p = Some responder -> last (sp_messages p) = Some m ->
  let '(result, _, w') := process_event sqlite rr p (Some EventEmpty) w in
  (exists r, result = FullyProcessed r) /\ cl_db w' = cl_db w /\
  SendAck responder (wrap_u64 (qm_sequence_number m + 1)) ∈ cl_effects w'.
Proof.
  intros Hu Hst Hf Hr Hm. cbn. unfold fully_process_qs_messages, max_sequence_number, finish_event.
  pose proof (process_from_lost sqlite rr (sp_messages p) st Hu Hst Hf 0 processed_default w) as Hl.
  destruct (process_from _ _ _ _ _ _) as [r w']. destruct Hl as (Hp & Hdb & _).
  rewrite Hp, decide_False, Hr, Hm by lia. cbn. split_and!; [by exists r|done|].
  rewrite !elem_of_app. left. right. by left.
Qed.
