(* ===== verification/ClientDelivery.v ===== *)
(** * Delivery from the queue service to a client

    The queue of one client on the server, the connections over which it listens,
    and the client that processes what arrives, as one system.  The client may
    have several sessions at once (the app in the foreground, background handlers,
    a device being linked) that share its database; they are interleaved between
    the transactions of single messages, connections break, acknowledgements are
    delayed, repeated or lost, and a process may die at any time.  A step is labelled
    with the source of the batch that it stops early, if it does. *)

From S2P Require Import Prelude Aead Ratchet Messages ClientBase Qs QsCorrect ClientQueue ClientQueueCorrect.

(** ** Sessions *)

(** Which of the three receiving functions runs. *)
Inductive Source := FromStream | FromDrain | FromBackground.

(** A batch in the middle of [fully_process_qs_messages]: what is left of it, the
    index reached, the result so far, and the number of its last message. *)
Record Batch `{ClientTypes} := {
  ba_source : Source;
  ba_todo : list QueueMessage;
  ba_idx : nat;
  ba_result : ProcessedQsMessages;
  ba_max : option Z;
  ba_num : nat
}.

(** A connection: the server's end while it lives, the events on their way, the
    client's processor, its responder, and the batch being processed. *)
Record Session `{ClientTypes} := {
  se_stream : option QueueStreamContext;
  se_wire : list (option ListenEvent);
  se_processor : QsStreamProcessor;
  se_responder : nat;
  se_batch : option Batch
}.

(** A process that has just started. *)
Definition session_new `{ClientTypes} : Session :=
  {| se_stream := None; se_wire := []; se_processor := processor_new None; se_responder := 0;
     se_batch := None |}.

Record System (App : Type) `{ClientTypes} := {
  sy_server : QsWorld;
  sy_client : ClientWorld App;
  sy_sessions : gmap nat Session
}.
Arguments sy_server {App _}.
Arguments sy_client {App _}.
Arguments sy_sessions {App _}.

(** Opening a connection: the event loop keeps its processor, with the new
    responder. *)
Definition session_listen `{ClientTypes} (c : Uuid) (start : Z) (responder : nat) (s : Session) : Session :=
  {| se_stream := Some (stream_init c start); se_wire := [];
     se_processor := replace_responder responder (se_processor s); se_responder := responder;
     se_batch := None |}.

(** A turn of the server's end. *)
Definition session_turn `{ClientTypes} (ctx : QueueStreamContext) (d : QsDb) (cancel up wake : bool)
    (s : Session) : Session :=
  let next ctx events :=
    {| se_stream := ctx; se_wire := se_wire s ++ events; se_processor := se_processor s;
       se_responder := se_responder s; se_batch := se_batch s |} in
  match stream_turn ctx d cancel up wake with
  | Yield (Some m) ctx => next (Some ctx) [Some (EventMessage m)]
  | Yield None ctx => next (Some ctx) [Some EventEmpty]
  | Again ctx => next (Some ctx) []
  | Stop => next None []
  end.

(** A payload event that the server puts on the connection. *)
Definition session_payload `{ClientTypes} (p : QueueEventPayload) (s : Session) : Session :=
  {| se_stream := se_stream s; se_wire := se_wire s ++ [Some (EventPayload p)];
     se_processor := se_processor s; se_responder := se_responder s; se_batch := se_batch s |}.

(** The connection breaks; the first [n] events still arrive. *)
Definition session_break `{ClientTypes} (n : nat) (s : Session) : Session :=
  {| se_stream := None; se_wire := take n (se_wire s); se_processor := se_processor s;
     se_responder := se_responder s; se_batch := se_batch s |}.

(** The client has taken an event. *)
Definition session_event `{ClientTypes} (rest : list (option ListenEvent)) (p : QsStreamProcessor)
    (s : Session) : Session :=
  {| se_stream := se_stream s; se_wire := rest; se_processor := p;
     se_responder := se_responder s; se_batch := se_batch s |}.

(** The beginning of [fully_process_qs_messages]. *)
Definition batch_of `{ClientTypes} (source : Source) (messages : list QueueMessage) : Batch :=
  {| ba_source := source; ba_todo := messages; ba_idx := 0; ba_result := processed_default;
     ba_max := max_sequence_number messages; ba_num := length messages |}.

(** [process_event] takes the accumulated messages. *)
Definition session_start `{ClientTypes} (rest : list (option ListenEvent)) (s : Session) : Session :=
  {| se_stream := se_stream s; se_wire := rest;
     se_processor := {| sp_responder := sp_responder (se_processor s); sp_messages := [] |};
     se_responder := se_responder s;
     se_batch := Some (batch_of FromStream (sp_messages (se_processor s))) |}.

(** The other two collect the messages of their stream. *)
Definition session_collect `{ClientTypes} (source : Source) (s : Session) : Session :=
  {| se_stream := None; se_wire := []; se_processor := processor_new None;
     se_responder := se_responder s; se_batch := Some (batch_of source (collect (se_wire s))) |}.

Definition session_batch `{ClientTypes} (b : option Batch) (s : Session) : Session :=
  {| se_stream := se_stream s; se_wire := se_wire s; se_processor := se_processor s;
     se_responder := se_responder s; se_batch := b |}.

(** A batch after one more message. *)
Definition batch_next `{ClientTypes} (rest : list QueueMessage) (r : ProcessedQsMessages) (b : Batch) : Batch :=
  {| ba_source := ba_source b; ba_todo := rest; ba_idx := S (ba_idx b); ba_result := r;
     ba_max := ba_max b; ba_num := ba_num b |}.

(** The code after [fully_process_qs_messages] returned [r]: the session goes on
    (with its stream unless the batch was only partially processed) or is over. *)
Definition session_finish {App} `{ClientTypes} (b : Batch) (r : ProcessedQsMessages)
    (s : Session) (w : ClientWorld App) : option Session * ClientWorld App :=
  match ba_source b with
  | FromStream =>
      let '(result, w) :=
        finish_event (sp_responder (se_processor s)) (ba_max b) (ba_num b) r w in
      (Some (if is_partially_processed result then session_break 0 (session_batch None s)
             else session_batch None s), w)
  | FromDrain => (None, finish_drain (se_responder s) (ba_max b) (ba_num b) r w)
  | FromBackground => (None, finish_background (se_responder s) (ba_max b) w)
  end.

(** ** Steps *)

Section System.
Context (db_ok : nat -> bool) (nonce_of : nat -> Result RandomnessErr bytes).
Context (sqlite : ClientStatement -> nat -> option SqlxError).
Context `{Hkdf} `{Aes256Gcm} `{!TlsCodec bytes} `{!TlsCodec QsQueueMessagePayload}.
Context {App : Type} `{!ClientTypes} `{!ClientCodecs} `{!QsHandlers App}.
Context (c : Uuid).

Definition with_server (x : QsWorld) (s : System App) : System App :=
  {| sy_server := x; sy_client := sy_client s; sy_sessions := sy_sessions s |}.
Definition with_session (j : nat) (x : Session) (s : System App) : System App :=
  {| sy_server := sy_server s; sy_client := sy_client s; sy_sessions := <[j := x]> (sy_sessions s) |}.
Definition with_client (w : ClientWorld App) (s : System App) : System App :=
  {| sy_server := sy_server s; sy_client := w; sy_sessions := sy_sessions s |}.

(** A session has finished its batch, and is perhaps over. *)
Definition with_finished (j : nat) (o : option Session) (w : ClientWorld App) (s : System App) : System App :=
  {| sy_server := sy_server s; sy_client := w;
     sy_sessions := partial_alter (fun _ => o) j (sy_sessions s) |}.

(** The read pool may lag behind: it shows an earlier ratchet. *)
Definition lagging (d d' : ClientDb App) : Prop :=
  match queue_ratchet d, queue_ratchet d' with
  | Some row, Some row' =>
      0 <= sequence_number (rr_queue_ratchet row) <= sequence_number (rr_queue_ratchet row')
  | _, _ => False
  end.

Inductive system_step (s : System App) : option Source -> System App -> Prop :=
(** The server: an enqueue for any client, an acknowledgement that the client has
    sent, anything that leaves the queue alone. *)
| step_enqueue id p res x :
    do_enqueue db_ok nonce_of id p (sy_server s) = (res, x) ->
    (forall row b, live_row (qdb (sy_server s)) id row b ->
       sequence_number (row_ratchet b) < 2 ^ 63 - 1) ->
    system_step s None (with_server x s)
| step_ack responder n res x :
    SendAck responder n ∈ cl_effects (sy_client s) ->
    ack db_ok c n (sy_server s) = (res, x) ->
    system_step s None (with_server x s)
| step_other x :
    keeps_queue c (qdb (sy_server s)) (qdb x) ->
    system_step s None (with_server x s)
(** Connections. *)
| step_listen j d start w responder :
    se_batch (default session_new (sy_sessions s !! j)) = None ->
    lagging d (cl_db (sy_client s)) ->
    listen_queue sqlite (with_db d (sy_client s)) = (Ok start, w) ->
    system_step s None (with_client (with_db (cl_db (sy_client s)) w)
      (with_session j (session_listen c start responder (default session_new (sy_sessions s !! j))) s))
| step_turn j se ctx cancel up wake :
    sy_sessions s !! j = Some se -> se_stream se = Some ctx ->
    system_step s None (with_session j (session_turn ctx (qdb (sy_server s)) cancel up wake se) s)
| step_payload j se p :
    sy_sessions s !! j = Some se ->
    system_step s None (with_session j (session_payload p se) s)
| step_break j se n :
    sy_sessions s !! j = Some se ->
    system_step s None (with_session j (session_break n se) s)
(** The client takes an event other than [Empty]. *)
| step_event j se rr e rest result p w :
    sy_sessions s !! j = Some se -> se_batch se = None ->
    se_wire se = e :: rest -> e <> Some EventEmpty ->
    process_event sqlite rr (se_processor se) e (sy_client s) = (result, p, w) ->
    system_step s None (with_client w (with_session j (session_event rest p se) s))
(** The client begins to process a batch. *)
| step_start j se rest :
    sy_sessions s !! j = Some se -> se_batch se = None -> se_wire se = Some EventEmpty :: rest ->
    system_step s None (with_session j (session_start rest se) s)
| step_collect j se source :
    sy_sessions s !! j = Some se -> se_batch se = None -> source <> FromStream ->
    sp_messages (se_processor se) = [] ->
    Some EventEmpty ∈ se_wire se \/ se_stream se = None ->
    system_step s None (with_session j (session_collect source se) s)
(** One message of a batch, in its transaction. *)
| step_message j se b rr m rest r w :
    sy_sessions s !! j = Some se -> se_batch se = Some b -> ba_todo b = m :: rest ->
    process_one sqlite rr m (ba_result b) (sy_client s) = (true, r, w) ->
    system_step s None (with_client w (with_session j (session_batch (Some (batch_next rest r b)) se) s))
(** The end of a batch, after its last message or at a message that stops it. *)
| step_done j se b :
    sy_sessions s !! j = Some se -> se_batch se = Some b -> ba_todo b = [] ->
    system_step s None
      (let '(se', w) := session_finish b (set_processed (ba_idx b) (ba_result b)) se (sy_client s) in
       with_finished j se' w s)
| step_stopped j se b rr m rest r w :
    sy_sessions s !! j = Some se -> se_batch se = Some b -> ba_todo b = m :: rest ->
    process_one sqlite rr m (ba_result b) (sy_client s) = (false, r, w) ->
    system_step s (Some (ba_source b))
      (let '(se', w) := session_finish b (set_processed (ba_idx b) r) se w in
       with_finished j se' w s)
(** A process dies; a transaction that it had open is rolled back. *)
| step_crash j :
    system_step s None {| sy_server := sy_server s; sy_client := sy_client s;
                     sy_sessions := delete j (sy_sessions s) |}.

(** Any step; and a step that is not the early stop of a batch that the background
    handler processes, after which that handler acknowledges the whole batch. *)
Definition any_step (s s' : System App) : Prop := exists l, system_step s l s'.
Definition careful_step (s s' : System App) : Prop :=
  exists l, system_step s l s' /\ l <> Some FromBackground.

End System.
