(* ===== verification/ClientDeliveryCorrect.v ===== *)
(** * Delivery, at most once and exactly once

    Invariants of the system of [ClientDelivery] and their preservation.  Whatever happens,
    the client handles no payload of the history of its queue twice or out of order.  When
    the ratchet can be stored and no background batch stops early, it has handled the first
    payloads, each once, and the server still holds all the others. *)

From Stdlib Require Import Sorted.
From S2P Require Import Prelude Aead Ratchet Messages ClientBase Qs QsCorrect ClientQueue ClientQueueCorrect ClientDelivery.

(** ** What a session still has to process *)

(** The messages among the events of a connection. *)
Definition wire_message (e : option ListenEvent) : option ProtoQueueMessage :=
  match e with Some (EventMessage m) => Some m | _ => None end.

Section Pending.
Context `{!ClientTypes}.
Implicit Types (se : Session) (ms : list QueueMessage).

Definition buffered (ctx : option QueueStreamContext) : list ProtoQueueMessage :=
  match ctx with Some ctx => sc_buffer ctx | None => [] end.

(** Accumulated by the processor, on the wire, and in the buffer of the server's
    end. *)
Definition pending se : list ProtoQueueMessage :=
  map to_proto (sp_messages (se_processor se)) ++ omap wire_message (se_wire se) ++
  buffered (se_stream se).

(** All nonces have the length that a client accepts. *)
Definition sealed ms : Prop := Forall (fun m => length (nonce (qm_ciphertext m)) = 12%nat) ms.

Lemma from_to_proto m : length (nonce (qm_ciphertext m)) = 12%nat -> from_proto (to_proto m) = Some m.
Proof. intros Hn. unfold from_proto. cbn. rewrite decide_True by done. by destruct m. Qed.

#[export] Instance to_proto_inj : Inj (=) (=) to_proto.
Proof. intros [] [] [= -> ->]. done. Qed.

Lemma sealed_from_proto ms l ns m : sealed ms -> numbered ms l ns -> m ∈ l ->
  from_proto (to_proto m) = Some m.
Proof.
  intros Hs Hn [i Hi]%list_elem_of_lookup. apply from_to_proto.
  destruct (Forall2_lookup_l _ _ _ _ _ Hn Hi) as (j & _ & Hm).
  by eapply (Forall_lookup_1 _ _ _ _ Hs).
Qed.

(** A list of protobuf messages that are messages of the history and can be
    processed from [k] on without a gap; it leads to [f]. *)
Definition follows_on ms (k : nat) (l : list ProtoQueueMessage) (f : nat) : Prop :=
  exists q ns, l = map to_proto q /\ numbered ms q ns /\ gapless k ns /\ f = frontier k ns.

Lemma follows_on_nil ms k : follows_on ms k [] k.
Proof. exists [], []. split_and!; [done|constructor|done|done]. Qed.

Lemma follows_on_app ms k l l' f : follows_on ms k (l ++ l') f <->
  exists g, follows_on ms k l g /\ follows_on ms g l' f.
Proof.
  split.
  - intros (q & ns & Hl & Hn & Hg & ->). symmetry in Hl.
    apply map_eq_app in Hl as (q1 & q2 & -> & <- & <-).
    apply Forall2_app_inv_l in Hn as (n1 & n2 & Hn1 & Hn2 & ->).
    apply gapless_app in Hg as [Hg1 Hg2]. rewrite frontier_app.
    exists (frontier k n1). split; [exists q1, n1|exists q2, n2]; done.
  - intros (g & (q1 & n1 & -> & Hn1 & Hg1 & ->) & (q2 & n2 & -> & Hn2 & Hg2 & ->)).
    exists (q1 ++ q2), (n1 ++ n2). rewrite map_app, frontier_app, gapless_app.
    split_and!; try done. by apply Forall2_app.
Qed.

Lemma follows_on_mono ms k k' l f : (k <= k')%nat -> follows_on ms k l f ->
  exists f', (f <= f')%nat /\ follows_on ms k' l f'.
Proof.
  intros Hk (q & ns & -> & Hn & Hg & ->). exists (frontier k' ns). split; [by apply frontier_mono|].
  exists q, ns. split_and!; try done. by eapply gapless_mono.
Qed.

Lemma follows_on_ge ms k l f : follows_on ms k l f -> (k <= f)%nat.
Proof. intros (q & ns & _ & _ & _ & ->). apply frontier_ge. Qed.

Lemma numbered_extend ms ms' q ns : numbered ms q ns -> numbered (ms ++ ms') q ns.
Proof. intros Hn. eapply Forall2_impl; [exact Hn|]. intros m i Hm. by apply lookup_app_l_Some. Qed.

Lemma follows_on_extend ms ms' k l f : follows_on ms k l f -> follows_on (ms ++ ms') k l f.
Proof. intros (q & ns & -> & Hn & Hr). exists q, ns. split; [done|]. by split; [apply numbered_extend|]. Qed.

(** Consecutive messages. *)
Lemma follows_on_page ms k s n : (s <= k)%nat -> (s + n <= length ms)%nat ->
  follows_on ms k (map to_proto (take n (drop s ms))) (Nat.max k (s + n)).
Proof.
  intros Hs Hn. exists (take n (drop s ms)), (seq s n). split_and!; [done| | |].
  - apply Forall2_same_length_lookup. rewrite length_take, length_drop, length_seq. split; [lia|].
    intros i m j Hm [Hj ?]%lookup_seq. subst j. apply lookup_take_Some in Hm as [Hm _].
    by rewrite lookup_drop in Hm.
  - eapply gapless_mono; [exact Hs|]. apply gapless_seq.
  - clear Hn. revert k s Hs. induction n as [|n IH]; intros k s Hs; cbn; [lia|].
    rewrite <- IH; lia.
Qed.

(** ** Sessions that are in order *)

(** What is left of a batch leads from [k] to [f], and so does its last message. *)
Record batch_ok ms (k : nat) (b : Batch) (f : nat) : Prop := {
  bo_todo : follows_on ms k (map to_proto (ba_todo b)) f;
  bo_max : forall n, ba_max b = Some n -> 0 <= n /\ n + 1 <= Z.of_nat f;
  bo_num : (ba_idx b + length (ba_todo b))%nat = ba_num b
}.

(** The batch of a session, if there is one, leads from [k] to [g]. *)
Definition base_ok ms (k : nat) se (g : nat) : Prop :=
  match se_batch se with
  | None => g = k
  | Some b => batch_ok ms k b g /\ sp_messages (se_processor se) = []
  end.

(** The server's end continues at or before [f]. *)
Definition stream_ok (c : Uuid) (ctx : option QueueStreamContext) (f : nat) : Prop :=
  match ctx with
  | None => True
  | Some ctx => sc_client_id ctx = c /\ 0 <= sc_sequence_number ctx <= Z.of_nat f
  end.

Definition session_ok (c : Uuid) ms (k : nat) se : Prop :=
  exists g f, base_ok ms k se g /\ follows_on ms g (pending se) f /\ stream_ok c (se_stream se) f.

Lemma stream_ok_mono c ctx f f' : (f <= f')%nat -> stream_ok c ctx f -> stream_ok c ctx f'.
Proof. destruct ctx; cbn; [|done]. intros ? [? ?]. split; [done|lia]. Qed.

Lemma batch_ok_mono ms k k' b g : (k <= k')%nat -> batch_ok ms k b g ->
  exists g', (g <= g')%nat /\ batch_ok ms k' b g'.
Proof.
  intros Hk [Ht Hm Hn]. destruct (follows_on_mono _ _ _ _ _ Hk Ht) as (g' & Hg & Ht').
  exists g'. split; [done|]. split; [done| |done]. intros n [? ?]%Hm. split; lia.
Qed.

(** A session stays in order while the client advances. *)
Lemma session_ok_mono c ms k k' se : (k <= k')%nat -> session_ok c ms k se -> session_ok c ms k' se.
Proof.
  intros Hk (g & f & Hb & Hp & Hs). unfold session_ok, base_ok in *.
  assert (exists g', (g <= g')%nat /\ match se_batch se with None => g' = k'
    | Some b => batch_ok ms k' b g' /\ sp_messages (se_processor se) = [] end) as (g' & Hg & Hb').
  { destruct (se_batch se) as [b|]; [|exists k'; split; [lia|done]].
    destruct Hb as [Hb Hm]. destruct (batch_ok_mono _ _ _ _ _ Hk Hb) as (g' & ? & ?). eauto. }
  destruct (follows_on_mono _ _ _ _ _ Hg Hp) as (f' & Hf & Hp'). exists g', f'.
  split_and!; [done|done|]. by eapply stream_ok_mono.
Qed.

Lemma session_ok_extend c ms ms' k se : session_ok c ms k se -> session_ok c (ms ++ ms') k se.
Proof.
  intros (g & f & Hb & Hp & Hs). exists g, f. split_and!; [|by apply follows_on_extend|done].
  unfold base_ok in *. destruct (se_batch se) as [b|]; [|done]. destruct Hb as [[Ht Hm Hn] Hsp].
  split; [|done]. split; [by apply follows_on_extend|done|done].
Qed.

Lemma session_new_ok c ms k : session_ok c ms k session_new.
Proof. exists k, k. split_and!; [done|apply follows_on_nil|done]. Qed.

(** A session with the same pending messages and the same stream position. *)
Lemma session_ok_same c ms k se se' : session_ok c ms k se ->
  se_batch se' = se_batch se ->
  (sp_messages (se_processor se) = [] -> sp_messages (se_processor se') = [] \/ se_batch se = None) ->
  pending se' = pending se ->
  (forall f, stream_ok c (se_stream se) f -> stream_ok c (se_stream se') f) ->
  session_ok c ms k se'.
Proof.
  intros (g & f & Hb & Hp & Hs) Eb Em Ep Es. exists g, f. rewrite Ep. split_and!; [|done|by apply Es].
  unfold base_ok in *. rewrite Eb. destruct (se_batch se) as [b|]; [|done].
  destruct Hb as [Hb Hm]. split; [done|]. by destruct (Em Hm).
Qed.

(** A session that keeps a prefix of what is pending and has lost its stream. *)
Lemma session_ok_prefix c ms k se se' l : session_ok c ms k se ->
  se_batch se' = se_batch se -> sp_messages (se_processor se') = sp_messages (se_processor se) ->
  pending se = pending se' ++ l -> se_stream se' = None -> session_ok c ms k se'.
Proof.
  intros (g & f & Hb & Hp & _) Eb Em Ep Es. rewrite Ep in Hp.
  apply follows_on_app in Hp as (f' & Hp & _). exists g, f'. rewrite Es. split_and!; [|done|done].
  unfold base_ok in *. by rewrite Eb, Em.
Qed.

(** ** Steps of a session *)

Lemma session_listen_ok c ms k se n responder : session_ok c ms k se -> se_batch se = None ->
  (n <= k)%nat -> session_ok c ms k (session_listen c (Z.of_nat n) responder se).
Proof.
  intros (g & f & Hb & Hp & _) Eb Hn. unfold base_ok in Hb. rewrite Eb in Hb. subst g.
  apply follows_on_app in Hp as (f' & Hp & _). exists k, f'. split_and!; [done| |].
  - unfold pending. cbn. by rewrite app_nil_r.
  - cbn. apply follows_on_ge in Hp. split; [done|lia].
Qed.

(** Positions stay within the history. *)
Lemma follows_on_le ms k l f : follows_on ms k l f -> (k <= length ms)%nat -> (f <= length ms)%nat.
Proof.
  intros (q & ns & _ & Hn & _ & ->). revert k. induction Hn as [|m i q ns Hm Hn IH]; intros k Hk; [done|].
  cbn. apply IH. apply lookup_lt_Some in Hm. lia.
Qed.

Lemma base_ok_le ms k se g : base_ok ms k se g -> (k <= length ms)%nat -> (k <= g <= length ms)%nat.
Proof.
  unfold base_ok. destruct (se_batch se) as [b|]; [|intros ->; lia]. intros [[Ht _ _] _] Hk.
  pose proof (follows_on_le _ _ _ _ Ht Hk). apply follows_on_ge in Ht. lia.
Qed.

(** The events that are taken one by one. *)
Lemma session_payload_ok c ms k se p : session_ok c ms k se -> session_ok c ms k (session_payload p se).
Proof.
  intros Hok. eapply session_ok_same; [exact Hok|done|by left| |done].
  unfold pending. cbn. by rewrite omap_app, app_nil_r.
Qed.

Lemma session_break_ok c ms k se n : session_ok c ms k se -> session_ok c ms k (session_break n se).
Proof.
  intros Hok. eapply (session_ok_prefix _ _ _ _ _ (omap wire_message (drop n (se_wire se)) ++
    buffered (se_stream se))); [exact Hok|done|done| |done].
  unfold pending. cbn. rewrite app_nil_r, <- !app_assoc. f_equal.
  by rewrite app_assoc, <- omap_app, take_drop.
Qed.

Lemma pending_start rest se : se_wire se = Some EventEmpty :: rest ->
  pending se = map to_proto (sp_messages (se_processor se)) ++ pending (session_start rest se).
Proof. intros E. unfold pending. by rewrite E. Qed.

End Pending.

Section Steps.
Context `{Hkdf} `{Aes256GcmLaws} `{!TlsCodec bytes} `{!TlsCodec QsQueueMessagePayload}
  `{!TlsCodecLaws QsQueueMessagePayload} `{!ClientTypes}.
Implicit Types (se : Session) (ms : list QueueMessage).

(** A fetch continues what is pending. *)
Lemma fetch_follows_on c r0 hist lo ms d ctx ctx' up f : coherent d c r0 hist lo ms ->
  stream_ok c (Some ctx) f -> (lo <= f <= length ms)%nat -> sc_buffer ctx = [] ->
  fetch_next_messages ctx up d = Some ctx' ->
  exists f', follows_on ms f (sc_buffer ctx') f' /\ stream_ok c (Some ctx') f'.
Proof.
  intros Hco [Hid Hseq] Hf Hbuf Hfetch. unfold fetch_next_messages in Hfetch.
  destruct up; [|discriminate]. injection Hfetch as <-. rewrite Hid, Hbuf. cbn [sc_buffer]; rewrite app_nil_l.
  pose proof (coherent_encrypted _ _ _ _ _ _ Hco) as Hen.
  pose proof (en_bound _ _ _ Hen). pose proof (encrypted_length _ _ _ Hen).
  rewrite (fetch_into_coherent _ _ _ _ _ _ _ _ Hco) by lia.
  set (s := Nat.max lo (Z.to_nat (sc_sequence_number ctx))).
  set (n := Nat.min MAX_BUFFER_SIZE (length ms - s)).
  assert (take MAX_BUFFER_SIZE (drop s ms) = take n (drop s ms)) as ->.
  { unfold n. destruct (Nat.min_spec MAX_BUFFER_SIZE (length ms - s)) as [[_ ->]|[? ->]]; [done|].
    rewrite !take_ge; [done| |]; rewrite length_drop; lia. }
  exists (Nat.max f (s + n)). split; [apply follows_on_page; lia|]. split; [done|].
  cbn [sc_sequence_number]. rewrite last_lookup, length_map.
  change (map to_proto (take n (drop s ms))) with (to_proto <$> take n (drop s ms)). rewrite list_lookup_fmap.
  rewrite length_take, length_drop, Nat.min_l by lia.
  destruct (decide (n = 0)%nat) as [->|Hn]; [rewrite take_0; cbn; lia|].
  rewrite lookup_take_lt, lookup_drop by lia.
  destruct (ms !! (s + pred n)%nat) as [m|] eqn:Em; [|apply lookup_ge_None in Em; lia].
  pose proof (lookup_lt_Some _ _ _ Em). clearbody n s. cbn.
  rewrite (encrypted_seq _ _ _ _ _ Hen Em), wrap_u64_small by (unfold U64; lia). lia.
Qed.


Lemma max_sequence_number_ok r0 hist ms k q f n : encrypted r0 hist ms ->
  follows_on ms k (map to_proto q) f -> max_sequence_number q = Some n ->
  0 <= n /\ n + 1 <= Z.of_nat f.
Proof.
  intros Hen (q' & ns & Hq & Hn & _ & ->) Hmax. apply (inj _) in Hq as <-.
  unfold max_sequence_number in Hmax. rewrite last_lookup in Hmax.
  destruct (q !! _) as [m|] eqn:El; [|discriminate]. injection Hmax as <-.
  destruct (Forall2_lookup_l _ _ _ _ _ Hn El) as (i & Hi & Hm).
  rewrite (encrypted_seq _ _ _ _ _ Hen Hm). apply list_elem_of_lookup_2, (frontier_elem k) in Hi. lia.
Qed.

(** A turn of the server's end. *)
Lemma session_turn_ok c r0 hist lo ms d k se ctx cancel up wake : coherent d c r0 hist lo ms ->
  (lo <= k <= length ms)%nat -> session_ok c ms k se -> se_stream se = Some ctx ->
  session_ok c ms k (session_turn ctx d cancel up wake se).
Proof.
  intros Hco Hk Hok Ectx. unfold session_turn, stream_turn.
  destruct (sc_buffer ctx) as [|m rest] eqn:Eb.
  2:{ eapply session_ok_same; [exact Hok|done|by left| |by rewrite Ectx].
      unfold pending. cbn. rewrite Ectx, omap_app, <- app_assoc. cbn. by rewrite Eb. }
  assert (forall ctx' ev, omap wire_message ev = [] -> stream_ok c (Some ctx') = stream_ok c (Some ctx) ->
    sc_buffer ctx' = [] ->
    session_ok c ms k {| se_stream := Some ctx'; se_wire := se_wire se ++ ev;
      se_processor := se_processor se; se_responder := se_responder se; se_batch := se_batch se |})
    as Hsame.
  { intros ctx' ev Hev Hst Hbuf. eapply session_ok_same; [exact Hok|done|by left| |].
    - unfold pending. cbn. rewrite Ectx, omap_app, Hev, app_nil_r, Hbuf. cbn. by rewrite Eb.
    - intros f. cbn [se_stream]. by rewrite Ectx, Hst. }
  assert (session_ok c ms k {| se_stream := None; se_wire := se_wire se ++ [];
      se_processor := se_processor se; se_responder := se_responder se; se_batch := se_batch se |})
    as Hstop.
  { eapply (session_ok_prefix _ _ _ _ _ []); [exact Hok|done|done| |done].
    unfold pending. cbn. rewrite Ectx. cbn. by rewrite Eb, !app_nil_r. }
  destruct (cancel && _); [exact Hstop|].
  destruct (sc_state ctx); [by apply Hsame| |destruct wake; [by apply Hsame|exact Hstop]].
  destruct (fetch_next_messages ctx up d) as [ctx'|] eqn:Ef; [|exact Hstop].
  destruct Hok as (g & f & Hb & Hp & Hs). rewrite Ectx in Hs.
  destruct (base_ok_le _ _ _ _ Hb ltac:(lia)) as [? Hgl].
  pose proof (follows_on_ge _ _ _ _ Hp). pose proof (follows_on_le _ _ _ _ Hp Hgl).
  destruct (fetch_follows_on _ _ _ _ _ _ _ _ _ _ Hco Hs ltac:(lia) Eb Ef) as (f' & Hpage & Hs').
  assert (follows_on ms g (map to_proto (sp_messages (se_processor se)) ++
    omap wire_message (se_wire se) ++ sc_buffer ctx') f') as Hp'.
  { rewrite app_assoc. apply follows_on_app. exists f. split; [|done].
    unfold pending in Hp. rewrite Ectx in Hp. cbn in Hp. by rewrite Eb, app_nil_r in Hp. }
  destruct (sc_buffer ctx') as [|m rest] eqn:Eb'; exists g, f'; (split; [exact Hb|split]);
    try exact Hs'; unfold pending; cbn; rewrite omap_app, ?app_nil_r; cbn; rewrite ?app_nil_r, ?Eb', ?app_nil_r in *; done.
Qed.

(** Messages of the history convert. *)
Lemma follows_on_cons ms k m l f : sealed ms -> follows_on ms k (m :: l) f ->
  exists m', m = to_proto m' /\ from_proto m = Some m'.
Proof.
  intros Hs (q & ns & Hq & Hn & _). destruct q as [|m' q]; [discriminate|].
  injection Hq as -> ->. exists m'. split; [done|].
  eapply sealed_from_proto; [exact Hs|exact Hn|]. by left.
Qed.

Lemma follows_on_tail ms k m l f : follows_on ms k (m :: l) f -> exists g, follows_on ms g l f.
Proof. intros Hf. apply (follows_on_app _ _ [m] l) in Hf as (g & _ & Hf). by exists g. Qed.

Lemma collect_prefix ms k events l f : sealed ms -> follows_on ms k (omap wire_message events ++ l) f ->
  exists l', omap wire_message events = map to_proto (collect events) ++ l'.
Proof.
  intros Hs. revert k. induction events as [|[[|m|p]|] events IH]; intros k Hf.
  - by exists [].
  - by eexists.
  - cbn in *. destruct (follows_on_cons _ _ _ _ _ Hs Hf) as (m' & -> & ->).
    apply follows_on_tail in Hf as (g & [l' Hl']%IH). exists l'. cbn. by rewrite Hl'.
  - by apply IH in Hf.
  - by apply IH in Hf.
Qed.

(** The client takes an event. *)
Lemma session_event_ok c ms k se rr {App} `{!ClientCodecs} `{!QsHandlers App} sqlite e rest result p
    (w w' : ClientWorld App) : sealed ms -> session_ok c ms k se ->
  se_batch se = None -> se_wire se = e :: rest -> e <> Some EventEmpty ->
  process_event sqlite rr (se_processor se) e w = (result, p, w') ->
  session_ok c ms k (session_event rest p se) /\ cl_db w' = cl_db w /\
  (forall responder n, SendAck responder n ∈ cl_effects w' -> SendAck responder n ∈ cl_effects w).
Proof.
  intros Hseal Hok Eb Ew Hne Hp.
  assert (pending (session_event rest p se) = pending se -> session_ok c ms k (session_event rest p se))
    as Hsame.
  { intros E. eapply session_ok_same; [exact Hok|done|by right|exact E|done]. }
  destruct e as [[|m|pl]|]; [done| |cbn in Hp; injection Hp as <- <- <-; split; [|done];
    apply Hsame; unfold pending; by rewrite Ew..].
  cbn in Hp. pose proof Hok as (g & f & _ & Hf & _). unfold pending in Hf. rewrite Ew in Hf.
  apply follows_on_app in Hf as (g' & _ & Hf).
  destruct (follows_on_cons _ _ _ _ _ Hseal Hf) as (m' & -> & Hm). rewrite Hm in Hp.
  injection Hp as <- <- <-. split_and!; [|done|].
  - apply Hsame. unfold pending. cbn. rewrite Ew, map_app, <- app_assoc. done.
  - intros responder n. cbn. by intros [?|?%list_elem_of_singleton]%elem_of_app.
Qed.

(** A batch begins. *)
Lemma batch_of_ok r0 hist ms k source q f : encrypted r0 hist ms ->
  follows_on ms k (map to_proto q) f -> batch_ok ms k (batch_of source q) f.
Proof. intros Hen Hf. split; [done| |done]. intros n. by eapply max_sequence_number_ok. Qed.

Lemma session_start_ok c r0 hist ms k se rest : encrypted r0 hist ms -> session_ok c ms k se ->
  se_batch se = None -> se_wire se = Some EventEmpty :: rest ->
  session_ok c ms k (session_start rest se).
Proof.
  intros Hen (g & f & Hb & Hp & Hs) Eb Ew. unfold base_ok in Hb. rewrite Eb in Hb. subst g.
  rewrite (pending_start _ _ Ew) in Hp. apply follows_on_app in Hp as (g & Hq & Hp).
  exists g, f. split_and!; [|done|done]. split; [|done]. by eapply batch_of_ok.
Qed.

Lemma session_collect_ok c r0 hist ms k se source : encrypted r0 hist ms -> sealed ms ->
  session_ok c ms k se -> se_batch se = None -> sp_messages (se_processor se) = [] ->
  session_ok c ms k (session_collect source se).
Proof.
  intros Hen Hseal (g & f & Hb & Hp & _) Eb Em. unfold base_ok in Hb. rewrite Eb in Hb. subst g.
  unfold pending in Hp. rewrite Em in Hp. cbn in Hp.
  destruct (collect_prefix _ _ _ _ _ Hseal Hp) as [l Hl]. rewrite Hl, <- app_assoc in Hp.
  apply follows_on_app in Hp as (g & Hq & _). exists g, g. split_and!; [|apply follows_on_nil|done].
  split; [|done]. by eapply batch_of_ok.
Qed.

(** One message of a batch has been processed. *)
Lemma batch_next_ok ms k b g m rest r : batch_ok ms k b g -> ba_todo b = m :: rest ->
  exists i, ms !! i = Some m /\ (i <= k)%nat /\
    batch_ok ms (Nat.max k (S i)) (batch_next rest r b) g.
Proof.
  intros [(q & ns & Hq & Hn & Hg & ->) Hm Hnum] Et. rewrite Et in Hq, Hnum.
  apply (inj (map to_proto) (m :: rest) q) in Hq as <-.
  inversion Hn as [|? i ? ns' Hi Hn']; subst. destruct Hg as [Hik Hg].
  exists i. split_and!; [done|done|]. split; [by exists rest, ns'|done|cbn in *; lia].
Qed.

Lemma session_message_ok c ms k se b m rest r : session_ok c ms k se -> se_batch se = Some b ->
  ba_todo b = m :: rest -> exists i, ms !! i = Some m /\ (i <= k)%nat /\
    session_ok c ms (Nat.max k (S i)) (session_batch (Some (batch_next rest r b)) se).
Proof.
  intros (g & f & Hb & Hp & Hs) Eb Et. unfold base_ok in Hb. rewrite Eb in Hb. destruct Hb as [Hb Hm].
  destruct (batch_next_ok _ _ _ _ _ _ r Hb Et) as (i & Hi & Hik & Hb'). exists i.
  split_and!; [done|done|]. by exists g, f.
Qed.

(** The acknowledgements of [w'] that are not among those of [w] are at most [k]. *)
Definition acks_within {App} (k : nat) (w w' : ClientWorld App) : Prop :=
  forall responder n, SendAck responder n ∈ cl_effects w' ->
    SendAck responder n ∈ cl_effects w \/ 0 <= n <= Z.of_nat k.

Lemma acks_within_refl {App} k (w : ClientWorld App) : acks_within k w w.
Proof. by left. Qed.

Lemma acks_within_effect {App} k (w w' : ClientWorld App) e : acks_within k w w' ->
  (forall responder n, e = SendAck responder n -> 0 <= n <= Z.of_nat k) ->
  acks_within k w (with_effect e w').
Proof.
  intros Hw He responder n. cbn. intros [Hin|Hin%list_elem_of_singleton]%elem_of_app; [by apply Hw|].
  right. by eapply He.
Qed.

Lemma ack_max_within {App} k responder n (w : ClientWorld App) : Z.of_nat k < U64 ->
  (forall x, n = Some x -> 0 <= x /\ x + 1 <= Z.of_nat k) -> acks_within k w (ack_max responder n w).
Proof.
  intros Hk Hn. destruct n as [x|]; [|apply acks_within_refl].
  destruct (Hn x eq_refl). cbn. apply acks_within_effect; [apply acks_within_refl|].
  intros ? ? [= _ <-]. rewrite wrap_u64_small by lia. lia.
Qed.

Lemma ack_max_db {App} responder n (w : ClientWorld App) : cl_db (ack_max responder n w) = cl_db w.
Proof. by destruct n. Qed.

(** How a batch ends: it is complete, or it is not one of the background handler, or
    the position is at the end of the history. *)
Definition ends ms (k : nat) (b : Batch) : Prop :=
  ba_todo b = [] \/
  (exists m rest, ba_todo b = m :: rest) /\ (ba_source b <> FromBackground \/ k = length ms).

(** A batch ends: nothing beyond the client's position is acknowledged. *)
Lemma session_finish_ok {App} c ms k se b r (w w' : ClientWorld App) o : Z.of_nat k < U64 ->
  session_ok c ms k se -> se_batch se = Some b -> processed r = ba_idx b -> ends ms k b ->
  session_finish b r se w = (o, w') ->
  (forall x, o = Some x -> session_ok c ms k x) /\ cl_db w' = cl_db w /\ acks_within k w w'.
Proof.
  intros Hk (g & f & Hb & Hp & Hs) Eb Er Hend Hfin. unfold base_ok in Hb. rewrite Eb in Hb.
  destruct Hb as [[Ht Hm Hnum] Hsp].
  assert (session_ok c ms k (session_break 0 (session_batch None se))) as Hbroken.
  { exists k, k. split_and!; [done| |done]. unfold pending. cbn. rewrite Hsp. apply follows_on_nil. }
  destruct Hend as [Et|((m & rest & Et) & Hsrc)]; rewrite Et in Ht, Hnum; cbn in Hnum.
  - assert (g = k) as ->.
    { destruct Ht as (q & ns & Hq & Hn & _ & ->). destruct q; [|discriminate]. by inversion Hn; subst. }
    assert (session_ok c ms k (session_batch None se)) as Hok by (by exists k, f).
    unfold session_finish, finish_event, finish_drain, finish_background in Hfin. rewrite Er in Hfin.
    destruct (ba_source b).
    + rewrite decide_False in Hfin by lia. cbn in Hfin. injection Hfin as <- <-.
      split; [by intros ? [= <-]|]. destruct (sp_responder _).
      * split; [apply ack_max_db|]. apply acks_within_effect; [by apply ack_max_within|done].
      * split; [done|]. apply acks_within_effect; [apply acks_within_refl|done].
    + rewrite decide_True in Hfin by lia. injection Hfin as <- <-.
      split_and!; [done|apply ack_max_db|by apply ack_max_within].
    + injection Hfin as <- <-. split_and!; [done|apply ack_max_db|].
      apply acks_within_effect; [by apply ack_max_within|done].
  - unfold session_finish, finish_event, finish_drain in Hfin. rewrite Er in Hfin.
    destruct (ba_source b); [| |destruct Hsrc as [?| ->]; [done|]].
    + rewrite decide_True in Hfin by lia. cbn in Hfin. injection Hfin as <- <-.
      split_and!; [by intros ? [= <-]|done|]. apply acks_within_effect; [apply acks_within_refl|done].
    + rewrite decide_False in Hfin by lia. injection Hfin as <- <-.
      split_and!; [done|done|apply acks_within_refl].
    + unfold finish_background in Hfin. injection Hfin as <- <-. split_and!; [done|apply ack_max_db|].
      apply acks_within_effect; [|done]. apply ack_max_within; [done|].
      intros n ?%Hm. pose proof (follows_on_le _ _ _ _ Ht ltac:(done)). lia.
Qed.

End Steps.

(** ** The invariant *)

Section Delivery.
Context (db_ok : nat -> bool) (nonce_of : nat -> Result RandomnessErr bytes).
Context (sqlite : ClientStatement -> nat -> option SqlxError).
Context `{Hkdf} `{Aes256GcmLaws} `{!TlsCodec bytes} `{!TlsCodec QsQueueMessagePayload}
  `{!TlsCodecLaws QsQueueMessagePayload}.
Context {App : Type} `{!ClientTypes} `{!ClientCodecs} `{!QsHandlers App}.
Context (c : Uuid).

(** A record [Q hist ms k d] of how far the client has come: its database is [d], and
    nothing from [k] on has been acknowledged. *)
Definition Progress : Type := History -> list QueueMessage -> nat -> ClientDb App -> Prop.

(** What the invariant needs of such a record, for runs whose steps have the labels
    in [L]. *)
Record tracking (L : option Source -> Prop) r0 (Q : Progress) : Prop := {
  tr_le : forall hist ms k d, encrypted r0 hist ms -> Q hist ms k d -> (k <= length ms)%nat;
  tr_extend : forall hist ms hist' ms' k d, encrypted r0 hist ms -> encrypted r0 (hist ++ hist') (ms ++ ms') ->
    Q hist ms k d -> exists k', (k <= k')%nat /\ Q (hist ++ hist') (ms ++ ms') k' d;
  tr_stands : forall hist ms k d, encrypted r0 hist ms -> Q hist ms k d -> exists k', (k' <= k)%nat /\ stands r0 hist ms k' d;
  tr_one : forall hist ms k i m rr result (w : ClientWorld App), encrypted r0 hist ms ->
    Q hist ms k (cl_db w) -> ms !! i = Some m -> (i <= k)%nat ->
    let '(go, _, w') := process_one sqlite rr m result w in
    cl_effects w' = cl_effects w /\
    if go then Q hist ms (Nat.max k (S i)) (cl_db w') else cl_db w' = cl_db w;
  tr_stop : forall hist ms k d, L (Some FromBackground) -> encrypted r0 hist ms -> Q hist ms k d ->
    k = length ms
}.

(** The client has come to [k], the server holds the messages from [lo] on, and
    nothing beyond [k] has been acknowledged. *)
Record delivery r0 (Q : Progress) hist lo ms (k : nat) (s : System App) : Prop := {
  dl_coherent : coherent (qdb (sy_server s)) c r0 hist lo ms;
  dl_sealed : sealed ms;
  dl_progress : Q hist ms k (cl_db (sy_client s));
  dl_retained : (lo <= k)%nat;
  dl_acks : forall responder n, SendAck responder n ∈ cl_effects (sy_client s) -> 0 <= n <= Z.of_nat k;
  dl_sessions : forall j se, sy_sessions s !! j = Some se -> session_ok c ms k se
}.

Context (Hnonce : forall n b, nonce_of n = Ok b -> length b = 12%nat).
Context (L : option Source -> Prop) r0 (Q : Progress) (HQ : tracking L r0 Q).

Lemma delivery_encrypted hist lo ms k s : delivery r0 Q hist lo ms k s ->
  encrypted r0 hist ms /\ (lo <= k <= length ms)%nat /\ Z.of_nat k < U64.
Proof.
  intros [Hco _ Hc Hlo _ _]. apply coherent_encrypted in Hco. apply (tr_le _ _ _ HQ _ _ _ _ Hco) in Hc.
  pose proof (encrypted_length _ _ _ Hco). pose proof (en_bound _ _ _ Hco). unfold U64. split; [done|lia].
Qed.

(** Changes of one session. *)
Lemma delivery_alter hist lo ms k s j se w x : delivery r0 Q hist lo ms k s ->
  Q hist ms x (cl_db w) -> (k <= x)%nat -> acks_within x (sy_client s) w ->
  (forall y, se = Some y -> session_ok c ms x y) ->
  delivery r0 Q hist lo ms x (with_finished j se w s).
Proof.
  intros [Hco Hseal Hc Hlo Hack Hse] Hc' Hx Hw Hy. split; try done; cbn.
  - lia.
  - intros responder n [Hin|]%Hw; [|done]. apply Hack in Hin. lia.
  - intros i y. destruct (decide (i = j)) as [->|Hne].
    + rewrite lookup_partial_alter_eq. apply Hy.
    + rewrite lookup_partial_alter_ne by done. intros Hi. eapply session_ok_mono; [exact Hx|eauto].
Qed.

Lemma delivery_session hist lo ms k s j se w : delivery r0 Q hist lo ms k s ->
  cl_db w = cl_db (sy_client s) -> acks_within k (sy_client s) w -> session_ok c ms k se ->
  delivery r0 Q hist lo ms k (with_client w (with_session j se s)).
Proof.
  intros Hd Hdb Hw Hse. refine (delivery_alter _ _ _ k s j (Some se) w k Hd _ _ Hw _); [|done|].
  - rewrite Hdb. apply Hd.
  - by intros ? [= <-].
Qed.

Lemma delivery_server hist lo ms k s x hist' lo' ms' : delivery r0 Q hist lo ms k s ->
  coherent (qdb x) c r0 (hist ++ hist') lo' (ms ++ ms') -> sealed (ms ++ ms') -> (lo' <= k)%nat ->
  exists k', (k <= k')%nat /\ delivery r0 Q (hist ++ hist') lo' (ms ++ ms') k' (with_server x s).
Proof.
  intros Hd Hco' Hseal' Hlo'. pose proof (delivery_encrypted _ _ _ _ _ Hd) as (Hen & Hk & _).
  destruct Hd as [Hco Hseal Hc Hlo Hack Hse].
  destruct (tr_extend _ _ _ HQ _ _ _ _ _ _ Hen (coherent_encrypted _ _ _ _ _ _ Hco') Hc) as (k' & Hkk & Hc').
  exists k'. split; [done|]. split; try done; cbn.
  - lia.
  - intros responder n ?%Hack. lia.
  - intros j se Hj. eapply session_ok_mono; [exact Hkk|]. apply session_ok_extend. eauto.
Qed.

(** The server changes, but the history does not. *)
Lemma delivery_kept hist lo ms k s x lo' : delivery r0 Q hist lo ms k s ->
  coherent (qdb x) c r0 hist lo' ms -> (lo' <= k)%nat -> delivery r0 Q hist lo' ms k (with_server x s).
Proof. intros [Hco Hseal Hc Hlo Hack Hse] Hco' Hlo'. by split. Qed.

(** ** Its preservation *)

Lemma encrypt_sealed p n r m r' : ratchet_encrypt p (nonce_of n) r = (Ok m, r') ->
  length (nonce (qm_ciphertext m)) = 12%nat.
Proof.
  intros (He & _ & _)%ratchet_encrypt_Ok. unfold encrypt in He. inv_ok.
  apply key_encrypt_Ok in He as (b & Hb & -> & _). cbn. by eapply Hnonce.
Qed.

Lemma delivery_enqueue hist lo ms k s id p res x : delivery r0 Q hist lo ms k s ->
  do_enqueue db_ok nonce_of id p (sy_server s) = (res, x) ->
  (forall row b, live_row (qdb (sy_server s)) id row b -> sequence_number (row_ratchet b) < 2 ^ 63 - 1) ->
  exists hist' ms' k', (k <= k')%nat /\ delivery r0 Q (hist ++ hist') lo (ms ++ ms') k' (with_server x s).
Proof.
  intros Hd Hen Hseq. pose proof Hd as [Hco Hseal _ Hlo _ _].
  assert (coherent (qdb x) c r0 hist lo ms ->
    exists hist' ms' k', (k <= k')%nat /\
      delivery r0 Q (hist ++ hist') lo (ms ++ ms') k' (with_server x s)) as Hsame.
  { intros Hx. exists [], [], k. split; [done|]. rewrite !app_nil_r. by apply (delivery_kept _ lo). }
  destruct res as [[rec b]|e].
  2:{ apply transaction_Err in Hen. apply Hsame. by rewrite Hen. }
  apply do_enqueue_Ok in Hen as (row & bl & n & m & r & Hlive & He & _ & Hx).
  destruct (decide (c = id)) as [<-|Hne].
  2:{ apply Hsame. rewrite Hx. by apply coherent_other. }
  destruct (coherent_next _ _ _ _ _ _ _ _ _ _ _ _ Hco Hlive He) as [Hq _].
  pose proof (Hseq _ _ Hlive). pose proof He as (_ & Hq' & _)%ratchet_encrypt_Ok.
  exists [(p, nonce_of n)], [m]. eapply delivery_server; [exact Hd| | |done].
  - rewrite Hx. apply coherent_enqueue; try done. lia.
  - apply Forall_app. split; [done|]. apply Forall_singleton. by eapply encrypt_sealed.
Qed.

Lemma delivery_ack hist lo ms k s responder n res x : delivery r0 Q hist lo ms k s ->
  SendAck responder n ∈ cl_effects (sy_client s) -> ack db_ok c n (sy_server s) = (res, x) ->
  exists lo', delivery r0 Q hist lo' ms k (with_server x s).
Proof.
  intros Hd Hin Hack. pose proof (delivery_encrypted _ _ _ _ _ Hd) as (Hen & Hk & _).
  pose proof (encrypted_length _ _ _ Hen) as Hl. pose proof Hd as [Hco Hseal _ Hlo Hacks _].
  apply Hacks in Hin. unfold ack, queue_delete, mbind, M_bind in Hack.
  destruct (statement db_ok EnqueueStorage (sy_server s)) as [[[]|e] w1] eqn:Es.
  2:{ injection Hack as <- <-. apply statement_Err in Es. exists lo. eapply delivery_kept; [exact Hd|by rewrite Es|done]. }
  apply statement_Ok in Es as (Hq & _). injection Hack as <- <-. cbn [set_queues set_db qdb] in *.
  exists (Nat.max lo (Z.to_nat n)). eapply delivery_kept; [exact Hd| |lia].
  eapply (coherent_ack (qdb (sy_server s)) _ _ _ _ _ _ (Z.to_nat n)); [exact Hco|lia|cbn; by rewrite Hq|].
  cbn. rewrite Hq. by replace (Z.of_nat (Z.to_nat n)) with n by lia.
Qed.

Lemma listen_queue_start (d : ClientDb App) w n w' hist ms k : encrypted r0 hist ms ->
  stands r0 hist ms k (cl_db w) -> lagging d (cl_db w) ->
  listen_queue sqlite (with_db d w) = (Ok n, w') ->
  0 <= n <= Z.of_nat k /\ cl_effects w' = cl_effects w.
Proof.
  intros Hen (r & Hr & Hpos) Hlag Hl. unfold lagging in Hlag. rewrite Hr in Hlag.
  destruct (queue_ratchet d) as [row|] eqn:Ed; [|done].
  cbn in Hlag. rewrite (position_seq _ _ _ _ _ Hen Hpos) in Hlag.
  unfold listen_queue, ratchet_load in Hl. bindM Hl as [] w1 Hs. bindM Hl as q w2 Hq.
  bindM Hq as [] w3 Hs'. bindM Hq as w4 w5 Hg. leafM Hg. leafM Hl.
  apply sql_Ok in Hs as (Hdb & _ & _ & He), Hs' as (Hdb' & _ & _ & He'). cbn in Hdb, He.
  injection Hq as Hq <-. rewrite Hdb', Hdb, Ed in Hq. injection Hq as <-. split; [done|congruence].
Qed.

(** A message of a batch is processed, or stops it. *)
Lemma delivery_message hist lo ms k s j se b rr m rest go r w :
  delivery r0 Q hist lo ms k s -> sy_sessions s !! j = Some se -> se_batch se = Some b ->
  ba_todo b = m :: rest -> process_one sqlite rr m (ba_result b) (sy_client s) = (go, r, w) ->
  if go then exists k', (k <= k')%nat /\ delivery r0 Q hist lo ms k'
    (with_client w (with_session j (session_batch (Some (batch_next rest r b)) se) s))
  else cl_db w = cl_db (sy_client s) /\ cl_effects w = cl_effects (sy_client s).
Proof.
  intros Hd Hj Eb Et Hone. pose proof (delivery_encrypted _ _ _ _ _ Hd) as (Hen & _ & _).
  destruct (session_message_ok _ _ _ _ _ _ _ r (dl_sessions _ _ _ _ _ _ _ Hd _ _ Hj) Eb Et)
    as (i & Hi & Hik & Hse).
  pose proof (tr_one _ _ _ HQ _ _ _ _ _ rr (ba_result b) (sy_client s) Hen
    (dl_progress _ _ _ _ _ _ _ Hd) Hi Hik) as Hp.
  rewrite Hone in Hp. destruct Hp as [Heff Hp]. destruct go; [|done].
  exists (Nat.max k (S i)). split; [lia|].
  refine (delivery_alter _ _ _ k s j (Some _) w _ Hd Hp _ _ _); [lia| |by intros ? [= <-]].
  intros responder n. rewrite Heff. by left.
Qed.

Lemma delivery_finish hist lo ms k s j se b r w o w' : delivery r0 Q hist lo ms k s ->
  sy_sessions s !! j = Some se -> se_batch se = Some b -> processed r = ba_idx b ->
  ends ms k b -> cl_db w = cl_db (sy_client s) -> cl_effects w = cl_effects (sy_client s) ->
  session_finish b r se w = (o, w') ->
  delivery r0 Q hist lo ms k (with_finished j o w' s).
Proof.
  intros Hd Hj Eb Er Hend Hdb Heff Hfin.
  pose proof (delivery_encrypted _ _ _ _ _ Hd) as (_ & _ & Hk).
  destruct (session_finish_ok _ _ _ _ _ _ _ _ _ Hk (dl_sessions _ _ _ _ _ _ _ Hd _ _ Hj) Eb Er Hend Hfin)
    as (Ho & Hdb' & Hw).
  eapply delivery_alter; [exact Hd| |done| |exact Ho].
  - rewrite Hdb', Hdb. apply Hd.
  - intros responder n Hin. apply Hw in Hin. by rewrite Heff in Hin.
Qed.

Lemma session_default_ok hist lo ms k s j : delivery r0 Q hist lo ms k s ->
  session_ok c ms k (default session_new (sy_sessions s !! j)).
Proof.
  intros Hd. destruct (sy_sessions s !! j) as [se|] eqn:Ej; cbn; [|apply session_new_ok].
  by eapply (dl_sessions _ _ _ _ _ _ _ Hd).
Qed.

(** Every step preserves the invariant; the history grows at its end. *)
Lemma delivery_step hist lo ms k s l s' :
  system_step db_ok nonce_of sqlite c s l s' -> L l -> delivery r0 Q hist lo ms k s ->
  exists hist' lo' ms' k', delivery r0 Q (hist ++ hist') lo' (ms ++ ms') k' s' /\ (k <= k')%nat.
Proof.
  intros Hstep HL Hd. pose proof (delivery_encrypted _ _ _ _ _ Hd) as (Hen & Hk & HkU).
  assert (forall k', delivery r0 Q hist lo ms k' s' -> (k <= k')%nat -> exists hist' lo' ms' k',
    delivery r0 Q (hist ++ hist') lo' (ms ++ ms') k' s' /\ (k <= k')%nat) as Hsame.
  { intros k' Hd' Hle. exists [], lo, [], k'. by rewrite !app_nil_r. }
  destruct Hstep as [id p res x He Hseq|responder n res x Hin Ha|x Hx
    |j d start w responder Eb Hlag Hl|j se ctx cancel up wake Hj Ec|j se p Hj|j se n Hj
    |j se rr e rest result p w Hj Eb Ew Hne Hp|j se rest Hj Eb Ew|j se source Hj Eb Hsrc Hsp _
    |j se b rr m rest r w Hj Eb Et Hone|j se b Hj Eb Et|j se b rr m rest r w Hj Eb Et Hone|j];
    try pose proof (dl_sessions _ _ _ _ _ _ _ Hd _ _ Hj) as Hok.
  - destruct (delivery_enqueue _ _ _ _ _ _ _ _ _ Hd He Hseq) as (hist' & ms' & k' & Hk' & Hd').
    by exists hist', lo, ms', k'.
  - destruct (delivery_ack _ _ _ _ _ _ _ _ _ Hd Hin Ha) as (lo' & Hd').
    exists [], lo', [], k. by rewrite !app_nil_r.
  - apply (Hsame k); [|done]. pose proof Hd as [Hco Hseal _ Hlo _ _].
    eapply delivery_kept; [exact Hd|by apply (coherent_keeps _ _ _ _ _ _ _ Hx)|done].
  - destruct (tr_stands _ _ _ HQ _ _ _ _ Hen (dl_progress _ _ _ _ _ _ _ Hd)) as (k' & Hk' & Hst).
    destruct (listen_queue_start _ _ _ _ _ _ _ Hen Hst Hlag Hl) as [Hn Heff].
    apply (Hsame k); [|done]. apply delivery_session; [done|done| |].
    + intros ? ?. cbn. rewrite Heff. by left.
    + rewrite <- (Z2Nat.id start) by lia. apply session_listen_ok; [|done|lia].
      by eapply session_default_ok.
  - apply (Hsame k); [|done]. apply (delivery_session _ _ _ _ _ _ _ _ Hd); [done|by left|].
    eapply session_turn_ok; [apply Hd|done|done|done].
  - apply (Hsame k); [|done]. apply (delivery_session _ _ _ _ _ _ _ _ Hd); [done|by left|].
    by apply session_payload_ok.
  - apply (Hsame k); [|done]. apply (delivery_session _ _ _ _ _ _ _ _ Hd); [done|by left|].
    by apply session_break_ok.
  - destruct (session_event_ok _ _ _ _ _ _ _ _ _ _ _ _ (dl_sealed _ _ _ _ _ _ _ Hd) Hok Eb Ew Hne Hp)
      as (Hse & Hdb & Hacks).
    apply (Hsame k); [|done]. apply delivery_session; [done|done| |done].
    intros ? ? ?%Hacks. by left.
  - apply (Hsame k); [|done]. apply (delivery_session _ _ _ _ _ _ _ _ Hd); [done|by left|].
    by eapply session_start_ok.
  - apply (Hsame k); [|done]. apply (delivery_session _ _ _ _ _ _ _ _ Hd); [done|by left|].
    eapply session_collect_ok; [done|apply Hd|done|done|done].
  - destruct (delivery_message _ _ _ _ _ _ _ _ _ _ _ _ _ _ Hd Hj Eb Et Hone) as (k' & Hle & Hd').
    by apply (Hsame k').
  - apply (Hsame k); [|done]. destruct (session_finish _ _ _ _) as [o w] eqn:Ef.
    eapply delivery_finish; [exact Hd|exact Hj|exact Eb| |by left| | |exact Ef]; done.
  - apply (Hsame k); [|done].
    destruct (delivery_message _ _ _ _ _ _ _ _ _ _ _ _ _ _ Hd Hj Eb Et Hone) as [Hdb Heff].
    destruct (session_finish _ _ _ _) as [o w'] eqn:Ef.
    assert (ends ms k b) as Hends.
    { right. split; [eauto|]. destruct (ba_source b) eqn:Es; [by left..|]. right.
      by eapply (tr_stop _ _ _ HQ); [|exact Hen|apply Hd]. }
    eapply delivery_finish; [exact Hd|exact Hj|exact Eb| |exact Hends|exact Hdb|exact Heff|exact Ef]; done.
  - apply (Hsame k); [|done].
    apply (delivery_alter _ _ _ k s j None (sy_client s) k Hd); [apply Hd|done|by left|done].
Qed.

Lemma delivery_run hist lo ms k s s' :
  rtc (fun s s' => exists l, system_step db_ok nonce_of sqlite c s l s' /\ L l) s s' -> delivery r0 Q hist lo ms k s ->
  exists hist' lo' ms' k', delivery r0 Q (hist ++ hist') lo' (ms ++ ms') k' s' /\ (k <= k')%nat.
Proof.
  intros Hrun. revert hist lo ms k. induction Hrun as [s|s1 s2 s3 (l & Hstep & HL) _ IH]; intros hist lo ms k Hd.
  - exists [], lo, [], k. by rewrite !app_nil_r.
  - destruct (delivery_step _ _ _ _ _ _ _ Hstep HL Hd) as (h1 & lo1 & m1 & k1 & Hd1 & Hk1).
    destruct (IH _ _ _ _ Hd1) as (h2 & lo2 & m2 & k2 & Hd2 & Hk2).
    exists (h1 ++ h2), lo2, (m1 ++ m2), k2. rewrite !app_assoc. split; [done|lia].
Qed.

End Delivery.

(** ** Two records of progress *)

Section Records.
Context (sqlite : ClientStatement -> nat -> option SqlxError).
Context `{Hkdf} `{Aes256GcmLaws} `{!TlsCodec bytes} `{!TlsCodec QsQueueMessagePayload}
  `{!TlsCodecLaws QsQueueMessagePayload}.
Context {App : Type} `{!ClientTypes} `{!ClientCodecs} `{!QsHandlers App}.

(** The first [k] payloads were handled, and no others. *)
Definition consumed_at r0 (a0 : App) : Progress (App := App) :=
  fun hist ms k d => consumed r0 hist ms a0 k d.

Definition careful (l : option Source) : Prop := l <> Some FromBackground.

Lemma stands_extend r0 hist ms hist' ms' k (d : ClientDb App) : encrypted r0 hist ms ->
  stands r0 hist ms k d -> stands r0 (hist ++ hist') (ms ++ ms') k d.
Proof.
  intros Hen (r & Hr & Hpos). exists r. split; [done|].
  apply position_extend; [|done]. by eapply encrypted_length.
Qed.

Lemma stands_le r0 hist ms k (d : ClientDb App) : stands r0 hist ms k d -> (k <= length hist)%nat.
Proof. by intros (r & _ & Hk & _). Qed.

Lemma consumed_tracking r0 (a0 : App) : ratchet_reliable sqlite ->
  tracking sqlite careful r0 (consumed_at r0 a0).
Proof.
  intros Hrel. split.
  - intros hist ms k d Hen [Hst%stands_le _]. by rewrite (encrypted_length _ _ _ Hen).
  - intros hist ms hist' ms' k d Hen _ [Hst Ha]. exists k. split; [done|]. split; [by apply stands_extend|].
    apply stands_le in Hst. by rewrite take_app_le.
  - intros hist ms k d _ [Hst _]. by exists k.
  - intros. by apply process_one_spec.
  - by intros ? ? ? ? [].
Qed.

(** The payloads of the history at the positions [js]. *)
Definition payloads_at (hist : History) (js : list nat) :
    list QsQueueMessagePayload := omap (fun j => fst <$> hist !! j) js.

(** The ratchet stands somewhere, and the payloads at some increasing positions before
    it were handled, and no others. *)
Definition attained r0 hist ms (a0 : App) (js : list nat) (d : ClientDb App) : Prop :=
  exists k, stands r0 hist ms k d /\ StronglySorted lt js /\ Forall (fun j => (j < k)%nat) js /\
    absorbed a0 (payloads_at hist js) (app d).

Definition attained_at r0 (a0 : App) : Progress (App := App) :=
  fun hist ms k d => k = length ms /\ exists js, attained r0 hist ms a0 js d.

Lemma payloads_at_app hist js js' :
  payloads_at hist (js ++ js') = payloads_at hist js ++ payloads_at hist js'.
Proof. apply omap_app. Qed.

Lemma payloads_at_extend hist hist' js : Forall (fun j => (j < length hist)%nat) js ->
  payloads_at (hist ++ hist') js = payloads_at hist js.
Proof.
  unfold payloads_at. induction 1 as [|j js Hj _ IH]; [done|]. cbn. rewrite lookup_app_l by done.
  by rewrite IH.
Qed.

(** The first [k] payloads are those at the first [k] positions. *)
Lemma payloads_at_seq hist k : (k <= length hist)%nat ->
  payloads_at hist (seq 0 k) = map fst (take k hist).
Proof.
  induction k as [|k IH]; intros Hk; [done|]. rewrite seq_S, payloads_at_app, IH by lia.
  destruct (lookup_lt_is_Some_2 hist k) as [x Hx]; [lia|]. rewrite (take_S_r _ _ _ Hx), map_app.
  cbn. by rewrite Hx.
Qed.

Lemma StronglySorted_snoc (js : list nat) j : StronglySorted lt js -> Forall (fun x => (x < j)%nat) js ->
  StronglySorted lt (js ++ [j]).
Proof.
  induction 1 as [|x js Hs IH Hx]; intros Hj; cbn; [by repeat constructor|].
  apply Forall_cons in Hj as [? ?]. constructor; [by apply IH|]. apply Forall_app. by repeat constructor.
Qed.

Lemma consumed_attained r0 hist ms (a0 : App) k d : consumed r0 hist ms a0 k d ->
  attained r0 hist ms a0 (seq 0 k) d.
Proof.
  intros [Hst Ha]. exists k. split_and!; [done| | |].
  - clear. generalize 0%nat. induction k as [|k IH]; intros n; [constructor|]. constructor; [apply IH|].
    apply Forall_forall. intros x ?%elem_of_seq. lia.
  - apply Forall_forall. intros x ?%elem_of_seq. lia.
  - apply stands_le in Hst. by rewrite payloads_at_seq.
Qed.

Lemma attained_one r0 hist ms (a0 : App) js i m rr result (w : ClientWorld App) : encrypted r0 hist ms ->
  attained r0 hist ms a0 js (cl_db w) -> ms !! i = Some m ->
  let '(go, _, w') := process_one sqlite rr m result w in
  cl_effects w' = cl_effects w /\
  (cl_db w' = cl_db w \/ go = true /\ attained r0 hist ms a0 (js ++ [i]) (cl_db w')).
Proof.
  intros Hen (k & Hst & Hs & Hk & Ha) Hm.
  pose proof (process_one_once sqlite rr _ _ _ _ _ _ result w Hen Hst Hm) as Hone.
  destruct (process_one sqlite rr m result w) as [[go r] w'].
  destruct Hone as [Heff [?|(-> & Hki & p & rnd & Hh & Hst' & Hp)]]; [by eauto|].
  split; [done|right]. split; [done|]. exists (S i).
  assert (Forall (fun j => (j < i)%nat) js) by (eapply Forall_impl; [exact Hk|cbn; lia]).
  split_and!; [done|by apply StronglySorted_snoc| |].
  - apply Forall_app. split; [|by repeat constructor]. eapply Forall_impl; [exact Hk|cbn; lia].
  - rewrite payloads_at_app. cbn. rewrite Hh. cbn. by eapply absorbed_snoc.
Qed.

Lemma attained_tracking r0 (a0 : App) : tracking sqlite (fun _ => True) r0 (attained_at r0 a0).
Proof.
  split.
  - intros hist ms k d _ [-> _]. done.
  - intros hist ms hist' ms' n d Hen _ [-> (js & k & Hst & Hs & Hk & Ha)]. exists (length (ms ++ ms')).
    rewrite length_app. split; [lia|]. split; [by rewrite length_app|]. exists js, k.
    split_and!; [by apply stands_extend|done|done|]. rewrite payloads_at_extend; [done|].
    apply stands_le in Hst. eapply Forall_impl; [exact Hk|cbn; lia].
  - intros hist ms n d Hen [-> (js & k & Hst & _)]. exists k. split; [|done].
    rewrite (encrypted_length _ _ _ Hen). by eapply stands_le.
  - intros hist ms k i m rr result w Hen [-> [js Hj]] Hm Hi.
    pose proof (attained_one _ _ _ _ _ _ _ rr result _ Hen Hj Hm) as Hone.
    destruct (process_one sqlite rr m result w) as [[go r] w'].
    pose proof (lookup_lt_Some _ _ _ Hm). replace (Nat.max (length ms) (S i)) with (length ms) by lia.
    destruct Hone as [Heff [Hdb|[-> Hj']]]; (split; [done|]); [|by split; [|eexists]].
    destruct go; [|done]. rewrite Hdb. by split; [|exists js].
  - by intros hist ms k d _ _ [-> _].
Qed.

End Records.

(** ** Progress *)

Section Completion.
Context (db_ok : nat -> bool) (nonce_of : nat -> Result RandomnessErr bytes).
Context (sqlite : ClientStatement -> nat -> option SqlxError).
Context `{Hkdf} `{Aes256GcmLaws} `{!TlsCodec bytes} `{!TlsCodec QsQueueMessagePayload}
  `{!TlsCodecLaws QsQueueMessagePayload}.
Context {App : Type} `{!ClientTypes} `{!ClientCodecs} `{!QsHandlers App}.
Context (c : Uuid) (Hrel : ratchet_reliable sqlite).

(** A session that has just been opened at [k] fetches a page that begins with
    the message at [k]. *)
Lemma fetch_next_page r0 hist lo ms d k m : coherent d c r0 hist lo ms -> (lo <= k)%nat ->
  ms !! k = Some m -> exists ctx rest,
    fetch_next_messages (set_state Fetch (stream_init c (Z.of_nat k))) true d = Some ctx /\
    sc_buffer ctx = to_proto m :: rest /\ sc_state ctx = Fetch.
Proof.
  intros Hco Hlo Hm. pose proof (coherent_encrypted _ _ _ _ _ _ Hco) as Hen.
  pose proof (encrypted_length _ _ _ Hen). pose proof (en_bound _ _ _ Hen).
  pose proof (lookup_lt_Some _ _ _ Hm). unfold fetch_next_messages.
  eexists _, _. split; [reflexivity|]. cbn [sc_buffer sc_state set_state stream_init sc_client_id
    sc_sequence_number]. split; [|done]. rewrite app_nil_l.
  rewrite (fetch_into_coherent _ _ _ _ _ _ _ _ Hco) by lia.
  replace (Nat.max lo (Z.to_nat (Z.of_nat k))) with k by lia. rewrite (drop_S _ _ _ Hm). reflexivity.
Qed.

Context (rr : bool) (Hund : undisturbed sqlite (App := App) rr) (Hread : forall t, sqlite AcquireRead t = None).

(** The system with session [j] and the client replaced. *)
Definition placed (j : nat) (w : ClientWorld App) (se : Session) (s : System App) : System App :=
  with_client w (with_session j se s).

Lemma placed_placed j w se w' se' s : placed j w' se' (placed j w se s) = placed j w' se' s.
Proof. unfold placed, with_client, with_session. cbn. by rewrite insert_insert_eq. Qed.

Lemma placed_finished j w se o w' s : with_finished j o w' (placed j w se s) = with_finished j o w' s.
Proof.
  unfold placed, with_client, with_session, with_finished. cbn. f_equal.
  apply map_eq. intros i. destruct (decide (i = j)) as [->|Hne].
  - by rewrite !lookup_partial_alter_eq.
  - by rewrite !lookup_partial_alter_ne, lookup_insert_ne by done.
Qed.

Lemma placed_lookup j w se s : sy_sessions (placed j w se s) !! j = Some se.
Proof. cbn. by rewrite lookup_insert_eq. Qed.

Lemma careful_silent (s s' : System App) : system_step db_ok nonce_of sqlite c s None s' ->
  careful_step db_ok nonce_of sqlite c s s'.
Proof. by exists None. Qed.

(** A step of session [j] that leaves the client alone. *)
Lemma placed_step j w se se' s :
  system_step db_ok nonce_of sqlite c (placed j w se s) None (with_session j se' (placed j w se s)) ->
  careful_step db_ok nonce_of sqlite c (placed j w se s) (placed j w se' s).
Proof. intros Hstep. apply careful_silent. by rewrite <- (placed_placed j w se w se'). Qed.

(** A new session after it has received one message and lost its connection. *)
Definition received (m : QueueMessage) : Session :=
  {| se_stream := None; se_wire := [Some (EventMessage (to_proto m))];
     se_processor := replace_responder 0 (processor_new None); se_responder := 0; se_batch := None |}.

Lemma receive_run r0 a0 hist lo ms k m s j : delivery c r0 (consumed_at r0 a0) hist lo ms k s -> ms !! k = Some m ->
  sy_sessions s !! j = None ->
  exists w, rtc (careful_step db_ok nonce_of sqlite c) s (placed j w (received m) s) /\
    cl_db w = cl_db (sy_client s) /\ cl_effects w = cl_effects (sy_client s).
Proof.
  intros Hd Hm Hj. pose proof (delivery_encrypted _ _ _ _ _ (consumed_tracking _ _ _ Hrel) _ _ _ _ _ Hd) as (Hen & Hlo & _).
  destruct (fetch_next_page _ _ _ _ _ _ _ (dl_coherent _ _ _ _ _ _ _ _ Hd) (proj1 Hlo) Hm)
    as (ctx & page & Hfetch & Hbuf & Hst).
  pose proof (dl_progress _ _ _ _ _ _ _ _ Hd) as [(r & Hr & Hpos) _].
  pose proof (position_seq _ _ _ _ _ Hen Hpos) as Hseq.
  set (w0 := with_db (cl_db (sy_client s)) (sy_client s)).
  assert (listen_queue sqlite w0 = (Ok (Z.of_nat k), tick (tick w0))) as Hlisten.
  { unfold listen_queue, mbind, M_bind. rewrite sql_up by apply Hread.
    erewrite ratchet_load_stands; [|apply Hrel|exact Hr]. cbn. by rewrite Hseq. }
  set (w := with_db (cl_db (sy_client s)) (tick (tick w0))). exists w. split; [|done].
  pose (se := session_listen c (Z.of_nat k) 0 session_new).
  eapply rtc_l; [apply careful_silent; eapply (step_listen _ _ _ _ s j (cl_db (sy_client s)) _ _ 0);
    [by rewrite Hj|unfold lagging; rewrite Hr; cbn; lia|exact Hlisten]|].
  rewrite Hj. cbn [default from_option]. change (rtc (careful_step db_ok nonce_of sqlite c)
    (placed j w se s) (placed j w (received m) s)).
  assert (forall se1 ctx1 se2, se_stream se1 = Some ctx1 ->
    session_turn ctx1 (qdb (sy_server s)) false true true se1 = se2 ->
    careful_step db_ok nonce_of sqlite c (placed j w se1 s) (placed j w se2 s)) as Hturn.
  { intros se1 ctx1 se2 Hs <-. apply placed_step.
    apply (step_turn _ _ _ _ (placed j w se1 s) j se1 ctx1); [apply placed_lookup|done]. }
  eapply rtc_l; [by eapply Hturn|]. eapply rtc_l; [eapply Hturn; [reflexivity|]|].
  { unfold session_turn, stream_turn. cbn [sc_buffer set_state stream_init sc_state andb].
    rewrite Hfetch, Hbuf. reflexivity. }
  eapply rtc_l; [eapply Hturn; [reflexivity|]|].
  { unfold session_turn, stream_turn. rewrite Hbuf. reflexivity. }
  eapply rtc_l; [|apply rtc_refl]. apply placed_step.
  refine (step_break _ _ _ _ _ j _ 1 (placed_lookup _ _ _ _)).
Qed.

(** A new session can receive and process the next message. *)
Lemma delivery_round r0 a0 hist lo ms k s : delivery c r0 (consumed_at r0 a0) hist lo ms k s ->
  (k < length hist)%nat -> exists s', rtc (careful_step db_ok nonce_of sqlite c) s s' /\
    delivery c r0 (consumed_at r0 a0) hist lo ms (S k) s'.
Proof.
  intros Hd Hk. pose proof (delivery_encrypted _ _ _ _ _ (consumed_tracking _ _ _ Hrel) _ _ _ _ _ Hd) as (Hen & Hlo & HkU).
  pose proof (encrypted_length _ _ _ Hen) as Hl. pose proof (en_bound _ _ _ Hen) as Hbd.
  destruct (lookup_lt_is_Some_2 ms k) as [m Hm]; [lia|].
  set (j := fresh (dom (sy_sessions s))).
  assert (sy_sessions s !! j = None) as Hj by (apply not_elem_of_dom, is_fresh).
  destruct (receive_run _ _ _ _ _ _ _ _ _ Hd Hm Hj) as (w & Hrun & Hdb & Heff).
  assert (from_proto (to_proto m) = Some m) as Hconv.
  { apply from_to_proto, (Forall_lookup_1 _ _ _ _ (dl_sealed _ _ _ _ _ _ _ _ Hd) Hm). }
  pose (se := session_collect FromDrain (received m)).
  assert (se_batch se = Some (batch_of FromDrain [m])) as Eb.
  { unfold se. cbn. by rewrite Hconv. }
  pose proof (process_one_up sqlite rr m processed_default w Hund) as Hgo.
  pose proof (dl_progress _ _ _ _ _ _ _ _ Hd) as Hc. rewrite <- Hdb in Hc.
  pose proof (process_one_spec sqlite rr _ _ _ _ _ _ _ processed_default w Hrel Hen Hc Hm ltac:(done)) as Hone.
  destruct (process_one sqlite rr m processed_default w) as [[go r] w'] eqn:Ep. cbn in Hgo. subst go.
  destruct Hone as [Heff' Hc']. replace (Nat.max k (S k)) with (S k) in Hc' by lia.
  pose (b := batch_next [] r (batch_of FromDrain [m])).
  destruct (session_finish b (set_processed (ba_idx b) (ba_result b)) (session_batch (Some b) se) w')
    as [o w''] eqn:Ef.
  exists (with_finished j o w'' s). split.
  - etransitivity; [exact Hrun|]. eapply rtc_l.
    { apply placed_step. refine (step_collect _ _ _ _ _ j _ FromDrain (placed_lookup _ _ _ _) _ _ _ _);
        [done|done|done|by right]. }
    fold se. eapply rtc_l.
    { apply careful_silent. refine (step_message _ _ _ _ _ j se _ rr m [] r w' (placed_lookup _ _ _ _) Eb _ _); [done|exact Ep]. }
    change (rtc (careful_step db_ok nonce_of sqlite c)
      (placed j w' (session_batch (Some b) se) (placed j w se s)) (with_finished j o w'' s)).
    rewrite placed_placed. eapply rtc_l; [apply careful_silent|apply rtc_refl].
    pose proof (step_done db_ok nonce_of sqlite c (placed j w' (session_batch (Some b) se) s) j _ b
      (placed_lookup _ _ _ _) eq_refl eq_refl) as Hdone.
    cbn [sy_client placed with_client] in Hdone. rewrite Ef in Hdone. cbv beta iota in Hdone.
    by rewrite <- (placed_finished j w' (session_batch (Some b) se)).
  - assert (session_ok c ms (S k) (session_batch (Some b) se)) as Hse.
    { exists (S k), (S k). split_and!; [|apply follows_on_nil|done]. split; [|done].
      split; [apply follows_on_nil| |done]. intros n [= <-]. cbn.
      rewrite (encrypted_seq _ _ _ _ _ Hen Hm). lia. }
    destruct (session_finish_ok _ _ (S k) _ b (set_processed (ba_idx b) (ba_result b)) _ _ _ ltac:(unfold U64; lia) Hse eq_refl eq_refl
      (or_introl eq_refl) Ef) as (Ho & Hdb'' & Hw).
    eapply delivery_alter; [exact Hd|by rewrite Hdb''|lia| |exact Ho].
    intros responder n Hin. apply Hw in Hin. rewrite Heff', Heff in Hin. done.
Qed.

Lemma delivery_complete r0 a0 hist lo ms k s : delivery c r0 (consumed_at r0 a0) hist lo ms k s ->
  exists s', rtc (careful_step db_ok nonce_of sqlite c) s s' /\
    delivery c r0 (consumed_at r0 a0) hist lo ms (length hist) s'.
Proof.
  intros Hd. assert (k <= length hist)%nat as Hk 
    by (eapply stands_le, (dl_progress _ _ _ _ _ _ _ _ Hd)).
  remember (length hist - k)%nat as n eqn:Hn. revert k s Hd Hk Hn.
  induction n as [|n IH]; intros k s Hd Hk Hn.
  - exists s. split; [done|]. by replace (length hist) with k by lia.
  - destruct (delivery_round _ _ _ _ _ _ _ Hd ltac:(lia)) as (s1 & Hrun & Hd1).
    destruct (IH _ _ Hd1 ltac:(lia) ltac:(lia)) as (s2 & Hrun2 & Hd2).
    exists s2. split; [by etransitivity|done].
Qed.

End Completion.

(** ** Properties *)

Section Properties.
Context (db_ok : nat -> bool) (nonce_of : nat -> Result RandomnessErr bytes).
Context (sqlite : ClientStatement -> nat -> option SqlxError).
Context `{Hkdf} `{Aes256GcmLaws} `{!TlsCodec bytes} `{!TlsCodec QsQueueMessagePayload}
  `{!TlsCodecLaws QsQueueMessagePayload}.
Context {App : Type} `{!ClientTypes} `{!ClientCodecs} `{!QsHandlers App}.
Context (c : Uuid).

(** A client without connections that has consumed what the server no longer
    holds. *)
Record at_rest r0 (a0 : App) hist lo ms (k : nat) (s : System App) : Prop := {
  ar_coherent : coherent (qdb (sy_server s)) c r0 hist lo ms;
  ar_sealed : sealed ms;
  ar_consumed : consumed r0 hist ms a0 k (cl_db (sy_client s));
  ar_retained : (lo <= k)%nat;
  ar_effects : cl_effects (sy_client s) = [];
  ar_sessions : sy_sessions s = ∅
}.

Lemma at_rest_delivery r0 a0 hist lo ms k s : at_rest r0 a0 hist lo ms k s ->
  delivery c r0 (consumed_at r0 a0) hist lo ms k s.
Proof.
  intros [Hco Hs Hc Hlo He Hse]. split; try done.
  - intros responder n. rewrite He. by intros ?%elem_of_nil.
  - intros j se. by rewrite Hse, lookup_empty.
Qed.

Lemma at_rest_attained r0 a0 hist lo ms k s : at_rest r0 a0 hist lo ms k s ->
  delivery c r0 (attained_at r0 a0) hist lo ms (length ms) s.
Proof.
  intros [Hco Hs Hc Hlo He Hse]. split; try done.
  - split; [done|]. exists (seq 0 k). by apply consumed_attained.
  - destruct Hc as [Hst%stands_le _].
    rewrite (encrypted_length _ _ _ (coherent_encrypted _ _ _ _ _ _ Hco)). lia.
  - intros responder n. rewrite He. by intros ?%elem_of_nil.
  - intros j se. by rewrite Hse, lookup_empty.
Qed.

End Properties.

(** C1. Delivery is exactly once and in order, as long as the statements on the
    ratchet's row and their commit succeed and no batch of the background handler stops
    early.  Whatever the server enqueues and acknowledges, however the sessions of the
    client are interleaved, whenever connections break and processes die, and whichever
    other statements fail: the client has handled exactly the first [k] payloads enqueued
    for it, each once and in order, its ratchet stands at [k], and the server still holds
    every message from [k] on. *)
Theorem delivery_exactly_once (db_ok : nat -> bool) (nonce_of : nat -> Result RandomnessErr bytes)
    (sqlite : ClientStatement -> nat -> option SqlxError)
    `{Hkdf} `{Aes256GcmLaws} `{!TlsCodec bytes} `{!TlsCodec QsQueueMessagePayload}
    `{!TlsCodecLaws QsQueueMessagePayload} {App : Type} `{!ClientTypes} `{!ClientCodecs}
    `{!QsHandlers App} (c : Uuid) r0 (a0 : App) hist0 lo0 ms0 k0 (s0 s : System App) :
  (forall n b, nonce_of n = Ok b -> length b = 12%nat) -> ratchet_reliable sqlite ->
  at_rest c r0 a0 hist0 lo0 ms0 k0 s0 -> rtc (careful_step db_ok nonce_of sqlite c) s0 s ->
  exists hist lo ms k, coherent (qdb (sy_server s)) c r0 (hist0 ++ hist) lo ms /\
    consumed r0 (hist0 ++ hist) ms a0 k (cl_db (sy_client s)) /\ (k0 <= k)%nat /\ (lo <= k)%nat.
Proof.
  intros Hn Hrel Hrest%at_rest_delivery Hrun.
  destruct (delivery_run _ _ _ _ Hn _ _ _ (consumed_tracking _ _ _ Hrel) _ _ _ _ _ _ Hrun Hrest)
    as (hist & lo & ms & k & Hd & Hk).
  exists hist, lo, (ms0 ++ ms), k. split_and!; [apply Hd|apply Hd|done|apply Hd].
Qed.

(** C35. Delivery is at most once and in order, whatever fails: in every run, with any
    statement failing at any time, connections breaking, processes dying and batches of
    the background handler stopping early, the client has handled the payloads at an
    increasing list of positions of what was enqueued for it, hence none of them twice
    and none before an earlier one, and all of them lie behind its ratchet. *)
Theorem delivery_at_most_once (db_ok : nat -> bool) (nonce_of : nat -> Result RandomnessErr bytes)
    (sqlite : ClientStatement -> nat -> option SqlxError)
    `{Hkdf} `{Aes256GcmLaws} `{!TlsCodec bytes} `{!TlsCodec QsQueueMessagePayload}
    `{!TlsCodecLaws QsQueueMessagePayload} {App : Type} `{!ClientTypes} `{!ClientCodecs}
    `{!QsHandlers App} (c : Uuid) r0 (a0 : App) hist0 lo0 ms0 k0 (s0 s : System App) :
  (forall n b, nonce_of n = Ok b -> length b = 12%nat) ->
  at_rest c r0 a0 hist0 lo0 ms0 k0 s0 -> rtc (any_step db_ok nonce_of sqlite c) s0 s ->
  exists hist lo ms js, coherent (qdb (sy_server s)) c r0 (hist0 ++ hist) lo ms /\
    attained r0 (hist0 ++ hist) ms a0 js (cl_db (sy_client s)).
Proof.
  intros Hn Hrest%at_rest_attained Hrun.
  assert (rtc (fun s s' => exists l, system_step db_ok nonce_of sqlite c s l s' /\ True) s0 s) as Hrun'.
  { eapply rtc_subrel; [|exact Hrun]. intros x y [l Hl]. by exists l. }
  destruct (delivery_run _ _ _ _ Hn _ _ _ (attained_tracking _ _ _) _ _ _ _ _ _ Hrun' Hrest)
    as (hist & lo & ms & k & Hd & Hk).
  destruct (dl_progress _ _ _ _ _ _ _ _ Hd) as [_ [js Hj]].
  exists hist, lo, (ms0 ++ ms), js. split; [apply Hd|done].
Qed.

(** C29. The client is never stuck: from every state that can be reached while nothing
    stops the processing, it can go on to handle everything that was enqueued for
    it. *)
Theorem delivery_completes (db_ok : nat -> bool) (nonce_of : nat -> Result RandomnessErr bytes)
    (sqlite : ClientStatement -> nat -> option SqlxError)
    `{Hkdf} `{Aes256GcmLaws} `{!TlsCodec bytes} `{!TlsCodec QsQueueMessagePayload}
    `{!TlsCodecLaws QsQueueMessagePayload} {App : Type} `{!ClientTypes} `{!ClientCodecs}
    `{!QsHandlers App} (c : Uuid) (rr : bool) r0 (a0 : App) hist0 lo0 ms0 k0 (s0 s : System App) :
  (forall n b, nonce_of n = Ok b -> length b = 12%nat) -> ratchet_reliable sqlite ->
  undisturbed sqlite (App := App) rr -> (forall t, sqlite AcquireRead t = None) ->
  at_rest c r0 a0 hist0 lo0 ms0 k0 s0 -> rtc (careful_step db_ok nonce_of sqlite c) s0 s ->
  exists hist lo ms s', coherent (qdb (sy_server s)) c r0 hist lo ms /\
    rtc (careful_step db_ok nonce_of sqlite c) s s' /\
    consumed r0 hist ms a0 (length hist) (cl_db (sy_client s')).
Proof.
  intros Hn Hrel Hu Hread Hrest%at_rest_delivery Hrun.
  destruct (delivery_run _ _ _ _ Hn _ _ _ (consumed_tracking _ _ _ Hrel) _ _ _ _ _ _ Hrun Hrest) as (hist & lo & ms & k & Hd & _).
  destruct (delivery_complete db_ok nonce_of sqlite c Hrel rr Hu Hread _ _ _ _ _ _ _ Hd) as (s' & Hrun' & Hd').
  exists (hist0 ++ hist), lo, (ms0 ++ ms), s'. split_and!; [apply Hd|done|apply Hd'].
Qed.

(** C39. The background handler acknowledges messages that it did not process.  When
    the processing of the fetched messages stops early, the acknowledgement covers
    all of them; once the server has served it, the first message that was not
    processed is gone from the queue. *)
Theorem background_ack_overtakes (sqlite : ClientStatement -> nat -> option SqlxError)
    (db_ok : nat -> bool) `{Hkdf} `{Aes256GcmLaws} `{!TlsCodec bytes} `{!TlsCodec QsQueueMessagePayload}
    `{!TlsCodecLaws QsQueueMessagePayload} {App : Type} `{!ClientTypes} `{!ClientCodecs}
    `{!QsHandlers App} (c : Uuid) (rr : bool) responder events (w : ClientWorld App) r0 (a0 : App)
    hist lo ms k n (x : QsWorld) :
  ratchet_reliable sqlite -> coherent (qdb x) c r0 hist lo ms -> consumed r0 hist ms a0 k (cl_db w) ->
  numbered ms (collect events) (seq k n) ->
  let '(result, w') := fetch_and_process_qs_messages sqlite rr responder events w in
  (processed result < n)%nat ->
  exists i, (i < n)%nat /\ consumed r0 hist ms a0 (k + i) (cl_db w') /\
    SendAck responder (Z.of_nat (k + n)) ∈ cl_effects w' /\
    forall x', ack db_ok c (Z.of_nat (k + n)) x = (Ok tt, x') ->
      qs_queues (qdb x') !! (c, Z.of_nat (k + i)) = None.
Proof.
  intros Hrel Hco Hc Hn. pose proof (coherent_encrypted _ _ _ _ _ _ Hco) as Hen.
  pose proof (en_bound _ _ _ Hen). pose proof (encrypted_length _ _ _ Hen).
  unfold fetch_and_process_qs_messages, fully_process_qs_messages, finish_background.
  pose proof (process_from_consecutive sqlite rr _ _ _ _ _ _ Hrel Hen k 0 processed_default w Hn Hc) as Hp.
  destruct (process_from _ _ _ _ _ _) as [r w']. destruct Hp as (i & Hi & Hc'). intros Hlt.
  cbn in Hi. rewrite Hi in Hlt. exists i.
  assert (exists m, last (collect events) = Some m /\ ms !! (k + pred n)%nat = Some m) as (m & Hlast & Hm).
  { rewrite last_lookup, (Forall2_length _ _ _ Hn), length_seq.
    destruct (Forall2_lookup_r _ _ _ (pred n) (k + pred n)%nat Hn) as (m & ? & ?);
      [by apply lookup_seq_lt; lia|by exists m]. }
  pose proof (lookup_lt_Some _ _ _ Hm). unfold max_sequence_number. rewrite Hlast. cbn.
  rewrite (encrypted_seq _ _ _ _ _ Hen Hm), wrap_u64_small by (unfold U64; lia).
  split_and!; [done|done| |].
  - rewrite !elem_of_app. left. right. apply list_elem_of_singleton. f_equal. lia.
  - intros x' Hack. unfold ack, queue_delete, mbind, M_bind in Hack.
    destruct (statement db_ok EnqueueStorage x) as [[[]|e] w1]; [|discriminate].
    injection Hack as <-. cbn. apply map_lookup_filter_None. right. intros y _. cbn.
    rewrite as_i64_small by lia. intros Hno. apply Hno. split; [done|lia].
Qed.
