(* ===== verification/ClientExample.v ===== *)
(** * The client's side of the queue, evaluated

    A client whose messages are byte strings and whose handlers log them, a queue
    with two messages, and the properties of the client at that instance. *)

From S2P Require Import Prelude Aead Ratchet Messages ClientBase Qs QsCorrect ClientQueue ClientQueueCorrect ClientDelivery ClientDeliveryCorrect.

Module ToyClient.
Import Toy.

#[export] Instance toy_types : ClientTypes := {|
  WelcomeBundleIn := bytes; ApqWelcomeBundleIn := bytes; MlsMessageIn := bytes;
  ApqMlsMessageIn := bytes; UserProfileKeyUpdateParams := bytes; CommitResponse := bytes;
  ChatMessage := bytes; ReactionNotification := unit
|}.

#[export] Instance toy_targeted : TlsCodec QsQueueTargetedMessage := {|
  tls_serialize_detached := fun t => match t with TargetedApplicationMessage m => Some m end;
  tls_deserialize_exact_bytes := fun bs => Some (TargetedApplicationMessage bs)
|}.

#[export] Instance toy_codecs : ClientCodecs := {|
  welcome_in_tls := tls; apq_welcome_in_tls := tls; mls_message_in_tls := tls;
  apq_message_in_tls := tls; profile_key_update_tls := tls; targeted_tls := toy_targeted;
  commit_response_tls := tls
|}.

(** Logs the message and notifies about it. *)
Definition log (m : bytes) : M (HandlerState (list bytes)) AnyhowError ProcessQsMessageResult := fun s =>
  (Ok (ResultMessages [m] []),
   {| hs_app := hs_app s ++ [m];
      hs_notifier := notifier_op OpAdd (EntityMessage (Z.of_nat (length (hs_app s)))) (hs_notifier s);
      hs_clock := hs_clock s |}).

#[export] Instance toy_handlers : QsHandlers (list bytes) := {|
  handle_welcome_bundle := fun m _ => log m;
  handle_apq_welcome_bundle := fun m _ => log m;
  handle_mls_message := fun m _ _ => log m;
  handle_apq_mls_message := fun m _ _ => log m;
  handle_user_profile_key_update := log;
  handle_targeted_application_message := fun m _ => log m;
  handle_commit_response := log
|}.

(** SQLite without failures, with failing commits, and with a failure to begin the
    transaction of the second message. *)
Definition calm (_ : ClientStatement) (_ : nat) : option SqlxError := None.
Definition no_commit (s : ClientStatement) (_ : nat) : option SqlxError :=
  match s with CommitRatchet => Some SqlxDatabase | _ => None end.
Definition second_begin (s : ClientStatement) (t : nat) : option SqlxError :=
  match s with BeginImmediate => if decide (t = 8)%nat then Some SqlxDatabase else None | _ => None end.

End ToyClient.

Section Evaluate_client.
Import Toy ToyKdf ToyQs ToyClient.

(** The two messages of the history and the ratchets after them. *)
Definition sent (n : nat) (r : QueueRatchet) : QueueMessage * QueueRatchet :=
  match ratchet_encrypt hello (nonces12 n) r with
  | (Ok m, r') => (m, r')
  | (Err _, r') => ({| qm_sequence_number := 0; qm_ciphertext := {| ciphertext := []; nonce := [] |} |}, r')
  end.
Definition sent0 : QueueMessage := (sent 0 ratchet0).1.
Definition ratchet1 : QueueRatchet := (sent 0 ratchet0).2.
Definition sent1 : QueueMessage := (sent 1 ratchet1).1.
Definition ratchet2 : QueueRatchet := (sent 1 ratchet1).2.
Definition history2 : History := [(hello, nonces12 0); (hello, nonces12 1)].

Definition blobs (r : QueueRatchet) : ClientBlobs :=
  {| owner_public_key := []; owner_signature_key := []; row_ratchet := r |}.
Definition queue1 : QsDb := db_enqueued (qdb world0) 1 client_row (blobs ratchet0) sent0 ratchet1.
Definition queue2 : QsDb :=
  db_enqueued queue1 1 (with_ratchet client_row (blobs ratchet0) ratchet1) (blobs ratchet1) sent1 ratchet2.

Lemma coherent2 : coherent queue2 1 ratchet0 history2 0 [sent0; sent1].
Proof.
  apply (coherent_enqueue _ 1 ratchet0 [(hello, nonces12 0)] 0 [sent0] _ _ hello (nonces12 1) sent1);
    [|done|reflexivity|cbn; lia].
  apply (coherent_enqueue _ 1 ratchet0 [] 0 [] _ _ hello (nonces12 0) sent0);
    [apply coherent0; by left|done|reflexivity|cbn; lia].
Qed.

(** A client that has not received anything. *)
Definition client0 : ClientWorld (list bytes) :=
  {| cl_db := {| queue_ratchet := Some {| rr_queue_ratchet := ratchet0; rr_sequence_number := 0 |}; app := [] |};
     cl_notifier := ∅; cl_sent := []; cl_clock := 0; cl_effects := [] |}.

Lemma consumed0 hist ms : consumed ratchet0 hist ms [] 0 (cl_db client0).
Proof.
  split; [|constructor]. exists ratchet0. split; [done|]. split; [lia|]. by rewrite !take_0.
Qed.

Lemma encrypted2 : encrypted ratchet0 history2 [sent0; sent1].
Proof. eapply coherent_encrypted, coherent2. Qed.

Lemma toy_undisturbed sqlite : (forall s, s = CommitRatchet \/ forall t, sqlite s t = None) ->
  undisturbed (App := list bytes) sqlite false.
Proof.
  intros Hs. split; [intros n; match goal with |- sqlite ?s _ = _ => by destruct (Hs s) end..|]. intros [t p] s e s'.
  destruct p as [m|m|m|m|m|[m]|m]; cbn; discriminate.
Qed.

(** The events of a stream with both messages. *)
Definition events2 : list (option ListenEvent) :=
  [Some (EventMessage (to_proto sent0)); Some (EventMessage (to_proto sent1)); Some EventEmpty].

(** Streamed and processed, the two messages are handled in order, acknowledged
    and notified one by one. *)
Example stream_evaluates :
  let '(_, p, w) := process_event calm false (processor_new (Some 3%nat)) (events2 !! 0%nat ≫= id) client0 in
  let '(_, p, w) := process_event calm false p (events2 !! 1%nat ≫= id) w in
  let '(r, p, w) := process_event calm false p (Some EventEmpty) w in
  event_processed r = 2%nat /\ sp_messages p = [] /\ app (cl_db w) = [payload hello; payload hello] /\
  length (cl_sent w) = 2%nat /\
  cl_effects w = [OutboundStop; OutboundStop; SendAck 3 2; OutboundStart].
Proof. vm_compute. repeat split. Qed.

Lemma decrypt_exact_witness :
  let '(res, w') := decrypt_qs_queue_message calm sent1 client0 in
  res = Ok (Some hello) /\ (decrypt_qs_queue_message calm sent0 w').1 = Ok None.
Proof.
  pose proof (decrypt_exact calm client0 ratchet0 history2 [sent0; sent1] 0 1 sent1
    ltac:(split; reflexivity) encrypted2 (proj1 (consumed0 _ _)) eq_refl) as Hd.
  destruct (decrypt_qs_queue_message calm sent1 client0) as [res w'].
  destruct Hd as (p & rnd & Hh & -> & _ & _ & Hold). injection Hh as <- <-. split; [reflexivity|].
  apply (Hold 0%nat); [lia|reflexivity].
Defined.

Lemma ratchet_failure_acked_witness :
  let '(_, _, w') := process_event no_commit false
    {| sp_responder := Some 3%nat; sp_messages := [sent0] |} (Some EventEmpty) client0 in
  app (cl_db w') = [] /\ SendAck 3 1 ∈ cl_effects w'.
Proof.
  pose proof (ratchet_failure_acked no_commit false {| sp_responder := Some 3%nat; sp_messages := [sent0] |}
    client0 CommitRatchet 3 sent0 (toy_undisturbed no_commit ltac:(intros []; auto))
    (or_intror (or_intror eq_refl)) ltac:(discriminate) eq_refl eq_refl) as Hf.
  destruct (process_event _ _ _ _ _) as [[r p] w']. destruct Hf as (_ & -> & Ha). split; [reflexivity|exact Ha].
Defined.

Lemma background_ack_overtakes_witness : exists i, (i < 2)%nat /\
  let w' := (fetch_and_process_qs_messages second_begin false 3 events2 client0).2 in
  consumed ratchet0 history2 [sent0; sent1] [] i (cl_db w') /\ SendAck 3 2 ∈ cl_effects w' /\
  qs_queues (qdb (ack up 1 2 (set_db queue2 world0)).2) !! (1, Z.of_nat i) = None.
Proof.
  pose proof (background_ack_overtakes second_begin up 1 false 3 events2 client0 ratchet0 [] history2 0
    [sent0; sent1] 0 2 (set_db queue2 world0) ltac:(split; reflexivity) coherent2 (consumed0 _ _)
    ltac:(repeat constructor)) as Hb.
  destruct (fetch_and_process_qs_messages second_begin false 3 events2 client0) as [r w'] eqn:Ef.
  destruct Hb as (i & Hi & Hc & Ha & Hgone).
  { apply (f_equal (fun x => processed x.1)) in Ef. cbn [fst] in Ef. rewrite <- Ef.
    apply Nat.ltb_lt. vm_compute. reflexivity. }
  exists i. cbn [snd]. split_and!; [exact Hi|exact Hc|exact Ha|]. by apply Hgone.
Defined.

(** A system in which one message has been enqueued. *)
Definition system0 : System (list bytes) :=
  {| sy_server := world0; sy_client := client0; sy_sessions := ∅ |}.
Definition system1 : System (list bytes) :=
  with_server (do_enqueue up nonces12 1 hello world0).2 system0.

Lemma at_rest0 : at_rest 1 ratchet0 [] [] 0 [] 0 system0.
Proof.
  split; [apply coherent0; by left|constructor|apply consumed0|done|done|done].
Qed.

Lemma run_system1 sqlite : rtc (careful_step up nonces12 sqlite 1) system0 system1.
Proof.
  eapply rtc_l; [|apply rtc_refl]. exists None. split; [|done].
  apply (step_enqueue _ _ _ _ system0 1 hello (do_enqueue up nonces12 1 hello world0).1);
    [apply surjective_pairing|].
  intros row b (Hr & _ & Hb). vm_compute in Hr. injection Hr as <-. injection Hb as <-.
  vm_compute. reflexivity.
Qed.

Lemma nonces12_length n b : nonces12 n = Ok b -> length b = 12%nat.
Proof. by intros [= <-]. Qed.

Lemma delivery_exactly_once_witness : exists hist lo ms k,
  coherent (qdb (sy_server system1)) 1 ratchet0 hist lo ms /\
  consumed ratchet0 hist ms [] k (cl_db (sy_client system1)) /\ (lo <= k)%nat.
Proof.
  destruct (delivery_exactly_once up nonces12 calm 1 ratchet0 [] [] 0 [] 0 system0 system1
    nonces12_length ltac:(split; reflexivity) at_rest0 (run_system1 calm))
    as (hist & lo & ms & k & Hco & Hc & _ & Hlo).
  exists hist, lo, ms, k. split_and!; assumption.
Defined.

(** A database whose statements all fail. *)
Definition broken : ClientStatement -> nat -> option SqlxError := fun _ _ => Some SqlxRowNotFound.

Lemma delivery_at_most_once_witness : exists hist lo ms js,
  coherent (qdb (sy_server system1)) 1 ratchet0 hist lo ms /\
  attained ratchet0 hist ms [] js (cl_db (sy_client system1)).
Proof.
  assert (rtc (any_step up nonces12 broken 1) system0 system1) as Hrun.
  { eapply rtc_subrel; [|apply (run_system1 broken)]. intros x y (l & Hl & _). by exists l. }
  exact (delivery_at_most_once up nonces12 broken 1 ratchet0 [] [] 0 [] 0 system0 system1
    nonces12_length at_rest0 Hrun).
Defined.

Lemma delivery_completes_witness : exists hist lo ms s',
  coherent (qdb (sy_server system1)) 1 ratchet0 hist lo ms /\
  rtc (careful_step up nonces12 calm 1) system1 s' /\
  consumed ratchet0 hist ms [] (length hist) (cl_db (sy_client s')).
Proof.
  exact (delivery_completes up nonces12 calm 1 false ratchet0 [] [] 0 [] 0 system0 system1
    nonces12_length ltac:(split; reflexivity) (toy_undisturbed calm ltac:(intros []; auto))
    ltac:(reflexivity) at_rest0 (run_system1 calm)).
Defined.

End Evaluate_client.
