(* ===== verification/ClientStream.v ===== *)
(** * The task that keeps a stream open ([applogic/src/util])

    The state machine of [BackgroundStreamTask] with its Fibonacci backoff, which
    opens the queue stream of a client, hands its events to the context, and
    reopens it after it ended.  Time is in seconds; indexing the table of backoffs
    is partial. *)

From S2P Require Import Prelude.

(** ** The backoff ([fibonacci_backoff.rs]) *)

Definition FIBONACCI : list Z :=
  [1; 2; 3; 5; 8; 13; 21; 34; 55; 89; 144; 233; 377; 610; 987; 1597].
Definition BACKOFFS_LEN : nat := 9.
Definition BACKOFFS_EXTENDED_LEN : nat := length FIBONACCI.

Record FibonacciBackoff := { current_idx : nat; is_extended : bool }.

(** [new] and [reset], [new_extended] and [reset_extended]. *)
Definition backoff_new : FibonacciBackoff := {| current_idx := 0; is_extended := false |}.
Definition backoff_new_extended : FibonacciBackoff := {| current_idx := 0; is_extended := true |}.

(** [FibonacciBackoff::len]. *)
Definition backoff_len (self : FibonacciBackoff) : nat :=
  if is_extended self then BACKOFFS_EXTENDED_LEN else BACKOFFS_LEN.

(** [FibonacciBackoff::next_backoff]: [None] when the index is out of bounds. *)
Definition next_backoff (self : FibonacciBackoff) : option (Z * FibonacciBackoff) :=
  backoff ← FIBONACCI !! current_idx self;
  Some (backoff,
        if decide (current_idx self + 1 < backoff_len self)%nat
        then {| current_idx := current_idx self + 1; is_extended := is_extended self |}
        else self).

(** ** The task ([background.rs]) *)

Definition DEFAULT_REGULAR_STOP_TIMEOUT : Z := 30 * 60 * 60.

(** [State]; the stream itself belongs to the context. *)
Inductive TaskState :=
| TaskInitial
| TaskRunning (started_at : Z)
| TaskStopped (started_at : Z)
| TaskBackoff (error : bool) (timeout : Z)
| TaskFinished.

Record BackgroundStreamTask := {
  bt_backoff : FibonacciBackoff;
  bt_regular_stop_timeout : Z;
  bt_state : TaskState
}.

(** [BackgroundStreamTask::new]. *)
Definition task_new : BackgroundStreamTask :=
  {| bt_backoff := backoff_new; bt_regular_stop_timeout := DEFAULT_REGULAR_STOP_TIMEOUT;
     bt_state := TaskInitial |}.

(** [NextEvent]; an event comes with what [handle_event] answers. *)
Inductive NextEvent :=
| NextEventSome (handled : bool)
| NextEventNone
| NextCancelled
| NextInBackground.

(** What a step finds: the cancellation token, the outcome of [create_stream], the
    event that is selected, and the time. *)
Record StepInput := {
  in_cancelled : bool;
  in_create_stream : bool;
  in_event : NextEvent;
  in_now : Z
}.

(** [BackgroundStreamTask::step]: [None] when it panics. *)
Definition task_step (self : BackgroundStreamTask) (i : StepInput) : option BackgroundStreamTask :=
  let become b s := Some {| bt_backoff := b; bt_regular_stop_timeout := bt_regular_stop_timeout self;
                            bt_state := s |} in
  match bt_state self with
  | TaskFinished => Some self
  | s =>
      if in_cancelled i then become (bt_backoff self) TaskFinished
      else
        match s with
        | TaskInitial =>
            if in_create_stream i then become backoff_new (TaskRunning (in_now i))
            else '(timeout, b) ← next_backoff (bt_backoff self); become b (TaskBackoff true timeout)
        | TaskRunning started_at =>
            match in_event i with
            | NextEventSome true => become backoff_new (TaskRunning started_at)
            | NextEventSome false | NextEventNone => become (bt_backoff self) (TaskStopped started_at)
            | NextInBackground => become (bt_backoff self) TaskInitial
            | NextCancelled => become (bt_backoff self) TaskFinished
            end
        | TaskStopped started_at =>
            if decide (in_now i - started_at >= bt_regular_stop_timeout self) then
              become backoff_new TaskInitial
            else '(timeout, b) ← next_backoff (bt_backoff self); become b (TaskBackoff false timeout)
        | TaskBackoff _ _ => become (bt_backoff self) TaskInitial
        | TaskFinished => Some self
        end
  end.

(** [BackgroundStreamTask::spawn], over the inputs of its steps. *)
Fixpoint task_run (self : BackgroundStreamTask) (inputs : list StepInput) : option BackgroundStreamTask :=
  match inputs with
  | [] => Some self
  | i :: inputs =>
      match bt_state self with
      | TaskFinished => Some self
      | _ => self ← task_step self i; task_run self inputs
      end
  end.

(** ** Lemmas *)

(** The backoff is never extended and stays in its table; a stream that is or was
    running leaves it reset. *)
Definition task_ok (t : BackgroundStreamTask) : Prop :=
  is_extended (bt_backoff t) = false /\ (current_idx (bt_backoff t) < BACKOFFS_LEN)%nat /\
  match bt_state t with
  | TaskRunning _ | TaskStopped _ => bt_backoff t = backoff_new
  | TaskBackoff _ timeout => 1 <= timeout <= 55
  | _ => True
  end.

Lemma next_backoff_ok b : is_extended b = false -> (current_idx b < BACKOFFS_LEN)%nat ->
  exists timeout b', next_backoff b = Some (timeout, b') /\ 1 <= timeout <= 55 /\
    is_extended b' = false /\ (current_idx b' < BACKOFFS_LEN)%nat.
Proof.
  intros He Hi. destruct b as [i e]. cbn in *. subst e. unfold next_backoff, BACKOFFS_LEN in *. cbn.
  do 9 (destruct i as [|i]; [eexists _, _; split; [reflexivity|]; case_decide; cbn; split_and!; (done || lia)|]).
  lia.
Qed.

Lemma task_step_ok t i : task_ok t -> exists t', task_step t i = Some t' /\ task_ok t'.
Proof.
  intros (He & Hi & Hs). destruct (next_backoff_ok _ He Hi) as (timeout & b & Hb & Ht & He' & Hi').
  unfold task_step. destruct (bt_state t) as [|at_|at_|error to|] eqn:Es;
    destruct (in_cancelled i) eqn:Ec;
    try (eexists; split; [reflexivity|]; unfold task_ok; cbn; rewrite ?Es; by split_and!).
  - destruct (in_create_stream i).
    + eexists. split; [reflexivity|]. unfold task_ok, BACKOFFS_LEN. cbn. split_and!; (done || lia).
    + rewrite Hb. cbn. eexists. split; [reflexivity|]. by split_and!.
  - destruct (in_event i) as [[]| | |]; (eexists; split; [reflexivity|]); unfold task_ok; cbn;
      unfold BACKOFFS_LEN in *; split_and!; (done || lia).
  - destruct (decide _).
    + eexists. split; [reflexivity|]. unfold task_ok, BACKOFFS_LEN. cbn. split_and!; (done || lia).
    + rewrite Hb. cbn. eexists. split; [reflexivity|]. by split_and!.
Qed.

Lemma task_run_ok t inputs : task_ok t -> exists t', task_run t inputs = Some t' /\ task_ok t'.
Proof.
  revert t; induction inputs as [|i inputs IH]; intros t Ht; cbn; [by exists t|].
  destruct (task_step_ok t i Ht) as (t1 & E1 & H1). rewrite E1. cbn.
  destruct (bt_state t); try (by apply IH). by exists t.
Qed.

Lemma task_new_ok : task_ok task_new.
Proof. unfold task_ok, BACKOFFS_LEN. cbn. split_and!; (done || lia). Qed.

Lemma task_step_finished t i t' : task_step t i = Some t' -> bt_state t <> TaskFinished ->
  bt_state t' = TaskFinished -> in_cancelled i = true \/ in_event i = NextCancelled.
Proof.
  intros Hs Hne Hf. unfold task_step in Hs. destruct (in_cancelled i) eqn:Ec; [by left|right].
  destruct (bt_state t) as [|at_|at_|error to|]; [| | | |done].
  - destruct (in_create_stream i); [by injection Hs as <-|].
    destruct (next_backoff _) as [[]|]; [by injection Hs as <-|done].
  - destruct (in_event i) as [[]| | |]; [by injection Hs as <-..|done|by injection Hs as <-].
  - destruct (decide _); [by injection Hs as <-|].
    destruct (next_backoff _) as [[]|]; [by injection Hs as <-|done].
  - by injection Hs as <-.
Qed.

Lemma task_run_finished inputs t t' : task_run t inputs = Some t' -> bt_state t <> TaskFinished ->
  bt_state t' = TaskFinished ->
  exists i, i ∈ inputs /\ (in_cancelled i = true \/ in_event i = NextCancelled).
Proof.
  revert t; induction inputs as [|i inputs IH]; intros t Hrun Hne Hf; cbn in Hrun.
  { by injection Hrun as ->. }
  destruct (task_step t i) as [t1|] eqn:E1; [|by destruct (bt_state t)].
  assert (task_run t1 inputs = Some t') as Hrun1 by (by destruct (bt_state t)).
  assert (bt_state t1 = TaskFinished \/ bt_state t1 <> TaskFinished) as [Hf1|Hne1]
    by (destruct (bt_state t1); auto).
  - exists i. split; [by left|]. by eapply task_step_finished.
  - destruct (IH _ Hrun1 Hne1 Hf) as (i' & Hi & Hc). exists i'. split; [by right|done].
Qed.

(** Stopping, backing off and starting again. *)
Lemma task_step_initial t i : bt_state t = TaskInitial -> in_cancelled i = false ->
  in_create_stream i = true -> exists t', task_step t i = Some t' /\ bt_state t' = TaskRunning (in_now i).
Proof. intros Es Ec Eo. unfold task_step. rewrite Es, Ec, Eo. by eexists. Qed.

Lemma task_step_backoff t error timeout i : bt_state t = TaskBackoff error timeout ->
  in_cancelled i = false -> exists t', task_step t i = Some t' /\ bt_state t' = TaskInitial.
Proof. intros Es Ec. unfold task_step. rewrite Es, Ec. by eexists. Qed.

(** A stream that stopped is retried after one second, or at once when it had run
    for long. *)
Lemma task_step_stopped t started_at i : task_ok t -> bt_state t = TaskStopped started_at ->
  in_cancelled i = false -> exists t', task_step t i = Some t' /\
    (bt_state t' = TaskInitial \/ bt_state t' = TaskBackoff false 1).
Proof.
  intros (_ & _ & Hs) Es Ec. unfold task_step. rewrite Es in *. rewrite Ec, Hs.
  destruct (decide _); eexists; (split; [reflexivity|]); auto.
Qed.

(** A run of one more step. *)
Lemma task_run_step t i t1 inputs : task_step t i = Some t1 -> bt_state t <> TaskFinished ->
  task_run t (i :: inputs) = task_run t1 inputs.
Proof. intros E Hne. cbn. rewrite E. by destruct (bt_state t). Qed.

(** ** Properties *)

(** C33. However the stream behaves, the task does not index outside its table of
    backoffs and never sleeps longer than 55 seconds; it ends only when it is
    cancelled; and whenever it has not ended and no stream is running, at most
    three steps without cancellation in which a stream can be created lead to a
    running stream. *)
Theorem stream_task_restarts (inputs : list StepInput) :
  exists t, task_run task_new inputs = Some t /\
  (forall error timeout, bt_state t = TaskBackoff error timeout -> 1 <= timeout <= 55) /\
  (bt_state t = TaskFinished ->
     exists i, i ∈ inputs /\ (in_cancelled i = true \/ in_event i = NextCancelled)) /\
  (bt_state t <> TaskFinished -> (forall started_at, bt_state t <> TaskRunning started_at) ->
   forall i1 i2 i3, Forall (fun i => in_cancelled i = false /\ in_create_stream i = true) [i1; i2; i3] ->
   exists n t' started_at, (n <= 3)%nat /\ task_run t (take n [i1; i2; i3]) = Some t' /\
     bt_state t' = TaskRunning started_at).
Proof.
  destruct (task_run_ok _ inputs task_new_ok) as (t & Hrun & Hok). exists t. split; [done|].
  split_and!.
  - intros error timeout Es. destruct Hok as (_ & _ & Hs). by rewrite Es in Hs.
  - by apply (task_run_finished _ _ _ Hrun).
  - intros Hne Hnr i1 i2 i3 Hi. rewrite !Forall_cons in Hi.
    destruct Hi as ((C1 & O1) & (C2 & O2) & (C3 & O3) & _).
    destruct (bt_state t) as [|at_|at_|error to|] eqn:Es; [|by destruct (Hnr at_)| | |done].
    + destruct (task_step_initial t i1 Es C1 O1) as (t1 & E1 & R1). exists 1%nat, t1, (in_now i1).
      split_and!; [lia| |done]. cbn [take]. rewrite (task_run_step _ _ _ _ E1); [done|by rewrite Es].
    + destruct (task_step_stopped t at_ i1 Hok Es C1) as (t1 & E1 & [R1|R1]).
      * destruct (task_step_initial t1 i2 R1 C2 O2) as (t2 & E2 & R2). exists 2%nat, t2, (in_now i2).
        split_and!; [lia| |done]. cbn [take]. rewrite (task_run_step _ _ _ _ E1) by (by rewrite Es).
        by rewrite (task_run_step _ _ _ _ E2) by (by rewrite R1).
      * destruct (task_step_backoff t1 _ _ i2 R1 C2) as (t2 & E2 & R2).
        destruct (task_step_initial t2 i3 R2 C3 O3) as (t3 & E3 & R3). exists 3%nat, t3, (in_now i3).
        split_and!; [lia| |done]. cbn [take]. rewrite (task_run_step _ _ _ _ E1) by (by rewrite Es).
        rewrite (task_run_step _ _ _ _ E2) by (by rewrite R1).
        by rewrite (task_run_step _ _ _ _ E3) by (by rewrite R2).
    + destruct (task_step_backoff t _ _ i1 Es C1) as (t1 & E1 & R1).
      destruct (task_step_initial t1 i2 R1 C2 O2) as (t2 & E2 & R2). exists 2%nat, t2, (in_now i2).
      split_and!; [lia| |done]. cbn [take]. rewrite (task_run_step _ _ _ _ E1) by (by rewrite Es).
      by rewrite (task_run_step _ _ _ _ E2) by (by rewrite R1).
Qed.
