(* ===== verification/OutboundTask.v ===== *)
(** * The background task of the outbound service
      ([coreclient/src/outbound_service/mod.rs])

    The calls of the service ([start], [stop], [notify_work]) share a watch cell with
    the background task.  The cell holds a run token: a pair of cancellation tokens,
    one to stop the work and one on which the callers wait.  Tokens are addresses in a
    store, since the cell, the task and the waiters share them.  The task is a state
    machine; calls and its steps interleave in any order. *)

From S2P Require Import Prelude.

(** ** Cancellation tokens *)

(** The store has one flag for each token that was created: whether it was cancelled. *)
Abbreviation TokenStore := (list bool).

Definition token_is_cancelled (ts : TokenStore) (t : nat) : bool := default false (ts !! t).

(** [CancellationToken::new]. *)
Definition token_new (ts : TokenStore) : nat * TokenStore := (length ts, ts ++ [false]).

(** [CancellationToken::cancel]. *)
Definition token_cancel (t : nat) (ts : TokenStore) : TokenStore := <[t := true]> ts.

(** ** Run tokens *)

Record RunToken := { rt_cancel : nat; rt_done : nat }.

(** [RunToken::new]. *)
Definition run_token_new (ts : TokenStore) : RunToken * TokenStore :=
  let '(c, ts1) := token_new ts in
  let '(d, ts2) := token_new ts1 in
  ({| rt_cancel := c; rt_done := d |}, ts2).

(** [RunToken::cancel] and [RunToken::mark_as_done]. *)
Definition run_token_cancel (t : RunToken) : TokenStore -> TokenStore := token_cancel (rt_cancel t).
Definition mark_as_done (t : RunToken) : TokenStore -> TokenStore := token_cancel (rt_done t).

(** [RunToken::new_cancelled]. *)
Definition run_token_new_cancelled (ts : TokenStore) : RunToken * TokenStore :=
  let '(t, ts') := run_token_new ts in (t, mark_as_done t (run_token_cancel t ts')).

(** [RunToken::is_cancelled]. *)
Definition run_token_is_cancelled (ts : TokenStore) (t : RunToken) : bool :=
  token_is_cancelled ts (rt_cancel t).

(** [RunToken::rotate]: whether the token was replaced. *)
Definition rotate (t : RunToken) (ts : TokenStore) : bool * RunToken * TokenStore :=
  if run_token_is_cancelled ts t then
    let '(t', ts') := run_token_new ts in (true, t', ts')
  else (false, t, ts).

(** [RunToken::rotate_done]. *)
Definition rotate_done (t : RunToken) (ts : TokenStore) : bool * RunToken * TokenStore :=
  if token_is_cancelled ts (rt_done t) then
    let '(d, ts') := token_new ts in
    (true, {| rt_cancel := rt_cancel t; rt_done := d |}, ts')
  else (false, t, ts).

(** ** The service *)

(** Where the background task is: in its [select!], waiting for the global lock, or
    in [work].  The flag says whether a notification woke it. *)
Inductive TaskPhase :=
| Selecting
| Acquiring (t : RunToken) (from_notification : bool)
| Working (t : RunToken) (from_notification : bool)
| Ended.

(** The store, the watch cell with its version, the version that the receiver has
    seen, whether all senders were dropped, and the task. *)
Record Service := {
  tokens : TokenStore;
  run_token : RunToken;
  version : nat;
  seen : nat;
  closed : bool;
  phase : TaskPhase
}.

(** [OutboundService::build]. *)
Definition build : Service :=
  let '(t, ts) := run_token_new_cancelled [] in
  {| tokens := ts; run_token := t; version := 0; seen := 0; closed := false; phase := Selecting |}.

(** [watch::Sender::send_if_modified]: the cell is replaced in any case, and the
    receiver is notified if asked for. *)
Definition send_if_modified (t : RunToken) (ts : TokenStore) (notify : bool) (s : Service) : Service :=
  {| tokens := ts; run_token := t; version := if notify then S (version s) else version s;
     seen := seen s; closed := closed s; phase := phase s |}.

(** [WaitForDoneFuture]. *)
Abbreviation WaitForDoneFuture := (option nat).

(** [WaitForDoneFuture::poll]: whether it is ready. *)
Definition future_ready (s : Service) (f : WaitForDoneFuture) : bool :=
  match f with Some d => token_is_cancelled (tokens s) d | None => true end.

(** [OutboundService::start]. *)
Definition start (s : Service) : WaitForDoneFuture * Service :=
  let '(rotated, t1, ts1) := rotate (run_token s) (tokens s) in
  let '(t2, ts2) :=
    if rotated then (t1, ts1)
    else let '(_, t2, ts2) := rotate_done t1 ts1 in (t2, ts2) in
  (Some (rt_done t2), send_if_modified t2 ts2 true s).

(** [OutboundService::stop]. *)
Definition stop (s : Service) : WaitForDoneFuture * Service :=
  (Some (rt_done (run_token s)),
   send_if_modified (run_token s) (run_token_cancel (run_token s) (tokens s)) false s).

(** [OutboundService::notify_work]. *)
Definition notify_work (s : Service) : WaitForDoneFuture * Service :=
  if run_token_is_cancelled (tokens s) (run_token s) then
    (None, send_if_modified (run_token s) (tokens s) false s)
  else
    let '(_, t, ts) := rotate_done (run_token s) (tokens s) in
    (Some (rt_done t), send_if_modified t ts true s).

Definition with_phase (p : TaskPhase) (s : Service) : Service :=
  {| tokens := tokens s; run_token := run_token s; version := version s; seen := seen s;
     closed := closed s; phase := p |}.
Definition with_tokens (ts : TokenStore) (s : Service) : Service :=
  {| tokens := ts; run_token := run_token s; version := version s; seen := seen s;
     closed := closed s; phase := phase s |}.
Definition borrow_and_update (s : Service) : Service :=
  {| tokens := tokens s; run_token := run_token s; version := version s; seen := version s;
     closed := closed s; phase := phase s |}.

(** The steps of the task: [changed] resolves, the ticker fires, the lock is
    acquired, the work returns. *)
Inductive TaskEvent := Changed | Tick | Locked | Worked.

(** [OutboundServiceTask::run], one step at a time.  [watch::Receiver::changed] fails
    once the senders are gone and everything was seen. *)
Definition task_step (e : TaskEvent) (s : Service) : option Service :=
  match phase s, e with
  | Selecting, Changed =>
      if decide (version s = seen s) then
        if closed s then Some (with_phase Ended s) else None
      else
        let s1 := borrow_and_update s in
        let t := run_token s1 in
        if run_token_is_cancelled (tokens s1) t
        then Some (with_tokens (mark_as_done t (tokens s1)) s1)
        else Some (with_phase (Acquiring t true) s1)
  | Selecting, Tick =>
      let t := run_token s in
      if run_token_is_cancelled (tokens s) t then Some s
      else Some (with_phase (Acquiring t false) s)
  | Acquiring t b, Locked => Some (with_phase (Working t b) s)
  | Working t b, Worked => Some (with_phase Selecting (with_tokens (mark_as_done t (tokens s)) s))
  | _, _ => None
  end.

(** ** Interleavings *)

Inductive Call := Start | Stop | NotifyWork.

Definition call (c : Call) : Service -> WaitForDoneFuture * Service :=
  match c with Start => start | Stop => stop | NotifyWork => notify_work end.

(** [OutboundService::run_once] as its two calls. *)
Definition run_once_calls : list Call := [Start; Stop].

(** A start replaces a run token that was stopped before the task has seen it. *)
Definition overtakes (s : Service) (c : Call) : Prop :=
  c = Start /\ run_token_is_cancelled (tokens s) (run_token s) = true /\ version s ≠ seen s.

(** Runs of the service, with the futures that were handed out.  With [strict], no
    call overtakes the task. *)
Inductive reachable (strict : bool) : Service -> list WaitForDoneFuture -> Prop :=
| reach_build : reachable strict build []
| reach_call s fs c :
    reachable strict s fs -> closed s = false -> (strict = true -> ~ overtakes s c) ->
    reachable strict (call c s).2 ((call c s).1 :: fs)
| reach_task s fs e s' :
    reachable strict s fs -> task_step e s = Some s' -> reachable strict s' fs
| reach_drop s fs :
    reachable strict s fs ->
    reachable strict {| tokens := tokens s; run_token := run_token s; version := version s;
                        seen := seen s; closed := true; phase := phase s |} fs.

(** Steps of the task alone. *)
Inductive task_steps : nat -> Service -> Service -> Prop :=
| steps_nil s : task_steps 0 s s
| steps_cons n e s s1 s' : task_step e s = Some s1 -> task_steps n s1 s' -> task_steps (S n) s s'.

(** A given sequence of them. *)
Fixpoint task_run (es : list TaskEvent) (s : Service) : option Service :=
  match es with
  | [] => Some s
  | e :: es => s1 ← task_step e s; task_run es s1
  end.

Lemma reach_task_run strict es s fs s' :
  reachable strict s fs -> task_run es s = Some s' -> reachable strict s' fs.
Proof.
  revert s. induction es as [|e es IH]; cbn; intros s Hr Hs; [congruence|].
  apply bind_Some in Hs as (s1 & H1 & Hs). apply (IH s1); [|done]. by eapply reach_task.
Qed.

(** ** Lemmas about the store *)

Lemma token_cancel_mono t ts d :
  token_is_cancelled ts d = true -> token_is_cancelled (token_cancel t ts) d = true.
Proof.
  unfold token_is_cancelled, token_cancel. destruct (ts !! d) as [b|] eqn:E; cbn; [|done].
  intros ->. destruct (decide (t = d)) as [->|Hn].
  - rewrite list_lookup_insert_eq; [done|]. by eapply lookup_lt_Some.
  - by rewrite list_lookup_insert_ne, E.
Qed.

Lemma token_cancel_same t ts : (t < length ts)%nat -> token_is_cancelled (token_cancel t ts) t = true.
Proof. intros H. unfold token_is_cancelled, token_cancel. by rewrite list_lookup_insert_eq. Qed.

Lemma token_cancel_other t ts d :
  t ≠ d -> token_is_cancelled (token_cancel t ts) d = token_is_cancelled ts d.
Proof. intros H. unfold token_is_cancelled, token_cancel. by rewrite list_lookup_insert_ne. Qed.

Lemma token_new_old ts d l : (d < length ts)%nat -> token_is_cancelled (ts ++ l) d = token_is_cancelled ts d.
Proof. intros H. unfold token_is_cancelled. by rewrite lookup_app_l. Qed.

(** The token that a task holds. *)
Definition held (p : TaskPhase) : option RunToken :=
  match p with Acquiring t _ | Working t _ => Some t | _ => None end.

(** ** The invariant *)

(** Addresses are in the store, cancelling and waiting use different tokens, and what
    the task has not yet completed is pending: a token that is waited for is held by the
    task, or is in the cell and not seen. *)
Record service_ok (s : Service) (fs : list WaitForDoneFuture) : Prop := {
  ok_cell : (rt_cancel (run_token s) < length (tokens s))%nat /\
            (rt_done (run_token s) < length (tokens s))%nat;
  ok_apart : rt_cancel (run_token s) ≠ rt_done (run_token s);
  ok_held t : held (phase s) = Some t -> (rt_done t < length (tokens s))%nat /\
              rt_done t ≠ rt_cancel (run_token s);
  ok_seen : (seen s <= version s)%nat;
  ok_waited d : Some d ∈ fs -> (d < length (tokens s))%nat /\ d ≠ rt_cancel (run_token s);
  ok_pending d : Some d ∈ fs -> token_is_cancelled (tokens s) d = false ->
    (exists t, held (phase s) = Some t /\ rt_done t = d) \/
    (rt_done (run_token s) = d /\ version s ≠ seen s /\ phase s ≠ Ended);
  ok_ended : phase s = Ended -> closed s = true /\ version s = seen s;
  ok_idle : token_is_cancelled (tokens s) (rt_done (run_token s)) = false ->
    version s ≠ seen s \/ exists t, held (phase s) = Some t /\ rt_done t = rt_done (run_token s)
}.

Section Invariant.
Implicit Types (s : Service) (fs : list WaitForDoneFuture).

Lemma build_ok : service_ok build [].
Proof.
  split; cbn; try done.
  - lia.
  - intros d Hd. by apply elem_of_nil in Hd.
  - intros d Hd. by apply elem_of_nil in Hd.
Qed.

(** The cell and the store may be replaced by a new cell [t'] and a store that
    extends the old one with tokens that are not cancelled, when the receiver is
    notified and whatever was pending in the old cell is still pending. *)
Lemma send_ok s fs t' l :
  service_ok s fs -> closed s = false ->
  (rt_cancel t' < length (tokens s ++ l))%nat -> (rt_done t' < length (tokens s ++ l))%nat ->
  rt_cancel t' ≠ rt_done t' ->
  (rt_cancel t' = rt_cancel (run_token s) \/ length (tokens s) <= rt_cancel t')%nat ->
  (rt_done t' = rt_done (run_token s) \/ version s = seen s \/
    token_is_cancelled (tokens s) (rt_done (run_token s)) = true) ->
  service_ok (send_if_modified t' (tokens s ++ l) true s) (Some (rt_done t') :: fs).
Proof.
  intros Hok Hclosed Hc Hd Hne Hfresh Hkeep. destruct Hok as [Hcell Hap Hh Hs Hw Hp He Hi].
  assert (Hlen : (length (tokens s) <= length (tokens s ++ l))%nat) by (rewrite length_app; lia).
  split; cbn; try done.
  - intros t Ht. destruct (Hh t Ht). split; [lia|]. destruct Hfresh; lia.
  - lia.
  - intros d [[= ->]|Hd']%elem_of_cons; [done|]. destruct (Hw d Hd'). split; [lia|]. destruct Hfresh; lia.
  - intros d Hd' Hnc. apply elem_of_cons in Hd' as [[= ->]|Hd'].
    { right. split_and!; [done|lia|]. intros E. destruct (He E). congruence. }
    pose proof (proj1 (Hw d Hd')) as Hb. rewrite token_new_old in Hnc by done.
    destruct (Hp d Hd' Hnc) as [?|(<- & Hv & HE)]; [by left|].
    destruct Hkeep as [Heq|[?|?]]; [|done|congruence].
    right. split_and!; [done|lia|done].
  - intros E. destruct (He E). congruence.
  - intros _. left. lia.
Qed.

Lemma start_ok s fs :
  service_ok s fs -> closed s = false -> ~ overtakes s Start -> service_ok (start s).2 ((start s).1 :: fs).
Proof.
  intros Hok Hclosed Hno. pose proof (ok_cell _ _ Hok) as [Hc Hd]. pose proof (ok_apart _ _ Hok) as Hap.
  unfold start, rotate. destruct (run_token_is_cancelled (tokens s) (run_token s)) eqn:Ec; cbn.
  - rewrite <- app_assoc. apply send_ok; cbn; rewrite ?length_app; cbn; try done; try lia.
    right; left. destruct (decide (version s = seen s)); [done|].
    by destruct Hno.
  - unfold rotate_done. destruct (token_is_cancelled (tokens s) (rt_done (run_token s))) eqn:Ed; cbn.
    + apply send_ok; cbn; rewrite ?length_app; cbn; auto; lia.
    + rewrite <- (app_nil_r (tokens s)) at 1.
      apply send_ok; rewrite ?app_nil_r; auto.
Qed.

Lemma notify_work_ok s fs :
  service_ok s fs -> closed s = false -> service_ok (notify_work s).2 ((notify_work s).1 :: fs).
Proof.
  intros Hok Hclosed. pose proof (ok_cell _ _ Hok) as [Hc Hd]. pose proof (ok_apart _ _ Hok) as Hap.
  unfold notify_work. destruct (run_token_is_cancelled _ _) eqn:Ec.
  - destruct Hok as [Hcell Hap' Hh Hs Hw Hp He Hi]. split; cbn; try done.
    + intros d [[=]|Hd']%elem_of_cons. by apply Hw.
    + intros d [[=]|Hd']%elem_of_cons. by apply Hp.
  - unfold rotate_done. destruct (token_is_cancelled (tokens s) (rt_done (run_token s))) eqn:Ed; cbn.
    + apply send_ok; cbn; rewrite ?length_app; cbn; auto; lia.
    + rewrite <- (app_nil_r (tokens s)) at 1.
      apply send_ok; rewrite ?app_nil_r; auto.
Qed.

Lemma stop_ok s fs :
  service_ok s fs -> closed s = false -> service_ok (stop s).2 ((stop s).1 :: fs).
Proof.
  intros [Hcell Hap Hh Hs Hw Hp He Hi] Hclosed.
  assert (Hne : forall d, d ≠ rt_cancel (run_token s) ->
    token_is_cancelled (run_token_cancel (run_token s) (tokens s)) d = token_is_cancelled (tokens s) d).
  { intros d Hd. unfold run_token_cancel. by rewrite token_cancel_other. }
  unfold stop. cbn. split; cbn; unfold run_token_cancel, token_cancel; rewrite ?length_insert; try done.
  - intros d [[= ->]|Hd]%elem_of_cons; [split; [tauto|done]|by apply Hw].
  - intros d Hd Hnc. change (token_is_cancelled (run_token_cancel (run_token s) (tokens s)) d = false) in Hnc.
    apply elem_of_cons in Hd as [[= ->]|Hd].
    + rewrite Hne in Hnc by done. destruct (Hi Hnc) as [Hv|Ht]; [right|by left].
      split_and!; [done..|]. intros E. destruct (He E). congruence.
    + rewrite Hne in Hnc by apply Hw, Hd. by apply Hp.
  - intros Hnc. apply Hi. rewrite <- Hne by done. exact Hnc.
Qed.

(** Completing a token that the task holds or has just seen. *)
Lemma mark_as_done_spec t ts d :
  (rt_done t < length ts)%nat -> token_is_cancelled (mark_as_done t ts) d = false ->
  token_is_cancelled ts d = false /\ d ≠ rt_done t.
Proof.
  intros Ht Hnc. split.
  - destruct (token_is_cancelled ts d) eqn:E; [|done].
    unfold mark_as_done in Hnc. by rewrite token_cancel_mono in Hnc.
  - intros ->. unfold mark_as_done in Hnc. by rewrite token_cancel_same in Hnc.
Qed.

Lemma service_step_ok e s fs s' : service_ok s fs -> task_step e s = Some s' -> service_ok s' fs.
Proof.
  intros Hok Hstep. destruct Hok as [Hcell Hap Hh Hs Hw Hp He Hi].
  unfold task_step in Hstep. destruct (phase s) as [|t b|t b|] eqn:Eph; destruct e; try discriminate.
  - destruct (decide (version s = seen s)) as [Hv|Hv].
    { destruct (closed s) eqn:Ecl; [|discriminate]. injection Hstep as <-. split; cbn; try done.
      intros d Hd Hnc. destruct (Hp d Hd Hnc) as [(? & [=] & _)|(_ & ? & _)]; done. }
    cbn in Hstep. destruct (run_token_is_cancelled _ _) eqn:Ec; injection Hstep as <-; split; cbn;
      unfold mark_as_done, token_cancel; rewrite ?length_insert, ?Eph; try done.
    + intros d Hd Hnc. apply mark_as_done_spec in Hnc as [Hnc Hne]; [|tauto].
      destruct (Hp d Hd Hnc) as [(? & [=] & _)|(<- & _)]. done.
    + intros Hnc. apply mark_as_done_spec in Hnc as [_ ?]; [done|tauto].
    + intros t [= <-]. split; [apply Hcell|by apply not_eq_sym].
    + intros d Hd Hnc. left. destruct (Hp d Hd Hnc) as [(? & [=] & _)|(<- & _)]. eauto.
    + intros _. right. eauto.
  - destruct (run_token_is_cancelled _ _) eqn:Ec; injection Hstep as <-; [split; rewrite ?Eph; done|].
    split; cbn; try done.
    + intros t [= <-]. split; [apply Hcell|by apply not_eq_sym].
    + intros d Hd Hnc. destruct (Hp d Hd Hnc) as [(? & [=] & _)|(<- & Hv & _)]. left. eauto.
    + intros _. right. eauto.
  - injection Hstep as <-. split; cbn; try done.
    + intros d Hd Hnc. destruct (Hp d Hd Hnc) as [?|(? & ? & _)]; auto.
  - injection Hstep as <-. destruct (Hh t eq_refl) as [Ht Hta].
    split; cbn; unfold mark_as_done, token_cancel; rewrite ?length_insert; try done.
    + intros d Hd Hnc. apply mark_as_done_spec in Hnc as [Hnc Hne]; [|done].
      destruct (Hp d Hd Hnc) as [(t' & Ht' & <-)|(? & ? & _)]; [|by right]. by injection Ht' as ->.
    + intros Hnc. apply mark_as_done_spec in Hnc as [Hnc Hne]; [|done].
      destruct (Hi Hnc) as [?|(t' & [= <-] & ?)]; [by left|congruence].
Qed.

Lemma drop_ok s fs : service_ok s fs ->
  service_ok {| tokens := tokens s; run_token := run_token s; version := version s;
                seen := seen s; closed := true; phase := phase s |} fs.
Proof.
  intros [Hcell Hap Hh Hs Hw Hp He Hi]. split; cbn; try done. intros E. by destruct (He E).
Qed.

Lemma reachable_ok s fs : reachable true s fs -> service_ok s fs.
Proof.
  induction 1 as [|s fs c Hr IH Hc Ho|s fs e s' Hr IH Hs|s fs Hr IH].
  - apply build_ok.
  - specialize (Ho eq_refl). destruct c; cbn; [by apply start_ok|by apply stop_ok|by apply notify_work_ok].
  - by eapply service_step_ok.
  - by apply drop_ok.
Qed.

End Invariant.

#[export] Hint Resolve reachable_ok : air.

(** ** Progress *)

Lemma task_steps_trans n m s s1 s' : task_steps n s s1 -> task_steps m s1 s' -> task_steps (n + m) s s'.
Proof. induction 1; cbn; [done|]. intros. econstructor; eauto. Qed.

Lemma task_steps_ok n s fs s' : service_ok s fs -> task_steps n s s' -> service_ok s' fs.
Proof. intros Hok Hs. revert Hok. induction Hs; intros; [done|]. eauto using service_step_ok. Qed.

(** The task can always leave [work] and come back to its [select!]. *)
Lemma task_returns s :
  exists n s', (n <= 2)%nat /\ task_steps n s s' /\ held (phase s') = None /\
    version s' = version s /\ seen s' = seen s /\
    (phase s' = Ended -> phase s = Ended).
Proof.
  destruct (phase s) as [|t b|t b|] eqn:Eph.
  - exists 0%nat, s. rewrite Eph. split; [lia|]. split; [constructor|done].
  - exists 2%nat. eexists. split; [lia|]. split.
    + eapply (steps_cons _ Locked); [unfold task_step; by rewrite Eph|].
      eapply (steps_cons _ Worked); [done|]. constructor.
    + done.
  - exists 1%nat. eexists. split; [lia|]. split.
    + eapply (steps_cons _ Worked); [unfold task_step; by rewrite Eph|]. constructor.
    + done.
  - exists 0%nat, s. rewrite Eph. split; [lia|]. split; [constructor|done].
Qed.

(** When the task is idle and has something to see, it sees it. *)
Lemma task_notices s fs :
  service_ok s fs -> held (phase s) = None ->
  exists n s', (n <= 3)%nat /\ task_steps n s s' /\ held (phase s') = None /\
    (phase s = Ended \/ seen s' = version s').
Proof.
  intros Hok Hh. destruct (decide (version s = seen s)) as [Hv|Hv].
  { exists 0%nat, s. split; [lia|]. split; [constructor|]. auto. }
  destruct (phase s) eqn:Eph; try discriminate Hh.
  2:{ exists 0%nat, s. rewrite Eph. split; [lia|]. split; [constructor|]. auto. }
  assert (exists s1, task_step Changed s = Some s1 /\ seen s1 = version s1) as (s1 & H1 & Hs1).
  { unfold task_step. rewrite Eph, decide_False by done. cbn.
    destruct (run_token_is_cancelled _ _); eauto. }
  destruct (task_returns s1) as (n & s' & Hn & Hs & Hh' & Hv' & Hse & _).
  exists (S n), s'. split; [lia|]. split; [by econstructor|]. split; [done|]. right. congruence.
Qed.

(** A waiter is resolved once the task is idle and has seen everything. *)
Lemma idle_resolved s fs f :
  service_ok s fs -> held (phase s) = None -> phase s = Ended \/ seen s = version s -> f ∈ fs ->
  future_ready s f = true.
Proof.
  intros Hok Hh Hidle Hf. destruct f as [d|]; [|done]. cbn.
  destruct (token_is_cancelled (tokens s) d) eqn:E; [done|].
  destruct (ok_pending _ _ Hok d Hf E) as [(t & Ht & _)|(_ & Hv & He)]; [congruence|].
  destruct Hidle; congruence.
Qed.

(** C19. Every future that [start], [stop] or [notify_work] returned becomes ready: in
    every interleaving of calls, periodic wakes and work in which no start overtakes the
    task, the task alone needs at most five more steps, whatever it is doing, after
    which all futures handed out so far are ready. *)
Theorem outbound_futures_resolve s fs :
  reachable true s fs ->
  exists n s', (n <= 5)%nat /\ task_steps n s s' /\ forall f, f ∈ fs -> future_ready s' f = true.
Proof.
  intros Hok%reachable_ok.
  destruct (task_returns s) as (n & s1 & Hn & Hs1 & Hh1 & _).
  pose proof (task_steps_ok _ _ _ _ Hok Hs1) as Hok1.
  destruct (task_notices s1 fs Hok1 Hh1) as (m & s2 & Hm & Hs2 & Hh2 & Hidle).
  pose proof (task_steps_ok _ _ _ _ Hok1 Hs2) as Hok2.
  exists (n + m)%nat, s2. split; [lia|]. split; [by eapply task_steps_trans|].
  intros f Hf. eapply idle_resolved; [exact Hok2|exact Hh2| |exact Hf].
  destruct Hidle as [He|?]; [|by right]. left.
  destruct (phase s1) eqn:E1; try discriminate He.
  inversion Hs2 as [|? e ? s3 ? H3]; subst; [done|]. unfold task_step in H3. by rewrite E1 in H3; destruct e.
Qed.

Lemma outbound_futures_resolve_witness :
  reachable true (start build).2 [(start build).1] /\
  exists n s', (n <= 5)%nat /\ task_steps n (start build).2 s' /\
    forall f, f ∈ [(start build).1] -> future_ready s' f = true.
Proof.
  assert (H : reachable true (start build).2 [(start build).1]).
  { apply (reach_call true build [] Start); [constructor|reflexivity|].
    intros _ (_ & _ & H). by apply H. }
  split; [exact H|]. exact (outbound_futures_resolve _ _ H).
Defined.

(** C36. A start that overtakes the task loses a waiter: the futures of the first
    [start] and of the [stop] in [start; stop; start] are never ready when the task runs
    for the first time after them, in whatever way the run continues. *)
Theorem overtaken_waiter_hangs :
  let s1 := (start build).2 in
  let s2 := (stop s1).2 in
  let s3 := (start s2).2 in
  (stop s1).1 = (start build).1 /\ future_ready s3 (start build).1 = false /\
  forall n s', task_steps n s3 s' -> future_ready s' (start build).1 = false.
Proof.
  split_and!; [done..|].
  assert (Hinv : forall n s s', task_steps n s s' ->
    (tokens s !! 3%nat = Some false /\ rt_done (run_token s) ≠ 3%nat /\
     forall t, held (phase s) = Some t -> rt_done t ≠ 3%nat) ->
    tokens s' !! 3%nat = Some false).
  2:{ intros n s' Hs. cbn. unfold token_is_cancelled. rewrite (Hinv _ _ _ Hs); [done|].
      by split_and!. }
  intros n s s'. induction 1 as [|n e s s1 s' Hs _ IH]; intros (Ht & Hc & Hh); [done|]. apply IH. clear IH.
  unfold task_step in Hs. destruct (phase s) as [|t b|t b|] eqn:Eph; destruct e; try discriminate Hs.
  - case_decide; [destruct (closed s); [|done]; injection Hs as <-; by split_and!|]. cbn in Hs.
    destruct (run_token_is_cancelled _ _); injection Hs as <-; cbn; split_and!; try done.
    + unfold mark_as_done, token_cancel. by rewrite list_lookup_insert_ne.
    + by rewrite Eph.
    + by intros t [= <-].
  - destruct (run_token_is_cancelled _ _); injection Hs as <-; cbn; split_and!; try done.
    + by rewrite Eph.
    + by intros t [= <-].
  - injection Hs as <-; cbn. by split_and!.
  - injection Hs as <-; cbn. split_and!; try done.
    unfold mark_as_done, token_cancel. rewrite list_lookup_insert_ne; [done|]. by apply Hh.
Qed.

(** The future of [stop] does not wait for work that a periodic wake started.  In
    every state in which the task is idle and the service not stopped, the ticker can wake
    the task, which then works with the token of the cell.  A [stop] during this work
    returns a future that is ready at once, with the task still in [work], whenever the task
    had seen every notification when the ticker fired; it is awaited only if the token was
    one that nobody had completed yet. *)
Theorem stop_does_not_await_periodic_work s fs :
  reachable true s fs -> phase s = Selecting -> run_token_is_cancelled (tokens s) (run_token s) = false ->
  exists s1, task_run [Tick; Locked] s = Some s1 /\
    phase s1 = Working (run_token s) false /\ phase (stop s1).2 = phase s1 /\
    (version s = seen s -> future_ready (stop s1).2 (stop s1).1 = true) /\
    (future_ready (stop s1).2 (stop s1).1 = false <->
     token_is_cancelled (tokens s) (rt_done (run_token s)) = false).
Proof.
  intros Hok%reachable_ok Hph Hc.
  exists (with_phase (Working (run_token s) false) (with_phase (Acquiring (run_token s) false) s)). split.
  { assert (task_step Tick s = Some (with_phase (Acquiring (run_token s) false) s)) as Ht.
    { unfold task_step. by rewrite Hph, Hc. }
    cbn [task_run]. by rewrite Ht. }
  cbn. unfold run_token_cancel. rewrite token_cancel_other by apply Hok. split_and!; try done.
  intros Hv. destruct (token_is_cancelled _ _) eqn:E; [done|].
  destruct (ok_idle _ _ Hok E) as [?|(t & Ht & _)]; [done|]. by rewrite Hph in Ht.
Qed.

(** A start that was awaited, and a tick. *)
Lemma stop_does_not_await_periodic_work_witness :
  exists s s1, task_run [Changed; Locked; Worked] (start build).2 = Some s /\ task_run [Tick; Locked] s = Some s1 /\
    held (phase s1) = Some (run_token s) /\ future_ready (stop s1).2 (stop s1).1 = true.
Proof.
  assert (H0 : reachable true (start build).2 [(start build).1]).
  { apply (reach_call true build [] Start); [constructor|done|]. by intros _ (_ & _ & []). }
  destruct (task_run [Changed; Locked; Worked] (start build).2) as [s|] eqn:Es; [|discriminate Es].
  destruct (stop_does_not_await_periodic_work s [(start build).1]) as (s1 & H1 & Hp & _ & Hf & _);
    [by eapply reach_task_run|by injection Es as <-..|].
  exists s, s1. split_and!; [done|done|by rewrite Hp|]. apply Hf. by injection Es as <-.
Defined.

(** ** What a resolved future means *)

Inductive Label := OnCall (c : Call) | OnTask (e : TaskEvent).

Definition step (l : Label) (s : Service) : option Service :=
  match l with OnCall c => Some (call c s).2 | OnTask e => task_step e s end.

(** A run with the states in which its steps were taken. *)
Inductive trace : Service -> list (Service * Label) -> Service -> Prop :=
| trace_nil s : trace s [] s
| trace_cons s l s1 tr s' : step l s = Some s1 -> trace s1 tr s' -> trace s ((s, l) :: tr) s'.

(** A step that completes the token [d]: the work of a run token with [d] returns, or
    the task sees such a token after it was stopped. *)
Definition completes (d : nat) (x : Service * Label) : Prop :=
  match x with
  | (s, OnTask Worked) => exists t b, phase s = Working t b /\ rt_done t = d
  | (s, OnTask Changed) =>
      phase s = Selecting /\ rt_done (run_token s) = d /\
      run_token_is_cancelled (tokens s) (run_token s) = true
  | _ => False
  end.

Definition open_token (d : nat) (s : Service) : Prop :=
  (d < length (tokens s))%nat /\ rt_cancel (run_token s) ≠ d /\ token_is_cancelled (tokens s) d = false.

Lemma open_extend d s t l n :
  open_token d s -> rt_cancel t ≠ d -> open_token d (send_if_modified t (tokens s ++ l) n s).
Proof.
  intros (Hd & Hc & Ho) Ht. unfold open_token; cbn. rewrite length_app, token_new_old by done.
  split_and!; [lia|done..].
Qed.

Lemma step_open d l s s' :
  open_token d s -> step l s = Some s' -> open_token d s' \/ completes d (s, l).
Proof.
  intros Ho Hs. pose proof Ho as (Hd & Hc & Hno). destruct l as [[| |]|e]; cbn in Hs.
  - injection Hs as <-. left. unfold start, rotate, rotate_done.
    destruct (run_token_is_cancelled _ _); cbn.
    + rewrite <- app_assoc. apply open_extend; [done|cbn; lia].
    + destruct (token_is_cancelled (tokens s) (rt_done (run_token s))); cbn; [by apply open_extend|].
      split_and!; done.
  - injection Hs as <-. left. unfold open_token; cbn. unfold run_token_cancel.
    rewrite token_cancel_other by done. unfold token_cancel. by rewrite length_insert.
  - injection Hs as <-. left. unfold notify_work, rotate_done.
    destruct (run_token_is_cancelled _ _); cbn; [by split_and!|].
    destruct (token_is_cancelled (tokens s) (rt_done (run_token s))); cbn; [by apply open_extend|].
    split_and!; done.
  - unfold task_step in Hs. destruct (phase s) as [|t b|t b|] eqn:Eph; destruct e; try discriminate Hs; cbn.
    + case_decide; [destruct (closed s); [|done]; injection Hs as <-; by left|]. cbn in Hs.
      destruct (run_token_is_cancelled _ _) eqn:E; injection Hs as <-; [|by left].
      destruct (decide (rt_done (run_token s) = d)); [right; by split_and!|left].
      unfold open_token; cbn. unfold mark_as_done. rewrite token_cancel_other by done.
      unfold token_cancel. by rewrite length_insert.
    + destruct (run_token_is_cancelled _ _); injection Hs as <-; by left.
    + injection Hs as <-. by left.
    + injection Hs as <-. destruct (decide (rt_done t = d)); [right; eauto|left].
      unfold open_token; cbn. unfold mark_as_done. rewrite token_cancel_other by done.
      unfold token_cancel. by rewrite length_insert.
Qed.

Lemma trace_open d s tr s' :
  trace s tr s' -> open_token d s -> token_is_cancelled (tokens s') d = true -> Exists (completes d) tr.
Proof.
  induction 1 as [s|s l s1 tr s' Hs _ IH]; intros Ho Hd.
  - destruct Ho as (_ & _ & Ho). congruence.
  - destruct (step_open d l s s1 Ho Hs); [right; by apply IH|by left].
Qed.

(** Awaiting [start] awaits work: when the service is idle or stopped, the future
    that [start] returns gets ready only by a run of the work that begins after the call
    and returns, or after the service was stopped again; whatever else is called in
    between. *)
Theorem start_awaits_work s fs tr s' :
  reachable true s fs ->
  run_token_is_cancelled (tokens s) (run_token s) = true \/
    token_is_cancelled (tokens s) (rt_done (run_token s)) = true ->
  trace (start s).2 tr s' -> future_ready s' (start s).1 = true ->
  exists d, (start s).1 = Some d /\ (length (tokens s) <= d)%nat /\ Exists (completes d) tr.
Proof.
  intros Hok%reachable_ok Hidle Htr Hf. pose proof (ok_cell _ _ Hok) as [Hc _].
  assert (exists d, (start s).1 = Some d /\ (length (tokens s) <= d)%nat /\ open_token d (start s).2)
    as (d & Hd & Hfresh & Ho).
  { unfold start, rotate, rotate_done.
    destruct (run_token_is_cancelled _ _); cbn.
    - eexists. split; [done|]. rewrite length_app; cbn. split; [lia|]. split_and!; cbn.
      + rewrite !length_app; cbn; lia.
      + lia.
      + unfold token_is_cancelled. rewrite lookup_app_r by (rewrite length_app; cbn; lia).
        rewrite length_app; cbn. by rewrite Nat.sub_diag.
    - destruct Hidle as [|Hdone]; [done|]. rewrite Hdone; cbn. eexists. split; [done|]. split; [done|].
      split_and!; cbn; [rewrite length_app; cbn; lia|lia|].
      unfold token_is_cancelled. by rewrite lookup_app_r, Nat.sub_diag by lia. }
  exists d. split_and!; [done..|]. eapply trace_open; [exact Htr|exact Ho|].
  by rewrite Hd in Hf.
Qed.

Lemma start_awaits_work_witness :
  exists s', task_run [Changed; Locked; Worked] (start build).2 = Some s' /\
    exists tr, trace (start build).2 tr s' /\
    exists d, (start build).1 = Some d /\ (length (tokens build) <= d)%nat /\ Exists (completes d) tr.
Proof.
  destruct (task_run [Changed; Locked; Worked] (start build).2) as [s'|] eqn:E; [|discriminate E].
  exists s'. split; [reflexivity|].
  assert (Ht : exists tr, trace (start build).2 tr s').
  { injection E as <-. eexists. eapply (trace_cons _ (OnTask Changed)); [reflexivity|].
    eapply (trace_cons _ (OnTask Locked)); [reflexivity|].
    eapply (trace_cons _ (OnTask Worked)); [reflexivity|]. constructor. }
  destruct Ht as (tr & Ht). exists tr. split; [exact Ht|].
  apply (start_awaits_work build [] tr s'); [constructor|by left|exact Ht|]. by injection E as <-.
Defined.
