(* ===== verification/OutboundDb.v ===== *)
(** * The tables behind a client's outbound service
      ([coreclient/migrations], [coreclient/src/chats], [coreclient/src/groups/persistence.rs],
      [coreclient/src/outbound_service/*_queue.rs], [coreclient/src/outbound_service/resync.rs])

    Chats, messages, groups and the queues of outgoing work, with the statements on
    them.  A table is a list of rows in the order in which SQLite scans it, so that
    [LIMIT 1] without an order is the first row.  The MLS groups are those of OpenMLS,
    whose storage is in the same database. *)

From S2P Require Import Prelude Messages Grpc ClientBase.

(** ** Tables as lists of rows *)

Section Tables.
Context {R : Type}.

(** [ORDER BY .. ASC LIMIT 1]: the first of the least rows. *)
Fixpoint least (le : R -> R -> bool) (l : list R) : option R :=
  match l with
  | [] => None
  | a :: l =>
      match least le l with
      | None => Some a
      | Some b => if le a b then Some a else Some b
      end
  end.

(** [UPDATE .. SET .. WHERE] and [DELETE .. WHERE]. *)
Definition update_where (p : R -> bool) (f : R -> R) (l : list R) : list R :=
  map (fun a => if p a then f a else a) l.
Definition delete_where (p : R -> bool) (l : list R) : list R :=
  List.filter (fun a => negb (p a)) l.

(** [INSERT .. ON CONFLICT DO NOTHING]: [p] finds the conflicting row. *)
Definition insert_or_nothing (p : R -> bool) (a : R) (l : list R) : list R :=
  if existsb p l then l else l ++ [a].

(** [locked_by IS NULL OR locked_by != task_id]. *)
Definition free_for (task_id : Uuid) (locked_by : option Uuid) : bool :=
  match locked_by with None => true | Some t => negb (t =? task_id) end.

End Tables.

(** Identifiers are compared as bytes. *)
Abbreviation bytes_eqb := (fun a b : bytes => bool_decide (a = b)).

(** ** Types of other crates *)

(** Types of OpenMLS, of the room policy and of the MIMI content format, and the
    parameters of requests to the delivery service. *)
Class OutTypes := {
  MlsGroup : Type;
  StagedCommit : Type;
  MlsMessageOut : Type;
  VerifiedRoomState : Type;
  MimiContent : Type;
  SelfRemoveParamsOut : Type;
  DeleteGroupParamsOut : Type;
  ApqCommitMessageBundle : Type;
  GroupOperationParamsOut : Type;
  ApqGroupOperationParamsOut : Type;
  StagedGroupDiff : Type;
  CollisionSecret : Type
}.

Section Rows.
Context `{OutTypes}.

(** ** Rows *)

Record ChatRow := {
  chat_id : Uuid;
  chat_group_id : GroupId;
  is_active : bool;
  connection_user : option UserId;
  connection_user_handle : option bytes;
  chat_title : bytes;
  chat_picture : option bytes;
  chat_past_member : list UserId;
  last_read : TimeStamp
}.

Definition with_is_active (x : bool) (c : ChatRow) : ChatRow :=
  {| chat_id := chat_id c; chat_group_id := chat_group_id c; is_active := x; connection_user :=
     connection_user c; connection_user_handle := connection_user_handle c; chat_title :=
     chat_title c; chat_picture := chat_picture c; chat_past_member := chat_past_member c;
     last_read := last_read c |}.
Definition with_title (x : bytes) (c : ChatRow) : ChatRow :=
  {| chat_id := chat_id c; chat_group_id := chat_group_id c; is_active := is_active c;
     connection_user := connection_user c; connection_user_handle := connection_user_handle c;
     chat_title := x; chat_picture := chat_picture c; chat_past_member := chat_past_member c;
     last_read := last_read c |}.
Definition with_picture (x : option bytes) (c : ChatRow) : ChatRow :=
  {| chat_id := chat_id c; chat_group_id := chat_group_id c; is_active := is_active c;
     connection_user := connection_user c; connection_user_handle := connection_user_handle c;
     chat_title := chat_title c; chat_picture := x; chat_past_member := chat_past_member c;
     last_read := last_read c |}.
Definition with_past_members (x : list UserId) (c : ChatRow) : ChatRow :=
  {| chat_id := chat_id c; chat_group_id := chat_group_id c; is_active := is_active c;
     connection_user := connection_user c; connection_user_handle := connection_user_handle c;
     chat_title := chat_title c; chat_picture := chat_picture c; chat_past_member := x; last_read
     := last_read c |}.
Definition with_last_read (x : TimeStamp) (c : ChatRow) : ChatRow :=
  {| chat_id := chat_id c; chat_group_id := chat_group_id c; is_active := is_active c;
     connection_user := connection_user c; connection_user_handle := connection_user_handle c;
     chat_title := chat_title c; chat_picture := chat_picture c; chat_past_member :=
     chat_past_member c; last_read := x |}.

(** A message is content, or an event. *)
Record MessageRow := {
  message_id : Uuid;
  message_chat_id : Uuid;
  mimi_id : option bytes;
  content : option MimiContent;
  sent : bool;
  message_timestamp : TimeStamp;
  edited_at : option TimeStamp;
  message_row_status : Z
}.

Record StatusRow := { st_message_id : Uuid; st_sender : UserId; st_status : Z }.

Record MessageQueueRow := {
  mq_message_id : Uuid;
  mq_chat_id : Uuid;
  mq_created_at : TimeStamp;
  mq_locked_by : option Uuid
}.

Record ReactionRow := { reaction_mimi_id : bytes; target_mimi_id : bytes }.

Record ReactionQueueRow := {
  rq_id : Uuid;
  rq_chat_id : Uuid;
  rq_reaction_mimi_id : option bytes;
  rq_content : bytes;
  rq_created_at : TimeStamp;
  rq_locked_by : option Uuid
}.

Record ReceiptRow := {
  rc_message_id : Uuid;
  rc_chat_id : Uuid;
  rc_mimi_id : bytes;
  rc_status : Z;
  rc_created_at : TimeStamp;
  rc_locked_by : option Uuid;
  rc_locked_at : option TimeStamp
}.

Record ResyncRow := {
  rs_group_id : GroupId;
  rs_pq_group_id : option GroupId;
  rs_chat_id : Uuid;
  rs_original_leaf_index : LeafNodeIndex;
  rs_locked_by : option Uuid
}.

(** [OperationType] of [job/pending_chat_operation.rs]. *)
Inductive OperationType :=
| Leave (params : SelfRemoveParamsOut)
| Delete (params : DeleteGroupParamsOut)
| ApqDelete (commit : ApqCommitMessageBundle)
| Other (params : GroupOperationParamsOut) (new_chat_picture : option bytes)
| ApqOther (params : ApqGroupOperationParamsOut) (new_chat_picture : option bytes).

Inductive PendingChatOperationStatus := ReadyToRetry | WaitingForQueueResponse.

Record PendingRow := {
  po_group_id : GroupId;
  po_operation_data : OperationType;
  po_retry_due_at : option TimeStamp;
  po_number_of_attempts : Z;
  po_locked_by : option Uuid;
  po_request_status : PendingChatOperationStatus
}.

(** A row of ["group"] joined with the row of [pq_group] that refers to it. *)
Record GroupRow := {
  gr_group_id : GroupId;
  gr_identity_link_wrapper_key : bytes;
  gr_group_state_ear_key : bytes;
  gr_pending_diff : option StagedGroupDiff;
  gr_room_state : bytes;
  gr_self_updated_at : option TimeStamp;
  gr_pending_commit_failed : bool;
  gr_pq : option (GroupId * option TimeStamp)
}.

Record OutDb := {
  chat : list ChatRow;
  blocked_contact : list UserId;
  message : list MessageRow;
  message_status : list StatusRow;
  chat_message_queue : list MessageQueueRow;
  reaction : list ReactionRow;
  reaction_queue : list ReactionQueueRow;
  receipt_queue : list ReceiptRow;
  resync_queue : list ResyncRow;
  pending_attachment : list bytes;
  pending_chat_operation : list PendingRow;
  group_table : list GroupRow;
  mls_storage : gmap GroupId MlsGroup
}.

Definition set_chat (x : list ChatRow) (d : OutDb) : OutDb :=
  {| chat := x; blocked_contact := blocked_contact d; message := message d; message_status :=
     message_status d; chat_message_queue := chat_message_queue d; reaction := reaction d;
     reaction_queue := reaction_queue d; receipt_queue := receipt_queue d; resync_queue :=
     resync_queue d; pending_attachment := pending_attachment d; pending_chat_operation :=
     pending_chat_operation d; group_table := group_table d; mls_storage := mls_storage d |}.
Definition set_blocked_contact (x : list UserId) (d : OutDb) : OutDb :=
  {| chat := chat d; blocked_contact := x; message := message d; message_status := message_status
     d; chat_message_queue := chat_message_queue d; reaction := reaction d; reaction_queue :=
     reaction_queue d; receipt_queue := receipt_queue d; resync_queue := resync_queue d;
     pending_attachment := pending_attachment d; pending_chat_operation := pending_chat_operation
     d; group_table := group_table d; mls_storage := mls_storage d |}.
Definition set_message (x : list MessageRow) (d : OutDb) : OutDb :=
  {| chat := chat d; blocked_contact := blocked_contact d; message := x; message_status :=
     message_status d; chat_message_queue := chat_message_queue d; reaction := reaction d;
     reaction_queue := reaction_queue d; receipt_queue := receipt_queue d; resync_queue :=
     resync_queue d; pending_attachment := pending_attachment d; pending_chat_operation :=
     pending_chat_operation d; group_table := group_table d; mls_storage := mls_storage d |}.
Definition set_message_status (x : list StatusRow) (d : OutDb) : OutDb :=
  {| chat := chat d; blocked_contact := blocked_contact d; message := message d; message_status :=
     x; chat_message_queue := chat_message_queue d; reaction := reaction d; reaction_queue :=
     reaction_queue d; receipt_queue := receipt_queue d; resync_queue := resync_queue d;
     pending_attachment := pending_attachment d; pending_chat_operation := pending_chat_operation
     d; group_table := group_table d; mls_storage := mls_storage d |}.
Definition set_chat_message_queue (x : list MessageQueueRow) (d : OutDb) : OutDb :=
  {| chat := chat d; blocked_contact := blocked_contact d; message := message d; message_status :=
     message_status d; chat_message_queue := x; reaction := reaction d; reaction_queue :=
     reaction_queue d; receipt_queue := receipt_queue d; resync_queue := resync_queue d;
     pending_attachment := pending_attachment d; pending_chat_operation := pending_chat_operation
     d; group_table := group_table d; mls_storage := mls_storage d |}.
Definition set_reaction (x : list ReactionRow) (d : OutDb) : OutDb :=
  {| chat := chat d; blocked_contact := blocked_contact d; message := message d; message_status :=
     message_status d; chat_message_queue := chat_message_queue d; reaction := x; reaction_queue
     := reaction_queue d; receipt_queue := receipt_queue d; resync_queue := resync_queue d;
     pending_attachment := pending_attachment d; pending_chat_operation := pending_chat_operation
     d; group_table := group_table d; mls_storage := mls_storage d |}.
Definition set_reaction_queue (x : list ReactionQueueRow) (d : OutDb) : OutDb :=
  {| chat := chat d; blocked_contact := blocked_contact d; message := message d; message_status :=
     message_status d; chat_message_queue := chat_message_queue d; reaction := reaction d;
     reaction_queue := x; receipt_queue := receipt_queue d; resync_queue := resync_queue d;
     pending_attachment := pending_attachment d; pending_chat_operation := pending_chat_operation
     d; group_table := group_table d; mls_storage := mls_storage d |}.
Definition set_receipt_queue (x : list ReceiptRow) (d : OutDb) : OutDb :=
  {| chat := chat d; blocked_contact := blocked_contact d; message := message d; message_status :=
     message_status d; chat_message_queue := chat_message_queue d; reaction := reaction d;
     reaction_queue := reaction_queue d; receipt_queue := x; resync_queue := resync_queue d;
     pending_attachment := pending_attachment d; pending_chat_operation := pending_chat_operation
     d; group_table := group_table d; mls_storage := mls_storage d |}.
Definition set_resync_queue (x : list ResyncRow) (d : OutDb) : OutDb :=
  {| chat := chat d; blocked_contact := blocked_contact d; message := message d; message_status :=
     message_status d; chat_message_queue := chat_message_queue d; reaction := reaction d;
     reaction_queue := reaction_queue d; receipt_queue := receipt_queue d; resync_queue := x;
     pending_attachment := pending_attachment d; pending_chat_operation := pending_chat_operation
     d; group_table := group_table d; mls_storage := mls_storage d |}.
Definition set_pending_attachment (x : list bytes) (d : OutDb) : OutDb :=
  {| chat := chat d; blocked_contact := blocked_contact d; message := message d; message_status :=
     message_status d; chat_message_queue := chat_message_queue d; reaction := reaction d;
     reaction_queue := reaction_queue d; receipt_queue := receipt_queue d; resync_queue :=
     resync_queue d; pending_attachment := x; pending_chat_operation := pending_chat_operation d;
     group_table := group_table d; mls_storage := mls_storage d |}.
Definition set_pending_chat_operation (x : list PendingRow) (d : OutDb) : OutDb :=
  {| chat := chat d; blocked_contact := blocked_contact d; message := message d; message_status :=
     message_status d; chat_message_queue := chat_message_queue d; reaction := reaction d;
     reaction_queue := reaction_queue d; receipt_queue := receipt_queue d; resync_queue :=
     resync_queue d; pending_attachment := pending_attachment d; pending_chat_operation := x;
     group_table := group_table d; mls_storage := mls_storage d |}.
Definition set_group_table (x : list GroupRow) (d : OutDb) : OutDb :=
  {| chat := chat d; blocked_contact := blocked_contact d; message := message d; message_status :=
     message_status d; chat_message_queue := chat_message_queue d; reaction := reaction d;
     reaction_queue := reaction_queue d; receipt_queue := receipt_queue d; resync_queue :=
     resync_queue d; pending_attachment := pending_attachment d; pending_chat_operation :=
     pending_chat_operation d; group_table := x; mls_storage := mls_storage d |}.
Definition set_mls_storage (x : gmap GroupId MlsGroup) (d : OutDb) : OutDb :=
  {| chat := chat d; blocked_contact := blocked_contact d; message := message d; message_status :=
     message_status d; chat_message_queue := chat_message_queue d; reaction := reaction d;
     reaction_queue := reaction_queue d; receipt_queue := receipt_queue d; resync_queue :=
     resync_queue d; pending_attachment := pending_attachment d; pending_chat_operation :=
     pending_chat_operation d; group_table := group_table d; mls_storage := x |}.

End Rows.
