(* ===== verification/OutboundWorker.v ===== *)
(** * Workers of the outbound service
      ([coreclient/src/outbound_service])

    The shape that the workers share: a loop of turns, each of which locks a row of a
    queue with the id of the run, and the interface through which their termination is
    proved: the number of rows that the run has not locked yet. *)

From S2P Require Import Prelude Messages ClientBase OutboundDb.

(** ** Loops of workers *)

(** What a worker does after a turn: go on, or return. *)
Inductive Turn := Continue | Return.

(** [loop { .. }] with fuel; [None] when the fuel does not suffice. *)
Fixpoint work_loop {S E} (fuel : nat) (turn : M S E Turn) : M S E (option unit) :=
  match fuel with
  | O => mret None
  | Datatypes.S fuel =>
      t ← turn;
      match t with
      | Return => mret (Some tt)
      | Continue => work_loop fuel turn
      end
  end.

(** ** Lemmas about tables *)

Section Rows.
Context {R : Type}.
Implicit Types (l : list R).

Lemma least_in le l (a : R) : least le l = Some a -> In a l.
Proof.
  revert a. induction l as [|b l IH]; cbn; intros a; [done|]. destruct (least le l) as [c|].
  - destruct (le b c); intros [= <-]; [by left|right; by apply IH].
  - intros [= <-]. by left.
Qed.

Lemma least_None le l : least le l = None -> l = [].
Proof. destruct l as [|r l]; cbn; [done|]. destruct (least le l) as [c|]; [destruct (le r c)|]; done. Qed.

(** The least row precedes all others, for an order by a column. *)
Lemma least_min (k : R -> Z) l a b :
  least (fun a b => k a <=? k b) l = Some a -> In b l -> k a <= k b.
Proof.
  revert a. induction l as [|c l IH]; cbn; intros a; [done|].
  destruct (least _ l) as [d|] eqn:E.
  - destruct (Z.leb_spec (k c) (k d)); intros [= <-] [->|Hb]; [lia| |lia|].
    + specialize (IH d eq_refl Hb). lia.
    + by apply IH.
  - apply least_None in E as ->. by intros [= <-] [->|[]].
Qed.

Lemma least_le (le : R -> R -> bool) (Htotal : forall a b, le a b = false -> le b a = true)
    (Htrans : forall a b c, le a b = true -> le b c = true -> le a c = true) l a b :
  least le l = Some a -> In b l -> le a b = true.
Proof.
  assert (Hrefl : forall a, le a a = true) by (intros x; destruct (le x x) eqn:E; [done|]; by rewrite (Htotal _ _ E) in E).
  revert a. induction l as [|c l IH]; cbn; intros a; [done|]. destruct (least le l) as [e|] eqn:E.
  - destruct (le c e) eqn:Ele; intros [= <-] [->|Hb]; [done|by eapply Htrans; [|apply IH]|by apply Htotal|by apply IH].
  - apply least_None in E as ->. by intros [= <-] [->|[]].
Qed.

Lemma in_update_where (p : R -> bool) f l (a : R) :
  In a (update_where p f l) -> exists b, In b l /\ a = if p b then f b else b.
Proof. unfold update_where. intros (b & <- & Hb)%in_map_iff. eauto. Qed.
Lemma update_where_in (p : R -> bool) f l (b : R) : In b l -> In (if p b then f b else b) (update_where p f l).
Proof. intros Hb. unfold update_where. by apply (in_map (fun a => if p a then f a else a)). Qed.
Lemma in_delete_where p l (a : R) : In a (delete_where p l) <-> In a l /\ p a = false.
Proof. unfold delete_where. rewrite filter_In, negb_true_iff. done. Qed.
Lemma map_update_where {X} (g : R -> X) p f l :
  (forall a, g (f a) = g a) -> map g (update_where p f l) = map g l.
Proof.
  intros Hg. unfold update_where. rewrite map_map. apply map_ext. intros a. by destruct (p a).
Qed.

Lemma find_update_where (q p : R -> bool) f l :
  (forall a, q (f a) = q a) ->
  find q (update_where p f l) = (fun a => if p a then f a else a) <$> find q l.
Proof.
  intros Hq. unfold update_where. induction l as [|b l IH]; cbn; [done|].
  replace (q (if p b then f b else b)) with (q b) by (destruct (p b); by rewrite ?Hq).
  by destruct (q b).
Qed.
Lemma existsb_ext_in (f g : R -> bool) l :
  (forall a, In a l -> f a = g a) -> existsb f l = existsb g l.
Proof.
  induction l as [|a l IH]; cbn; intros Hfg; [done|]. rewrite (Hfg a) by by left. f_equal. apply IH. eauto.
Qed.

(** Rows that the run [task] may still take. *)
Definition free_count (locked : R -> option Uuid) (task : Uuid) l : nat :=
  length (List.filter (fun r => free_for task (locked r)) l).

Lemma free_for_Some task : free_for task (Some task) = false.
Proof. unfold free_for. by rewrite Z.eqb_refl. Qed.

Lemma free_count_le locked task p (f : R -> R) l :
  (forall a, p a = true -> locked (f a) = Some task) ->
  (free_count locked task (update_where p f l) <= free_count locked task l)%nat.
Proof.
  intros Hf. unfold free_count, update_where. induction l as [|b l IH]; cbn; [lia|].
  destruct (p b) eqn:Ep; [rewrite (Hf _ Ep), free_for_Some|]; destruct (free_for task (locked b)); cbn; lia.
Qed.

(** Locking a free row makes fewer free. *)
Lemma free_count_lock locked task p (f : R -> R) l a :
  In a l -> free_for task (locked a) = true -> p a = true ->
  (forall a, p a = true -> locked (f a) = Some task) ->
  (free_count locked task (update_where p f l) < free_count locked task l)%nat.
Proof.
  intros Ha Hfree Hp Hf. pose proof (free_count_le locked task p f) as Hle.
  unfold free_count, update_where in *. induction l as [|b l IH]; [done|]. cbn.
  specialize (Hle l Hf). destruct Ha as [->|Ha].
  - rewrite Hp, (Hf _ Hp), free_for_Some, Hfree. cbn. lia.
  - specialize (IH Ha).
    destruct (p b) eqn:Ep; [rewrite (Hf _ Ep), free_for_Some|]; destruct (free_for task (locked b)); cbn; lia.
Qed.

Lemma free_count_keep locked task p (f : R -> R) l :
  (forall a, locked (f a) = locked a) ->
  (free_count locked task (update_where p f l) <= free_count locked task l)%nat.
Proof.
  intros Hf. unfold free_count, update_where. induction l as [|b l IH]; cbn; [lia|].
  destruct (p b); [rewrite Hf|]; destruct (free_for task (locked b)); cbn; lia.
Qed.

Lemma free_count_delete locked task p l :
  (free_count locked task (delete_where p l) <= free_count locked task l)%nat.
Proof.
  unfold free_count, delete_where. induction l as [|b l IH]; cbn; [lia|].
  destruct (p b); cbn; destruct (free_for task (locked b)); cbn; lia.
Qed.

End Rows.

(** ** The interface *)

(** A turn under the invariant [inv] keeps it, and when the worker goes on it has
    used up some of its measure. *)
Class Worker {S E} (turn : M S E Turn) (inv : S -> Prop) (measure : S -> nat) : Prop := {
  turn_inv s r s' : inv s -> turn s = (r, s') -> inv s';
  turn_decreases s s' : inv s -> turn s = (Ok Continue, s') -> (measure s' < measure s)%nat
}.

Section Workers.
Context {S E : Type} (turn : M S E Turn) (inv : S -> Prop) (measure : S -> nat).

(** A worker returns: more fuel than its measure suffices. *)
Lemma worker_returns `{!Worker turn inv measure} fuel s :
  inv s -> (measure s < fuel)%nat ->
  exists s', work_loop fuel turn s = (Ok (Some tt), s') \/ exists e, work_loop fuel turn s = (Err e, s').
Proof.
  revert s. induction fuel as [|fuel IH]; intros s Hi Hm; [lia|]. cbn.
  unfold mbind, M_bind. destruct (turn s) as [[[]|e] s1] eqn:Et.
  - pose proof (turn_inv _ _ _ Hi Et). pose proof (turn_decreases _ _ Hi Et). apply IH; [done|lia].
  - exists s1. by left.
  - exists s1. right. by exists e.
Qed.

(** What holds before a loop and is kept by its turns holds after it. *)
Lemma work_loop_inv fuel s r s' :
  (forall s r s', inv s -> turn s = (r, s') -> inv s') ->
  inv s -> work_loop fuel turn s = (r, s') -> inv s'.
Proof.
  intros Hstep. revert s. induction fuel as [|fuel IH]; cbn; intros s Hi.
  - by intros [= <- <-].
  - intros (q & s1 & H1 & H2)%M_bind_inv. apply (Hstep _ _ _ Hi) in H1.
    destruct q as [[]|e]; [by apply (IH s1)| |by destruct H2 as [_ ->]].
    by injection H2 as <- <-.
Qed.

End Workers.

(** The outcome of a loop that did not run out of fuel. *)
Definition returns {S E} (x : Result E (option unit) * S) : Prop := x.1 ≠ Ok None.

Lemma worker_loop {S E} (t : M S E Turn) inv measure `{!Worker t inv measure} fuel s :
  inv s -> (measure s < fuel)%nat -> returns (work_loop fuel t s).
Proof.
  intros Hi Hm. destruct (worker_returns t inv measure fuel s Hi Hm) as (s' & [->|(e & ->)]); done.
Qed.

(** ** Frames *)

Section Fewer.
Context {Db Req : Type}.
Abbreviation W := (AccessWorld Db Req).

Lemma free_count_length {R} (locked : R -> option Uuid) task l : (free_count locked task l <= length l)%nat.
Proof. apply filter_length_le. Qed.

(** Programs after which there are not more free rows. *)
Definition fewer {R} (locked : R -> option Uuid) (task : Uuid) (t : Db -> list R) : relation (Db * list Req) :=
  fun a b => (free_count locked task (t b.1) <= free_count locked task (t a.1))%nat.
#[export] Instance fewer_rel {R} (locked : R -> option Uuid) task t : ViewRel (fewer locked task t).
Proof. split; [split|]; unfold fewer; [by intros a|intros a b c; lia|done]. Qed.
Lemma same_fewer {R E A} (locked : R -> option Uuid) task t (m : M W E A) :
  framed (same t) m -> framed (fewer locked task t) m.
Proof. intros Hm w r w' E'. apply Hm in E'. unfold same in E'. unfold fewer. by rewrite E'. Qed.
Lemma framed_fewer {R E A} (locked : R -> option Uuid) task t (m : M W E A) w r w' :
  framed (fewer locked task t) m -> m w = (r, w') ->
  (free_count locked task (t (aw_db w')) <= free_count locked task (t (aw_db w)))%nat.
Proof. intros Hm E'. by apply Hm in E'. Qed.

End Fewer.
