(* ===== verification/ClientGroup.v ===== *)
(** * Groups on a client
      ([coreclient/src/groups/mod.rs], [coreclient/src/groups/persistence.rs],
      [coreclient/src/chats/persistence.rs], [apiclient/src/ds_api.rs])

    A [Group] in memory, its rows, and the operations on it that the outbound service
    uses: loading, creating and confirming messages with their collision tags, merging
    and discarding a pending commit, and the clean-up when the delivery service no
    longer knows the group.  OpenMLS and the room policy are a class of operations; a
    group that OpenMLS changes is written to its storage, in the same transaction. *)

From S2P Require Import Prelude Messages Grpc ClientBase OutboundDb.

(** ** Errors of requests ([ds_api.rs]) *)

Inductive DsRequestError :=
| DsLibraryError
| DsTonic (s : Status)
| DsTls
| DsUnexpectedResponse.

(** [DsRequestError::is_wrong_epoch], [is_network_error] and [is_not_found]. *)
Definition is_wrong_epoch (e : DsRequestError) : bool :=
  match e with
  | DsTonic {| code := InvalidArgument; detail := WrongEpochDetail |} => true
  | _ => false
  end.
Definition is_network_error (e : DsRequestError) : bool :=
  match e with
  | DsTonic s =>
      match code s with Unavailable | DeadlineExceeded | Unknown => true | _ => false end
  | _ => false
  end.
Definition is_not_found (e : DsRequestError) : bool :=
  match e with
  | DsTonic s => match code s with NotFound => true | _ => false end
  | _ => false
  end.

(** [anyhow::Error], by what the code downcasts it to. *)
Inductive OutError :=
| OutSqlx (e : SqlxError)
| OutDs (e : DsRequestError)
| OutMlsError
| OutOther.

(** ** Collision tags *)

Inductive SendMessageCollisionTag :=
| Generation (tag : Z)
| DeliveryReceipt (tag : Z)
| ReadReceipt (tag : Z)
| OtherTag (tag : Z).

(** [SendMessageCollisionTag::value]. *)
Definition tag_value (t : SendMessageCollisionTag) : Z :=
  match t with Generation v | DeliveryReceipt v | ReadReceipt v | OtherTag v => v end.

(** [DsRequestError::process_tag_collisions]. *)
Definition process_tag_collisions (e : DsRequestError) (tags : list SendMessageCollisionTag) :
    list SendMessageCollisionTag :=
  match e with
  | DsTonic {| code := AlreadyExists; detail := GenerationCollisionDetail ts |} =>
      List.filter (fun t => existsb (Z.eqb (tag_value t)) ts) tags
  | _ => []
  end.

(** The statuses of the MIMI content format, as the column holds them. *)
Definition STATUS_UNREAD : Z := 0.
Definition STATUS_DELIVERED : Z := 1.
Definition STATUS_READ : Z := 2.
Definition STATUS_DELETED : Z := 4.
Definition STATUS_ERROR : Z := 6.

Record PerMessageStatus := { pms_mimi_id : bytes; pms_status : Z }.
Abbreviation MessageStatusReport := (list PerMessageStatus).

(** ** OpenMLS and the room policy *)

Inductive Sender :=
| SenderMember (i : LeafNodeIndex)
| SenderExternal
| SenderNewMemberProposal
| SenderNewMemberCommit.

(** What the client reads of a proposal: the user of an added key package is its
    client credential, if it is one. *)
Inductive Proposal :=
| RemoveProposal (i : LeafNodeIndex)
| SelfRemoveProposal
| AddProposal (user : option UserId)
| UpdateProposal
| GroupContextExtensionsProposal (group_data : option bytes)
| OtherProposal.

Record QueuedProposal := { qp_sender : Sender; qp_proposal : Proposal }.

Inductive RoleIndex := Outsider | Regular.

Record UnconfirmedMessage (MlsMessageOut : Type) := {
  um_message : MlsMessageOut;
  um_epoch : GroupEpoch;
  um_generation : Z;
  um_generation_id : option bytes
}.
Arguments um_message {MlsMessageOut}.
Arguments um_epoch {MlsMessageOut}.
Arguments um_generation {MlsMessageOut}.
Arguments um_generation_id {MlsMessageOut}.

Class OutMls `{OutTypes} := {
  mls_group_id : MlsGroup -> GroupId;
  mls_epoch : MlsGroup -> GroupEpoch;
  mls_own_leaf_index : MlsGroup -> LeafNodeIndex;
  (** The user of the member at an index, if its credential is a client credential. *)
  mls_user_at : MlsGroup -> LeafNodeIndex -> option UserId;
  (** The users of [members()]. *)
  mls_members : MlsGroup -> list UserId;
  mls_pending_commit : MlsGroup -> option StagedCommit;
  queued_proposals : StagedCommit -> list QueuedProposal;
  mls_create_unconfirmed_message : MlsGroup -> bytes -> bytes ->
    option (UnconfirmedMessage MlsMessageOut * MlsGroup);
  mls_confirm_application_message : MlsGroup -> GroupEpoch -> Z -> option MlsGroup;
  (** The group in memory after merging, and whether it succeeded. *)
  mls_merge_pending_commit : MlsGroup -> MlsGroup * bool;
  mls_clear_pending_commit : MlsGroup -> MlsGroup;
  mls_leave_group_via_self_remove : MlsGroup -> bytes -> option (MlsMessageOut * MlsGroup);
  mls_message_epoch : MlsMessageOut -> option GroupEpoch;
  export_collision_secret : MlsGroup -> LeafNodeIndex -> option CollisionSecret;
  collision_expand : CollisionSecret -> bytes -> Z;
  room_state_encode : VerifiedRoomState -> bytes;
  room_state_decode : bytes -> option VerifiedRoomState;
  fallback_room : list UserId -> VerifiedRoomState;
  apply_change_role : VerifiedRoomState -> UserId -> UserId -> RoleIndex -> option VerifiedRoomState;
  can_change_role : VerifiedRoomState -> UserId -> UserId -> RoleIndex -> bool;
  mimi_serialize : MimiContent -> option bytes;
  mimi_deserialize : bytes -> option MimiContent;
  is_status_update : MimiContent -> bool;
  replaces : MimiContent -> option bytes;
  diff_identity_link_wrapper_key : StagedGroupDiff -> option bytes;
  diff_group_state_ear_key : StagedGroupDiff -> option bytes;
  self_remove_params : MlsMessageOut -> option MlsMessageOut -> SelfRemoveParamsOut;
  t_remove_proposal : SelfRemoveParamsOut -> MlsMessageOut;
  pq_remove_proposal : SelfRemoveParamsOut -> option MlsMessageOut
}.

Record SendMessageParamsOut `{OutTypes} := {
  sp_message : MlsMessageOut;
  sp_sender : LeafNodeIndex;
  sp_suppress_notifications : bool;
  sp_epoch : GroupEpoch;
  sp_generation : Z;
  sp_collision_tags : list SendMessageCollisionTag
}.

(** The requests that the outbound service sends. *)
Inductive OutRequest `{OutTypes} :=
| SendMessageRequest (params : SendMessageParamsOut) (ear_key : bytes)
| SelfRemoveRequest (params : SelfRemoveParamsOut) (ear_key : bytes)
| DeleteGroupRequest (params : DeleteGroupParamsOut) (ear_key : bytes)
| ApqDeleteGroupRequest (commit : ApqCommitMessageBundle) (ear_key : bytes)
| GroupOperationRequest (params : GroupOperationParamsOut) (ear_key user_profile_key : bytes)
| ApqGroupOperationRequest (params : ApqGroupOperationParamsOut) (ear_key user_profile_key : bytes).

(** ** The group in memory *)

Record PqGroup `{OutTypes} := { pq_mls_group : MlsGroup; pq_self_updated_at : option TimeStamp }.
Record SendMessageCollisionKey `{OutTypes} := { ck_epoch : GroupEpoch; ck_secret : CollisionSecret }.

Record Group `{OutTypes} := {
  identity_link_wrapper_key : bytes;
  group_state_ear_key : bytes;
  mls_group : MlsGroup;
  room_state : VerifiedRoomState;
  pending_diff : option StagedGroupDiff;
  self_updated_at : option TimeStamp;
  pq : option PqGroup;
  pending_commit_failed : bool;
  send_message_collision_key : option SendMessageCollisionKey
}.

Inductive SystemMessage :=
| SystemRemove (remover removed : UserId)
| SystemAdd (adder added : UserId)
| ChangeTitle (user : UserId) (old_title new_title : bytes)
| ChangePicture (user : UserId).
Record TimestampedMessage := { tm_timestamp : TimeStamp; tm_message : SystemMessage }.

Section Group.
Context `{OutMls} {Req : Type}.
Abbreviation W := (AccessWorld OutDb Req).
Context (sqlite : nat -> option SqlxError).
Implicit Types (g : Group).

Abbreviation fetch := (fetch sqlite).
Abbreviation execute := (execute sqlite).
Definition sqlx {A} (m : M W SqlxError A) : M W OutError A := map_errM OutSqlx m.

Definition group_id g : GroupId := mls_group_id (mls_group g).
Definition is_apq g : bool := match pq g with Some _ => true | None => false end.
(** [Group::members]. *)
Definition members g : list UserId := mls_members (mls_group g).

Definition with_mls_group (m : MlsGroup) g : Group :=
  {| identity_link_wrapper_key := identity_link_wrapper_key g;
     group_state_ear_key := group_state_ear_key g; mls_group := m; room_state := room_state g;
     pending_diff := pending_diff g; self_updated_at := self_updated_at g; pq := pq g;
     pending_commit_failed := pending_commit_failed g;
     send_message_collision_key := send_message_collision_key g |}.
Definition with_pq (p : option PqGroup) g : Group :=
  {| identity_link_wrapper_key := identity_link_wrapper_key g;
     group_state_ear_key := group_state_ear_key g; mls_group := mls_group g;
     room_state := room_state g; pending_diff := pending_diff g;
     self_updated_at := self_updated_at g; pq := p;
     pending_commit_failed := pending_commit_failed g;
     send_message_collision_key := send_message_collision_key g |}.
Definition with_room_state (r : VerifiedRoomState) g : Group :=
  {| identity_link_wrapper_key := identity_link_wrapper_key g;
     group_state_ear_key := group_state_ear_key g; mls_group := mls_group g; room_state := r;
     pending_diff := pending_diff g; self_updated_at := self_updated_at g; pq := pq g;
     pending_commit_failed := pending_commit_failed g;
     send_message_collision_key := send_message_collision_key g |}.
Definition with_failed (b : bool) g : Group :=
  {| identity_link_wrapper_key := identity_link_wrapper_key g;
     group_state_ear_key := group_state_ear_key g; mls_group := mls_group g;
     room_state := room_state g; pending_diff := pending_diff g;
     self_updated_at := self_updated_at g; pq := pq g; pending_commit_failed := b;
     send_message_collision_key := send_message_collision_key g |}.
Definition with_keys (iwk ear : bytes) (diff : option StagedGroupDiff)
    (ck : option SendMessageCollisionKey) g : Group :=
  {| identity_link_wrapper_key := iwk; group_state_ear_key := ear; mls_group := mls_group g;
     room_state := room_state g; pending_diff := diff; self_updated_at := self_updated_at g;
     pq := pq g; pending_commit_failed := pending_commit_failed g;
     send_message_collision_key := ck |}.
Definition with_updated_at (t : option TimeStamp) g : Group :=
  {| identity_link_wrapper_key := identity_link_wrapper_key g;
     group_state_ear_key := group_state_ear_key g; mls_group := mls_group g;
     room_state := room_state g; pending_diff := pending_diff g; self_updated_at := t; pq := pq g;
     pending_commit_failed := pending_commit_failed g;
     send_message_collision_key := send_message_collision_key g |}.

(** OpenMLS writes a group to its storage. *)
Definition mls_write (m : MlsGroup) : M W SqlxError unit :=
  execute (fun d => set_mls_storage (<[mls_group_id m := m]> (mls_storage d)) d).
Definition or_mls {A} (o : option A) : M W OutError A := lift (ok_or OutMlsError o).

(** ** Loading ([persistence.rs]) *)

Definition find_group (gid : GroupId) (d : OutDb) : option GroupRow :=
  find (fun r => bytes_eqb (gr_group_id r) gid) (group_table d).

(** [SqlGroup::into_group]. *)
Definition into_group (r : GroupRow) (m : MlsGroup) (pq_m : option MlsGroup) : Group :=
  {| identity_link_wrapper_key := gr_identity_link_wrapper_key r;
     group_state_ear_key := gr_group_state_ear_key r;
     mls_group := m;
     room_state := default (fallback_room (mls_members m)) (room_state_decode (gr_room_state r));
     pending_diff := gr_pending_diff r;
     self_updated_at := gr_self_updated_at r;
     pq := (fun m => {| pq_mls_group := m; pq_self_updated_at := gr_pq r ≫= snd |}) <$> pq_m;
     pending_commit_failed := gr_pending_commit_failed r;
     send_message_collision_key := None |}.

(** [SqlGroup::augment]. *)
Definition augment (r : GroupRow) : M W SqlxError (option Group) :=
  m ← fetch (fun d => mls_storage d !! gr_group_id r);
  match m with
  | None => mret None
  | Some m =>
      match gr_pq r with
      | None => mret (Some (into_group r m None))
      | Some (pq_id, _) =>
          pq_m ← fetch (fun d => mls_storage d !! pq_id);
          match pq_m with
          | None => mret None
          | Some pq_m => mret (Some (into_group r m (Some pq_m)))
          end
      end
  end.

(** [Group::load], and [load_verified], which wraps it. *)
Definition group_load (gid : GroupId) : M W SqlxError (option Group) :=
  r ← fetch (find_group gid);
  match r with None => mret None | Some r => augment r end.

(** [Group::load_with_chat_id]. *)
Definition group_load_with_chat_id (cid : Uuid) : M W SqlxError (option Group) :=
  r ← fetch (fun d =>
        c ← find (fun c => chat_id c =? cid) (chat d); find_group (chat_group_id c) d);
  match r with None => mret None | Some r => augment r end.

(** [Group::ensure_clean]. *)
Definition ensure_clean g : bool :=
  match mls_pending_commit (mls_group g) with
  | Some _ => false
  | None =>
      match pq g with
      | Some p => match mls_pending_commit (pq_mls_group p) with Some _ => false | None => true end
      | None => true
      end
  end.

Definition cleanly (m : M W SqlxError (option Group)) : M W OutError (option Group) :=
  g ← sqlx m;
  match g with
  | None => mret None
  | Some g => if ensure_clean g then mret (Some g) else throw OutOther
  end.
(** [Group::load_clean] and [load_with_chat_id_clean]. *)
Definition load_clean (gid : GroupId) : M W OutError (option Group) := cleanly (group_load gid).
Definition load_with_chat_id_clean (cid : Uuid) : M W OutError (option Group) :=
  cleanly (group_load_with_chat_id cid).

Definition update_group (gid : GroupId) (f : GroupRow -> GroupRow) : M W SqlxError unit :=
  execute (fun d =>
    set_group_table (update_where (fun r => bytes_eqb (gr_group_id r) gid) f (group_table d)) d).

(** [ChatId::load_from_group_id]. *)
Definition find_chat_by_group (gid : GroupId) (d : OutDb) : option ChatRow :=
  find (fun c => bytes_eqb (chat_group_id c) gid) (chat d).
Definition notify_chat_of_group (gid : GroupId) : M W SqlxError unit :=
  c ← fetch (find_chat_by_group gid);
  match c with Some c => notify_update (EntityChat (chat_id c)) | None => mret tt end.

(** [Group::store_pending_commit_failed]. *)
Definition with_row_failed (b : bool) (r : GroupRow) : GroupRow :=
  {| gr_group_id := gr_group_id r; gr_identity_link_wrapper_key := gr_identity_link_wrapper_key r;
     gr_group_state_ear_key := gr_group_state_ear_key r; gr_pending_diff := gr_pending_diff r;
     gr_room_state := gr_room_state r; gr_self_updated_at := gr_self_updated_at r;
     gr_pending_commit_failed := b; gr_pq := gr_pq r |}.
Definition store_pending_commit_failed g : M W SqlxError unit :=
  update_group (group_id g) (with_row_failed (pending_commit_failed g)).

(** [Group::store_update]. *)
Definition store_update (t pq_t : option TimeStamp) g : M W SqlxError Group :=
  _ ← update_group (group_id g) (fun r =>
    {| gr_group_id := gr_group_id r; gr_identity_link_wrapper_key := identity_link_wrapper_key g;
       gr_group_state_ear_key := group_state_ear_key g; gr_pending_diff := pending_diff g;
       gr_room_state := room_state_encode (room_state g);
       gr_self_updated_at := match t with Some t => Some t | None => gr_self_updated_at r end;
       gr_pending_commit_failed := pending_commit_failed g; gr_pq := gr_pq r |});
  let g1 := match t with Some _ => with_updated_at t g | None => g end in
  match pq g1 with
  | None => mret g1
  | Some p =>
      _ ← update_group (group_id g) (fun r =>
        {| gr_group_id := gr_group_id r;
           gr_identity_link_wrapper_key := gr_identity_link_wrapper_key r;
           gr_group_state_ear_key := gr_group_state_ear_key r; gr_pending_diff := gr_pending_diff r;
           gr_room_state := gr_room_state r; gr_self_updated_at := gr_self_updated_at r;
           gr_pending_commit_failed := gr_pending_commit_failed r;
           gr_pq := (fun x => (x.1, match pq_t with Some t => Some t | None => x.2 end)) <$> gr_pq r |});
      mret (match pq_t with
            | Some _ => with_pq (Some {| pq_mls_group := pq_mls_group p; pq_self_updated_at := pq_t |}) g1
            | None => g1
            end)
  end.

(** [Group::delete_from_db]: the foreign keys delete the row of [pq_group] and the
    pending operation with the group. *)
Definition delete_group_rows (gid : GroupId) (d : OutDb) : OutDb :=
  set_pending_chat_operation
    (delete_where (fun r => bytes_eqb (po_group_id r) gid) (pending_chat_operation d))
    (set_group_table (delete_where (fun r => bytes_eqb (gr_group_id r) gid) (group_table d)) d).
Definition delete_from_db (gid : GroupId) : M W SqlxError unit :=
  g ← group_load gid;
  _ ← (match g with
       | Some _ => execute (fun d => set_mls_storage (delete gid (mls_storage d)) d)
       | None => mret tt
       end);
  pq_id ← fetch (fun d => r ← find_group gid d; fst <$> gr_pq r);
  _ ← (match pq_id with
       | Some pq_id => execute (fun d => set_mls_storage (delete pq_id (mls_storage d)) d)
       | None => mret tt
       end);
  execute (delete_group_rows gid).

(** ** Commits ([groups/mod.rs]) *)

(** Methods that change the group in memory as they go. *)
Abbreviation GW := (W * Group)%type.
Abbreviation this := (recall (fun g : Group => g)).

(** [Group::mark_commit_failed] and [Group::clear_commit_failed]. *)
Definition set_commit_failed (b : bool) : M GW SqlxError unit :=
  _ ← assign (with_failed b);
  g ← this;
  on_world (_ ← store_pending_commit_failed g; notify_chat_of_group (group_id g)).
Definition mark_commit_failed : M GW SqlxError unit :=
  g ← this; if pending_commit_failed g then mret tt else set_commit_failed true.
Definition clear_commit_failed : M GW SqlxError unit :=
  g ← this; if pending_commit_failed g then set_commit_failed false else mret tt.

(** [MlsGroup::clear_pending_commit] does nothing without a pending commit. *)
Definition clear_pending (m : MlsGroup) (keep : MlsGroup -> Group -> Group) : M GW OutError unit :=
  match mls_pending_commit m with
  | None => mret tt
  | Some _ =>
      let m' := mls_clear_pending_commit m in
      _ ← assign (keep m'); on_world (sqlx (mls_write m'))
  end.
Definition merge_pending (m : MlsGroup) (keep : MlsGroup -> Group -> Group) : M GW OutError unit :=
  let '(m', merged) := mls_merge_pending_commit m in
  _ ← assign (keep m');
  if merged : bool then on_world (sqlx (mls_write m')) else throw OutMlsError.
Definition with_pq_mls_group (m : MlsGroup) g : Group :=
  with_pq ((fun p => {| pq_mls_group := m; pq_self_updated_at := pq_self_updated_at p |}) <$> pq g) g.

(** [Group::discard_pending_commit]. *)
Definition discard_pending_commit : M GW OutError unit :=
  _ ← map_errM OutSqlx clear_commit_failed;
  _ ← assign (fun g => with_keys (identity_link_wrapper_key g) (group_state_ear_key g) None
                         (send_message_collision_key g) g);
  g ← this;
  _ ← clear_pending (mls_group g) with_mls_group;
  match pq g with
  | None => mret tt
  | Some p => clear_pending (pq_mls_group p) with_pq_mls_group
  end.

(** [removed_client]. *)
Definition removed_client (p : QueuedProposal) : option LeafNodeIndex :=
  match qp_proposal p, qp_sender p with
  | RemoveProposal i, _ => Some i
  | SelfRemoveProposal, SenderMember i => Some i
  | _, _ => None
  end.

(** [Group::compile_removed_list]. *)
Definition compile_removed_list g (ps : list QueuedProposal) : list (UserId * UserId) :=
  omap (fun p =>
    match qp_sender p with
    | SenderMember i =>
        remover ← mls_user_at (mls_group g) i;
        j ← removed_client p;
        removed ← mls_user_at (mls_group g) j;
        Some (remover, removed)
    | _ => None
    end) ps.

(** [Group::pending_adds]. *)
Definition pending_adds g (ps : list QueuedProposal) : list (UserId * UserId) :=
  omap (fun p =>
    match qp_proposal p, qp_sender p with
    | AddProposal user, SenderMember i =>
        adder ← mls_user_at (mls_group g) i;
        added ← user;
        Some (adder, added)
    | _, _ => None
    end) ps.

(** [Group::room_state_change_role]. *)
Definition room_state_change_role (sender target : UserId) (role : RoleIndex) g :
    Result OutError Group :=
  r ← ok_or OutOther (apply_change_role (room_state g) sender target role);
  Ok (with_room_state r g).

Definition change_role (role : RoleIndex) (x : UserId * UserId) : M GW OutError unit :=
  g ← this; g' ← lift (room_state_change_role x.1 x.2 role g); assign (fun _ => g').

(** [Group::apply_staged_operations_to_room_state] for the pending commit, as its
    caller in this model uses it. *)
Definition apply_staged_operations_to_room_state : M GW OutError unit :=
  g ← this;
  let ps := match mls_pending_commit (mls_group g) with
            | Some c => queued_proposals c | None => [] end in
  _ ← mapM_ (change_role Outsider) (compile_removed_list g ps);
  mapM_ (change_role Regular) (pending_adds g ps).

(** [GroupDataBytes::from_staged_commit]. *)
Definition group_data_from_staged_commit (c : StagedCommit) : option bytes :=
  head (omap (fun p => match qp_proposal p with
                       | GroupContextExtensionsProposal (Some b) => Some b
                       | _ => None
                       end) (queued_proposals c)).

(** The removals and additions of [TimestampedMessage::from_staged_commit]. *)
Definition staged_removal g (p : QueuedProposal) : Result OutError (option (UserId * UserId)) :=
  match qp_proposal p with
  | RemoveProposal _ | SelfRemoveProposal =>
      match qp_sender p with
      | SenderExternal | SenderNewMemberProposal => Err OutOther
      | SenderNewMemberCommit => Ok None
      | SenderMember i =>
          remover ← ok_or OutOther (mls_user_at (mls_group g) i);
          match removed_client p with
          | None => Ok None
          | Some j =>
              removed ← ok_or OutOther (mls_user_at (mls_group g) j);
              Ok (if bool_decide (remover = removed) then None else Some (remover, removed))
          end
      end
  | _ => Ok None
  end.
Definition staged_addition g (p : QueuedProposal) : Result OutError (option (UserId * UserId)) :=
  match qp_proposal p with
  | AddProposal user =>
      match qp_sender p with
      | SenderMember i =>
          adder ← ok_or OutOther (mls_user_at (mls_group g) i);
          added ← ok_or OutOther user;
          Ok (Some (adder, added))
      | _ => Err OutOther
      end
  | _ => Ok None
  end.
(** [TimestampedMessage::from_staged_commit]: the pairs are sets; the model keeps the
    order of the proposals. *)
Definition from_staged_commit g (c : StagedCommit) (t : TimeStamp) :
    Result OutError (list TimestampedMessage) :=
  rs ← mapM_r (staged_removal g) (queued_proposals c);
  adds ← mapM_r (staged_addition g) (queued_proposals c);
  _ ← ensure (forallb (fun p => match qp_proposal p, qp_sender p with
                                | UpdateProposal, SenderMember _ => true
                                | UpdateProposal, _ => false
                                | _, _ => true
                                end) (queued_proposals c)) OutOther;
  Ok (map (fun x => {| tm_timestamp := t; tm_message := SystemRemove x.1 x.2 |})
        (remove_dups (omap id rs)) ++
      map (fun x => {| tm_timestamp := t; tm_message := SystemAdd x.1 x.2 |})
        (remove_dups (omap id adds))).

(** The T group is merged, and the PQ group if it has a pending commit. *)
Definition merge_groups g : M GW OutError unit :=
  _ ← merge_pending (mls_group g) with_mls_group;
  match pq g with
  | Some p =>
      match mls_pending_commit (pq_mls_group p) with
      | Some _ => merge_pending (pq_mls_group p) with_pq_mls_group
      | None => mret tt
      end
  | None => mret tt
  end.

(** [Group::merge_pending_commit] without a staged commit of another member. *)
Definition merge_pending_commit (t : TimeStamp) : M GW OutError (list TimestampedMessage * option bytes) :=
  _ ← apply_staged_operations_to_room_state;
  g ← this;
  out ← (match mls_pending_commit (mls_group g) with
         | Some c =>
             ms ← lift (from_staged_commit g c t);
             mret (ms, group_data_from_staged_commit c)
         | None => mret ([], None)
         end);
  _ ← merge_groups g;
  _ ← assign (fun g =>
        with_keys (default (identity_link_wrapper_key g) (pending_diff g ≫= diff_identity_link_wrapper_key))
          (default (group_state_ear_key g) (pending_diff g ≫= diff_group_state_ear_key)) None None g);
  _ ← map_errM OutSqlx clear_commit_failed;
  mret out.

(** ** Messages *)

(** [generation_id_to_collision_tag]. *)
Definition generation_id_to_collision_tag (id : bytes) : Z := as_i64 (from_le_bytes (take 8 id)).

(** [GenerateCollisionTag for PerMessageStatus]. *)
Definition collision_tag (key : SendMessageCollisionKey) (p : PerMessageStatus) :
    SendMessageCollisionTag :=
  let derive prefix := collision_expand (ck_secret key) (bytes_of_string prefix ++ pms_mimi_id p) in
  if pms_status p =? STATUS_DELIVERED then DeliveryReceipt (derive "delivered"%string)
  else if pms_status p =? STATUS_READ then ReadReceipt (derive "read"%string)
  else OtherTag (derive "aux"%string).

(** [Group::ensure_collision_key]. *)
Definition ensure_collision_key g : Result OutError (SendMessageCollisionKey * Group) :=
  let fresh :=
    s ← ok_or OutMlsError (export_collision_secret (mls_group g) (mls_own_leaf_index (mls_group g)));
    let key := {| ck_epoch := mls_epoch (mls_group g); ck_secret := s |} in
    Ok (key, with_keys (identity_link_wrapper_key g) (group_state_ear_key g) (pending_diff g)
               (Some key) g) in
  match send_message_collision_key g with
  | Some key => if ck_epoch key =? mls_epoch (mls_group g) then Ok (key, g) else fresh
  | None => fresh
  end.

(** [suppress_notifications]. *)
Definition suppress_notifications (c : MimiContent) : bool :=
  is_status_update c || match replaces c with Some _ => true | None => false end.

(** [Group::create_message]. *)
Definition create_message (signer : bytes) (c : MimiContent) (report : option MessageStatusReport) g :
    M W OutError (SendMessageParamsOut * Group) :=
  body ← lift (ok_or OutOther (mimi_serialize c));
  x ← or_mls (mls_create_unconfirmed_message (mls_group g) signer body);
  let '(um, m) := x in
  _ ← sqlx (mls_write m);
  let g1 := with_mls_group m g in
  y ← (match um_generation_id um with
       | None => mret ([], g1)
       | Some id =>
           let gen := Generation (generation_id_to_collision_tag id) in
           match report with
           | None => mret ([gen], g1)
           | Some statuses =>
               z ← lift (ensure_collision_key g1);
               mret (gen :: map (collision_tag z.1) statuses, z.2)
           end
       end);
  let '(tags, g2) := y in
  mret ({| sp_message := um_message um; sp_sender := mls_own_leaf_index (mls_group g2);
           sp_suppress_notifications := suppress_notifications c; sp_epoch := um_epoch um;
           sp_generation := um_generation um; sp_collision_tags := tags |}, g2).

(** [Group::confirm_application_message]. *)
Definition confirm_application_message (epoch : GroupEpoch) (generation : Z) g : M W OutError Group :=
  m ← or_mls (mls_confirm_application_message (mls_group g) epoch generation);
  _ ← sqlx (mls_write m);
  mret (with_mls_group m g).

(** [Group::stage_leave_group]. *)
Definition self_remove (signer : bytes) (m : MlsGroup) (keep : MlsGroup -> Group -> Group) :
    M GW OutError MlsMessageOut :=
  x ← lift (ok_or OutMlsError (mls_leave_group_via_self_remove m signer));
  _ ← assign (keep x.2);
  _ ← on_world (sqlx (mls_write x.2));
  mret x.1.
Definition stage_leave_group (signer : bytes) : M GW OutError SelfRemoveParamsOut :=
  g ← this;
  t ← self_remove signer (mls_group g) with_mls_group;
  match pq g with
  | None => mret (self_remove_params t None)
  | Some p =>
      q ← self_remove signer (pq_mls_group p) with_pq_mls_group;
      mret (self_remove_params t (Some q))
  end.

(** [Group::restage_leave_group]: a proposal is made anew if its epoch has passed. *)
Definition restage (signer : bytes) (existing : option MlsMessageOut) (m : MlsGroup)
    (keep : MlsGroup -> Group -> Group) : M GW OutError MlsMessageOut :=
  match existing with
  | Some p =>
      if bool_decide (mls_message_epoch p = Some (mls_epoch m)) then mret p else self_remove signer m keep
  | None => self_remove signer m keep
  end.
Definition restage_leave_group (signer : bytes) (existing : SelfRemoveParamsOut) :
    M GW OutError SelfRemoveParamsOut :=
  g ← this;
  t ← restage signer (Some (t_remove_proposal existing)) (mls_group g) with_mls_group;
  match pq g with
  | None => mret (self_remove_params t None)
  | Some p =>
      q ← restage signer (pq_remove_proposal existing) (pq_mls_group p) with_pq_mls_group;
      mret (self_remove_params t (Some q))
  end.

(** ** Chats *)

Inductive ChatStatus := Inactive (past_members : list UserId) | Active | Blocked.

Definition is_blocked_user (d : OutDb) (u : option UserId) : bool :=
  match u with
  | Some u => existsb (fun v => bool_decide (u = v)) (blocked_contact d)
  | None => false
  end.
(** [SqlChat::convert], its status. *)
Definition chat_status (d : OutDb) (c : ChatRow) : ChatStatus :=
  if is_blocked_user d (connection_user c) then Blocked
  else if is_active c then Active else Inactive (chat_past_member c).
(** [Chat::load] and [Chat::load_by_group_id], with the status. *)
Definition find_chat (cid : Uuid) (d : OutDb) : option ChatRow :=
  find (fun c => chat_id c =? cid) (chat d).
Definition chat_load (cid : Uuid) : M W SqlxError (option (ChatRow * ChatStatus)) :=
  fetch (fun d => (fun c => (c, chat_status d c)) <$> find_chat cid d).
Definition chat_load_by_group_id (gid : GroupId) : M W SqlxError (option (ChatRow * ChatStatus)) :=
  fetch (fun d => (fun c => (c, chat_status d c)) <$> find_chat_by_group gid d).

(** [Chat::is_blocked]. *)
Definition chat_is_blocked (cid : Uuid) : M W SqlxError bool :=
  fetch (fun d => match find_chat cid d with
                  | Some c => is_blocked_user d (connection_user c)
                  | None => false
                  end).

Definition update_chat (cid : Uuid) (f : ChatRow -> ChatRow) : M W SqlxError unit :=
  execute (fun d => set_chat (update_where (fun c => chat_id c =? cid) f (chat d)) d).

(** [Chat::set_inactive] with [Chat::update_status]. *)
Definition set_inactive (cid : Uuid) (past : list UserId) : M W SqlxError unit :=
  _ ← update_chat cid (with_is_active false);
  _ ← update_chat cid (with_past_members []);
  _ ← mapM_ (fun u => update_chat cid (fun c =>
        with_past_members
          (insert_or_nothing (fun v => bool_decide (u = v)) u (chat_past_member c)) c)) past;
  notify_update (EntityChat cid).

(** [Resync::remove]. *)
Definition resync_remove (gid : GroupId) : M W SqlxError unit :=
  execute (fun d =>
    set_resync_queue (delete_where (fun r => bytes_eqb (rs_group_id r) gid) (resync_queue d)) d).

(** [handle_group_not_found_on_ds]. *)
Definition handle_group_not_found_on_ds (gid : GroupId) : M W OutError unit :=
  g ← sqlx (group_load gid);
  let past := match g with Some g => members g | None => [] end in
  c ← sqlx (chat_load_by_group_id gid);
  _ ← (match c with
       | Some (_, Inactive _) | None => mret tt
       | Some (c, _) => sqlx (set_inactive (chat_id c) past)
       end);
  _ ← sqlx (resync_remove gid);
  sqlx (delete_from_db gid).

End Group.
