(* ===== verification/OutboundSend.v ===== *)
(** * Sending queued messages, reactions and receipts
      ([coreclient/src/outbound_service/chat_messages.rs], [chat_message_queue.rs],
      [reactions.rs], [reaction_queue.rs], [receipts.rs], [receipt_queue.rs])

    The workers of the outbound service that empty the queues of outgoing application
    messages.  A worker locks a row with the id of its run, so that it sees each row
    once, and loops until nothing is left; its loop has fuel.  The delivery service, the
    clock, fresh ids and the cancellation token of the run are oracles. *)

From S2P Require Import Prelude Messages Grpc ClientBase OutboundDb OutboundWorker ClientGroup.

(** ** Outcomes *)

Inductive SendOutcome := Sent | Collided.

Inductive ReceiptSendOutcome := ReceiptSent | ReceiptCollided (delivered : MessageStatusReport).

Inductive OutboundServiceError := Fatal (e : OutError) | Recoverable (e : OutError).

(** [classify_ds_error]. *)
Definition classify_ds_error (e : DsRequestError) : OutboundServiceError :=
  if is_not_found e then Fatal (OutDs e) else Recoverable (OutDs e).

(** [partition_collided_receipts]: the statuses are paired with the tags that are not
    the generation's. *)
Definition is_generation (t : SendMessageCollisionTag) : bool :=
  match t with Generation _ => true | _ => false end.
Definition partition_collided_receipts (report : MessageStatusReport)
    (sent_tags collisions : list SendMessageCollisionTag) : MessageStatusReport * bool :=
  let collided v := existsb (fun t => tag_value t =? v) collisions in
  let pairs := zip report (List.filter (fun t => negb (is_generation t)) sent_tags) in
  (map fst (List.filter (fun x => collided (tag_value x.2)) pairs),
   existsb (fun x => negb (collided (tag_value x.2))) pairs).

Section Send.
Context `{OutMls}.
Abbreviation W := (AccessWorld OutDb OutRequest).
Context (sqlite : nat -> option SqlxError).
(** [Utc::now], [Uuid::new_v4] and [run_token.is_cancelled]. *)
Context (now : nat -> TimeStamp) (new_v4 : nat -> Uuid) (cancelled : nat -> bool).
(** [ApiClients::get] for the owner of a group, and the answers to [ds_send_message]. *)
Context (api_client : GroupId -> bool).
Context (ds_send_message : SendMessageParamsOut -> nat -> Result DsRequestError TimeStamp).
(** The key store and the row of [OwnClientInfo]. *)
Context (signing_key : bytes) (user_id : UserId).
Context (self_group_id : option GroupId) (self_group_signing_key : option bytes).
(** [UnsentReceipt::new] serializes the report into a status message. *)
Context (status_content : MessageStatusReport -> option MimiContent).

Abbreviation fetch := (fetch sqlite).
Abbreviation execute := (execute sqlite).
Abbreviation sqlx := (@sqlx _ OutRequest _).
Abbreviation transaction := (with_write_transaction sqlite OutSqlx).

Definition context {A} (o : option A) : M W OutError A := lift (ok_or OutOther o).

(** ** Pending operations of a chat *)

(** [PendingChatOperation::is_pending_for_chat]. *)
Definition operation_pending (cid : Uuid) (d : OutDb) : bool :=
  existsb (fun c => (chat_id c =? cid) &&
    existsb (fun r => bytes_eqb (po_group_id r) (chat_group_id c)) (pending_chat_operation d)) (chat d).
Definition operation_is_pending_for_chat (cid : Uuid) : M W SqlxError bool :=
  fetch (operation_pending cid).

(** [Resync::is_pending_for_chat]. *)
Definition resync_pending (cid : Uuid) (d : OutDb) : bool :=
  existsb (fun r => rs_chat_id r =? cid) (resync_queue d).
Definition resync_is_pending_for_chat (cid : Uuid) : M W SqlxError bool := fetch (resync_pending cid).

(** ** MLS messages ([receipts.rs]) *)

(** [OutboundServiceContext::signer_for_group]. *)
Definition signer_for_group (gid : GroupId) : M W OutError bytes :=
  with_read sqlite OutSqlx (
    _ ← sqlx (statement sqlite);
    if bool_decide (self_group_id = Some gid) then context self_group_signing_key
    else mret signing_key).

(** [OutboundServiceContext::new_mls_message]. *)
Definition new_mls_message (gid : GroupId) (c : MimiContent) (report : option MessageStatusReport) :
    M W OutError (bytes * SendMessageParamsOut) :=
  signer ← signer_for_group gid;
  transaction (
    g ← load_clean sqlite gid;
    g ← context g;
    x ← create_message sqlite signer c report g;
    mret (group_state_ear_key x.2, x.1)).

(** [OutboundServiceContext::confirm_mls_message]. *)
Definition confirm_mls_message (gid : GroupId) (epoch : GroupEpoch) (generation : Z) :
    M W OutError unit :=
  transaction (
    g ← sqlx (group_load sqlite gid);
    g ← context g;
    _ ← confirm_application_message sqlite epoch generation g;
    mret tt).

(** The request: [api_clients.get(..)?.ds_send_message(..)]. *)
Definition send_request (params : SendMessageParamsOut) (ear : bytes) :
    M W OutError (Result DsRequestError TimeStamp) :=
  fun w => (Ok (ds_send_message params (aw_clock w)), log_request (SendMessageRequest params ear) w).

(** ** Chat messages *)

Definition find_message (id : Uuid) (d : OutDb) : option MessageRow :=
  find (fun m => message_id m =? id) (message d).
Definition update_message (id : Uuid) (f : MessageRow -> MessageRow) : M W SqlxError unit :=
  execute (fun d => set_message (update_where (fun m => message_id m =? id) f (message d)) d).

(** [ChatMessage::is_sent]. *)
Definition is_sent (m : MessageRow) : bool :=
  match content m with Some _ => sent m | None => true end.

(** [ChatMessageQueue::enqueue]. *)
Definition message_enqueue (cid id : Uuid) : M W SqlxError unit :=
  t ← ask now;
  execute (fun d => set_chat_message_queue
    (insert_or_nothing (fun q => mq_message_id q =? id)
       {| mq_message_id := id; mq_chat_id := cid; mq_created_at := t; mq_locked_by := None |}
       (chat_message_queue d)) d).

(** [OutboundService::enqueue_chat_message_in_transaction]: whether it notifies the
    background task. *)
Definition enqueue_chat_message_in_transaction (id : Uuid) : M W OutError bool :=
  m ← sqlx (fetch (find_message id));
  m ← context m;
  blocked ← sqlx (chat_is_blocked sqlite (message_chat_id m));
  if blocked : bool then mret false
  else _ ← sqlx (message_enqueue (message_chat_id m) id); mret true.
Definition enqueue_chat_message (id : Uuid) : M W OutError bool :=
  transaction (enqueue_chat_message_in_transaction id).

(** [ChatMessageQueue::dequeue]. *)
Definition next_message (task_id : Uuid) (d : OutDb) : option MessageQueueRow :=
  least (fun a b => mq_created_at a <=? mq_created_at b)
    (List.filter (fun q => free_for task_id (mq_locked_by q)) (chat_message_queue d)).
Definition lock_message (task_id : Uuid) (q : MessageQueueRow) : MessageQueueRow :=
  {| mq_message_id := mq_message_id q; mq_chat_id := mq_chat_id q;
     mq_created_at := mq_created_at q; mq_locked_by := Some task_id |}.
Definition message_dequeue (task_id : Uuid) : M W OutError (option (Uuid * Uuid)) :=
  q ← sqlx (fetch (next_message task_id));
  match q with
  | None => mret None
  | Some q =>
      let id := mq_message_id q in
      _ ← sqlx (execute (fun d => set_chat_message_queue
            (update_where (fun r => mq_message_id r =? id) (lock_message task_id)
               (chat_message_queue d)) d));
      row ← gets (fun w => find (fun r => mq_message_id r =? id) (chat_message_queue (aw_db w)));
      mret ((fun r => (mq_chat_id r, mq_message_id r)) <$> row)
  end.

(** [ChatMessageQueue::remove]. *)
Definition message_remove (id : Uuid) : M W SqlxError unit :=
  execute (fun d => set_chat_message_queue
    (delete_where (fun q => mq_message_id q =? id) (chat_message_queue d)) d).

Definition with_message_status (s : Z) (m : MessageRow) : MessageRow :=
  {| message_id := message_id m; message_chat_id := message_chat_id m; mimi_id := mimi_id m;
     content := content m; sent := sent m; message_timestamp := message_timestamp m;
     edited_at := edited_at m; message_row_status := s |}.

(** [ChatMessageQueue::remove_and_mark_as_failed]. *)
Definition remove_and_mark_as_failed (id : Uuid) : M W SqlxError unit :=
  _ ← update_message id (with_message_status STATUS_ERROR);
  _ ← message_remove id;
  notify_update (EntityMessage id).

(** [OutboundService::fail_enqueued_chat_message]. *)
Definition fail_enqueued_chat_message (id : Uuid) : M W OutError unit :=
  transaction (
    m ← sqlx (fetch (find_message id));
    m ← context m;
    blocked ← sqlx (chat_is_blocked sqlite (message_chat_id m));
    if blocked : bool then mret tt else sqlx (remove_and_mark_as_failed id)).

(** [ChatMessageQueue::remove_all_and_and_mark_as_failed].  The table
    [chat_message_queue] has no column [remote_attachment_id]: in
    [DELETE FROM pending_attachment WHERE remote_attachment_id IN (SELECT
    remote_attachment_id FROM chat_message_queue)] the inner name is the column of
    [pending_attachment], so that the condition holds of every row as soon as the queue
    has one. *)
Definition fail_all (d : OutDb) : OutDb :=
  let queued id := existsb (fun q => mq_message_id q =? id) (chat_message_queue d) in
  set_chat_message_queue []
    (set_pending_attachment
       (match chat_message_queue d with [] => pending_attachment d | _ => [] end)
       (set_message (update_where (fun m => queued (message_id m)) (with_message_status STATUS_ERROR)
                       (message d)) d)).
Definition remove_all_and_mark_as_failed : M W SqlxError unit :=
  ids ← fetch (fun d => map mq_message_id (chat_message_queue d));
  _ ← execute fail_all;
  mapM_ (fun id => notify_update (EntityMessage id)) ids.

(** [ChatMessage::mark_as_sent], with [update_sent_status]. *)
Definition with_sent (t : TimeStamp) (m : MessageRow) : MessageRow :=
  {| message_id := message_id m; message_chat_id := message_chat_id m; mimi_id := mimi_id m;
     content := content m; sent := true; message_timestamp := t;
     edited_at := edited_at m; message_row_status := message_row_status m |}.
Definition mark_as_sent (t : TimeStamp) (m : MessageRow) : M W SqlxError MessageRow :=
  _ ← update_message (message_id m) (with_sent t);
  rows ← gets (fun w => length (List.filter (fun r => message_id r =? message_id m) (message (aw_db w))));
  _ ← (if (rows =? 1)%nat then notify_update (EntityMessage (message_id m)) else mret tt);
  mret (match content m with Some _ => with_sent t m | None => m end).

Definition with_edited_at (t : TimeStamp) (m : MessageRow) : MessageRow :=
  {| message_id := message_id m; message_chat_id := message_chat_id m; mimi_id := mimi_id m;
     content := content m; sent := sent m; message_timestamp := message_timestamp m;
     edited_at := match content m with Some _ => Some t | None => edited_at m end;
     message_row_status := message_row_status m |}.

(** [ChatMessage::update]. *)
Definition message_update (m : MessageRow) : M W SqlxError unit :=
  _ ← update_message (message_id m) (fun r =>
    {| message_id := message_id r; message_chat_id := message_chat_id r; mimi_id := mimi_id m;
       content := content m; sent := is_sent m; message_timestamp := message_timestamp m;
       edited_at := edited_at m; message_row_status := message_row_status m |});
  _ ← notify_update (EntityMessage (message_id m));
  notify_update (EntityChat (message_chat_id m)).

(** [Chat::mark_as_read_until_message_id]; the list of messages that it also returns is
    dropped by the caller. *)
Definition mark_as_read_until_message_id (cid id : Uuid) : M W SqlxError unit :=
  t ← fetch (fun d => message_timestamp <$> find_message id d);
  match t with
  | None => mret tt
  | Some t =>
      c ← fetch (find_chat cid);
      match c with
      | None => throw SqlxRowNotFound
      | Some c =>
          _ ← fetch (fun _ => tt);
          _ ← update_chat sqlite cid (fun c =>
                with_last_read (if last_read c <? t then t else last_read c) c);
          if last_read c <? t then notify_update (EntityChat cid) else mret tt
      end
  end.

(** The transaction at the start of [send_chat_message]. *)
Definition load_for_sending (id : Uuid) : M W OutError (option (ChatRow * MessageRow)) :=
  with_read_transaction sqlite OutSqlx (
    m ← sqlx (fetch (find_message id));
    m ← context m;
    c ← sqlx (chat_load sqlite (message_chat_id m));
    c ← context c;
    match c with
    | (_, Blocked) => mret None
    | (c, _) =>
        resync ← sqlx (resync_is_pending_for_chat (message_chat_id m));
        if resync : bool then mret None
        else if is_sent m then throw OutOther else mret (Some (c, m))
    end).

(** The transaction at its end: the time of an edited message is kept. *)
Definition marked (t : TimeStamp) (m : MessageRow) : M W SqlxError MessageRow :=
  match edited_at m with
  | Some _ => m ← mark_as_sent (message_timestamp m) m; mret (with_edited_at t m)
  | None => mark_as_sent t m
  end.
Definition after_sending (t : TimeStamp) (m : MessageRow) : M W OutError unit :=
  transaction (
    m ← sqlx (marked t m);
    _ ← sqlx (message_update m);
    if message_row_status m =? STATUS_DELETED then mret tt
    else sqlx (mark_as_read_until_message_id (message_chat_id m) (message_id m))).

(** [OutboundServiceContext::send_chat_message]. *)
Definition send_chat_message (id : Uuid) : M W OutError SendOutcome :=
  x ← load_for_sending id;
  match x with
  | None => mret Sent
  | Some (c, m) =>
      body ← context (content m);
      let gid := chat_group_id c in
      _ ← lift (ensure (api_client gid) OutOther);
      y ← new_mls_message gid body None;
      let '(ear, params) := y in
      answer ← send_request params ear;
      match answer with
      | Err e =>
          if is_not_found e then
            _ ← transaction (handle_group_not_found_on_ds sqlite gid); throw (OutDs e)
          else
            match process_tag_collisions e (sp_collision_tags params) with
            | [] => throw (OutDs e)
            | _ => mret Collided
            end
      | Ok t =>
          _ ← try_ (E := OutError) (confirm_mls_message gid (sp_epoch params) (sp_generation params));
          _ ← after_sending t m;
          mret Sent
      end
  end.

(** A turn of [OutboundServiceContext::send_queued_messages]. *)
Definition send_message_turn (task_id : Uuid) : M W OutError Turn :=
  stop ← ask cancelled;
  if stop : bool then mret Return
  else
    x ← transaction (message_dequeue task_id);
    match x with
    | None => mret Return
    | Some (cid, id) =>
        pending ← with_read sqlite OutSqlx (sqlx (operation_is_pending_for_chat cid));
        if pending : bool then mret Continue
        else
          r ← try_ (E := OutError) (send_chat_message id);
          match r with
          | Ok Sent => _ ← transaction (sqlx (message_remove id)); mret Continue
          | Ok Collided => mret Continue
          | Err _ => _ ← transaction (sqlx remove_all_and_mark_as_failed); mret Return
          end
    end.

Definition send_queued_messages (fuel : nat) : M W OutError (option unit) :=
  task_id ← ask new_v4; work_loop fuel (send_message_turn task_id).

(** ** Reactions *)

(** [ReactionQueue::enqueue] and [OutboundService::enqueue_reaction_in_transaction]. *)
Definition reaction_enqueue (cid : Uuid) (rid : option bytes) (body : bytes) : M W SqlxError unit :=
  id ← ask new_v4; t ← ask now;
  execute (fun d => set_reaction_queue (reaction_queue d ++
    [{| rq_id := id; rq_chat_id := cid; rq_reaction_mimi_id := rid; rq_content := body;
        rq_created_at := t; rq_locked_by := None |}]) d).
Definition enqueue_reaction_in_transaction (cid : Uuid) (rid : option bytes) (body : bytes) :
    M W OutError bool :=
  blocked ← sqlx (chat_is_blocked sqlite cid);
  if blocked : bool then mret false else _ ← sqlx (reaction_enqueue cid rid body); mret true.

(** [ReactionQueue::dequeue]. *)
Definition next_reaction (task_id : Uuid) (d : OutDb) : option ReactionQueueRow :=
  least (fun a b => rq_created_at a <=? rq_created_at b)
    (List.filter (fun q => free_for task_id (rq_locked_by q)) (reaction_queue d)).
Definition lock_reaction (task_id : Uuid) (q : ReactionQueueRow) : ReactionQueueRow :=
  {| rq_id := rq_id q; rq_chat_id := rq_chat_id q; rq_reaction_mimi_id := rq_reaction_mimi_id q;
     rq_content := rq_content q; rq_created_at := rq_created_at q; rq_locked_by := Some task_id |}.
Definition reaction_dequeue (task_id : Uuid) : M W OutError (option ReactionQueueRow) :=
  q ← sqlx (fetch (next_reaction task_id));
  match q with
  | None => mret None
  | Some q =>
      _ ← sqlx (execute (fun d => set_reaction_queue
            (update_where (fun r => rq_id r =? rq_id q) (lock_reaction task_id) (reaction_queue d)) d));
      gets (fun w => find (fun r => rq_id r =? rq_id q) (reaction_queue (aw_db w)))
  end.

(** [ReactionQueue::remove]. *)
Definition reaction_remove (id : Uuid) : M W SqlxError unit :=
  execute (fun d => set_reaction_queue (delete_where (fun q => rq_id q =? id) (reaction_queue d)) d).

(** [OutboundServiceContext::send_reaction_message]. *)
Definition send_reaction_message (q : ReactionQueueRow) : M W OutError SendOutcome :=
  c ← with_read_transaction sqlite OutSqlx (sqlx (chat_load sqlite (rq_chat_id q)));
  c ← context c;
  match c with
  | (_, Blocked) => mret Sent
  | (c, _) =>
      body ← context (mimi_deserialize (rq_content q));
      let gid := chat_group_id c in
      y ← new_mls_message gid body None;
      let '(ear, params) := y in
      _ ← lift (ensure (api_client gid) OutOther);
      answer ← send_request params ear;
      match answer with
      | Err e =>
          if is_not_found e then
            _ ← transaction (handle_group_not_found_on_ds sqlite gid); throw (OutDs e)
          else
            match process_tag_collisions e (sp_collision_tags params) with
            | [] => throw (OutDs e)
            | _ => mret Collided
            end
      | Ok _ =>
          _ ← try_ (E := OutError) (confirm_mls_message gid (sp_epoch params) (sp_generation params));
          mret Sent
      end
  end.

(** [Reaction::delete_by_mimi_id] within [rollback_failed_reaction]. *)
Definition rollback_failed_reaction (q : ReactionQueueRow) : M W OutError unit :=
  transaction (
    _ ← sqlx (reaction_remove (rq_id q));
    match rq_reaction_mimi_id q with
    | None => mret tt
    | Some rid =>
        target ← gets (fun w => find (fun r => bytes_eqb (reaction_mimi_id r) rid) (reaction (aw_db w)));
        _ ← sqlx (execute (fun d => set_reaction
              (delete_where (fun r => bytes_eqb (reaction_mimi_id r) rid) (reaction d)) d));
        match target with
        | None => mret tt
        | Some r =>
            m ← sqlx (fetch (fun d =>
                  find (fun m => bool_decide (mimi_id m = Some (target_mimi_id r))) (message d)));
            match m with
            | Some m => notify_update (EntityMessage (message_id m))
            | None => mret tt
            end
        end
    end).

(** A turn of [OutboundServiceContext::send_queued_reactions]. *)
Definition send_reaction_turn (task_id : Uuid) : M W OutError Turn :=
  stop ← ask cancelled;
  if stop : bool then mret Return
  else
    x ← transaction (reaction_dequeue task_id);
    match x with
    | None => mret Return
    | Some q =>
        gone ← (match rq_reaction_mimi_id q with
                | None => mret false
                | Some rid =>
                    known ← with_read_transaction sqlite OutSqlx (sqlx (fetch (fun d =>
                      existsb (fun r => bytes_eqb (reaction_mimi_id r) rid) (reaction d))));
                    mret (negb known)
                end);
        if gone : bool then _ ← transaction (sqlx (reaction_remove (rq_id q))); mret Continue
        else
          resync ← with_read sqlite OutSqlx (sqlx (resync_is_pending_for_chat (rq_chat_id q)));
          if resync : bool then mret Continue
          else
            pending ← with_read sqlite OutSqlx (sqlx (operation_is_pending_for_chat (rq_chat_id q)));
            if pending : bool then mret Continue
            else
              r ← try_ (E := OutError) (send_reaction_message q);
              match r with
              | Ok Sent => _ ← transaction (sqlx (reaction_remove (rq_id q))); mret Continue
              | Ok Collided => mret Continue
              | Err _ => _ ← rollback_failed_reaction q; mret Continue
              end
    end.

Definition send_queued_reactions (fuel : nat) : M W OutError (option unit) :=
  task_id ← ask new_v4; work_loop fuel (send_reaction_turn task_id).

(** ** Receipts *)

Definition LOCKED_THRESHOLD : Z := 30 * 1000000000.

(** [ReceiptQueue::enqueue]. *)
Definition receipt_enqueue (cid : Uuid) (id : Uuid) (mid : bytes) (s : Z) : M W SqlxError unit :=
  t ← ask now;
  execute (fun d => set_receipt_queue
    (insert_or_nothing (fun r => (rc_message_id r =? id) && (rc_status r =? s))
       {| rc_message_id := id; rc_chat_id := cid; rc_mimi_id := mid; rc_status := s;
          rc_created_at := t; rc_locked_by := None; rc_locked_at := None |} (receipt_queue d)) d).

(** [OutboundService::schedule_receipts]. *)
Definition schedule_receipts (cid : Uuid) (statuses : list (Uuid * bytes * Z)) : M W OutError bool :=
  blocked ← sqlx (chat_is_blocked sqlite cid);
  if blocked : bool then mret false
  else
    _ ← mapM_ (fun x => sqlx (receipt_enqueue cid x.1.1 x.1.2 x.2)) statuses;
    mret true.

(** [locked_at IS NULL OR locked_at < ?]. *)
Definition receipt_unlocked (before : TimeStamp) (r : ReceiptRow) : bool :=
  match rc_locked_at r with None => true | Some t => t <? before end.
Definition lock_receipt (task_id : Uuid) (t : TimeStamp) (r : ReceiptRow) : ReceiptRow :=
  {| rc_message_id := rc_message_id r; rc_chat_id := rc_chat_id r; rc_mimi_id := rc_mimi_id r;
     rc_status := rc_status r; rc_created_at := rc_created_at r; rc_locked_by := Some task_id;
     rc_locked_at := Some t |}.

(** [ReceiptQueue::dequeue]: all receipts of the chat with the oldest one. *)
Definition receipt_dequeue (task_id : Uuid) : M W OutError (option (Uuid * list (bytes * Z))) :=
  with_write sqlite OutSqlx (with_optional_transaction sqlite OutSqlx (
    t ← ask now;
    let before := t - LOCKED_THRESHOLD in
    r ← sqlx (fetch (fun d =>
          least (fun a b => rc_created_at a <=? rc_created_at b)
            (List.filter (receipt_unlocked before) (receipt_queue d))));
    match r with
    | None => mret None
    | Some r =>
        let hit x := (rc_chat_id x =? rc_chat_id r) && receipt_unlocked before x in
        rows ← gets (fun w => List.filter hit (receipt_queue (aw_db w)));
        _ ← sqlx (execute (fun d => set_receipt_queue
              (update_where hit (lock_receipt task_id t) (receipt_queue d)) d));
        mret (Some (rc_chat_id r, map (fun x => (rc_mimi_id x, rc_status x)) rows))
    end)).

Definition locked_by_task (task_id : Uuid) (r : ReceiptRow) : bool :=
  match rc_locked_by r with Some t => t =? task_id | None => false end.

(** [ReceiptQueue::remove]: [DELETE FROM receipt_queue WHERE locked_by = ?]. *)
Definition receipt_remove (task_id : Uuid) : M W OutError unit :=
  with_write sqlite OutSqlx (sqlx (execute (fun d => set_receipt_queue
    (delete_where (locked_by_task task_id) (receipt_queue d)) d))).

(** [ReceiptQueue::remove_delivered]. *)
Definition remove_delivered (task_id : Uuid) (delivered : MessageStatusReport) : M W OutError unit :=
  with_write sqlite OutSqlx (mapM_ (fun p => sqlx (execute (fun d => set_receipt_queue
    (delete_where (fun r => locked_by_task task_id r && bytes_eqb (rc_mimi_id r) (pms_mimi_id p) &&
                            (rc_status r =? pms_status p)) (receipt_queue d)) d))) delivered).

(** [StatusRecord::store_report] for the own user: reports are read from the last, one
    status for each message. *)
Definition store_status (s : Z) (m : MessageRow) : M W SqlxError unit :=
  _ ← execute (fun d => set_message_status
    (let key r := (st_message_id r =? message_id m) && bool_decide (st_sender r = user_id) in
     if existsb key (message_status d)
     then update_where key (fun r => {| st_message_id := st_message_id r; st_sender := st_sender r;
                                        st_status := s |}) (message_status d)
     else message_status d ++ [{| st_message_id := message_id m; st_sender := user_id;
                                  st_status := s |}]) d);
  final ← fetch (fun d => foldr Z.max 0 (map st_status (List.filter (fun r =>
      (st_message_id r =? message_id m) && ((st_status r =? 1) || (st_status r =? 2)))
      (message_status d))));
  _ ← update_message (message_id m) (with_message_status final);
  notify_update (EntityMessage (message_id m)).
Fixpoint store_statuses (handled : list bytes) (ps : list PerMessageStatus) : M W SqlxError unit :=
  match ps with
  | [] => mret tt
  | p :: ps =>
      if bool_decide (pms_mimi_id p ∈ handled) then store_statuses handled ps
      else
        m ← fetch (fun d => find (fun m => bool_decide (mimi_id m = Some (pms_mimi_id p))) (message d));
        _ ← (match m with Some m => store_status (pms_status p) m | None => mret tt end);
        store_statuses (pms_mimi_id p :: handled) ps
  end.
(** [OutboundServiceContext::store_receipt_report]. *)
Definition store_receipt_report (report : MessageStatusReport) : M W OutboundServiceError unit :=
  map_errM Fatal (transaction (sqlx (store_statuses [] (reverse report)))).

(** [OutboundServiceContext::send_chat_receipt]. *)
Definition send_chat_receipt (cid : Uuid) (report : MessageStatusReport) (body : MimiContent) :
    M W OutboundServiceError ReceiptSendOutcome :=
  c ← map_errM Recoverable (with_read_transaction sqlite OutSqlx (sqlx (chat_load sqlite cid)));
  c ← map_errM Fatal (context c);
  match c with
  | (_, Blocked) => mret ReceiptSent
  | (c, _) =>
      let gid := chat_group_id c in
      y ← map_errM Fatal (new_mls_message gid body (Some report));
      let '(ear, params) := y in
      _ ← lift (ensure (api_client gid) (Fatal OutOther));
      answer ← map_errM Fatal (send_request params ear);
      match answer with
      | Err e =>
          if is_not_found e then
            _ ← map_errM Fatal (transaction (handle_group_not_found_on_ds sqlite gid));
            throw (classify_ds_error e)
          else
            let tags := sp_collision_tags params in
            match process_tag_collisions e tags with
            | [] => throw (classify_ds_error e)
            | collisions =>
                let '(delivered, any_pending) := partition_collided_receipts report tags collisions in
                _ ← (match delivered with [] => mret tt | _ => store_receipt_report delivered end);
                mret (if any_pending : bool then ReceiptCollided delivered else ReceiptSent)
            end
      | Ok _ =>
          _ ← try_ (E := OutError) (confirm_mls_message gid (sp_epoch params) (sp_generation params));
          _ ← store_receipt_report report;
          mret ReceiptSent
      end
  end.

(** A turn of [OutboundServiceContext::send_queued_receipts], with [UnsentReceipt::new]. *)
Definition process_receipts (task_id cid : Uuid) (statuses : list (bytes * Z)) : M W OutError Turn :=
  resync ← with_read sqlite OutSqlx (sqlx (resync_is_pending_for_chat cid));
  if resync : bool then mret Continue
  else
    pending ← with_read sqlite OutSqlx (sqlx (operation_is_pending_for_chat cid));
    if pending : bool then mret Continue
    else
      let report := map (fun x => {| pms_mimi_id := x.1; pms_status := x.2 |}) statuses in
      match report, status_content report with
      | [], _ | _, None => _ ← receipt_remove task_id; mret Continue
      | _, Some body =>
          r ← try_ (E := OutboundServiceError) (send_chat_receipt cid report body);
          match r with
          | Ok ReceiptSent => _ ← receipt_remove task_id; mret Continue
          | Ok (ReceiptCollided delivered) => _ ← remove_delivered task_id delivered; mret Continue
          | Err (Fatal _) => _ ← receipt_remove task_id; mret Continue
          | Err (Recoverable _) => mret Continue
          end
      end.
Definition send_receipt_turn (task_id : Uuid) : M W OutError Turn :=
  stop ← ask cancelled;
  if stop : bool then mret Return
  else
    x ← receipt_dequeue task_id;
    match x with
    | None => mret Return
    | Some (cid, statuses) => process_receipts task_id cid statuses
    end.

Definition send_queued_receipts (fuel : nat) : M W OutError (option unit) :=
  task_id ← ask new_v4; work_loop fuel (send_receipt_turn task_id).

End Send.
