(* ===== verification/OutboundSendCorrect.v ===== *)
(** * What the senders of the outbound service guarantee

    Every worker returns; a chat message that leaves the queue was sent, was marked
    as failed, or belongs to a chat that is blocked or about to be resynchronised; the
    receipts that collided are told apart exactly. *)

From S2P Require Import Prelude Messages Grpc ClientBase OutboundDb OutboundWorker ClientGroup OutboundSend.

Section Correct.
Context `{OutMls}.
Abbreviation W := (AccessWorld OutDb OutRequest).
Context (sqlite : nat -> option SqlxError).
Context (now : nat -> TimeStamp) (new_v4 : nat -> Uuid) (cancelled : nat -> bool).
Context (api_client : GroupId -> bool).
Context (ds_send_message : SendMessageParamsOut -> nat -> Result DsRequestError TimeStamp).
Context (signing_key : bytes) (user_id : UserId).
Context (self_group_id : option GroupId) (self_group_signing_key : option bytes).
Context (status_content : MessageStatusReport -> option MimiContent).
Abbreviation V := (OutDb * list OutRequest)%type.

(** ** Frames *)

(** What sending the message [id] leaves alone: the queue, which message is in which
    chat, the other messages, and who is blocked; resyncs are only removed. *)
Record sending (id : Uuid) (a b : V) : Prop := {
  sending_queue : chat_message_queue b.1 = chat_message_queue a.1;
  sending_chats : map (fun m => (message_id m, message_chat_id m)) (message b.1) =
                  map (fun m => (message_id m, message_chat_id m)) (message a.1);
  sending_others m : In m (message b.1) -> message_id m ≠ id -> In m (message a.1);
  sending_blocked : blocked_contact b.1 = blocked_contact a.1;
  sending_users : map (fun c => (chat_id c, connection_user c)) (chat b.1) =
                  map (fun c => (chat_id c, connection_user c)) (chat a.1);
  sending_resync r : In r (resync_queue b.1) -> In r (resync_queue a.1)
}.

#[export] Instance sending_rel id : ViewRel (sending id).
Proof.
  split; [split|].
  - by split.
  - intros a b c [] []. split; eauto; congruence.
  - intros d rs d' rs' _. by split.
Qed.

Ltac sending_step :=
  split; cbn; try done;
  rewrite ?map_update_where by (intros []; reflexivity); try done;
  try (intros ? (? & ? & ->)%in_update_where; case_match; cbn in *; try done; lia);
  try (intros ? [? _]%in_delete_where; done).
Ltac frame := frame_with sending_step.

Abbreviation Rq := OutRequest.
Section Group.
Variable (id : Uuid).
Abbreviation framed := (framed (sending id)).

Lemma frame_group_load gid : framed (group_load (Req := Rq) sqlite gid).
Proof. unfold group_load, augment. frame. Qed.
Lemma frame_mls_write m : framed (mls_write (Req := Rq) sqlite m).
Proof. unfold mls_write. frame. Qed.
Lemma frame_or_mls {A} (o : option A) : framed (or_mls (Req := Rq) o).
Proof. unfold or_mls. frame. Qed.
Lemma frame_update_group gid f : framed (update_group (Req := Rq) sqlite gid f).
Proof. unfold update_group. frame. Qed.
Lemma frame_update_chat cid f :
  (forall c, chat_id (f c) = chat_id c /\ connection_user (f c) = connection_user c) ->
  framed (update_chat (Req := Rq) sqlite cid f).
Proof.
  intros Hf. unfold update_chat. apply framed_execute; [exact _|]. intros d rs. split; cbn; try done.
  apply map_update_where. intros c. by destruct (Hf c) as [-> ->].
Qed.
#[local] Hint Resolve frame_group_load frame_mls_write frame_or_mls frame_update_group : frame.

Lemma frame_set_inactive cid past : framed (set_inactive (Req := Rq) sqlite cid past).
Proof.
  unfold set_inactive. apply framed_bind; [exact _|by apply frame_update_chat|intros _].
  apply framed_bind; [exact _|by apply frame_update_chat|intros _].
  apply framed_bind; [exact _| |intros _; frame].
  apply framed_mapM; [exact _|]. intros u. by apply frame_update_chat.
Qed.
#[local] Hint Resolve frame_set_inactive : frame.

Lemma frame_not_found gid : framed (handle_group_not_found_on_ds (Req := Rq) sqlite gid).
Proof.
  unfold handle_group_not_found_on_ds, chat_load_by_group_id, resync_remove, delete_from_db, sqlx. frame.
Qed.
Lemma frame_create_message k c r g : framed (create_message (Req := Rq) sqlite k c r g).
Proof. unfold create_message, sqlx. frame. Qed.
Lemma frame_confirm e n g : framed (confirm_application_message (Req := Rq) sqlite e n g).
Proof. unfold confirm_application_message, sqlx. frame. Qed.
#[local] Hint Resolve frame_not_found frame_create_message frame_confirm : frame.

Lemma frame_new_mls_message gid c r :
  framed (new_mls_message sqlite signing_key self_group_id self_group_signing_key gid c r).
Proof. unfold new_mls_message, signer_for_group, load_clean, cleanly, context, sqlx. frame. Qed.
Lemma frame_confirm_mls gid e n : framed (confirm_mls_message sqlite gid e n).
Proof. unfold confirm_mls_message, context, sqlx. frame. Qed.

Lemma frame_update_message f :
  (forall m, message_id (f m) = message_id m /\ message_chat_id (f m) = message_chat_id m) ->
  framed (update_message sqlite id f).
Proof.
  intros Hf. unfold update_message. apply framed_execute; [exact _|]. intros d rs. split; cbn; try done.
  - apply map_update_where. intros m. by destruct (Hf m) as [-> ->].
  - intros m (m' & Hm & ->)%in_update_where Hne. destruct (Z.eqb_spec (message_id m') id) as [E|]; [|done].
    by rewrite (proj1 (Hf m')) in Hne.
Qed.

Lemma frame_mark_as_sent t m : message_id m = id -> framed (mark_as_sent sqlite t m).
Proof.
  intros Hm. unfold mark_as_sent. rewrite Hm. apply framed_bind; [exact _|by apply frame_update_message|intros _]. frame.
Qed.
Lemma mark_as_sent_id t m w m' w' :
  mark_as_sent sqlite t m w = (Ok m', w') -> message_id m' = message_id m /\ content m' = content m /\
    (content m ≠ None -> sent m' = true).
Proof.
  unfold mark_as_sent. intros Hm. bindM Hm as u w1 H1. bindM Hm as n w2 H2. bindM Hm as v w3 H3.
  injection Hm as <- _. by destruct (content m) eqn:E; cbn.
Qed.

Lemma marked_id t m w m' w' :
  marked sqlite t m w = (Ok m', w') -> message_id m' = message_id m /\ content m' = content m /\
    (content m ≠ None -> sent m' = true).
Proof.
  unfold marked. destruct (edited_at m).
  - intros Hm. bindM Hm as m1 w1 H1. injection Hm as <- _. by apply mark_as_sent_id in H1.
  - apply mark_as_sent_id.
Qed.
Lemma frame_marked t m : message_id m = id -> framed (marked sqlite t m).
Proof.
  intros Hm. unfold marked. destruct (edited_at m); [|by apply frame_mark_as_sent].
  apply framed_bind; [exact _|by apply frame_mark_as_sent|intros; frame].
Qed.
Lemma frame_message_update m : message_id m = id -> framed (message_update sqlite m).
Proof.
  intros Hm. unfold message_update. rewrite Hm. apply framed_bind; [exact _|by apply frame_update_message|intros _]. frame.
Qed.
Lemma frame_mark_as_read cid mid : framed (mark_as_read_until_message_id sqlite cid mid).
Proof.
  unfold mark_as_read_until_message_id, update_chat. frame.
Qed.

Lemma frame_after_sending t m : message_id m = id -> framed (after_sending sqlite t m).
Proof.
  intros Hm. unfold after_sending. apply framed_with_write; [exact _|].
  apply framed_with_transaction; [exact _|].
  apply (framed_bind_post _ (fun m' => message_id m' = id)).
  - by apply framed_map_err, frame_marked.
  - intros w m' w' (q & Hq & Hr)%map_errM_inv. destruct q; [|done]. injection Hr as ->.
    apply marked_id in Hq as [-> _]. done.
  - intros m' Hm'. apply framed_bind; [exact _|by apply framed_map_err, frame_message_update|intros _].
    destruct (_ =? _); [frame|]. by apply framed_map_err, frame_mark_as_read.
Qed.
End Group.

#[local] Hint Resolve frame_new_mls_message frame_confirm_mls frame_not_found frame_after_sending : frame.

Abbreviation send_chat_message := (send_chat_message sqlite api_client ds_send_message signing_key
  self_group_id self_group_signing_key).

Lemma load_for_sending_Some id w c m w' :
  load_for_sending sqlite id w = (Ok (Some (c, m)), w') ->
  message_id m = id /\ sent m = false /\ content m ≠ None.
Proof.
  unfold load_for_sending, with_read_transaction, context. intros Hr.
  bindM Hr as u w1 H1. bindM Hr as v w2 H2. bindM Hr as mo w3 H3. bindM Hr as m' w4 H4.
  apply lift_Ok in H4 as [H4 ->]. apply ok_or_Ok in H4 as ->.
  apply map_errM_inv in H3 as (q & [_ [->|(e & ->)]]%fetch_inv & [= Hq]).
  bindM Hr as co w5 H5. bindM Hr as x w6 H6. destruct x as [c' s].
  assert (Hcase : (res ← map_errM OutSqlx (resync_is_pending_for_chat sqlite (message_chat_id m'));
    if res : bool then mret None else if is_sent m' then throw OutOther else mret (Some (c', m'))) w6
    = (Ok (Some (c, m)), w')) by (destruct s; [exact Hr|exact Hr|discriminate Hr]).
  clear Hr. bindM Hcase as b w7 H7. destruct b; [discriminate Hcase|].
  destruct (is_sent m') eqn:Es; [discriminate Hcase|]. injection Hcase as -> -> _.
  symmetry in Hq. apply find_some in Hq as [_ Hid%Z.eqb_eq]. unfold is_sent in Es.
  destruct (content m); done.
Qed.

Lemma frame_send id : framed (sending id) (send_chat_message id).
Proof.
  unfold OutboundSend.send_chat_message.
  apply (framed_bind_post _ (fun x => match x with Some (_, m) => message_id m = id | None => True end)).
  - unfold load_for_sending, resync_is_pending_for_chat, chat_load, context, sqlx. frame.
  - intros w [[c m]|] w' Hw; [|done]. by apply load_for_sending_Some in Hw as [? _].
  - intros [[c m]|] Hm; [|frame]. unfold context, send_request. frame.
    intros w r w' [= <- <-]. by split.
Qed.

(** ** A single message *)

(** No message is sent to a chat that is blocked or waits for a resync. *)
Definition undeliverable (d : OutDb) (cid : Uuid) : Prop :=
  (exists u, In (cid, Some u) (map (fun c => (chat_id c, connection_user c)) (chat d)) /\
     In u (blocked_contact d)) \/
  (exists r, In r (resync_queue d) /\ rs_chat_id r = cid).

Lemma blocked_undeliverable d cid c :
  find_chat cid d = Some c -> chat_status d c = Blocked -> undeliverable d cid.
Proof.
  intros [Hc Hid%Z.eqb_eq]%find_some Hb. left. unfold chat_status, is_blocked_user in Hb.
  destruct (connection_user c) as [u|] eqn:Eu; [|by destruct (is_active c)].
  destruct (existsb _ _) eqn:Ex; [|by destruct (is_active c)].
  apply existsb_exists in Ex as (v & Hv & ->%bool_decide_eq_true). exists v. split; [|done].
  apply in_map_iff. exists c. by rewrite Hid, Eu.
Qed.

Lemma load_for_sending_None id w w' :
  load_for_sending sqlite id w = (Ok None, w') ->
  exists m, In m (message (aw_db w)) /\ message_id m = id /\ undeliverable (aw_db w) (message_chat_id m).
Proof.
  unfold load_for_sending, with_read_transaction, context, sqlx. intros Hr.
  bindM Hr as u w1 H1. bindM Hr as v w2 H2.
  apply map_errM_inv in H1 as (q1 & ->%statement_inv & _).
  apply map_errM_inv in H2 as (q2 & ->%statement_inv & _).
  bindM Hr as mo w3 H3. apply map_errM_inv in H3 as (q & [-> [->|(e & ->)]]%fetch_inv & [= ->]).
  bindM Hr as m w4 H4. apply lift_Ok in H4 as [H4%ok_or_Ok ->]. cbn in H4.
  apply find_some in H4 as [Hm Hid%Z.eqb_eq]. exists m. split; [done|]. split; [done|].
  bindM Hr as co w5 H5. apply map_errM_inv in H5 as (q & [-> [->|(e & ->)]]%fetch_inv & [= ->]).
  bindM Hr as x w6 H6. apply lift_Ok in H6 as [H6%ok_or_Ok ->]. cbn in H6.
  apply fmap_Some in H6 as (c & Hc & ->).
  destruct (chat_status (aw_db w) c) eqn:Es; [| |by eapply blocked_undeliverable].
  all: bindM Hr as b w7 H7; apply map_errM_inv in H7 as (q & [-> [->|(e & ->)]]%fetch_inv & [= ->]).
  all: cbn in Hr; destruct (resync_pending _ _) eqn:Ep; [|by destruct (is_sent m)].
  all: apply existsb_exists in Ep as (r & Hr' & Hrs%Z.eqb_eq); right; by exists r.
Qed.

Lemma after_sending_Ok t m w w' :
  content m ≠ None -> after_sending sqlite t m w = (Ok tt, w') ->
  forall r, In r (message (aw_db w')) -> message_id r = message_id m -> sent r = true.
Proof.
  intros Hc [(e & [=] & _)|(w1 & q & w2 & Hd & _ & Hm & _ & [([] & -> & _ & Hdb)|(e & [=] & _)])]%with_write_transaction_inv.
  rewrite Hdb. clear Hdb. bindM Hm as m1 w3 H3. apply map_errM_inv in H3 as (q & H3 & Hq).
  destruct q as [m2|]; [|done]. injection Hq as ->. apply marked_id in H3 as (Hid & Hcont & Hsent).
  bindM Hm as u w4 H4. apply map_errM_inv in H4 as (q & H4 & Hq). destruct q as [[]|]; [|done]. clear Hq.
  unfold message_update, notify_update in H4. bindM H4 as u' w5 H5. bindM H4 as u2 w6 H6. leafM H6. leafM H4.
  apply execute_inv in H5 as [[_ ->]|(e & [=] & _)].
  assert (Hrows : forall r, In r (message (aw_db w2)) -> message_id r = message_id m -> sent r = true); [|done].
  assert (Hsame : message (aw_db w2) = message (set_message (update_where (fun r => message_id r =? message_id m2)
      (fun r => {| message_id := message_id r; message_chat_id := message_chat_id r; mimi_id := mimi_id m2;
         content := content m2; sent := is_sent m2; message_timestamp := message_timestamp m2;
         edited_at := edited_at m2; message_row_status := message_row_status m2 |}) (message (aw_db w3))) (aw_db w3))).
  { destruct (_ =? STATUS_DELETED); [by injection Hm as <-|].
    eapply (framed_same message) in Hm; [exact Hm|]. apply framed_map_err.
    unfold mark_as_read_until_message_id, update_chat. frame_with ltac:(done). }
  rewrite Hsame. cbn. intros r (r' & Hr' & ->)%in_update_where Hr.
  destruct (Z.eqb_spec (message_id r') (message_id m2)) as [E|E]; cbn in *; [|congruence].
  unfold is_sent. destruct (content m2) eqn:E2; [|congruence]. apply Hsent. congruence.
Qed.

(** A message that the worker reports as sent was accepted by the delivery service and
    is stored as sent, or its chat is blocked or waits for a resync. *)
Lemma send_Sent id w w' :
  send_chat_message id w = (Ok Sent, w') ->
  (exists m, In m (message (aw_db w)) /\ message_id m = id /\ undeliverable (aw_db w) (message_chat_id m)) \/
  (forall r, In r (message (aw_db w')) -> message_id r = id -> sent r = true).
Proof.
  unfold OutboundSend.send_chat_message. intros Hr. bindM Hr as x w1 H1. destruct x as [[c m]|].
  2:{ left. by apply load_for_sending_None in H1. }
  right. apply load_for_sending_Some in H1 as (Hid & _ & Hc).
  bindM Hr as body w2 H2. bindM Hr as u w3 H3. bindM Hr as y w4 H4. destruct y as [ear params].
  bindM Hr as answer w5 H5. destruct answer as [t|e].
  - bindM Hr as v w6 H6. bindM Hr as z w7 H7. destruct z. injection Hr as <-. rewrite <- Hid.
    by eapply after_sending_Ok.
  - destruct (is_not_found e); [bindM Hr as z w6 H6; done|].
    by destruct (process_tag_collisions _ _).
Qed.

(** ** The queue *)

Abbreviation queued d := (map mq_message_id (chat_message_queue d)).
Definition tables (d : OutDb) := (message d, blocked_contact d, chat d, resync_queue d).

Lemma frame_dequeue_tables task : framed (same tables) (message_dequeue sqlite task).
Proof. unfold message_dequeue, sqlx. frame_with ltac:(done). Qed.
Lemma frame_dequeue_ids task : framed (same (fun d => queued d)) (message_dequeue sqlite task).
Proof.
  unfold message_dequeue, sqlx. frame_with ltac:(by apply map_update_where).
Qed.

Lemma dequeue_spec task w cid id w' :
  with_write_transaction sqlite OutSqlx (message_dequeue sqlite task) w = (Ok (Some (cid, id)), w') ->
  In id (queued (aw_db w')) /\
  (free_count mq_locked_by task (chat_message_queue (aw_db w')) <
   free_count mq_locked_by task (chat_message_queue (aw_db w)))%nat.
Proof.
  intros [(e & [=] & _)|(w1 & q & w2 & Hd & _ & Hm & _ & [(a & -> & [= <-] & Hdb)|(e & [=] & _)])]%with_write_transaction_inv.
  rewrite Hdb, <- Hd. clear Hdb Hd. unfold message_dequeue, sqlx in Hm. bindM Hm as qo w3 H3.
  apply map_errM_inv in H3 as (q & [-> [->|(e & ->)]]%fetch_inv & [= ->]).
  destruct (next_message task (aw_db w1)) as [q|] eqn:En; [|discriminate Hm].
  apply least_in, filter_In in En as [Hin Hfree].
  bindM Hm as u w4 H4. apply map_errM_inv in H4 as (q' & H4 & Hq). destruct q'; [|done]. clear Hq.
  apply execute_inv in H4 as [[_ ->]|(e & [=] & _)].
  bindM Hm as row w5 H5. leafM H5. injection Hm as Hrow <-. cbn in *.
  split.
  - apply fmap_Some in Hrow as (r & Hr & [= _ ->]). apply find_some in Hr as [Hr _]. by apply in_map.
  - apply (free_count_lock _ _ _ _ _ q); try done. by rewrite Z.eqb_refl.
Qed.

(** ** Accounting *)

(** What does not change for the worse since [d0]. *)
Record since (d0 d : OutDb) : Prop := {
  since_chats : map (fun m => (message_id m, message_chat_id m)) (message d) =
                map (fun m => (message_id m, message_chat_id m)) (message d0);
  since_blocked : blocked_contact d = blocked_contact d0;
  since_users : map (fun c => (chat_id c, connection_user c)) (chat d) =
                map (fun c => (chat_id c, connection_user c)) (chat d0);
  since_resync r : In r (resync_queue d) -> In r (resync_queue d0)
}.

(** What is stored of the message [id] is sent, or failed. *)
Definition finished (d : OutDb) (id : Uuid) : Prop :=
  forall m, In m (message d) -> message_id m = id -> sent m = true \/ message_row_status m = STATUS_ERROR.
(** The message [id] is stored. *)
Definition stored (d : OutDb) (id : Uuid) : Prop := exists m, In m (message d) /\ message_id m = id.
(** It is stored, as sent or as failed. *)
Definition settled (d : OutDb) (id : Uuid) : Prop := stored d id /\ finished d id.
(** It is in a chat that takes no messages. *)
Definition dropped (d : OutDb) (id : Uuid) : Prop :=
  exists m, In m (message d) /\ message_id m = id /\ undeliverable d (message_chat_id m).

Definition accounted (d0 d : OutDb) : Prop :=
  since d0 d /\ forall id, In id (queued d0) -> In id (queued d) \/ finished d id \/ dropped d0 id.

Lemma accounted_refl d : accounted d d.
Proof. split; [by split|auto]. Qed.

Lemma since_stored d0 d id : since d0 d -> stored d0 id -> stored d id.
Proof.
  intros [Hc _ _ _] (m & Hm & Hid).
  assert (In (message_id m, message_chat_id m) (map (fun m => (message_id m, message_chat_id m)) (message d)))
    as (m' & [= Hid' _] & Hm')%in_map_iff.
  { rewrite Hc. by apply (in_map (fun m => (message_id m, message_chat_id m))). }
  exists m'. split; [done|congruence].
Qed.

Lemma since_dropped d0 d id : since d0 d -> dropped d id -> dropped d0 id.
Proof.
  intros [Hc Hb Hu Hr] (m & Hm & Hid & Hund).
  assert (In (message_id m, message_chat_id m) (map (fun m => (message_id m, message_chat_id m)) (message d0)))
    as ([i0 c0 mi co se ti ed st] & [= -> ->] & Hm0)%in_map_iff.
  { rewrite <- Hc. by apply (in_map (fun m => (message_id m, message_chat_id m))). }
  eexists. split; [exact Hm0|]. split; [exact Hid|]. cbn.
  destruct Hund as [(u & Hu' & Hb')|(r & Hr' & Hrs)]; [left; exists u; by rewrite <- Hu, <- Hb|right; eauto].
Qed.

Lemma accounted_same d0 d d' :
  tables d' = tables d -> queued d' = queued d -> accounted d0 d -> accounted d0 d'.
Proof.
  intros [= Hm Hb Hc Hr] Hq [[] Ha].
  split; [split; [congruence..|intros r; rewrite Hr; eauto]|]. intros id Hid. rewrite Hq.
  unfold finished. rewrite Hm. by apply Ha.
Qed.

Lemma sending_since d0 (a b : V) id : sending id a b -> since d0 a.1 -> since d0 b.1.
Proof. intros [] []. split; eauto; congruence. Qed.

Lemma accounted_sending d0 (a b : V) id :
  sending id a b -> In id (queued a.1) -> accounted d0 a.1 -> accounted d0 b.1.
Proof.
  intros Hs Hin [Hsince Ha]. split; [by eapply sending_since|]. intros id' Hid'.
  rewrite (sending_queue _ _ _ Hs). destruct (decide (id' = id)) as [->|Hne]; [by left|].
  destruct (Ha id' Hid') as [?|[Hset|?]]; [by left| |by right; right].
  right; left. intros m Hm Hmid. apply Hset; [|done]. eapply sending_others; [done..|congruence].
Qed.

Lemma accounted_remove d0 d id :
  finished d id \/ dropped d0 id -> accounted d0 d ->
  accounted d0 (set_chat_message_queue (delete_where (fun q => mq_message_id q =? id) (chat_message_queue d)) d).
Proof.
  intros Hres [[] Ha]. split; [by split|]. intros id' Hid'.
  destruct (decide (id' = id)) as [->|Hne]; [by right|].
  destruct (Ha id' Hid') as [Hin|?]; [left|by right]. cbn.
  apply in_map_iff in Hin as (q & <- & Hq). apply in_map, in_delete_where. split; [done|]. by apply Z.eqb_neq.
Qed.

Lemma accounted_fail_all d0 d : accounted d0 d -> accounted d0 (fail_all d).
Proof.
  intros [[] Ha]. split.
  - split; cbn; try done. by rewrite map_update_where.
  - intros id Hid. right. destruct (Ha id Hid) as [Hin|[Hset|?]]; [left|left|by right].
    + intros m (m' & Hm & ->)%in_update_where Hmid.
      assert (Hq : existsb (fun q => mq_message_id q =? id) (chat_message_queue d) = true).
      { apply existsb_exists. apply in_map_iff in Hin as (q & Eq & Hq). exists q. split; [done|].
        by apply Z.eqb_eq. }
      destruct (existsb _ _) eqn:E in Hmid |- *; [by right|]. cbn in Hmid. rewrite Hmid in E. congruence.
    + intros m (m' & Hm & ->)%in_update_where Hmid. destruct (existsb _ _); [by right|]. by apply Hset.
Qed.

Abbreviation turn := (send_message_turn sqlite cancelled api_client ds_send_message signing_key
  self_group_id self_group_signing_key).

Lemma frame_read_pending R `{!ViewRel R} cid :
  framed R (with_read sqlite OutSqlx (sqlx (operation_is_pending_for_chat sqlite cid))).
Proof. unfold sqlx, operation_is_pending_for_chat. frame_with ltac:(done). Qed.
Lemma read_pending_view cid w r w' :
  with_read sqlite OutSqlx (sqlx (operation_is_pending_for_chat sqlite cid)) w = (r, w') ->
  aw_db w' = aw_db w.
Proof. exact (framed_same (fun d => d) _ _ _ _ (frame_read_pending _ _)). Qed.

Lemma frame_fail_all_tables R `{!ViewRel R} :
  (forall d rs, R (d, rs) (fail_all d, rs)) -> framed R (sqlx (remove_all_and_mark_as_failed sqlite)).
Proof. intros HR. unfold sqlx, remove_all_and_mark_as_failed. frame_with ltac:(apply HR). Qed.

(** [accounted] as a relation on views. *)
Definition accounted_view (a b : V) : Prop := forall d0, accounted d0 a.1 -> accounted d0 b.1.
#[export] Instance accounted_view_rel : ViewRel accounted_view.
Proof. split; [split|]; [by intros a d0|intros a b c Hab Hbc d0 Ha; auto|by intros d rs d' rs' _ d0]. Qed.

Lemma turn_accounted task d0 w r w' :
  accounted d0 (aw_db w) -> turn task w = (r, w') -> accounted d0 (aw_db w').
Proof.
  intros Ha Ht. unfold send_message_turn in Ht. stepM Ht as q w1 H1. injection H1 as <- <-.
  destruct (cancelled _); [by injection Ht as <- <-|].
  stepM Ht as x w2 H2. pose proof H2 as Hdeq.
  assert (Ha2 : accounted d0 (aw_db w2)).
  { pose proof (framed_with_write (Req := Rq) sqlite _ OutSqlx _ (framed_with_transaction sqlite _ OutSqlx _
      (frame_dequeue_tables task)) _ _ _ H2) as Htab.
    pose proof (framed_with_write (Req := Rq) sqlite _ OutSqlx _ (framed_with_transaction sqlite _ OutSqlx _
      (frame_dequeue_ids task)) _ _ _ H2) as Hids.
    eapply accounted_same; [exact Htab|exact Hids|exact Ha]. }
  destruct x as [[[cid id]|]|e]; [|by injection Ht as <- <-|by destruct Ht as [_ ->]].
  apply dequeue_spec in Hdeq as [Hin _].
  stepM Ht as b w3 H3. pose proof (read_pending_view _ _ _ _ H3) as E3. rewrite <- E3 in Ha2, Hin.
  destruct b as [[]|e]; [by injection Ht as <- <-| |by destruct Ht as [_ ->]].
  stepM Ht as y w4 H4. apply try_inv in H4 as (q & H4 & ->).
  pose proof (frame_send id _ _ _ H4) as Hs. pose proof (accounted_sending _ _ _ _ Hs Hin Ha2) as Ha4.
  cbn in Ha4. destruct q as [[]|e].
  - stepM Ht as z w5 H5. assert (Hw5 : aw_db w' = aw_db w5).
    { destruct z; [by injection Ht as <- <-|by destruct Ht as [_ ->]]. }
    rewrite Hw5. clear Ht Hw5 Hin.
    assert (Hres : finished (aw_db w4) id \/ dropped d0 id).
    { apply send_Sent in H4 as [Hd|Hset]; [right|left; by left; apply Hset].
      eapply since_dropped; [|exact Hd]. apply Ha2. }
    apply with_write_transaction_inv in H5
      as [(e & _ & -> & _)|(w6 & q & w7 & Hd & _ & Hm & _ & [(u & -> & _ & ->)|(e & _ & ->)])]; [done| |done].
    apply map_errM_inv in Hm as (q & [[-> ->]|(e & -> & _)]%execute_inv & [= ->]). cbn. rewrite Hd.
    by apply accounted_remove.
  - by injection Ht as <- <-.
  - stepM Ht as z w5 H5. assert (Hw5 : aw_db w' = aw_db w5).
    { destruct z; [by injection Ht as <- <-|by destruct Ht as [_ ->]]. }
    rewrite Hw5. apply (framed_with_write sqlite accounted_view) in H5; [by apply H5|].
    apply framed_with_transaction; [exact _|]. apply frame_fail_all_tables; [exact _|].
    intros d rs d1. apply accounted_fail_all.
Qed.

(** C18. No queued chat message is lost.  After a run of the sender, however it ends (a
    failing database, a cancelled run, answers of the delivery service), the table of
    messages has the same messages in the same chats; and every message that was queued
    is still queued, or is stored as sent or as failed, or is in a chat that was blocked
    or waiting for a resync when the run began.  The queue refers to stored messages, by
    the foreign key of the table. *)
Theorem queued_messages_accounted fuel w r w' :
  (forall id, In id (queued (aw_db w)) -> stored (aw_db w) id) ->
  send_queued_messages sqlite new_v4 cancelled api_client ds_send_message signing_key
    self_group_id self_group_signing_key fuel w = (r, w') ->
  map (fun m => (message_id m, message_chat_id m)) (message (aw_db w')) =
    map (fun m => (message_id m, message_chat_id m)) (message (aw_db w)) /\
  forall id, In id (queued (aw_db w)) ->
    In id (queued (aw_db w')) \/ settled (aw_db w') id \/ dropped (aw_db w) id.
Proof.
  intros Hkey Hr. stepM Hr as q w1 H1. injection H1 as <- <-.
  apply (work_loop_inv _ (fun x => accounted (aw_db w) (aw_db x))) in Hr; [| |apply accounted_refl].
  - destruct Hr as [Hs Ha]. split; [apply Hs|]. intros id Hid.
    destruct (Ha id Hid) as [?|[?|?]]; [by left| |by right; right].
    right; left. split; [by eapply since_stored; [|apply Hkey]|done].
  - intros s q s' Ha Ht. by eapply turn_accounted.
Qed.

(** ** Termination *)

Instance message_worker task :
  Worker (turn task) (fun _ => True) (fun w => free_count mq_locked_by task (chat_message_queue (aw_db w))).
Proof.
  split; [done|]. intros w w' _ Ht. unfold send_message_turn in Ht. bindM Ht as c w1 H1. injection H1 as <- <-.
  destruct (cancelled _); [done|]. bindM Ht as x w2 H2. destruct x as [[cid id]|]; [|done].
  apply dequeue_spec in H2 as [_ Hlt]. eapply Nat.le_lt_trans; [|exact Hlt]. clear Hlt.
  bindM Ht as b w3 H3. apply read_pending_view in H3 as <-.
  destruct b; [by injection Ht as <-|].
  bindM Ht as y w4 H4. apply try_inv in H4 as (q & H4 & Hq). injection Hq as ->.
  pose proof (sending_queue _ _ _ (frame_send id _ _ _ H4)) as Hs. cbn in Hs. rewrite <- Hs.
  destruct q as [[]|e]; [|by injection Ht as <-|by bindM Ht as z w5 H5].
  bindM Ht as z w5 H5. injection Ht as <-.
  apply with_write_transaction_inv in H5
    as [(e & _ & -> & _)|(w6 & q & w7 & Hd & _ & Hm & _ & [(u & -> & _ & ->)|(e & _ & ->)])]; [done| |done].
  apply map_errM_inv in Hm as (q & [[-> ->]|(e & -> & _)]%execute_inv & [= ->]). cbn. rewrite Hd.
  apply free_count_delete.
Qed.

Lemma frame_request {X} (f : OutDb -> X) params ear : framed (same f) (send_request ds_send_message params ear).
Proof. by intros w r w' [= <- <-]. Qed.

(** Sending reactions and receipts leaves their queues alone. *)
Ltac unfold_sending :=
  unfold new_mls_message, signer_for_group, load_clean, cleanly, group_load, augment, create_message,
    confirm_mls_message, confirm_application_message, handle_group_not_found_on_ds, set_inactive, update_chat,
    chat_load_by_group_id, chat_load, resync_remove, delete_from_db, mls_write, or_mls, sqlx, context.
Lemma frame_send_reaction q :
  framed (same reaction_queue) (send_reaction_message sqlite api_client ds_send_message signing_key
    self_group_id self_group_signing_key q).
Proof.
  unfold send_reaction_message. unfold_sending. frame_with ltac:(done). all: apply frame_request.
Qed.
Lemma frame_send_receipt cid report body :
  framed (same receipt_queue) (send_chat_receipt sqlite api_client ds_send_message signing_key user_id
    self_group_id self_group_signing_key cid report body).
Proof.
  assert (Hstore : forall ps h, framed (same receipt_queue) (store_statuses sqlite user_id h ps)).
  { induction ps as [|p ps IH]; intros h; cbn; [frame_with ltac:(done)|].
    case_bool_decide; [apply IH|]. unfold store_status, update_message. frame_with ltac:(done). all: apply IH. }
  unfold send_chat_receipt, store_receipt_report. unfold_sending. frame_with ltac:(done).
  all: first [apply frame_request|apply Hstore].
Qed.

Abbreviation reaction_turn := (send_reaction_turn sqlite cancelled api_client ds_send_message signing_key
  self_group_id self_group_signing_key).
Abbreviation receipt_turn := (send_receipt_turn sqlite now cancelled api_client ds_send_message signing_key
  user_id self_group_id self_group_signing_key status_content).

Lemma reaction_dequeue_spec task w q w' :
  with_write_transaction sqlite OutSqlx (reaction_dequeue sqlite task) w = (Ok (Some q), w') ->
  (free_count rq_locked_by task (reaction_queue (aw_db w')) <
   free_count rq_locked_by task (reaction_queue (aw_db w)))%nat.
Proof.
  intros [(e & [=] & _)|(w1 & x & w2 & Hd & _ & Hm & _ & [(a & -> & [= <-] & Hdb)|(e & [=] & _)])]%with_write_transaction_inv.
  rewrite Hdb, <- Hd. clear Hdb Hd. unfold reaction_dequeue, sqlx in Hm. bindM Hm as qo w3 H3.
  apply map_errM_inv in H3 as (x & [-> [->|(e & ->)]]%fetch_inv & [= ->]).
  destruct (next_reaction task (aw_db w1)) as [q0|] eqn:En; [|discriminate Hm].
  apply least_in, filter_In in En as [Hin Hfree].
  bindM Hm as u w4 H4. apply map_errM_inv in H4 as (q' & H4 & Hq). destruct q'; [|done]. clear Hq.
  apply execute_inv in H4 as [[_ ->]|(e & [=] & _)]. injection Hm as _ <-. cbn in *.
  apply (free_count_lock _ _ _ _ _ q0); try done. by rewrite Z.eqb_refl.
Qed.

Instance reaction_worker task :
  Worker (reaction_turn task) (fun _ => True)
    (fun w => free_count rq_locked_by task (reaction_queue (aw_db w))).
Proof.
  split; [done|]. intros w w' _ Ht. unfold send_reaction_turn in Ht. bindM Ht as c w1 H1. injection H1 as <- <-.
  destruct (cancelled _); [done|]. bindM Ht as x w2 H2. destruct x as [q|]; [|done].
  apply reaction_dequeue_spec in H2. eapply Nat.le_lt_trans; [|exact H2].
  refine (framed_fewer rq_locked_by task reaction_queue _ _ _ _ _ Ht).
  pose proof (same_fewer rq_locked_by task reaction_queue _ (frame_send_reaction q)).
  unfold sqlx, operation_is_pending_for_chat, resync_is_pending_for_chat, rollback_failed_reaction, reaction_remove.
  frame_with ltac:(first [apply free_count_delete|exact (Nat.le_refl _)]).
Qed.

(** ** Receipts *)

(** Receipts that the run has locked carry a time of the run. *)
Definition receipts_locked (task : Uuid) (d : OutDb) : Prop :=
  forall r, In r (receipt_queue d) -> rc_locked_by r = Some task -> exists i, rc_locked_at r = Some (now i).
Definition receipts_kept (task : Uuid) : relation V := fun a b =>
  receipts_locked task a.1 -> receipts_locked task b.1.
#[export] Instance receipts_kept_rel task : ViewRel (receipts_kept task).
Proof. split; [split|]; unfold receipts_kept; [by intros a|intros a b c; auto|done]. Qed.
Lemma same_kept {E A} task (m : M W E A) : framed (same receipt_queue) m -> framed (receipts_kept task) m.
Proof.
  intros Hm w r w' E' Hr. apply Hm in E'. unfold same, receipts_locked in *. cbn in *. by rewrite E'.
Qed.
Lemma receipts_kept_delete task p d rs :
  receipts_kept task (d, rs) (set_receipt_queue (delete_where p (receipt_queue d)) d, rs).
Proof. intros Hr r [Hin _]%in_delete_where. by apply Hr. Qed.

Lemma receipts_kept_lock task p i d rs :
  receipts_kept task (d, rs)
    (set_receipt_queue (update_where p (lock_receipt task (now i)) (receipt_queue d)) d, rs).
Proof.
  intros Hr r (r' & Hin & ->)%in_update_where. destruct (p r'); cbn; [eauto|by apply Hr].
Qed.

Lemma frame_receipt_dequeue_kept task : framed (receipts_kept task) (receipt_dequeue sqlite now task).
Proof.
  unfold receipt_dequeue. apply framed_with_write; [exact _|]. apply framed_with_optional_transaction; [exact _|].
  apply (framed_bind_post _ (fun t => exists i, t = now i)); [frame_with ltac:(done)| |].
  { intros w t w' [= <- <-]. eauto. }
  intros t (i & ->). unfold sqlx. frame_with ltac:(apply receipts_kept_lock).
Qed.

(** When a run takes no longer than [LOCKED_THRESHOLD], each turn takes new rows. *)
Lemma receipt_dequeue_spec task w x w' :
  (forall i j, now i - now j <= LOCKED_THRESHOLD) -> receipts_locked task (aw_db w) ->
  receipt_dequeue sqlite now task w = (Ok (Some x), w') ->
  (free_count rc_locked_by task (receipt_queue (aw_db w')) <
   free_count rc_locked_by task (receipt_queue (aw_db w)))%nat.
Proof.
  intros Hshort Hlocked (w1 & w2 & Hd & Em & ->)%with_optional_transaction_Some. rewrite <- Hd in *. clear Hd.
  bindM Em as t w4 H4. injection H4 as <- <-.
  bindM Em as r w5 H5. apply map_errM_inv in H5 as (q & [-> [->|(e & ->)]]%fetch_inv & [= ->]).
  destruct (least _ _) as [r|] eqn:El; [|discriminate Em]. apply least_in, filter_In in El as [Hin Hun].
  bindM Em as rows w6 H6. leafM H6. bindM Em as u w7 H7. apply map_errM_inv in H7 as (q & H7 & Hq).
  destruct q; [|done]. apply execute_inv in H7 as [[_ ->]|(e & [=] & _)]. injection Em as <- <-. cbn in *.
  apply (free_count_lock _ _ _ _ _ r); try done; [|by rewrite Z.eqb_refl].
  destruct (free_for task (rc_locked_by r)) eqn:Ef; [done|]. unfold free_for in Ef.
  destruct (rc_locked_by r) as [t'|] eqn:Et; [|done]. apply negb_false_iff, Z.eqb_eq in Ef as ->.
  destruct (Hlocked r Hin Et) as (i & Hi). unfold receipt_unlocked in Hun. rewrite Hi in Hun.
  apply Z.ltb_lt in Hun. match type of Hun with _ < now ?j - _ => specialize (Hshort j i) end. lia.
Qed.

Lemma frame_process_receipts (R : relation V) `{!ViewRel R} task cid statuses :
  (forall {E A} (m : M W E A), framed (same receipt_queue) m -> framed R m) ->
  (forall p d rs, R (d, rs) (set_receipt_queue (delete_where p (receipt_queue d)) d, rs)) ->
  framed R (process_receipts sqlite api_client ds_send_message signing_key user_id self_group_id
    self_group_signing_key status_content task cid statuses).
Proof.
  intros Hsame Hdel. assert (Hs := fun cid rep b => Hsame _ _ _ (frame_send_receipt cid rep b)).
  unfold process_receipts, receipt_remove, remove_delivered, sqlx, resync_is_pending_for_chat,
    operation_is_pending_for_chat.
  frame_with ltac:(apply Hdel).
Qed.

Lemma receipt_worker task :
  (forall i j, now i - now j <= LOCKED_THRESHOLD) ->
  Worker (receipt_turn task) (fun w => receipts_locked task (aw_db w))
    (fun w => free_count rc_locked_by task (receipt_queue (aw_db w))).
Proof.
  intros Hshort. split.
  - intros w r w' Hl Ht. unfold send_receipt_turn in Ht. stepM Ht as c w1 H1. injection H1 as <- <-.
    destruct (cancelled _); [by injection Ht as <- <-|]. stepM Ht as x w2 H2.
    apply frame_receipt_dequeue_kept in H2. specialize (H2 Hl).
    destruct x as [[[cid statuses]|]|e]; [|by injection Ht as <- <-|by destruct Ht as [_ ->]].
    apply (frame_process_receipts (receipts_kept task)) in Ht; [by apply Ht|intros; by apply same_kept|].
    apply receipts_kept_delete.
  - intros w w' Hl Ht. unfold send_receipt_turn in Ht. bindM Ht as c w1 H1. injection H1 as <- <-.
    destruct (cancelled _); [done|]. bindM Ht as x w2 H2. destruct x as [[cid statuses]|]; [|done].
    apply receipt_dequeue_spec in H2; [|done..]. eapply Nat.le_lt_trans; [|exact H2].
    apply (frame_process_receipts (fewer rc_locked_by task receipt_queue)) in Ht; [exact Ht|..].
    + intros. by apply same_fewer.
    + intros. apply free_count_delete.
Qed.

(** C31. The senders return.  For every behaviour of the database and of the delivery
    service, one turn for each row that is queued, and one more, are enough: messages,
    reactions and, when no receipt was locked under the id of the run before and the run
    takes no longer than [LOCKED_THRESHOLD], receipts. *)
Theorem outbound_senders_return w fuel :
  ((length (chat_message_queue (aw_db w)) < fuel)%nat ->
   returns (send_queued_messages sqlite new_v4 cancelled api_client ds_send_message signing_key
     self_group_id self_group_signing_key fuel w)) /\
  ((length (reaction_queue (aw_db w)) < fuel)%nat ->
   returns (send_queued_reactions sqlite new_v4 cancelled api_client ds_send_message signing_key
     self_group_id self_group_signing_key fuel w)) /\
  ((length (receipt_queue (aw_db w)) < fuel)%nat ->
   (forall i j, now i - now j <= LOCKED_THRESHOLD) ->
   (forall r, In r (receipt_queue (aw_db w)) -> rc_locked_by r ≠ Some (new_v4 (aw_clock w))) ->
   returns (send_queued_receipts sqlite now new_v4 cancelled api_client ds_send_message signing_key
     user_id self_group_id self_group_signing_key status_content fuel w)).
Proof.
  split_and!; intros Hf.
  - apply (@worker_loop _ _ _ _ _ (message_worker _)); [done|].
    eapply Nat.le_lt_trans; [apply free_count_length|exact Hf].
  - apply (@worker_loop _ _ _ _ _ (reaction_worker _)); [done|].
    eapply Nat.le_lt_trans; [apply free_count_length|exact Hf].
  - intros Hshort Hfresh. apply (@worker_loop _ _ _ _ _ (receipt_worker _ Hshort)).
    + intros r Hr Hl. by destruct (Hfresh r Hr).
    + eapply Nat.le_lt_trans; [apply free_count_length|exact Hf].
Qed.

(** ** Collisions *)

Lemma create_message_tags signer c report g w params g' w' :
  create_message (Req := Rq) sqlite signer c (Some report) g w = (Ok (params, g'), w') ->
  sp_collision_tags params = [] \/
  exists v key, sp_collision_tags params = Generation v :: map (collision_tag key) report.
Proof.
  unfold create_message. intros Hm. bindM Hm as body w1 H1. bindM Hm as x w2 H2. destruct x as [um m].
  bindM Hm as u w3 H3. bindM Hm as y w4 H4. destruct y as [tags g2]. injection Hm as <- _ _. cbn.
  destruct (um_generation_id um) as [gid|]; [|injection H4 as <- _ _; by left]. right.
  bindM H4 as z w5 H5. injection H4 as <- _ _. eauto.
Qed.

Lemma collision_tag_not_generation key p : is_generation (collision_tag key p) = false.
Proof. unfold collision_tag. by repeat case_match. Qed.

Lemma partition_spec {A} (f : A -> SendMessageCollisionTag) (b : Z -> bool) (l : list A) :
  map fst (List.filter (fun x => b (tag_value x.2)) (zip l (map f l))) =
    List.filter (fun a => b (tag_value (f a))) l /\
  existsb (fun x => negb (b (tag_value x.2))) (zip l (map f l)) =
    existsb (fun a => negb (b (tag_value (f a)))) l.
Proof.
  induction l as [|a l [IH1 IH2]]; cbn; [done|]. rewrite IH2. split; [|done].
  destruct (b (tag_value (f a))); cbn; by rewrite IH1.
Qed.

(** Collided receipts are told apart exactly.  When the delivery service rejects a
    message with receipts and names the colliding tags, the receipts that the client takes
    as delivered by a sibling are those whose own tag is among the named ones, in their
    order, whether or not the generation collided as well; and it keeps trying exactly if
    the tag of another receipt is not. *)
Theorem collided_receipts_exact signer c report g w params g' w' named :
  create_message (Req := Rq) sqlite signer c (Some report) g w = (Ok (params, g'), w') ->
  let e := DsTonic {| code := AlreadyExists; detail := GenerationCollisionDetail named |} in
  let collisions := process_tag_collisions e (sp_collision_tags params) in
  collisions ≠ [] ->
  exists key,
    partition_collided_receipts report (sp_collision_tags params) collisions =
    (List.filter (fun p => existsb (Z.eqb (tag_value (collision_tag key p))) named) report,
     existsb (fun p => negb (existsb (Z.eqb (tag_value (collision_tag key p))) named)) report).
Proof.
  intros Hm e collisions Hne. destruct (create_message_tags _ _ _ _ _ _ _ _ Hm) as [E|(v & key & E)];
    [by unfold collisions in Hne; rewrite E in Hne|].
  exists key. unfold partition_collided_receipts. set (b := fun v => existsb (fun t => tag_value t =? v) collisions).
  assert (Hf : List.filter (fun t => negb (is_generation t)) (sp_collision_tags params) = map (collision_tag key) report).
  { rewrite E. cbn. clear -key. induction report as [|p l IH]; cbn; [done|].
    by rewrite collision_tag_not_generation, IH. }
  assert (Hb : forall p, In p report -> b (tag_value (collision_tag key p)) =
    existsb (Z.eqb (tag_value (collision_tag key p))) named).
  { intros p Hp. apply eq_true_iff_eq. unfold b, collisions. cbn. rewrite !existsb_exists. split.
    - intros (t & [_ Ht]%filter_In & Heq%Z.eqb_eq). rewrite <- Heq. by apply existsb_exists.
    - intros Ht. exists (collision_tag key p). split; [|apply Z.eqb_refl]. apply filter_In. split.
      + rewrite E. right. by apply in_map.
      + by apply existsb_exists. }
  rewrite Hf. destruct (partition_spec (collision_tag key) b report) as [H1 H2]. f_equal.
  - etrans; [exact H1|]. by apply filter_ext_in.
  - etrans; [exact H2|]. apply existsb_ext_in. intros p Hp. by rewrite Hb.
Qed.
End Correct.
