(* ===== verification/PendingOperation.v ===== *)
(** * Pending chat operations
      ([coreclient/src/job/pending_chat_operation.rs], [job/mod.rs],
      [outbound_service/retry_pending_chat_operations.rs], [clients/update_key.rs])

    An operation on a group (a commit, or leaving it) is stored before it is sent, and
    stays until the delivery service has answered.  A commit is merged when it was
    accepted; it waits for the queue when its epoch had passed; it is retried a few times
    when the service could not be reached, and discarded on other errors.  The job is a
    value in memory next to the database: what it changed there stays when a transaction
    is rolled back, and the cleanup after a fatal error works on it. *)

From S2P Require Import Prelude Messages Grpc ClientBase OutboundDb OutboundWorker ClientGroup OutboundSend.

Definition RETRY_INTERVAL : Z := 5 * 1000000000.
Definition MAX_RETRIES : Z := 5.
Definition as_u32 (z : Z) : Z := z mod 2 ^ 32.

(** [ChatOperationError] and [JobError]. *)
Inductive ChatOperationError := LeafNodeValidation | UserProfileKeyEncryptionError.
Inductive JobError :=
| JobDomain (e : ChatOperationError)
| JobNetworkError
| JobBlocked
| JobNotFound
| JobFatal (e : OutError).

Inductive OutboundServiceRunError := RunNetworkError | RunFatal (e : OutError).

Section Pending.
Context `{OutMls}.
Abbreviation W := (AccessWorld OutDb OutRequest).
Context (sqlite : nat -> option SqlxError).
Context (now : nat -> TimeStamp) (new_v4 : nat -> Uuid) (cancelled : nat -> bool).
(** [QualifiedGroupId::try_from] and [ApiClients::get], and the answers of the delivery
    service to an operation. *)
Context (api_client : GroupId -> bool).
Context (ds_operation : OutRequest -> nat -> Result DsRequestError TimeStamp).
Context (signing_key : bytes) (own_user_id : UserId).
(** [UserProfileKey::load_own] and [UserProfileKey::encrypt] under the wrapper key of the
    group; the title in the group data of a commit ([GroupData::decode], [into_parts]). *)
Context (own_user_profile_key : option bytes) (encrypt_profile_key : bytes -> bytes -> option bytes).
Context (group_title : bytes -> bytes -> option (option bytes)).

Abbreviation fetch := (fetch sqlite).
Abbreviation execute := (execute sqlite).
Abbreviation sqlx := (@sqlx _ OutRequest _).

(** ** The operation in memory *)

(** [OperationType::is_commit], [is_delete]. *)
Definition is_commit (o : OperationType) : bool :=
  match o with Leave _ => false | _ => true end.
Definition is_delete (o : OperationType) : bool :=
  match o with Delete _ | ApqDelete _ => true | _ => false end.
Definition is_leave (o : OperationType) : bool :=
  match o with Leave _ => true | _ => false end.

Record PendingChatOperation := {
  pc_group : Group;
  pc_operation : OperationType;
  pc_retry_due_at : option TimeStamp;
  pc_status : PendingChatOperationStatus;
  pc_number_of_attempts : Z
}.
Implicit Types (j : PendingChatOperation).

Definition with_group (g : Group) j : PendingChatOperation :=
  {| pc_group := g; pc_operation := pc_operation j; pc_retry_due_at := pc_retry_due_at j;
     pc_status := pc_status j; pc_number_of_attempts := pc_number_of_attempts j |}.
Definition with_operation (o : OperationType) j : PendingChatOperation :=
  {| pc_group := pc_group j; pc_operation := o; pc_retry_due_at := pc_retry_due_at j;
     pc_status := pc_status j; pc_number_of_attempts := pc_number_of_attempts j |}.
Definition with_retry_due_at (t : TimeStamp) j : PendingChatOperation :=
  {| pc_group := pc_group j; pc_operation := pc_operation j; pc_retry_due_at := Some t;
     pc_status := pc_status j; pc_number_of_attempts := pc_number_of_attempts j |}.
Definition one_more_attempt j : PendingChatOperation :=
  {| pc_group := pc_group j; pc_operation := pc_operation j; pc_retry_due_at := pc_retry_due_at j;
     pc_status := pc_status j; pc_number_of_attempts := as_u32 (pc_number_of_attempts j + 1) |}.

(** [PendingChatOperation::group_id]. *)
Definition pc_group_id j : GroupId := group_id (pc_group j).

Abbreviation JW := (W * PendingChatOperation)%type.
Abbreviation self := (recall (fun j : PendingChatOperation => j)).

(** A method of the group of the job. *)
Definition on_group {E A} (m : M (W * Group) E A) : M JW E A := fun s =>
  let '(r, (w, g)) := m (s.1, pc_group s.2) in (r, (w, with_group g s.2)).

(** ** Persistence *)

Definition is_row_of (gid : GroupId) (r : PendingRow) : bool := bytes_eqb (po_group_id r) gid.
Definition update_pending (gid : GroupId) (f : PendingRow -> PendingRow) : M W SqlxError unit :=
  execute (fun d => set_pending_chat_operation
    (update_where (is_row_of gid) f (pending_chat_operation d)) d).

(** [PendingChatOperation::new] and [store]: the id of the group is the primary key. *)
Definition pending_new (g : Group) (o : OperationType) : M W OutError PendingChatOperation :=
  t ← ask now;
  mret {| pc_group := g; pc_operation := o; pc_retry_due_at := Some t; pc_status := ReadyToRetry;
          pc_number_of_attempts := 0 |}.
Definition pending_store j : M W SqlxError unit :=
  taken ← fetch (fun d => existsb (is_row_of (pc_group_id j)) (pending_chat_operation d));
  if taken : bool then throw SqlxDatabase
  else modify (fun w => set_db (set_pending_chat_operation (pending_chat_operation (aw_db w) ++
    [{| po_group_id := pc_group_id j; po_operation_data := pc_operation j;
        po_retry_due_at := pc_retry_due_at j; po_number_of_attempts := 0; po_locked_by := None;
        po_request_status := ReadyToRetry |}]) (aw_db w)) w).

(** [update_retry_due_at]. *)
Definition retry_row (t : TimeStamp) (attempts : Z) (r : PendingRow) : PendingRow :=
  {| po_group_id := po_group_id r; po_operation_data := po_operation_data r;
     po_retry_due_at := Some t; po_number_of_attempts := attempts;
     po_locked_by := po_locked_by r; po_request_status := po_request_status r |}.
Definition update_retry_due_at (t : TimeStamp) : M JW SqlxError unit :=
  j ← self;
  _ ← on_world (update_pending (pc_group_id j) (retry_row t (pc_number_of_attempts j)));
  assign (with_retry_due_at t).

(** [mark_as_waiting_for_queue_response]. *)
Definition waiting_row (r : PendingRow) : PendingRow :=
  {| po_group_id := po_group_id r; po_operation_data := po_operation_data r;
     po_retry_due_at := po_retry_due_at r; po_number_of_attempts := po_number_of_attempts r;
     po_locked_by := po_locked_by r; po_request_status := WaitingForQueueResponse |}.
Definition mark_as_waiting_for_queue_response (gid : GroupId) : M W SqlxError unit :=
  update_pending gid waiting_row.

(** [PendingChatOperation::delete]. *)
Definition pending_delete (gid : GroupId) : M W SqlxError unit :=
  execute (fun d => set_pending_chat_operation
    (delete_where (is_row_of gid) (pending_chat_operation d)) d).

(** [SqlPendingChatOperation::into_pending_chat_operation]. *)
Definition into_pending_chat_operation (r : PendingRow) : M W SqlxError PendingChatOperation :=
  g ← group_load sqlite (po_group_id r);
  match g with
  | None => throw SqlxRowNotFound
  | Some g =>
      mret {| pc_group := g; pc_operation := po_operation_data r; pc_retry_due_at := po_retry_due_at r;
              pc_status := po_request_status r; pc_number_of_attempts := as_u32 (po_number_of_attempts r) |}
  end.

Definition pending_of (r : option PendingRow) : M W SqlxError (option PendingChatOperation) :=
  match r with
  | None => mret None
  | Some r => j ← into_pending_chat_operation r; mret (Some j)
  end.
(** [load_by_group_id] and [load]. *)
Definition pending_load_by_group_id (gid : GroupId) : M W SqlxError (option PendingChatOperation) :=
  r ← fetch (fun d => find (is_row_of gid) (pending_chat_operation d)); pending_of r.
Definition pending_load (cid : Uuid) : M W SqlxError (option PendingChatOperation) :=
  r ← fetch (fun d =>
        c ← find_chat cid d; find (is_row_of (chat_group_id c)) (pending_chat_operation d));
  pending_of r.

(** [PendingChatOperation::dequeue].  An operation without a due date is not due: the
    comparison with [NULL] does not hold. *)
Definition is_due (task_id : Uuid) (t : TimeStamp) (r : PendingRow) : bool :=
  free_for task_id (po_locked_by r) &&
  match po_request_status r with ReadyToRetry => true | WaitingForQueueResponse => false end &&
  match po_retry_due_at r with Some due => due <=? t | None => false end.
Definition lock_pending (task_id : Uuid) (r : PendingRow) : PendingRow :=
  {| po_group_id := po_group_id r; po_operation_data := po_operation_data r;
     po_retry_due_at := po_retry_due_at r; po_number_of_attempts := po_number_of_attempts r;
     po_locked_by := Some task_id; po_request_status := po_request_status r |}.
Definition pending_dequeue (task_id : Uuid) (t : TimeStamp) : M W OutError (option PendingChatOperation) :=
  r ← sqlx (fetch (fun d => find (is_due task_id t) (pending_chat_operation d)));
  match r with
  | None => mret None
  | Some r =>
      _ ← sqlx (update_pending (po_group_id r) (lock_pending task_id));
      row ← gets (fun w => find (is_row_of (po_group_id r)) (pending_chat_operation (aw_db w)));
      sqlx (pending_of row)
  end.

(** ** Chat attributes ([clients/update_key.rs], [chats/mod.rs], [chats/persistence.rs]) *)

(** The chat type of [SqlChat::convert]: a group, or a connection of some kind. *)
Definition is_group_chat (c : ChatRow) : bool :=
  match connection_user c, connection_user_handle c with None, None => true | _, _ => false end.

(** [Chat::update_title] and [Chat::update_picture]. *)
Definition update_title (cid : Uuid) (title : bytes) : M W SqlxError unit :=
  _ ← update_chat sqlite cid (with_title title); notify_update (EntityChat cid).
Definition update_picture (cid : Uuid) (picture : option bytes) : M W SqlxError unit :=
  _ ← update_chat sqlite cid (with_picture picture); notify_update (EntityChat cid).

(** [update_chat_title], with [erase_connection_chat_title] for connections. *)
Definition update_chat_title (c : ChatRow) (sender : UserId) (title : bytes) (t : TimeStamp)
    (buffer : list TimestampedMessage) : M W SqlxError (list TimestampedMessage) :=
  if is_group_chat c then
    if bool_decide (chat_title c = title) then mret buffer
    else
      _ ← update_title (chat_id c) title;
      mret (buffer ++ [{| tm_timestamp := t; tm_message := ChangeTitle sender (chat_title c) title |}])
  else
    _ ← (match title with [] => update_title (chat_id c) [] | _ => mret tt end);
    mret buffer.

(** [update_chat_attributes], with [erase_connection_chat_picture] for connections. *)
Definition update_chat_attributes (c : ChatRow) (sender : UserId) (title : bytes)
    (picture : option bytes) (t : TimeStamp) (buffer : list TimestampedMessage) :
    M W SqlxError (list TimestampedMessage) :=
  buffer ← update_chat_title c sender title t buffer;
  if is_group_chat c then
    if bool_decide (chat_picture c = picture) then mret buffer
    else
      _ ← update_picture (chat_id c) picture;
      mret (buffer ++ [{| tm_timestamp := t; tm_message := ChangePicture sender |}])
  else
    _ ← (match picture with None => update_picture (chat_id c) None | Some _ => mret tt end);
    mret buffer.

(** [CoreUser::store_new_messages] for system messages, which have no attachments. *)
Definition store_new_message (cid : Uuid) (m : TimestampedMessage) : M W SqlxError Uuid :=
  id ← ask new_v4;
  _ ← execute (fun d => set_message (message d ++
    [{| message_id := id; message_chat_id := cid; mimi_id := None; content := None; sent := true;
        message_timestamp := tm_timestamp m; edited_at := None;
        message_row_status := STATUS_UNREAD |}]) d);
  _ ← notify_add (EntityMessage id);
  _ ← notify_update (EntityChat cid);
  mret id.
Fixpoint store_new_messages (cid : Uuid) (ms : list TimestampedMessage) :
    M W SqlxError (list (Uuid * TimestampedMessage)) :=
  match ms with
  | [] => mret []
  | m :: ms =>
      id ← store_new_message cid m;
      l ← store_new_messages cid ms;
      mret ((id, m) :: l)
  end.

(** ** Execution *)

Definition fatal_sqlx (e : SqlxError) : JobError := JobFatal (OutSqlx e).

(** A leave that was tried before is proposed anew if the group has moved on. *)
Definition restage_leave : M JW JobError unit :=
  j ← self;
  match pc_operation j with
  | Leave params =>
      match mls_message_epoch (t_remove_proposal params) with
      | Some e =>
          if negb (e =? mls_epoch (mls_group (pc_group j))) && (0 <? pc_number_of_attempts j) then
            restaged ← keeping_write sqlite fatal_sqlx
                         (map_errM JobFatal (on_group (restage_leave_group sqlite signing_key params)));
            assign (with_operation (Leave restaged))
          else mret tt
      | None => mret tt
      end
  | _ => mret tt
  end.

(** The closure [encrypt_user_profile_key]. *)
Definition own_encrypted_user_profile_key (g : Group) : M W JobError bytes :=
  with_read sqlite fatal_sqlx (
    k ← map_errM fatal_sqlx (fetch (fun _ => own_user_profile_key));
    k ← lift (ok_or (fatal_sqlx SqlxRowNotFound) k);
    lift (ok_or (JobDomain UserProfileKeyEncryptionError)
            (encrypt_profile_key k (identity_link_wrapper_key g)))).

(** The request for the operation. *)
Definition request j : M W JobError OutRequest :=
  let ear := group_state_ear_key (pc_group j) in
  match pc_operation j with
  | Leave params => mret (SelfRemoveRequest params ear)
  | Delete params => mret (DeleteGroupRequest params ear)
  | ApqDelete commit => mret (ApqDeleteGroupRequest commit ear)
  | Other params _ =>
      k ← own_encrypted_user_profile_key (pc_group j); mret (GroupOperationRequest params ear k)
  | ApqOther params _ =>
      k ← own_encrypted_user_profile_key (pc_group j); mret (ApqGroupOperationRequest params ear k)
  end.
Definition send_operation (q : OutRequest) : M W JobError (Result DsRequestError TimeStamp) := fun w =>
  (Ok (ds_operation q (aw_clock w)), log_request q w).

Definition new_chat_picture (o : OperationType) : option bytes :=
  match o with Other _ p | ApqOther _ p => p | _ => None end.

(** [PendingChatOperation::handle_error]; the outcome is an error either way. *)
Definition handle_error (e : DsRequestError) : M JW JobError JobError :=
  j ← self;
  if is_not_found e then mret JobNotFound
  else if is_wrong_epoch e then
    _ ← map_errM fatal_sqlx (on_world (mark_as_waiting_for_queue_response (pc_group_id j)));
    _ ← map_errM fatal_sqlx (on_group (mark_commit_failed sqlite));
    throw JobBlocked
  else if is_network_error e && (pc_number_of_attempts j <? MAX_RETRIES) then mret JobNetworkError
  else mret (JobFatal (OutDs e)).

(** The answer of the delivery service: the time, and whether it confirmed. *)
Definition confirmed_at (answer : Result DsRequestError TimeStamp) : M JW JobError (TimeStamp * bool) :=
  match answer with
  | Ok t => mret (t, true)
  | Err e =>
      _ ← assign one_more_attempt;
      j ← self;
      if is_leave (pc_operation j) then t ← on_world (ask now); mret (t, false)
      else
        job_error ← keeping_write sqlite fatal_sqlx (handle_error e);
        throw job_error
  end.

Definition chat_inactive (s : ChatStatus) : bool :=
  match s with Inactive _ => true | _ => false end.

(** The messages of a merged commit, or of leaving. *)
Definition merge_operation (c : ChatRow) (t : TimeStamp) : M JW OutError (list TimestampedMessage) :=
  j ← self;
  x ← on_group (merge_pending_commit sqlite t);
  let '(ms, data) := x in
  match data with
  | None => mret ms
  | Some b =>
      g ← recall pc_group;
      title ← lift (ok_or OutOther (group_title b (identity_link_wrapper_key g)));
      match title with
      | None => mret ms
      | Some title =>
          on_world (sqlx (update_chat_attributes c own_user_id title (new_chat_picture (pc_operation j)) t ms))
      end
  end.
Definition group_messages (c : ChatRow) (s : ChatStatus) (t : TimeStamp) : M JW OutError (list TimestampedMessage) :=
  j ← self;
  if is_commit (pc_operation j) then merge_operation c t
  else if is_leave (pc_operation j) && negb (chat_inactive s) then
    _ ← on_group (change_role Outsider (own_user_id, own_user_id));
    mret [{| tm_timestamp := t; tm_message := SystemRemove own_user_id own_user_id |}]
  else mret [].

(** [Group::store_update] on the group of the job. *)
Definition store_group (t : TimeStamp) : M JW OutError unit :=
  g ← recall pc_group;
  g' ← on_world (sqlx (store_update sqlite (Some t) (if is_apq g then Some t else None) g));
  assign (with_group g').

(** The body of the transaction after the answer. *)
Definition post_process (context_now t : TimeStamp) (ds_has_confirmed : bool) :
    M JW OutError (list (Uuid * TimestampedMessage)) :=
  j ← self;
  let op := pc_operation j in
  x ← on_world (sqlx (chat_load_by_group_id sqlite (pc_group_id j)));
  x ← lift (ok_or OutOther x);
  let '(c, s) := x in
  gone ← (if is_commit op then
            p ← on_world (sqlx (operation_is_pending_for_chat sqlite (chat_id c))); mret (negb p)
          else mret false);
  if gone : bool then mret []
  else
    let past := if is_delete op then members (pc_group j) else [] in
    ms ← group_messages c s t;
    _ ← (if negb (chat_inactive s) && (is_delete op || is_leave op)
         then on_world (sqlx (set_inactive sqlite (chat_id c) past)) else mret tt);
    _ ← store_group t;
    stored ← on_world (sqlx (store_new_messages (chat_id c) ms));
    _ ← (if negb (is_leave op) || ds_has_confirmed
         then on_world (sqlx (pending_delete (pc_group_id j)))
         else map_errM OutSqlx (update_retry_due_at (context_now + RETRY_INTERVAL)));
    mret stored.

(** [PendingChatOperation::execute_internal]. *)
Definition execute_internal (context_now : TimeStamp) : M JW JobError (list (Uuid * TimestampedMessage)) :=
  j ← self;
  match pc_status j with
  | WaitingForQueueResponse =>
      _ ← keeping_write sqlite fatal_sqlx (map_errM fatal_sqlx (on_group (mark_commit_failed sqlite)));
      throw JobBlocked
  | ReadyToRetry =>
      _ ← lift (ensure (api_client (pc_group_id j)) (JobFatal OutOther));
      _ ← restage_leave;
      j ← self;
      q ← on_world (request j);
      answer ← on_world (send_operation q);
      x ← confirmed_at answer;
      map_errM JobFatal (keeping_write sqlite OutSqlx
        (keeping_transaction sqlite OutSqlx (post_process context_now x.1 x.2)))
  end.

(** [PendingChatOperation::execute_logic]: what is done about the outcome. *)
Definition after_execution (context_now : TimeStamp)
    (r : Result JobError (list (Uuid * TimestampedMessage))) :
    M JW JobError (list (Uuid * TimestampedMessage)) :=
  j ← self;
  match r with
  | Err JobNetworkError =>
      _ ← keeping_write sqlite fatal_sqlx
            (map_errM fatal_sqlx (update_retry_due_at (context_now + RETRY_INTERVAL)));
      throw JobNetworkError
  | Err JobNotFound =>
      _ ← on_world (map_errM JobFatal (with_write_transaction sqlite OutSqlx
            (handle_group_not_found_on_ds sqlite (pc_group_id j))));
      throw JobNotFound
  | Err (JobFatal e) =>
      _ ← keeping_write sqlite fatal_sqlx (try_ (E := OutError) (keeping_transaction sqlite OutSqlx (
            _ ← on_group (discard_pending_commit sqlite);
            on_world (sqlx (pending_delete (pc_group_id j))))));
      throw (JobFatal e)
  | r => lift r
  end.
Definition execute_logic (context_now : TimeStamp) : M JW JobError (list (Uuid * TimestampedMessage)) :=
  r ← try_ (E := JobError) (execute_internal context_now);
  after_execution context_now r.

(** [Job::execute] of a job without dependencies, in [OutboundServiceContext::execute_job]. *)
Definition execute_job j : M W JobError (list (Uuid * TimestampedMessage)) :=
  t ← ask now;
  x ← with_memory j (execute_logic t);
  mret x.1.

(** ** Creating operations *)

(** [PendingChatOperation::create_leave], with [Group::verify_role_change]. *)
Definition create_leave (cid : Uuid) : M W OutError PendingChatOperation :=
  x ← sqlx (chat_load sqlite cid);
  x ← lift (ok_or OutOther x);
  g ← load_clean sqlite (chat_group_id x.1);
  g ← lift (ok_or OutOther g);
  _ ← lift (ensure (can_change_role (room_state g) own_user_id own_user_id Outsider) OutOther);
  y ← with_memory g (stage_leave_group sqlite signing_key);
  j ← pending_new y.2 (Leave y.1);
  _ ← sqlx (pending_store j);
  mret j.

(** ** The worker ([retry_pending_chat_operations.rs]) *)

(** A turn of [OutboundServiceContext::send_pending_chat_operations]. *)
Definition retry_turn (task_id : Uuid) : M W OutboundServiceRunError Turn :=
  stop ← ask cancelled;
  if stop : bool then mret Return
  else
    t ← ask now;
    x ← map_errM RunFatal (with_write_transaction sqlite OutSqlx (pending_dequeue task_id t));
    match x with
    | None => mret Return
    | Some j =>
        r ← try_ (E := JobError) (execute_job j);
        match r with
        | Err JobNetworkError => throw RunNetworkError
        | _ => mret Continue
        end
    end.

Definition send_pending_chat_operations (fuel : nat) : M W OutboundServiceRunError (option unit) :=
  task_id ← ask new_v4; work_loop fuel (retry_turn task_id).

End Pending.
