(* ===== verification/PendingOperationCorrect.v ===== *)
(** * The worker of pending chat operations returns

    What jobs leave alone, and that the worker that retries operations returns. *)

From S2P Require Import Prelude Messages Grpc ClientBase OutboundDb OutboundWorker ClientGroup OutboundSend PendingOperation.

(** ** Frames of jobs *)

Section Jobs.
Context `{Hmls : OutMls}.

(** A relation of jobs, seen from the group of a job. *)
Definition of_group (R : relation (OutDb * list OutRequest * PendingChatOperation))
    (j : PendingChatOperation) :
    relation (OutDb * list OutRequest * Group) :=
  fun a b => R (a.1, with_group a.2 j) (b.1, with_group b.2 j).
#[export] Instance of_group_rel R j : MemoryRel R -> MemoryRel (of_group R j).
Proof.
  intros HR. split; [split|]; unfold of_group; [by intros a|by intros a b c Ha Hb; etransitivity|].
  intros d rs x d' rs' x'. apply memory_rollback.
Qed.
Lemma framed_on_group R {E A} (m : M (AccessWorld OutDb OutRequest * Group) E A) :
  (forall j, framed_in (of_group R j) m) -> framed_in R (on_group m).
Proof.
  intros Hm [w j] r s'. unfold on_group. destruct (m _) as [q [w1 g]] eqn:Em. intros [= <- <-].
  apply (Hm j) in Em. by destruct j.
Qed.

End Jobs.

Ltac unfold_job :=
  unfold execute_logic, after_execution, execute_internal, discard_pending_commit, restage_leave, restage_leave_group, restage, self_remove,
    request, own_encrypted_user_profile_key, confirmed_at, handle_error, mark_as_waiting_for_queue_response,
    mark_commit_failed, set_commit_failed, store_pending_commit_failed, notify_chat_of_group, update_group,
    post_process, group_messages, merge_operation, merge_pending_commit, merge_groups, apply_staged_operations_to_room_state,
    change_role, merge_pending, clear_pending, clear_commit_failed, update_chat_attributes, update_chat_title,
    update_title, update_picture, store_group, store_update, set_inactive, update_chat, pending_delete,
    update_retry_due_at, update_pending, handle_group_not_found_on_ds, resync_remove,
    delete_from_db, group_load, augment, chat_load_by_group_id, operation_is_pending_for_chat, mls_write, sqlx,
    with_write_transaction.
Ltac unfold_clear :=
  unfold clear_commit_failed, set_commit_failed, store_pending_commit_failed, notify_chat_of_group, update_group.
Ltac frame_job tac :=
  repeat (first [apply framed_on_group; intros ? | progress frame_in_with tac]).

Section Pending.
Context `{Hmls : OutMls}.
Abbreviation W := (AccessWorld OutDb OutRequest).
Abbreviation JW := (W * PendingChatOperation)%type.
Context (sqlite : nat -> option SqlxError).
Context (now : nat -> TimeStamp) (new_v4 : nat -> Uuid) (cancelled : nat -> bool).
Context (api_client : GroupId -> bool).
Context (ds_operation : OutRequest -> nat -> Result DsRequestError TimeStamp).
Context (signing_key : bytes) (own_user_id : UserId).
Context (own_user_profile_key : option bytes) (encrypt_profile_key : bytes -> bytes -> option bytes).
Context (group_title : bytes -> bytes -> option (option bytes)).
Implicit Types (w : W) (s : JW) (j : PendingChatOperation).

Abbreviation execute_internal := (execute_internal sqlite now new_v4 api_client ds_operation signing_key
  own_user_id own_user_profile_key encrypt_profile_key group_title).
Abbreviation execute_logic := (execute_logic sqlite now new_v4 api_client ds_operation signing_key
  own_user_id own_user_profile_key encrypt_profile_key group_title).
Abbreviation execute_job := (execute_job sqlite now new_v4 api_client ds_operation signing_key
  own_user_id own_user_profile_key encrypt_profile_key group_title).
Abbreviation retry_turn := (retry_turn sqlite now new_v4 cancelled api_client ds_operation signing_key
  own_user_id own_user_profile_key encrypt_profile_key group_title).

Lemma frame_store_new_messages (R : relation (OutDb * list OutRequest)) `{!ViewRel R} cid ms :
  (forall l d rs, R (d, rs) (set_message l d, rs)) -> framed R (store_new_messages sqlite new_v4 cid ms).
Proof.
  intros Hm. induction ms as [|m ms IH]; cbn; [frame_with ltac:(done)|].
  unfold store_new_message. frame_with ltac:(done).
Qed.

(** A job frees no row. *)
Lemma frame_job_fewer task t :
  framed_in (any_value (fewer po_locked_by task pending_chat_operation)) (execute_logic t).
Proof.
  assert (Hn := fun cid ms => frame_store_new_messages (fewer po_locked_by task pending_chat_operation) cid ms
    (fun l d rs => Nat.le_refl _)).
  assert (Hsend : forall q, framed (fewer po_locked_by task pending_chat_operation)
    (send_operation ds_operation q)) by (intros q w r w' [= <- <-]; exact (Nat.le_refl _)).
  unfold_job.
  frame_job ltac:(first [apply free_count_delete | exact (Nat.le_refl _) | by apply free_count_keep]).
Qed.

(** ** Termination *)

Lemma pending_dequeue_spec task t w j w' :
  with_write_transaction sqlite OutSqlx (pending_dequeue sqlite task t) w = (Ok (Some j), w') ->
  (free_count po_locked_by task (pending_chat_operation (aw_db w')) <
   free_count po_locked_by task (pending_chat_operation (aw_db w)))%nat.
Proof.
  intros [(e & [=] & _)|(w1 & x & w2 & Hd & _ & Hm & _ & [(a & -> & [= <-] & Hdb)|(e & [=] & _)])]%with_write_transaction_inv.
  rewrite Hdb, <- Hd. clear Hdb Hd. unfold pending_dequeue, sqlx in Hm. bindM Hm as ro w3 H3.
  apply map_errM_inv in H3 as (x & [-> [->|(e & ->)]]%fetch_inv & [= ->]).
  destruct (find _ _) as [r|] eqn:Ef; [|discriminate Hm].
  apply find_some in Ef as [Hin [[Hfree _]%andb_prop _]%andb_prop].
  bindM Hm as u w4 H4. apply map_errM_inv in H4 as (q & H4 & Hq). destruct q; [|done]. clear Hq.
  apply execute_inv in H4 as [[_ ->]|(e & [=] & _)]. bindM Hm as row w5 H5. leafM H5.
  apply map_errM_inv in Hm as (q & Hm & Hq). eapply Nat.le_lt_trans.
  { refine (framed_fewer po_locked_by task pending_chat_operation _ _ _ _ _ Hm).
    unfold pending_of, into_pending_chat_operation, group_load, augment. frame_with ltac:(done). }
  cbn. apply (free_count_lock _ _ _ _ _ r); try done. by apply bool_decide_eq_true.
Qed.

Instance retry_worker task :
  Worker (retry_turn task) (fun _ => True)
    (fun w => free_count po_locked_by task (pending_chat_operation (aw_db w))).
Proof.
  split; [done|]. intros w w' _ Ht. unfold retry_turn in Ht. bindM Ht as c w1 H1. injection H1 as <- <-.
  destruct (cancelled _); [done|]. bindM Ht as t w2 H2. injection H2 as <- <-.
  bindM Ht as x w3 H3. apply map_errM_inv in H3 as (q & H3 & Hq). destruct q as [q|]; [injection Hq as <-|done].
  destruct x as [j|]; [|done]. apply pending_dequeue_spec in H3. eapply Nat.le_lt_trans; [|exact H3].
  refine (framed_fewer po_locked_by task pending_chat_operation _ _ _ _ _ Ht).
  assert (Hj := fun t => framed_with_memory _ j _ (frame_job_fewer task t)).
  unfold execute_job. frame_with ltac:(done).
Qed.

(** The worker that retries chat operations returns.  For every behaviour of the
    database and of the delivery service, one turn for each stored operation, and one
    more, are enough. *)
Theorem pending_operations_return w fuel :
  (length (pending_chat_operation (aw_db w)) < fuel)%nat ->
  returns (send_pending_chat_operations sqlite now new_v4 cancelled api_client ds_operation signing_key
    own_user_id own_user_profile_key encrypt_profile_key group_title fuel w).
Proof.
  intros Hf. apply (@worker_loop _ _ _ _ _ (retry_worker _)); [done|].
  eapply Nat.le_lt_trans; [apply free_count_length|done].
Qed.

End Pending.
