(* ===== verification/PendingCommit.v ===== *)
(** * What becomes of a pending commit

    A commit is merged only if the delivery service has accepted it; and without failures
    of the database every answer of the service settles the operation. *)

From S2P Require Import Prelude Messages Grpc ClientBase OutboundDb OutboundWorker ClientGroup OutboundSend PendingOperation PendingOperationCorrect.

(** What the client relies on of OpenMLS: a merge and a discarded commit leave the id of a
    group alone, and discarding also its epoch; after either no commit is pending. *)
Class OutMlsLaws `{OutMls} : Prop := {
  merge_group_id m : mls_group_id (mls_merge_pending_commit m).1 = mls_group_id m;
  clear_group_id m : mls_group_id (mls_clear_pending_commit m) = mls_group_id m;
  merge_pending_none m : mls_pending_commit (mls_merge_pending_commit m).1 = None;
  clear_epoch m : mls_epoch (mls_clear_pending_commit m) = mls_epoch m;
  clear_pending_commit m : mls_pending_commit (mls_clear_pending_commit m) = None
}.

Section Commit.
Context `{Hlaws : OutMlsLaws}.
Abbreviation W := (AccessWorld OutDb OutRequest).
Abbreviation JW := (W * PendingChatOperation)%type.
Context (sqlite : nat -> option SqlxError).
Context (now : nat -> TimeStamp) (new_v4 : nat -> Uuid) (cancelled : nat -> bool).
Context (api_client : GroupId -> bool).
Context (ds_operation : OutRequest -> nat -> Result DsRequestError TimeStamp).
Context (signing_key : bytes) (own_user_id : UserId).
Context (own_user_profile_key : option bytes) (encrypt_profile_key : bytes -> bytes -> option bytes).
Context (group_title : bytes -> bytes -> option (option bytes)).
Implicit Types (w : W) (s : JW) (j : PendingChatOperation).

Abbreviation execute_internal := (execute_internal sqlite now new_v4 api_client ds_operation signing_key
  own_user_id own_user_profile_key encrypt_profile_key group_title).
Abbreviation execute_logic := (execute_logic sqlite now new_v4 api_client ds_operation signing_key
  own_user_id own_user_profile_key encrypt_profile_key group_title).
Abbreviation execute_job := (execute_job sqlite now new_v4 api_client ds_operation signing_key
  own_user_id own_user_profile_key encrypt_profile_key group_title).

(** The stored groups, and the groups and the operation of the job. *)
Definition kept : relation (OutDb * list OutRequest * PendingChatOperation) := fun a b =>
  mls_storage b.1.1 = mls_storage a.1.1 /\ mls_group (pc_group b.2) = mls_group (pc_group a.2) /\
  pq (pc_group b.2) = pq (pc_group a.2) /\ pc_operation b.2 = pc_operation a.2.
#[export] Instance kept_rel : MemoryRel kept.
Proof.
  split; [split|]; unfold kept; [done| |by intros d rs x d' rs' x' (_ & ?)].
  intros a b c (-> & -> & -> & ->) (-> & -> & -> & ->). done.
Qed.

Abbreviation finish t x := (map_errM JobFatal (keeping_write sqlite OutSqlx
  (keeping_transaction sqlite OutSqlx (post_process sqlite new_v4 own_user_id group_title t x.1 x.2)))).

Lemma request_view j w r w' :
  request sqlite own_user_profile_key encrypt_profile_key j w = (r, w') -> view w' = view w.
Proof.
  assert (Hf : framed idle (request sqlite own_user_profile_key encrypt_profile_key j)).
  { unfold request, own_encrypted_user_profile_key. frame_with ltac:(done). }
  apply Hf.
Qed.

(** A commit fails early and changes nothing, or is sent. *)
Lemma internal_ready t w j r s' :
  is_commit (pc_operation j) = true -> pc_status j = ReadyToRetry ->
  execute_internal t (w, j) = (r, s') ->
  (exists e, r = Err e /\ view s'.1 = view w /\ s'.2 = j /\
     (api_client (pc_group_id j) = false \/
      exists w1 w2, request sqlite own_user_profile_key encrypt_profile_key j w1 = (Err e, w2))) \/
  (exists q w1, aw_db w1 = aw_db w /\ aw_requests w1 = aw_requests w ++ [q] /\
     (x ← confirmed_at sqlite now (ds_operation q (pred (aw_clock w1))); finish t x) (w1, j) = (r, s')).
Proof.
  intros Hc Hst He. unfold PendingOperation.execute_internal in He. stepM He as j0 s1 H1.
  injection H1 as <- <-. cbn [snd] in He. rewrite Hst in He. stepM He as u s2 H2.
  injection H2 as <- <-. destruct (ensure _ _) as [[]|e] eqn:Ee.
  2:{ destruct He as [-> ->]. left. exists e. split_and!; try done. left. unfold ensure in Ee. by destruct (api_client _). }
  stepM He as u s3 H3. assert (H3' : u = Ok tt /\ s3 = (w, j)).
  { unfold restage_leave in H3. stepM H3 as j1 s4 H4. injection H4 as <- <-. cbn [snd] in H3.
    destruct (pc_operation j); [done|by injection H3 as <- <-..]. }
  destruct H3' as [-> ->]. clear H3. stepM He as j1 s4 H4. injection H4 as <- <-.
  stepM He as q s5 H5. apply on_world_inv in H5 as (w5 & H5' & ->). pose proof (request_view _ _ _ _ H5') as H5.
  destruct q as [q|e].
  2:{ destruct He as [-> ->]. left. eauto 9. }
  clear H5'.
  stepM He as a s6 H6. apply on_world_inv in H6 as (w6 & [= <- <-] & ->).
  right. exists q, (log_request q w5). cbn. injection H5 as -> ->. done.
Qed.

(** ** Rejected commits *)

Ltac unfold_error :=
  unfold handle_error, mark_as_waiting_for_queue_response, update_pending, mark_commit_failed,
    set_commit_failed, store_pending_commit_failed, notify_chat_of_group, update_group.

Lemma is_leave_commit o : is_leave o = negb (is_commit o).
Proof. by destruct o. Qed.

Lemma frame_error_kept e : framed_in kept (keeping_write sqlite fatal_sqlx (handle_error sqlite e)).
Proof. unfold_error. frame_job ltac:(by unfold of_group, kept). Qed.
Lemma frame_error_asked e : framed_in (any_value asked) (keeping_write sqlite fatal_sqlx (handle_error sqlite e)).
Proof. unfold_error. frame_job ltac:(done). Qed.

Lemma confirmed_error t e w j r s' :
  is_commit (pc_operation j) = true ->
  (x ← confirmed_at sqlite now (Err e); finish t x) (w, j) = (r, s') ->
  exists job_error,
    keeping_write sqlite fatal_sqlx (handle_error sqlite e) (w, one_more_attempt j) = (job_error, s') /\
    r = Err (match job_error with Ok x | Err x => x end).
Proof.
  intros Hc Hr. stepM Hr as x s1 H1. unfold confirmed_at in H1. stepM H1 as u s2 H2. injection H2 as <- <-.
  stepM H1 as j2 s3 H3. injection H3 as <- <-. cbn [snd pc_operation one_more_attempt] in H1.
  rewrite is_leave_commit, Hc in H1. cbn [negb] in H1. stepM H1 as y s4 H4.
  destruct y as [y|y].
  - injection H1 as <- <-. destruct Hr as [-> ->]. eauto.
  - destruct H1 as [-> ->]. destruct Hr as [-> ->]. eauto.
Qed.

Lemma frame_finish_asked t x : framed_in (any_value asked) (finish t x).
Proof.
  pose proof (fun cid ms => frame_store_new_messages sqlite new_v4 asked cid ms (fun l d rs => eq_refl)) as Hn.
  unfold_job. frame_job ltac:(done).
Qed.

(** Before anything is cleaned up, a commit was accepted or is left as it was. *)
Lemma internal_commit t w j r s' :
  is_commit (pc_operation j) = true -> execute_internal t (w, j) = (r, s') ->
  (exists q n t', ds_operation q n = Ok t' /\ aw_requests s'.1 = aw_requests w ++ [q]) \/
  (kept (view w, j) (view s'.1, s'.2) /\ exists e, r = Err e).
Proof.
  intros Hc He. destruct (pc_status j) eqn:Hst.
  - apply internal_ready in He as [(e & -> & Hv & -> & _)|(q & w1 & Hd & Hq & Hr)]; [| |done..].
    { right. rewrite Hv. by split; [|eauto]. }
    destruct (ds_operation q _) as [t'|e] eqn:Ea.
    + left. exists q, (pred (aw_clock w1)), t'. split; [done|]. rewrite <- Hq.
      exact (frame_finish_asked t (t', true) _ _ _ Hr).
    + right. apply confirmed_error in Hr as (je & Hr & ->); [|done]. split; [|eauto].
      apply frame_error_kept in Hr. unfold kept in *. cbn in *. by rewrite <- Hd.
  - right. unfold PendingOperation.execute_internal in He. stepM He as j0 s1 H1. injection H1 as <- <-.
    cbn [snd] in He. rewrite Hst in He. stepM He as u s2 H2.
    assert (Hk : kept (view w, j) (view s2.1, s2.2)).
    { refine ((_ : framed_in kept _) _ _ _ H2). unfold_error. frame_job ltac:(by unfold of_group, kept). }
    destruct u; [injection He as <- <-|destruct He as [-> ->]]; eauto.
Qed.

(** Every stored group is as in [d0], or deleted, or its pending commit was discarded. *)
Definition spared (d0 d : OutDb) : Prop := forall gid,
  mls_storage d !! gid = mls_storage d0 !! gid \/ mls_storage d !! gid = None \/
  exists m, mls_storage d0 !! gid = Some m /\ mls_storage d !! gid = Some (mls_clear_pending_commit m).
Definition sparing (d0 : OutDb) : relation (OutDb * list OutRequest) := fun a b =>
  spared d0 a.1 -> spared d0 b.1.
#[export] Instance sparing_rel d0 : ViewRel (sparing d0).
Proof. split; [split|]; unfold sparing; [by intros a|intros a b c; auto|by intros]. Qed.

Lemma sparing_same d0 d d' rs rs' : mls_storage d' = mls_storage d -> sparing d0 (d, rs) (d', rs').
Proof. intros E Hd gid. cbn. rewrite E. apply Hd. Qed.
Lemma sparing_delete d0 gid d rs :
  sparing d0 (d, rs) (set_mls_storage (delete gid (mls_storage d)) d, rs).
Proof.
  intros Hd gid'. cbn. destruct (decide (gid = gid')) as [->|]; [right; left; apply lookup_delete_eq|].
  rewrite lookup_delete_ne by done. apply Hd.
Qed.
Lemma sparing_clear d0 m d rs :
  mls_storage d0 !! mls_group_id m = Some m ->
  sparing d0 (d, rs)
    (set_mls_storage (<[mls_group_id (mls_clear_pending_commit m) := mls_clear_pending_commit m]> (mls_storage d)) d, rs).
Proof.
  intros Hm Hd gid. cbn. rewrite clear_group_id. destruct (decide (mls_group_id m = gid)) as [<-|].
  - right. right. exists m. by rewrite lookup_insert_eq.
  - rewrite lookup_insert_ne by done. apply Hd.
Qed.

(** The groups of a job are those that are stored. *)
Definition stored_groups (d : OutDb) (g : Group) : Prop :=
  mls_storage d !! mls_group_id (mls_group g) = Some (mls_group g) /\
  forall p, pq g = Some p -> mls_storage d !! mls_group_id (pq_mls_group p) = Some (pq_mls_group p).

Definition same_groups : relation (OutDb * list OutRequest * Group) := fun a b =>
  mls_storage b.1.1 = mls_storage a.1.1 /\ mls_group b.2 = mls_group a.2 /\ pq b.2 = pq a.2.
#[export] Instance same_groups_rel : MemoryRel same_groups.
Proof.
  split; [split|]; unfold same_groups; [done| |by intros d rs x d' rs' x' (_ & ?)].
  by intros a b c (-> & -> & ->) (-> & -> & ->).
Qed.

Lemma frame_clear_pending d0 m keep :
  mls_storage d0 !! mls_group_id m = Some m -> framed_in (any_value (sparing d0)) (clear_pending sqlite m keep).
Proof.
  intros Hm. unfold clear_pending, mls_write, sqlx.
  frame_in_with ltac:(first [by apply sparing_clear|exact (fun H => H)]).
Qed.

Lemma frame_discard d0 (s s' : W * Group) r :
  stored_groups d0 s.2 -> discard_pending_commit sqlite s = (r, s') ->
  sparing d0 (view s.1) (view s'.1).
Proof.
  intros [Ht Hp] Hd. unfold discard_pending_commit in Hd. stepM Hd as u s1 H1.
  assert (Hk : same_groups (view s.1, s.2) (view s1.1, s1.2)).
  { refine ((_ : framed_in same_groups _) _ _ _ H1). unfold_clear. frame_in_with ltac:(done). }
  assert (Hs : sparing d0 (view s.1) (view s1.1)) by apply sparing_same, Hk.
  destruct u as [[]|e]; [|by destruct Hd as [_ ->]]. stepM Hd as u s2 H2. injection H2 as <- <-.
  stepM Hd as g s3 H3. injection H3 as <- <-. destruct Hk as (_ & Hkt & Hkp). cbn in Hkt, Hkp.
  transitivity (view s1.1); [done|]. rewrite <- Hkt in Ht. rewrite <- Hkp in Hp.
  refine ((_ : framed_in (any_value (sparing d0)) _) _ _ _ Hd). cbn.
  apply framed_in_bind; [exact _|by apply frame_clear_pending|intros _].
  destruct (pq s1.2) as [p|]; [by apply frame_clear_pending, Hp|by apply framed_in_ret; exact _].
Qed.

Lemma spares_not_found d0 gid : framed (sparing d0) (handle_group_not_found_on_ds sqlite gid).
Proof.
  unfold_job. frame_with ltac:(first [exact (fun H => H) | apply sparing_delete]).
Qed.

Lemma on_group_inv {E A} (m : M (W * Group) E A) s r s' :
  on_group m s = (r, s') ->
  exists x, m (s.1, pc_group s.2) = (r, x) /\ s' = (x.1, with_group x.2 s.2).
Proof. unfold on_group. destruct (m _) as [q [w g]]. intros [= <- <-]. by exists (w, g). Qed.

(** The cleanup of a commit that was left as it was. *)
Lemma cleanup_spares d0 t e s r s' :
  stored_groups d0 (pc_group s.2) -> after_execution sqlite t (Err e) s = (r, s') ->
  sparing d0 (view s.1) (view s'.1).
Proof.
  intros Hg Ha. unfold after_execution in Ha. stepM Ha as j s1 H1. injection H1 as <- <-.
  destruct e; try by injection Ha as <- <-.
  - refine ((_ : framed_in (any_value (sparing d0)) _) _ _ _ Ha). unfold_job.
    frame_job ltac:(exact (fun H => H)).
  - pose proof (spares_not_found d0) as Hn. refine ((_ : framed_in (any_value (sparing d0)) _) _ _ _ Ha).
    unfold with_write_transaction. frame_job ltac:(exact (fun H => H)).
  - stepM Ha as u s2 H2. assert (s' = s2) as -> by (destruct u; [by injection Ha|by destruct Ha]). clear Ha.
    apply keeping_write_inv in H2 as [(n & e' & _ & _ & -> & _)|(w3 & s3 & Hv & Hm & -> & _)]; [done|].
    apply try_inv in Hm as (q & Hm & _).
    apply keeping_transaction_inv in Hm as [(n & e' & _ & _ & -> & _)|(w4 & q' & s4 & Hv' & Hm & _ & _ & Hr)].
    { cbn. by rewrite Hv. }
    cbn in Hv', Hm. assert (Hs : sparing d0 (view s.1) (view s4.1)).
    { rewrite <- Hv, <- Hv'. stepM Hm as u' s5 H5. apply on_group_inv in H5 as (x & H5 & ->).
      apply (frame_discard d0) in H5; [|done]. destruct u'; [|by destruct Hm as [_ ->]].
      apply on_world_inv in Hm as (w6 & Hm & ->). transitivity (view x.1); [done|].
      refine ((_ : framed (sparing d0) _) _ _ _ Hm). unfold_job. frame_with ltac:(exact (fun H => H)). }
    destruct Hr as [(a & _ & _ & Hd)|(e' & _ & Hd & _)].
    + intros Hsp. unfold view. cbn. rewrite Hd. by apply Hs.
    + intros Hsp. unfold view. cbn. rewrite Hd. cbn. injection Hv as -> _. exact Hsp.
Qed.

(** C16. A commit is merged only if the delivery service has accepted it.  Whatever fails,
    running a pending commit either sends one request that the service accepts, or leaves
    every stored group as it was, up to deleting it and to discarding its pending commit. *)
Theorem commit_merged_only_if_accepted w j r w' :
  is_commit (pc_operation j) = true -> stored_groups (aw_db w) (pc_group j) ->
  execute_job j w = (r, w') ->
  (exists q n t, ds_operation q n = Ok t /\ aw_requests w' = aw_requests w ++ [q]) \/
  spared (aw_db w) (aw_db w').
Proof.
  intros Hc Hst He. unfold PendingOperation.execute_job in He. stepM He as t w1 H1. injection H1 as <- <-.
  set (wa := advance w) in *. stepM He as x w2 H2. assert (w' = w2) as -> by (destruct x; [by injection He|by destruct He]).
  unfold with_memory in H2.
  destruct (PendingOperation.execute_logic _ _ _ _ _ _ _ _ _ _ _ _) as [q [w3 j3]] eqn:Hl.
  assert (w2 = w3) as -> by (destruct q; by injection H2). clear H2 He. stepM Hl as u s4 H4.
  apply try_inv in H4 as (r1 & H4 & ->). apply internal_commit in H4 as [(q' & n & t & Ha & Hq)|(Hk & e & ->)]; [| |done].
  - left. exists q', n, t. split; [done|]. change (aw_requests w) with (aw_requests wa). rewrite <- Hq. change (aw_requests w3) with (view (w3, j3).1).2.
    refine ((_ : framed_in (any_value asked) _) _ _ _ Hl). unfold_job. frame_job ltac:(done).
  - right. destruct Hk as (Hs & Ht & Hp & _). cbn in Hs, Ht, Hp.
    apply (cleanup_spares (aw_db w)) in Hl; [apply Hl; intros gid; cbn; left; by rewrite Hs|].
    unfold stored_groups. by rewrite Ht, Hp.
Qed.

End Commit.
