(* ===== verification/PendingSettled.v ===== *)
(** * Every answer settles a pending commit

    What running a pending commit does when the database does not fail, for each answer
    of the delivery service; and for an accepted commit, by whether it can be applied. *)

From S2P Require Import Prelude Messages Grpc ClientBase OutboundDb OutboundWorker ClientGroup OutboundSend PendingOperation PendingOperationCorrect PendingCommit.

(** What an answer means for an operation that was tried [attempts] times before. *)
Inductive Verdict := Accepted (t : TimeStamp) | GroupGone | EpochPassed | Unreachable | Refused.
Definition verdict (attempts : Z) (answer : Result DsRequestError TimeStamp) : Verdict :=
  match answer with
  | Ok t => Accepted t
  | Err e =>
      if is_not_found e then GroupGone
      else if is_wrong_epoch e then EpochPassed
      else if is_network_error e && (attempts + 1 <? MAX_RETRIES) then Unreachable
      else Refused
  end.

Section Settled.
Context `{Hlaws : OutMlsLaws}.
Abbreviation W := (AccessWorld OutDb OutRequest).
Abbreviation JW := (W * PendingChatOperation)%type.
Context (sqlite : nat -> option SqlxError) (Hok : forall n, sqlite n = None).
Context (now : nat -> TimeStamp) (new_v4 : nat -> Uuid) (cancelled : nat -> bool).
Context (api_client : GroupId -> bool).
Context (ds_operation : OutRequest -> nat -> Result DsRequestError TimeStamp).
Context (signing_key : bytes) (own_user_id : UserId).
Context (own_user_profile_key : option bytes) (encrypt_profile_key : bytes -> bytes -> option bytes).
Context (group_title : bytes -> bytes -> option (option bytes)).
Implicit Types (w : W) (s : JW) (j : PendingChatOperation) (d : OutDb).

Abbreviation execute_job := (execute_job sqlite now new_v4 api_client ds_operation signing_key
  own_user_id own_user_profile_key encrypt_profile_key group_title).
Abbreviation finish t x := (map_errM JobFatal (keeping_write sqlite OutSqlx
  (keeping_transaction sqlite OutSqlx (post_process sqlite new_v4 own_user_id group_title t x.1 x.2)))).

(** A stored commit that is ready to be sent: its group is stored with a pending commit
    and belongs to the chat [c]. *)
Record ready_commit d j (c : ChatRow) (r : GroupRow) : Prop := {
  rd_commit : is_commit (pc_operation j) = true;
  rd_status : pc_status j = ReadyToRetry;
  rd_attempts : 0 <= pc_number_of_attempts j < 2 ^ 32 - 1;
  rd_client : api_client (pc_group_id j) = true;
  rd_profile : exists k b, own_user_profile_key = Some k /\
    encrypt_profile_key k (identity_link_wrapper_key (pc_group j)) = Some b;
  rd_row : existsb (is_row_of (pc_group_id j)) (pending_chat_operation d) = true;
  rd_chat : find_chat_by_group (pc_group_id j) d = Some c;
  rd_group : find_group (pc_group_id j) d = Some r;
  rd_mls : mls_storage d !! pc_group_id j = Some (mls_group (pc_group j));
  rd_pending : mls_pending_commit (mls_group (pc_group j)) ≠ None;
  rd_pq : match gr_pq r, pq (pc_group j) with
          | None, None => True
          | Some (id, _), Some p =>
              mls_storage d !! id = Some (pq_mls_group p) /\
              mls_group_id (pq_mls_group p) = id /\ id ≠ pc_group_id j
          | _, _ => False
          end
}.

Lemma request_total j :
  (exists k b, own_user_profile_key = Some k /\
    encrypt_profile_key k (identity_link_wrapper_key (pc_group j)) = Some b) ->
  total (request sqlite own_user_profile_key encrypt_profile_key j).
Proof using Hok.
  intros (k & b & Hk & Hb).
  assert (Hkey : total (own_encrypted_user_profile_key sqlite own_user_profile_key encrypt_profile_key (pc_group j))).
  { intros w. eexists b, _. unfold own_encrypted_user_profile_key, with_read, mbind, M_bind, map_errM, statement.
    rewrite Hok. rewrite fetch_ok by done. cbn. rewrite Hk. cbn. by rewrite Hb. }
  unfold request. destruct (pc_operation j); total_with ltac:(done).
Qed.

(** Nothing is requested after the answer. *)
Lemma answer_asked answer t : framed_in (any_value asked) (x ← confirmed_at sqlite now answer; finish t x).
Proof.
  apply framed_in_bind; [exact _| |intros x; apply frame_finish_asked].
  pose proof (frame_error_asked sqlite). unfold confirmed_at. frame_job ltac:(done).
Qed.
Lemma after_asked t r : framed_in (any_value asked) (after_execution sqlite t r).
Proof. unfold_job. frame_job ltac:(done). Qed.

(** The commit is sent, and what becomes of the outcome. *)
Lemma job_run w j c gr r w' :
  ready_commit (aw_db w) j c gr -> execute_job j w = (r, w') ->
  exists q n w1 r1 s1 j2, aw_db w1 = aw_db w /\ aw_requests w' = aw_requests w ++ [q] /\
    (x ← confirmed_at sqlite now (ds_operation q n); finish (now (aw_clock w)) x) (w1, j) = (r1, s1) /\
    after_execution sqlite (now (aw_clock w)) r1 s1 = (r, (w', j2)).
Proof using Hok.
  intros Hr He. unfold PendingOperation.execute_job in He. stepM He as t w1 H1. injection H1 as <- <-.
  stepM He as x w2 H2. unfold with_memory in H2.
  destruct (execute_logic _ _ _ _ _ _ _ _ _ _ _ _) as [r2 [w3 j3]] eqn:Hl.
  stepM Hl as u s4 H4. apply try_inv in H4 as (r1 & H4 & ->).
  apply internal_ready in H4 as [(e & _ & _ & _ & Hf)|(q & w5 & Hd & Hq & H5)]; [| |apply Hr..].
  { exfalso. destruct Hf as [Hf|(wa & wb & Hf)]; [by rewrite (rd_client _ _ _ _ Hr) in Hf|].
    destruct (request_total j (rd_profile _ _ _ _ Hr) wa) as (a & wc & E). by rewrite E in Hf. }
  assert (r2 = r /\ w3 = w') as [-> ->].
  { destruct r2; injection H2 as <- <-; [by injection He as <- <-|by destruct He as [-> ->]]. }
  exists q, (pred (aw_clock w5)), w5, r1, s4, j3. split_and!; [done| |done..].
  change (aw_requests w) with (aw_requests (advance w)). rewrite <- Hq. cbn.
  trans (aw_requests s4.1); [exact (after_asked _ _ _ _ _ Hl)|]. exact (answer_asked _ _ _ _ _ H5).
Qed.

(** ** The cases *)

Lemma write_ok {E A X} (g : SqlxError -> E) (m : M (W * X) E A) x r x' :
  keeping_write sqlite g m x = (r, x') ->
  exists w1 x2, view w1 = view x.1 /\ m (w1, x.2) = (r, x2) /\ view x'.1 = view x2.1 /\ x'.2 = x2.2.
Proof using Hok.
  intros [(n & e & Hn & _)|Hr]%keeping_write_inv; [by rewrite Hok in Hn|done].
Qed.

(** The job after an error of the service. *)
Lemma error_run t e w j r s' :
  is_commit (pc_operation j) = true ->
  (x ← confirmed_at sqlite now (Err e); finish t x) (w, j) = (r, s') ->
  exists w1 je s2, view w1 = view w /\ handle_error sqlite e (w1, one_more_attempt j) = (je, s2) /\
    view s'.1 = view s2.1 /\ s'.2 = s2.2 /\ r = Err (match je with Ok x | Err x => x end).
Proof using Hok.
  intros Hc (je & (w1 & s2 & Hv & Hm & Hv' & Hj)%write_ok & ->)%confirmed_error; [|done]. by exists w1, je, s2.
Qed.

Lemma unreachable_run t e w j r s' r' s'' :
  is_commit (pc_operation j) = true -> 0 <= pc_number_of_attempts j < 2 ^ 32 - 1 ->
  verdict (pc_number_of_attempts j) (Err e) = Unreachable ->
  (x ← confirmed_at sqlite now (Err e); finish t x) (w, j) = (r, s') ->
  after_execution sqlite t r s' = (r', s'') ->
  r' = Err JobNetworkError /\
  aw_db s''.1 = set_pending_chat_operation
    (update_where (is_row_of (pc_group_id j))
       (retry_row (t + RETRY_INTERVAL) (pc_number_of_attempts j + 1)) (pending_chat_operation (aw_db w))) (aw_db w).
Proof using Hok.
  intros Hc Hn Hv (w1 & je & s2 & Hw & Hm & Hs & Hj & ->)%error_run Ha; [|done]. cbn in Hv.
  assert (Hn' : pc_number_of_attempts (one_more_attempt j) = pc_number_of_attempts j + 1).
  { cbn. unfold as_u32. rewrite Z.mod_small; lia. }
  unfold handle_error in Hm. stepM Hm as j1 s1 H1. injection H1 as <- <-. cbn [snd] in Hm. rewrite Hn' in Hm.
  destruct (is_not_found e); [done|]. destruct (is_wrong_epoch e); [done|]. destruct (_ && _); [|done].
  injection Hm as <- <-. unfold after_execution in Ha. stepM Ha as j2 s3 H3. injection H3 as <- <-.
  stepM Ha as u s4 H4. apply write_ok in H4 as (w5 & s5 & Hv5 & Hm & Hv4 & _).
  apply map_errM_inv in Hm as (q & Hm & ->). stepM Hm as j5 s6 H6. injection H6 as <- <-.
  stepM Hm as u6 s7 H7. apply on_world_inv in H7 as (w7 & H7 & ->). unfold update_pending in H7.
  rewrite execute_ok in H7 by done. injection H7 as <- <-. injection Hm as <- <-. cbn in Ha. injection Ha as <- <-.
  split; [done|]. injection Hv4 as -> _. cbn. cbn [snd]. rewrite Hj.
  injection Hw as <- _. injection Hs as Hs _. injection Hv5 as -> _. rewrite Hs. cbn. cbn in Hn'. by rewrite Hn'.
Qed.

Lemma mark_failed_run (x x' : W * Group) r :
  mark_commit_failed sqlite x = (r, x') ->
  r = Ok tt /\
  aw_db x'.1 = if pending_commit_failed x.2 then aw_db x.1 else
    set_group_table (update_where (fun r => bytes_eqb (gr_group_id r) (group_id x.2)) (with_row_failed true)
      (group_table (aw_db x.1))) (aw_db x.1).
Proof using Hok.
  intros Hm. unfold mark_commit_failed in Hm. stepM Hm as g s1 H1. injection H1 as <- <-.
  destruct (pending_commit_failed x.2); [by injection Hm as <- <-|].
  stepM Hm as u s2 H2. injection H2 as <- <-. stepM Hm as g s3 H3. injection H3 as <- <-.
  apply on_world_inv in Hm as (w4 & Hm & ->). stepM Hm as u w5 H5.
  unfold store_pending_commit_failed, update_group in H5. rewrite execute_ok in H5 by done. injection H5 as <- <-.
  unfold notify_chat_of_group in Hm. stepM Hm as c w6 H6. rewrite fetch_ok in H6 by done. injection H6 as <- <-.
  destruct (find_chat_by_group _ _); by injection Hm as <- <-.
Qed.

Lemma epoch_passed_run t e w j r s' r' s'' :
  is_commit (pc_operation j) = true -> verdict (pc_number_of_attempts j) (Err e) = EpochPassed ->
  (x ← confirmed_at sqlite now (Err e); finish t x) (w, j) = (r, s') ->
  after_execution sqlite t r s' = (r', s'') ->
  r' = Err JobBlocked /\
  pending_chat_operation (aw_db s''.1) =
    update_where (is_row_of (pc_group_id j)) waiting_row (pending_chat_operation (aw_db w)) /\
  mls_storage (aw_db s''.1) = mls_storage (aw_db w) /\
  (pending_commit_failed (pc_group j) = false ->
   gr_pending_commit_failed <$> find_group (pc_group_id j) (aw_db s''.1) =
   (fun _ => true) <$> find_group (pc_group_id j) (aw_db w)).
Proof using Hok.
  intros Hc Hv (w1 & je & s2 & Hw & Hm & Hs & Hj & ->)%error_run Ha; [|done]. cbn in Hv.
  unfold handle_error in Hm. stepM Hm as j1 s1 H1. injection H1 as <- <-.
  destruct (is_not_found e); [done|]. destruct (is_wrong_epoch e); [|by destruct (_ && _)].
  stepM Hm as u s3 H3. apply map_errM_inv in H3 as (q & H3 & ->). apply on_world_inv in H3 as (w3 & H3 & ->).
  unfold mark_as_waiting_for_queue_response, update_pending in H3. rewrite execute_ok in H3 by done.
  injection H3 as <- <-. stepM Hm as u s4 H4. apply map_errM_inv in H4 as (q & H4 & ->).
  apply on_group_inv in H4 as (x & H4 & ->). apply mark_failed_run in H4 as [-> Hx].
  cbn [fst snd aw_db set_db advance pc_group one_more_attempt] in Hx.
  injection Hm as <- <-. injection Ha as <- <-. injection Hs as -> _. injection Hw as <- _.
  rewrite Hx. split; [done|]. destruct (pending_commit_failed (pc_group j)) eqn:Ef; [done|].
  split_and!; [done..|]. intros _. unfold find_group. cbn [set_group_table group_table].
  rewrite find_update_where by done. cbn [set_pending_chat_operation group_table].
  unfold pc_group_id. destruct (find _ _) as [gr|] eqn:Eg; [|done]. cbn. apply find_some in Eg as [_ Eg].
  by rewrite Eg.
Qed.

(** ** The group is gone *)

(** A group that can be loaded. *)
Definition loadable d gid : Prop := exists r, find_group gid d = Some r /\
  is_Some (mls_storage d !! gid) /\ forall x, gr_pq r = Some x -> is_Some (mls_storage d !! x.1).

Lemma group_load_ok gid w : loadable (aw_db w) gid ->
  exists g w', group_load sqlite gid w = (Ok (Some g), w') /\ view w' = view w.
Proof using Hok.
  intros (r & Hr & [m Hm] & Hq). unfold group_load, augment, mbind, M_bind. rewrite fetch_ok by done. rewrite Hr.
  assert (Hid : gr_group_id r = gid) by (by apply find_some in Hr as [_ Hr%bool_decide_eq_true]).
  rewrite fetch_ok by done. cbn. rewrite Hid, Hm. destruct (gr_pq r) as [[id o]|] eqn:Eq; [|by eexists _, _].
  rewrite fetch_ok by done. cbn. destruct (Hq _ eq_refl) as [pm Hpm]. cbn in Hpm. rewrite Hpm. by eexists _, _.
Qed.

(** The chat of a group is inactive. *)
Definition chat_is_inactive gid d : Prop :=
  is_active <$> find_chat_by_group gid d = Some false.
Definition stays_inactive gid : relation (OutDb * list OutRequest) := fun a b =>
  chat_is_inactive gid a.1 -> chat_is_inactive gid b.1.
#[export] Instance stays_inactive_rel gid : ViewRel (stays_inactive gid).
Proof. split; [split|]; unfold stays_inactive; [by intros a|intros a b c; auto|by intros]. Qed.

Lemma stays_inactive_update gid p f d rs :
  (forall c, chat_group_id (f c) = chat_group_id c) -> (forall c, is_active c = false -> is_active (f c) = false) ->
  stays_inactive gid (d, rs) (set_chat (update_where p f (chat d)) d, rs).
Proof.
  intros Hg Hf. unfold stays_inactive, chat_is_inactive, find_chat_by_group.
  cbn [fst set_chat OutboundDb.chat]. rewrite find_update_where by (intros c; by rewrite Hg).
  destruct (find _ _) as [c|]; [|done]. cbn. intros [= E]. destruct (p c); [by rewrite Hf|by rewrite E].
Qed.

Lemma set_inactive_run gid c past w r w' :
  find_chat_by_group gid (aw_db w) = Some c -> set_inactive sqlite (chat_id c) past w = (r, w') ->
  chat_is_inactive gid (aw_db w').
Proof using Hok.
  intros Hc Hs. unfold set_inactive in Hs. stepM Hs as u w1 H1. unfold update_chat in H1.
  rewrite execute_ok in H1 by done. injection H1 as <- <-.
  assert (Hf : stays_inactive gid (view (set_db (set_chat (update_where (fun c0 => chat_id c0 =? chat_id c)
      (with_is_active false) (chat (aw_db w))) (aw_db w)) (advance w))) (view w')).
  { refine ((_ : framed (stays_inactive gid) _) _ _ _ Hs). unfold update_chat.
    frame_with ltac:(by apply stays_inactive_update). }
  apply Hf. unfold chat_is_inactive, find_chat_by_group.
  cbn [fst view aw_db set_db set_chat OutboundDb.chat]. rewrite find_update_where by done.
  unfold find_chat_by_group in Hc. rewrite Hc. cbn. by rewrite Z.eqb_refl.
Qed.

Abbreviation group_tables := (fun d : OutDb => (pending_chat_operation d, group_table d, mls_storage d)).

Lemma delete_from_db_run gid w r w' :
  loadable (aw_db w) gid -> delete_from_db sqlite gid w = (r, w') ->
  r = Ok tt /\ chat (aw_db w') = chat (aw_db w) /\
  pending_chat_operation (aw_db w') = delete_where (is_row_of gid) (pending_chat_operation (aw_db w)) /\
  find_group gid (aw_db w') = None /\ mls_storage (aw_db w') !! gid = None.
Proof using Hok.
  intros Hl Hd. destruct (group_load_ok gid w Hl) as (g & w1 & Hg & Hv). unfold delete_from_db in Hd.
  stepM Hd as x w2 H2. rewrite Hg in H2. injection H2 as <- <-. injection Hv as Hv _.
  stepM Hd as u w2 H2. rewrite execute_ok in H2 by done. injection H2 as <- <-.
  stepM Hd as id w2 H2. rewrite fetch_ok in H2 by done. injection H2 as <- <-.
  stepM Hd as u w2 H2.
  assert (Hw : u = Ok tt /\ mls_storage (aw_db w2) !! gid = None /\ chat (aw_db w2) = chat (aw_db w) /\
    pending_chat_operation (aw_db w2) = pending_chat_operation (aw_db w)).
  { rewrite <- Hv. destruct (_ ≫= _) as [id|]; [|injection H2 as <- <-; cbn; by rewrite lookup_delete_eq].
    rewrite execute_ok in H2 by done. injection H2 as <- <-. cbn. split_and!; try done.
    destruct (decide (id = gid)) as [->|]; [apply lookup_delete_eq|].
    rewrite lookup_delete_ne by done. apply lookup_delete_eq. }
  destruct Hw as (-> & Hn & Hc & Hp). rewrite execute_ok in Hd by done. injection Hd as <- <-.
  cbn [aw_db set_db advance delete_group_rows set_pending_chat_operation pending_chat_operation set_group_table
    mls_storage OutboundDb.chat]. rewrite Hp. split_and!; try done.
  unfold find_group. cbn [group_table delete_group_rows set_pending_chat_operation set_group_table].
  destruct (find _ _) as [gr|] eqn:Ef; [|done]. apply find_some in Ef as [[_ Hf]%in_delete_where Ht]. congruence.
Qed.

Lemma inactive_run gid c past w r w' :
  find_chat_by_group gid (aw_db w) = Some c ->
  match chat_status (aw_db w) c with
  | Inactive _ => mret tt
  | _ => map_errM OutSqlx (set_inactive sqlite (chat_id c) past)
  end w = (r, w') ->
  r = Ok tt /\ chat_is_inactive gid (aw_db w') /\ group_tables (aw_db w') = group_tables (aw_db w).
Proof using Hok.
  intros Hc Hs. assert (Hgo : map_errM OutSqlx (set_inactive sqlite (chat_id c) past) w = (r, w') ->
    r = Ok tt /\ chat_is_inactive gid (aw_db w') /\ group_tables (aw_db w') = group_tables (aw_db w)).
  { intros (q & Hq & ->)%map_errM_inv. split_and!.
    - assert (Ht : total (set_inactive (Req := OutRequest) sqlite (chat_id c) past)).
      { unfold set_inactive, update_chat. total_with ltac:(done). }
      destruct (Ht w) as ([] & w2 & E). rewrite E in Hq. by injection Hq as <- <-.
    - by eapply set_inactive_run.
    - refine ((_ : framed (same group_tables) _) _ _ _ Hq). unfold set_inactive, update_chat.
      frame_with ltac:(done). }
  destruct (chat_status (aw_db w) c) eqn:Es; [|by apply Hgo..].
  injection Hs as <- <-. split_and!; try done. unfold chat_is_inactive. rewrite Hc. cbn.
  unfold chat_status in Es. destruct (is_blocked_user _ _); [done|]. by destruct (is_active c).
Qed.

Lemma not_found_run gid c w r w' :
  loadable (aw_db w) gid -> find_chat_by_group gid (aw_db w) = Some c ->
  handle_group_not_found_on_ds sqlite gid w = (r, w') ->
  r = Ok tt /\ chat_is_inactive gid (aw_db w') /\
  pending_chat_operation (aw_db w') = delete_where (is_row_of gid) (pending_chat_operation (aw_db w)) /\
  find_group gid (aw_db w') = None /\ mls_storage (aw_db w') !! gid = None.
Proof using Hok.
  intros Hl Hc Hn. destruct (group_load_ok gid w Hl) as (g & w1 & Hg & Hv).
  unfold handle_group_not_found_on_ds, sqlx in Hn. stepM Hn as x w2 H2. unfold map_errM at 1 in H2.
  rewrite Hg in H2. injection H2 as <- <-. injection Hv as Hv _. stepM Hn as x w2 H2.
  apply map_errM_inv in H2 as (q & H2 & ->). unfold chat_load_by_group_id in H2.
  rewrite fetch_ok in H2 by done. injection H2 as <- <-. rewrite Hv, Hc in Hn. cbn in Hn.
  stepM Hn as u w3 H3. rewrite <- Hv in H3, Hc.
  apply (inactive_run gid c _ (advance w1)) in H3 as (-> & Hi & Ht); [|done].
  stepM Hn as u w4 H4. apply map_errM_inv in H4 as (q & H4 & ->). unfold resync_remove in H4.
  rewrite execute_ok in H4 by done. injection H4 as <- <-. apply map_errM_inv in Hn as (q & Hn & ->).
  cbn in Ht. rewrite Hv in Ht. injection Ht as Hp Hgt Hm.
  apply delete_from_db_run in Hn as (-> & Hch & Hpd & Hfg & Hms).
  - split_and!; try done; [|by rewrite Hpd, <- Hp]. unfold chat_is_inactive, find_chat_by_group.
    rewrite Hch. exact Hi.
  - destruct Hl as (gr & Hr & Hm' & Hq). exists gr. unfold find_group. cbn. by rewrite Hgt, Hm.
Qed.

Lemma ready_loadable d j c gr : ready_commit d j c gr -> loadable d (pc_group_id j).
Proof.
  intros Hr. exists gr. split; [apply Hr|]. split; [rewrite (rd_mls _ _ _ _ Hr); eauto|].
  intros [id o] E. pose proof (rd_pq _ _ _ _ Hr) as Hq. rewrite E in Hq. destruct (pq _); [|done].
  destruct Hq as [Hq _]. cbn. rewrite Hq. eauto.
Qed.

Lemma ready_pq d j c gr : ready_commit d j c gr ->
  forall p, pq (pc_group j) = Some p -> mls_group_id (pq_mls_group p) ≠ pc_group_id j.
Proof.
  intros Hr p E. pose proof (rd_pq _ _ _ _ Hr) as Hq. rewrite E in Hq. destruct (gr_pq gr) as [[id o]|]; [|done].
  by destruct Hq as (_ & -> & ?).
Qed.

Lemma group_gone_run t e w j c gr r s' r' s'' :
  ready_commit (aw_db w) j c gr -> verdict (pc_number_of_attempts j) (Err e) = GroupGone ->
  (x ← confirmed_at sqlite now (Err e); finish t x) (w, j) = (r, s') ->
  after_execution sqlite t r s' = (r', s'') ->
  r' = Err JobNotFound /\ chat_is_inactive (pc_group_id j) (aw_db s''.1) /\
  pending_chat_operation (aw_db s''.1) = delete_where (is_row_of (pc_group_id j)) (pending_chat_operation (aw_db w)) /\
  find_group (pc_group_id j) (aw_db s''.1) = None /\ mls_storage (aw_db s''.1) !! pc_group_id j = None.
Proof using Hok.
  intros Hr Hv (w1 & je & s2 & Hw & Hm & Hs & Hj & ->)%error_run Ha; [|apply Hr]. cbn in Hv.
  unfold handle_error in Hm. stepM Hm as j1 s1 H1. injection H1 as <- <-.
  destruct (is_not_found e); [|by destruct (is_wrong_epoch e); [|destruct (_ && _)]].
  injection Hm as <- <-. unfold after_execution in Ha. stepM Ha as j2 s3 H3. injection H3 as <- <-.
  stepM Ha as u s4 H4. apply on_world_inv in H4 as (w4 & H4 & ->). apply map_errM_inv in H4 as (q & H4 & ->).
  assert (Hd : aw_db s'.1 = aw_db w) by (injection Hs as -> _; by injection Hw).
  rewrite Hj in H4. apply with_write_transaction_ok in H4 as (w5 & w6 & Hd5 & H5 & Hd4); [|done].
  assert (Hd6 : aw_db w5 = aw_db w) by by rewrite Hd5.
  apply (not_found_run _ c) in H5 as (-> & H5); rewrite ?Hd6; [|exact (ready_loadable _ _ _ _ Hr)|exact (rd_chat _ _ _ _ Hr)].
  rewrite Hd6 in H5. injection Ha as <- <-. cbn. by rewrite Hd4.
Qed.

(** ** The commit is discarded *)

Lemma clear_pending_run m keep (x x' : W * Group) r :
  clear_pending sqlite m keep x = (r, x') ->
  r = Ok tt /\ pending_chat_operation (aw_db x'.1) = pending_chat_operation (aw_db x.1) /\
  mls_storage (aw_db x'.1) = match mls_pending_commit m with
                             | Some _ => <[mls_group_id m := mls_clear_pending_commit m]> (mls_storage (aw_db x.1))
                             | None => mls_storage (aw_db x.1)
                             end.
Proof using Hok Hlaws.
  unfold clear_pending. destruct (mls_pending_commit m); [|by intros [= <- <-]].
  intros Hm. stepM Hm as u s1 H1. injection H1 as <- <-. apply on_world_inv in Hm as (w2 & Hm & ->).
  apply map_errM_inv in Hm as (q & Hm & ->). unfold mls_write in Hm. rewrite execute_ok in Hm by done.
  injection Hm as <- <-. cbn. by rewrite clear_group_id.
Qed.

Lemma clear_failed_run (x x' : W * Group) r :
  map_errM OutSqlx (clear_commit_failed sqlite) x = (r, x') ->
  r = Ok tt /\ same_groups (view x.1, x.2) (view x'.1, x'.2) /\
  pending_chat_operation (aw_db x'.1) = pending_chat_operation (aw_db x.1).
Proof using Hok.
  intros H1. split_and!.
  - assert (Ht : total (map_errM OutSqlx (clear_commit_failed (Req := OutRequest) sqlite))).
    { unfold_clear. total_with ltac:(done). }
    destruct (Ht x) as ([] & s2 & E). rewrite E in H1. by injection H1 as <- <-.
  - refine ((_ : framed_in same_groups _) _ _ _ H1). unfold_clear. frame_in_with ltac:(done).
  - refine ((_ : framed_in (any_value (same pending_chat_operation)) _) _ _ _ H1). unfold_clear.
    frame_in_with ltac:(done).
Qed.

Lemma discard_run gid (x x' : W * Group) r :
  (forall p, pq x.2 = Some p -> mls_group_id (pq_mls_group p) ≠ gid) ->
  mls_group_id (mls_group x.2) = gid ->
  discard_pending_commit sqlite x = (r, x') ->
  r = Ok tt /\ pending_chat_operation (aw_db x'.1) = pending_chat_operation (aw_db x.1) /\
  mls_storage (aw_db x'.1) !! gid =
    match mls_pending_commit (mls_group x.2) with
    | Some _ => Some (mls_clear_pending_commit (mls_group x.2))
    | None => mls_storage (aw_db x.1) !! gid
    end.
Proof using Hok Hlaws.
  intros Hp Hid Hd. unfold discard_pending_commit in Hd. stepM Hd as u s1 H1.
  apply clear_failed_run in H1 as Hu.
  destruct Hu as (-> & (Hs & Hg & Hq) & Hpc). cbn in Hs, Hg, Hq.
  stepM Hd as u s2 H2. injection H2 as <- <-. stepM Hd as g s3 H3. injection H3 as <- <-.
  stepM Hd as u s4 H4. apply clear_pending_run in H4 as (-> & Hp4 & Hm4). cbn in Hp4, Hm4. rewrite Hg in Hm4.
  rewrite Hs, Hid in Hm4. cbn in Hd. rewrite Hq in Hd. destruct (pq x.2) as [p|].
  - apply clear_pending_run in Hd as (-> & Hp5 & Hm5). split; [done|]. split; [congruence|]. rewrite Hm5, Hm4.
    specialize (Hp p eq_refl). destruct (mls_pending_commit (pq_mls_group p)); rewrite ?lookup_insert_ne by done;
      destruct (mls_pending_commit (mls_group x.2)); by rewrite ?lookup_insert_eq.
  - injection Hd as <- <-. split; [done|]. split; [congruence|]. rewrite Hm4.
    destruct (mls_pending_commit (mls_group x.2)); by rewrite ?lookup_insert_eq.
Qed.

Lemma fatal_run t e s r s' :
  (forall p, pq (pc_group s.2) = Some p -> mls_group_id (pq_mls_group p) ≠ pc_group_id s.2) ->
  after_execution sqlite t (Err (JobFatal e)) s = (r, s') ->
  r = Err (JobFatal e) /\
  pending_chat_operation (aw_db s'.1) =
    delete_where (is_row_of (pc_group_id s.2)) (pending_chat_operation (aw_db s.1)) /\
  mls_storage (aw_db s'.1) !! pc_group_id s.2 =
    match mls_pending_commit (mls_group (pc_group s.2)) with
    | Some _ => Some (mls_clear_pending_commit (mls_group (pc_group s.2)))
    | None => mls_storage (aw_db s.1) !! pc_group_id s.2
    end.
Proof using Hok Hlaws.
  intros Hp Ha. unfold after_execution in Ha. stepM Ha as j s1 H1. injection H1 as <- <-. stepM Ha as u s2 H2.
  apply write_ok in H2 as (w3 & s3 & Hv3 & Hm & Hv2 & _). apply try_inv in Hm as (q & Hm & ->).
  injection Ha as <- <-. injection Hv2 as -> _. injection Hv3 as Hv3 _.
  apply keeping_transaction_inv in Hm as [(n & e' & Hn & _)|(w4 & q' & s4 & Hv4 & Hm & _ & _ & Hr)];
    [by rewrite Hok in Hn|].
  cbn in Hm, Hv4. injection Hv4 as Hv4 _. rewrite <- Hv3, <- Hv4.
  stepM Hm as u s5 H5. apply on_group_inv in H5 as (x & H5 & ->). cbn in H5.
  apply (discard_run (pc_group_id s.2)) in H5 as (-> & Hp5 & Hm5); [|done..]. cbn in Hp5, Hm5.
  apply on_world_inv in Hm as (w6 & Hm & ->). apply map_errM_inv in Hm as (q6 & Hm & ->).
  unfold pending_delete in Hm. rewrite execute_ok in Hm by done. injection Hm as <- <-.
  destruct Hr as [(a & _ & _ & ->)|(e' & _ & _ & [[=]|(n & e2 & Hn & _)])]; [|by rewrite Hok in Hn].
  cbn [fst aw_db set_db set_pending_chat_operation pending_chat_operation mls_storage].
  by rewrite Hp5, Hm5.
Qed.

Lemma refused_run t e w j c gr r s' r' s'' :
  ready_commit (aw_db w) j c gr -> verdict (pc_number_of_attempts j) (Err e) = Refused ->
  (x ← confirmed_at sqlite now (Err e); finish t x) (w, j) = (r, s') ->
  after_execution sqlite t r s' = (r', s'') ->
  r' = Err (JobFatal (OutDs e)) /\
  pending_chat_operation (aw_db s''.1) = delete_where (is_row_of (pc_group_id j)) (pending_chat_operation (aw_db w)) /\
  mls_storage (aw_db s''.1) !! pc_group_id j = Some (mls_clear_pending_commit (mls_group (pc_group j))).
Proof using Hok Hlaws.
  intros Hr Hv (w1 & je & s2 & Hw & Hm & Hs & Hj & ->)%error_run Ha; [|apply Hr]. cbn in Hv.
  assert (Hn : pc_number_of_attempts (one_more_attempt j) = pc_number_of_attempts j + 1).
  { cbn. unfold as_u32. pose proof (rd_attempts _ _ _ _ Hr). rewrite Z.mod_small; lia. }
  unfold handle_error in Hm. stepM Hm as j1 s1 H1. injection H1 as <- <-. cbn [snd] in Hm. rewrite Hn in Hm.
  destruct (is_not_found e); [done|]. destruct (is_wrong_epoch e); [done|]. destruct (_ && _); [done|].
  injection Hm as <- <-. apply fatal_run in Ha as (-> & Hp & Hms).
  - injection Hs as Hs _. injection Hw as Hw _. cbn in Hs. rewrite Hj, Hs, Hw in *. split; [done|]. split; [done|].
    change (pc_group_id (w1, one_more_attempt j).2) with (pc_group_id j) in Hms. rewrite Hms. cbn.
    pose proof (rd_pending _ _ _ _ Hr). by destruct (mls_pending_commit _).
  - rewrite Hj. intros p Ep. exact (ready_pq _ _ _ _ Hr p Ep).
Qed.

(** ** The commit is accepted *)

(** What decides whether the pending commit of a group can be applied: the room policy
    accepts its changes, it can be described to the user, OpenMLS merges it in both groups,
    and the title in its group data can be read with the new key. *)
Definition present {A} (o : option A) : bool := match o with Some _ => true | None => false end.
Definition staged_proposals (g : Group) : list QueuedProposal :=
  match mls_pending_commit (mls_group g) with Some c => queued_proposals c | None => [] end.
Definition change_roles (role : RoleIndex) (l : list (UserId * UserId)) (room : VerifiedRoomState) :
    option VerifiedRoomState :=
  foldl (fun o x => room ← o; apply_change_role room x.1 x.2 role) (Some room) l.
Definition room_accepts (g : Group) : bool :=
  present (room ← change_roles Outsider (compile_removed_list g (staged_proposals g)) (room_state g);
    change_roles Regular (pending_adds g (staged_proposals g)) room).
Definition describable (g : Group) (t : TimeStamp) : bool :=
  match mls_pending_commit (mls_group g) with
  | Some c => is_ok (from_staged_commit g c t)
  | None => true
  end.
(** The PQ group, if a commit is pending in it. *)
Definition pq_pending (g : Group) : option MlsGroup :=
  p ← pq g; _ ← mls_pending_commit (pq_mls_group p); Some (pq_mls_group p).
Definition mergeable (g : Group) : bool :=
  (mls_merge_pending_commit (mls_group g)).2 &&
  match pq_pending g with Some m => (mls_merge_pending_commit m).2 | None => true end.
Definition new_wrapper_key (g : Group) : bytes :=
  default (identity_link_wrapper_key g) (pending_diff g ≫= diff_identity_link_wrapper_key).
Definition title_readable (g : Group) : bool :=
  match mls_pending_commit (mls_group g) ≫= group_data_from_staged_commit with
  | Some b => present (group_title b (new_wrapper_key g))
  | None => true
  end.

(** The stored groups after merging. *)
Definition merged_storage (g : Group) (st : gmap GroupId MlsGroup) : gmap GroupId MlsGroup :=
  let st := <[group_id g := (mls_merge_pending_commit (mls_group g)).1]> st in
  match pq_pending g with
  | Some m => <[mls_group_id m := (mls_merge_pending_commit m).1]> st
  | None => st
  end.

(** A commit is merged; or found to be unusable before anything is merged; or fails when
    the group in memory was merged, and stays pending in the stored group. *)
Inductive Merging := Merged | Unusable | Stuck.
Definition merging (g : Group) (t : TimeStamp) : Merging :=
  if room_accepts g && describable g t
  then if mergeable g && title_readable g then Merged else Stuck
  else Unusable.

Lemma merge_pending_run m keep (x x' : W * Group) r :
  merge_pending sqlite m keep x = (r, x') ->
  x'.2 = keep (mls_merge_pending_commit m).1 x.2 /\
  pending_chat_operation (aw_db x'.1) = pending_chat_operation (aw_db x.1) /\
  if (mls_merge_pending_commit m).2
  then r = Ok tt /\ mls_storage (aw_db x'.1) =
         <[mls_group_id m := (mls_merge_pending_commit m).1]> (mls_storage (aw_db x.1))
  else exists e, r = Err e.
Proof using Hok Hlaws.
  unfold merge_pending. pose proof (merge_group_id m) as Hid. destruct (mls_merge_pending_commit m) as [m' b].
  intros Hm. stepM Hm as u s1 H1. injection H1 as <- <-. cbn in Hid. destruct b; [|injection Hm as <- <-; cbn; eauto].
  apply on_world_inv in Hm as (w2 & Hm & ->). apply map_errM_inv in Hm as (q & Hm & ->).
  unfold mls_write in Hm. rewrite execute_ok in Hm by done. injection Hm as <- <-. cbn. by rewrite Hid.
Qed.

(** Changing roles changes the room state. *)
Lemma change_roles_run role l (x x' : W * Group) r :
  mapM_ (change_role role) l x = (r, x') ->
  (exists room, x' = (x.1, with_room_state room x.2) /\
     match change_roles role l (room_state x.2) with Some room' => r = Ok tt /\ room' = room | None => exists e, r = Err e end).
Proof.
  revert x. induction l as [|[u v] l IH]; intros x Hm.
  - injection Hm as <- <-. exists (room_state x.2). split; [by destruct x as [? []]|done].
  - cbn [mapM_] in Hm. stepM Hm as y s1 H1. unfold change_role in H1. stepM H1 as g s2 H2. injection H2 as <- <-.
    stepM H1 as g' s2 H2. injection H2 as <- <-. unfold room_state_change_role in H1. unfold change_roles.
    cbn [foldl fst snd] in *. destruct (apply_change_role (room_state x.2) u v role) as [room|] eqn:Er; cbn in H1.
    + injection H1 as <- <-. apply IH in Hm as (room' & -> & Hr). exists room'. split; [done|].
      cbn. rewrite Er. exact Hr.
    + destruct H1 as [-> ->]. destruct Hm as [-> ->]. exists (room_state x.2). split; [by destruct x as [? []]|].
      cbn. rewrite Er. replace (foldl _ None l) with (@None VerifiedRoomState); [eauto|]. clear. by induction l.
Qed.

Lemma apply_staged_run (x x' : W * Group) r :
  apply_staged_operations_to_room_state x = (r, x') ->
  (exists room, x' = (x.1, with_room_state room x.2)) /\
  if room_accepts x.2 then r = Ok tt else exists e, r = Err e.
Proof.
  intros Hm. unfold apply_staged_operations_to_room_state in Hm. stepM Hm as g s1 H1. injection H1 as <- <-.
  fold (staged_proposals x.2) in Hm. unfold room_accepts. stepM Hm as u s2 H2.
  apply change_roles_run in H2 as (room & -> & H2).
  destruct (change_roles Outsider _ _) as [room'|]; cbn.
  - destruct H2 as [-> ->]. apply change_roles_run in Hm as (room2 & -> & Hm). cbn [snd room_state with_room_state] in Hm.
    split; [by exists room2|]. destruct (change_roles Regular _ _); [by destruct Hm|done].
  - destruct H2 as [e ->]. destruct Hm as [-> ->]. eauto.
Qed.

(** Merging the groups in memory, and storing them. *)
Lemma merge_groups_run (x x' : W * Group) r :
  (forall p, pq x.2 = Some p -> mls_group_id (pq_mls_group p) ≠ group_id x.2) ->
  merge_groups sqlite x.2 x = (r, x') ->
  mls_group x'.2 = (mls_merge_pending_commit (mls_group x.2)).1 /\
  (forall p, pq x'.2 = Some p -> mls_group_id (pq_mls_group p) ≠ group_id x.2) /\
  new_wrapper_key x'.2 = new_wrapper_key x.2 /\
  pending_chat_operation (aw_db x'.1) = pending_chat_operation (aw_db x.1) /\
  if mergeable x.2
  then r = Ok tt /\ mls_storage (aw_db x'.1) = merged_storage x.2 (mls_storage (aw_db x.1))
  else exists e, r = Err e.
Proof using Hok Hlaws.
  intros Hp Hm. unfold merge_groups in Hm. stepM Hm as u s1 H1.
  apply merge_pending_run in H1 as (Hg1 & Hp1 & H1). unfold mergeable, merged_storage, pq_pending, new_wrapper_key.
  destruct (mls_merge_pending_commit (mls_group x.2)).2; cbn [andb].
  2:{ destruct H1 as [e ->]. destruct Hm as [-> ->]. rewrite Hg1. split_and!; eauto. }
  destruct H1 as [-> Hm1]. destruct (pq x.2) as [p|] eqn:Eq; cbn.
  2:{ injection Hm as <- <-. rewrite Hg1. cbn. rewrite Eq. split_and!; eauto. }
  destruct (mls_pending_commit (pq_mls_group p)); cbn.
  2:{ injection Hm as <- <-. rewrite Hg1. cbn. rewrite Eq. split_and!; eauto. }
  apply merge_pending_run in Hm as (Hg2 & Hp2 & Hm). rewrite Hg2, Hg1. cbn. rewrite Eq. cbn.
  split_and!; [done| |done|congruence|].
  - intros p' [= <-]. cbn. rewrite merge_group_id. by apply Hp.
  - destruct (mls_merge_pending_commit (pq_mls_group p)).2; [|done]. destruct Hm as [-> ->]. by rewrite Hm1.
Qed.

Definition same_key : relation (OutDb * list OutRequest * Group) := fun a b =>
  identity_link_wrapper_key b.2 = identity_link_wrapper_key a.2.
#[export] Instance same_key_rel : MemoryRel same_key.
Proof. split; [split|]; unfold same_key; [done|by intros a b c -> ->|done]. Qed.
Lemma clear_failed_key (x x' : W * Group) r :
  map_errM OutSqlx (clear_commit_failed sqlite) x = (r, x') ->
  identity_link_wrapper_key x'.2 = identity_link_wrapper_key x.2.
Proof.
  intros H1. refine ((_ : framed_in same_key _) _ _ _ H1). unfold_clear. frame_in_with ltac:(done).
Qed.

(** What merging the pending commit [c] of a group does: in memory, and to the database. *)
Lemma merge_run t c (x x' : W * Group) r :
  (forall p, pq x.2 = Some p -> mls_group_id (pq_mls_group p) ≠ group_id x.2) ->
  mls_pending_commit (mls_group x.2) = Some c ->
  merge_pending_commit sqlite t x = (r, x') ->
  (forall p, pq x'.2 = Some p -> mls_group_id (pq_mls_group p) ≠ group_id x.2) /\
  pending_chat_operation (aw_db x'.1) = pending_chat_operation (aw_db x.1) /\
  if room_accepts x.2 && describable x.2 t
  then mls_group x'.2 = (mls_merge_pending_commit (mls_group x.2)).1 /\
       if mergeable x.2
       then (exists ms, r = Ok (ms, group_data_from_staged_commit c)) /\
            mls_storage (aw_db x'.1) = merged_storage x.2 (mls_storage (aw_db x.1)) /\
            identity_link_wrapper_key x'.2 = new_wrapper_key x.2
       else exists e, r = Err e
  else mls_group x'.2 = mls_group x.2 /\ exists e, r = Err e.
Proof using Hok Hlaws.
  intros Hp Hc Hm. unfold merge_pending_commit in Hm. stepM Hm as u s1 H1.
  apply apply_staged_run in H1 as [[room ->] H1]. destruct (room_accepts x.2); cbn [andb].
  2:{ destruct H1 as [e ->]. destruct Hm as [-> ->]. cbn. eauto. }
  subst u. stepM Hm as g s2 H2. injection H2 as <- <-. cbn [fst snd] in Hm.
  change (mls_pending_commit (mls_group (with_room_state room x.2))) with (mls_pending_commit (mls_group x.2)) in Hm.
  unfold describable. rewrite Hc in *. stepM Hm as out s3 H3. stepM H3 as ms s4 H4. injection H4 as <- <-.
  change (from_staged_commit (with_room_state room x.2) c t) with (from_staged_commit x.2 c t) in H3.
  destruct (from_staged_commit x.2 c t) as [ms|e]; cbn [is_ok].
  2:{ destruct H3 as [-> ->]. destruct Hm as [-> ->]. cbn. eauto. }
  injection H3 as <- <-. stepM Hm as u s4 H4. apply (merge_groups_run (x.1, with_room_state room x.2)) in H4 as (Hg & Hq & Hk & Hpc & H4); [|exact Hp].
  cbn [fst snd] in Hg, Hq, Hk, Hpc, H4. change (mergeable (with_room_state room x.2)) with (mergeable x.2) in H4.
  destruct (mergeable x.2); [|destruct H4 as [e ->]; destruct Hm as [-> ->]; eauto 10].
  destruct H4 as [-> Hst]. stepM Hm as u s5 H5. injection H5 as <- <-. stepM Hm as u s6 H6.
  pose proof (clear_failed_key _ _ _ H6) as Hk6.
  apply clear_failed_run in H6 as (-> & (Hs6 & Hg6 & Hq6) & Hp6). cbn in Hs6, Hg6, Hq6, Hp6, Hk6.
  injection Hm as <- <-. rewrite Hg6, Hq6, Hs6, Hk6, Hp6. split_and!; eauto.
Qed.

Abbreviation stored := (fun d : OutDb => (pending_chat_operation d, mls_storage d)).

Lemma attributes_run c title pic t ms s r s' :
  on_world (X := PendingChatOperation) (sqlx (update_chat_attributes sqlite c own_user_id title pic t ms)) s = (r, s') ->
  (exists l, r = Ok l) /\ s'.2 = s.2 /\ stored (aw_db s'.1) = stored (aw_db s.1).
Proof using Hok.
  intros (w & Hm & ->)%on_world_inv. split_and!; [|done|].
  - assert (Ht : total (update_chat_attributes sqlite c own_user_id title pic t ms)).
    { unfold update_chat_attributes, update_chat_title, update_title, update_picture, update_chat.
      total_with ltac:(done). }
    apply map_errM_inv in Hm as (q & Hm & ->). destruct (Ht s.1) as (l & w2 & E). rewrite E in Hm.
    injection Hm as <- _. by exists l.
  - cbn [fst]. refine ((_ : framed (same stored) _) _ _ _ Hm). unfold_job. frame_with ltac:(done).
Qed.

(** The groups in memory are merged, or as they were. *)
Definition in_memory (o : Merging) (g g' : Group) : Prop :=
  (mls_group g' = match o with Unusable => mls_group g | _ => (mls_merge_pending_commit (mls_group g)).1 end) /\
  forall p, pq g' = Some p -> mls_group_id (pq_mls_group p) ≠ group_id g.

Lemma merge_operation_run c t s r s' :
  (forall p, pq (pc_group s.2) = Some p -> mls_group_id (pq_mls_group p) ≠ pc_group_id s.2) ->
  mls_pending_commit (mls_group (pc_group s.2)) ≠ None ->
  merge_operation sqlite own_user_id group_title c t s = (r, s') ->
  let g := pc_group s.2 in
  in_memory (merging g t) g (pc_group s'.2) /\
  pending_chat_operation (aw_db s'.1) = pending_chat_operation (aw_db s.1) /\
  match merging g t with
  | Merged => (exists ms, r = Ok ms) /\ mls_storage (aw_db s'.1) = merged_storage g (mls_storage (aw_db s.1))
  | _ => exists e, r = Err e
  end.
Proof using Hok Hlaws.
  intros Hp Hc Hm g. destruct (mls_pending_commit (mls_group (pc_group s.2))) as [co|] eqn:Eco; [clear Hc|done].
  unfold merge_operation in Hm. stepM Hm as j s1 H1. injection H1 as <- <-.
  stepM Hm as x s2 H2. apply on_group_inv in H2 as (y & H2 & ->). apply (merge_run t co) in H2 as (Hq & Hpc & H2); [|done..].
  cbn [fst snd] in Hq, Hpc, H2. fold g in Hq, H2, Eco. unfold in_memory, merging, title_readable. rewrite Eco. cbn [mbind option_bind].
  destruct (room_accepts g && describable g t); [|destruct H2 as (Hg & e & ->), Hm as [-> ->]; split_and!; eauto].
  destruct H2 as [Hg H2]. destruct (mergeable g); cbn [andb].
  2:{ destruct H2 as [e ->], Hm as [-> ->]. split_and!; eauto. }
  destruct H2 as ((ms & ->) & Hst & Hk). cbn [fst snd] in Hm.
  destruct (group_data_from_staged_commit co) as [b|]; [|injection Hm as <- <-; split_and!; eauto].
  stepM Hm as g2 s3 H3. injection H3 as <- <-. stepM Hm as title s4 H4. injection H4 as <- <-.
  cbn [snd pc_group with_group] in Hm. rewrite Hk in Hm.
  destruct (group_title b (new_wrapper_key g)) as [[title|]|]; cbn [ok_or present] in Hm |- *.
  - apply attributes_run in Hm as ([l ->] & -> & [= Ha Hb]). rewrite Ha, Hb. split_and!; eauto.
  - injection Hm as <- <-. split_and!; eauto.
  - destruct Hm as [-> ->]. split_and!; eauto.
Qed.

(** A program that succeeds and leaves the operations and the MLS groups alone. *)
Definition harmless {A} (m : M JW OutError A) : Prop := total m /\ framed_in (any_value (same stored)) m.
Lemma harmless_inv {A} (m : M JW OutError A) s r s' :
  harmless m -> m s = (r, s') -> (exists a, r = Ok a) /\ stored (aw_db s'.1) = stored (aw_db s.1).
Proof.
  intros [Ht Hf] Hm. apply Hf in Hm as Hs. destruct (Ht s) as (a & s2 & E). rewrite E in Hm.
  injection Hm as <- <-. eauto.
Qed.
Lemma harmless_if (b : bool) (m m' : M JW OutError unit) : harmless m -> harmless m' -> harmless (if b then m else m').
Proof. by destruct b. Qed.
Lemma harmless_ret {A} (a : A) : harmless (mret a).
Proof. split; [apply total_ret|]. by intros s r s' [= <- <-]. Qed.
Lemma harmless_set_inactive cid past : harmless (on_world (sqlx (set_inactive sqlite cid past))).
Proof using Hok.
  split; unfold set_inactive, update_chat, sqlx; [total_with ltac:(done)|frame_in_with ltac:(done)].
Qed.
Lemma harmless_store_group t : harmless (store_group sqlite t).
Proof using Hok.
  split; unfold store_group, store_update, update_group, sqlx; [total_with ltac:(done)|frame_in_with ltac:(done)].
Qed.
Lemma harmless_store_messages cid ms : harmless (on_world (sqlx (store_new_messages sqlite new_v4 cid ms))).
Proof using Hok.
  split.
  - apply total_world, total_map_err. induction ms as [|m ms IH]; cbn; [apply total_ret|].
    unfold store_new_message. total_with ltac:(done).
  - unfold sqlx. apply framed_in_world. intros j. apply framed_map_err.
    apply (frame_store_new_messages sqlite new_v4); [exact _|done].
Qed.

Lemma ready_operation_pending d j c gr : ready_commit d j c gr -> operation_pending (chat_id c) d = true.
Proof.
  intros Hr. pose proof (rd_chat _ _ _ _ Hr) as Hc. apply find_some in Hc as [Hin Hg%bool_decide_eq_true].
  apply existsb_exists. exists c. split; [done|]. rewrite Z.eqb_refl. cbn. rewrite Hg. apply Hr.
Qed.

Lemma post_process_run t0 t w j c gr r s' :
  ready_commit (aw_db w) j c gr ->
  post_process sqlite new_v4 own_user_id group_title t0 t true (w, j) = (r, s') ->
  match merging (pc_group j) t with
  | Merged => (exists ms, r = Ok ms) /\
      pending_chat_operation (aw_db s'.1) = delete_where (is_row_of (pc_group_id j)) (pending_chat_operation (aw_db w)) /\
      mls_storage (aw_db s'.1) = merged_storage (pc_group j) (mls_storage (aw_db w))
  | o => (exists e, r = Err e) /\ in_memory o (pc_group j) (pc_group s'.2)
  end.
Proof using Hok Hlaws.
  intros Hr Hm. unfold post_process in Hm. stepM Hm as j1 s1 H1. injection H1 as <- <-. cbn [snd] in Hm.
  stepM Hm as x s2 H2. apply on_world_inv in H2 as (w2 & H2 & ->). apply map_errM_inv in H2 as (q & H2 & ->).
  unfold chat_load_by_group_id in H2. rewrite fetch_ok in H2 by done. injection H2 as <- <-. cbn [fst map_err] in Hm.
  rewrite (rd_chat _ _ _ _ Hr) in Hm. cbn [fmap option_fmap option_map] in Hm. stepM Hm as x s3 H3.
  injection H3 as <- <-. cbn [ok_or] in Hm. stepM Hm as gone s4 H4. rewrite (rd_commit _ _ _ _ Hr) in H4.
  stepM H4 as p s5 H5. apply on_world_inv in H5 as (w5 & H5 & ->). apply map_errM_inv in H5 as (q & H5 & ->).
  unfold operation_is_pending_for_chat in H5. rewrite fetch_ok in H5 by done. injection H5 as <- <-.
  cbn [fst snd map_err aw_db advance] in H4. rewrite (ready_operation_pending _ _ _ _ Hr) in H4.
  injection H4 as <- <-. cbn [negb] in Hm. stepM Hm as ms s6 H6. unfold group_messages in H6.
  stepM H6 as j6 s7 H7. injection H7 as <- <-. cbn [snd] in H6. rewrite (rd_commit _ _ _ _ Hr) in H6.
  apply merge_operation_run in H6 as (Hg & Hp & Hl); [|exact (ready_pq _ _ _ _ Hr)|exact (rd_pending _ _ _ _ Hr)].
  cbn [fst snd aw_db advance] in Hg, Hp, Hl.
  destruct (merging (pc_group j) t); [|destruct Hl as [e ->], Hm as [-> ->]; eauto..].
  destruct Hl as [[l ->] Hl]. stepM Hm as u s8 H8. apply harmless_inv in H8 as [[a ->] Hs8].
  2:{ apply harmless_if; [apply harmless_set_inactive|apply harmless_ret]. }
  stepM Hm as u s9 H9. apply harmless_inv in H9 as [[b ->] Hs9]; [|apply harmless_store_group].
  stepM Hm as l1 s10 H10. apply harmless_inv in H10 as [[l' ->] Hs10]; [|apply harmless_store_messages].
  rewrite orb_true_r in Hm. stepM Hm as u s11 H11. apply on_world_inv in H11 as (w11 & H11 & ->).
  apply map_errM_inv in H11 as (q & H11 & ->). unfold pending_delete in H11. rewrite execute_ok in H11 by done.
  injection H11 as <- <-. injection Hm as <- <-. split; [by exists l'|]. rewrite Hs9, Hs8 in Hs10.
  injection Hs10 as Hs10 Hs10'. cbn [fst aw_db set_db set_pending_chat_operation pending_chat_operation mls_storage].
  by rewrite Hs10, Hp, Hs10', Hl.
Qed.

(** What an accepted commit leaves behind. *)
Definition accepted_outcome d j (t : TimeStamp) (r : Result JobError (list (Uuid * TimestampedMessage))) d' : Prop :=
  let g := pc_group j in
  pending_chat_operation d' = delete_where (is_row_of (pc_group_id j)) (pending_chat_operation d) /\
  match merging g t with
  | Merged => (exists ms, r = Ok ms) /\ mls_storage d' = merged_storage g (mls_storage d)
  | Unusable => (exists e, r = Err (JobFatal e)) /\
      mls_storage d' !! pc_group_id j = Some (mls_clear_pending_commit (mls_group g))
  | Stuck => (exists e, r = Err (JobFatal e)) /\ mls_storage d' !! pc_group_id j = Some (mls_group g)
  end.

(** The cleanup after a failed merge. *)
Lemma unmerged_run o e t0 w j c gr s r' s'' :
  ready_commit (aw_db w) j c gr -> in_memory o (pc_group j) (pc_group s.2) -> aw_db s.1 = aw_db w ->
  after_execution sqlite t0 (Err (JobFatal e)) s = (r', s'') ->
  r' = Err (JobFatal e) /\
  pending_chat_operation (aw_db s''.1) = delete_where (is_row_of (pc_group_id j)) (pending_chat_operation (aw_db w)) /\
  mls_storage (aw_db s''.1) !! pc_group_id j =
    Some match o with Unusable => mls_clear_pending_commit (mls_group (pc_group j)) | _ => mls_group (pc_group j) end.
Proof using Hok Hlaws.
  intros Hr [Hg Hq] Hd Ha.
  assert (Hgid : pc_group_id s.2 = pc_group_id j).
  { unfold pc_group_id, group_id. rewrite Hg. destruct o; [apply merge_group_id|done|apply merge_group_id]. }
  apply fatal_run in Ha as (-> & Hpd & Hms); [|rewrite Hgid; exact Hq].
  rewrite Hgid, Hd in Hpd, Hms. split; [done|]. split; [done|]. rewrite Hms, Hg.
  destruct o; try (rewrite merge_pending_none; apply Hr).
  pose proof (rd_pending _ _ _ _ Hr) as Hne. by destruct (mls_pending_commit (mls_group (pc_group j))).
Qed.

Lemma accepted_run t0 t w j c gr r s' r' s'' :
  ready_commit (aw_db w) j c gr ->
  (x ← confirmed_at sqlite now (Ok t); finish t0 x) (w, j) = (r, s') ->
  after_execution sqlite t0 r s' = (r', s'') -> accepted_outcome (aw_db w) j t r' (aw_db s''.1).
Proof using Hok Hlaws.
  intros Hr Hf Ha. stepM Hf as x s1 H1. injection H1 as <- <-. apply map_errM_inv in Hf as (q & Hf & ->).
  apply write_ok in Hf as (w1 & s2 & Hw & Hf & Hs' & Hj). injection Hw as Hw _. injection Hs' as Hs' _.
  apply keeping_transaction_inv in Hf as [(n & e & Hn & _)|(w3 & q3 & s3 & Hw3 & Hp & Hj2 & _ & Hq)];
    [by rewrite Hok in Hn|]. injection Hw3 as Hw3 _. cbn in Hp, Hw3.
  apply (post_process_run _ _ _ _ c gr) in Hp; [|by rewrite Hw3, Hw]. rewrite Hw3, Hw in Hp.
  unfold accepted_outcome. destruct (merging (pc_group j) t) eqn:Eo.
  { destruct Hp as ((ms & ->) & Hp & Hl).
    destruct Hq as [(a & [= <-] & -> & Hd)|(e' & -> & _ & [[=]|(n & e2 & Hn & _)])]; [|by rewrite Hok in Hn].
    unfold after_execution in Ha. stepM Ha as j5 s5 H5. injection H5 as <- <-. injection Ha as <- <-.
    rewrite Hs', Hd. eauto. }
  all: destruct Hp as ((e & ->) & Hg); rewrite <- Hj2, <- Hj in Hg.
  all: destruct Hq as [(a & [=] & _)|(e' & -> & Hd & [[= <-]|(n & e2 & Hn & _)])]; [|by rewrite Hok in Hn].
  all: cbn in Hd; rewrite Hd, Hw in Hs'.
  all: destruct (unmerged_run _ _ _ _ _ _ _ _ _ _ Hr Hg Hs' Ha) as (-> & Hpd & Hms); eauto.
Qed.

(** What becomes of the commit [j] that was run at the time [t]. *)
Definition settles d j (t : TimeStamp) (v : Verdict) (r : Result JobError (list (Uuid * TimestampedMessage)))
    d' : Prop :=
  let gid := pc_group_id j in
  let m := mls_group (pc_group j) in
  let removed := delete_where (is_row_of gid) (pending_chat_operation d) in
  match v with
  | Accepted at_ => accepted_outcome d j at_ r d'
  | GroupGone =>
      r = Err JobNotFound /\ chat_is_inactive gid d' /\ pending_chat_operation d' = removed /\
      find_group gid d' = None /\ mls_storage d' !! gid = None
  | EpochPassed =>
      r = Err JobBlocked /\
      pending_chat_operation d' = update_where (is_row_of gid) waiting_row (pending_chat_operation d) /\
      mls_storage d' = mls_storage d /\
      (pending_commit_failed (pc_group j) = false ->
       gr_pending_commit_failed <$> find_group gid d' = (fun _ => true) <$> find_group gid d)
  | Unreachable =>
      r = Err JobNetworkError /\
      d' = set_pending_chat_operation
             (update_where (is_row_of gid) (retry_row (t + RETRY_INTERVAL) (pc_number_of_attempts j + 1))
                (pending_chat_operation d)) d
  | Refused =>
      (exists e, r = Err (JobFatal e)) /\ pending_chat_operation d' = removed /\
      mls_storage d' !! gid = Some (mls_clear_pending_commit m)
  end.

(** C17. Every answer of the delivery service settles a pending commit.  When the database
    does not fail, running a stored commit sends one request.  If it is accepted, the
    operation is removed; both groups are merged exactly if the room policy accepts the
    changes of the commit, the commit can be described, OpenMLS merges it and its title can
    be read; otherwise the job fails, with the pending commit discarded if it was not
    usable, and still pending if it failed after merging in memory.  If the group is gone,
    the group and the operation are removed and the chat becomes inactive; if the epoch had
    passed, the operation waits for the queue and the group is marked; if the service could
    not be reached, for fewer than [MAX_RETRIES] attempts, only the time and the count of
    the operation change; and otherwise the operation is removed and the pending commit
    discarded. *)
Theorem pending_commit_settles w j c gr r w' :
  ready_commit (aw_db w) j c gr -> execute_job j w = (r, w') ->
  exists q n, aw_requests w' = aw_requests w ++ [q] /\
    settles (aw_db w) j (now (aw_clock w))
      (verdict (pc_number_of_attempts j) (ds_operation q n)) r (aw_db w').
Proof using Hok Hlaws.
  intros Hr He. pose proof (rd_commit _ _ _ _ Hr) as Hc.
  apply (job_run _ _ c gr) in He as (q & n & w1 & r1 & s1 & j2 & Hd & Hq & Hx & Ha); [|done]. exists q, n. split; [done|]. clear Hq.
  rewrite <- Hd in Hr |- *. destruct (ds_operation q n) as [t|e] eqn:Eq; [exact (accepted_run _ _ _ _ _ _ _ _ _ _ Hr Hx Ha)|].
  destruct (verdict _ (Err e)) eqn:Ev.
  - cbn in Ev. destruct (is_not_found e), (is_wrong_epoch e); try done. by destruct (_ && _).
  - exact (group_gone_run _ _ _ _ _ _ _ _ _ _ Hr Ev Hx Ha).
  - exact (epoch_passed_run _ _ _ _ _ _ _ _ Hc Ev Hx Ha).
  - exact (unreachable_run _ _ _ _ _ _ _ _ Hc (rd_attempts _ _ _ _ Hr) Ev Hx Ha).
  - destruct (refused_run _ _ _ _ _ _ _ _ _ _ Hr Ev Hx Ha) as (-> & ? & ?). split; eauto.
Qed.

End Settled.
