(* ===== verification/OutboundExample.v ===== *)
(** * The senders on concrete data

    An instance of the classes of the outbound service: a group is its id, its epoch,
    the generation of its next message and a pending commit.  The theorems about the
    senders are evaluated on it, and a run shows how receipts are lost. *)

From S2P Require Import Prelude Messages Grpc ClientBase OutboundDb OutboundWorker ClientGroup OutboundSend OutboundSendCorrect PendingOperation PendingOperationCorrect PendingCommit PendingSettled.

Module ToyOut.

Record ToyGroup := {
  tg_id : GroupId;
  tg_epoch : GroupEpoch;
  tg_generation : Z;
  tg_pending : option (list QueuedProposal);
  tg_members : list UserId
}.

#[export] Instance toy_types : OutTypes := {|
  MlsGroup := ToyGroup;
  StagedCommit := list QueuedProposal;
  MlsMessageOut := (GroupEpoch * bytes)%type;
  VerifiedRoomState := list UserId;
  MimiContent := bytes;
  SelfRemoveParamsOut := ((GroupEpoch * bytes) * option (GroupEpoch * bytes))%type;
  DeleteGroupParamsOut := Z;
  ApqCommitMessageBundle := Z;
  GroupOperationParamsOut := Z;
  ApqGroupOperationParamsOut := Z;
  StagedGroupDiff := unit;
  CollisionSecret := Z
|}.

Definition next_epoch (g : ToyGroup) : ToyGroup :=
  {| tg_id := tg_id g; tg_epoch := tg_epoch g + 1; tg_generation := 0; tg_pending := None;
     tg_members := tg_members g |}.
Definition without_commit (g : ToyGroup) : ToyGroup :=
  {| tg_id := tg_id g; tg_epoch := tg_epoch g; tg_generation := tg_generation g;
     tg_pending := None; tg_members := tg_members g |}.
Definition next_generation (g : ToyGroup) : ToyGroup :=
  {| tg_id := tg_id g; tg_epoch := tg_epoch g; tg_generation := tg_generation g + 1;
     tg_pending := tg_pending g; tg_members := tg_members g |}.

#[export] Instance toy_mls : OutMls := {|
  mls_group_id := tg_id;
  mls_epoch := tg_epoch;
  mls_own_leaf_index := fun _ => 0;
  mls_user_at := fun g i => tg_members g !! Z.to_nat i;
  mls_members := tg_members;
  mls_pending_commit := tg_pending;
  queued_proposals := fun c => c;
  mls_create_unconfirmed_message := fun g _ body =>
    Some ({| um_message := (tg_epoch g, body); um_epoch := tg_epoch g;
             um_generation := tg_generation g; um_generation_id := Some [tg_generation g] |},
          next_generation g);
  mls_confirm_application_message := fun g _ _ => Some g;
  mls_merge_pending_commit := fun g =>
    match tg_pending g with Some _ => (next_epoch g, true) | None => (g, false) end;
  mls_clear_pending_commit := without_commit;
  mls_leave_group_via_self_remove := fun g _ => Some ((tg_epoch g, []), g);
  mls_message_epoch := fun m => Some m.1;
  export_collision_secret := fun g i => Some (tg_epoch g + i);
  collision_expand := fun s info => s + from_le_bytes info;
  room_state_encode := fun _ => [];
  room_state_decode := fun _ => None;
  fallback_room := fun us => us;
  apply_change_role := fun r _ u role =>
    Some (match role with Regular => u :: r | Outsider => List.filter (fun v => negb (bool_decide (u = v))) r end);
  can_change_role := fun _ _ _ _ => true;
  mimi_serialize := fun c => Some c;
  mimi_deserialize := fun b => Some b;
  is_status_update := fun _ => false;
  replaces := fun _ => None;
  diff_identity_link_wrapper_key := fun _ => None;
  diff_group_state_ear_key := fun _ => None;
  self_remove_params := fun t q => (t, q);
  t_remove_proposal := fst;
  pq_remove_proposal := snd
|}.

#[export] Instance toy_laws : OutMlsLaws.
Proof. split; intros [? ? ? [?|] ?]; done. Qed.

Definition alice : UserId := {| user_uuid := 1; user_domain := "a" |}.
Definition bob : UserId := {| user_uuid := 2; user_domain := "b" |}.

Definition no_failure : nat -> option SqlxError := fun _ => None.
Definition toy_now (n : nat) : TimeStamp := 1000 + Z.of_nat n.
Definition toy_v4 (n : nat) : Uuid := 5000 + Z.of_nat n.
Definition running : nat -> bool := fun _ => false.
Definition online : GroupId -> bool := fun _ => true.
Definition accepting : SendMessageParamsOut -> nat -> Result DsRequestError TimeStamp :=
  fun _ n => Ok (2000 + Z.of_nat n).

Definition toy_group (gid : GroupId) : ToyGroup :=
  {| tg_id := gid; tg_epoch := 7; tg_generation := 3; tg_pending := None; tg_members := [alice; bob] |}.
Definition toy_group_row (gid : GroupId) : GroupRow :=
  {| gr_group_id := gid; gr_identity_link_wrapper_key := [1]; gr_group_state_ear_key := [2];
     gr_pending_diff := None; gr_room_state := []; gr_self_updated_at := None;
     gr_pending_commit_failed := false; gr_pq := None |}.
Definition toy_chat (cid : Uuid) (gid : GroupId) : ChatRow :=
  {| chat_id := cid; chat_group_id := gid; is_active := true; connection_user := None;
     connection_user_handle := None; chat_title := []; chat_picture := None; chat_past_member := []; last_read := 0 |}.
Definition toy_message (id cid : Uuid) : MessageRow :=
  {| message_id := id; message_chat_id := cid; mimi_id := Some [id]; content := Some [id];
     sent := false; message_timestamp := 10; edited_at := None; message_row_status := STATUS_UNREAD |}.
Definition toy_queued (id cid t : Z) : MessageQueueRow :=
  {| mq_message_id := id; mq_chat_id := cid; mq_created_at := t; mq_locked_by := None |}.
Definition toy_receipt (id cid t : Z) : ReceiptRow :=
  {| rc_message_id := id; rc_chat_id := cid; rc_mimi_id := [id]; rc_status := STATUS_READ;
     rc_created_at := t; rc_locked_by := None; rc_locked_at := None |}.
Definition toy_resync (cid : Uuid) (gid : GroupId) : ResyncRow :=
  {| rs_group_id := gid; rs_pq_group_id := None; rs_chat_id := cid; rs_original_leaf_index := 0;
     rs_locked_by := None |}.

(** Two chats; the first one waits for a resync if asked for. *)
Definition toy_db (resync : bool) (queue : list MessageQueueRow) (receipts : list ReceiptRow)
    (attachments : list bytes) : OutDb :=
  {| chat := [toy_chat 1 [1]; toy_chat 2 [2]]; blocked_contact := [];
     message := [toy_message 11 1; toy_message 22 2]; message_status := [];
     chat_message_queue := queue; reaction := []; reaction_queue := []; receipt_queue := receipts;
     resync_queue := if resync then [toy_resync 1 [1]] else []; pending_attachment := attachments;
     pending_chat_operation := []; group_table := [toy_group_row [1]; toy_group_row [2]];
     mls_storage := <[[1] := toy_group [1]]> (<[[2] := toy_group [2]]> ∅) |}.
Definition toy_world (d : OutDb) : AccessWorld OutDb OutRequest :=
  {| aw_db := d; aw_notifier := ∅; aw_sent := []; aw_requests := []; aw_clock := 0 |}.

End ToyOut.
Import ToyOut.

Section Evaluate_senders.

Abbreviation messages := (send_queued_messages no_failure toy_v4 running online accepting [9] None None).
Abbreviation receipts := (send_queued_receipts no_failure toy_now toy_v4 running online accepting [9] alice
  None None (fun _ => Some [0])).
Abbreviation after m w := ((m w).2).

Definition two_messages : AccessWorld OutDb OutRequest :=
  toy_world (toy_db false [toy_queued 22 2 6; toy_queued 11 1 5] [] []).
Definition two_receipts (resync : bool) : AccessWorld OutDb OutRequest :=
  toy_world (toy_db resync [] [toy_receipt 11 1 5; toy_receipt 22 2 6] []).

(** Both messages are sent, the older one first. *)
Lemma two_messages_sent :
  (chat_message_queue (aw_db (after (messages 3) two_messages)),
   map (fun m => (message_id m, sent m, message_timestamp m)) (message (aw_db (after (messages 3) two_messages))),
   length (aw_requests (after (messages 3) two_messages))) =
  ([], [(11, true, 2022); (22, true, 2063)], 2%nat).
Proof. vm_compute. reflexivity. Qed.

Lemma queued_messages_accounted_witness :
  In 11 (map mq_message_id (chat_message_queue (aw_db (after (messages 3) two_messages)))) \/
  settled (aw_db (after (messages 3) two_messages)) 11 \/ dropped (aw_db two_messages) 11.
Proof.
  refine (proj2 (queued_messages_accounted no_failure toy_v4 running online accepting [9] None None 3 two_messages
    (messages 3 two_messages).1 (messages 3 two_messages).2 _ (surjective_pairing _)) 11
    (or_intror (or_introl eq_refl))).
  intros id [<-|[<-|[]]]; [exists (toy_message 22 2)|exists (toy_message 11 1)]; vm_compute; tauto.
Defined.

Lemma outbound_senders_return_witness :
  returns (messages 3 two_messages) /\
  returns (send_queued_receipts no_failure (fun _ => 1000) toy_v4 running online accepting [9] alice
    None None (fun _ => Some [0]) 3 (two_receipts false)).
Proof.
  split.
  - exact (proj1 (outbound_senders_return no_failure toy_now toy_v4 running online accepting [9] alice
      None None (fun _ => Some [0]) two_messages 3) (le_n 3)).
  - refine (proj2 (proj2 (outbound_senders_return no_failure (fun _ => 1000) toy_v4 running online accepting
      [9] alice None None (fun _ => Some [0]) (two_receipts false) 3)) (le_n 3) _ _).
    + intros i j. unfold LOCKED_THRESHOLD. lia.
    + intros r [<-|[<-|[]]]; discriminate.
Defined.

(** Two read receipts, of which the second one collides. *)
Definition toy_body : MimiContent := [0].
Definition two_statuses : MessageStatusReport :=
  [{| pms_mimi_id := [11]; pms_status := STATUS_READ |}; {| pms_mimi_id := [22]; pms_status := STATUS_READ |}].
Definition made := create_message no_failure [9] toy_body (Some two_statuses)
  (into_group (toy_group_row [1]) (toy_group [1]) None) two_messages.
Definition second_tag : Z :=
  match made.1 with
  | Ok (params, _) => default 0 (tag_value <$> sp_collision_tags params !! 2%nat)
  | Err _ => 0
  end.

Lemma collided_receipts_exact_witness :
  match made with
  | (Ok (params, g), w) =>
      let e := DsTonic {| code := AlreadyExists; detail := GenerationCollisionDetail [second_tag] |} in
      let collisions := process_tag_collisions e (sp_collision_tags params) in
      partition_collided_receipts two_statuses (sp_collision_tags params) collisions =
        ([{| pms_mimi_id := [22]; pms_status := STATUS_READ |}], true) /\
      exists key,
        partition_collided_receipts two_statuses (sp_collision_tags params) collisions =
        (List.filter (fun p => existsb (Z.eqb (tag_value (collision_tag key p))) [second_tag]) two_statuses,
         existsb (fun p => negb (existsb (Z.eqb (tag_value (collision_tag key p))) [second_tag])) two_statuses)
  | _ => False
  end.
Proof.
  destruct made as [[[params g]|e] w] eqn:E; [|vm_compute in E; discriminate].
  assert (Ht : sp_collision_tags params = match made.1 with Ok (x, _) => sp_collision_tags x | Err _ => [] end)
    by by rewrite E.
  split; [rewrite Ht; vm_compute; reflexivity|].
  apply (collided_receipts_exact no_failure [9] toy_body two_statuses _ two_messages params g w [second_tag] E).
  rewrite Ht. vm_compute. discriminate.
Defined.

(** A run sends a receipt for the second chat; the receipt of the first chat, which is
    to wait for a resync, is neither sent nor queued any more. *)
Lemma receipt_of_waiting_chat_lost :
  (map rc_message_id (receipt_queue (aw_db (two_receipts true))),
   map rc_message_id (receipt_queue (aw_db (after (receipts 3) (two_receipts true)))),
   message_status (aw_db (after (receipts 3) (two_receipts true)))) =
  ([11; 22], [], [{| st_message_id := 22; st_sender := alice; st_status := STATUS_READ |}]).
Proof. vm_compute. reflexivity. Qed.

End Evaluate_senders.

Section Evaluate_operations.

(** A group with a pending commit that adds nobody, and the operation for it. *)
Definition committing : ToyGroup :=
  {| tg_id := [1]; tg_epoch := 7; tg_generation := 3; tg_pending := Some []; tg_members := [alice; bob] |}.
Definition toy_operation : PendingRow :=
  {| po_group_id := [1]; po_operation_data := Other (0 : @GroupOperationParamsOut toy_types) None;
     po_retry_due_at := Some 500; po_number_of_attempts := 1; po_locked_by := None;
     po_request_status := ReadyToRetry |}.
Definition operation_world : AccessWorld OutDb OutRequest :=
  let d := toy_db false [] [] [] in
  toy_world (set_mls_storage (<[[1] := committing]> (mls_storage d))
    (set_pending_chat_operation [toy_operation] d)).
Definition toy_job : PendingChatOperation :=
  {| pc_group := into_group (toy_group_row [1]) committing None;
     pc_operation := po_operation_data toy_operation; pc_retry_due_at := Some 500;
     pc_status := ReadyToRetry; pc_number_of_attempts := 1 |}.

Definition accepted : OutRequest -> nat -> Result DsRequestError TimeStamp := fun _ _ => Ok 2000.
Definition unreachable : OutRequest -> nat -> Result DsRequestError TimeStamp := fun _ _ =>
  Err (DsTonic {| code := Unavailable; detail := NoDetail |}).
Abbreviation job ds := (execute_job no_failure toy_now toy_v4 online ds [9] alice (Some [3])
  (fun k _ => Some k) (fun _ _ => Some None) toy_job operation_world).

Lemma toy_job_ready :
  ready_commit online (Some [3]) (fun k _ => Some k) (aw_db operation_world) toy_job (toy_chat 1 [1]) (toy_group_row [1]).
Proof. split; first [done | by exists [3], [3] | cbn; lia]. Qed.

Lemma pending_operations_return_witness :
  returns (send_pending_chat_operations no_failure toy_now toy_v4 running online unreachable [9] alice (Some [3])
    (fun k _ => Some k) (fun _ _ => Some None) 2 operation_world).
Proof.
  exact (pending_operations_return no_failure toy_now toy_v4 running online unreachable [9] alice (Some [3])
    (fun k _ => Some k) (fun _ _ => Some None) operation_world 2 (le_n 2)).
Defined.

Lemma commit_merged_only_if_accepted_witness :
  (exists q n t, unreachable q n = Ok t /\ aw_requests (job unreachable).2 = aw_requests operation_world ++ [q]) \/
  spared (aw_db operation_world) (aw_db (job unreachable).2).
Proof.
  refine (commit_merged_only_if_accepted no_failure toy_now toy_v4 online unreachable [9] alice (Some [3])
    (fun k _ => Some k) (fun _ _ => Some None) operation_world toy_job (job unreachable).1 (job unreachable).2
    eq_refl _ (surjective_pairing _)).
  split; [vm_compute; reflexivity|discriminate].
Defined.

(** An accepted commit moves the group on; a service that cannot be reached is tried again
    five seconds later. *)
Lemma pending_commit_settles_witness :
  tg_epoch <$> mls_storage (aw_db (job accepted).2) !! [1] = Some 8 /\
  pending_chat_operation (aw_db (job accepted).2) = [] /\
  map po_retry_due_at (pending_chat_operation (aw_db (job unreachable).2)) = [Some (1000 + RETRY_INTERVAL)] /\
  exists q n, aw_requests (job accepted).2 = aw_requests operation_world ++ [q] /\
    settles (fun _ _ => Some None) (aw_db operation_world) toy_job 1000 (verdict 1 (accepted q n)) (job accepted).1
    (aw_db (job accepted).2).
Proof.
  split; [vm_compute; reflexivity|]. split; [vm_compute; reflexivity|]. split; [vm_compute; reflexivity|].
  exact (pending_commit_settles no_failure (fun _ => eq_refl) toy_now toy_v4 online accepted [9] alice (Some [3])
    (fun k _ => Some k) (fun _ _ => Some None) operation_world toy_job (toy_chat 1 [1]) (toy_group_row [1])
    (job accepted).1 (job accepted).2 toy_job_ready (surjective_pairing _)).
Defined.

End Evaluate_operations.
