(* ===== verification/OperationQueue.v ===== *)
(** * The operation queue ([coreclient/src/job/operation.rs],
      [outbound_service/profile.rs], [outbound_service/timed_tasks.rs])

    Work that is retried or repeated is stored as rows of one table, a queue for each
    kind.  A worker locks a row with the id of its run, so that it sees each row once, and
    deletes or reschedules it.  The database is any with such a table; what an operation
    does is the [Job] of its data. *)

From S2P Require Import Prelude Messages ClientBase OutboundDb OutboundWorker ClientGroup PendingOperation.

(** ** Rows *)

Inductive OperationKind := FetchUserProfile | TimedTask | FetchGroupProfile.
Definition kind_eqb (a b : OperationKind) : bool :=
  match a, b with
  | FetchUserProfile, FetchUserProfile | TimedTask, TimedTask | FetchGroupProfile, FetchGroupProfile => true
  | _, _ => false
  end.

Record OperationRow := {
  op_id : bytes;
  op_kind : OperationKind;
  op_data : bytes;
  op_created_at : TimeStamp;
  op_scheduled_at : TimeStamp;
  op_retries : Z;
  op_locked_by : Uuid
}.

(** A database with the table [operation]. *)
Class HasOperations (Db : Type) := {
  operations : Db -> list OperationRow;
  set_operations : list OperationRow -> Db -> Db;
  operations_set l d : operations (set_operations l d) = l
}.

(** [OperationData] with the codec of its blobs. *)
Class OperationData (T : Type) := {
  kind : OperationKind;
  generate_id : T -> bytes;
  to_blob : T -> bytes;
  from_blob : bytes -> option T
}.
Arguments kind T {_}.

Record Operation (T : Type) := {
  operation_id : bytes;
  data : T;
  created_at : TimeStamp;
  scheduled_at : TimeStamp;
  retries : Z
}.
Arguments operation_id {T}.
Arguments data {T}.
Arguments created_at {T}.
Arguments scheduled_at {T}.
Arguments retries {T}.

(** ** Kinds of timed tasks ([timed_tasks.rs]) *)

(** [TimedTaskKind]; a token type is its number. *)
Inductive TimedTaskKind :=
| KeyPackageUpload
| ApqKeyPackageUpload
| UsernameRefresh
| SelfUpdate
| TokenReplenishment (operation_type : Z).

(** [TimedTask::generate_id]. *)
Definition le32 (z : Z) : bytes :=
  let u := z mod 2 ^ 32 in
  [u mod 256; Z.shiftr u 8 mod 256; Z.shiftr u 16 mod 256; Z.shiftr u 24 mod 256].
Definition timed_task_id (k : TimedTaskKind) : bytes :=
  bytes_of_string "timed_task" ++
  match k with
  | KeyPackageUpload => [0]
  | ApqKeyPackageUpload => [4]
  | UsernameRefresh => [1]
  | SelfUpdate => [2]
  | TokenReplenishment ty => 3 :: le32 ty
  end.

(** [TimedTaskKind::default_retry_interval]: there is none for the token type
    [Unspecified], which is 0. *)
Definition default_retry_interval (k : TimedTaskKind) : option Z :=
  match k with
  | TokenReplenishment 0 => None
  | _ => Some (5 * 60 * 1000000000)
  end.

(** The blob of a timed task. *)
Class TimedTaskCodec := {
  task_to_blob : TimedTaskKind -> bytes;
  task_from_blob : bytes -> option TimedTaskKind
}.
#[export] Instance timed_task_data `{TimedTaskCodec} : OperationData TimedTaskKind :=
  {| kind := TimedTask; generate_id := timed_task_id; to_blob := task_to_blob; from_blob := task_from_blob |}.

(** The default of the column [locked_by]. *)
Definition UNLOCKED : Uuid := 0.

Section Operations.
Context {Db Req : Type} `{!HasOperations Db}.
Abbreviation W := (AccessWorld Db Req).
Context (sqlite : nat -> option SqlxError) (now : nat -> TimeStamp) (new_v4 : nat -> Uuid).
Abbreviation fetch := (fetch sqlite).
Abbreviation execute := (execute sqlite).

Section Data.
Context {T : Type} `{!OperationData T}.
Implicit Types (op : Operation T).

(** [Operation::new]. *)
Definition operation_new (x : T) : M W SqlxError (Operation T) :=
  t ← ask now;
  mret {| operation_id := generate_id x; data := x; created_at := t; scheduled_at := t; retries := 0 |}.

Definition row_of op : OperationRow :=
  {| op_id := operation_id op; op_kind := kind T; op_data := to_blob (data op);
     op_created_at := created_at op; op_scheduled_at := scheduled_at op; op_retries := retries op;
     op_locked_by := UNLOCKED |}.
Definition has_id (id : bytes) (r : OperationRow) : bool := bytes_eqb (op_id r) id.
Definition update_operations (f : list OperationRow -> list OperationRow) : M W SqlxError unit :=
  execute (fun d => set_operations (f (operations d)) d).

(** [Operation::enqueue]: an operation with the same id is overwritten, except for its
    lock. *)
Definition enqueue op : M W SqlxError unit :=
  update_operations (fun l =>
    if existsb (has_id (operation_id op)) l
    then update_where (has_id (operation_id op)) (fun r =>
           {| op_id := op_id r; op_kind := kind T; op_data := to_blob (data op);
              op_created_at := created_at op; op_scheduled_at := scheduled_at op;
              op_retries := retries op; op_locked_by := op_locked_by r |}) l
    else l ++ [row_of op]).

(** [Operation::enqueue_if_not_exists]. *)
Definition enqueue_if_not_exists op : M W SqlxError unit :=
  update_operations (insert_or_nothing (has_id (operation_id op)) (row_of op)).

(** [Operation::dequeue].  The column [retries] is read as [u16]: a larger value is an
    error of the decoder. *)
Definition is_claimable (k : OperationKind) (task_id : Uuid) (t : TimeStamp) (r : OperationRow) : bool :=
  kind_eqb (op_kind r) k && (op_scheduled_at r <=? t) && negb (op_locked_by r =? task_id).
Definition claim_before (a b : OperationRow) : bool :=
  (op_scheduled_at a <? op_scheduled_at b) ||
  (op_scheduled_at a =? op_scheduled_at b) && (op_created_at a <=? op_created_at b).
Definition next_operation (k : OperationKind) (task_id : Uuid) (t : TimeStamp) (d : Db) : option OperationRow :=
  least claim_before (List.filter (is_claimable k task_id t) (operations d)).
Definition claim (task_id : Uuid) (r : OperationRow) : OperationRow :=
  {| op_id := op_id r; op_kind := op_kind r; op_data := op_data r; op_created_at := op_created_at r;
     op_scheduled_at := op_scheduled_at r; op_retries := op_retries r; op_locked_by := task_id |}.
Definition delete_operation (id : bytes) : M W SqlxError unit :=
  update_operations (delete_where (has_id id)).
Definition dequeue (task_id : Uuid) (t : TimeStamp) : M W SqlxError (option (Operation T)) :=
  r ← fetch (next_operation (kind T) task_id t);
  match r with
  | None => mret None
  | Some r =>
      _ ← update_operations (update_where (has_id (op_id r)) (claim task_id));
      r ← gets (fun w => find (has_id (op_id r)) (operations (aw_db w)));
      match r with
      | None => mret None
      | Some r =>
          _ ← lift (ensure ((0 <=? op_retries r) && (op_retries r <? 2 ^ 16)) SqlxDecode);
          match from_blob (op_data r) with
          | None => _ ← delete_operation (op_id r); mret None
          | Some x =>
              mret (Some {| operation_id := op_id r; data := x; created_at := op_created_at r;
                            scheduled_at := op_scheduled_at r; retries := op_retries r |})
          end
      end
  end.

(** [Operation::reschedule]. *)
Definition rescheduled (t : TimeStamp) (n : Z) (r : OperationRow) : OperationRow :=
  {| op_id := op_id r; op_kind := op_kind r; op_data := op_data r; op_created_at := op_created_at r;
     op_scheduled_at := t; op_retries := n; op_locked_by := op_locked_by r |}.
Definition reschedule (t : TimeStamp) op : M W SqlxError unit :=
  update_operations (update_where (has_id (operation_id op)) (rescheduled t (as_i64 (retries op + 1)))).

End Data.

(** ** Profiles ([profile.rs]) *)

Definition NUM_RETRIES : Z := 5.
Definition RETRY_AFTER : Z := 5 * 1000000000.

Section Profiles.
(** The jobs of an operation, [execute_job]. *)
Context {T : Type} `{!OperationData T} (execute_job : T -> M W JobError unit).

(** [OutboundServiceContext::fetch_profile]. *)
Definition fetch_profile (op : Operation T) (t : TimeStamp) : M W SqlxError Turn :=
  let delete := with_write sqlite id (delete_operation (operation_id op)) in
  r ← try_ (E := JobError) (execute_job (data op));
  match r with
  | Err JobNetworkError =>
      if retries op + 1 <? NUM_RETRIES then
        _ ← with_write sqlite id (reschedule (t + RETRY_AFTER) op); mret Return
      else _ ← delete; mret Continue
  | _ => _ ← delete; mret Continue
  end.

(** A turn of a loop of [try_fetch_profiles]. *)
Definition fetch_turn (task_id : Uuid) (t : TimeStamp) : M W SqlxError Turn :=
  op ← with_write_transaction sqlite id (dequeue task_id t);
  match op with
  | None => mret Return
  | Some op => fetch_profile op t
  end.

End Profiles.

(** [OutboundServiceContext::try_fetch_profiles]: users, then groups. *)
Section Fetch.
Context {U G : Type} `{!OperationData U} `{!OperationData G}.
Context (fetch_user : U -> M W JobError unit) (fetch_group : G -> M W JobError unit).
Definition try_fetch_profiles (fuel : nat) : M W SqlxError (option unit) :=
  task_id ← ask new_v4;
  t ← ask now;
  u ← work_loop fuel (fetch_turn fetch_user task_id t);
  match u with
  | None => mret None
  | Some _ => work_loop fuel (fetch_turn fetch_group task_id t)
  end.
End Fetch.

(** ** Timed tasks ([timed_tasks.rs]) *)

Section Timed.
Context `{!TimedTaskCodec} (cancelled : nat -> bool).
(** [handle_task]: the interval until the next run of a task, or a failure. *)
Context (handle_task : TimedTaskKind -> M W OutError Z).

(** [OperationType::all]: [AddUsername] and [GetInviteCode]. *)
Definition operation_types : list Z := [1; 2].

(** [ensure_timed_tasks_exist]. *)
Definition ensure_timed_task (k : TimedTaskKind) : M W SqlxError unit :=
  op ← operation_new k; with_write sqlite id (enqueue_if_not_exists op).
Definition ensure_timed_tasks_exist : M W SqlxError unit :=
  mapM_ ensure_timed_task ([KeyPackageUpload; ApqKeyPackageUpload; UsernameRefresh; SelfUpdate] ++
    map TokenReplenishment operation_types).

(** A turn of [execute_timed_tasks].  Adding an interval that does not exist to the time
    is a panic. *)
Definition timed_turn (task_id : Uuid) : M W (option SqlxError) Turn :=
  stop ← ask cancelled;
  if stop : bool then mret Return
  else
    t ← ask now;
    op ← map_errM Some (with_write_transaction sqlite id (dequeue task_id t));
    match op with
    | None => mret Return
    | Some op =>
        r ← try_ (E := OutError) (handle_task (data op));
        let interval := match r with Ok i => Some i | Err _ => default_retry_interval (data op) end in
        with_write sqlite Some (
          t' ← ask now;
          match interval with
          | None => throw None
          | Some i => _ ← map_errM Some (reschedule (t' + i) op); mret Continue
          end)
    end.
Definition execute_timed_tasks (fuel : nat) : M W (option SqlxError) (option unit) :=
  _ ← map_errM Some ensure_timed_tasks_exist;
  task_id ← ask new_v4;
  work_loop fuel (timed_turn task_id).

End Timed.
End Operations.
