(* ===== verification/OperationQueueCorrect.v ===== *)
(** * Correctness of the operation queue

    An operation is one row; the next one is the one that is due first; a profile is
    tried a bounded number of times; the loops end; and a counter that is read back in
    fewer bits than it is stored in stops the timed tasks. *)

From S2P Require Import Prelude Messages ClientBase OutboundDb OutboundWorker ClientGroup PendingOperation OperationQueue.

Section Queue.
Context {Db Req : Type} `{!HasOperations Db}.
Abbreviation W := (AccessWorld Db Req).
Context (sqlite : nat -> option SqlxError) (now : nat -> TimeStamp) (new_v4 : nat -> Uuid).
Implicit Types (d : Db) (w : W) (l : list OperationRow).

(** ** One row for each operation *)

Definition unique_ids d : Prop := NoDup (map op_id (operations d)).
Definition keeps_unique : relation (Db * list Req) := fun a b => unique_ids a.1 -> unique_ids b.1.
#[export] Instance keeps_unique_rel : ViewRel keeps_unique.
Proof. split; [split|]; unfold keeps_unique; [by intros a|intros a b c; auto|by intros]. Qed.

Lemma unique_update p f l :
  (forall r, op_id (f r) = op_id r) -> map op_id (update_where p f l) = map op_id l.
Proof. intros Hf. apply map_update_where. intros r. apply Hf. Qed.

Lemma unique_delete p l : NoDup (map op_id l) -> NoDup (map op_id (delete_where p l)).
Proof.
  unfold delete_where. induction l as [|r l IH]; cbn; [done|]. intros [Hn Hd]%NoDup_cons.
  destruct (p r); cbn; [by apply IH|]. apply NoDup_cons. split; [|by apply IH].
  rewrite list_elem_of_In in *. intros (r' & Hid & Hin)%in_map_iff. apply Hn. apply in_map_iff.
  exists r'. split; [done|]. by apply in_delete_where in Hin as [? _].
Qed.

Lemma unique_insert r l :
  existsb (has_id (op_id r)) l = false -> NoDup (map op_id l) -> NoDup (map op_id (l ++ [r])).
Proof.
  intros He Hd. rewrite map_app. apply NoDup_app. split; [done|]. split; [|apply NoDup_singleton].
  intros x Hx Hr. apply list_elem_of_singleton in Hr as ->. rewrite list_elem_of_In in Hx.
  apply in_map_iff in Hx as (r' & Hid & Hin).
  assert (Ht : existsb (has_id (op_id r)) l = true); [|congruence].
  apply existsb_exists. exists r'. split; [done|]. by apply bool_decide_eq_true.
Qed.

Section Data.
Context {T : Type} `{!OperationData T}.
Implicit Types (op : Operation T).

Lemma frame_update_operations (f : list OperationRow -> list OperationRow) :
  (forall l, NoDup (map op_id l) -> NoDup (map op_id (f l))) -> framed keeps_unique (update_operations sqlite f).
Proof.
  intros Hf. apply framed_execute; [exact _|]. intros d rs Hd. unfold unique_ids. cbn. rewrite operations_set.
  by apply Hf.
Qed.

(** An operation is one row: what is done to the queue keeps the ids unique. *)
Lemma enqueue_keeps_unique op : framed keeps_unique (enqueue sqlite op).
Proof.
  apply frame_update_operations. intros l Hl. destruct (existsb _ l) eqn:E; [by rewrite unique_update|].
  by apply unique_insert.
Qed.
Lemma enqueue_if_not_exists_keeps_unique op : framed keeps_unique (enqueue_if_not_exists sqlite op).
Proof.
  apply frame_update_operations. intros l Hl. unfold insert_or_nothing. destruct (existsb _ l) eqn:E; [done|].
  by apply unique_insert.
Qed.
Lemma delete_keeps_unique id : framed keeps_unique (delete_operation sqlite id).
Proof. apply frame_update_operations. intros l. apply unique_delete. Qed.
Lemma reschedule_keeps_unique t op : framed keeps_unique (reschedule sqlite t op).
Proof. apply frame_update_operations. intros l Hl. by rewrite unique_update. Qed.
Lemma dequeue_keeps_unique task t : framed keeps_unique (dequeue (T := T) sqlite task t).
Proof.
  pose proof delete_keeps_unique.
  assert (forall id, framed keeps_unique (update_operations sqlite (update_where (has_id id) (claim task)))).
  { intros id. apply frame_update_operations. intros l Hl. by rewrite unique_update. }
  unfold dequeue. frame_with ltac:(done).
Qed.

(** ** The next operation *)

Lemma claim_before_total a b : claim_before a b = false -> claim_before b a = true.
Proof. unfold claim_before. intros. destruct (Z.ltb_spec (op_scheduled_at b) (op_scheduled_at a)); [done|]. lia. Qed.
Lemma claim_before_trans a b c : claim_before a b = true -> claim_before b c = true -> claim_before a c = true.
Proof. unfold claim_before. lia. Qed.

Lemma next_operation_first k task t d r r' :
  next_operation k task t d = Some r -> In r' (operations d) -> is_claimable k task t r' = true ->
  claim_before r r' = true.
Proof.
  intros Hn Hin Hc. apply (least_le claim_before claim_before_total claim_before_trans _ _ _ Hn).
  by apply filter_In.
Qed.

Lemma find_unique l r : NoDup (map op_id l) -> In r l -> find (has_id (op_id r)) l = Some r.
Proof.
  induction l as [|a l IH]; [done|]. cbn. intros [Hn Hd]%NoDup_cons Hin. unfold has_id at 1.
  destruct Hin as [->|Hin]; [by rewrite bool_decide_eq_true_2|].
  rewrite bool_decide_eq_false_2; [by apply IH|]. intros E. apply Hn. rewrite E, list_elem_of_In. by apply in_map.
Qed.

Lemma dequeue_inv task t w op w' :
  unique_ids (aw_db w) -> dequeue sqlite task t w = (Ok (Some op), w') ->
  exists r, next_operation (kind T) task t (aw_db w) = Some r /\
    operations (aw_db w') = update_where (has_id (op_id r)) (claim task) (operations (aw_db w)) /\
    operation_id op = op_id r /\ from_blob (op_data r) = Some (data op) /\ retries op = op_retries r /\
    0 <= retries op < 2 ^ 16.
Proof.
  intros Hu Hd. unfold dequeue in Hd. bindM Hd as ro w1 H1. apply fetch_inv in H1 as [-> [[= ->]|(e & [=])]].
  destruct (next_operation _ _ _ _) as [r|] eqn:En; [|discriminate Hd]. exists r. split; [done|].
  assert (Hin : In r (operations (aw_db w))) by (by apply least_in, filter_In in En as [? _]).
  bindM Hd as u w2 H2. apply execute_inv in H2 as [[_ ->]|(e & [=] & _)]. bindM Hd as ro w3 H3. leafM H3.
  cbn [aw_db set_db advance] in Hd. rewrite operations_set, find_update_where in Hd by done.
  rewrite (find_unique _ _ Hu Hin) in Hd. cbn [fmap option_fmap option_map] in Hd.
  unfold has_id in Hd. rewrite bool_decide_eq_true_2 in Hd by done.
  bindM Hd as u' w4 H4. leafM H4. apply ensure_Ok in H4. cbn in H4.
  cbn [claim op_data op_id] in Hd. destruct (from_blob (op_data r)) as [x|] eqn:Eb; [|by bindM Hd as z w5 H5].
  injection Hd as <- <-. cbn. rewrite operations_set. split_and!; try done; lia.
Qed.

(** ** Claiming *)

(** Operations of a kind that a run has not seen. *)
Definition unseen (k : OperationKind) (task : Uuid) (r : OperationRow) : bool :=
  kind_eqb (op_kind r) k && negb (op_locked_by r =? task).
Definition unseen_count (k : OperationKind) (task : Uuid) d : nat :=
  length (List.filter (unseen k task) (operations d)).
Definition no_more (k : OperationKind) (task : Uuid) : relation (Db * list Req) := fun a b =>
  (unseen_count k task b.1 <= unseen_count k task a.1)%nat.
#[export] Instance no_more_rel k task : ViewRel (no_more k task).
Proof. split; [split|]; unfold no_more; [by intros a|intros a b c; lia|done]. Qed.

Lemma no_more_update k task f :
  (forall l, (length (List.filter (unseen k task) (f l)) <= length (List.filter (unseen k task) l))%nat) ->
  framed (no_more k task) (update_operations sqlite f).
Proof.
  intros Hf. apply framed_execute; [exact _|]. intros d rs. unfold no_more, unseen_count. cbn.
  rewrite operations_set. apply Hf.
Qed.
Lemma unseen_delete k task p l :
  (length (List.filter (unseen k task) (delete_where p l)) <= length (List.filter (unseen k task) l))%nat.
Proof.
  unfold delete_where. induction l as [|r l IH]; cbn; [lia|]. destruct (p r); cbn; destruct (unseen k task r); cbn; lia.
Qed.
Lemma unseen_keep k task p f l :
  (forall r, unseen k task (f r) = unseen k task r) ->
  (length (List.filter (unseen k task) (update_where p f l)) <= length (List.filter (unseen k task) l))%nat.
Proof.
  intros Hf. unfold update_where. induction l as [|r l IH]; cbn; [lia|].
  destruct (p r); [rewrite Hf|]; destruct (unseen k task r); cbn; lia.
Qed.
Lemma unseen_claim k task p l r :
  In r l -> unseen k task r = true -> p r = true ->
  (length (List.filter (unseen k task) (update_where p (claim task) l)) < length (List.filter (unseen k task) l))%nat.
Proof.
  assert (Hc : forall a, unseen k task (claim task a) = false).
  { intros a. unfold unseen. cbn. rewrite Z.eqb_refl. apply andb_false_r. }
  assert (Hle : forall l, (length (List.filter (unseen k task) (update_where p (claim task) l)) <=
    length (List.filter (unseen k task) l))%nat).
  { intros l'. unfold update_where. induction l' as [|a l' IH]; cbn; [lia|].
    destruct (p a); [rewrite Hc|]; destruct (unseen k task a); cbn; lia. }
  intros Hin Hu Hp. unfold update_where in *. induction l as [|a l IH]; [done|]. cbn.
  specialize (Hle l). destruct Hin as [->|Hin].
  - rewrite Hp, Hc, Hu. cbn. lia.
  - specialize (IH Hin). destruct (p a); [rewrite Hc|]; destruct (unseen k task a); cbn; lia.
Qed.

Lemma reschedule_no_more k task t op : framed (no_more k task) (reschedule sqlite t op).
Proof. apply no_more_update. intros l. by apply unseen_keep. Qed.
Lemma delete_no_more k task id : framed (no_more k task) (delete_operation sqlite id).
Proof. apply no_more_update. intros l. apply unseen_delete. Qed.

Lemma dequeue_claims task t w op w' :
  unique_ids (aw_db w) ->
  with_write_transaction sqlite id (dequeue (T := T) sqlite task t) w = (Ok (Some op), w') ->
  (unseen_count (kind T) task (aw_db w') < unseen_count (kind T) task (aw_db w))%nat.
Proof.
  intros Hu [(e & [=] & _)|(w1 & x & w2 & Hd & _ & Hm & _ & [(a & -> & [= <-] & Hdb)|(e & [=] & _)])]%with_write_transaction_inv.
  rewrite <- Hd in Hu |- *. apply dequeue_inv in Hm as (r & Hn & Ho & _); [|done].
  apply least_in, filter_In in Hn as [Hin Hc]. unfold is_claimable in Hc.
  apply andb_prop in Hc as [[Hk _]%andb_prop Hl]. unfold unseen_count. rewrite Hdb, Ho.
  apply (unseen_claim _ _ _ _ r); [done|unfold unseen; by rewrite Hk, Hl|]. by apply bool_decide_eq_true.
Qed.

End Data.

(** ** The workers return *)

(** A job that adds no operation of its own kind. *)
Class QuietJob (k : OperationKind) {E A} (m : M W E A) : Prop := {
  quiet_unique : framed keeps_unique m;
  quiet_no_more task : framed (no_more k task) m
}.

Section Profiles.
Context {T : Type} `{!OperationData T} (job : T -> M W JobError unit).
Context (Hjob : forall x, QuietJob (kind T) (job x)).

Instance fetch_worker task t :
  Worker (fetch_turn sqlite job task t) (fun w => unique_ids (aw_db w))
    (fun w => unseen_count (kind T) task (aw_db w)).
Proof using Hjob.
  split.
  - intros w r w' Hu Ht. refine ((_ : framed keeps_unique _) _ _ _ Ht Hu).
    pose proof (dequeue_keeps_unique (T := T)). pose proof (reschedule_keeps_unique (T := T)).
    pose proof delete_keeps_unique. assert (forall x, framed keeps_unique (job x)) by apply Hjob.
    unfold fetch_turn, fetch_profile, with_write_transaction. frame_with ltac:(done).
  - intros w w' Hu Ht. unfold fetch_turn in Ht. bindM Ht as op w1 H1. destruct op as [op|]; [|done].
    apply dequeue_claims in H1; [|done]. eapply Nat.le_lt_trans; [|exact H1].
    refine ((_ : framed (no_more (kind T) task) _) _ _ _ Ht).
    pose proof (reschedule_no_more (T := T) (kind T) task). pose proof (delete_no_more (kind T) task).
    assert (forall x, framed (no_more (kind T) task) (job x)) by (intros; apply Hjob).
    unfold fetch_profile. frame_with ltac:(done).
Qed.

(** ** Attempts *)

(** How often the operation [id] may still fail to reach the server. *)
Definition attempts_left (id : bytes) d : Z :=
  match find (has_id id) (operations d) with Some r => NUM_RETRIES - op_retries r | None => 0 end.

Lemma with_write_Ok {E A} (g : SqlxError -> E) (m : M W E A) w a w' :
  with_write sqlite g m w = (Ok a, w') ->
  exists w1 w2, aw_db w1 = aw_db w /\ m w1 = (Ok a, w2) /\ aw_db w' = aw_db w2.
Proof.
  unfold with_write. destruct (statement sqlite w) as [[[]|e] w1] eqn:E1; apply statement_inv in E1 as ->; [|done].
  destruct (m _) as [q w2] eqn:Em. intros [= -> <-]. eexists _, w2. by split; [|split; [exact Em|]].
Qed.

Lemma find_deleted id l : find (has_id id) (delete_where (has_id id) l) = None.
Proof.
  destruct (find _ _) as [r|] eqn:E; [|done]. apply find_some in E as [[_ Hn]%in_delete_where Ht]. congruence.
Qed.

(** A profile is tried a bounded number of times.  An operation that was run is deleted,
    or has one attempt less than before, out of [NUM_RETRIES]. *)
Theorem fetch_profile_uses_attempt op t w x w' r :
  framed (same operations) (job (data op)) ->
  find (has_id (operation_id op)) (operations (aw_db w)) = Some r -> op_retries r = retries op ->
  0 <= retries op < NUM_RETRIES ->
  fetch_profile sqlite job op t w = (Ok x, w') ->
  0 <= attempts_left (operation_id op) (aw_db w') < attempts_left (operation_id op) (aw_db w).
Proof.
  intros Hsame Hf Hr Hn Hp. unfold fetch_profile in Hp. bindM Hp as q w1 H1. apply try_inv in H1 as (q1 & H1 & _).
  apply Hsame in H1. unfold same in H1. cbn in H1. unfold attempts_left. rewrite Hf, Hr.
  assert (Hdel : forall w2, with_write sqlite id (delete_operation sqlite (operation_id op)) w1 = (Ok tt, w2) ->
    find (has_id (operation_id op)) (operations (aw_db w2)) = None).
  { intros w2 (w3 & w4 & _ & He & ->)%with_write_Ok. apply execute_inv in He as [[_ ->]|(e & [=] & _)]. cbn.
    rewrite operations_set. apply find_deleted. }
  assert (Hcase : find (has_id (operation_id op)) (operations (aw_db w')) = None \/
    retries op + 1 < NUM_RETRIES /\ exists r', find (has_id (operation_id op)) (operations (aw_db w')) = Some r' /\
      op_retries r' = retries op + 1).
  { destruct q as [[]|[| | | |]]; try (bindM Hp as [] w2 H2; injection Hp as _ <-; left; by apply Hdel).
    destruct (Z.ltb_spec (retries op + 1) NUM_RETRIES); bindM Hp as [] w2 H2; injection Hp as _ <-; [right|left; by apply Hdel].
    split; [done|]. apply with_write_Ok in H2 as (w3 & w4 & Hd & He & ->).
    apply execute_inv in He as [[_ ->]|(e & [=] & _)]. cbn [aw_db set_db advance]. rewrite operations_set, Hd.
    rewrite find_update_where, H1, Hf by done. eexists. split; [done|]. apply find_some in Hf as [_ Hid].
    rewrite Hid. cbn. unfold NUM_RETRIES in *. rewrite as_i64_small; lia. }
  destruct Hcase as [->|(Hlt & r' & -> & ->)]; lia.
Qed.

End Profiles.

Section Timed.
Context `{!TimedTaskCodec} (cancelled : nat -> bool) (handle_task : TimedTaskKind -> M W OutError Z).
Abbreviation timed := (kind TimedTaskKind).

Section Returns.
Context (Htask : forall x, QuietJob timed (handle_task x)).

Instance timed_worker task :
  Worker (timed_turn sqlite now cancelled handle_task task) (fun w => unique_ids (aw_db w))
    (fun w => unseen_count timed task (aw_db w)).
Proof using Htask.
  split.
  - intros w r w' Hu Ht. refine ((_ : framed keeps_unique _) _ _ _ Ht Hu).
    pose proof (dequeue_keeps_unique (T := TimedTaskKind)). pose proof (reschedule_keeps_unique (T := TimedTaskKind)).
    assert (forall x, framed keeps_unique (handle_task x)) by apply Htask.
    unfold timed_turn, with_write_transaction. frame_with ltac:(done).
  - intros w w' Hu Ht. unfold timed_turn in Ht. bindM Ht as c w1 H1. injection H1 as <- <-.
    destruct (cancelled _); [done|]. bindM Ht as t w2 H2. injection H2 as <- <-. bindM Ht as op w3 H3.
    apply map_errM_inv in H3 as (q & H3 & Hq). destruct q as [q|]; [injection Hq as <-|done].
    destruct op as [op|]; [|done]. apply dequeue_claims in H3; [|done]. eapply Nat.le_lt_trans; [|exact H3].
    refine ((_ : framed (no_more timed task) _) _ _ _ Ht).
    pose proof (reschedule_no_more (T := TimedTaskKind) timed task).
    assert (forall x, framed (no_more timed task) (handle_task x)) by (intros; apply Htask).
    frame_with ltac:(done).
Qed.

(** Each kind of task adds at most one row. *)
Lemma ensure_task_grows k w r w' :
  ensure_timed_task sqlite now k w = (r, w') ->
  (length (operations (aw_db w')) <= length (operations (aw_db w)) + 1)%nat.
Proof.
  intros H1. unfold ensure_timed_task in H1. stepM H1 as op w2 H2. injection H2 as <- <-.
  unfold with_write in H1. destruct (statement sqlite _) as [[[]|e] w3] eqn:E1; apply statement_inv in E1 as ->.
  - destruct (enqueue_if_not_exists _ _ _) as [q w4] eqn:E2. injection H1 as <- <-.
    apply execute_inv in E2 as [[_ ->]|(e & _ & ->)]; cbn; [|lia]. rewrite operations_set.
    unfold insert_or_nothing. destruct (existsb _ _); [lia|]. rewrite length_app. cbn. lia.
  - injection H1 as <- <-. cbn. lia.
Qed.
Lemma ensure_tasks_grow ks w r w' :
  mapM_ (ensure_timed_task sqlite now) ks w = (r, w') ->
  (length (operations (aw_db w')) <= length (operations (aw_db w)) + length ks)%nat.
Proof.
  revert w. induction ks as [|k ks IH]; intros w; cbn [mapM_].
  { intros [= <- <-]. cbn. lia. }
  intros Hm. stepM Hm as u w1 H1. apply ensure_task_grows in H1. cbn [length].
  destruct u; [apply IH in Hm; lia|]. destruct Hm as [_ ->]. lia.
Qed.
Lemma ensure_tasks_unique : framed keeps_unique (ensure_timed_tasks_exist sqlite now).
Proof.
  pose proof (enqueue_if_not_exists_keeps_unique (T := TimedTaskKind)).
  unfold ensure_timed_tasks_exist, ensure_timed_task, operation_new. frame_with ltac:(done).
Qed.

Lemma unseen_length k task d : (unseen_count k task d <= length (operations d))%nat.
Proof. apply filter_length_le. Qed.

Lemma timed_tasks_return w fuel :
  unique_ids (aw_db w) -> (length (operations (aw_db w)) + 6 < fuel)%nat ->
  returns (execute_timed_tasks sqlite now new_v4 cancelled handle_task fuel w).
Proof using Htask.
  intros Hu Hf. destruct (execute_timed_tasks _ _ _ _ _ _ _) as [r w'] eqn:He. unfold execute_timed_tasks in He.
  stepM He as u w1 H1. apply map_errM_inv in H1 as (q & H1 & ->).
  pose proof (ensure_tasks_unique _ _ _ H1 Hu) as Hu1. apply ensure_tasks_grow in H1. cbn in H1.
  destruct q as [[]|e]; [|by destruct He as [-> _]]. stepM He as task w2 H2. injection H2 as <- <-.
  rewrite <- He.
  apply (@worker_loop _ _ _ _ _ (timed_worker _)); [done|]. eapply Nat.le_lt_trans; [apply unseen_length|]. cbn. lia.
Qed.
End Returns.

(** Tasks of different kinds are different operations. *)
Lemma le32_value x : 0 <= x < 2 ^ 31 -> x = from_le_bytes (le32 x).
Proof.
  intros Hx. unfold le32. rewrite !Z.shiftr_div_pow2 by lia. rewrite (Z.mod_small x) by lia. cbn.
  Z.to_euclidean_division_equations. lia.
Qed.
Lemma timed_task_id_inj a b :
  (forall ty, a = TokenReplenishment ty -> 0 <= ty < 2 ^ 31) ->
  (forall ty, b = TokenReplenishment ty -> 0 <= ty < 2 ^ 31) ->
  timed_task_id a = timed_task_id b -> a = b.
Proof.
  intros Ha Hb E%app_inv_head. destruct a as [| | | |x], b as [| | | |y]; try done.
  f_equal. rewrite (le32_value x), (le32_value y) by auto. apply (f_equal (drop 1)) in E. change (le32 x = le32 y) in E.
  by rewrite E.
Qed.

(** ** A counter that does not fit *)

(** The task [r] precedes all other timed tasks. *)
Definition first_task (r : OperationRow) d : Prop :=
  In r (operations d) /\ op_kind r = timed /\
  forall r', In r' (operations d) -> op_kind r' = timed -> claim_before r' r = true -> r' = r.

Lemma kind_eqb_eq a b : kind_eqb a b = true <-> a = b.
Proof. by destruct a, b. Qed.

Lemma first_task_next r task t d :
  first_task r d -> op_scheduled_at r <= t -> op_locked_by r ≠ task -> next_operation timed task t d = Some r.
Proof.
  intros (Hin & Hk & Hfirst) Ht Hl. assert (Hr : is_claimable timed task t r = true).
  { unfold is_claimable. rewrite (proj2 (kind_eqb_eq _ _) Hk). cbn. lia. }
  unfold next_operation. destruct (least _ _) as [r'|] eqn:El.
  - f_equal. apply Hfirst.
    + by apply least_in, filter_In in El as [? _].
    + apply least_in, filter_In in El as [_ [[Hk' _]%andb_prop _]%andb_prop]. by apply kind_eqb_eq.
    + by apply (next_operation_first timed task t d r').
  - apply least_None in El. assert (Hf : In r []); [|done]. rewrite <- El. by apply filter_In.
Qed.

(** Making sure that the tasks exist adds rows that were created now, and leaves the rows
    that there are as they are. *)
Definition new_row (r : OperationRow) : Prop :=
  op_retries r = 0 /\ exists n, op_scheduled_at r = now n /\ op_created_at r = now n.
Definition grown d d' : Prop := exists l, operations d' = operations d ++ l /\ Forall new_row l.
Definition growing : relation (Db * list Req) := fun a b => grown a.1 b.1.
#[local] Instance grown_rel : ViewRel growing.
Proof.
  assert (Hrefl : forall d, grown d d) by (intros d; exists []; by rewrite app_nil_r).
  split; [split|]; [intros a; apply Hrefl|intros a b c (l & E & Hl) (l' & E' & Hl')|intros; apply Hrefl].
  - exists (l ++ l'). rewrite app_assoc, E', E. split; [done|by apply Forall_app].
Qed.

Lemma enqueue_grown (op : Operation TimedTaskKind) :
  new_row (row_of op) -> framed growing (enqueue_if_not_exists sqlite op).
Proof.
  intros Hn. apply framed_execute; [exact _|]. intros d rs. unfold growing, grown. cbn. rewrite operations_set.
  unfold insert_or_nothing. destruct (existsb _ _); [exists []; by rewrite app_nil_r|].
  exists [row_of op]. split; [done|by constructor].
Qed.
Lemma ensure_task_grown k : framed growing (ensure_timed_task sqlite now k).
Proof.
  unfold ensure_timed_task. apply (framed_bind_post _ (fun op => new_row (row_of op))).
  - unfold operation_new. frame_with ltac:(done).
  - intros w op w' Hw. unfold operation_new in Hw. bindM Hw as t w1 H1. injection H1 as <- <-. injection Hw as <- _.
    split; [done|]. by exists (aw_clock w).
  - intros op Hop. apply framed_with_write; [exact _|by apply enqueue_grown].
Qed.
Lemma ensure_tasks_grown : framed growing (ensure_timed_tasks_exist sqlite now).
Proof. apply framed_mapM; [exact _|apply ensure_task_grown]. Qed.

(** A task that was due before now stays the first one. *)
Lemma first_task_grown r d d' :
  first_task r d -> (forall n, op_scheduled_at r < now n) -> grown d d' -> first_task r d'.
Proof.
  intros (Hin & Hk & Hf) Ht (l & Hl & Hnew). unfold first_task. rewrite Hl. split; [apply in_app_iff; by left|].
  split; [done|]. intros r' [Hr'|Hr']%in_app_iff Hk' Hb; [by apply Hf|].
  rewrite Forall_forall in Hnew. apply list_elem_of_In in Hr'. destruct (Hnew r' Hr') as (_ & n & Hs & _).
  specialize (Ht n). unfold claim_before in Hb. lia.
Qed.

(** A turn that finds the task fails to read its counter. *)
Lemma large_counter_turn task w r :
  (forall n, sqlite n = None) -> cancelled (aw_clock w) = false -> unique_ids (aw_db w) ->
  first_task r (aw_db w) -> 2 ^ 16 <= op_retries r ->
  op_scheduled_at r <= now (S (aw_clock w)) -> op_locked_by r ≠ task ->
  exists w', timed_turn sqlite now cancelled handle_task task w = (Err (Some SqlxDecode), w') /\
    aw_db w' = aw_db w /\ aw_requests w' = aw_requests w.
Proof.
  intros Hok Hc Hu Hfirst Hr Ht Hl.
  assert (Hd : forall w1, aw_db w1 = aw_db w ->
    exists w2, dequeue (T := TimedTaskKind) sqlite task (now (S (aw_clock w))) w1 = (Err SqlxDecode, w2)).
  { intros w1 E1. unfold dequeue, update_operations, mbind, M_bind. rewrite fetch_ok, E1 by done.
    rewrite (first_task_next _ _ _ _ Hfirst Ht Hl), execute_ok by done. cbn [gets aw_db set_db advance].
    rewrite operations_set, find_update_where, E1 by done. rewrite (find_unique _ _ Hu (proj1 Hfirst)). cbn.
    unfold has_id. rewrite bool_decide_eq_true_2 by done. cbn. unfold lift, ensure.
    replace (op_retries r <? 2 ^ 16) with false by lia. rewrite andb_false_r. by eexists. }
  destruct (timed_turn sqlite now cancelled handle_task task w) as [q w'] eqn:Et. unfold timed_turn in Et.
  stepM Et as c w1 H1. injection H1 as <- <-. rewrite Hc in Et. stepM Et as t w2 H2. injection H2 as <- <-.
  stepM Et as op w3 H3. apply map_errM_inv in H3 as (x & H3 & ->).
  assert (Ha : asked (view w) (view w3)).
  { refine ((_ : framed asked _) _ _ _ H3). unfold with_write_transaction, dequeue, delete_operation, update_operations.
    frame_with ltac:(done). }
  apply with_write_transaction_ok in H3 as (w4 & w5 & Hd4 & H4 & Hd3); [|done].
  destruct (Hd w4 Hd4) as (w6 & E6). cbn [aw_clock advance] in H4. rewrite E6 in H4. injection H4 as <- <-.
  destruct Et as [-> ->]. exists w3. by rewrite Hd3.
Qed.

(** C38. A counter that is stored in 64 bits and read in 16 stops the timed tasks.  Every
    run of a task adds one to its counter.  Once a counter has reached [2 ^ 16] and its task
    is the first one due, a run of the timed tasks (that is not cancelled and whose database
    does not fail) ends with an error before any task was executed: nothing is requested,
    the rows stay as they are, at most missing tasks are added to them, and nothing else in
    the database changes.  The same task is then the first one again, so that no timed task
    is run any more. *)
Theorem large_counter_stops_timed_tasks fuel w r :
  (forall n, sqlite n = None) -> (forall n, cancelled n = false) -> unique_ids (aw_db w) ->
  first_task r (aw_db w) -> 2 ^ 16 <= op_retries r -> (forall n, op_scheduled_at r < now n) ->
  (forall n, op_locked_by r ≠ new_v4 n) ->
  exists w', execute_timed_tasks sqlite now new_v4 cancelled handle_task (S fuel) w = (Err (Some SqlxDecode), w') /\
    aw_requests w' = aw_requests w /\ grown (aw_db w) (aw_db w') /\
    (forall B (f : Db -> B), (forall l d, f (set_operations l d) = f d) -> f (aw_db w') = f (aw_db w)) /\
    first_task r (aw_db w') /\ unique_ids (aw_db w').
Proof.
  intros Hok Hc Hu Hfirst Hr Ht Hl. unfold execute_timed_tasks, mbind at 1, M_bind at 1.
  destruct (map_errM Some (ensure_timed_tasks_exist sqlite now) w) as [u w1] eqn:E1.
  apply map_errM_inv in E1 as (q & E1 & ->).
  assert (Htot : total (S := W) (ensure_timed_tasks_exist sqlite now)).
  { unfold ensure_timed_tasks_exist, ensure_timed_task, operation_new, enqueue_if_not_exists, update_operations.
    total_with ltac:(done). }
  destruct (Htot w) as ([] & w0 & E0). rewrite E0 in E1. injection E1 as <- <-.
  pose proof (ensure_tasks_grown _ _ _ E0) as Hg. cbn in Hg.
  pose proof (ensure_tasks_unique _ _ _ E0 Hu) as Hu1. cbn in Hu1.
  pose proof (first_task_grown _ _ _ Hfirst Ht Hg) as Hf1.
  destruct (large_counter_turn (new_v4 (aw_clock w0)) (advance w0) r) as (w2 & E2 & Hd2 & Hq2); try done; [specialize (Ht (S (aw_clock (advance w0)))); lia|].
  exists w2. cbn [map_err]. unfold mbind, M_bind. cbn [ask]. cbn [work_loop]. unfold mbind, M_bind.
  rewrite E2, Hd2, Hq2. split_and!; try done.
  - refine ((_ : framed asked _) _ _ _ E0). unfold ensure_timed_tasks_exist, ensure_timed_task, operation_new, enqueue_if_not_exists, update_operations.
    frame_with ltac:(done).
  - intros B f Hf. refine ((_ : framed (same f) _) _ _ _ E0).
    unfold ensure_timed_tasks_exist, ensure_timed_task, operation_new, enqueue_if_not_exists, update_operations.
    frame_with ltac:(apply Hf).
Qed.

End Timed.

Section All.
Context {U G : Type} `{!OperationData U} `{!OperationData G} `{!TimedTaskCodec}.
Context (fetch_user : U -> M W JobError unit) (fetch_group : G -> M W JobError unit).
Context (cancelled : nat -> bool) (handle_task : TimedTaskKind -> M W OutError Z).

Lemma fetch_turn_no_more task t :
  (forall x, QuietJob (kind G) (fetch_user x)) ->
  framed (no_more (kind G) task) (fetch_turn sqlite fetch_user task t).
Proof.
  intros Hq. pose proof (reschedule_no_more (T := U) (kind G) task). pose proof (delete_no_more (kind G) task).
  assert (forall x, framed (no_more (kind G) task) (fetch_user x)) by (intros; apply Hq).
  assert (Hc : forall k task l id, (length (List.filter (unseen k task) (update_where (has_id id) (claim task) l)) <=
    length (List.filter (unseen k task) l))%nat).
  { intros k task' l id. unfold update_where. induction l as [|a l IH]; cbn; [lia|].
    assert (Hu : unseen k task' (claim task' a) = false) by (unfold unseen; cbn; rewrite Z.eqb_refl; apply andb_false_r).
    destruct (has_id id a); [rewrite Hu|]; destruct (unseen k task' a); cbn; lia. }
  assert (framed (no_more (kind G) task) (dequeue (T := U) sqlite task t)).
  { assert (forall id, framed (no_more (kind G) task) (update_operations sqlite (update_where (has_id id) (claim task))))
      by (intros; by apply no_more_update).
    unfold dequeue. frame_with ltac:(done). }
  unfold fetch_turn, fetch_profile, with_write_transaction. frame_with ltac:(done).
Qed.

(** C32. The workers of the operation queue return.  If the jobs of operations add no
    operations that are waited for, then for every behaviour of the database one turn for
    each stored operation, one for each timed task, and one more, are enough to fetch the
    profiles and to execute the timed tasks. *)
Theorem operation_workers_return w fuel :
  (forall x, QuietJob (kind U) (fetch_user x)) -> (forall x, QuietJob (kind G) (fetch_user x)) ->
  (forall x, QuietJob (kind G) (fetch_group x)) -> (forall x, QuietJob (kind TimedTaskKind) (handle_task x)) ->
  unique_ids (aw_db w) -> (length (operations (aw_db w)) + 6 < fuel)%nat ->
  returns (try_fetch_profiles sqlite now new_v4 fetch_user fetch_group fuel w) /\
  returns (execute_timed_tasks sqlite now new_v4 cancelled handle_task fuel w).
Proof.
  intros Hu Hug Hg Ht Hd Hf. split; [|by apply timed_tasks_return].
  destruct (try_fetch_profiles _ _ _ _ _ _ _) as [r w'] eqn:He. unfold try_fetch_profiles in He.
  stepM He as task w1 H1. injection H1 as <- <-. stepM He as t w2 H2. injection H2 as <- <-.
  set (task := new_v4 (aw_clock w)) in *. set (t := now _) in *. set (w2 := advance (advance w)) in *.
  stepM He as u w3 H3. pose proof (worker_loop (fetch_turn sqlite fetch_user task t) _ _ fuel w2
    (Worker0 := fetch_worker fetch_user Hu task t) Hd) as Hr.
  assert (Hlt : forall k, (unseen_count k task (aw_db w2) < fuel)%nat).
  { intros k. eapply Nat.le_lt_trans; [apply unseen_length|]. cbn. lia. }
  specialize (Hr (Hlt _)). rewrite H3 in Hr. unfold returns in Hr. cbn in Hr.
  destruct u as [[u|]|e]; [|done|by destruct He as [-> _]]. rewrite <- He.
  assert (Hinv : unique_ids (aw_db w3) /\ (unseen_count (kind G) task (aw_db w3) <= unseen_count (kind G) task (aw_db w2))%nat).
  { refine (work_loop_inv _ (fun x => unique_ids (aw_db x) /\ (unseen_count (kind G) task (aw_db x) <= unseen_count (kind G) task (aw_db w2))%nat)
      _ _ _ _ _ _ H3); [|by split].
    intros s q s' [Ha Hb] Hs. split; [by apply (turn_inv (Worker := fetch_worker fetch_user Hu task t) _ _ _ Ha Hs)|].
    apply (fetch_turn_no_more task t Hug) in Hs. unfold no_more in Hs. cbn in Hs. lia. }
  apply (@worker_loop _ _ _ _ _ (fetch_worker fetch_group Hg task t)); [apply Hinv|].
  specialize (Hlt (kind G)). destruct Hinv. lia.
Qed.
End All.

End Queue.
