(* ===== verification/OperationExample.v ===== *)
(** * The operation queue on concrete data *)

From S2P Require Import Prelude Messages ClientBase OutboundDb OutboundWorker ClientGroup PendingOperation OperationQueue OperationQueueCorrect.

Module ToyQueue.

#[export] Instance toy_table : HasOperations (list OperationRow).
Proof. refine {| operations := fun l => l; set_operations := fun l _ => l |}. done. Defined.

Inductive ToyUser := toy_user (id : Z).
Inductive ToyGroup := toy_group (id : Z).
#[export] Instance toy_user_data : OperationData ToyUser :=
  {| kind := FetchUserProfile; generate_id := fun '(toy_user n) => [0; n]; to_blob := fun '(toy_user n) => [n];
     from_blob := fun b => toy_user <$> head b |}.
#[export] Instance toy_group_data : OperationData ToyGroup :=
  {| kind := FetchGroupProfile; generate_id := fun '(toy_group n) => [1; n]; to_blob := fun '(toy_group n) => [n];
     from_blob := fun b => toy_group <$> head b |}.
#[export] Instance toy_tasks : TimedTaskCodec :=
  {| task_to_blob := fun k => match k with
       | KeyPackageUpload => [0] | UsernameRefresh => [1] | SelfUpdate => [2]
       | TokenReplenishment t => [3; t] | ApqKeyPackageUpload => [4] end;
     task_from_blob := fun b => match b with
       | [0] => Some KeyPackageUpload | [1] => Some UsernameRefresh | [2] => Some SelfUpdate
       | [3; t] => Some (TokenReplenishment t) | [4] => Some ApqKeyPackageUpload | _ => None end |}.

Abbreviation QW := (AccessWorld (list OperationRow) unit).
Definition toy_world (l : list OperationRow) : QW :=
  {| aw_db := l; aw_notifier := ∅; aw_sent := []; aw_requests := []; aw_clock := 0 |}.
Definition no_failure : nat -> option SqlxError := fun _ => None.
Definition toy_now (n : nat) : TimeStamp := 1000 + Z.of_nat n.
Definition toy_v4 (n : nat) : Uuid := 5000 + Z.of_nat n.
Definition running : nat -> bool := fun _ => false.
(** A server that cannot be reached, and tasks that are done again in a minute. *)
Definition offline {T} (_ : T) : M QW JobError unit := throw JobNetworkError.
Definition every_minute (_ : TimedTaskKind) : M QW OutError Z := mret (60 * 1000000000).

Definition toy_row (x : ToyUser) (n : Z) : OperationRow :=
  {| op_id := generate_id x; op_kind := FetchUserProfile; op_data := to_blob x; op_created_at := 1;
     op_scheduled_at := 1; op_retries := n; op_locked_by := UNLOCKED |}.
Definition toy_task (k : TimedTaskKind) (t n : Z) : OperationRow :=
  {| op_id := timed_task_id k; op_kind := TimedTask; op_data := task_to_blob k; op_created_at := 1;
     op_scheduled_at := t; op_retries := n; op_locked_by := UNLOCKED |}.
Definition toy_operation (x : ToyUser) (n : Z) : Operation ToyUser :=
  {| operation_id := generate_id x; data := x; created_at := 1; scheduled_at := 1; retries := n |}.

End ToyQueue.
Import ToyQueue.

Section Evaluate_queue.

Lemma offline_quiet {T} (x : T) k : QuietJob k (offline x).
Proof. split; [|intros task]; apply framed_throw; exact _. Qed.
Lemma every_minute_quiet x k : QuietJob k (every_minute x).
Proof. split; [|intros task]; apply framed_ret; exact _. Qed.

Lemma operation_workers_return_witness :
  returns (try_fetch_profiles no_failure toy_now toy_v4 (offline (T := ToyUser)) (offline (T := ToyGroup)) 9
    (toy_world [toy_row (toy_user 7) 0; toy_row (toy_user 8) 0])) /\
  returns (execute_timed_tasks no_failure toy_now toy_v4 running every_minute 9
    (toy_world [toy_row (toy_user 7) 0; toy_row (toy_user 8) 0])).
Proof.
  apply (operation_workers_return no_failure toy_now toy_v4 (U := ToyUser) (G := ToyGroup)); try (intros; apply offline_quiet).
  - intros. apply every_minute_quiet.
  - unfold unique_ids. cbn. repeat constructor; rewrite ?list_elem_of_In; cbn; intuition discriminate.
  - cbn. lia.
Defined.

(** A profile that failed four times is given up. *)
Lemma fetch_profile_uses_attempt_witness :
  let w := toy_world [toy_row (toy_user 7) 4] in
  let w' := (fetch_profile no_failure offline (toy_operation (toy_user 7) 4) 1000 w).2 in
  operations (aw_db w') = [] /\
  0 <= attempts_left [0; 7] (aw_db w') < attempts_left [0; 7] (aw_db w).
Proof.
  split; [vm_compute; reflexivity|].
  apply (fetch_profile_uses_attempt no_failure offline (toy_operation (toy_user 7) 4) 1000
    (toy_world [toy_row (toy_user 7) 4]) Continue _ (toy_row (toy_user 7) 4)); try reflexivity.
  - apply framed_throw; exact _.
  - cbn. unfold NUM_RETRIES. lia.
Defined.

(** A task whose counter has just overflowed, before a task that is due as well. *)
Definition overflowed : OperationRow := toy_task SelfUpdate 10 (2 ^ 16).
Definition stuck_world : QW := toy_world [toy_task KeyPackageUpload 20 3; overflowed].

(** The last run before: the counter goes from [2 ^ 16 - 1] to [2 ^ 16]. *)
Lemma counter_overflows :
  map op_retries (operations (aw_db (work_loop 3 (timed_turn no_failure toy_now running every_minute 77)
    (toy_world [toy_task SelfUpdate 10 (2 ^ 16 - 1)])).2)) = [2 ^ 16].
Proof. vm_compute. reflexivity. Qed.

Lemma large_counter_stops_timed_tasks_witness :
  exists w', execute_timed_tasks no_failure toy_now toy_v4 running every_minute 5 stuck_world =
    (Err (Some SqlxDecode), w') /\ aw_requests w' = [] /\ first_task overflowed (aw_db w').
Proof.
  destruct (large_counter_stops_timed_tasks no_failure toy_now toy_v4 running every_minute 4 stuck_world overflowed)
    as (w' & He & Hq & _ & _ & Hf & _); [reflexivity|reflexivity| | |discriminate| | |exact (ex_intro _ w' (conj He (conj Hq Hf)))].
  - unfold unique_ids. cbn. repeat constructor; rewrite ?list_elem_of_In; cbn; intuition discriminate.
  - split; [by right; left|]. split; [done|]. intros r' [<-|[<-|[]]]; done.
  - intros n. cbn. unfold toy_now. lia.
  - intros n. cbn. unfold toy_v4, UNLOCKED. lia.
Defined.

End Evaluate_queue.
